(* ===== verification/_CoqProject ===== *)
-Q . S2P
Prelude.v
Sha256.v
Bitmap.v
Wire.v
Scheduler.v
RecvWindow.v
Credit.v
CreditProps.v
WireV2.v
WireV2Handshake.v
WireV2Bundle.v
WireV2BundleProps.v
Transcript.v
Negotiation.v
NegotiationProps.v
HandshakeDemo.v
Handshake.v
HandshakeInv.v
HandshakeSteps.v
HandshakeDial.v
HandshakeReceive.v
HandshakeRun.v
HandshakeTime.v
HandshakeFinish.v
HandshakeProps.v
HandshakeEngineDemo.v
Fec.v
FecReplay.v
FecDecoder.v
FecDecoderProps.v
FecDelivery.v
FecRecovery.v
Transport.v
Config.v
Session.v
SessionListener.v
SessionInv.v
SessionWire.v
SessionSteps.v
SessionRun.v
SessionMethods.v
SessionReach.v
SessionBirth.v
SessionProps.v
SessionDeliver.v
SessionChannel.v
SessionTransit.v
SessionHandshake.v
SessionDemo.v
FecV2.v
FecV2Props.v
FecV2Packing.v
CreditScope.v
Reassembly.v
ReassemblyList.v
ReassemblyRanges.v
ReassemblyProps.v
ReassemblyInv.v
ReassemblySteps.v
ReassemblyRun.v
ReassemblyDemo.v
Aggregation.v
AggregationProps.v
AggregationSeal.v
AggregationRun.v
AggregationStream.v
Pipeline.v
AggregationDemo.v
SessionV2Types.v
SessionV2Control.v
SessionV2Send.v
SessionV2Data.v
SessionV2.v
SessionV2Rules.v
SessionV2Frames.v
SessionV2Run.v
SessionV2Paths.v
SessionV2Rate.v
SessionV2Owned.v
SessionV2Demo.v
