(* ===== verification/Prelude.v ===== *)
(** * Verification of the MPUDP datagram tunnel

    MPUDP carries datagrams over several UDP paths: each datagram is split into
    Reed-Solomon shards, the shards are authenticated, spread over the paths, and
    any k of them rebuild the datagram.  Version 2 adds a negotiated handshake,
    bundles of FEC groups and a credit ledger that bounds what a peer may make the
    process retain.  This library models the protocol core of the Go sources under
    [src/internal] as executable functions and proves what each part promises.

    ** How Go is modelled

    [error] results are the type [result E A] ([Ok]/[Err]); [let?], [check] and
    [fail] are the Go idioms of early return.  Unsigned integers are [Z] with the
    wrap written out ([u8] ... [u64]), [int] is 64 bits ([goInt] in [Fec]); byte
    slices are lists of bytes, [nil] is [None] where the code distinguishes it.
    Methods that run under one mutex are one function on the state; time is an
    argument (the clock reading the method takes).  Pointers are modelled where
    aliasing matters: the credit ledger is a heap of Peers, Sessions and Leases.

    ** Parts

    - [Prelude]: results, machine integers, big-endian bytes, slices, sums over
      finite maps, the tactics [go_inv], [bools], [slices], [unslice].
    - [Sha256]: an executable SHA-256 and HMAC (crypto/sha256, crypto/hmac), with
      the [hash.Hash] state machine [mac_Reset]/[mac_Write]/[mac_Sum].
    - [Wire] (internal/wire): packets of protocol version 1, their validation and
      codec, and the [Authenticator] with its bounded cache of HMAC states.
    - [WireV2], [WireV2Handshake], [WireV2Bundle] (internal/wirev2): envelope,
      handshake TLVs, established routes, encoding contexts, FEC bundles;
      [WireV2BundleProps] has their theorems.
    - [Transcript] (wirev2/transcript.go, keys.go): transcript digests, confirmation
      messages, HKDF key derivation.
    - [Negotiation], [NegotiationProps] (internal/negotiationv2): offers, selection,
      acceptance and the TLV form of a contract.  [HandshakeDemo] runs them.
    - [Scheduler] (internal/scheduler): spreading shards over paths.
    - [Bitmap]: the ring bitmap that [RecvWindow] (internal/recvwindow) and
      [FecReplay] (internal/fec/replay_window.go) share.
    - [Credit], [CreditProps] (internal/creditv2): the credit ledger.
    - [Fec], [FecDecoder] (internal/fec): limits, encoder, decoder.
      [FecDecoderProps] is the representation invariant, [FecDelivery] what holds of
      every sequence of calls, [FecRecovery] encoder and decoder together.
    - [FecV2] (internal/fecv2): groups, their manifest and greedy packing;
      [FecV2Props] is the codec's round trip, [FecV2Packing] the packing loop.
    - [CreditScope]: the interface [Ledger] and its laws, against which the queues
      are verified, and the proof that [Credit] implements it.
    - [Aggregation] (internal/aggregationv2): the send queue with its workspaces.
      [AggregationProps] is its ring and its plan, [AggregationSeal] one seal,
      [AggregationRun] every operation, [AggregationStream] all runs.
    - [Reassembly] (internal/reassemblyv2): the Receiver.  [ReassemblyList] is its
      linked list, [ReassemblyRanges] the sorted ranges, [ReassemblyProps],
      [ReassemblyInv] and [ReassemblySteps] the invariant and each operation,
      [ReassemblyRun] all runs, [ReassemblyDemo] a concrete one.
    - [Handshake] (internal/handshakev2): the [Engine] of version 2 with every method;
      [HandshakeInv] and [HandshakeSteps] are its invariant and its preservation,
      [HandshakeDial], [HandshakeReceive], [HandshakeRun], [HandshakeTime] and
      [HandshakeFinish] the operations, [HandshakeProps] the claims and
      [HandshakeEngineDemo] a whole exchange.  What an engine asks of its owner is
      the class [Adapter].
    - [Transport] (internal/transport, internal/metrics): block sends, path counters;
      the sockets and the clock are the class [Sockets].  [Config]: the limits of
      config/defaults.go.
    - [Session], [SessionListener] (internal/session): the session of version 1 and
      the registry of a listener.  [SessionInv] is the invariant, [SessionWire] the
      control packets, [SessionSteps], [SessionRun] and [SessionMethods] the sections
      and methods, [SessionReach] every interleaving of sections and sends,
      [SessionBirth] how Sessions of both roles are created, [SessionProps] and
      [SessionDeliver] the claims on one Session.  [SessionChannel] is what a datagram
      puts on the paths, [SessionTransit] its way to the other Session,
      [SessionHandshake] the handshake between the two, [SessionDemo] a run.
    - [SessionV2Types], [SessionV2Control], [SessionV2Send], [SessionV2Data],
      [SessionV2] (internal/sessionv2: types.go; control.go; send_intent.go,
      send_control.go, send_data.go; data.go, statistics.go; controller.go): the
      Controller of version 2, in a monad [M] that passes the Controller, the [Result],
      the issued intents, the output workspaces, the credit ledger and the owner's adapter.  What a
      Controller asks of its owner (emission, entropy, senders, the order of a Go map)
      is the class [Links], the sizes that the compiler chooses the class [Layout].
      [SessionV2Rules] has the rules for operations ([wp], [evolves] and the tactic
      [evolve]), [SessionV2Frames] what each operation leaves alone and the fuel of
      [driveData], [SessionV2Run] the calls of the owner and the reachable states, with
      the class [Admits] of relations that every call respects; [SessionV2Paths] (path
      validation), [SessionV2Rate] (pacing) and [SessionV2Owned] (owned sends) have the
      claims, [SessionV2Demo] runs two Controllers.
    - [Pipeline]: queue, groups and Receiver composed; [AggregationDemo] runs them.

    ** What the theorems show

    Round trips: a packet decodes exactly when it is the encoding of a well-formed
    message under the key ([DecodeAuthenticated_iff_Append] and its version 2
    counterparts), and any k shards of an encoded datagram deliver it unchanged
    under arbitrary interleaving ([any_k_shards_deliver]).  End to end: whatever is
    admitted to the send queue of version 2 and sealed reaches the other side's
    application once and unchanged when any k shards of each group arrive
    ([sealed_is_delivered]).  A
    datagram that one Session of version 1 writes is delivered by the other
    ([session_transit]), and the handshake that connects the two completes with both
    ends agreeing ([handshake_agrees]).  Safety: the handler runs
    only for authentic packets, a Session of version 1 changes nothing for a packet
    that is not its own and delivers each datagram at most once under every
    interleaving of calls and sends, confirmations bind the whole exchange, directions
    and uses of keys are separated, a PacketID is delivered at most once.  A Controller
    of version 2 moves a path only on a validated join ([path_authority]), ignores what
    it cannot authenticate ([unauthentic_ignored]) and keeps every path within its rate
    ([path_rate]); packets that it gives to its owner are outstanding exactly until
    they are completed ([intent_lifecycle], [sends_accounted]).
    Invariants and bounds: the ledger conserves credit in every reachable heap, the
    decoder retains a bounded number of bytes and its statistics are exact, limits
    do not overflow, a Session keeps a bounded number of endpoints and probes and
    nothing after it closed, the handshake engine a bounded number of attempts.  Refinement: the ring bitmaps implement unbounded histories, the
    cached authenticators implement the stateless functions.  Error behaviour:
    refused operations leave no state behind.

    ** Fuel

    The loops that are not structural take fuel: the clearing loops of the ring
    bitmaps run at most once per cleared position (fuel: the distance), the TLV
    parser consumes at least four bytes per round (fuel: the length of its input),
    the record loop of a bundle runs [count] times, the binary search over the ranges
    of an assembly at most once per range, the expiry loops of the Receiver at most
    once per pending assembly, and the caller's packing loop at most once per fragment
    and byte.  The handshake engine draws entropy at most four times, the bound of the
    source, and fills a dial at most once per carrier; a decimal number of a path
    identity has at most twenty digits.  A Controller draws a nonce at most four times,
    again the bound of the source; [driveData] emits a packet in every iteration that
    goes on and a call emits at most [MaxSendsPerStep] ([driveData_enough]), and
    [expireGroups] removes a group per iteration, so the number of groups is enough.
    The theorems about these
    functions hold for the fuel the callers pass, so it is never exhausted.

    ** Third-party code

    klauspost/reedsolomon is the class [Fec.ReedSolomon] with the documented laws of
    a codec, [Fec.Lawful]; [Fec.xorCodec] is a concrete lawful codec.
    container/heap is modelled by its contract: a queue in [Pop] order.

    ** Not modelled

    Sockets, goroutines and timers (internal/transport, the Peer API at the root of the
    module, which runs the modelled parts), configuration parsing and validation beyond
    the limits (a third-party YAML package), and the command line and measurement
    tools. *)

From Stdlib Require Export ZArith Lia.
From Stdlib Require Import Strings.Byte.
From stdpp Require Export base numbers list gmap.
From stdpp Require Import options.

#[global] Open Scope Z_scope.
#[global] Open Scope bool_scope.

(** ** Go results: a value or an error *)

Inductive result (E A : Type) : Type :=
| Ok (a : A)
| Err (e : E).
Arguments Ok {E A} a.
Arguments Err {E A} e.

#[global] Instance result_eq_dec {E A} `{EqDecision E, EqDecision A} :
  EqDecision (result E A).
Proof. solve_decision. Defined.

Definition result_bind {E A B} (f : A -> result E B) (r : result E A) : result E B :=
  match r with Ok a => f a | Err e => Err e end.

Definition is_ok {E A} (r : result E A) : bool :=
  match r with Ok _ => true | Err _ => false end.

Declare Scope go_scope.
Delimit Scope go_scope with go.
#[global] Open Scope go_scope.

(** [let? x := c in k] is the Go idiom [x, err := c; if err != nil { return err }; k]. *)
Notation "'let?' x ':=' c 'in' k" := (result_bind (fun x => k) c)
  (at level 10, x name, c at level 100, k at level 200,
   format "'[v' 'let?'  x  ':='  c  'in' '/' k ']'") : go_scope.
Notation "'let?' ' p ':=' c 'in' k" := (result_bind (fun p => k) c)
  (at level 10, p strict pattern, c at level 100, k at level 200) : go_scope.

(** [check e in k] is [if err := e; err != nil { return err }; k]. *)
Notation "'check' e 'in' k" :=
  (match e with Some err => Err err | None => k end)
  (at level 10, e at level 100, k at level 200) : go_scope.

(** [fail c e in k] is [if c { return e }; k]. *)
Notation "'fail' c 'with' e 'in' k" := (if c then Err e else k)
  (at level 10, c at level 100, e at level 100, k at level 200) : go_scope.

Lemma result_bind_ok {E A B} (f : A -> result E B) (r : result E A) (b : B) :
  result_bind f r = Ok b <-> exists a, r = Ok a /\ f a = Ok b.
Proof. destruct r; simpl; naive_solver. Qed.

Lemma result_bind_err {E A B} (f : A -> result E B) (r : result E A) (e : E) :
  result_bind f r = Err e <-> r = Err e \/ exists a, r = Ok a /\ f a = Err e.
Proof. destruct r; simpl; naive_solver. Qed.

(** ** Record updates

    [r <| f := v |>] is the assignment [r.f = v] of the source, and [r <| f ::= g |>]
    applies [g] to the field.  A record type declares its fields once, as [Settable];
    the update of each field is found from that declaration. *)

Class Settable (R : Type) := eta : R -> R.
Class Setter {R E : Type} (f : R -> E) := update : (E -> E) -> R -> R.

Ltac derive_setter R E f :=
  let e := eval hnf in (@eta R _) in
  match eval pattern f in e with
  | ?g _ => let s := eval cbv beta in (fun (h : E -> E) (r : R) => g (fun x => h (f x)) r) in exact s
  end.
#[export] Hint Extern 0 (@Setter ?R ?E ?f) => derive_setter R E f : typeclass_instances.

Notation "r <| f := v |>" := (update (f := f) (fun _ => v) r)
  (at level 1, f constr, v at level 200, format "r  <| f  :=  v |>") : go_scope.
Notation "r <| f ::= g |>" := (update (f := f) g r)
  (at level 1, f constr, g at level 200, format "r  <| f  ::=  g |>") : go_scope.

(** ** Machine integers: unsigned values as [Z] with the wrap-around written out *)

Definition wrap (w : Z) (z : Z) : Z := z mod 2 ^ w.
Definition u8 (z : Z) : Z := wrap 8 z.
Definition u16 (z : Z) : Z := wrap 16 z.
Definition u32 (z : Z) : Z := wrap 32 z.
Definition u64 (z : Z) : Z := wrap 64 z.

(** Go's [int] on the supported 64-bit platforms. *)
Definition maxInt : Z := 2 ^ 63 - 1.
Definition maxUint64 : Z := 2 ^ 64 - 1.

Definition in_u (w z : Z) : Prop := 0 <= z < 2 ^ w.

Lemma wrap_small w z : in_u w z -> wrap w z = z.
Proof. intros H. by apply Z.mod_small. Qed.

Lemma wrap_range w z : 0 <= w -> in_u w (wrap w z).
Proof. intros Hw. apply Z.mod_pos_bound, Z.pow_pos_nonneg; lia. Qed.

(** ** Bytes *)

Abbreviation byte := Byte.byte.
Abbreviation bytes := (list byte).

#[global] Instance byte_eq_dec : EqDecision byte := Byte.byte_eq_dec.
#[global] Instance byte_inhabited : Inhabited byte := populate Byte.x00.

Definition Z_of_byte (b : byte) : Z := Z.of_N (Byte.to_N b).
Definition byte_of_Z (z : Z) : byte :=
  match Byte.of_N (Z.to_N (z mod 256)) with Some b => b | None => Byte.x00 end.

Lemma Z_of_byte_range b : 0 <= Z_of_byte b < 256.
Proof. unfold Z_of_byte. pose proof (Byte.to_N_bounded b). lia. Qed.

Lemma Z_of_byte_of_Z z : Z_of_byte (byte_of_Z z) = z mod 256.
Proof.
  unfold Z_of_byte, byte_of_Z.
  pose proof (Z.mod_pos_bound z 256 ltac:(lia)) as Hr.
  destruct (Byte.of_N (Z.to_N (z mod 256))) as [b|] eqn:E.
  - apply Byte.to_of_N in E. rewrite E. lia.
  - apply Byte.of_N_None_iff in E. lia.
Qed.

Lemma byte_of_Z_of_byte b : byte_of_Z (Z_of_byte b) = b.
Proof.
  unfold byte_of_Z. pose proof (Z_of_byte_range b).
  rewrite Z.mod_small by lia. unfold Z_of_byte. rewrite N2Z.id.
  by rewrite Byte.of_to_N.
Qed.

#[export] Instance byte_countable : Countable byte :=
  inj_countable' Z_of_byte byte_of_Z byte_of_Z_of_byte.

Lemma Z_of_byte_inj b1 b2 : Z_of_byte b1 = Z_of_byte b2 -> b1 = b2.
Proof. intros H. by rewrite <- (byte_of_Z_of_byte b1), H, byte_of_Z_of_byte. Qed.

Lemma Z_of_byte_0 b : Z_of_byte b = 0 <-> b = Byte.x00.
Proof. split; [intros H; by apply Z_of_byte_inj | by intros ->]. Qed.

(** [len] is Go's built-in: the length as an [int]. *)
Definition len {A} (l : list A) : Z := Z.of_nat (length l).

Lemma len_nonneg {A} (l : list A) : 0 <= len l.
Proof. unfold len. lia. Qed.
Lemma len_nil {A} : len (@nil A) = 0.
Proof. done. Qed.
Lemma len_cons {A} (x : A) l : len (x :: l) = 1 + len l.
Proof. unfold len. simpl. lia. Qed.
Lemma len_app {A} (l1 l2 : list A) : len (l1 ++ l2) = len l1 + len l2.
Proof. unfold len. rewrite length_app. lia. Qed.
Lemma len_zero {A} (l : list A) : len l = 0 <-> l = [].
Proof. unfold len. destruct l; simpl; split; intros; (done || lia). Qed.
Lemma len_pos {A} (l : list A) : l <> [] -> 0 < len l.
Proof. destruct l; [done|]. unfold len. simpl. lia. Qed.
Lemma len_replicate {A} n (x : A) : len (replicate n x) = Z.of_nat n.
Proof. unfold len. by rewrite length_replicate. Qed.
Lemma len_eq {A} (l : list A) n : len l = Z.of_nat n <-> length l = n.
Proof. unfold len. lia. Qed.

(** ** Big-endian integers ([encoding/binary.BigEndian]) *)

Fixpoint be_put (n : nat) (z : Z) : bytes :=
  match n with
  | O => []
  | S n' => byte_of_Z (Z.shiftr z (8 * Z.of_nat n')) :: be_put n' z
  end.

Fixpoint be_get (l : bytes) : Z :=
  match l with
  | [] => 0
  | b :: l' => Z_of_byte b * 2 ^ (8 * len l') + be_get l'
  end.

Lemma be_get_range l : 0 <= be_get l < 2 ^ (8 * len l).
Proof.
  induction l as [|b l IH]; [done|].
  cbn [be_get]. pose proof (Z_of_byte_range b). pose proof (len_nonneg l).
  rewrite len_cons. replace (8 * (1 + len l)) with (8 + 8 * len l) by lia.
  rewrite Z.pow_add_r by lia. nia.
Qed.

Lemma length_be_put n z : length (be_put n z) = n.
Proof. induction n; simpl; congruence. Qed.

Lemma len_be_put n z : len (be_put n z) = Z.of_nat n.
Proof. unfold len. by rewrite length_be_put. Qed.

Lemma len_be_put2 z : len (be_put 2 z) = 2.
Proof. done. Qed.
Lemma len_be_put4 z : len (be_put 4 z) = 4.
Proof. done. Qed.
Lemma len_be_put8 z : len (be_put 8 z) = 8.
Proof. done. Qed.

Lemma be_get_put n z : be_get (be_put n z) = z mod 2 ^ (8 * Z.of_nat n).
Proof.
  induction n as [|n IH]; [by rewrite Z.mod_1_r|].
  cbn [be_put be_get]. rewrite len_be_put, IH, Z_of_byte_of_Z.
  rewrite Z.shiftr_div_pow2 by lia. change 256 with (2 ^ 8).
  replace (8 * Z.of_nat (S n)) with (8 * Z.of_nat n + 8) by lia.
  rewrite (Z.pow_add_r 2 _ 8), Z.rem_mul_r by lia. lia.
Qed.

Lemma be_put_mod n z : be_put n (z mod 2 ^ (8 * Z.of_nat n)) = be_put n z.
Proof.
  revert z. assert (H : forall m z, (n <= m)%nat ->
    be_put n (z mod 2 ^ (8 * Z.of_nat m)) = be_put n z); [|by intros; apply H].
  induction n as [|n IH]; intros m z Hm; [done|]. cbn [be_put].
  rewrite IH by lia. f_equal. apply Z_of_byte_inj. rewrite !Z_of_byte_of_Z.
  change 256 with (2 ^ 8). rewrite <- !Z.land_ones by lia.
  apply Z.bits_inj'; intros i Hi.
  rewrite !Z.land_spec, !Z.shiftr_spec, Z.land_spec by lia.
  destruct (Z.lt_ge_cases i 8).
  - rewrite !Z.ones_spec_low by lia. by rewrite andb_true_r.
  - by rewrite (Z.ones_spec_high 8 i), !andb_false_r by lia.
Qed.

Lemma be_put_get l : be_put (length l) (be_get l) = l.
Proof.
  induction l as [|b l IH]; [done|]. cbn [be_put be_get length].
  pose proof (be_get_range l) as Hr. unfold len in *. f_equal.
  - rewrite Z.shiftr_div_pow2, Z.div_add_l, Z.div_small, Z.add_0_r by lia.
    apply byte_of_Z_of_byte.
  - rewrite <- be_put_mod, Z.add_comm, Z.mod_add, Z.mod_small by lia. done.
Qed.

Lemma be_get_put_small n z : in_u (8 * Z.of_nat n) z -> be_get (be_put n z) = z.
Proof. intros H. by rewrite be_get_put, Z.mod_small. Qed.

Lemma be_put_get_n n l : length l = n -> be_put n (be_get l) = l.
Proof. intros <-. apply be_put_get. Qed.

Lemma be_get_u n l : length l = n -> in_u (8 * Z.of_nat n) (be_get l).
Proof. intros <-. pose proof (be_get_range l). by unfold in_u, len in *. Qed.

(** ** Go slices: [b[i:j]] for [i <= j <= len b] *)

Definition slice {A} (i j : nat) (l : list A) : list A := take (j - i) (drop i l).
Arguments slice {A} (i j)%_nat_scope l.

Lemma length_slice {A} i j (l : list A) :
  (j <= length l)%nat -> length (slice i j l) = (j - i)%nat.
Proof. intros H. unfold slice. rewrite length_take, length_drop. lia. Qed.

Lemma slice_app_r {A} i j (l1 l2 : list A) :
  (length l1 <= i)%nat ->
  slice i j (l1 ++ l2) = slice (i - length l1) (j - length l1) l2.
Proof.
  intros H. unfold slice. rewrite drop_app_ge by lia. f_equal. lia.
Qed.

Lemma slice_app_l {A} (l1 l2 : list A) : slice 0 (length l1) (l1 ++ l2) = l1.
Proof. unfold slice. rewrite drop_0, Nat.sub_0_r. apply take_app_length. Qed.

Lemma slice_all {A} (l : list A) : slice 0 (length l) l = l.
Proof. unfold slice. rewrite drop_0, Nat.sub_0_r. by apply firstn_all. Qed.

Lemma slice_join {A} i j k (l : list A) :
  (i <= j <= k)%nat -> slice i j l ++ slice j k l = slice i k l.
Proof.
  intros [Hij Hjk]. unfold slice.
  replace (drop j l) with (drop (j - i) (drop i l)) by (rewrite drop_drop; f_equal; lia).
  rewrite <- (take_drop (j - i) (take (k - i) (drop i l))).
  rewrite take_take, Nat.min_l by lia. f_equal.
  rewrite skipn_firstn_comm. f_equal. lia.
Qed.

Lemma slice_to_end {A} i (l : list A) : slice i (length l) l = drop i l.
Proof.
  unfold slice. rewrite <- length_drop. by apply firstn_all.
Qed.

(** ** Zero checks on fixed arrays and padding *)

Definition allZero (data : bytes) : bool := forallb (fun b => Z_of_byte b =? 0) data.

Lemma allZero_replicate n : allZero (replicate n Byte.x00) = true.
Proof. induction n; [done|]. simpl. done. Qed.

Lemma allZero_eq l : allZero l = true <-> l = replicate (length l) Byte.x00.
Proof.
  split; [|intros ->; apply allZero_replicate].
  induction l as [|b l IH]; [done|]. simpl. intros [Hb Hl]%andb_prop.
  apply Z.eqb_eq, Z_of_byte_0 in Hb as ->. f_equal. auto.
Qed.

(** ** Statically known lengths

    [Len l n] lets the slicing lemmas below find the length of a field of an
    encoded packet by instance search, hypotheses included. *)

Class Len {A} (l : list A) (n : nat) : Prop := len_is : length l = n.

#[export] Instance Len_nil {A} : Len (@nil A) 0 := eq_refl.
#[export] Instance Len_cons {A} (x : A) l n : Len l n -> Len (x :: l) (S n).
Proof. intros H. unfold Len in *. simpl. by f_equal. Qed.
#[export] Instance Len_app {A} (l1 l2 : list A) n m :
  Len l1 n -> Len l2 m -> Len (l1 ++ l2) (n + m).
Proof. unfold Len. intros <- <-. apply length_app. Qed.
#[export] Instance Len_be_put n z : Len (be_put n z) n := length_be_put n z.
#[export] Instance Len_replicate {A} n (x : A) : Len (replicate n x) n := length_replicate n x.

Lemma slice_skip {A} (l1 l2 : list A) n i j `{Hl : !Len l1 n} :
  (n <=? i)%nat = true -> slice i j (l1 ++ l2) = slice (i - n) (j - n) l2.
Proof. intros H%Nat.leb_le. red in Hl. subst n. by apply slice_app_r. Qed.

Lemma slice_left {A} (l1 l2 : list A) n i j `{Hl : !Len l1 n} :
  (j <=? n)%nat = true -> slice i j (l1 ++ l2) = slice i j l1.
Proof.
  intros H%Nat.leb_le. red in Hl. subst n. unfold slice.
  destruct (decide (i <= length l1)%nat).
  - rewrite drop_app_le by lia. apply take_app_le. rewrite length_drop. lia.
  - by replace (j - i)%nat with 0%nat by lia.
Qed.

Lemma slice_take {A} (l1 l2 : list A) n `{Hl : !Len l1 n} : slice 0 n (l1 ++ l2) = l1.
Proof. red in Hl. subst n. apply slice_app_l. Qed.

Lemma slice_whole {A} (l : list A) n `{Hl : !Len l n} : slice 0 n l = l.
Proof. red in Hl. subst n. apply slice_all. Qed.

Lemma drop_skip {A} (l1 l2 : list A) n i `{Hl : !Len l1 n} :
  (n <=? i)%nat = true -> drop i (l1 ++ l2) = drop (i - n) l2.
Proof. intros H%Nat.leb_le. red in Hl. subst n. by apply drop_app_ge. Qed.

(** One byte of a packet, as the integer Go reads. *)
Definition byte_at (i : nat) (l : bytes) : Z := Z_of_byte (nth i l Byte.x00).

Lemma byte_at_range i l : 0 <= byte_at i l < 256.
Proof. apply Z_of_byte_range. Qed.

Lemma byte_at_skip (l1 l2 : bytes) n i `{Hl : !Len l1 n} :
  (n <=? i)%nat = true -> byte_at i (l1 ++ l2) = byte_at (i - n) l2.
Proof.
  intros H%Nat.leb_le. red in Hl. subst n. unfold byte_at. by rewrite app_nth2.
Qed.

Lemma byte_at_cons_0 z l : in_u 8 z -> byte_at 0 (byte_of_Z z :: l) = z.
Proof. intros H. unfold byte_at. simpl. by rewrite Z_of_byte_of_Z, Z.mod_small. Qed.

Lemma byte_at_cons_S i b l : byte_at (S i) (b :: l) = byte_at i l.
Proof. done. Qed.

Lemma slice_cons_S {A} i j (x : A) l : slice (S i) (S j) (x :: l) = slice i j l.
Proof. done. Qed.

Lemma drop_cons_S {A} i (x : A) l : drop (S i) (x :: l) = drop i l.
Proof. done. Qed.

Lemma slice_byte i (l : bytes) :
  (i < length l)%nat -> slice i (S i) l = [byte_of_Z (byte_at i l)].
Proof.
  intros H. unfold slice, byte_at. rewrite byte_of_Z_of_byte.
  replace (S i - i)%nat with 1%nat by lia.
  rewrite (drop_S l (nth i l Byte.x00) i); [done|].
  destruct (lookup_lt_is_Some_2 l i H) as [x Hx]. rewrite Hx.
  apply nth_lookup_Some with (d := Byte.x00) in Hx. by subst.
Qed.

Lemma be_put_slice n i j (l : bytes) :
  (j <= length l)%nat -> (j - i)%nat = n -> be_put n (be_get (slice i j l)) = slice i j l.
Proof. intros H1 H2. apply be_put_get_n. by rewrite length_slice. Qed.

Lemma be_get_slice_range n i j (l : bytes) :
  (j <= length l)%nat -> (j - i)%nat = n -> in_u (8 * Z.of_nat n) (be_get (slice i j l)).
Proof. intros H1 H2. apply be_get_u. by rewrite length_slice. Qed.

(** ** Sums over maps *)

Section msum.
Context {K A : Type} `{Countable K}.
Implicit Types (m : gmap K A) (f g : A -> Z).

Definition msum f m : Z := map_fold (fun _ a acc => f a + acc) 0 m.

Lemma msum_empty f : msum f ∅ = 0.
Proof. apply map_fold_empty. Qed.

Lemma msum_insert f m k a : m !! k = None -> msum f (<[k := a]> m) = f a + msum f m.
Proof.
  intros Hk. unfold msum. rewrite map_fold_insert_L; [done| |done].
  intros; lia.
Qed.

Lemma msum_delete f m k a : m !! k = Some a -> msum f (delete k m) = msum f m - f a.
Proof.
  intros Hk. rewrite <- (insert_delete_id m k a Hk) at 2.
  rewrite msum_insert by apply lookup_delete_eq. lia.
Qed.

Lemma msum_update f m k a b :
  m !! k = Some a -> msum f (<[k := b]> m) = msum f m - f a + f b.
Proof.
  intros Hk. rewrite <- insert_delete_eq, msum_insert by apply lookup_delete_eq.
  rewrite (msum_delete _ _ _ a) by done. lia.
Qed.

Lemma msum_ext f g m :
  (forall k a, m !! k = Some a -> f a = g a) -> msum f m = msum g m.
Proof.
  induction m as [|k a m Hk IH] using map_ind; [by rewrite !msum_empty|].
  intros Hfg. rewrite !msum_insert by done. f_equal.
  - apply (Hfg k), lookup_insert_eq.
  - apply IH. intros k' a' Hk'. apply (Hfg k'). rewrite lookup_insert_ne; [done|].
    intros ->. congruence.
Qed.

Lemma msum_nonneg f m : (forall k a, m !! k = Some a -> 0 <= f a) -> 0 <= msum f m.
Proof.
  induction m as [|k a m Hk IH] using map_ind; [by rewrite msum_empty|].
  intros Hf. rewrite msum_insert by done.
  assert (0 <= f a) by apply (Hf k), lookup_insert_eq.
  assert (0 <= msum f m); [|lia]. apply IH. intros k' a' Hk'. apply (Hf k').
  rewrite lookup_insert_ne; [done|]. intros ->. congruence.
Qed.

Lemma msum_member f m k a :
  (forall k a, m !! k = Some a -> 0 <= f a) -> m !! k = Some a -> f a <= msum f m.
Proof.
  intros Hf Hk. pose proof (msum_delete f m k a Hk).
  assert (0 <= msum f (delete k m)); [|lia]. apply msum_nonneg.
  intros k' a' [_ ?]%lookup_delete_Some. eauto.
Qed.

Lemma msum_le f g m :
  (forall k a, m !! k = Some a -> f a <= g a) -> msum f m <= msum g m.
Proof.
  induction m as [|k a m Hk IH] using map_ind; [by rewrite !msum_empty|].
  intros Hfg. rewrite !msum_insert by done. apply Z.add_le_mono.
  - apply (Hfg k). apply lookup_insert_eq.
  - apply IH. intros k' a' Hk'. apply (Hfg k'). rewrite lookup_insert_ne; [done|congruence].
Qed.

Lemma msum_zero f m : (forall k a, m !! k = Some a -> f a = 0) -> msum f m = 0.
Proof.
  intros Hf. rewrite (msum_ext f (fun _ => 0)) by done. clear Hf.
  induction m as [|k a m Hk IH] using map_ind; [by rewrite msum_empty|].
  by rewrite msum_insert.
Qed.
End msum.

Lemma msum_fmap {K A B} `{Countable K} (g : A -> B) (f : B -> Z) (m : gmap K A) :
  msum f (g <$> m) = msum (fun a => f (g a)) m.
Proof.
  induction m as [|k a m Hk IH] using map_ind; [done|].
  rewrite fmap_insert, !msum_insert, IH; [done|done|]. by rewrite lookup_fmap, Hk.
Qed.

(** Two options that are both [None] or hold related values. *)
Definition both {A} (R : A -> A -> Prop) (o o' : option A) : Prop :=
  match o, o' with Some a, Some b => R a b | None, None => True | _, _ => False end.

Lemma both_refl {A} (R : A -> A -> Prop) o : (forall a, R a a) -> both R o o.
Proof. intros H. destruct o; [apply H|done]. Qed.

Lemma both_mono {A} (R Q : A -> A -> Prop) o o' :
  (forall a b, R a b -> Q a b) -> both R o o' -> both Q o o'.
Proof. destruct o, o'; simpl; auto. Qed.

Lemma both_some {A} (R : A -> A -> Prop) o o' b :
  both R o o' -> o' = Some b -> exists a, o = Some a /\ R a b.
Proof. intros H ->. destruct o; simpl in H; [eauto|done]. Qed.

Lemma both_some_l {A} (R : A -> A -> Prop) o o' a :
  both R o o' -> o = Some a -> exists b, o' = Some b /\ R a b.
Proof. intros H ->. destruct o'; simpl in H; [eauto|done]. Qed.

Lemma msum_both {K A} `{Countable K} (f : A -> Z) (m m' : gmap K A) :
  (forall k, both (fun a b => f a = f b) (m !! k) (m' !! k)) -> msum f m = msum f m'.
Proof.
  intros H'. etrans; [symmetry; apply (msum_fmap f (fun z => z))|].
  etrans; [|apply (msum_fmap f (fun z => z))]. f_equal. apply map_eq. intros k. rewrite !lookup_fmap. specialize (H' k).
  destruct (m !! k), (m' !! k); cbn in *; try done. by f_equal.
Qed.

(** ** Automation *)

(** Reduce a hypothesis about a chain of guards by one guard. *)
Ltac go_step H :=
  lazymatch type of H with
  | Err _ = Ok _ => discriminate H
  | Ok _ = Err _ => discriminate H
  | Some _ = None => discriminate H
  | None = Some _ => discriminate H
  | Ok _ = Ok _ => injection H as H
  | Err _ = Err _ => injection H as H
  | result_bind _ ?r = Ok _ =>
      let x := fresh "x" in let E := fresh "E" in
      apply result_bind_ok in H; destruct H as (x & E & H)
  | (if ?c then _ else _) = _ =>
      let E := fresh "E" in destruct c eqn:E
  | (match ?c with _ => _ end) = _ =>
      let E := fresh "E" in destruct c eqn:E
  end.

(** Reduce it through every guard, discarding the branches that contradict it. *)
Ltac go_inv H := repeat (cbv beta zeta in H; first [progress go_step H; try discriminate H]).

(** Split the boolean guards a reduction leaves behind. *)
Ltac bools :=
  repeat match goal with
  | E : _ || _ = false |- _ => apply orb_false_elim in E as [? ?]
  | E : _ && _ = true |- _ => apply andb_prop in E as [? ?]
  | E : negb _ = false |- _ => apply negb_false_iff in E
  | E : negb _ = true |- _ => apply negb_true_iff in E
  | E : bool_decide _ = true |- _ => apply bool_decide_eq_true in E
  | E : bool_decide _ = false |- _ => apply bool_decide_eq_false in E
  end.

(** The same on the goal. *)
Ltac go_case :=
  repeat match goal with
  | |- context [if ?c then _ else _] =>
      lazymatch c with
      | context [if _ then _ else _] => fail
      | _ => let E := fresh "E" in destruct c eqn:E
      end
  end.

Create HintDb mpudp discriminated.
#[export] Hint Resolve Z_of_byte_range len_nonneg be_get_range : mpudp.

Create Rewrite HintDb len.
#[export] Hint Rewrite @len_app @len_cons @len_nil @len_replicate len_be_put2 len_be_put4 len_be_put8 : len.
#[export] Hint Rewrite @length_app @length_replicate length_be_put : len.

Lemma byte_slice i (l : bytes) r :
  (i < length l)%nat -> byte_of_Z (byte_at i l) :: r = slice i (S i) l ++ r.
Proof. intros H. by rewrite slice_byte. Qed.

Lemma slice_join_app {A} i j k (l : list A) r :
  (i <= j <= k)%nat -> slice i j l ++ slice j k l ++ r = slice i k l ++ r.
Proof. intros H. by rewrite app_assoc, slice_join. Qed.

Lemma slice_0_drop {A} k (l : list A) : slice 0 k l ++ drop k l = l.
Proof. unfold slice. rewrite drop_0, Nat.sub_0_r. apply take_drop. Qed.

Lemma drop_slice {A} i k (l : list A) : (k <= length l)%nat -> (i <= k)%nat ->
  slice i k l ++ drop k l = drop i l.
Proof.
  intros H1 H2. rewrite <- !slice_to_end. by rewrite slice_join by lia.
Qed.

Lemma slice_0_take {A} k (l : list A) : slice 0 k l = take k l.
Proof. unfold slice. by rewrite drop_0, Nat.sub_0_r. Qed.

(** Reassemble a list from the bytes and fields read from it. *)
Ltac unslice :=
  repeat match goal with
  | |- context [be_put ?n (be_get (slice ?i ?j ?l))] => rewrite (be_put_slice n i j l) by lia
  | |- context [byte_of_Z (byte_at ?i ?l) :: ?r] => rewrite (byte_slice i l r) by lia
  end;
  rewrite <- ?app_assoc; rewrite ?app_nil_r;
  repeat first [rewrite slice_join_app by lia | rewrite slice_join by lia | rewrite drop_slice by lia].

(** Side conditions on the width of a field. *)
Ltac width :=
  first [assumption | unfold in_u in *; lia | unfold in_u in *; cbn in *; lia].

(** Evaluate the slices of a packet written as a concatenation of fields. *)
Ltac slice_step :=
  match goal with
  | |- context [slice ?i ?j (?l1 ++ ?l2)] =>
      let H := constr:(_ : Len l1 _) in rewrite (slice_skip l1 l2 _ i j (Hl := H)) by reflexivity
  | |- context [byte_at ?i (?l1 ++ ?l2)] =>
      let H := constr:(_ : Len l1 _) in rewrite (byte_at_skip l1 l2 _ i (Hl := H)) by reflexivity
  | |- context [drop ?i (?l1 ++ ?l2)] =>
      let H := constr:(_ : Len l1 _) in rewrite (drop_skip l1 l2 _ i (Hl := H)) by reflexivity
  | |- context [slice 0 ?j (?l1 ++ ?l2)] =>
      let H := constr:(_ : Len l1 j) in rewrite (slice_take l1 l2 j (Hl := H))
  | |- context [slice 0 ?j ?l1] =>
      let H := constr:(_ : Len l1 j) in rewrite (slice_whole l1 j (Hl := H))
  | |- context [byte_at 0 (byte_of_Z ?z :: ?l)] => rewrite (byte_at_cons_0 z l) by width
  | _ => rewrite slice_cons_S
  | _ => rewrite byte_at_cons_S
  | _ => rewrite drop_cons_S
  | _ => rewrite drop_0
  end; cbn [Nat.sub].
Ltac slices := repeat slice_step.

#[global] Opaque be_put be_get slice byte_at.
