(* ===== verification/Sha256.v ===== *)
(** * SHA-256, HMAC and HKDF

    The parts of Go's standard library ([crypto/sha256], [crypto/hmac],
    [crypto/hkdf]) that the wire codecs call, following FIPS 180-4, RFC 2104 and
    RFC 5869.  They are executable, so encoded packets can be computed; the
    proofs of the codecs use only the output lengths and that the functions are
    functions.  The examples at the end are published test vectors. *)

From S2P Require Import Prelude.

Module SHA256.

Definition add32 (a b : Z) : Z := wrap 32 (a + b).
Definition rotr (n x : Z) : Z := Z.lor (Z.shiftr x n) (wrap 32 (Z.shiftl x (32 - n))).
Definition shr (n x : Z) : Z := Z.shiftr x n.
Definition xor3 (a b c : Z) : Z := Z.lxor a (Z.lxor b c).
Definition ch (x y z : Z) : Z := Z.lxor (Z.land x y) (Z.land (Z.lxor x (2 ^ 32 - 1)) z).
Definition maj (x y z : Z) : Z := xor3 (Z.land x y) (Z.land x z) (Z.land y z).
Definition bsig0 (x : Z) : Z := xor3 (rotr 2 x) (rotr 13 x) (rotr 22 x).
Definition bsig1 (x : Z) : Z := xor3 (rotr 6 x) (rotr 11 x) (rotr 25 x).
Definition ssig0 (x : Z) : Z := xor3 (rotr 7 x) (rotr 18 x) (shr 3 x).
Definition ssig1 (x : Z) : Z := xor3 (rotr 17 x) (rotr 19 x) (shr 10 x).

(** The constants, as FIPS 180-4 defines them: the first 32 bits of the fractional
    parts of the cube roots (rounds) and square roots (initial state) of the first
    primes. *)
Definition primes (n : nat) : list Z :=
  filter (fun p => forallb (fun d => negb (p mod Z.of_nat d =? 0)) (seq 2 (Z.to_nat (Z.sqrt p) - 1)) = true)
         (map Z.of_nat (seq 2 n)).

Fixpoint cube_root (bits : nat) (acc z : Z) : Z :=
  match bits with
  | O => acc
  | S bits' =>
    let next := acc + 2 ^ Z.of_nat bits' in
    cube_root bits' (if next ^ 3 <=? z then next else acc) z
  end.

Definition K256 : list Z :=
  Eval vm_compute in map (fun p => wrap 32 (cube_root 40 0 (p * 2 ^ 96))) (primes 310).

Record digest := Digest8 { da : Z; db : Z; dc : Z; dd : Z; de : Z; df : Z; dg : Z; dh : Z }.

Definition H0_256 : digest :=
  Eval vm_compute in
    let root i := wrap 32 (Z.sqrt (nth i (primes 18) 0 * 2 ^ 64)) in
    Digest8 (root 0%nat) (root 1%nat) (root 2%nat) (root 3%nat)
            (root 4%nat) (root 5%nat) (root 6%nat) (root 7%nat).

Fixpoint words (n : nat) (block : bytes) : list Z :=
  match n with
  | O => []
  | S n' => be_get (take 4 block) :: words n' (drop 4 block)
  end.

(** One round; [w] holds the sixteen schedule words from the current one on. *)
Definition round (st : digest) (k : Z) (w : Z) : digest :=
  let t1 := add32 (dh st) (add32 (bsig1 (de st))
            (add32 (ch (de st) (df st) (dg st)) (add32 k w))) in
  let t2 := add32 (bsig0 (da st)) (maj (da st) (db st) (dc st)) in
  Digest8 (add32 t1 t2) (da st) (db st) (dc st) (add32 (dd st) t1) (de st) (df st) (dg st).

Definition next_word (w : list Z) : Z :=
  add32 (ssig1 (nth 14 w 0)) (add32 (nth 9 w 0) (add32 (ssig0 (nth 1 w 0)) (nth 0 w 0))).

Fixpoint rounds (ks : list Z) (w : list Z) (st : digest) : digest :=
  match ks with
  | [] => st
  | k :: ks' => rounds ks' (tl w ++ [next_word w]) (round st k (hd 0 w))
  end.

Definition compress (st : digest) (block : bytes) : digest :=
  let r := rounds K256 (words 16 block) st in
  Digest8 (add32 (da st) (da r)) (add32 (db st) (db r)) (add32 (dc st) (dc r))
    (add32 (dd st) (dd r)) (add32 (de st) (de r)) (add32 (df st) (df r))
    (add32 (dg st) (dg r)) (add32 (dh st) (dh r)).

Fixpoint blocks (n : nat) (msg : bytes) (st : digest) : digest :=
  match n with
  | O => st
  | S n' => blocks n' (drop 64 msg) (compress st (take 64 msg))
  end.

Definition pad (msg : bytes) : bytes :=
  msg ++ [byte_of_Z 0x80] ++ replicate (Z.to_nat ((55 - len msg) mod 64)) Byte.x00
    ++ be_put 8 (8 * len msg).

Definition digest_bytes (st : digest) : bytes :=
  be_put 4 (da st) ++ be_put 4 (db st) ++ be_put 4 (dc st) ++ be_put 4 (dd st) ++
  be_put 4 (de st) ++ be_put 4 (df st) ++ be_put 4 (dg st) ++ be_put 4 (dh st).

Definition sum (msg : bytes) : bytes :=
  let p := pad msg in digest_bytes (blocks (length p / 64) p H0_256).

Lemma length_sum msg : length (sum msg) = 32%nat.
Proof. unfold sum, digest_bytes. by rewrite !length_app, !length_be_put. Qed.

End SHA256.

Definition sha256 (msg : bytes) : bytes := SHA256.sum msg.

Definition hmac_key (key : bytes) : bytes :=
  let k := if 64 <? len key then sha256 key else key in
  k ++ replicate (64 - length k) Byte.x00.

Definition xor_pad (p : Z) (key : bytes) : bytes :=
  map (fun b => byte_of_Z (Z.lxor (Z_of_byte b) p)) key.

Definition hmac_sha256 (key msg : bytes) : bytes :=
  let k := hmac_key key in
  sha256 (xor_pad 0x5c k ++ sha256 (xor_pad 0x36 k ++ msg)).

(** HKDF-SHA-256 with a one-block (32-byte) output, the only length requested. *)
Definition hkdf32 (secret salt info : bytes) : bytes :=
  let salt' := if decide (salt = []) then replicate 32 Byte.x00 else salt in
  hmac_sha256 (hmac_sha256 salt' secret) (info ++ [Byte.x01]).

(** [hmac.Equal]: constant-time comparison of two tags. *)
Definition hmac_Equal (mac1 mac2 : bytes) : bool := bool_decide (mac1 = mac2).

(** [hash.Hash] as [hmac.New(sha256.New, key)] makes it: the bytes written since
    the last [Reset] and the key. *)
Record hmacHash := { mac_key : bytes; mac_written : bytes }.
Definition hmac_New (key : bytes) : hmacHash := {| mac_key := key; mac_written := [] |}.
Definition mac_Reset (h : hmacHash) : hmacHash := {| mac_key := mac_key h; mac_written := [] |}.
Definition mac_Write (h : hmacHash) (p : bytes) : hmacHash :=
  {| mac_key := mac_key h; mac_written := mac_written h ++ p |}.
Definition mac_Sum (h : hmacHash) (b : bytes) : bytes :=
  b ++ hmac_sha256 (mac_key h) (mac_written h).

Lemma length_sha256 msg : length (sha256 msg) = 32%nat.
Proof. apply SHA256.length_sum. Qed.

Lemma length_hmac_sha256 key msg : length (hmac_sha256 key msg) = 32%nat.
Proof. apply length_sha256. Qed.

Lemma length_hkdf32 secret salt info : length (hkdf32 secret salt info) = 32%nat.
Proof. apply length_hmac_sha256. Qed.

Lemma hmac_Equal_spec m1 m2 : hmac_Equal m1 m2 = true <-> m1 = m2.
Proof. apply bool_decide_eq_true. Qed.

#[export] Hint Rewrite length_sha256 length_hmac_sha256 length_hkdf32 : len.

(** FIPS 180-4 vector for "abc" and RFC 4231 test case 1. *)
Example sha256_abc :
  be_get (sha256 (map byte_of_Z [0x61; 0x62; 0x63])) =
  0xba7816bf8f01cfea414140de5dae2223b00361a396177a9cb410ff61f20015ad.
Proof. vm_compute. reflexivity. Qed.

Example hmac_rfc4231 :
  be_get (hmac_sha256 (replicate 20 Byte.x0b)
    (map byte_of_Z [0x48; 0x69; 0x20; 0x54; 0x68; 0x65; 0x72; 0x65])) =
  0xb0344c61d8db38535ca8afceaf0bf12b881dc200c9833da726e9376c2e32cff7.
Proof. vm_compute. reflexivity. Qed.

(** RFC 5869 test case 1, first 32 bytes. *)
Example hkdf_rfc5869 :
  be_get (hkdf32 (replicate 22 Byte.x0b)
    (map byte_of_Z [0; 1; 2; 3; 4; 5; 6; 7; 8; 9; 10; 11; 12])
    (map byte_of_Z [0xf0; 0xf1; 0xf2; 0xf3; 0xf4; 0xf5; 0xf6; 0xf7; 0xf8; 0xf9])) =
  0x3cb25f25faacd57a90434f64d0362f2a2d2d0a90cf1a5a4c5db02d56ecc4c5bf.
Proof. vm_compute. reflexivity. Qed.

#[global] Opaque sha256 hmac_sha256 hkdf32.
