(* ===== verification/Bitmap.v ===== *)
(** * Ring bitmaps

    The 64-bit word operations that [recvwindow.Window] and [fec.replayWindow]
    share: reading and writing the bit of a ring position, clearing a run of
    positions inside one word with a mask, and [bits.OnesCount64].  Words are
    [Z] below [2^64]; a bitmap is the list of words. *)

From S2P Require Import Prelude.

(** ** Words *)

(** [(^uint64(0) >> (64 - width)) << (position % 64)]. *)
Definition mask (position width : Z) : Z :=
  wrap 64 (Z.shiftl (Z.shiftr (2 ^ 64 - 1) (64 - width)) (position mod 64)).

(** [bits.OnesCount64]. *)
Definition onesCount (w : Z) : Z :=
  foldr (fun i acc => Z.b2z (Z.testbit w (Z.of_nat i)) + acc) 0 (seq 0 64).

(** [w[position/64]]. *)
Definition word_at (bm : list Z) (position : Z) : Z := nth (Z.to_nat (position / 64)) bm 0.

Definition set_word (bm : list Z) (position w : Z) : list Z :=
  <[Z.to_nat (position / 64) := w]> bm.

(** [bm[word] &^= mask]. *)
Definition clear_word (bm : list Z) (position width : Z) : list Z :=
  set_word bm position (Z.ldiff (word_at bm position) (mask position width)).

(** [bm[index/64] |= uint64(1) << (index % 64)]. *)
Definition set_bit (bm : list Z) (index : Z) : list Z :=
  set_word bm index (Z.lor (word_at bm index) (wrap 64 (Z.shiftl 1 (index mod 64)))).

(** [bm[index/64] & (1 << (index % 64)) != 0]. *)
Definition test_bit (bm : list Z) (index : Z) : bool :=
  negb (Z.land (word_at bm index) (wrap 64 (Z.shiftl 1 (index mod 64))) =? 0).

Definition zero_words (n : nat) : list Z := replicate n 0.

Definition total (bm : list Z) : Z := foldr (fun w acc => onesCount w + acc) 0 bm.

(** The bit a position has, independently of how the code reads it. *)
Definition bitAt (bm : list Z) (p : Z) : bool := Z.testbit (word_at bm p) (p mod 64).

Lemma mask_testbit position width i :
  1 <= width -> position mod 64 + width <= 64 -> 0 <= i < 64 ->
  Z.testbit (mask position width) i
  = (position mod 64 <=? i) && (i <? position mod 64 + width).
Proof.
  intros Hw Hs Hi. pose proof (Z.mod_pos_bound position 64 ltac:(lia)) as Hp.
  unfold mask, wrap. rewrite Z.mod_pow2_bits_low by lia.
  rewrite Z.shiftl_spec by lia.
  destruct (Z.leb_spec (position mod 64) i).
  - rewrite Z.shiftr_spec by lia.
    replace (2 ^ 64 - 1) with (Z.ones 64) by (rewrite Z.ones_equiv; lia).
    rewrite Z.testbit_ones by lia. simpl.
    destruct (_ <? 64) eqn:E1, (i <? _) eqn:E2; lia.
  - by rewrite Z.testbit_neg_r by lia.
Qed.

Lemma single_testbit index i :
  0 <= i < 64 -> Z.testbit (wrap 64 (Z.shiftl 1 (index mod 64))) i = (i =? index mod 64).
Proof.
  intros Hi. pose proof (Z.mod_pos_bound index 64 ltac:(lia)).
  unfold wrap. rewrite Z.mod_pow2_bits_low by lia.
  rewrite Z.shiftl_spec by lia.
  destruct (Z.lt_ge_cases i (index mod 64)).
  - rewrite Z.testbit_neg_r by lia. lia.
  - destruct (Z.eq_dec i (index mod 64)) as [->|].
    + rewrite Z.sub_diag. by rewrite Z.eqb_refl.
    + rewrite Z.bits_above_log2 by (simpl; lia). lia.
Qed.

Lemma test_bit_spec bm index : test_bit bm index = bitAt bm index.
Proof.
  unfold test_bit, bitAt. set (w := word_at bm index).
  pose proof (Z.mod_pos_bound index 64 ltac:(lia)) as Hr.
  destruct (Z.testbit w (index mod 64)) eqn:E.
  - apply negb_true_iff, Z.eqb_neq. intros H.
    apply (f_equal (fun z => Z.testbit z (index mod 64))) in H.
    by rewrite Z.land_spec, single_testbit, Z.eqb_refl, E, Z.bits_0 in H by lia.
  - apply negb_false_iff, Z.eqb_eq, Z.bits_inj'. intros i Hi.
    rewrite Z.land_spec, Z.bits_0.
    destruct (Z.lt_ge_cases i 64).
    + rewrite single_testbit by lia. destruct (Z.eqb_spec i (index mod 64)) as [->|];
        [by rewrite E|apply andb_false_r].
    + unfold wrap at 1. rewrite Z.mod_pow2_bits_high by lia. apply andb_false_r.
Qed.

Lemma word_at_set_word bm p q w :
  0 <= p -> 0 <= q -> (Z.to_nat (p / 64) < length bm)%nat ->
  word_at (set_word bm p w) q = if decide (q / 64 = p / 64) then w else word_at bm q.
Proof.
  intros Hp Hq Hl. unfold word_at, set_word.
  pose proof (Z.div_pos p 64 Hp ltac:(lia)). pose proof (Z.div_pos q 64 Hq ltac:(lia)).
  rewrite <- !(nth_default_eq), !nth_default_eq.
  rewrite !nth_lookup. destruct (decide (q / 64 = p / 64)) as [->|Hne].
  - by rewrite list_lookup_insert_eq.
  - rewrite list_lookup_insert_ne; [done|]. lia.
Qed.

Lemma length_set_word bm p w : length (set_word bm p w) = length bm.
Proof. apply length_insert. Qed.

Lemma bitAt_set_word bm p q w :
  0 <= p -> 0 <= q -> (Z.to_nat (p / 64) < length bm)%nat ->
  bitAt (set_word bm p w) q
  = if decide (q / 64 = p / 64) then Z.testbit w (q mod 64) else bitAt bm q.
Proof.
  intros. unfold bitAt. rewrite word_at_set_word by done. by destruct (decide _).
Qed.

Lemma bitAt_clear_word bm p width q :
  0 <= p -> 0 <= q -> (Z.to_nat (p / 64) < length bm)%nat ->
  1 <= width -> p mod 64 + width <= 64 ->
  bitAt (clear_word bm p width) q = bitAt bm q && negb ((p <=? q) && (q <? p + width)).
Proof.
  intros Hp Hq Hl Hw Hs. unfold clear_word. rewrite bitAt_set_word by done.
  pose proof (Z.div_mod p 64 ltac:(lia)). pose proof (Z.div_mod q 64 ltac:(lia)).
  pose proof (Z.mod_pos_bound p 64 ltac:(lia)). pose proof (Z.mod_pos_bound q 64 ltac:(lia)).
  destruct (decide _) as [He|Hne].
  - rewrite Z.ldiff_spec, mask_testbit by lia. unfold bitAt, word_at. rewrite He. f_equal. lia.
  - replace ((p <=? q) && (q <? p + width)) with false by lia. by rewrite andb_true_r.
Qed.

Lemma bitAt_set_bit bm p q :
  0 <= p -> 0 <= q -> (Z.to_nat (p / 64) < length bm)%nat ->
  bitAt (set_bit bm p) q = bitAt bm q || (q =? p).
Proof.
  intros Hp Hq Hl. unfold set_bit. rewrite bitAt_set_word by done.
  pose proof (Z.div_mod p 64 ltac:(lia)). pose proof (Z.div_mod q 64 ltac:(lia)).
  pose proof (Z.mod_pos_bound p 64 ltac:(lia)). pose proof (Z.mod_pos_bound q 64 ltac:(lia)).
  destruct (decide _) as [He|Hne].
  - rewrite Z.lor_spec, single_testbit by lia. unfold bitAt, word_at. rewrite He. f_equal. lia.
  - replace (q =? p) with false by lia. by rewrite orb_false_r.
Qed.

Lemma bitAt_zero n p : bitAt (zero_words n) p = false.
Proof.
  unfold bitAt, word_at, zero_words. rewrite nth_lookup.
  destruct (replicate n 0 !! _) eqn:E; simpl; [|by rewrite Z.bits_0].
  apply lookup_replicate in E as [-> _]. by rewrite Z.bits_0.
Qed.

(** ** Counting bits *)

(** How many of [lo, lo+1, ..., lo+n-1] satisfy [f]. *)
Definition countZ (f : Z -> bool) (lo : Z) (n : nat) : Z :=
  foldr (fun i acc => Z.b2z (f (lo + Z.of_nat i)) + acc) 0 (seq 0 n).

Lemma countZ_S f lo n : countZ f lo (S n) = countZ f lo n + Z.b2z (f (lo + Z.of_nat n)).
Proof.
  unfold countZ. rewrite seq_S, foldr_app. simpl.
  generalize (seq 0 n). intros l.
  assert (H : forall l x, foldr (fun i acc => Z.b2z (f (lo + Z.of_nat i)) + acc) x l
    = foldr (fun i acc => Z.b2z (f (lo + Z.of_nat i)) + acc) 0 l + x).
  { clear. induction l as [|i l IH]; intros x; simpl; [lia|]. rewrite IH. lia. }
  rewrite H. lia.
Qed.

Lemma countZ_ext f g lo n :
  (forall z, lo <= z < lo + Z.of_nat n -> f z = g z) -> countZ f lo n = countZ g lo n.
Proof.
  induction n as [|n IH]; intros H; [done|]. rewrite !countZ_S, IH by (intros; apply H; lia).
  by rewrite H by lia.
Qed.

Lemma countZ_zero lo n f :
  (forall z, lo <= z < lo + Z.of_nat n -> f z = false) -> countZ f lo n = 0.
Proof.
  intros H. rewrite (countZ_ext f (fun _ => false)) by done.
  induction n as [|n IH]; [done|]. rewrite countZ_S, IH; [done|]. intros. apply H. lia.
Qed.

Lemma countZ_app f lo n k : countZ f lo (n + k) = countZ f lo n + countZ f (lo + Z.of_nat n) k.
Proof.
  induction k as [|k IH].
  - rewrite Nat.add_0_r. unfold countZ at 3. simpl. lia.
  - rewrite Nat.add_succ_r, !countZ_S, IH.
    replace (lo + Z.of_nat (n + k)) with (lo + Z.of_nat n + Z.of_nat k) by lia. lia.
Qed.

Lemma countZ_split f g lo n :
  countZ f lo n = countZ (fun z => f z && g z) lo n + countZ (fun z => f z && negb (g z)) lo n.
Proof.
  induction n as [|n IH]; [done|]. rewrite !countZ_S, IH.
  destruct (f _), (g _); simpl; lia.
Qed.

Lemma countZ_bounds f lo n : 0 <= countZ f lo n <= Z.of_nat n.
Proof.
  induction n as [|n IH]; [done|]. rewrite countZ_S. destruct (f _); simpl Z.b2z; lia.
Qed.

(** Adding one new element. *)
Lemma countZ_add f lo n k :
  lo <= k < lo + Z.of_nat n -> f k = false ->
  countZ (fun z => f z || (z =? k)) lo n = countZ f lo n + 1.
Proof.
  intros Hk Hf. induction n as [|n IH]; [lia|]. rewrite !countZ_S.
  destruct (Z.eq_dec (lo + Z.of_nat n) k) as [E|Hne].
  - rewrite E, Hf, Z.eqb_refl. rewrite (countZ_ext _ f); [simpl Z.b2z; lia|].
    intros z Hz. replace (z =? k) with false by lia. apply orb_false_r.
  - rewrite IH by lia. replace (_ =? k) with false by lia. rewrite orb_false_r. lia.
Qed.

(** A function with period [n] has the same count over every full period. *)
Lemma countZ_1 f lo : countZ f lo 1 = Z.b2z (f lo).
Proof. unfold countZ. simpl. by rewrite !Z.add_0_r. Qed.

Lemma countZ_period f lo n :
  (forall z, 0 <= z -> f (z + Z.of_nat n) = f z) -> 0 <= lo -> countZ f lo n = countZ f 0 n.
Proof.
  intros Hper Hlo. revert lo Hlo. apply natlike_ind; [done|]. intros lo Hlo IH.
  rewrite <- IH. assert (H : countZ f lo (1 + n) = countZ f lo (n + 1)) by (f_equal; lia).
  rewrite !countZ_app, !countZ_1, Hper in H by done. unfold Z.succ.
  change (Z.of_nat 1) with 1 in H. lia.
Qed.

Lemma onesCount_countZ w : onesCount w = countZ (Z.testbit w) 0 64.
Proof. done. Qed.

Lemma total_countZ bm : total bm = countZ (bitAt bm) 0 (64 * length bm).
Proof.
  induction bm as [|w bm IH]; [done|].
  replace (64 * length (w :: bm))%nat with (64 + 64 * length bm)%nat by (simpl; lia).
  rewrite countZ_app. simpl total. rewrite IH, onesCount_countZ. apply (f_equal2 Z.add).
  - apply countZ_ext. intros z Hz. unfold bitAt, word_at.
    by rewrite Z.div_small, Z.mod_small by lia.
  - generalize (64 * length bm)%nat. intros n. induction n as [|n IHn]; [done|].
    rewrite !countZ_S, IHn. do 2 f_equal. unfold bitAt, word_at.
    replace (0 + Z.of_nat 64 + Z.of_nat n) with (0 + Z.of_nat n + 1 * 64) by lia.
    rewrite Z.div_add, Z.mod_add by lia.
    replace (Z.to_nat (_ + 1)) with (S (Z.to_nat ((0 + Z.of_nat n) / 64)));
      [done|]. pose proof (Z.div_pos (0 + Z.of_nat n) 64). lia.
Qed.

Lemma total_set_word bm p w :
  (Z.to_nat (p / 64) < length bm)%nat ->
  total (set_word bm p w) = total bm - onesCount (word_at bm p) + onesCount w.
Proof.
  unfold set_word, word_at. generalize (Z.to_nat (p / 64)). clear p. intros n.
  revert n. induction bm as [|v bm IH]; intros n Hn; [simpl in Hn; lia|].
  destruct n as [|n]; simpl; [lia|]. simpl in Hn. rewrite IH by lia. lia.
Qed.

Lemma total_clear_word bm p width :
  (Z.to_nat (p / 64) < length bm)%nat ->
  total (clear_word bm p width)
  = total bm - onesCount (Z.land (word_at bm p) (mask p width)).
Proof.
  intros Hl. unfold clear_word. rewrite total_set_word by done.
  rewrite !onesCount_countZ.
  rewrite (countZ_split (Z.testbit (word_at bm p)) (Z.testbit (mask p width))).
  rewrite (countZ_ext (Z.testbit (Z.land _ _))
    (fun z => Z.testbit (word_at bm p) z && Z.testbit (mask p width) z))
    by (intros; by rewrite Z.land_spec).
  rewrite (countZ_ext (Z.testbit (Z.ldiff _ _))
    (fun z => Z.testbit (word_at bm p) z && negb (Z.testbit (mask p width) z)))
    by (intros; by rewrite Z.ldiff_spec). lia.
Qed.

Lemma total_set_bit bm p :
  0 <= p -> (Z.to_nat (p / 64) < length bm)%nat -> bitAt bm p = false ->
  total (set_bit bm p) = total bm + 1.
Proof.
  intros Hp Hl Hb. unfold set_bit. rewrite total_set_word by done.
  pose proof (Z.mod_pos_bound p 64 ltac:(lia)). rewrite !onesCount_countZ.
  rewrite (countZ_ext (Z.testbit (Z.lor _ _))
    (fun z => Z.testbit (word_at bm p) z || (z =? p mod 64)))
    by (intros; rewrite Z.lor_spec, single_testbit by lia; done).
  rewrite countZ_add by (done || lia). lia.
Qed.

Lemma total_zero n : total (zero_words n) = 0.
Proof. rewrite total_countZ. apply countZ_zero. intros. apply bitAt_zero. Qed.

(** ** A sliding window of identifiers over a ring of positions

    Identifier [id] lives at position [id mod span].  The window of retained
    identifiers is [max base (highest - span + 1) .. highest]. *)

Definition words_for (span : Z) : nat := Z.to_nat ((span + 63) / 64).

Definition lowest (base span highest : Z) : Z := Z.max base (highest - span + 1).

(** Bitmap [bm] records [P] on the window and nothing else. *)
Record ring_ok (base span highest : Z) (P : Z -> bool) (bm : list Z) : Prop := {
  ring_length : length bm = words_for span;
  ring_bits : forall id, lowest base span highest <= id <= highest ->
    bitAt bm (id mod span) = P id;
  ring_tail : forall p, span <= p -> bitAt bm p = false;
  ring_unused : highest - span + 1 < base ->
    forall p, 0 <= p -> (p < base \/ highest < p) -> bitAt bm p = false }.

Lemma word_in_range span p :
  1 <= span -> 0 <= p < span -> (Z.to_nat (p / 64) < words_for span)%nat.
Proof.
  intros Hs Hp. unfold words_for. apply Z2Nat.inj_lt; [apply Z.div_pos; lia..|].
  apply Z.div_lt_upper_bound; [lia|].
  pose proof (Z.div_mod (span + 63) 64 ltac:(lia)).
  pose proof (Z.mod_pos_bound (span + 63) 64 ltac:(lia)). lia.
Qed.

(** Position [p] is one of the [n] ring positions from [pos] on. *)
Definition in_run (span pos n p : Z) : bool := (p - pos) mod span <? n.

Lemma in_run_empty span pos p : 1 <= span -> in_run span pos 0 p = false.
Proof.
  intros. unfold in_run. pose proof (Z.mod_pos_bound (p - pos) span ltac:(lia)). lia.
Qed.

Lemma in_run_split span pos n width p :
  0 <= p < span -> 0 <= pos -> 1 <= width <= n -> n <= span -> pos + width <= span ->
  in_run span pos n p
  = ((pos <=? p) && (p <? pos + width)) || in_run span ((pos + width) mod span) (n - width) p.
Proof.
  intros Hp Hpos Hw Hn Hs. unfold in_run. rewrite Zminus_mod_idemp_r.
  destruct (Z.leb_spec pos p); simpl.
  - rewrite (Z.mod_small (p - pos)) by lia.
    destruct (Z.ltb_spec p (pos + width)); simpl; [lia|].
    rewrite Z.mod_small by lia. lia.
  - rewrite <- (Z.mod_unique_pos (p - pos) span (-1) (p - pos + span)) by lia.
    rewrite <- (Z.mod_unique_pos (p - (pos + width)) span (-1) (p - (pos + width) + span)) by lia.
    lia.
Qed.

(** Moving the window up: the ring positions of the identifiers that enter are
    cleared, [P] does not hold of them yet. *)
Lemma ring_advance base span highest id P bm bm' :
  1 <= span -> 0 <= base -> base - 1 <= highest < id -> id - highest < span ->
  ring_ok base span highest P bm ->
  (forall z, highest < z -> P z = false) ->
  length bm' = length bm ->
  (forall p, 0 <= p < span -> bitAt bm' p
     = bitAt bm p && negb (in_run span ((highest + 1) mod span) (id - highest) p)) ->
  (forall p, span <= p -> bitAt bm' p = bitAt bm p) ->
  ring_ok base span id P bm'.
Proof.
  intros Hs Hbase Hid Hdist [Hl Hb Ht Hu] HP Hl' Hin Hout. unfold lowest, in_run in *.
  split; [congruence| |intros; by rewrite Hout, Ht|].
  - unfold lowest. intros z Hz. rewrite Hin by (apply Z.mod_pos_bound; lia).
    rewrite <- Zminus_mod. destruct (Z.lt_ge_cases highest z).
    + rewrite (Z.mod_small (z - (highest + 1))) by lia. rewrite HP by lia.
      replace (_ <? _) with true by lia. apply andb_false_r.
    + rewrite Hb by lia. rewrite <- (Z.mod_unique_pos _ span (-1) (z - (highest + 1) + span)) by lia.
      replace (_ <? _) with false by lia. apply andb_true_r.
  - intros Hlow p Hp Hpb. destruct (Z.lt_ge_cases p span); [|by rewrite Hout, Ht].
    rewrite Hin, Hu by lia. done.
Qed.

(** Far jumps clear everything. *)
Lemma ring_reset base span highest P n :
  n = words_for span ->
  (forall z, lowest base span highest <= z <= highest -> P z = false) ->
  ring_ok base span highest P (zero_words n).
Proof.
  intros -> HP. split; intros; rewrite ?bitAt_zero; try done.
  - unfold zero_words. by rewrite length_replicate.
  - by rewrite HP.
Qed.

Lemma ring_set base span highest P bm id :
  1 <= span -> 0 <= base <= 1 -> lowest base span highest <= id <= highest ->
  ring_ok base span highest P bm ->
  ring_ok base span highest (fun z => P z || (z =? id)) (set_bit bm (id mod span)).
Proof.
  intros Hs Hbase Hid [Hl Hb Ht Hu]. pose proof (Z.mod_pos_bound id span ltac:(lia)) as Hm.
  assert (Hw : (Z.to_nat (id mod span / 64) < length bm)%nat)
    by (rewrite Hl; by apply word_in_range).
  unfold lowest in *. split.
  - unfold set_bit. by rewrite length_set_word.
  - unfold lowest. intros z Hz. pose proof (Z.mod_pos_bound z span ltac:(lia)).
    rewrite bitAt_set_bit, Hb by (done || lia). f_equal.
    destruct (Z.eqb_spec z id) as [->|Hne]; [apply Z.eqb_refl|].
    apply Z.eqb_neq. intros E. apply Hne.
    assert (Hz0 : (z - id) mod span = 0) by (by rewrite Zminus_mod, E, Z.sub_diag, Z.mod_0_l by lia).
    apply Z.mod_divide in Hz0 as [k Hk]; [|lia].
    assert (-span < k * span < span) by lia. assert (k = 0) by nia. lia.
  - intros p Hp. rewrite bitAt_set_bit, Ht by (done || lia).
    apply Z.eqb_neq. lia.
  - intros Hlow p Hp Hpb. rewrite bitAt_set_bit, Hu by (done || lia).
    rewrite Z.mod_small by lia. apply Z.eqb_neq. lia.
Qed.

(** The number of set bits is the number of retained identifiers with [P]. *)
Lemma ring_total base span highest P bm :
  1 <= span -> 0 <= base <= 1 -> base - 1 <= highest -> ring_ok base span highest P bm ->
  total bm = countZ P (lowest base span highest)
               (Z.to_nat (highest - lowest base span highest + 1)).
Proof.
  intros Hs Hbase Hh [Hl Hb Ht Hu]. rewrite total_countZ, Hl.
  assert (Hw : span <= 64 * ((span + 63) / 64)).
  { pose proof (Z.div_mod (span + 63) 64 ltac:(lia)).
    pose proof (Z.mod_pos_bound (span + 63) 64 ltac:(lia)). lia. }
  replace (64 * words_for span)%nat with (Z.to_nat span + (64 * words_for span - Z.to_nat span))%nat
    by (unfold words_for; lia).
  rewrite countZ_app, (countZ_zero _ (64 * words_for span - _)), Z.add_0_r
    by (intros; apply Ht; lia).
  unfold lowest in *. destruct (Z.lt_ge_cases (highest - span + 1) base) as [Hlow|Hfull].
  - rewrite Z.max_l in * by lia.
    replace (Z.to_nat span) with
      (Z.to_nat base + (Z.to_nat (highest - base + 1) + Z.to_nat (span - 1 - highest)))%nat by lia.
    rewrite !countZ_app.
    rewrite (countZ_zero 0), (countZ_zero _ (Z.to_nat (span - 1 - highest)))
      by (intros; apply Hu; lia).
    rewrite Z.add_0_r, Z.add_0_l. replace (0 + Z.of_nat (Z.to_nat base)) with base by lia.
    apply countZ_ext. intros z Hz. rewrite <- Hb by lia. by rewrite Z.mod_small by lia.
  - rewrite Z.max_r in * by lia.
    replace (highest - (highest - span + 1) + 1) with span by lia.
    transitivity (countZ (fun z => bitAt bm (z mod span)) 0 (Z.to_nat span)).
    { apply countZ_ext. intros z Hz. by rewrite Z.mod_small by lia. }
    rewrite <- (countZ_period _ (highest - span + 1)) by
      (lia || (intros z Hz; rewrite Z2Nat.id by lia;
               replace (z + span) with (z + 1 * span) by lia; by rewrite Z.mod_add by lia)).
    apply countZ_ext. intros z Hz. apply Hb. lia.
Qed.
