(* ===== verification/Wire.v ===== *)
(** * The v0.1 wire codec ([internal/wire])

    Messages, their validation, the authenticated encoder and decoder, and the
    [Authenticator] with its cache of HMAC states.  A Go [error] is an
    [option WireError] (nil is [None]); a Go [(value, error)] pair is a
    [result].  Wire fields are [Z] at their width, packets are byte lists. *)

From S2P Require Import Prelude Sha256.

(** ** Constants and data *)

Definition magic0 : Z := 0x4d.
Definition magic1 : Z := 0x50.
Definition magic2 : Z := 0x55.
Definition magic3 : Z := 0x44.
Definition Version : Z := 1.
Definition PrefixSize : Z := 24.
Definition AuthenticationTagSize : Z := 32.
Definition MinimumPacketSize : Z := PrefixSize + AuthenticationTagSize.
Definition helloBodySize : Z := 4.
Definition probeBodySize : Z := 16.
Definition HelloPacketSize : Z := PrefixSize + helloBodySize + AuthenticationTagSize.
Definition ProbePacketSize : Z := PrefixSize + probeBodySize + AuthenticationTagSize.
Definition DataShardMetadataSize : Z := 15.
Definition DataShardOverhead : Z := PrefixSize + DataShardMetadataSize + AuthenticationTagSize.
Definition MinUDPPayload : Z := 72.
Definition MaxUDPPayload : Z := 65507.

Definition TypeHello : Z := 1.
Definition TypeHelloAck : Z := 2.
Definition TypeDataShard : Z := 3.
Definition TypePing : Z := 4.
Definition TypePong : Z := 5.
Definition TypeClose : Z := 6.

Inductive WireError :=
| ErrMalformed
| ErrUnsupportedVersion
| ErrUnknownPacketType
| ErrAuthentication
| ErrInvalidSessionID
| ErrInvalidFEC
| ErrInvalidCapability
| ErrPacketTooLarge
| ErrInvalidKey
| ErrInvalidHandler.

#[global] Instance WireError_eq_dec : EqDecision WireError.
Proof. solve_decision. Defined.

Definition SessionID := bytes.
Definition zeroSessionID : SessionID := replicate 16 Byte.x00.

Record Header := { Header_Type : Z; Header_SessionID : SessionID }.

Record Handshake := {
  Handshake_DataShards : Z;
  Handshake_ParityShards : Z;
  Handshake_MaxUDPPayload : Z }.
Definition zeroHandshake : Handshake := {|
  Handshake_DataShards := 0; Handshake_ParityShards := 0; Handshake_MaxUDPPayload := 0 |}.

Record DataShard := {
  PacketID : Z;
  DataShards : Z;
  ParityShards : Z;
  ShardIndex : Z;
  OriginalLength : Z;
  Payload : bytes }.
Definition emptyDataShard : DataShard := {|
  PacketID := 0; DataShards := 0; ParityShards := 0; ShardIndex := 0;
  OriginalLength := 0; Payload := [] |}.

Record Probe := { Token : Z; Timestamp : Z }.
Definition zeroProbe : Probe := {| Token := 0; Timestamp := 0 |}.

Record Message := {
  Message_Header : Header;
  Message_Handshake : Handshake;
  Message_DataShard : DataShard;
  Message_Probe : Probe }.

#[global] Instance Handshake_eq_dec : EqDecision Handshake.
Proof. solve_decision. Defined.
#[global] Instance Probe_eq_dec : EqDecision Probe.
Proof. solve_decision. Defined.

Definition mkMessage (packetType : Z) (sessionID : SessionID) : Message := {|
  Message_Header := {| Header_Type := packetType; Header_SessionID := sessionID |};
  Message_Handshake := zeroHandshake;
  Message_DataShard := emptyDataShard;
  Message_Probe := zeroProbe |}.

(** ** Validation *)

Definition knownPacketType (packetType : Z) : bool :=
  (TypeHello <=? packetType) && (packetType <=? TypeClose).

Definition validateFEC (dataShards parityShards : Z) : option WireError :=
  if (dataShards =? 0) || (parityShards =? 0) || (256 <? dataShards + parityShards)
  then Some ErrInvalidFEC else None.

Definition validateBudget (budget : Z) : option WireError :=
  if (budget <? MinUDPPayload) || (MaxUDPPayload <? budget)
  then Some ErrInvalidCapability else None.

Definition zeroDataShard (data : DataShard) : bool :=
  (PacketID data =? 0) && (DataShards data =? 0) && (ParityShards data =? 0) &&
  (ShardIndex data =? 0) && (OriginalLength data =? 0) && (len (Payload data) =? 0).

Definition validateHandshakeBody (m : Message) : option WireError :=
  if negb (zeroDataShard (Message_DataShard m)) || negb (bool_decide (Message_Probe m = zeroProbe))
  then Some ErrMalformed else
  match validateFEC (Handshake_DataShards (Message_Handshake m))
          (Handshake_ParityShards (Message_Handshake m)) with
  | Some e => Some e
  | None => validateBudget (Handshake_MaxUDPPayload (Message_Handshake m))
  end.

Definition validateDataShardBody (m : Message) : option WireError :=
  let d := Message_DataShard m in
  if negb (bool_decide (Message_Handshake m = zeroHandshake))
     || negb (bool_decide (Message_Probe m = zeroProbe))
  then Some ErrMalformed else
  match validateFEC (DataShards d) (ParityShards d) with
  | Some e => Some e
  | None =>
    let total := DataShards d + ParityShards d in
    if total <=? ShardIndex d then Some ErrInvalidFEC else
    let payloadSize := len (Payload d) in
    if OriginalLength d =? 0 then
      if negb (payloadSize =? 1) || negb (byte_at 0 (Payload d) =? 0)
      then Some ErrMalformed else None
    else
      let expected := 1 + (OriginalLength d - 1) / DataShards d in
      if negb (payloadSize =? expected) then Some ErrMalformed else None
  end.

Definition validateMessage (m : Message) : option WireError :=
  if decide (Header_SessionID (Message_Header m) = zeroSessionID)
  then Some ErrInvalidSessionID else
  let t := Header_Type (Message_Header m) in
  if negb (knownPacketType t) then Some ErrUnknownPacketType else
  if (t =? TypeHello) || (t =? TypeHelloAck) then validateHandshakeBody m
  else if t =? TypeDataShard then validateDataShardBody m
  else if (t =? TypePing) || (t =? TypePong) then
    if negb (bool_decide (Message_Handshake m = zeroHandshake))
       || negb (zeroDataShard (Message_DataShard m))
    then Some ErrMalformed else
    if Token (Message_Probe m) =? 0 then Some ErrMalformed else None
  else if t =? TypeClose then
    if negb (bool_decide (Message_Handshake m = zeroHandshake))
       || negb (zeroDataShard (Message_DataShard m))
       || negb (bool_decide (Message_Probe m = zeroProbe))
    then Some ErrMalformed else None
  else None.

(** ** Encoding *)

Definition EncodedLen (m : Message) : result WireError Z :=
  check validateMessage m in
  let t := Header_Type (Message_Header m) in
  let? bodySize :=
    (if (t =? TypeHello) || (t =? TypeHelloAck) then Ok helloBodySize
     else if t =? TypeDataShard
       then Ok (DataShardMetadataSize + len (Payload (Message_DataShard m)))
     else if (t =? TypePing) || (t =? TypePong) then Ok probeBodySize
     else if t =? TypeClose then Ok 0
     else Err ErrUnknownPacketType) in
  let packetSize := PrefixSize + bodySize + AuthenticationTagSize in
  if (2 ^ 16 - 1 <? bodySize) || (MaxUDPPayload <? packetSize)
  then Err ErrPacketTooLarge else Ok packetSize.

Definition validated (m : Message) : result WireError Message :=
  match EncodedLen m with Err e => Err e | Ok _ => Ok m end.

Definition newHandshake (packetType : Z) (sessionID : SessionID)
    (dataShards parityShards maxUDPPayload : Z) : result WireError Message :=
  validated {|
    Message_Header := {| Header_Type := packetType; Header_SessionID := sessionID |};
    Message_Handshake := {| Handshake_DataShards := dataShards;
      Handshake_ParityShards := parityShards; Handshake_MaxUDPPayload := maxUDPPayload |};
    Message_DataShard := emptyDataShard;
    Message_Probe := zeroProbe |}.

Definition NewHello (sessionID : SessionID) (dataShards parityShards maxUDPPayload : Z) :=
  newHandshake TypeHello sessionID dataShards parityShards maxUDPPayload.

Definition NewHelloAck (sessionID : SessionID) (dataShards parityShards maxUDPPayload : Z) :=
  newHandshake TypeHelloAck sessionID dataShards parityShards maxUDPPayload.

Definition NewDataShard (sessionID : SessionID)
    (packetID dataShards parityShards shardIndex originalLength : Z) (payload : bytes)
    : result WireError Message :=
  validated {|
    Message_Header := {| Header_Type := TypeDataShard; Header_SessionID := sessionID |};
    Message_Handshake := zeroHandshake;
    Message_DataShard := {| PacketID := packetID; DataShards := dataShards;
      ParityShards := parityShards; ShardIndex := shardIndex;
      OriginalLength := originalLength; Payload := payload |};
    Message_Probe := zeroProbe |}.

Definition newProbe (packetType : Z) (sessionID : SessionID) (token timestamp : Z)
    : result WireError Message :=
  validated {|
    Message_Header := {| Header_Type := packetType; Header_SessionID := sessionID |};
    Message_Handshake := zeroHandshake;
    Message_DataShard := emptyDataShard;
    Message_Probe := {| Token := token; Timestamp := timestamp |} |}.

Definition NewPing (sessionID : SessionID) (token timestamp : Z) :=
  newProbe TypePing sessionID token timestamp.

Definition NewPong (sessionID : SessionID) (token timestamp : Z) :=
  newProbe TypePong sessionID token timestamp.

Definition NewClose (sessionID : SessionID) : result WireError Message :=
  validated (mkMessage TypeClose sessionID).

Definition encodePrefix (m : Message) (bodySize : Z) : bytes :=
  [byte_of_Z magic0; byte_of_Z magic1; byte_of_Z magic2; byte_of_Z magic3;
   byte_of_Z Version; byte_of_Z (Header_Type (Message_Header m))]
  ++ be_put 2 bodySize ++ Header_SessionID (Message_Header m).

Definition encodeBody (m : Message) : bytes :=
  let t := Header_Type (Message_Header m) in
  if (t =? TypeHello) || (t =? TypeHelloAck) then
    let h := Message_Handshake m in
    byte_of_Z (Handshake_DataShards h) :: byte_of_Z (Handshake_ParityShards h)
    :: be_put 2 (Handshake_MaxUDPPayload h)
  else if t =? TypeDataShard then
    let d := Message_DataShard m in
    be_put 8 (PacketID d)
    ++ [byte_of_Z (DataShards d); byte_of_Z (ParityShards d); byte_of_Z (ShardIndex d)]
    ++ be_put 4 (OriginalLength d) ++ Payload d
  else if (t =? TypePing) || (t =? TypePong) then
    let p := Message_Probe m in be_put 8 (Token p) ++ be_put 8 (Timestamp p)
  else [].

(** ** The authenticator and its cache of HMAC working states *)

Definition authenticationCacheCapacity : nat := 4.

Record authenticationState := { mac : hmacHash; tag : bytes }.
Definition zeroTag : bytes := replicate 32 Byte.x00.

Record Authenticator := { key : bytes; states : list authenticationState }.

Definition NewAuthenticator (psk : bytes) : result WireError Authenticator :=
  if len psk =? 0 then Err ErrInvalidKey else Ok {| key := psk; states := [] |}.

Definition acquire (a : Authenticator) : authenticationState * Authenticator :=
  match states a with
  | state :: rest =>
      ({| mac := mac_Reset (mac state); tag := tag state |},
       {| key := key a; states := rest |})
  | [] => ({| mac := hmac_New (key a); tag := zeroTag |}, a)
  end.

Definition release (a : Authenticator) (state : authenticationState) : Authenticator :=
  let state' := {| mac := mac state; tag := zeroTag |} in
  if (length (states a) <? authenticationCacheCapacity)%nat
  then {| key := key a; states := states a ++ [state'] |} else a.

Definition sign (a : Authenticator) (packet : bytes) (tagOffset : nat) : bytes * Authenticator :=
  let '(state, a') := acquire a in
  let mac' := mac_Write (mac state) (take tagOffset packet) in
  (take tagOffset packet ++ mac_Sum mac' [],
   release a' {| mac := mac'; tag := tag state |}).

Definition verify (a : Authenticator) (packet : bytes) (tagOffset : nat) : bool * Authenticator :=
  let '(state, a') := acquire a in
  let mac' := mac_Write (mac state) (take tagOffset packet) in
  let sum := mac_Sum mac' [] in
  (hmac_Equal sum (drop tagOffset packet),
   release a' {| mac := mac'; tag := sum |}).

Definition appendAuthenticated (dst : bytes) (m : Message) (psk : bytes) (budget : Z)
    (authenticator : option Authenticator) : (bytes * option WireError) * option Authenticator :=
  if len psk =? 0 then ((dst, Some ErrInvalidKey), authenticator) else
  match validateBudget budget with
  | Some e => ((dst, Some e), authenticator)
  | None =>
  match EncodedLen m with
  | Err e => ((dst, Some e), authenticator)
  | Ok packetSize =>
    if budget <? packetSize then ((dst, Some ErrPacketTooLarge), authenticator) else
    let bodySize := packetSize - PrefixSize - AuthenticationTagSize in
    let signed := encodePrefix m bodySize ++ encodeBody m in
    match authenticator with
    | None => ((dst ++ signed ++ hmac_sha256 psk signed, None), None)
    | Some a =>
        let '(packet, a') := sign a (signed ++ zeroTag) (Z.to_nat (PrefixSize + bodySize)) in
        ((dst ++ packet, None), Some a')
    end
  end
  end.

Definition AppendAuthenticated (dst : bytes) (m : Message) (psk : bytes) (budget : Z)
    : bytes * option WireError :=
  fst (appendAuthenticated dst m psk budget None).

Definition Authenticator_Append (a : Authenticator) (dst : bytes) (m : Message) (budget : Z)
    : (bytes * option WireError) * option Authenticator :=
  appendAuthenticated dst m (key a) budget (Some a).

(** ** Decoding *)

(** The checks before authentication; returns the type, the SessionID and the
    tag offset. *)
Definition decodeEnvelope (datagram psk : bytes) (receiveLimit : Z)
    : result WireError (Z * SessionID * nat) :=
  fail len psk =? 0 with ErrInvalidKey in
  check validateBudget receiveLimit in
  fail (receiveLimit <? len datagram) || (MaxUDPPayload <? len datagram) with ErrPacketTooLarge in
  fail len datagram <? MinimumPacketSize with ErrMalformed in
  fail negb (byte_at 0 datagram =? magic0) || negb (byte_at 1 datagram =? magic1)
       || negb (byte_at 2 datagram =? magic2) || negb (byte_at 3 datagram =? magic3)
    with ErrMalformed in
  fail negb (byte_at 4 datagram =? Version) with ErrUnsupportedVersion in
  let packetType := byte_at 5 datagram in
  fail negb (knownPacketType packetType) with ErrUnknownPacketType in
  let bodySize := be_get (slice 6 8 datagram) in
  let tagOffset := PrefixSize + bodySize in
  fail negb (tagOffset + AuthenticationTagSize =? len datagram) with ErrMalformed in
  let sessionID := slice 8 24 datagram in
  if decide (sessionID = zeroSessionID) then Err ErrInvalidSessionID else
  Ok (packetType, sessionID, Z.to_nat tagOffset).

(** The type-specific body, after authentication. *)
Definition decodeBody (packetType : Z) (sessionID : SessionID) (body : bytes)
    : result WireError Message :=
  let header := {| Header_Type := packetType; Header_SessionID := sessionID |} in
  let? message :=
    (if (packetType =? TypeHello) || (packetType =? TypeHelloAck) then
       if negb (len body =? helloBodySize) then Err ErrMalformed else
       Ok {| Message_Header := header;
             Message_Handshake := {| Handshake_DataShards := byte_at 0 body;
               Handshake_ParityShards := byte_at 1 body;
               Handshake_MaxUDPPayload := be_get (slice 2 4 body) |};
             Message_DataShard := emptyDataShard; Message_Probe := zeroProbe |}
     else if packetType =? TypeDataShard then
       if len body <? DataShardMetadataSize then Err ErrMalformed else
       Ok {| Message_Header := header; Message_Handshake := zeroHandshake;
             Message_DataShard := {| PacketID := be_get (slice 0 8 body);
               DataShards := byte_at 8 body; ParityShards := byte_at 9 body;
               ShardIndex := byte_at 10 body;
               OriginalLength := be_get (slice 11 15 body);
               Payload := drop 15 body |};
             Message_Probe := zeroProbe |}
     else if (packetType =? TypePing) || (packetType =? TypePong) then
       if negb (len body =? probeBodySize) then Err ErrMalformed else
       Ok {| Message_Header := header; Message_Handshake := zeroHandshake;
             Message_DataShard := emptyDataShard;
             Message_Probe := {| Token := be_get (slice 0 8 body);
               Timestamp := be_get (slice 8 16 body) |} |}
     else if packetType =? TypeClose then
       if negb (len body =? 0) then Err ErrMalformed else
       Ok (mkMessage packetType sessionID)
     else Ok (mkMessage packetType sessionID)) in
  check validateMessage message in
  Ok message.

Definition decodeAuthenticated (datagram psk : bytes) (receiveLimit : Z)
    (authenticator : option Authenticator) : result WireError Message * option Authenticator :=
  match decodeEnvelope datagram psk receiveLimit with
  | Err e => (Err e, authenticator)
  | Ok (packetType, sessionID, tagOffset) =>
    let '(authenticated, authenticator') :=
      match authenticator with
      | None => (hmac_Equal (hmac_sha256 psk (take tagOffset datagram)) (drop tagOffset datagram),
                 None)
      | Some a => let '(ok, a') := verify a datagram tagOffset in (ok, Some a')
      end in
    if negb authenticated then (Err ErrAuthentication, authenticator') else
    (decodeBody packetType sessionID (slice 24 tagOffset datagram), authenticator')
  end.

Definition DecodeAuthenticated (datagram psk : bytes) (receiveLimit : Z)
    : result WireError Message :=
  fst (decodeAuthenticated datagram psk receiveLimit None).

Definition Authenticator_Decode (a : Authenticator) (datagram : bytes) (receiveLimit : Z)
    : result WireError Message * option Authenticator :=
  decodeAuthenticated datagram (key a) receiveLimit (Some a).

(** The handler is a state transformer: the model records every message it was
    given and its returned error. *)
Definition DecodeAndDispatch {S : Type} (datagram psk : bytes) (receiveLimit : Z)
    (handler : option (Message -> S -> option WireError * S)) (s : S) : option WireError * S :=
  match handler with
  | None => (Some ErrInvalidHandler, s)
  | Some h =>
    match DecodeAuthenticated datagram psk receiveLimit with
    | Err e => (Some e, s)
    | Ok message => h message s
    end
  end.

(** ** Well-formed messages: what the Go types guarantee *)

Record Message_wf (m : Message) : Prop := {
  wf_type : in_u 8 (Header_Type (Message_Header m));
  wf_sid : length (Header_SessionID (Message_Header m)) = 16%nat;
  wf_hs_data : in_u 8 (Handshake_DataShards (Message_Handshake m));
  wf_hs_parity : in_u 8 (Handshake_ParityShards (Message_Handshake m));
  wf_hs_max : in_u 16 (Handshake_MaxUDPPayload (Message_Handshake m));
  wf_packet : in_u 64 (PacketID (Message_DataShard m));
  wf_data : in_u 8 (DataShards (Message_DataShard m));
  wf_parity : in_u 8 (ParityShards (Message_DataShard m));
  wf_index : in_u 8 (ShardIndex (Message_DataShard m));
  wf_original : in_u 32 (OriginalLength (Message_DataShard m));
  wf_token : in_u 64 (Token (Message_Probe m));
  wf_timestamp : in_u 64 (Timestamp (Message_Probe m)) }.

(** ** Properties of validation and sizes *)

Lemma zeroDataShard_spec d : zeroDataShard d = true <-> d = emptyDataShard.
Proof.
  split; [|by intros ->]. destruct d as [a b c e f p]. unfold zeroDataShard; simpl.
  intros H. repeat apply andb_prop in H as [H ?].
  assert (p = []) as -> by (apply len_zero; lia).
  unfold emptyDataShard. f_equal; lia.
Qed.

Lemma knownPacketType_cases t :
  knownPacketType t = true ->
  t = TypeHello \/ t = TypeHelloAck \/ t = TypeDataShard \/
  t = TypePing \/ t = TypePong \/ t = TypeClose.
Proof.
  unfold knownPacketType, TypeHello, TypeHelloAck, TypeDataShard, TypePing, TypePong, TypeClose.
  lia.
Qed.

(** What a validated message looks like: one body, the others neutral. *)
Lemma validateMessage_shape m :
  validateMessage m = None ->
  let t := Header_Type (Message_Header m) in
  Header_SessionID (Message_Header m) <> zeroSessionID /\
  ( ((t = TypeHello \/ t = TypeHelloAck) /\
     Message_DataShard m = emptyDataShard /\ Message_Probe m = zeroProbe)
  \/ (t = TypeDataShard /\ Message_Handshake m = zeroHandshake /\ Message_Probe m = zeroProbe)
  \/ ((t = TypePing \/ t = TypePong) /\
      Message_Handshake m = zeroHandshake /\ Message_DataShard m = emptyDataShard)
  \/ (t = TypeClose /\ Message_Handshake m = zeroHandshake /\
      Message_DataShard m = emptyDataShard /\ Message_Probe m = zeroProbe)).
Proof.
  unfold validateMessage. intros H. cbv zeta in H |- *.
  destruct (decide _) as [|Hsid]; [done|]. split; [done|].
  destruct (knownPacketType _) eqn:Hk; [|done]. apply knownPacketType_cases in Hk. simpl in H.
  destruct Hk as [E|[E|[E|[E|[E|E]]]]]; rewrite E in H |- *; simpl in H;
    unfold validateHandshakeBody, validateDataShardBody in H; cbv zeta in H;
    go_inv H; repeat match goal with
    | E : _ || _ = false |- _ => apply orb_false_elim in E as [? ?]
    | E : negb _ = false |- _ => apply negb_false_iff in E
    | E : bool_decide _ = true |- _ => apply bool_decide_eq_true in E
    | E : zeroDataShard _ = true |- _ => apply zeroDataShard_spec in E
    end; tauto.
Qed.

Lemma EncodedLen_ok m n :
  EncodedLen m = Ok n <->
  validateMessage m = None /\ n = 56 + len (encodeBody m) /\
  len (encodeBody m) <= 65535 /\ n <= MaxUDPPayload.
Proof.
  unfold EncodedLen. destruct (validateMessage m) eqn:Hv; [naive_solver|].
  pose proof (validateMessage_shape m Hv) as [_ Hshape]. cbv zeta in Hshape |- *.
  unfold encodeBody, result_bind, PrefixSize, AuthenticationTagSize, MaxUDPPayload.
  cbv zeta. set (t := Header_Type _) in *.
  assert (Ht : knownPacketType t = true) by (clearbody t; naive_solver).
  clear Hshape. apply knownPacketType_cases in Ht.
  destruct Ht as [->|[->|[->|[->|[->| ->]]]]]; simpl;
    unfold helloBodySize, probeBodySize, DataShardMetadataSize;
    autorewrite with len;
    try match goal with |- (if ?c then _ else _) = _ <-> _ => destruct c eqn:E end;
    (split; [first [done | intros [= <-]; repeat split; lia]
            | intros (_ & -> & ? & ?); first [f_equal; lia | lia]]).
Qed.

(** ** Encoding then decoding *)

Lemma decodeBody_encodeBody m :
  Message_wf m -> validateMessage m = None ->
  decodeBody (Header_Type (Message_Header m)) (Header_SessionID (Message_Header m))
    (encodeBody m) = Ok m.
Proof.
  intros [] Hv. pose proof (validateMessage_shape m Hv) as [_ Hshape].
  unfold decodeBody, encodeBody.
  destruct m as [[t sid] [hd hp hm] [pid d p i ol pl] [tk ts]]. simpl in *.
  destruct Hshape as [([->| ->]&[= -> -> -> -> -> ->]&[= -> ->])|[(->&[= -> -> ->]&[= -> ->])|
    [([->| ->]&[= -> -> ->]&[= -> -> -> -> -> ->])|(->&[= -> -> ->]&[= -> -> -> -> -> ->]&[= -> ->])]]];
    simpl; autorewrite with len;
    try (replace (_ <? DataShardMetadataSize) with false
      by (unfold DataShardMetadataSize; pose proof (len_nonneg pl); lia));
    simpl; slices; rewrite ?be_get_put_small by width;
    unfold mkMessage, emptyDataShard, zeroProbe, zeroHandshake; by rewrite Hv.
Qed.

Lemma length_encodePrefix m n :
  length (Header_SessionID (Message_Header m)) = 16%nat -> length (encodePrefix m n) = 24%nat.
Proof. intros H. unfold encodePrefix. by rewrite !length_app, length_be_put, H. Qed.

Lemma validateBudget_ok b : validateBudget b = None <-> MinUDPPayload <= b <= MaxUDPPayload.
Proof. unfold validateBudget. destruct (_ || _) eqn:E; split; intros; (done || lia). Qed.

(** The envelope of an encoded packet is accepted and yields its parameters. *)
Lemma decodeEnvelope_encode m psk limit t :
  Message_wf m -> validateMessage m = None -> psk <> [] ->
  length t = 32%nat ->
  let body := encodeBody m in
  let packet := encodePrefix m (len body) ++ body ++ t in
  len body <= 65535 -> len packet <= limit -> validateBudget limit = None ->
  decodeEnvelope packet psk limit
  = Ok (Header_Type (Message_Header m), Header_SessionID (Message_Header m),
        (24 + length body)%nat).
Proof.
  intros [Htype Hsid _ _ _ _ _ _ _ _ _ _] Hv Hpsk Ht body packet Hbody Hlen Hlimit.
  pose proof (len_nonneg body) as Hbody0.
  pose proof (validateMessage_shape m Hv) as [Hnz Hshape].
  assert (Hpacket : len packet = 56 + len body).
  { unfold packet, len. rewrite !length_app, length_encodePrefix, Ht by done. lia. }
  apply validateBudget_ok in Hlimit as Hl. unfold MinUDPPayload, MaxUDPPayload in Hl.
  pose proof (len_pos psk Hpsk) as Hp.
  unfold decodeEnvelope.
  replace (len psk =? 0) with false by lia. rewrite Hlimit, Hpacket.
  replace (_ || _) with false by (unfold MaxUDPPayload; lia).
  replace (_ <? MinimumPacketSize) with false
    by (unfold MinimumPacketSize, PrefixSize, AuthenticationTagSize; lia).
  unfold packet, encodePrefix. set (sid := Header_SessionID _) in *.
  set (ty := Header_Type _) in *.
  assert (Hlsid : Len sid 16) by exact Hsid.
  rewrite <- !app_assoc. cbn [app].
  slices. rewrite be_get_put_small by (unfold in_u; change (2 ^ (8 * Z.of_nat 2)) with 65536; lia). cbn [negb orb].
  assert (Hk : knownPacketType ty = true) by (clearbody ty; naive_solver).
  rewrite Hk, !Z.eqb_refl. cbn [negb orb].
  replace (negb _) with false
    by (unfold PrefixSize, AuthenticationTagSize; destruct (_ =? _) eqn:E; simpl; lia).
  rewrite decide_False by done. do 2 f_equal. unfold PrefixSize, len. lia.
Qed.

(** The packet a message is sealed into under a key. *)
Definition sealed (psk : bytes) (m : Message) : bytes :=
  let signed := encodePrefix m (len (encodeBody m)) ++ encodeBody m in
  signed ++ hmac_sha256 psk signed.

Lemma AppendAuthenticated_ok dst m psk budget out :
  AppendAuthenticated dst m psk budget = (out, None) <->
  psk <> [] /\ validateBudget budget = None /\
  (exists n, EncodedLen m = Ok n /\ n <= budget) /\ out = dst ++ sealed psk m.
Proof.
  unfold AppendAuthenticated, appendAuthenticated.
  destruct (len psk =? 0) eqn:Hk.
  { assert (psk = []) by (apply len_zero; lia). naive_solver. }
  assert (psk <> []) by (intros ->; rewrite len_nil in Hk; lia).
  destruct (validateBudget budget) eqn:Hb; [naive_solver|].
  destruct (EncodedLen m) as [n|] eqn:Hn; [|naive_solver].
  destruct (budget <? n) eqn:Hbn; simpl.
  { split; [done|]. intros (_ & _ & (n' & [= <-] & ?) & _). lia. }
  apply EncodedLen_ok in Hn as (_ & -> & _ & _).
  unfold sealed, PrefixSize, AuthenticationTagSize.
  replace (56 + len (encodeBody m) - 24 - 32) with (len (encodeBody m)) by lia.
  rewrite <- !app_assoc. split.
  - intros [= <-]. split_and!; try done. eexists. split; [done|lia].
  - intros (_ & _ & _ & ->). by rewrite <- ?app_assoc.
Qed.

Lemma length_sealed psk m :
  length (Header_SessionID (Message_Header m)) = 16%nat ->
  len (sealed psk m) = 56 + len (encodeBody m).
Proof.
  intros H. unfold sealed, len. cbv zeta.
  rewrite !length_app, length_encodePrefix, length_hmac_sha256 by done. lia.
Qed.

Lemma decode_sealed m psk limit :
  Message_wf m -> psk <> [] -> validateMessage m = None ->
  len (encodeBody m) <= 65535 -> len (sealed psk m) <= limit -> validateBudget limit = None ->
  DecodeAuthenticated (sealed psk m) psk limit = Ok m.
Proof.
  intros Hwf Hpsk Hv Hbody Hlen Hlimit. pose proof (wf_sid m Hwf) as Hsid.
  unfold DecodeAuthenticated, decodeAuthenticated, sealed in *. cbv zeta in *.
  rewrite <- app_assoc in *.
  rewrite decodeEnvelope_encode by (done || apply length_hmac_sha256). cbv beta iota.
  set (pre := encodePrefix m (len (encodeBody m))) in *. set (body := encodeBody m) in *.
  assert (Hpre : Len pre 24) by (by apply length_encodePrefix).
  assert (Hb : Len body (length body)) by done.
  rewrite (app_assoc pre body), take_app_length', drop_app_length'
    by (rewrite length_app, Hpre; lia).
  rewrite (proj2 (hmac_Equal_spec _ _) eq_refl). cbn [negb fst].
  rewrite <- (app_assoc pre body), slice_app_r by (rewrite Hpre; lia).
  rewrite Hpre. replace (24 + length body - 24)%nat with (length body) by lia.
  rewrite slice_take by done. by apply decodeBody_encodeBody.
Qed.

(** ** Decoding then encoding: the encoding is canonical *)

Lemma decodeEnvelope_ok d psk limit t sid off :
  decodeEnvelope d psk limit = Ok (t, sid, off) ->
  psk <> [] /\ validateBudget limit = None /\ len d <= limit /\ (off + 32)%nat = length d /\
  (24 <= off)%nat /\ off = (24 + Z.to_nat (be_get (slice 6 8 d)))%nat /\
  byte_at 0 d = magic0 /\ byte_at 1 d = magic1 /\ byte_at 2 d = magic2 /\
  byte_at 3 d = magic3 /\ byte_at 4 d = Version /\ t = byte_at 5 d /\
  knownPacketType t = true /\ sid = slice 8 24 d /\ sid <> zeroSessionID.
Proof.
  unfold decodeEnvelope, MinimumPacketSize, PrefixSize, AuthenticationTagSize.
  intros H. go_inv H. simplify_eq.
  assert (psk <> []) by (intros ->; rewrite len_nil in *; lia).
  assert (Hr : 0 <= be_get (slice 6 8 d)) by apply be_get_range.
  unfold len in *. repeat match goal with
  | E : _ || _ = false |- _ => apply orb_false_elim in E as [? ?]
  | E : negb _ = false |- _ => apply negb_false_iff in E
  end. split_and!; try done; lia.
Qed.

Lemma decodeBody_ok t sid body m :
  in_u 8 t -> length sid = 16%nat -> knownPacketType t = true ->
  decodeBody t sid body = Ok m ->
  Message_wf m /\ validateMessage m = None /\
  Message_Header m = {| Header_Type := t; Header_SessionID := sid |} /\ encodeBody m = body.
Proof.
  intros Ht Hsid Hk H. apply knownPacketType_cases in Hk. unfold decodeBody in H.
  go_step H. destruct (validateMessage x) eqn:Hv; [done|]. injection H as <-.
  assert (Hu8 : forall i, in_u 8 (byte_at i body)) by (intros; apply byte_at_range).
  assert (Hz : forall w, 0 < w -> in_u w 0).
  { intros w Hw. split; [lia|]. apply Z.pow_pos_nonneg; lia. }
  unfold len, DataShardMetadataSize, helloBodySize, probeBodySize in E.
  assert (Hhello : forall n i j, (j <= length body)%nat -> (j - i)%nat = n ->
    in_u (8 * Z.of_nat n) (be_get (slice i j body))) by (intros; by apply be_get_slice_range).
  destruct Hk as [->|[->|[->|[->|[->| ->]]]]]; cbn in E; go_step E; try discriminate E;
    injection E as <-; apply negb_false_iff in E0 || apply Z.ltb_ge in E0 || idtac;
    (split; [split; simpl; auto; try (apply Hz; lia);
             first [apply (Hhello 2%nat) | apply (Hhello 4%nat) | apply (Hhello 8%nat)]; lia
            |split; [done|split; [done|]]]);
    unfold encodeBody; cbn [Message_Header Header_Type Message_Handshake Message_DataShard
      Message_Probe TypeHello TypeHelloAck TypeDataShard TypePing TypePong Z.eqb Pos.eqb orb
      Handshake_DataShards Handshake_ParityShards Handshake_MaxUDPPayload PacketID DataShards
      ParityShards ShardIndex OriginalLength Payload Token Timestamp mkMessage TypeClose app];
    unslice; rewrite ?drop_0;
    first [done | rewrite slice_0_take, take_ge by lia; done
          | symmetry; apply len_zero; unfold len; lia].
Qed.

(** ** The stateful authenticator *)

(** Every cached state was made by [acquire] from the authenticator's own key. *)
Definition Authenticator_inv (a : Authenticator) : Prop :=
  key a <> [] /\ (length (states a) <= authenticationCacheCapacity)%nat /\
  Forall (fun s => mac_key (mac s) = key a /\ tag s = zeroTag) (states a).

Lemma acquire_spec a s a' :
  Authenticator_inv a -> acquire a = (s, a') ->
  mac s = hmac_New (key a) /\ key a' = key a /\ Authenticator_inv a'.
Proof.
  intros (Hk & Hcap & Hall) H. unfold acquire in H.
  destruct (states a) as [|s0 rest] eqn:E; injection H as <- <-.
  - unfold Authenticator_inv. rewrite E. auto.
  - apply Forall_cons in Hall as [[Hs0 _] Hrest]. simpl in *. split_and!; try done; simpl.
    + unfold mac_Reset, hmac_New. by rewrite Hs0.
    + split_and!; [done|simpl; lia|done].
Qed.

Lemma release_spec a s :
  Authenticator_inv a -> mac_key (mac s) = key a ->
  key (release a s) = key a /\ Authenticator_inv (release a s).
Proof.
  intros (Hk & Hcap & Hall) Hs. unfold release, Authenticator_inv.
  destruct (_ <? _)%nat eqn:E; simpl; [|done]. apply Nat.ltb_lt in E.
  split_and!; try done; [rewrite length_app; simpl; lia|].
  apply Forall_app; split; [done|]. by repeat constructor.
Qed.

Lemma sign_spec a packet off a' out :
  Authenticator_inv a -> sign a packet off = (out, a') ->
  out = take off packet ++ hmac_sha256 (key a) (take off packet) /\
  key a' = key a /\ Authenticator_inv a'.
Proof.
  intros Hinv H. unfold sign in H. destruct (acquire a) as [s a1] eqn:Ha.
  apply acquire_spec in Ha as (Hs & Hk1 & Hinv1); [|done]. injection H as <- <-.
  rewrite Hs. simpl. split; [done|].
  destruct (release_spec a1 {| mac := mac_Write (hmac_New (key a)) (take off packet); tag := tag s |})
    as [Hk2 Hi2]; [done|simpl; congruence|]. split; [congruence|done].
Qed.

Lemma verify_spec a packet off a' ok :
  Authenticator_inv a -> verify a packet off = (ok, a') ->
  ok = hmac_Equal (hmac_sha256 (key a) (take off packet)) (drop off packet) /\
  key a' = key a /\ Authenticator_inv a'.
Proof.
  intros Hinv H. unfold verify in H. destruct (acquire a) as [s a1] eqn:Ha.
  apply acquire_spec in Ha as (Hs & Hk1 & Hinv1); [|done]. injection H as <- <-.
  rewrite Hs. simpl. split; [done|].
  match goal with |- context [release a1 ?st] =>
    destruct (release_spec a1 st) as [Hk2 Hi2]; [done|simpl; congruence|] end.
  split; [congruence|done].
Qed.

(** ** Interleaved use of one authenticator

    Callers share the cache: between two operations of one caller, others may
    take a state out ([OpAcquire]) and bring it back after writing arbitrary
    bytes and a tag into it ([OpRelease]). *)

Inductive AuthOp :=
| OpAppend (dst : bytes) (m : Message) (budget : Z)
| OpDecode (datagram : bytes) (limit : Z)
| OpAcquire
| OpRelease (written tagBytes : bytes).

Inductive AuthOutput :=
| OutAppend (r : bytes * option WireError)
| OutDecode (r : result WireError Message)
| OutNone.

Record AuthPool := { pool : Authenticator; inFlight : list authenticationState }.

Definition authStep (p : AuthPool) (op : AuthOp) : AuthOutput * AuthPool :=
  match op with
  | OpAppend dst m budget =>
      let '(r, a) := Authenticator_Append (pool p) dst m budget in
      (OutAppend r, {| pool := default (pool p) a; inFlight := inFlight p |})
  | OpDecode d limit =>
      let '(r, a) := Authenticator_Decode (pool p) d limit in
      (OutDecode r, {| pool := default (pool p) a; inFlight := inFlight p |})
  | OpAcquire =>
      let '(s, a) := acquire (pool p) in
      (OutNone, {| pool := a; inFlight := s :: inFlight p |})
  | OpRelease written tagBytes =>
      match inFlight p with
      | [] => (OutNone, p)
      | s :: rest =>
          let s' := {| mac := {| mac_key := mac_key (mac s); mac_written := written |};
                       tag := tagBytes |} in
          (OutNone, {| pool := release (pool p) s'; inFlight := rest |})
      end
  end.

Fixpoint authRun (p : AuthPool) (ops : list AuthOp) : list AuthOutput :=
  match ops with
  | [] => []
  | op :: ops' => let '(o, p') := authStep p op in o :: authRun p' ops'
  end.

Definition stateless (psk : bytes) (op : AuthOp) : AuthOutput :=
  match op with
  | OpAppend dst m budget => OutAppend (AppendAuthenticated dst m psk budget)
  | OpDecode d limit => OutDecode (DecodeAuthenticated d psk limit)
  | OpAcquire | OpRelease _ _ => OutNone
  end.

Definition AuthPool_inv (psk : bytes) (p : AuthPool) : Prop :=
  key (pool p) = psk /\ Authenticator_inv (pool p) /\
  Forall (fun s => mac_key (mac s) = psk) (inFlight p).

Lemma Authenticator_Append_spec a dst m budget :
  Authenticator_inv a -> (forall n, EncodedLen m = Ok n ->
    length (Header_SessionID (Message_Header m)) = 16%nat) ->
  exists a', Authenticator_Append a dst m budget
    = (AppendAuthenticated dst m (key a) budget, Some a') /\
    key a' = key a /\ Authenticator_inv a'.
Proof.
  intros Hinv Hsid. unfold Authenticator_Append, AppendAuthenticated, appendAuthenticated.
  destruct (len (key a) =? 0); [by eauto|].
  destruct (validateBudget budget); [by eauto|].
  destruct (EncodedLen m) as [n|] eqn:Hn; [|by eauto].
  destruct (budget <? n); [by eauto|]. specialize (Hsid n eq_refl).
  apply EncodedLen_ok in Hn as (_ & -> & _).
  unfold PrefixSize, AuthenticationTagSize.
  replace (56 + len (encodeBody m) - 24 - 32) with (len (encodeBody m)) by lia.
  set (signed := encodePrefix m _ ++ encodeBody m).
  destruct (sign a _ _) as [packet a'] eqn:Hs.
  apply sign_spec in Hs as (-> & ? & ?); [|done]. exists a'. split; [|done].
  assert (Hlen : Z.to_nat (24 + len (encodeBody m)) = length signed).
  { unfold signed. rewrite length_app, length_encodePrefix by done. unfold len. lia. }
  by rewrite Hlen, take_app_length.
Qed.

Lemma Authenticator_Decode_spec a d limit :
  Authenticator_inv a ->
  exists a', Authenticator_Decode a d limit = (DecodeAuthenticated d (key a) limit, Some a') /\
    key a' = key a /\ Authenticator_inv a'.
Proof.
  intros Hinv. unfold Authenticator_Decode, DecodeAuthenticated, decodeAuthenticated.
  destruct (decodeEnvelope d (key a) limit) as [[[t sid] off]|]; [|by eauto].
  destruct (verify a d off) as [ok a'] eqn:Hv.
  apply verify_spec in Hv as (-> & ? & ?); [|done]. exists a'. by destruct (hmac_Equal _ _).
Qed.

Definition op_typed (op : AuthOp) : Prop :=
  match op with OpAppend _ m _ => Message_wf m | _ => True end.

Lemma authStep_spec psk p op o p' :
  AuthPool_inv psk p -> op_typed op -> authStep p op = (o, p') ->
  o = stateless psk op /\ AuthPool_inv psk p'.
Proof.
  intros (Hk & Hinv & Hfl) Hty H. destruct op as [dst m b|d l| |w t]; simpl in H.
  - destruct (Authenticator_Append_spec (pool p) dst m b Hinv) as (a' & E & ? & ?);
      [intros; apply (wf_sid _ Hty)|].
    rewrite E in H. injection H as <- <-. rewrite Hk. repeat split; simpl; try congruence; apply H1.
  - destruct (Authenticator_Decode_spec (pool p) d l Hinv) as (a' & E & ? & ?).
    rewrite E in H. injection H as <- <-. rewrite Hk. repeat split; simpl; try congruence; apply H1.
  - destruct (acquire (pool p)) as [s a'] eqn:Ha. injection H as <- <-.
    apply acquire_spec in Ha as (Hs & ? & ?); [|done]. split; [done|].
    split_and!; simpl; [congruence|done|]. constructor; [by rewrite Hs|done].
  - destruct (inFlight p) as [|s rest] eqn:Hf; injection H as <- <-;
      (split; [done|]); [by split_and!; rewrite ?Hf|].
    apply Forall_cons in Hfl as [Hs Hrest].
    edestruct (release_spec (pool p)) as [? ?]; [done| |split_and!; simpl; [|eassumption|done]].
    + simpl. congruence.
    + congruence.
Qed.

Lemma DecodeAuthenticated_sealed d psk limit m :
  DecodeAuthenticated d psk limit = Ok m ->
  Message_wf m /\ validateMessage m = None /\ psk <> [] /\ validateBudget limit = None /\
  len d <= limit /\ len (encodeBody m) <= 65535 /\ d = sealed psk m.
Proof.
  unfold DecodeAuthenticated, decodeAuthenticated.
  destruct (decodeEnvelope d psk limit) as [[[t sid] off]|] eqn:He; [|done].
  apply decodeEnvelope_ok in He as (Hpsk & Hl & Hlen & Hoff & Hoff24 & Hbs & B0 & B1 & B2 & B3
    & B4 & Ht & Hk & Hsid & Hnz).
  destruct (hmac_Equal _ _) eqn:Hmac; [|done]. apply hmac_Equal_spec in Hmac.
  simpl. intros Hbody.
  assert (H6 : 0 <= be_get (slice 6 8 d) < 65536).
  { apply (be_get_u 2). apply length_slice. lia. }
  apply decodeBody_ok in Hbody as (Hwf & Hv & Hh & Hb);
    [|subst t; apply byte_at_range|subst sid; apply length_slice; lia|done].
  split_and!; try done; [rewrite Hb; unfold len; rewrite length_slice by lia; lia|].
  assert (Hpre : encodePrefix m (len (slice 24 off d)) ++ slice 24 off d = take off d).
  { unfold encodePrefix. rewrite Hh. cbn [Header_Type Header_SessionID app].
    rewrite Ht, Hsid, <- B0, <- B1, <- B2, <- B3, <- B4.
    replace (len (slice 24 off d)) with (be_get (slice 6 8 d))
      by (unfold len; rewrite length_slice by lia; lia).
    unslice. apply slice_0_take. }
  unfold sealed. cbv zeta. by rewrite Hb, Hpre, Hmac, take_drop.
Qed.

(** ** Properties *)

(** C25: Decoding is exactly the inverse of encoding.  A datagram decodes to a
    message under a key and receive limit if and only if that message is a value
    of the Go types and encoding it under the same key and limit produces that
    very datagram.  So every encoded packet decodes to its message, the encoding
    is canonical (one datagram per message), and nothing whose tag is not the
    HMAC of its prefix and body is ever decoded. *)
Theorem DecodeAuthenticated_iff_Append (d psk : bytes) (limit : Z) (m : Message) :
  DecodeAuthenticated d psk limit = Ok m <->
  Message_wf m /\ AppendAuthenticated [] m psk limit = (d, None).
Proof.
  split.
  - intros (Hwf & Hv & Hpsk & Hl & Hlen & Hb & ->)%DecodeAuthenticated_sealed.
    rewrite length_sealed in Hlen by apply wf_sid, Hwf. apply validateBudget_ok in Hl as Hl'.
    split; [done|]. apply AppendAuthenticated_ok. split_and!; try done.
    exists (56 + len (encodeBody m)). rewrite EncodedLen_ok. split_and!; (done || lia).
  - intros [Hwf (Hpsk & Hl & (n & Hn & Hle) & ->)%AppendAuthenticated_ok].
    apply EncodedLen_ok in Hn as (Hv & -> & Hb & Hm). apply decode_sealed; try done.
    rewrite length_sealed by apply wf_sid, Hwf. lia.
Qed.

(** C26: The handler given to [DecodeAndDispatch] runs only after complete
    authentication and validation.  Either the datagram is the sealed packet of a
    well-formed valid message and the handler ran exactly once, on that message;
    or the handler's state is untouched and an error is returned. *)
Theorem DecodeAndDispatch_authenticated {S : Type} (d psk : bytes) (limit : Z)
    (h : Message -> S -> option WireError * S) (s : S) :
  (exists m, Message_wf m /\ validateMessage m = None /\ d = sealed psk m /\
     DecodeAndDispatch d psk limit (Some h) s = h m s) \/
  (exists e, DecodeAndDispatch d psk limit (Some h) s = (Some e, s)).
Proof.
  unfold DecodeAndDispatch. destruct (DecodeAuthenticated d psk limit) as [m|e] eqn:E;
    [left|right; by eauto].
  apply DecodeAuthenticated_sealed in E as (? & ? & _ & _ & _ & _ & ?). by eauto.
Qed.

(** The cached authenticator is indistinguishable from the stateless
    functions.  Whatever sequence of encodes and decodes runs on an authenticator
    built from a key, interleaved with other callers taking cached HMAC states and
    returning them dirty, every output equals the one-shot function's output for
    that key. *)
Theorem Authenticator_equivalent (psk : bytes) (a : Authenticator) (ops : list AuthOp)
    (Hnew : NewAuthenticator psk = Ok a) (Hops : Forall op_typed ops) :
  authRun {| pool := a; inFlight := [] |} ops = map (stateless psk) ops.
Proof.
  assert (Hinv : AuthPool_inv psk {| pool := a; inFlight := [] |}).
  { unfold NewAuthenticator in Hnew. go_inv Hnew. subst a. split_and!; simpl; try done.
    split_and!; simpl; [|lia|done]. intros ->. done. }
  revert Hinv. generalize {| pool := a; inFlight := [] |}. clear Hnew a.
  induction ops as [|op ops IH]; intros p Hinv; [done|].
  apply Forall_cons in Hops as [Hop Hops]. simpl.
  destruct (authStep p op) as [o p'] eqn:E.
  apply (authStep_spec psk) in E as [-> Hinv']; [|done..]. f_equal. by apply IH.
Qed.

(** ** Witnesses *)

Definition sampleSession : SessionID := be_put 16 0x0102030405060708090a0b0c0d0e0f10.
Definition samplePing : Message := {|
  Message_Header := {| Header_Type := TypePing; Header_SessionID := sampleSession |};
  Message_Handshake := zeroHandshake; Message_DataShard := emptyDataShard;
  Message_Probe := {| Token := 7; Timestamp := 9 |} |}.

Example samplePing_roundtrip :
  let '(d, e) := AppendAuthenticated [] samplePing [Byte.x01] 1200 in
  e = None /\ len d = ProbePacketSize /\ DecodeAuthenticated d [Byte.x01] 1200 = Ok samplePing.
Proof. vm_compute. repeat split. Qed.

Lemma samplePing_wf : Message_wf samplePing.
Proof. split; vm_compute; (done || (split; congruence)). Qed.

Lemma Authenticator_equivalent_witness :
  exists a, NewAuthenticator [Byte.x01] = Ok a /\
    authRun {| pool := a; inFlight := [] |}
      [OpAppend [] samplePing 1200; OpAcquire; OpRelease [Byte.x05] [Byte.x06];
       OpAppend [Byte.x02] samplePing 1200; OpDecode [Byte.x00] 1200]
    = map (stateless [Byte.x01])
      [OpAppend [] samplePing 1200; OpAcquire; OpRelease [Byte.x05] [Byte.x06];
       OpAppend [Byte.x02] samplePing 1200; OpDecode [Byte.x00] 1200].
Proof.
  exists {| key := [Byte.x01]; states := [] |}. split; [reflexivity|].
  apply Authenticator_equivalent; [reflexivity|].
  repeat constructor; exact samplePing_wf || apply samplePing_wf || exact I.
Defined.
