(* ===== verification/Scheduler.v ===== *)
(** * Shard scheduling ([internal/scheduler])

    [Assign] maps the shards of one FEC block to path indexes.  Errors carry the
    [CountError] of the source: field, value, bounds and the wrapped cause. *)

From S2P Require Import Prelude.

Definition MaxShards : Z := 256.
Definition MaxPaths : Z := 256.

Inductive SchedulerError := ErrInvalidShardCount | ErrNoPaths | ErrTooManyShards | ErrTooManyPaths.
Inductive CountField := ShardCount | PathCount.

Record CountError := {
  Field : CountField; Value : Z; Min : Z; Max : Z; cause : SchedulerError }.

Definition Assign (packetID shardCount pathCount : Z) : result CountError (list Z) :=
  fail shardCount <=? 0 with
    {| Field := ShardCount; Value := shardCount; Min := 1; Max := MaxShards;
       cause := ErrInvalidShardCount |} in
  fail MaxShards <? shardCount with
    {| Field := ShardCount; Value := shardCount; Min := 1; Max := MaxShards;
       cause := ErrTooManyShards |} in
  fail pathCount <=? 0 with
    {| Field := PathCount; Value := pathCount; Min := 1; Max := MaxPaths; cause := ErrNoPaths |} in
  fail MaxPaths <? pathCount with
    {| Field := PathCount; Value := pathCount; Min := 1; Max := MaxPaths;
       cause := ErrTooManyPaths |} in
  let start := packetID mod pathCount in
  Ok (map (fun shard => (start + Z.of_nat shard) mod pathCount) (seq 0 (Z.to_nat shardCount))).

(** Shards assigned to one path. *)
Definition shardsOn (path : Z) (assignments : list Z) : Z :=
  len (filter (fun p => p = path) assignments).

(** [(s + i) mod m = p] selects one residue class of [i]. *)
Lemma residue_class s m p i :
  0 < m -> 0 <= p < m -> ((s + i) mod m = p <-> i mod m = (p - s) mod m).
Proof.
  intros Hm Hp. split; intros H.
  - rewrite <- H, Zminus_mod_idemp_l. f_equal. lia.
  - rewrite Z.add_mod, H, <- Z.add_mod by lia.
    replace (s + (p - s)) with p by lia. by apply Z.mod_small.
Qed.

(** How many of [0 .. n-1] fall in residue class [d] modulo [m]. *)
Lemma count_step n d m :
  0 < m -> 0 <= d < m -> 0 <= n ->
  (n + 1 + (m - 1 - d)) / m = (n + (m - 1 - d)) / m + (if decide (n mod m = d) then 1 else 0).
Proof.
  intros Hm Hd Hn. pose proof (Z.div_mod n m ltac:(lia)) as Hdm.
  pose proof (Z.mod_pos_bound n m Hm) as Hr.
  set (q := n / m) in *. set (r := n mod m) in *.
  replace (n + 1 + (m - 1 - d)) with (r - d + (q + 1) * m) by lia.
  replace (n + (m - 1 - d)) with (r - d - 1 + (q + 1) * m) by lia.
  rewrite !Z.div_add by lia. destruct (decide (r = d)) as [->|Hne].
  - rewrite Z.sub_diag. rewrite Z.div_0_l by lia.
    rewrite <- (Z.div_unique_pos (0 - 1) m (-1) (m - 1)) by lia. lia.
  - destruct (Z.lt_ge_cases r d).
    + rewrite <- (Z.div_unique_pos (r - d) m (-1) (m + r - d)) by lia.
      rewrite <- (Z.div_unique_pos (r - d - 1) m (-1) (m + r - d - 1)) by lia. lia.
    + rewrite !Z.div_small by lia. lia.
Qed.

Lemma shardsOn_count start m p n :
  0 < m -> 0 <= p < m ->
  shardsOn p (map (fun i => (start + Z.of_nat i) mod m) (seq 0 n))
  = (Z.of_nat n + (m - 1 - (p - start) mod m)) / m.
Proof.
  intros Hm Hp. pose proof (Z.mod_pos_bound (p - start) m Hm) as Hd.
  induction n as [|n IH].
  - rewrite Z.div_small by lia. done.
  - rewrite seq_S, map_app. unfold shardsOn in *. rewrite filter_app, len_app, IH.
    replace (Z.of_nat (S n)) with (Z.of_nat n + 1) by lia.
    rewrite count_step by lia. f_equal. simpl. rewrite filter_cons, filter_nil.
    pose proof (residue_class start m p (Z.of_nat n) Hm Hp) as Hiff.
    destruct (decide _), (decide _); done || tauto.
Qed.

(** A plan is balanced and a function of the packet number alone.  For every
    admissible block and path set [Assign] succeeds; it assigns every shard a path
    index in range, rotating from [packetID mod pathCount], and no path carries
    fewer than the floor or more than the ceiling of shards per path. *)
Theorem Assign_balanced (packetID shardCount pathCount : Z)
    (Hs : 1 <= shardCount <= MaxShards) (Hp : 1 <= pathCount <= MaxPaths) :
  exists plan, Assign packetID shardCount pathCount = Ok plan /\ len plan = shardCount /\
    (forall i path, plan !! i = Some path ->
       path = (packetID + Z.of_nat i) mod pathCount /\ 0 <= path < pathCount) /\
    (forall path, 0 <= path < pathCount ->
       shardCount / pathCount <= shardsOn path plan <= (shardCount + pathCount - 1) / pathCount).
Proof.
  unfold Assign, MaxShards, MaxPaths in *.
  rewrite !(proj2 (Z.leb_gt _ _)), !(proj2 (Z.ltb_ge _ _)) by lia.
  eexists. split; [done|]. split; [|split].
  - unfold len. rewrite length_map, length_seq. lia.
  - intros i path H. apply list_lookup_fmap_Some in H as (j & -> & Hj).
    apply lookup_seq in Hj as [-> _]. simpl. rewrite Zplus_mod_idemp_l.
    split; [done|]. apply Z.mod_pos_bound. lia.
  - intros path Hpath. rewrite shardsOn_count, Z2Nat.id by lia.
    pose proof (Z.mod_pos_bound (path - packetID mod pathCount) pathCount ltac:(lia)).
    split; apply Z.div_le_mono; lia.
Qed.

Lemma Assign_balanced_witness :
  (1 <= 5 <= MaxShards /\ 1 <= 3 <= MaxPaths) /\
  exists plan, Assign 7 5 3 = Ok plan /\ len plan = 5 /\
    (forall i path, plan !! i = Some path ->
       path = (7 + Z.of_nat i) mod 3 /\ 0 <= path < 3) /\
    (forall path, 0 <= path < 3 -> 5 / 3 <= shardsOn path plan <= (5 + 3 - 1) / 3).
Proof.
  split; [unfold MaxShards, MaxPaths; lia|].
  apply (Assign_balanced 7 5 3); unfold MaxShards, MaxPaths; lia.
Defined.

Example Assign_example : Assign 7 5 3 = Ok [1; 2; 0; 1; 2].
Proof. reflexivity. Qed.
