(* ===== verification/RecvWindow.v ===== *)
(** * Terminal-ID history ([internal/recvwindow])

    [Window] is the ring of two bitmaps of the source.  A nil pointer answers
    every query as the zero value ([span = 0]) does, so the model has no separate
    nil.  [Spec] is the contract: an unbounded map of terminal identifiers with a
    monotone floor; the refinement theorem relates the two. *)

From S2P Require Import Prelude Bitmap.

(** ** The window *)

Definition MaxSpan : Z := 65536.

Inductive Status := Unseen | Completed | Expired | Retired | InvalidID | Closed.
#[global] Instance Status_eq_dec : EqDecision Status.
Proof. solve_decision. Defined.

Inductive WindowError := ErrInvalidSpan.

Record Window := {
  span : Z;
  highest : Z;
  completed : list Z;
  expired : list Z;
  completedCount : Z;
  expiredCount : Z;
  closed : bool }.

Definition zeroWindow : Window := {| span := 0; highest := 0; completed := []; expired := [];
  completedCount := 0; expiredCount := 0; closed := false |}.

Definition New (sp : Z) : result WindowError Window :=
  fail (sp <? 1) || (MaxSpan <? sp) with ErrInvalidSpan in
  let words := Z.to_nat ((sp + 63) / 64) in
  Ok {| span := sp; highest := 0; completed := zero_words words; expired := zero_words words;
        completedCount := 0; expiredCount := 0; closed := false |}.

Definition Floor (w : Window) : Z :=
  if (span w =? 0) || (highest w <? span w) then 1 else u64 (highest w - span w + 1).

Definition State (w : Window) (id : Z) : Status :=
  if (span w =? 0) || closed w then Closed else
  if id =? 0 then InvalidID else
  if id <? Floor w then Retired else
  if highest w <? id then Unseen else
  let index := id mod span w in
  if test_bit (completed w) index then Completed else
  if test_bit (expired w) index then Expired else Unseen.

(** One iteration of the clearing loop: [width] positions of one word. *)
Definition clear_step (w : Window) (position width : Z) : Window :=
  let m := mask position width in
  {| span := span w; highest := highest w;
     completed := clear_word (completed w) position width;
     expired := clear_word (expired w) position width;
     completedCount := completedCount w - onesCount (Z.land (word_at (completed w) position) m);
     expiredCount := expiredCount w - onesCount (Z.land (word_at (expired w) position) m);
     closed := closed w |}.

(** The clearing loop of [Admit]; [fuel] bounds its iterations, each of which
    clears at least one of the [remaining] positions. *)
Fixpoint clear_loop (fuel : nat) (w : Window) (position remaining : Z) : Window :=
  match fuel with
  | O => w
  | S fuel' =>
    if remaining <=? 0 then w else
    let width := Z.min (Z.min remaining (64 - position mod 64)) (span w - position) in
    clear_loop fuel' (clear_step w position width)
      ((position + width) mod span w) (remaining - width)
  end.

Definition set_highest (w : Window) (id : Z) : Window :=
  {| span := span w; highest := id; completed := completed w; expired := expired w;
     completedCount := completedCount w; expiredCount := expiredCount w; closed := closed w |}.

Definition Admit (w : Window) (id : Z) : Status * Window :=
  let status := State w id in
  if negb (bool_decide (status = Unseen)) || (id <=? highest w) then (status, w) else
  let distance := u64 (id - highest w) in
  let w' :=
    if span w <=? distance then
      {| span := span w; highest := highest w;
         completed := zero_words (length (completed w));
         expired := zero_words (length (expired w));
         completedCount := 0; expiredCount := 0; closed := closed w |}
    else clear_loop (Z.to_nat distance) w (u64 (highest w + 1) mod span w) distance in
  (Unseen, set_highest w' id).

Definition Finish (w : Window) (id : Z) (terminal : Status) : bool * Window :=
  if (span w =? 0) || negb (bool_decide (terminal = Completed) || bool_decide (terminal = Expired))
     || closed w || (id =? 0) || (highest w <? id)
  then (false, w) else
  let status := State w id in
  if bool_decide (status = Retired) || bool_decide (status = terminal) then (true, w) else
  if negb (bool_decide (status = Unseen)) then (false, w) else
  let index := id mod span w in
  if bool_decide (terminal = Completed) then
    (true, {| span := span w; highest := highest w;
              completed := set_bit (completed w) index; expired := expired w;
              completedCount := completedCount w + 1; expiredCount := expiredCount w;
              closed := closed w |})
  else
    (true, {| span := span w; highest := highest w;
              completed := completed w; expired := set_bit (expired w) index;
              completedCount := completedCount w; expiredCount := expiredCount w + 1;
              closed := closed w |}).

Record SnapshotT := {
  snap_Span : Z; snap_Highest : Z; snap_Floor : Z;
  snap_Completed : Z; snap_Expired : Z; snap_Closed : bool }.

Definition Snapshot (w : Window) : SnapshotT :=
  if span w =? 0 then
    {| snap_Span := 0; snap_Highest := 0; snap_Floor := 1;
       snap_Completed := 0; snap_Expired := 0; snap_Closed := true |}
  else
    {| snap_Span := u32 (span w); snap_Highest := highest w; snap_Floor := Floor w;
       snap_Completed := completedCount w; snap_Expired := expiredCount w;
       snap_Closed := closed w |}.

Definition Close (w : Window) : Window :=
  if closed w then w else
  {| span := span w; highest := highest w; completed := []; expired := [];
     completedCount := 0; expiredCount := 0; closed := true |}.

(** ** The contract: unbounded history with a monotone floor *)

Module Spec.

Record t := {
  sp : Z;
  hi : Z;
  terminal : gmap Z Status;
  shut : bool }.

Definition new (n : Z) : t := {| sp := n; hi := 0; terminal := ∅; shut := false |}.

Definition floor (s : t) : Z := Z.max 1 (hi s - sp s + 1).

Definition state (s : t) (id : Z) : Status :=
  if shut s then Closed else if id =? 0 then InvalidID else
  if id <? floor s then Retired else default Unseen (terminal s !! id).

Definition admission (s : t) (id : Z) : Status * t :=
  (state s id,
   if bool_decide (state s id = Unseen) && (hi s <? id)
   then {| sp := sp s; hi := id; terminal := terminal s; shut := shut s |} else s).

Definition record (s : t) (id : Z) (st : Status) : t :=
  {| sp := sp s; hi := hi s; terminal := <[id := st]> (terminal s); shut := shut s |}.

Definition finish (s : t) (id : Z) (st : Status) : bool * t :=
  if negb (bool_decide (st = Completed) || bool_decide (st = Expired))
     || shut s || (id =? 0) || (hi s <? id)
  then (false, s) else
  if bool_decide (state s id = Retired) || bool_decide (state s id = st) then (true, s) else
  if bool_decide (state s id = Unseen) then (true, record s id st) else (false, s).

(** How many identifiers of the retained window are in state [st]. *)
Definition retained (s : t) (st : Status) : Z :=
  if shut s then 0 else
  countZ (fun id => bool_decide (terminal s !! id = Some st)) (floor s)
    (Z.to_nat (hi s - floor s + 1)).

Definition snapshot (s : t) : SnapshotT :=
  {| snap_Span := sp s; snap_Highest := hi s; snap_Floor := floor s;
     snap_Completed := retained s Completed; snap_Expired := retained s Expired;
     snap_Closed := shut s |}.

Definition close (s : t) : t :=
  {| sp := sp s; hi := hi s; terminal := terminal s; shut := true |}.

End Spec.

(** ** Sequences of calls *)

Inductive Op :=
| OpState (id : Z)
| OpAdmit (id : Z)
| OpFinish (id : Z) (terminal : Status)
| OpSnapshot
| OpClose.

Inductive Out :=
| OutStatus (s : Status)
| OutBool (b : bool)
| OutSnapshot (s : SnapshotT)
| OutUnit.

Definition step (w : Window) (op : Op) : Out * Window :=
  match op with
  | OpState id => (OutStatus (State w id), w)
  | OpAdmit id => let '(s, w') := Admit w id in (OutStatus s, w')
  | OpFinish id t => let '(b, w') := Finish w id t in (OutBool b, w')
  | OpSnapshot => (OutSnapshot (Snapshot w), w)
  | OpClose => (OutUnit, Close w)
  end.

Definition specStep (s : Spec.t) (op : Op) : Out * Spec.t :=
  match op with
  | OpState id => (OutStatus (Spec.state s id), s)
  | OpAdmit id => let '(r, s') := Spec.admission s id in (OutStatus r, s')
  | OpFinish id t => let '(b, s') := Spec.finish s id t in (OutBool b, s')
  | OpSnapshot => (OutSnapshot (Spec.snapshot s), s)
  | OpClose => (OutUnit, Spec.close s)
  end.

Fixpoint run {S : Type} (f : S -> Op -> Out * S) (s : S) (ops : list Op) : list Out * S :=
  match ops with
  | [] => ([], s)
  | op :: ops' =>
      let '(o, s') := f s op in
      let '(os, s'') := run f s' ops' in (o :: os, s'')
  end.

(** Identifiers are [uint64] values. *)
Definition op_typed (op : Op) : Prop :=
  match op with
  | OpState id | OpAdmit id | OpFinish id _ => in_u 64 id
  | _ => True
  end.

(** ** The simulation relation *)

Definition hasStatus (s : Spec.t) (st : Status) (id : Z) : bool :=
  bool_decide (Spec.terminal s !! id = Some st).

Record open_rel (w : Window) (s : Spec.t) : Prop := {
  or_completed : ring_ok 1 (span w) (highest w) (hasStatus s Completed) (completed w);
  or_expired : ring_ok 1 (span w) (highest w) (hasStatus s Expired) (expired w);
  or_ccount : completedCount w = total (completed w);
  or_ecount : expiredCount w = total (expired w) }.

Record rel (w : Window) (s : Spec.t) : Prop := {
  r_span : span w = Spec.sp s;
  r_bounds : 1 <= span w <= MaxSpan;
  r_highest : highest w = Spec.hi s;
  r_u64 : in_u 64 (highest w);
  r_closed : closed w = Spec.shut s;
  r_open : closed w = false -> open_rel w s;
  r_shut : closed w = true -> completedCount w = 0 /\ expiredCount w = 0;
  r_terminal : forall id st, Spec.terminal s !! id = Some st ->
    1 <= id <= highest w /\ (st = Completed \/ st = Expired) }.

Lemma Floor_spec w s : rel w s -> Floor w = Spec.floor s.
Proof.
  intros [Hsp Hb Hhi Hu _ _ _ _]. unfold Floor, Spec.floor, MaxSpan, in_u in *.
  rewrite <- Hsp, <- Hhi. destruct (_ || _) eqn:E; [lia|].
  unfold u64. rewrite wrap_small by (unfold in_u; lia). lia.
Qed.

Lemma hasStatus_above w s st z : rel w s -> highest w < z -> hasStatus s st z = false.
Proof.
  intros R Hz. apply bool_decide_eq_false. intros H.
  apply (r_terminal _ _ R) in H. lia.
Qed.

Lemma State_spec w s id : rel w s -> in_u 64 id -> State w id = Spec.state s id.
Proof.
  intros R Hid. pose proof (Floor_spec _ _ R) as Hf. pose proof R as [Hsp Hb Hhi Hu Hc Ho Hs Ht].
  unfold State, Spec.state, MaxSpan, in_u in *. rewrite Hf.
  replace (span w =? 0) with false by lia. rewrite <- Hc. simpl.
  destruct (closed w) eqn:Hcl; [done|]. destruct (Z.eqb_spec id 0); [done|].
  destruct (Z.ltb_spec id (Spec.floor s)) as [|Hge]; [done|].
  destruct (Z.ltb_spec (highest w) id).
  { destruct (Spec.terminal s !! id) as [st|] eqn:E; [|done]. apply Ht in E. lia. }
  destruct (Ho eq_refl) as [HC HE _ _]. rewrite !test_bit_spec.
  assert (Hlow : lowest 1 (span w) (highest w) <= id <= highest w)
    by (unfold lowest, Spec.floor in *; rewrite Hsp, Hhi in *; lia).
  rewrite (ring_bits _ _ _ _ _ HC), (ring_bits _ _ _ _ _ HE) by done.
  unfold hasStatus. case_bool_decide as H1; [by rewrite H1|].
  case_bool_decide as H2; [by rewrite H2|].
  destruct (Spec.terminal s !! id) as [st|] eqn:E; [|done].
  apply Ht in E as [_ [-> | ->]]; done.
Qed.

(** ** The clearing loop *)

(** The representation facts the loop maintains. *)
Record counted (w : Window) : Prop := {
  c_completed : length (completed w) = words_for (span w);
  c_expired : length (expired w) = words_for (span w);
  c_ccount : completedCount w = total (completed w);
  c_ecount : expiredCount w = total (expired w) }.

(** [w'] is [w] with the bits selected by [cleared] off in both bitmaps. *)
Record clears (cleared : Z -> bool) (w w' : Window) : Prop := {
  cl_span : span w' = span w;
  cl_closed : closed w' = closed w;
  cl_counted : counted w';
  cl_bits : forall f p, f = completed \/ f = expired -> 0 <= p ->
    bitAt (f w') p = bitAt (f w) p && negb (cleared p) }.

Lemma clear_step_spec w position width :
  1 <= span w -> counted w -> 0 <= position < span w ->
  1 <= width -> position mod 64 + width <= 64 ->
  clears (fun p => (position <=? p) && (p <? position + width)) w (clear_step w position width).
Proof.
  intros Hsp [HC HE Hc He] Hpos Hw Hs.
  assert (Hword : (Z.to_nat (position / 64) < words_for (span w))%nat)
    by (by apply word_in_range).
  split; [done|done| |].
  - split; simpl; unfold clear_word at 1; rewrite ?length_set_word; try done.
    + rewrite Hc. symmetry. apply total_clear_word. lia.
    + rewrite He. symmetry. apply total_clear_word. lia.
  - intros f p [-> | ->] Hp; simpl; apply bitAt_clear_word; lia.
Qed.

Lemma clear_loop_spec fuel w position remaining :
  1 <= span w -> counted w -> 0 <= position < span w ->
  0 <= remaining < span w -> remaining <= Z.of_nat fuel ->
  clears (fun p => (p <? span w) && in_run (span w) position remaining p)
    w (clear_loop fuel w position remaining).
Proof.
  revert w position remaining. induction fuel as [|fuel IH];
    intros w position remaining Hsp Hc Hpos Hrem Hfuel; simpl.
  all: destruct (Z.eq_dec remaining 0) as [->|Hne];
    [split; try done; intros; rewrite in_run_empty, andb_false_r, andb_true_r by lia; done|].
  { lia. }
  replace (remaining <=? 0) with false by lia.
  pose proof (Z.mod_pos_bound position 64 ltac:(lia)) as Hm.
  set (width := Z.min (Z.min remaining (64 - position mod 64)) (span w - position)) in *.
  assert (Hw : 1 <= width <= remaining /\ position mod 64 + width <= 64 /\
               position + width <= span w) by lia. clearbody width.
  destruct Hw as ([Hw1 Hw2] & Hw3 & Hw4).
  destruct (clear_step_spec w position width) as [S1 S2 S3 S4]; [done..|].
  set (w1 := clear_step w position width) in *.
  destruct (IH w1 ((position + width) mod span w) (remaining - width)) as [T1 T2 T3 T4];
    rewrite ?S1; try done; try lia; [apply Z.mod_pos_bound; lia|].
  split; [congruence|congruence|done|].
  intros f p Hf Hp. rewrite T4, S4, S1 by done.
  destruct (Z.ltb_spec p (span w)); simpl.
  - rewrite (in_run_split (span w) position remaining width) by lia.
    by rewrite negb_orb, andb_assoc.
  - replace (p <? position + width) with false by lia. by rewrite !andb_false_r, !andb_true_r.
Qed.

(** ** Each operation refines its contract *)

Lemma New_spec n w : New n = Ok w -> rel w (Spec.new n).
Proof.
  unfold New. intros H. go_inv H. subst w. apply orb_false_elim in E as [? ?].
  unfold MaxSpan in *. assert (Hr : ring_ok 1 n 0 (hasStatus (Spec.new n) Completed)
    (zero_words (Z.to_nat ((n + 63) / 64)))) by (apply ring_reset; [done|intros; done]).
  split; simpl; try done; try lia.
  - unfold MaxSpan. lia.
  - intros _. by split; simpl; rewrite ?total_zero.
Qed.

Lemma ring_ok_ext base sp hi P Q bm :
  (forall z, P z = Q z) -> ring_ok base sp hi P bm -> ring_ok base sp hi Q bm.
Proof. intros E []. split; auto. intros. rewrite <- E. auto. Qed.

Lemma Admit_spec w s id r w' :
  rel w s -> in_u 64 id -> Admit w id = (r, w') ->
  r = fst (Spec.admission s id) /\ rel w' (snd (Spec.admission s id)).
Proof.
  intros R Hid H. pose proof R as [Hsp Hb Hhi Hu Hc Ho Hs Ht].
  unfold Admit in H. unfold Spec.admission. rewrite <- (State_spec _ _ _ R Hid), <- Hhi.
  destruct (bool_decide (State w id = Unseen)) eqn:Hst; simpl in *; [|by injection H as <- <-].
  apply bool_decide_eq_true in Hst.
  rewrite Z.leb_antisym in H. destruct (Z.ltb_spec (highest w) id) as [Hlt|]; simpl in H;
    [|by injection H as <- <-].
  injection H as <- <-. split; [done|].
  assert (Hcl : closed w = false).
  { unfold State in Hst. destruct (closed w); [|done]. by rewrite orb_true_r in Hst. }
  destruct (Ho Hcl) as [HC HE HcC HcE]. unfold in_u, MaxSpan in *.
  unfold u64. rewrite !wrap_small by (unfold in_u; lia).
  assert (Hnew : forall st z, highest w < z -> hasStatus s st z = false)
    by (intros; by apply (hasStatus_above w)).
  assert (Hgoal : forall w1, span w1 = span w -> closed w1 = closed w ->
    open_rel (set_highest w1 id) {| Spec.sp := Spec.sp s; Spec.hi := id;
      Spec.terminal := Spec.terminal s; Spec.shut := Spec.shut s |} ->
    rel (set_highest w1 id) {| Spec.sp := Spec.sp s; Spec.hi := id;
      Spec.terminal := Spec.terminal s; Spec.shut := Spec.shut s |}).
  { intros w1 E1 E2 Hopen. split; simpl; rewrite ?E1, ?E2; try done; try congruence.
    intros z st Hz. apply Ht in Hz. split; [lia|tauto]. }
  destruct (Z.leb_spec (span w) (id - highest w)) as [Hfar|Hnear].
  - apply Hgoal; [done..|]. split; simpl; rewrite ?total_zero; try done;
      (apply ring_reset; [apply HC || apply HE|]);
      unfold lowest; intros z Hz; apply Hnew; lia.
  - destruct (clear_loop_spec (Z.to_nat (id - highest w)) w ((highest w + 1) mod span w)
      (id - highest w)) as [C1 C2 C3 C4]; try lia.
    { split; [apply HC|apply HE|done|done]. }
    { apply Z.mod_pos_bound. lia. }
    assert (Hadv : forall f st, f = completed \/ f = expired ->
      ring_ok 1 (span w) (highest w) (hasStatus s st) (f w) ->
      ring_ok 1 (span w) id (hasStatus s st)
        (f (clear_loop (Z.to_nat (id - highest w)) w ((highest w + 1) mod span w)
              (id - highest w)))).
    { intros f st Hf Hr.
      eapply (ring_advance 1 (span w) (highest w) id _ (f w)); eauto; try lia.
      - rewrite (ring_length _ _ _ _ _ Hr). destruct C3, Hf; subst f; congruence.
      - intros p Hp. rewrite C4 by (done || lia). by replace (p <? span w) with true by lia.
      - intros p Hp. rewrite C4 by (done || lia). replace (p <? span w) with false by lia.
        by rewrite andb_true_r. }
    apply Hgoal; [done..|]. split; simpl; try apply C3; rewrite C1; apply Hadv; auto.
Qed.

(** Recording a terminal state in the contract. *)
Lemma hasStatus_record s id st st' z :
  Spec.terminal s !! id = None ->
  hasStatus (Spec.record s id st) st' z
  = hasStatus s st' z || (bool_decide (st = st') && (z =? id)).
Proof.
  intros Hn. unfold hasStatus. simpl. destruct (Z.eqb_spec z id) as [->|Hne].
  - rewrite lookup_insert_eq, Hn, andb_true_r.
    rewrite (bool_decide_eq_false_2 (None = _)) by done. simpl.
    apply bool_decide_ext. naive_solver.
  - rewrite lookup_insert_ne by done. by rewrite andb_false_r, orb_false_r.
Qed.

Lemma record_other w s id st st' bm :
  Spec.terminal s !! id = None -> st <> st' ->
  ring_ok 1 (span w) (highest w) (hasStatus s st') bm ->
  ring_ok 1 (span w) (highest w) (hasStatus (Spec.record s id st) st') bm.
Proof.
  intros Hn Hne. apply ring_ok_ext. intros z. rewrite hasStatus_record by done.
  rewrite bool_decide_eq_false_2 by done. by rewrite orb_false_r.
Qed.

Lemma record_same w s id st bm :
  1 <= span w -> Spec.terminal s !! id = None ->
  lowest 1 (span w) (highest w) <= id <= highest w ->
  ring_ok 1 (span w) (highest w) (hasStatus s st) bm ->
  ring_ok 1 (span w) (highest w) (hasStatus (Spec.record s id st) st) (set_bit bm (id mod span w))
  /\ total (set_bit bm (id mod span w)) = total bm + 1.
Proof.
  intros Hsp Hn Hlow Hr. pose proof (Z.mod_pos_bound id (span w) ltac:(lia)). split.
  - eapply ring_ok_ext; [|by apply (ring_set 1 _ _ (hasStatus s st) bm id)].
    intros z. simpl. rewrite hasStatus_record by done. by rewrite bool_decide_eq_true_2.
  - apply total_set_bit; [lia|rewrite (ring_length _ _ _ _ _ Hr); by apply word_in_range|].
    rewrite (ring_bits _ _ _ _ _ Hr) by done. unfold hasStatus. rewrite Hn.
    by apply bool_decide_eq_false_2.
Qed.

(** An unseen identifier that is not above the window is a hole of it. *)
Lemma Unseen_hole w s id :
  rel w s -> in_u 64 id -> id <> 0 -> id <= highest w -> State w id = Unseen ->
  Spec.terminal s !! id = None /\ lowest 1 (span w) (highest w) <= id <= highest w.
Proof.
  intros R Hid H0 Hle Hun. rewrite (State_spec _ _ _ R Hid) in Hun.
  destruct R as [Hsp Hb Hhi Hu Hc Ho Hs Ht]. unfold Spec.state, Spec.floor, lowest in *.
  rewrite Hsp, Hhi in *. destruct (Spec.shut s); [done|].
  replace (id =? 0) with false in Hun by lia.
  destruct (Z.ltb_spec id (Z.max 1 (Spec.hi s - Spec.sp s + 1))); [done|]. split; [|lia].
  destruct (Spec.terminal s !! id) as [st'|] eqn:E; [|done].
  apply Ht in E. simpl in Hun. subst st'. destruct E as [_ [?|?]]; done.
Qed.

Lemma Finish_spec w s id st b w' :
  rel w s -> in_u 64 id -> Finish w id st = (b, w') ->
  b = fst (Spec.finish s id st) /\ rel w' (snd (Spec.finish s id st)).
Proof.
  intros R Hid H. pose proof R as [Hsp Hb Hhi Hu Hc Ho Hs Ht]. pose proof Hb as Hb'; unfold MaxSpan in Hb'.
  unfold Finish in H. unfold Spec.finish. rewrite <- (State_spec _ _ _ R Hid), <- Hhi, <- Hc.
  replace (span w =? 0) with false in H by lia. rewrite orb_false_l in H.
  destruct (negb _ || _ || _ || _) eqn:Hg; [by injection H as <- <-|].
  destruct (bool_decide (State w id = Retired) || _) eqn:Hd; [by injection H as <- <-|].
  destruct (bool_decide (State w id = Unseen)) eqn:Hun; [|by injection H as <- <-].
  simpl in H. apply bool_decide_eq_true in Hun.
  apply orb_false_elim in Hg as [[[Hg Hcl]%orb_false_elim H0]%orb_false_elim Hle].
  apply negb_false_iff in Hg.
  assert (Hst : st = Completed \/ st = Expired)
    by (apply orb_prop in Hg as [?%bool_decide_eq_true|?%bool_decide_eq_true]; auto).
  destruct (Unseen_hole w s id R Hid ltac:(lia) ltac:(lia) Hun) as [Hnone Hlow].
  destruct (Ho Hcl) as [HC HE HcC HcE].
  assert (Hterm : forall z st', Spec.terminal (Spec.record s id st) !! z = Some st' ->
    1 <= z <= highest w /\ (st' = Completed \/ st' = Expired)).
  { intros z st' Hz. simpl in Hz. apply lookup_insert_Some in Hz as [[<- <-]|[_ Hz]]; [|by apply Ht].
    unfold lowest in Hlow. split; [lia|done]. }
  destruct Hst as [-> | ->]; simpl in H; injection H as <- <-; (split; [done|]);
    split; simpl; try done; rewrite ?Hcl; try done; intros _.
  - destruct (record_same w s id Completed (completed w)) as [HC' Htot]; [lia|done..|].
    split; simpl; [done|by apply record_other|lia|done].
  - destruct (record_same w s id Expired (expired w)) as [HE' Htot]; [lia|done..|].
    split; simpl; [by apply record_other|done|done|lia].
Qed.

Lemma Close_spec w s : rel w s -> rel (Close w) (Spec.close s).
Proof.
  intros R. pose proof R as [Hsp Hb Hhi Hu Hc Ho Hs Ht].
  unfold Close. destruct (closed w) eqn:Hcl; split; simpl; rewrite ?Hcl; auto; try done.
Qed.

Lemma Snapshot_spec w s : rel w s -> Snapshot w = Spec.snapshot s.
Proof.
  intros R. pose proof (Floor_spec _ _ R) as Hf. pose proof R as [Hsp Hb Hhi Hu Hc Ho Hs Ht].
  unfold Snapshot, Spec.snapshot, Spec.retained. unfold MaxSpan in Hb.
  replace (span w =? 0) with false by lia. rewrite <- Hc, <- Hhi, <- Hsp, <- Hf.
  unfold u32. rewrite wrap_small by (unfold in_u; lia).
  destruct (closed w) eqn:Hcl; [destruct (Hs eq_refl) as [-> ->]; done|].
  destruct (Ho eq_refl) as [HC HE -> ->]. unfold in_u in Hu.
  rewrite (ring_total 1 (span w) (highest w) _ _ ltac:(lia) ltac:(lia) ltac:(lia) HC).
  rewrite (ring_total 1 (span w) (highest w) _ _ ltac:(lia) ltac:(lia) ltac:(lia) HE).
  rewrite Hf. unfold lowest, Spec.floor. by rewrite Hsp, Hhi.
Qed.

Lemma step_spec w s op o w' :
  rel w s -> op_typed op -> step w op = (o, w') ->
  o = fst (specStep s op) /\ rel w' (snd (specStep s op)).
Proof.
  intros R Hty H. destruct op as [id|id|id st| |]; simpl in *.
  - injection H as <- <-. by rewrite (State_spec _ _ _ R).
  - destruct (Admit w id) as [r w1] eqn:E. injection H as <- <-.
    destruct (Admit_spec _ _ _ _ _ R Hty E) as [-> ?]. done.
  - destruct (Finish w id st) as [r w1] eqn:E. injection H as <- <-.
    destruct (Finish_spec _ _ _ _ _ _ R Hty E) as [-> ?]. by destruct (Spec.finish s id st).
  - injection H as <- <-. by rewrite (Snapshot_spec _ _ R).
  - injection H as <- <-. split; [done|]. by apply Close_spec.
Qed.

Lemma run_spec w s ops :
  rel w s -> Forall op_typed ops ->
  fst (run step w ops) = fst (run specStep s ops) /\
  rel (snd (run step w ops)) (snd (run specStep s ops)).
Proof.
  revert w s. induction ops as [|op ops IH]; intros w s R Hty; [done|].
  apply Forall_cons in Hty as [Hop Hty]. simpl.
  destruct (step w op) as [o w1] eqn:E.
  destruct (step_spec _ _ _ _ _ R Hop E) as [-> R1].
  destruct (specStep s op) as [o' s1]. simpl in *.
  specialize (IH w1 s1 R1 Hty). destruct (run step w1 ops), (run specStep s1 ops). simpl in *.
  destruct IH as [-> ?]. done.
Qed.

(** ** The contract never forgets a terminal identifier *)

(** [s'] may follow [s]: the floor and terminal map only grow. *)
Definition spec_later (s s' : Spec.t) : Prop :=
  Spec.sp s' = Spec.sp s /\ Spec.hi s <= Spec.hi s' /\
  (Spec.shut s = true -> Spec.shut s' = true) /\
  (forall id st, st <> Unseen -> Spec.terminal s !! id = Some st ->
     Spec.terminal s' !! id = Some st).

#[global] Instance spec_later_preorder : PreOrder spec_later.
Proof.
  split; [intros s; unfold spec_later; auto with lia|].
  intros s1 s2 s3 (E1 & H1 & C1 & T1) (E2 & H2 & C2 & T2).
  split_and!; [congruence|lia|auto|auto].
Qed.

Lemma specStep_later s op : spec_later s (snd (specStep s op)).
Proof.
  destruct op as [id|id|id st| |]; simpl; try reflexivity.
  - destruct (bool_decide _ && _) eqn:E; [|reflexivity].
    apply andb_prop in E as [_ E]. split_and!; simpl; auto. lia.
  - unfold Spec.finish. destruct (negb _ || _ || _ || _); [reflexivity|].
    destruct (_ || _); [reflexivity|].
    destruct (bool_decide (Spec.state s id = Unseen)) eqn:E; [|reflexivity].
    apply bool_decide_eq_true in E. split_and!; simpl; auto; [lia|].
    intros z st' Hst' Hz. rewrite lookup_insert_ne; [done|]. intros <-.
    unfold Spec.state in E. rewrite Hz in E. go_inv E; simpl in E; done.
  - split_and!; simpl; auto. lia.
Qed.

Lemma run_later s ops : spec_later s (snd (run specStep s ops)).
Proof.
  revert s. induction ops as [|op ops IH]; intros s; [reflexivity|]. simpl.
  pose proof (specStep_later s op) as H. destruct (specStep s op) as [o s1]. simpl in H.
  specialize (IH s1). destruct (run specStep s1 ops). simpl in *. by etransitivity.
Qed.

(** An identifier [Finish] accepted is terminal or below the floor. *)
Definition settled (s : Spec.t) (id : Z) (st : Status) : Prop :=
  id <> 0 /\ (Spec.terminal s !! id = Some st \/ id < Spec.floor s).

Lemma finish_terminal s id st :
  fst (Spec.finish s id st) = true -> st = Completed \/ st = Expired.
Proof.
  unfold Spec.finish. destruct (negb _ || _ || _ || _) eqn:Hg; [done|]. intros _.
  apply orb_false_elim in Hg as [[[Hg _]%orb_false_elim _]%orb_false_elim _].
  apply negb_false_iff, orb_prop in Hg as [?%bool_decide_eq_true|?%bool_decide_eq_true]; auto.
Qed.

Lemma finish_settled s id st :
  (forall st', Spec.terminal s !! id = Some st' -> st' = Completed \/ st' = Expired) ->
  fst (Spec.finish s id st) = true -> settled (snd (Spec.finish s id st)) id st.
Proof.
  intros Hterm. unfold Spec.finish.
  destruct (negb _ || _ || _ || _) eqn:Hg; [done|]. intros H. apply orb_false_elim in Hg as [[[Hg Hcl]%orb_false_elim H0]%orb_false_elim Hle].
  split; [lia|]. destruct (_ || bool_decide (Spec.state s id = st)) eqn:Hd; simpl in *.
  - unfold Spec.state in Hd. rewrite Hcl, H0 in Hd.
    destruct (Z.ltb_spec id (Spec.floor s)); [by right|left].
    apply orb_prop in Hd as [Hd%bool_decide_eq_true|Hd%bool_decide_eq_true];
      destruct (Spec.terminal s !! id) as [st'|]; simpl in Hd; subst; try done.
    by destruct (Hterm _ eq_refl).
  - destruct (bool_decide (Spec.state s id = Unseen)); [|done]. left. simpl.
    apply lookup_insert_eq.
Qed.

Lemma settled_state s s' id st :
  st <> Unseen -> settled s id st -> spec_later s s' ->
  Spec.state s' id = st \/ Spec.state s' id = Retired \/ Spec.state s' id = Closed.
Proof.
  intros Hst [H0 Hs] (Hsp & Hhi & _ & Ht). unfold Spec.state, Spec.floor in *.
  destruct (Spec.shut s'); [by auto|]. replace (id =? 0) with false by lia.
  destruct (Z.ltb_spec id (Z.max 1 (Spec.hi s' - Spec.sp s' + 1))); [by auto|left].
  destruct Hs as [Hs|Hs]; [by rewrite (Ht _ _ Hst Hs)|lia].
Qed.

(** ** Properties *)

(** C27: The two-bitmap ring implements the unbounded contract.  Every sequence
    of calls on a freshly made window (with identifiers that are uint64 values)
    returns exactly what the contract returns, although the window keeps only
    [span] bits per bitmap: states, admissions, terminal transitions, floors, and
    the Completed/Expired counts of snapshots, which are the numbers of retained
    identifiers in those states.  In particular the word-mask clearing loop of
    Admit finishes and forgets exactly the identifiers that leave the window. *)
Theorem Window_refines_Spec (sp : Z) (w : Window) (ops : list Op)
    (Hnew : New sp = Ok w) (Hops : Forall op_typed ops) :
  fst (run step w ops) = fst (run specStep (Spec.new sp) ops).
Proof. apply run_spec; [by apply New_spec|done]. Qed.

(** A terminal identifier is never reopened.  Once Finish has accepted an
    identifier as Completed or Expired, after any further calls its state is that
    same terminal state, Retired, or Closed, and Admit refuses it (it never
    answers Unseen). *)
Theorem Finish_is_final (sp id : Z) (st : Status) (w w1 w2 : Window) (before after : list Op)
    (Hnew : New sp = Ok w) (Hbefore : Forall op_typed before) (Hafter : Forall op_typed after)
    (Hid : in_u 64 id)
    (Hw1 : w1 = snd (run step w before)) (Hfin : Finish w1 id st = (true, w2)) :
  let w3 := snd (run step w2 after) in
  (State w3 id = st \/ State w3 id = Retired \/ State w3 id = Closed) /\
  fst (Admit w3 id) <> Unseen.
Proof.
  destruct (run_spec w _ before (New_spec _ _ Hnew) Hbefore) as [_ R1]. rewrite <- Hw1 in R1.
  set (s1 := snd (run specStep (Spec.new sp) before)) in *.
  destruct (Finish_spec _ _ _ _ _ _ R1 Hid Hfin) as [Hb R2]. symmetry in Hb.
  pose proof (finish_settled _ _ _ (fun st' H => proj2 (r_terminal _ _ R1 _ _ H)) Hb) as Hset.
  destruct (run_spec w2 _ after R2 Hafter) as [_ R3].
  set (s3 := snd (run specStep (snd (Spec.finish s1 id st)) after)) in *.
  assert (Hst : st = Completed \/ st = Expired).
  { by eapply finish_terminal. }
  assert (Hne : st <> Unseen) by (destruct Hst; subst; done).
  pose proof (settled_state _ s3 _ _ Hne Hset (run_later _ _)) as H3.
  cbv zeta. rewrite (State_spec _ _ _ R3 Hid). split; [done|].
  destruct (Admit _ id) as [r w4] eqn:E. destruct (Admit_spec _ _ _ _ _ R3 Hid E) as [-> _].
  simpl. destruct Hst; subst; destruct H3 as [->|[->| ->]]; done.
Qed.

(** ** Witnesses *)

Definition demoOps : list Op :=
  [OpAdmit 5; OpFinish 5 Completed; OpAdmit 100; OpFinish 99 Expired; OpState 5; OpState 99;
   OpSnapshot; OpAdmit 101; OpState 1].

Lemma demoOps_typed : Forall op_typed demoOps.
Proof. unfold demoOps. repeat constructor; simpl; lia. Qed.

Lemma Window_refines_Spec_witness :
  exists w, New 70 = Ok w /\
    fst (run step w demoOps) = fst (run specStep (Spec.new 70) demoOps) /\
    fst (run step w demoOps) =
      [OutStatus Unseen; OutBool true; OutStatus Unseen; OutBool true; OutStatus Retired;
       OutStatus Expired;
       OutSnapshot {| snap_Span := 70; snap_Highest := 100; snap_Floor := 31;
         snap_Completed := 0; snap_Expired := 1; snap_Closed := false |};
       OutStatus Unseen; OutStatus Retired].
Proof.
  eexists. split; [reflexivity|]. split; [|vm_compute; reflexivity].
  apply (Window_refines_Spec 70); [reflexivity|exact demoOps_typed].
Defined.

Definition demoWindow : Window :=
  match New 70 with Ok w => w | Err _ => zeroWindow end.
Definition demoAdmitted : Window := snd (run step demoWindow [OpAdmit 5]).
Definition demoFinished : Window := snd (Finish demoAdmitted 5 Completed).

Lemma Finish_is_final_witness :
  New 70 = Ok demoWindow /\ Finish demoAdmitted 5 Completed = (true, demoFinished) /\
  let w3 := snd (run step demoFinished [OpAdmit 60]) in
  (State w3 5 = Completed \/ State w3 5 = Retired \/ State w3 5 = Closed) /\
  fst (Admit w3 5) <> Unseen.
Proof.
  split; [reflexivity|]. split; [vm_compute; reflexivity|].
  apply (Finish_is_final 70 5 Completed demoWindow demoAdmitted demoFinished [OpAdmit 5] [OpAdmit 60]).
  - reflexivity.
  - repeat constructor; simpl; lia.
  - repeat constructor; simpl; lia.
  - unfold in_u; lia.
  - reflexivity.
  - vm_compute; reflexivity.
Defined.
