(* ===== verification/Credit.v ===== *)
(** * Credit ledger ([internal/creditv2])

    A Peer's memory ledger: Sessions and Leases charge bytes, stream slots and
    accept slots against Peer-wide and per-Session ceilings.  The handles of the
    source are pointers to shared private state, so the model is a heap of Peers,
    Sessions and Leases addressed by [Ptr]; a nil handle (or a handle whose state
    is nil) is [None].  Every operation runs under the Peer's mutex and is one
    atomic step.  Byte counters are [uint64] and wrap. *)

From S2P Require Import Prelude.

Definition MaxRetainedBytes : Z := 2 ^ 30.
Definition MaxReservationsBound : Z := 2 ^ 20.

(** Errors made by [invalid] wrap [ErrInvalid]; their reason text is not kept. *)
Inductive CreditError := ErrInvalid | ErrResourceLimit | ErrClosed | ErrReleased.
#[global] Instance CreditError_eq_dec : EqDecision CreditError.
Proof. solve_decision. Defined.

Definition Ptr := positive.

Record Limits := {
  MaxPeerBytes : Z;
  MaxSessionBytes : Z;
  MaxSessions : Z;
  MaxPendingHandshakes : Z;
  MaxPendingAccepts : Z;
  MaxStreamsPerSession : Z;
  MaxPeerStreams : Z;
  MaxReservations : Z }.

Record Claim := { Claim_Bytes : Z; BusinessStream : bool; PendingAccept : bool }.
Definition zeroClaim : Claim :=
  {| Claim_Bytes := 0; BusinessStream := false; PendingAccept := false |}.

Record Usage := {
  Usage_Bytes : Z; Reservations : Z; BusinessStreams : Z; PendingAccepts : Z }.
Definition zeroUsage : Usage :=
  {| Usage_Bytes := 0; Reservations := 0; BusinessStreams := 0; PendingAccepts := 0 |}.

Record PeerSnapshot := {
  peer_Usage : Usage;
  SessionSlots : Z;
  PendingHandshakes : Z;
  EstablishedSessions : Z;
  peer_Closed : bool }.

Record SessionSnapshot := {
  session_Usage : Usage; PendingHandshake : bool; session_Closed : bool; Retired : bool }.

Record LeaseSnapshot := { lease_Claim : Claim; lease_Released : bool }.

Record peerState := { limits : Limits; usage : PeerSnapshot; members : gset Ptr }.

Record sessionState := {
  session_peer : Ptr;
  session_usage : Usage;
  pendingHandshake : bool;
  closed : bool;
  retired : bool }.

Record leaseState := {
  lease_peer : Ptr;
  owner : option Ptr;
  claim : Claim;
  acceptReserved : bool;
  bound : bool;
  released : bool }.

Definition zeroLimits : Limits := {|
  MaxPeerBytes := 0; MaxSessionBytes := 0; MaxSessions := 0; MaxPendingHandshakes := 0;
  MaxPendingAccepts := 0; MaxStreamsPerSession := 0; MaxPeerStreams := 0; MaxReservations := 0 |}.
Definition zeroPeerUsage : PeerSnapshot := {|
  peer_Usage := zeroUsage; SessionSlots := 0; PendingHandshakes := 0;
  EstablishedSessions := 0; peer_Closed := false |}.

#[global] Instance peerState_inhabited : Inhabited peerState :=
  populate {| limits := zeroLimits; usage := zeroPeerUsage; members := ∅ |}.
#[global] Instance sessionState_inhabited : Inhabited sessionState :=
  populate {| session_peer := 1%positive; session_usage := zeroUsage; pendingHandshake := false;
              closed := false; retired := false |}.
#[global] Instance leaseState_inhabited : Inhabited leaseState :=
  populate {| lease_peer := 1%positive; owner := None; claim := zeroClaim;
              acceptReserved := false; bound := false; released := false |}.

(** ** The heap *)

Record heap := {
  peers : gmap Ptr peerState;
  sessions : gmap Ptr sessionState;
  leases : gmap Ptr leaseState }.

Definition emptyHeap : heap := {| peers := ∅; sessions := ∅; leases := ∅ |}.

Definition peer (h : heap) (p : Ptr) : peerState := peers h !!! p.
Definition session (h : heap) (s : Ptr) : sessionState := sessions h !!! s.
Definition lease (h : heap) (l : Ptr) : leaseState := leases h !!! l.

Definition setPeer (p : Ptr) (st : peerState) (h : heap) : heap :=
  {| peers := <[p := st]> (peers h); sessions := sessions h; leases := leases h |}.
Definition setSession (s : Ptr) (st : sessionState) (h : heap) : heap :=
  {| peers := peers h; sessions := <[s := st]> (sessions h); leases := leases h |}.
Definition setLease (l : Ptr) (st : leaseState) (h : heap) : heap :=
  {| peers := peers h; sessions := sessions h; leases := <[l := st]> (leases h) |}.

(** The address of a new object. *)
Definition alloc {A} (m : gmap Ptr A) : Ptr := fresh (dom m).

Definition with_peer_usage (u : Usage) (st : peerState) : peerState := {|
  limits := limits st; members := members st;
  usage := {| peer_Usage := u; SessionSlots := SessionSlots (usage st);
              PendingHandshakes := PendingHandshakes (usage st);
              EstablishedSessions := EstablishedSessions (usage st);
              peer_Closed := peer_Closed (usage st) |} |}.

Definition with_session_usage (u : Usage) (st : sessionState) : sessionState := {|
  session_peer := session_peer st; session_usage := u;
  pendingHandshake := pendingHandshake st; closed := closed st; retired := retired st |}.

(** ** Creation *)

Definition New (lim : Limits) (h : heap) : result CreditError Ptr * heap :=
  if (MaxPeerBytes lim =? 0) || (MaxRetainedBytes <? MaxPeerBytes lim)
     || (MaxSessionBytes lim =? 0) || (MaxPeerBytes lim <? MaxSessionBytes lim)
  then (Err ErrInvalid, h) else
  if (MaxSessions lim <? 1) || (65536 <? MaxSessions lim)
     || (MaxPendingHandshakes lim <? 1) || (4096 <? MaxPendingHandshakes lim)
     || (MaxPendingAccepts lim <? 1) || (65536 <? MaxPendingAccepts lim)
  then (Err ErrInvalid, h) else
  if (MaxStreamsPerSession lim <? 1) || (4096 <? MaxStreamsPerSession lim)
     || (MaxPeerStreams lim <? 1) || (65536 <? MaxPeerStreams lim)
     || (MaxReservations lim <? 1) || (MaxReservationsBound <? MaxReservations lim)
  then (Err ErrInvalid, h) else
  let p := alloc (peers h) in
  (Ok p, setPeer p {| limits := lim; usage := zeroPeerUsage; members := ∅ |} h).

Definition empty (c : Claim) : bool :=
  (Claim_Bytes c =? 0) && negb (BusinessStream c) && negb (PendingAccept c).

(** ** Charging *)

Definition checkSessionClaimLocked (p : peerState) (s : sessionState) (c : Claim)
  : option CreditError :=
  if (u64 (MaxSessionBytes (limits p) - Usage_Bytes (session_usage s)) <? Claim_Bytes c)
     || (BusinessStream c
         && (BusinessStreams (session_usage s) =? MaxStreamsPerSession (limits p)))
  then Some ErrResourceLimit else None.

Definition checkClaimLocked (p : peerState) (s : sessionState) (c : Claim)
  : option CreditError :=
  match checkSessionClaimLocked p s c with
  | Some err => Some err
  | None =>
    let u := peer_Usage (usage p) in
    if (u64 (MaxPeerBytes (limits p) - Usage_Bytes u) <? Claim_Bytes c)
       || (Reservations u =? MaxReservations (limits p))
       || (BusinessStream c && (BusinessStreams u =? MaxPeerStreams (limits p)))
       || (PendingAccept c && (PendingAccepts u =? MaxPendingAccepts (limits p)))
    then Some ErrResourceLimit else None
  end.

Definition addClaim (u : Usage) (c : Claim) : Usage := {|
  Usage_Bytes := u64 (Usage_Bytes u + Claim_Bytes c);
  Reservations := Reservations u + 1;
  BusinessStreams := if BusinessStream c then BusinessStreams u + 1 else BusinessStreams u;
  PendingAccepts := if PendingAccept c then PendingAccepts u + 1 else PendingAccepts u |}.

Definition subtractClaim (u : Usage) (c : Claim) : Usage := {|
  Usage_Bytes := u64 (Usage_Bytes u - Claim_Bytes c);
  Reservations := Reservations u - 1;
  BusinessStreams := if BusinessStream c then BusinessStreams u - 1 else BusinessStreams u;
  PendingAccepts := if PendingAccept c then PendingAccepts u - 1 else PendingAccepts u |}.

Definition on_peer_usage (f : Usage -> Usage) (p : Ptr) (h : heap) : heap :=
  setPeer p (with_peer_usage (f (peer_Usage (usage (peer h p)))) (peer h p)) h.
Definition on_session_usage (f : Usage -> Usage) (s : Ptr) (h : heap) : heap :=
  setSession s (with_session_usage (f (session_usage (session h s))) (session h s)) h.

Definition chargeLocked (p s : Ptr) (c : Claim) (h : heap) : heap :=
  on_session_usage (fun u => addClaim u c) s (on_peer_usage (fun u => addClaim u c) p h).

Definition newLease (s : Ptr) (c : Claim) (h : heap) : Ptr * heap :=
  let l := alloc (leases h) in
  (l, setLease l {| lease_peer := session_peer (session h s); owner := Some s; claim := c;
                    acceptReserved := PendingAccept c; bound := false; released := false |} h).

(** ** Retirement: a closed Session gives up its slot with its last lease *)

Definition retireLocked (p s : Ptr) (h : heap) : heap :=
  let st := session h s in
  if negb (closed st) || retired st || negb (Reservations (session_usage st) =? 0) then h else
  let ps := peer h p in
  let u := usage ps in
  setPeer p {| limits := limits ps;
               usage := {| peer_Usage := peer_Usage u;
                           SessionSlots := SessionSlots u - 1;
                           PendingHandshakes :=
                             if pendingHandshake st then PendingHandshakes u - 1
                             else PendingHandshakes u;
                           EstablishedSessions :=
                             if pendingHandshake st then EstablishedSessions u
                             else EstablishedSessions u - 1;
                           peer_Closed := peer_Closed u |};
               members := members ps ∖ {[s]} |}
    (setSession s {| session_peer := session_peer st; session_usage := session_usage st;
                     pendingHandshake := pendingHandshake st; closed := closed st;
                     retired := true |} h).

(** ** Session operations *)

Definition admitSession (p s : Ptr) (pending : bool) (h : heap) : heap :=
  let ps := peer h p in
  let u := usage ps in
  setPeer p {| limits := limits ps;
               usage := {| peer_Usage := peer_Usage u;
                           SessionSlots := SessionSlots u + 1;
                           PendingHandshakes :=
                             if pending then PendingHandshakes u + 1 else PendingHandshakes u;
                           EstablishedSessions :=
                             if pending then EstablishedSessions u
                             else EstablishedSessions u + 1;
                           peer_Closed := peer_Closed u |};
               members := members ps ∪ {[s]} |} h.

Definition begin (handle : option Ptr) (initial : Claim) (pending : bool) (h : heap)
  : result CreditError (Ptr * option Ptr) * heap :=
  match handle with
  | None => (Err ErrInvalid, h)
  | Some p =>
    let state := peer h p in
    if peer_Closed (usage state) then (Err ErrClosed, h) else
    if (SessionSlots (usage state) =? MaxSessions (limits state))
       || (pending && (PendingHandshakes (usage state) =? MaxPendingHandshakes (limits state)))
    then (Err ErrResourceLimit, h) else
    let st := {| session_peer := p; session_usage := zeroUsage; pendingHandshake := pending;
                 closed := false; retired := false |} in
    match (if empty initial then None else checkClaimLocked state st initial) with
    | Some err => (Err err, h)
    | None =>
      let s := alloc (sessions h) in
      let h := setSession s st h in
      if empty initial then (Ok (s, None), admitSession p s pending h) else
      let '(l, h) := newLease s initial h in
      (Ok (s, Some l), admitSession p s pending (chargeLocked p s initial h))
    end
  end.

Definition BeginHandshake (p : option Ptr) (initial : Claim) (h : heap) := begin p initial true h.
Definition BeginSession (p : option Ptr) (initial : Claim) (h : heap) := begin p initial false h.

Definition Promote (handle : option Ptr) (h : heap) : option CreditError * heap :=
  match handle with
  | None => (Some ErrInvalid, h)
  | Some s =>
    let st := session h s in
    let ps := peer h (session_peer st) in
    if closed st || peer_Closed (usage ps) then (Some ErrClosed, h) else
    if pendingHandshake st then
      let u := usage ps in
      (None,
       setPeer (session_peer st)
         {| limits := limits ps; members := members ps;
            usage := {| peer_Usage := peer_Usage u; SessionSlots := SessionSlots u;
                        PendingHandshakes := PendingHandshakes u - 1;
                        EstablishedSessions := EstablishedSessions u + 1;
                        peer_Closed := peer_Closed u |} |}
         (setSession s {| session_peer := session_peer st; session_usage := session_usage st;
                          pendingHandshake := false; closed := closed st;
                          retired := retired st |} h))
    else (None, h)
  end.

Definition Reserve (handle : option Ptr) (c : Claim) (h : heap) : result CreditError Ptr * heap :=
  match handle with
  | None => (Err ErrInvalid, h)
  | Some s =>
    if empty c then (Err ErrInvalid, h) else
    let st := session h s in
    let p := session_peer st in
    if closed st || peer_Closed (usage (peer h p)) then (Err ErrClosed, h) else
    match checkClaimLocked (peer h p) st c with
    | Some err => (Err err, h)
    | None => let '(l, h) := newLease s c h in (Ok l, chargeLocked p s c h)
    end
  end.

Definition BindBytes (handle lhandle : option Ptr) (required : Z) (h : heap)
  : result CreditError Ptr * heap :=
  match handle, lhandle with
  | Some s, Some l =>
    if (required =? 0) || (MaxRetainedBytes <? required) then (Err ErrInvalid, h) else
    let st := session h s in
    let p := session_peer st in
    let ls := lease h l in
    if negb (bool_decide (lease_peer ls = p)) then (Err ErrInvalid, h) else
    if closed st || peer_Closed (usage (peer h p)) then (Err ErrClosed, h) else
    if pendingHandshake st then (Err ErrInvalid, h) else
    if released ls then (Err ErrReleased, h) else
    if negb (bool_decide (owner ls = Some s)) || bound ls || BusinessStream (claim ls)
       || PendingAccept (claim ls) || (Claim_Bytes (claim ls) <? required)
    then (Err ErrInvalid, h) else
    (Ok l, setLease l {| lease_peer := lease_peer ls; owner := owner ls; claim := claim ls;
                         acceptReserved := acceptReserved ls; bound := true;
                         released := released ls |} h)
  | _, _ => (Err ErrInvalid, h)
  end.

Definition markClosed (s : Ptr) (h : heap) : heap :=
  let st := session h s in
  setSession s {| session_peer := session_peer st; session_usage := session_usage st;
                  pendingHandshake := pendingHandshake st; closed := true;
                  retired := retired st |} h.

Definition Session_Close (handle : option Ptr) (h : heap) : heap :=
  match handle with
  | None => h
  | Some s => retireLocked (session_peer (session h s)) s (markClosed s h)
  end.

(** ** Lease operations *)

(** [state.owner], which is non-nil until the release. *)
Definition ownerOf (ls : leaseState) : Ptr := default 1%positive (owner ls).

Definition with_owner (o : option Ptr) (ls : leaseState) : leaseState := {|
  lease_peer := lease_peer ls; owner := o; claim := claim ls;
  acceptReserved := acceptReserved ls; bound := bound ls; released := released ls |}.
Definition with_claim (c : Claim) (ls : leaseState) : leaseState := {|
  lease_peer := lease_peer ls; owner := owner ls; claim := c;
  acceptReserved := acceptReserved ls; bound := bound ls; released := released ls |}.

Definition Transfer (lhandle destination : option Ptr) (h : heap) : option CreditError * heap :=
  match lhandle, destination with
  | Some l, Some target =>
    let ls := lease h l in
    let p := lease_peer ls in
    let ts := session h target in
    if negb (bool_decide (session_peer ts = p)) then (Some ErrInvalid, h) else
    if released ls then (Some ErrReleased, h) else
    if closed ts || peer_Closed (usage (peer h p)) then (Some ErrClosed, h) else
    let source := ownerOf ls in
    if bool_decide (source = target) then (None, h) else
    if bound ls then (Some ErrInvalid, h) else
    match checkSessionClaimLocked (peer h p) ts (claim ls) with
    | Some err => (Some err, h)
    | None =>
      let h := on_session_usage (fun u => subtractClaim u (claim ls)) source h in
      let h := on_session_usage (fun u => addClaim u (claim ls)) target h in
      let h := setLease l (with_owner (Some target) ls) h in
      (None, retireLocked p source h)
    end
  | _, _ => (Some ErrInvalid, h)
  end.

Definition dropAccept (u : Usage) : Usage := {|
  Usage_Bytes := Usage_Bytes u; Reservations := Reservations u;
  BusinessStreams := BusinessStreams u; PendingAccepts := PendingAccepts u - 1 |}.

Definition MarkAccepted (lhandle : option Ptr) (h : heap) : option CreditError * heap :=
  match lhandle with
  | None => (Some ErrInvalid, h)
  | Some l =>
    let ls := lease h l in
    let p := lease_peer ls in
    let s := ownerOf ls in
    if released ls then (Some ErrReleased, h) else
    if closed (session h s) || peer_Closed (usage (peer h p)) then (Some ErrClosed, h) else
    if pendingHandshake (session h s) || negb (acceptReserved ls) then (Some ErrInvalid, h) else
    if PendingAccept (claim ls) then
      let c := {| Claim_Bytes := Claim_Bytes (claim ls);
                  BusinessStream := BusinessStream (claim ls); PendingAccept := false |} in
      (None, on_peer_usage dropAccept p
               (on_session_usage dropAccept s (setLease l (with_claim c ls) h)))
    else (None, h)
  end.

Definition dropBytes (n : Z) (u : Usage) : Usage := {|
  Usage_Bytes := u64 (Usage_Bytes u - n); Reservations := Reservations u;
  BusinessStreams := BusinessStreams u; PendingAccepts := PendingAccepts u |}.

Definition ShrinkBytes (lhandle : option Ptr) (n : Z) (h : heap) : option CreditError * heap :=
  match lhandle with
  | None => (Some ErrInvalid, h)
  | Some l =>
    let ls := lease h l in
    if released ls then (Some ErrReleased, h) else
    if Claim_Bytes (claim ls) <? n then (Some ErrInvalid, h) else
    let delta := u64 (Claim_Bytes (claim ls) - n) in
    let c := {| Claim_Bytes := n; BusinessStream := BusinessStream (claim ls);
                PendingAccept := PendingAccept (claim ls) |} in
    (None, on_peer_usage (dropBytes delta) (lease_peer ls)
             (on_session_usage (dropBytes delta) (ownerOf ls) (setLease l (with_claim c ls) h)))
  end.

Definition Release (lhandle : option Ptr) (h : heap) : heap :=
  match lhandle with
  | None => h
  | Some l =>
    let ls := lease h l in
    let p := lease_peer ls in
    if released ls then h else
    let s := ownerOf ls in
    let h := on_session_usage (fun u => subtractClaim u (claim ls)) s h in
    let h := on_peer_usage (fun u => subtractClaim u (claim ls)) p h in
    let h := setLease l {| lease_peer := lease_peer ls; owner := None; claim := zeroClaim;
                           acceptReserved := acceptReserved ls; bound := bound ls;
                           released := true |} h in
    retireLocked p s h
  end.

(** ** Closing a Peer.  The source ranges over the Session set in map order; the
    model closes the same Sessions in the order of [elements]. *)

Definition closeMember (p s : Ptr) (h : heap) : heap := retireLocked p s (markClosed s h).

Definition Peer_Close (handle : option Ptr) (h : heap) : heap :=
  match handle with
  | None => h
  | Some p =>
    let ps := peer h p in
    if peer_Closed (usage ps) then h else
    let u := usage ps in
    let h := setPeer p {| limits := limits ps; members := members ps;
                          usage := {| peer_Usage := peer_Usage u; SessionSlots := SessionSlots u;
                                      PendingHandshakes := PendingHandshakes u;
                                      EstablishedSessions := EstablishedSessions u;
                                      peer_Closed := true |} |} h in
    fold_left (fun h s => closeMember p s h) (elements (members ps)) h
  end.

(** ** Snapshots *)

Definition Peer_Snapshot (handle : option Ptr) (h : heap) : PeerSnapshot :=
  match handle with
  | None => {| peer_Usage := zeroUsage; SessionSlots := 0; PendingHandshakes := 0;
               EstablishedSessions := 0; peer_Closed := true |}
  | Some p => usage (peer h p)
  end.

Definition Session_Snapshot (handle : option Ptr) (h : heap) : SessionSnapshot :=
  match handle with
  | None => {| session_Usage := zeroUsage; PendingHandshake := false;
               session_Closed := true; Retired := true |}
  | Some s =>
    let st := session h s in
    {| session_Usage := session_usage st; PendingHandshake := pendingHandshake st;
       session_Closed := closed st; Retired := retired st |}
  end.

Definition Lease_Snapshot (handle : option Ptr) (h : heap) : LeaseSnapshot :=
  match handle with
  | None => {| lease_Claim := zeroClaim; lease_Released := true |}
  | Some l => {| lease_Claim := claim (lease h l); lease_Released := released (lease h l) |}
  end.

(** ** Programs: one call at a time *)

Inductive Op :=
| OpNew (lim : Limits)
| OpBeginHandshake (p : option Ptr) (c : Claim)
| OpBeginSession (p : option Ptr) (c : Claim)
| OpPromote (s : option Ptr)
| OpReserve (s : option Ptr) (c : Claim)
| OpBindBytes (s l : option Ptr) (required : Z)
| OpTransfer (l s : option Ptr)
| OpMarkAccepted (l : option Ptr)
| OpShrinkBytes (l : option Ptr) (n : Z)
| OpRelease (l : option Ptr)
| OpSessionClose (s : option Ptr)
| OpPeerClose (p : option Ptr).

(** The error an operation returns, if it returns one, and the heap after it. *)
Definition errOf {A} (r : result CreditError A) : option CreditError :=
  match r with Ok _ => None | Err e => Some e end.

Definition step (h : heap) (op : Op) : option CreditError * heap :=
  match op with
  | OpNew lim => let '(r, h) := New lim h in (errOf r, h)
  | OpBeginHandshake p c => let '(r, h) := BeginHandshake p c h in (errOf r, h)
  | OpBeginSession p c => let '(r, h) := BeginSession p c h in (errOf r, h)
  | OpPromote s => Promote s h
  | OpReserve s c => let '(r, h) := Reserve s c h in (errOf r, h)
  | OpBindBytes s l n => let '(r, h) := BindBytes s l n h in (errOf r, h)
  | OpTransfer l s => Transfer l s h
  | OpMarkAccepted l => MarkAccepted l h
  | OpShrinkBytes l n => ShrinkBytes l n h
  | OpRelease l => (None, Release l h)
  | OpSessionClose s => (None, Session_Close s h)
  | OpPeerClose p => (None, Peer_Close p h)
  end.

(** ** What the counters count *)

Inductive Kind := KBytes | KReservations | KStreams | KAccepts.

Definition count (k : Kind) (u : Usage) : Z :=
  match k with
  | KBytes => Usage_Bytes u | KReservations => Reservations u
  | KStreams => BusinessStreams u | KAccepts => PendingAccepts u
  end.

Definition weight (k : Kind) (c : Claim) : Z :=
  match k with
  | KBytes => Claim_Bytes c | KReservations => 1
  | KStreams => if BusinessStream c then 1 else 0
  | KAccepts => if PendingAccept c then 1 else 0
  end.

Definition sessionCeil (k : Kind) (lim : Limits) : Z :=
  match k with
  | KBytes => MaxSessionBytes lim | KReservations => MaxReservations lim
  | KStreams => MaxStreamsPerSession lim | KAccepts => MaxPendingAccepts lim
  end.

Definition peerCeil (k : Kind) (lim : Limits) : Z :=
  match k with
  | KBytes => MaxPeerBytes lim | KReservations => MaxReservations lim
  | KStreams => MaxPeerStreams lim | KAccepts => MaxPendingAccepts lim
  end.

(** What a lease contributes to Session [s], and to Peer [p]. *)
Definition share (k : Kind) (s : Ptr) (ls : leaseState) : Z :=
  if decide (owner ls = Some s) then weight k (claim ls) else 0.
Definition peerShare (k : Kind) (p : Ptr) (ls : leaseState) : Z :=
  if decide (released ls = false /\ lease_peer ls = p) then weight k (claim ls) else 0.

(** The three Session counters of a Peer. *)
Inductive Slot := SlotAny | SlotPending | SlotEstablished.

Definition slotCount (x : Slot) (u : PeerSnapshot) : Z :=
  match x with
  | SlotAny => SessionSlots u | SlotPending => PendingHandshakes u
  | SlotEstablished => EstablishedSessions u
  end.

Definition slotShare (x : Slot) (p : Ptr) (st : sessionState) : Z :=
  if decide (session_peer st = p /\ retired st = false) then
    match x with
    | SlotAny => 1 | SlotPending => if pendingHandshake st then 1 else 0
    | SlotEstablished => if pendingHandshake st then 0 else 1
    end
  else 0.

Record limits_ok (lim : Limits) : Prop := {
  lo_bytes : 0 < MaxSessionBytes lim <= MaxPeerBytes lim /\ MaxPeerBytes lim <= MaxRetainedBytes;
  lo_sessions : 1 <= MaxSessions lim <= 65536;
  lo_pending : 1 <= MaxPendingHandshakes lim <= 4096;
  lo_accepts : 1 <= MaxPendingAccepts lim <= 65536;
  lo_streams : 1 <= MaxStreamsPerSession lim <= 4096 /\ 1 <= MaxPeerStreams lim <= 65536;
  lo_reservations : 1 <= MaxReservations lim <= MaxReservationsBound }.

(** ** The invariant

    [lag] holds of the Sessions whose retirement is due but not done yet, [late] of
    those a closing Peer has still to close; both are empty between operations. *)

Record live_lease (h : heap) (ls : leaseState) : Prop := {
  ll_released : released ls = false;
  ll_bytes : in_u 64 (Claim_Bytes (claim ls));
  ll_owner : exists s st, owner ls = Some s /\ sessions h !! s = Some st /\
                          session_peer st = lease_peer ls /\ retired st = false }.

Definition dead_lease (ls : leaseState) : Prop :=
  released ls = true /\ owner ls = None /\ claim ls = zeroClaim.

Record session_ok (lag : Ptr -> Prop) (h : heap) (s : Ptr) (st : sessionState) : Prop := {
  so_peer : is_Some (peers h !! session_peer st);
  so_usage : forall k, count k (session_usage st) = msum (share k s) (leases h);
  so_ceil : forall k, count k (session_usage st) <= sessionCeil k (limits (peer h (session_peer st)));
  so_retired : retired st = true -> closed st = true /\ Reservations (session_usage st) = 0;
  so_due : closed st = true -> Reservations (session_usage st) = 0 -> retired st = true \/ lag s }.

Record peer_ok (late : Ptr -> Prop) (h : heap) (p : Ptr) (ps : peerState) : Prop := {
  po_limits : limits_ok (limits ps);
  po_usage : forall k, count k (peer_Usage (usage ps)) = msum (peerShare k p) (leases h);
  po_ceil : forall k, count k (peer_Usage (usage ps)) <= peerCeil k (limits ps);
  po_slots : forall x, slotCount x (usage ps) = msum (slotShare x p) (sessions h);
  po_max : SessionSlots (usage ps) <= MaxSessions (limits ps) /\
           PendingHandshakes (usage ps) <= MaxPendingHandshakes (limits ps);
  po_members : forall s, s ∈ members ps <->
    exists st, sessions h !! s = Some st /\ session_peer st = p /\ retired st = false;
  po_closed : peer_Closed (usage ps) = true -> forall s st, sessions h !! s = Some st ->
    session_peer st = p -> closed st = true \/ late s }.

Record Inv (lag late : Ptr -> Prop) (h : heap) : Prop := {
  inv_leases : forall l ls, leases h !! l = Some ls -> live_lease h ls \/ dead_lease ls;
  inv_sessions : forall s st, sessions h !! s = Some st -> session_ok lag h s st;
  inv_peers : forall p ps, peers h !! p = Some ps -> peer_ok late h p ps }.

Definition settled : Ptr -> Prop := fun _ => False.

(** ** Lookups *)

Lemma peer_lookup h p ps : peers h !! p = Some ps -> peer h p = ps.
Proof. apply lookup_total_correct. Qed.
Lemma session_lookup h s st : sessions h !! s = Some st -> session h s = st.
Proof. apply lookup_total_correct. Qed.
Lemma lease_lookup h l ls : leases h !! l = Some ls -> lease h l = ls.
Proof. apply lookup_total_correct. Qed.

Lemma alloc_fresh {A} (m : gmap Ptr A) : m !! alloc m = None.
Proof. apply not_elem_of_dom, is_fresh. Qed.

Lemma weight_nonneg h ls k : live_lease h ls -> 0 <= weight k (claim ls).
Proof.
  intros [_ [Hb _] _]. destruct k; simpl; try lia; by destruct (claim ls) as [? [] []].
Qed.

Lemma share_owner k s ls : owner ls = Some s -> share k s ls = weight k (claim ls).
Proof. intros H. unfold share. by rewrite decide_True. Qed.

Lemma peerShare_live k p ls :
  released ls = false -> lease_peer ls = p -> peerShare k p ls = weight k (claim ls).
Proof. intros H1 H2. unfold peerShare. by rewrite decide_True. Qed.

Section books.
Context {lag late : Ptr -> Prop} {h : heap} (HI : Inv lag late h).

Lemma share_nonneg k s l ls : leases h !! l = Some ls -> 0 <= share k s ls.
Proof.
  intros Hl. unfold share. destruct (decide _) as [Ho|]; [|lia].
  destruct (inv_leases _ _ _ HI _ _ Hl) as [Hv|(_ & Hn & _)]; [|congruence].
  by eapply weight_nonneg.
Qed.

Lemma peerShare_nonneg k p l ls : leases h !! l = Some ls -> 0 <= peerShare k p ls.
Proof.
  intros Hl. unfold peerShare. destruct (decide _) as [[Hr _]|]; [|lia].
  destruct (inv_leases _ _ _ HI _ _ Hl) as [Hv|(Hr' & _)]; [|congruence].
  by eapply weight_nonneg.
Qed.

Lemma session_count_range s st k :
  sessions h !! s = Some st ->
  0 <= count k (session_usage st) <= sessionCeil k (limits (peer h (session_peer st))).
Proof.
  intros Hs. pose proof (inv_sessions _ _ _ HI _ _ Hs) as So. split.
  - rewrite (so_usage _ _ _ _ So). apply msum_nonneg. intros. by eapply share_nonneg.
  - apply (so_ceil _ _ _ _ So).
Qed.

Lemma peer_count_range p ps k :
  peers h !! p = Some ps ->
  0 <= count k (peer_Usage (usage ps)) <= peerCeil k (limits ps).
Proof.
  intros Hp. pose proof (inv_peers _ _ _ HI _ _ Hp) as Po. split.
  - rewrite (po_usage _ _ _ _ Po). apply msum_nonneg. intros. by eapply peerShare_nonneg.
  - apply (po_ceil _ _ _ _ Po).
Qed.

Lemma session_has_peer s st :
  sessions h !! s = Some st -> peers h !! session_peer st = Some (peer h (session_peer st)).
Proof.
  intros Hs. destruct (so_peer _ _ _ _ (inv_sessions _ _ _ HI _ _ Hs)) as [ps Hp].
  by rewrite (peer_lookup _ _ _ Hp).
Qed.

Lemma session_limits_ok s st :
  sessions h !! s = Some st -> limits_ok (limits (peer h (session_peer st))).
Proof.
  intros Hs. apply (po_limits late h (session_peer st)), (inv_peers _ _ _ HI).
  exact (session_has_peer _ _ Hs).
Qed.

(** A live lease is covered by its owner's and its Peer's counters. *)
Lemma lease_covered l ls s st k :
  leases h !! l = Some ls -> owner ls = Some s -> sessions h !! s = Some st ->
  session_peer st = lease_peer ls /\ released ls = false /\
  0 <= weight k (claim ls) <= count k (session_usage st) /\
  weight k (claim ls) <= count k (peer_Usage (usage (peer h (lease_peer ls)))).
Proof.
  intros Hl Ho Hs.
  destruct (inv_leases _ _ _ HI _ _ Hl) as [Hv|(_ & Hn & _)]; [|congruence].
  pose proof (weight_nonneg _ _ k Hv) as Hw.
  destruct Hv as [Hr _ (s' & st' & Ho' & Hs' & Hp & _)].
  assert (s' = s) as -> by congruence. assert (st' = st) as -> by congruence.
  rewrite (so_usage _ _ _ _ (inv_sessions _ _ _ HI _ _ Hs)).
  rewrite <- Hp at 2.
  rewrite (po_usage _ _ _ _ (inv_peers _ _ _ HI _ _ (session_has_peer _ _ Hs))).
  pose proof (msum_member (share k s) _ _ _ (fun l ls H => share_nonneg k s l ls H) Hl).
  pose proof (msum_member (peerShare k (session_peer st)) _ _ _
    (fun l ls H => peerShare_nonneg k _ l ls H) Hl) as Hpm.
  rewrite (share_owner k s ls) in * by done. rewrite (peerShare_live k _ ls) in Hpm by done.
  repeat split; try done; lia.
Qed.
End books.

(** ** Bookings: how the counters of a heap move *)

Definition booked_session (d : Kind -> Z) (st st' : sessionState) : Prop :=
  session_peer st' = session_peer st /\ pendingHandshake st' = pendingHandshake st /\
  closed st' = closed st /\ retired st' = retired st /\
  forall k, count k (session_usage st') = count k (session_usage st) + d k.

Definition booked_peer (d : Kind -> Z) (ps ps' : peerState) : Prop :=
  limits ps' = limits ps /\ members ps' = members ps /\
  (forall x, slotCount x (usage ps') = slotCount x (usage ps)) /\
  peer_Closed (usage ps') = peer_Closed (usage ps) /\
  forall k, count k (peer_Usage (usage ps')) = count k (peer_Usage (usage ps)) + d k.

Record booked (dS dP : Ptr -> Kind -> Z) (h h' : heap) : Prop := {
  bk_sessions : forall s, both (booked_session (dS s)) (sessions h !! s) (sessions h' !! s);
  bk_peers : forall p, both (booked_peer (dP p)) (peers h !! p) (peers h' !! p) }.

Definition at_ptr (p : Ptr) (e : Kind -> Z) (q : Ptr) (k : Kind) : Z :=
  if decide (q = p) then e k else 0.

Lemma booked_session_refl d st : (forall k, d k = 0) -> booked_session d st st.
Proof. intros Hd. repeat split; try done. intros k. rewrite Hd. lia. Qed.

Lemma booked_peer_refl d ps : (forall k, d k = 0) -> booked_peer d ps ps.
Proof. intros Hd. repeat split; try done. intros k. rewrite Hd. lia. Qed.

Lemma booked_none h h' :
  sessions h' = sessions h -> peers h' = peers h ->
  booked (fun _ _ => 0) (fun _ _ => 0) h h'.
Proof.
  intros Hs Hp. split; intros i; [rewrite Hs|rewrite Hp]; apply both_refl; intros.
  - by apply booked_session_refl.
  - by apply booked_peer_refl.
Qed.

Lemma booked_trans d1 e1 d2 e2 h1 h2 h3 :
  booked d1 e1 h1 h2 -> booked d2 e2 h2 h3 ->
  booked (fun s k => d1 s k + d2 s k) (fun p k => e1 p k + e2 p k) h1 h3.
Proof.
  intros [Hs1 Hp1] [Hs2 Hp2]. split; intros i.
  - specialize (Hs1 i). specialize (Hs2 i). unfold both in *.
    destruct (sessions h1 !! i), (sessions h2 !! i), (sessions h3 !! i); try done.
    destruct Hs1 as (?&?&?&?&Hd1), Hs2 as (?&?&?&?&Hd2).
    repeat split; try congruence. intros k. rewrite Hd2, Hd1. lia.
  - specialize (Hp1 i). specialize (Hp2 i). unfold both in *.
    destruct (peers h1 !! i), (peers h2 !! i), (peers h3 !! i); try done.
    destruct Hp1 as (?&?&?&?&Hd1), Hp2 as (?&?&?&?&Hd2).
    repeat split; try congruence. intros k. rewrite Hd2, Hd1. lia.
Qed.

Lemma booked_ext d1 e1 d2 e2 h h' :
  booked d1 e1 h h' ->
  (forall s k, is_Some (sessions h !! s) -> d1 s k = d2 s k) ->
  (forall p k, is_Some (peers h !! p) -> e1 p k = e2 p k) ->
  booked d2 e2 h h'.
Proof.
  intros [Hs Hp] Hd He. split; intros i.
  - specialize (Hs i). specialize (Hd i). unfold both in *.
    destruct (sessions h !! i), (sessions h' !! i); try done.
    destruct Hs as (?&?&?&?&Hk). repeat split; try done. intros k. rewrite Hk, Hd; eauto.
  - specialize (Hp i). specialize (He i). unfold both in *.
    destruct (peers h !! i), (peers h' !! i); try done.
    destruct Hp as (?&?&?&?&Hk). repeat split; try done. intros k. rewrite Hk, He; eauto.
Qed.

Lemma booked_session_usage f s st e h :
  sessions h !! s = Some st ->
  (forall k, count k (f (session_usage st)) = count k (session_usage st) + e k) ->
  booked (at_ptr s e) (fun _ _ => 0) h (on_session_usage f s h).
Proof.
  intros Hs He. unfold on_session_usage. rewrite (session_lookup _ _ _ Hs). split; intros i; simpl.
  - unfold at_ptr. destruct (decide (i = s)) as [->|].
    + by rewrite lookup_insert_eq, Hs.
    + rewrite lookup_insert_ne by done. apply both_refl; intros. by apply booked_session_refl.
  - apply both_refl; intros. by apply booked_peer_refl.
Qed.

Lemma booked_peer_usage f p ps e h :
  peers h !! p = Some ps ->
  (forall k, count k (f (peer_Usage (usage ps))) = count k (peer_Usage (usage ps)) + e k) ->
  booked (fun _ _ => 0) (at_ptr p e) h (on_peer_usage f p h).
Proof.
  intros Hp He. unfold on_peer_usage. rewrite (peer_lookup _ _ _ Hp). split; intros i; simpl.
  - apply both_refl; intros. by apply booked_session_refl.
  - unfold at_ptr. destruct (decide (i = p)) as [->|].
    + rewrite lookup_insert_eq, Hp. simpl. repeat split; try done; by intros [].
    + rewrite lookup_insert_ne by done. apply both_refl; intros. by apply booked_peer_refl.
Qed.

(** Adding and subtracting a claim moves each counter by the claim's weight, as
    long as the byte counter neither overflows nor underflows. *)
Lemma count_addClaim u c k :
  in_u 64 (Usage_Bytes u + Claim_Bytes c) ->
  count k (addClaim u c) = count k u + weight k c.
Proof.
  intros H. destruct k; simpl;
    [by apply wrap_small|lia|destruct (BusinessStream c); lia|destruct (PendingAccept c); lia].
Qed.

Lemma count_subtractClaim u c k :
  in_u 64 (Usage_Bytes u - Claim_Bytes c) ->
  count k (subtractClaim u c) = count k u + - weight k c.
Proof.
  intros H. destruct k; simpl; [|lia|destruct (BusinessStream c); lia|destruct (PendingAccept c); lia].
  unfold u64. rewrite wrap_small by done. lia.
Qed.

(** The ceiling of a counter: what a booking must respect. *)
Definition within (h : heap) : Prop :=
  (forall s st k, sessions h !! s = Some st ->
     count k (session_usage st) <= sessionCeil k (limits (peer h (session_peer st)))) /\
  (forall p ps k, peers h !! p = Some ps ->
     count k (peer_Usage (usage ps)) <= peerCeil k (limits ps)).

Definition oshare (k : Kind) (s : Ptr) (o : option leaseState) : Z :=
  match o with Some ls => share k s ls | None => 0 end.
Definition opeerShare (k : Kind) (p : Ptr) (o : option leaseState) : Z :=
  match o with Some ls => peerShare k p ls | None => 0 end.

Lemma msum_set (f : leaseState -> Z) (m : gmap Ptr leaseState) l new :
  msum f (<[l := new]> m) = msum f m + (f new - match m !! l with Some ls => f ls | None => 0 end).
Proof.
  destruct (m !! l) as [ls|] eqn:E.
  - rewrite (msum_update f m l ls) by done. lia.
  - rewrite msum_insert by done. lia.
Qed.

Section rebook.
Context {lag late : Ptr -> Prop} {h h' : heap} (l : Ptr) (new : leaseState).
Context (HI : Inv lag late h)
  (HB : booked (fun s k => share k s new - oshare k s (leases h !! l))
               (fun p k => peerShare k p new - opeerShare k p (leases h !! l)) h h')
  (HL : leases h' = <[l := new]> (leases h))
  (Hnew : live_lease h new \/ dead_lease new)
  (Hceil : within h').

Lemma rebook_limits p : limits (peer h' p) = limits (peer h p).
Proof using All.
  pose proof (bk_peers _ _ _ _ HB p) as H. unfold peer. rewrite !lookup_total_alt.
  destruct (peers h !! p), (peers h' !! p); simpl in *; try done. apply H.
Qed.

Lemma rebook_live ls : live_lease h ls -> live_lease h' ls.
Proof using All.
  intros [Hr Hb (s & st & Ho & Hs & Hp & Ht)]. split; [done..|].
  destruct (both_some_l _ _ _ _ (bk_sessions _ _ _ _ HB s) Hs) as (st' & Hs' & H1 & _ & _ & H4 & _).
  exists s, st'. repeat split; congruence.
Qed.

Lemma oshare_range s st k :
  sessions h !! s = Some st ->
  0 <= oshare k s (leases h !! l) <= count k (session_usage st).
Proof using All.
  intros Hs. pose proof (session_count_range HI s st k Hs).
  destruct (leases h !! l) as [ls|] eqn:El; simpl; [|lia].
  split; [by eapply (share_nonneg HI)|].
  rewrite (so_usage _ _ _ _ (inv_sessions _ _ _ HI _ _ Hs)).
  apply (msum_member (share k s) (leases h) l); [|done].
  intros. by eapply (share_nonneg HI).
Qed.

(** Sessions that lost their lease may now be due for retirement. *)
Definition lost (s : Ptr) : Prop :=
  exists ls, leases h !! l = Some ls /\ owner ls = Some s /\ owner new <> Some s.

Lemma rebook_session s st' :
  sessions h' !! s = Some st' -> session_ok (fun s => lag s \/ lost s) h' s st'.
Proof using All.
  intros Hs'.
  destruct (both_some _ _ _ _ (bk_sessions _ _ _ _ HB s) Hs') as (st & Hs & Hp & Hh & Hc & Hr & Hu).
  pose proof (inv_sessions _ _ _ HI _ _ Hs) as [S1 S2 S3 S4 S5].
  pose proof (oshare_range s st KReservations Hs) as Ho.
  pose proof (Hu KReservations) as HuR. simpl in HuR.
  assert (Hn : retired st = true -> share KReservations s new = 0).
  { unfold share. destruct (decide _) as [Hon|]; [|done].
    destruct Hnew as [[_ _ (s2 & st2 & ? & ? & ? & ?)]|(_ & ? & _)]; congruence. }
  split.
  - destruct S1 as [ps Hps]. rewrite Hp.
    destruct (both_some_l _ _ _ _ (bk_peers _ _ _ _ HB _) Hps) as (ps' & -> & _). eauto.
  - intros k. rewrite Hu, HL, msum_set, S2. done.
  - intros k. by apply (proj1 Hceil s).
  - rewrite Hr, Hc. intros Ht. destruct (S4 Ht) as [? ?].
    simpl in Ho. specialize (Hn Ht). split; [done|lia].
  - rewrite Hc, Hr. intros Hct Hz.
    assert (Hnn : share KReservations s new = 0 \/ share KReservations s new = 1)
      by (unfold share; destruct (decide _); auto). simpl in Ho.
    destruct (Z.eq_dec (oshare KReservations s (leases h !! l)) 0) as [Hz0|Hz0].
    + destruct (S5 Hct); [lia|by left|by right; left].
    + right; right. destruct (leases h !! l) as [ls|] eqn:El; [|done]. exists ls.
      assert (Hon : owner ls = Some s).
      { unfold oshare, share in Hz0. by destruct (decide _). }
      split; [done|]. split; [done|]. intros Hnn'.
      rewrite (share_owner _ _ new Hnn') in HuR. simpl in *.
      rewrite (share_owner _ _ ls Hon) in *. simpl in *. lia.
Qed.

Lemma rebook_peer p ps' : peers h' !! p = Some ps' -> peer_ok late h' p ps'.
Proof using All.
  intros Hp'.
  destruct (both_some _ _ _ _ (bk_peers _ _ _ _ HB p) Hp') as (ps & Hp & Hl & Hm & Hx & Hc & Hu).
  pose proof (inv_peers _ _ _ HI _ _ Hp) as [P1 P2 P3 P4 P5 P6 P7]. split.
  - by rewrite Hl.
  - intros k. rewrite Hu, HL, msum_set, P2. done.
  - intros k. by apply (proj2 Hceil) with p.
  - intros x. rewrite Hx, P4. apply msum_both. intros s.
    eapply both_mono; [|apply (bk_sessions _ _ _ _ HB)].
    intros st st' (H1 & H2 & H3 & H4 & _). unfold slotShare. by rewrite H1, H2, H4.
  - pose proof (Hx SlotAny) as H1. pose proof (Hx SlotPending) as H2. simpl in H1, H2.
    by rewrite H1, H2, Hl.
  - intros s. rewrite Hm, P6. pose proof (bk_sessions _ _ _ _ HB s) as HS. unfold both in HS.
    destruct (sessions h !! s) as [st|], (sessions h' !! s) as [st'|]; try done.
    destruct HS as (H1 & _ & _ & H4 & _). split; intros (st1 & [= <-] & ? & ?).
    + exists st'. repeat split; congruence.
    + exists st. repeat split; congruence.
  - rewrite Hc. intros Hct s st' Hs' Hps.
    destruct (both_some _ _ _ _ (bk_sessions _ _ _ _ HB s) Hs') as (st & Hs & H1 & _ & H3 & _).
    rewrite H3. apply (P7 Hct s st); congruence.
Qed.

Lemma Inv_rebook : Inv (fun s => lag s \/ lost s) late h'.
Proof using All.
  split; [|apply rebook_session|apply rebook_peer].
  intros j ls. rewrite HL. intros [[<- <-]|[_ Hj]]%lookup_insert_Some.
  - destruct Hnew; [left; by apply rebook_live|by right].
  - destruct (inv_leases _ _ _ HI _ _ Hj); [left; by apply rebook_live|by right].
Qed.
End rebook.

(** ** Moving a Session between slots *)

Definition oslot (x : Slot) (p : Ptr) (o : option sessionState) : Z :=
  match o with Some st => slotShare x p st | None => 0 end.

Lemma msum_set_session (f : sessionState -> Z) (m : gmap Ptr sessionState) s new :
  msum f (<[s := new]> m) = msum f m + (f new - match m !! s with Some st => f st | None => 0 end).
Proof.
  destruct (m !! s) as [st|] eqn:E.
  - rewrite (msum_update f m s st) by done. lia.
  - rewrite msum_insert by done. lia.
Qed.

Lemma live_needs_reservation {lag late h} (HI : Inv lag late h) l ls s :
  leases h !! l = Some ls -> live_lease h ls -> owner ls = Some s ->
  1 <= msum (share KReservations s) (leases h).
Proof.
  intros Hl _ Ho. pose proof (msum_member (share KReservations s) _ l ls
    (fun l ls H => share_nonneg HI KReservations s l ls H) Hl) as Hm.
  by rewrite (share_owner _ _ _ Ho) in Hm.
Qed.

Section reslot.
Context {lag late : Ptr -> Prop} (lag' late' : Ptr -> Prop) {h : heap}.
Context (s : Ptr) (st' : sessionState) (p : Ptr) (ps ps' : peerState).
Context (HI : Inv lag late h) (Hp : peers h !! p = Some ps)
  (Hsp : session_peer st' = p)
  (Hold : forall st, sessions h !! s = Some st -> session_peer st = p)
  (Hu : forall k, count k (session_usage st') = msum (share k s) (leases h))
  (Hc : forall k, count k (session_usage st') <= sessionCeil k (limits ps))
  (Hret : retired st' = true -> closed st' = true /\ Reservations (session_usage st') = 0)
  (Hdue : closed st' = true -> Reservations (session_usage st') = 0 ->
          retired st' = true \/ lag' s)
  (Hlag : forall x, x <> s -> lag x -> lag' x)
  (Hlim : limits ps' = limits ps)
  (Hpu : peer_Usage (usage ps') = peer_Usage (usage ps))
  (Hslot : forall x, slotCount x (usage ps')
                     = slotCount x (usage ps) + (slotShare x p st' - oslot x p (sessions h !! s)))
  (Hmax : SessionSlots (usage ps') <= MaxSessions (limits ps) /\
          PendingHandshakes (usage ps') <= MaxPendingHandshakes (limits ps))
  (Hmem : forall x, x ∈ members ps' <->
                    (x = s /\ retired st' = false) \/ (x <> s /\ x ∈ members ps))
  (Hpc : peer_Closed (usage ps') = peer_Closed (usage ps))
  (Hcl : peer_Closed (usage ps') = true -> closed st' = true \/ late' s)
  (Hlate : forall x, x <> s -> late x -> late' x).

Let h' := setPeer p ps' (setSession s st' h).

Lemma reslot_peer q : limits (peer h' q) = limits (peer h q).
Proof using All.
  unfold peer, h'. rewrite !lookup_total_alt. simpl. destruct (decide (q = p)) as [->|].
  - by rewrite lookup_insert_eq, Hp.
  - by rewrite lookup_insert_ne.
Qed.

Lemma reslot_session i st : sessions h' !! i = Some st -> session_ok lag' h' i st.
Proof using All.
  unfold h' at 1. simpl. intros [[<- <-]|[Hne Hi]]%lookup_insert_Some.
  - split; try done.
    + exists ps'. unfold h'. simpl. by rewrite Hsp, lookup_insert_eq.
    + intros k. by rewrite reslot_peer, Hsp, (peer_lookup _ _ _ Hp).
  - destruct (inv_sessions _ _ _ HI _ _ Hi) as [[ps1 S1] S2 S3 S4 S5]. split; try done.
    + unfold h'. simpl. apply lookup_insert_is_Some. destruct (decide (p = session_peer st)); eauto.
    + intros k. by rewrite reslot_peer.
    + intros H1 H2. destruct (S5 H1 H2); auto.
Qed.

Lemma reslot_peers q qs : peers h' !! q = Some qs -> peer_ok late' h' q qs.
Proof using All.
  unfold h' at 1. simpl. intros [[<- <-]|[Hne Hq]]%lookup_insert_Some.
  - destruct (inv_peers _ _ _ HI _ _ Hp) as [P1 P2 P3 P4 P5 P6 P7].
    split; rewrite ?Hlim, ?Hpu; try done.
    + intros x. rewrite Hslot, P4. unfold h'. simpl. rewrite msum_set_session.
      by destruct (sessions h !! s).
    + intros x. rewrite Hmem, P6. unfold h'. simpl. destruct (decide (x = s)) as [->|Hxs].
      * rewrite lookup_insert_eq. naive_solver.
      * rewrite lookup_insert_ne by done. naive_solver.
    + intros Hct x st. unfold h'. simpl. intros [[<- <-]|[Hx Hxs]]%lookup_insert_Some Hst.
      * auto.
      * rewrite Hpc in Hct. destruct (P7 Hct _ _ Hxs Hst); auto.
  - destruct (inv_peers _ _ _ HI _ _ Hq) as [P1 P2 P3 P4 P5 P6 P7]. split; try done.
    + intros x. rewrite P4. unfold h'. simpl. rewrite msum_set_session.
      replace (slotShare x q st') with 0.
      * destruct (sessions h !! s) as [st|]; [|lia]. unfold slotShare.
        rewrite decide_False; [lia|]. intros [? _]. specialize (Hold st eq_refl). congruence.
      * unfold slotShare. rewrite decide_False; [done|]. intros [? _]. congruence.
    + intros x. rewrite P6. unfold h'. simpl. destruct (decide (x = s)) as [->|Hxs].
      * rewrite lookup_insert_eq. split.
        -- intros (st & Hs & Hsq & _). specialize (Hold st Hs). congruence.
        -- intros (st & [= <-] & Hsq & _). congruence.
      * by rewrite lookup_insert_ne.
    + intros Hct x st. unfold h'. simpl. intros [[<- <-]|[Hx Hxs]]%lookup_insert_Some Hst;
        [congruence|]. destruct (P7 Hct _ _ Hxs Hst); auto.
Qed.

Lemma Inv_reslot : Inv lag' late' h'.
Proof using All.
  split; [|apply reslot_session|apply reslot_peers].
  intros l ls Hl. unfold h' in Hl. simpl in Hl.
  destruct (inv_leases _ _ _ HI _ _ Hl) as [Hlive|]; [left|by right].
  pose proof (fun Ho => live_needs_reservation HI l ls s Hl Hlive Ho) as Hres.
  destruct Hlive as [L1 L2 (s1 & st1 & Ho & Hs1 & Hq & Ht)]. split; [done..|].
  unfold h'. simpl. destruct (decide (s1 = s)) as [->|Hne].
  - exists s, st'. rewrite lookup_insert_eq. repeat split; try done.
    + rewrite Hsp, <- (Hold _ Hs1). done.
    + apply not_true_iff_false. intros [_ Hz]%Hret.
      pose proof (Hu KReservations) as Hk. simpl in Hk. specialize (Hres Ho). lia.
  - exists s1, st1. by rewrite lookup_insert_ne.
Qed.
End reslot.

(** ** Each heap operation keeps the invariant *)

Lemma heap_eta p h ps : peers h !! p = Some ps -> setPeer p ps h = h.
Proof. intros Hp. unfold setPeer. rewrite insert_id by done. by destruct h. Qed.

Lemma retire_keeps lag late h s st :
  Inv lag late h -> sessions h !! s = Some st ->
  Inv (fun x => lag x /\ x <> s) late (retireLocked (session_peer st) s h).
Proof.
  intros HI Hs. unfold retireLocked. rewrite (session_lookup _ _ _ Hs).
  destruct (inv_sessions _ _ _ HI _ _ Hs) as [S1 S2 S3 S4 S5].
  pose proof (session_has_peer HI _ _ Hs) as Hp. pose proof (inv_peers _ _ _ HI _ _ Hp) as Po.
  destruct (negb (closed st) || retired st || negb (Reservations (session_usage st) =? 0)) eqn:E.
  - destruct HI as [I1 I2 I3]. split; [done| |done].
    intros i sti Hi. destruct (I2 _ _ Hi) as [T1 T2 T3 T4 T5]. split; try done.
    intros Hc Hz. destruct (T5 Hc Hz) as [|Hl]; [by left|].
    destruct (decide (i = s)) as [->|]; [|by right].
    assert (sti = st) as -> by congruence. rewrite Hc, Hz in E. simpl in E.
    left. by rewrite orb_false_r in E.
  - apply orb_false_elim in E as [[Hc%negb_false_iff Hr]%orb_false_elim Hz%negb_false_iff].
    apply Z.eqb_eq in Hz.
    eapply Inv_reslot; eauto; simpl.
    + intros st0 H0. congruence.
    + intros x. rewrite Hs. unfold oslot, slotShare; simpl. rewrite decide_False by naive_solver.
      rewrite decide_True by done. destruct x; simpl; [lia|by destruct (pendingHandshake st); lia..].
    + pose proof (po_max _ _ _ _ Po). split; [lia|destruct (pendingHandshake st); lia].
    + set_solver.
Qed.

Lemma markClosed_keeps lag late h s st :
  Inv lag late h -> sessions h !! s = Some st ->
  Inv (fun x => lag x \/ x = s) (fun x => late x /\ x <> s) (markClosed s h).
Proof.
  intros HI Hs. unfold markClosed. rewrite (session_lookup _ _ _ Hs).
  destruct (inv_sessions _ _ _ HI _ _ Hs) as [S1 S2 S3 S4 S5].
  pose proof (session_has_peer HI _ _ Hs) as Hp. pose proof (inv_peers _ _ _ HI _ _ Hp) as Po.
  match goal with |- Inv _ _ ?g =>
    rewrite <- (heap_eta (session_peer st) g (peer h (session_peer st))) by done end.
  eapply Inv_reslot; eauto; simpl.
  - intros st0 H0. congruence.
  - intros Hr. split; [done|]. by apply S4.
  - intros x. rewrite Hs. simpl. unfold slotShare; simpl. lia.
  - apply (po_max _ _ _ _ Po).
  - intros x. rewrite (po_members _ _ _ _ Po). destruct (decide (x = s)) as [->|]; [|naive_solver].
    split; [|naive_solver]. intros (st0 & H0 & _ & Hr). left. split; [done|]. congruence.
Qed.

Lemma Inv_weaken (lag lag' late late' : Ptr -> Prop) h :
  Inv lag late h -> (forall x, lag x -> lag' x) -> (forall x, late x -> late' x) -> Inv lag' late' h.
Proof.
  intros [I1 I2 I3] Hl Ht. split; [done|..].
  - intros s st Hs. destruct (I2 _ _ Hs) as [S1 S2 S3 S4 S5]. split; try done.
    intros H1 H2. destruct (S5 H1 H2); auto.
  - intros p ps Hp. destruct (I3 _ _ Hp) as [P1 P2 P3 P4 P5 P6 P7]. split; try done.
    intros Hc s st H1 H2. destruct (P7 Hc _ _ H1 H2); auto.
Qed.

Lemma closeMember_keeps lag late h s st :
  Inv lag late h -> sessions h !! s = Some st ->
  Inv (fun x => lag x /\ x <> s) (fun x => late x /\ x <> s) (closeMember (session_peer st) s h).
Proof.
  intros HI Hs. pose proof (markClosed_keeps _ _ _ _ _ HI Hs) as HM. unfold closeMember.
  set (st' := {| session_peer := session_peer st; session_usage := session_usage st;
                 pendingHandshake := pendingHandshake st; closed := true; retired := retired st |}).
  change (session_peer st) with (session_peer st').
  eapply Inv_weaken; [apply (retire_keeps _ _ _ s st' HM)| |done].
  - unfold markClosed. rewrite (session_lookup _ _ _ Hs). simpl. apply lookup_insert_eq.
  - simpl. naive_solver.
Qed.

Lemma Promote_keeps h s st :
  Inv settled settled h -> sessions h !! s = Some st ->
  Inv settled settled (snd (Promote (Some s) h)).
Proof.
  intros HI Hs. unfold Promote. rewrite (session_lookup _ _ _ Hs).
  destruct (inv_sessions _ _ _ HI _ _ Hs) as [S1 S2 S3 S4 S5].
  pose proof (session_has_peer HI _ _ Hs) as Hp. pose proof (inv_peers _ _ _ HI _ _ Hp) as Po.
  destruct (closed st || _) eqn:E; [done|]. destruct (pendingHandshake st) eqn:Hh; [|done].
  apply orb_false_elim in E as [Hc Hpc]. simpl.
  assert (Hr : retired st = false) by (apply not_true_iff_false; intros [? _]%S4; congruence).
  eapply Inv_reslot; eauto; simpl; try congruence.
  - intros x. rewrite Hs. unfold oslot, slotShare; simpl. rewrite !decide_True by done.
    rewrite Hh. destruct x; simpl; lia.
  - pose proof (po_max _ _ _ _ Po). lia.
  - intros x. rewrite (po_members _ _ _ _ Po). destruct (decide (x = s)) as [->|]; [|naive_solver].
    split; [naive_solver|]. intros [_|]; [|naive_solver]. by exists st.
Qed.

Lemma session_member_slots {lag late h p ps} (HI : Inv lag late h) x :
  peers h !! p = Some ps -> 0 <= slotCount x (usage ps).
Proof.
  intros Hp. rewrite (po_slots _ _ _ _ (inv_peers _ _ _ HI _ _ Hp)). apply msum_nonneg.
  intros k st _. unfold slotShare. destruct (decide _); [|lia].
  destruct x; [lia|destruct (pendingHandshake st); lia..].
Qed.

Lemma no_lease_before {lag late h} (HI : Inv lag late h) s k :
  sessions h !! s = None -> msum (share k s) (leases h) = 0.
Proof.
  intros Hs. apply msum_zero. intros l ls Hl. unfold share. rewrite decide_False; [done|].
  intros Ho. destruct (inv_leases _ _ _ HI _ _ Hl) as [[_ _ (s1 & st1 & ? & ? & _)]|(_ & ? & _)];
    congruence.
Qed.

Definition newSession (p : Ptr) (pending : bool) : sessionState :=
  {| session_peer := p; session_usage := zeroUsage; pendingHandshake := pending;
     closed := false; retired := false |}.

Lemma limits_ok_ceil lim k : limits_ok lim -> 0 <= sessionCeil k lim.
Proof. intros [? ? ? ? ? ?]. destruct k; simpl; lia. Qed.

Lemma admit_keeps h s p ps pending :
  Inv settled settled h -> sessions h !! s = None -> peers h !! p = Some ps ->
  peer_Closed (usage ps) = false ->
  SessionSlots (usage ps) <> MaxSessions (limits ps) ->
  (pending = true -> PendingHandshakes (usage ps) <> MaxPendingHandshakes (limits ps)) ->
  Inv settled settled (admitSession p s pending (setSession s (newSession p pending) h)).
Proof.
  intros HI Hs Hp Hpc Hsl Hpd. pose proof (inv_peers _ _ _ HI _ _ Hp) as Po.
  unfold admitSession. change (peer (setSession s _ h) p) with (peer h p).
  rewrite (peer_lookup _ _ _ Hp). pose proof (po_max _ _ _ _ Po) as [? ?].
  eapply (Inv_reslot settled settled s (newSession p pending) p ps); eauto; simpl; try congruence.
  - intros k. rewrite (no_lease_before HI) by done. by destruct k.
  - intros k. replace (count k zeroUsage) with 0 by (by destruct k). apply limits_ok_ceil, Po.
  - intros x. rewrite Hs. unfold slotShare. simpl. rewrite decide_True by done.
    destruct x, pending; simpl; lia.
  - split; [lia|]. destruct pending; [specialize (Hpd eq_refl)|]; lia.
  - intros x. rewrite elem_of_union, elem_of_singleton, (po_members _ _ _ _ Po).
    destruct (decide (x = s)) as [->|]; naive_solver.
Qed.

Definition limits_typed (lim : Limits) : Prop :=
  in_u 64 (MaxPeerBytes lim) /\ in_u 64 (MaxSessionBytes lim).

(** [New] accepts exactly the limits inside the documented bounds. *)
Lemma New_limits lim h :
  limits_typed lim ->
  (limits_ok lim /\
   New lim h = (Ok (alloc (peers h)),
                setPeer (alloc (peers h))
                  {| limits := lim; usage := zeroPeerUsage; members := ∅ |} h)) \/
  (~ limits_ok lim /\ New lim h = (Err ErrInvalid, h)).
Proof.
  intros [[? ?] [? ?]]. unfold New.
  destruct ((MaxPeerBytes lim =? 0) || _ || _ || _) eqn:E1;
    [right; split; [|done]; intros [? ? ? ? ? ?]; lia|].
  destruct ((MaxSessions lim <? 1) || _ || _ || _ || _ || _) eqn:E2;
    [right; split; [|done]; intros [? ? ? ? ? ?]; lia|].
  destruct ((MaxStreamsPerSession lim <? 1) || _ || _ || _ || _ || _) eqn:E3;
    [right; split; [|done]; intros [? ? ? ? ? ?]; lia|].
  left. split; [|done]. split; lia.
Qed.

Lemma New_keeps lim h :
  limits_typed lim -> Inv settled settled h -> Inv settled settled (snd (New lim h)).
Proof.
  intros Ht HI. destruct (New_limits lim h Ht) as [[Hok ->]|[_ ->]]; [|done]. simpl.
  pose proof (alloc_fresh (peers h)) as Hf. set (p := alloc (peers h)) in *.
  assert (Hno : forall s st, sessions h !! s = Some st -> session_peer st <> p).
  { intros s st Hs Hsp. pose proof (session_has_peer HI _ _ Hs). congruence. }
  split.
  - intros l ls Hl. destruct (inv_leases _ _ _ HI _ _ Hl) as [[L1 L2 L3]|]; [left|by right].
    by split.
  - intros s st Hs. simpl in Hs. destruct (inv_sessions _ _ _ HI _ _ Hs) as [[ps S1] S2 S3 S4 S5].
    split; try done; simpl.
    + rewrite lookup_insert_ne; [eauto|]. by apply not_eq_sym, (Hno s).
    + intros k. unfold peer. simpl. rewrite lookup_total_insert_ne; [apply S3|].
      by apply not_eq_sym, (Hno s).
  - intros q qs. simpl. intros [[<- <-]|[Hne Hq]]%lookup_insert_Some;
      [|destruct (inv_peers _ _ _ HI _ _ Hq); by split].
    split; try done; simpl.
    + intros k. rewrite msum_zero; [by destruct k|]. intros l ls Hl. unfold peerShare.
      rewrite decide_False; [done|]. intros [Hr Hlp].
      destruct (inv_leases _ _ _ HI _ _ Hl) as [[_ _ (s1 & st1 & _ & Hs1 & Hq & _)]|(? & _)]; [|congruence].
      apply (Hno _ _ Hs1). congruence.
    + intros k. replace (count k zeroUsage) with 0 by (by destruct k). destruct Hok, k; simpl; lia.
    + intros x. rewrite msum_zero; [by destruct x|]. intros s st Hs. unfold slotShare.
      rewrite decide_False; [done|]. intros [? _]. by apply (Hno _ _ Hs).
    + destruct Hok. lia.
    + intros s. split; [set_solver|]. intros (st & Hs & Hsp & _). by apply (Hno _ _ Hs) in Hsp.
Qed.

(** ** Closing a Peer *)

Lemma markClosed_sessions h s x st :
  sessions h !! x = Some st -> exists st', sessions (markClosed s h) !! x = Some st' /\
    session_peer st' = session_peer st.
Proof.
  intros Hx. unfold markClosed. simpl. destruct (decide (x = s)) as [->|].
  - rewrite lookup_insert_eq. rewrite (session_lookup _ _ _ Hx). eauto.
  - rewrite lookup_insert_ne by done. eauto.
Qed.

Lemma retireLocked_sessions h p s x st :
  sessions h !! x = Some st -> exists st', sessions (retireLocked p s h) !! x = Some st' /\
    session_peer st' = session_peer st.
Proof.
  intros Hx. unfold retireLocked. destruct (_ || _ || _); [eauto|]. simpl.
  destruct (decide (x = s)) as [->|].
  - rewrite lookup_insert_eq. rewrite (session_lookup _ _ _ Hx). eauto.
  - rewrite lookup_insert_ne by done. eauto.
Qed.

Lemma closeMember_sessions h p s x st :
  sessions h !! x = Some st -> exists st', sessions (closeMember p s h) !! x = Some st' /\
    session_peer st' = session_peer st.
Proof.
  intros Hx. destruct (markClosed_sessions _ s _ _ Hx) as (st1 & H1 & E1).
  destruct (retireLocked_sessions _ p s _ _ H1) as (st2 & H2 & E2). exists st2. split; [done|congruence].
Qed.

Lemma closeAll_keeps p xs h :
  Inv settled (fun x => x ∈ xs) h ->
  (forall x, x ∈ xs -> exists st, sessions h !! x = Some st /\ session_peer st = p) ->
  Inv settled settled (fold_left (fun h s => closeMember p s h) xs h).
Proof.
  revert h. induction xs as [|s xs IH]; intros h HI Hxs.
  - eapply Inv_weaken; [exact HI|done|]. intros x Hx. by apply not_elem_of_nil in Hx.
  - simpl. destruct (Hxs s) as (st & Hs & <-); [left|]. apply IH.
    + eapply Inv_weaken; [apply (closeMember_keeps _ _ _ _ _ HI Hs)|naive_solver|].
      intros x [Hx Hne]. apply elem_of_cons in Hx. naive_solver.
    + intros x Hx. destruct (Hxs x) as (sx & Hsx & Hpx); [by right|].
      destruct (closeMember_sessions h (session_peer st) s _ _ Hsx) as (s2 & ? & ?).
      exists s2. split; [done|congruence].
Qed.

Lemma Peer_Close_keeps p ps h :
  Inv settled settled h -> peers h !! p = Some ps ->
  Inv settled settled (Peer_Close (Some p) h).
Proof.
  intros HI Hp. unfold Peer_Close. rewrite (peer_lookup _ _ _ Hp).
  destruct (peer_Closed (usage ps)) eqn:Hc; [done|].
  pose proof (inv_peers _ _ _ HI _ _ Hp) as [P1 P2 P3 P4 P5 P6 P7]. apply closeAll_keeps.
  - split.
    + intros l ls Hl. destruct (inv_leases _ _ _ HI _ _ Hl) as [[? ? ?]|]; [by left|by right].
    + intros s st Hs. destruct (inv_sessions _ _ _ HI _ _ Hs) as [S1 S2 S3 S4 S5]. simpl in *.
      split; try done; simpl.
      * destruct (decide (session_peer st = p)) as [->|]; [by rewrite lookup_insert_eq|].
        by rewrite lookup_insert_ne.
      * intros k. unfold peer; simpl. destruct (decide (session_peer st = p)) as [E|].
        -- rewrite E, lookup_total_insert_eq. simpl. rewrite <- (peer_lookup _ _ _ Hp), <- E. apply S3.
        -- rewrite lookup_total_insert_ne by done. apply S3.
    + intros q qs. simpl. intros [[<- <-]|[Hne Hq]]%lookup_insert_Some.
      * split; try done; simpl.
        intros _ s st Hs Hsp. destruct (closed st) eqn:Hst; [by left|right].
        apply elem_of_elements, P6. exists st. repeat split; try done.
        apply not_true_iff_false. intros [? _]%(so_retired _ _ _ _ (inv_sessions _ _ _ HI _ _ Hs)).
        congruence.
      * destruct (inv_peers _ _ _ HI _ _ Hq) as [Q1 Q2 Q3 Q4 Q5 Q6 Q7]. split; try done.
        intros Hqc s st H1 H2. destruct (Q7 Hqc _ _ H1 H2) as [|[]]; by left.
  - intros x Hx%elem_of_elements%P6. destruct Hx as (st & ? & ? & _). eauto.
Qed.

(** ** Booking a claim *)

Lemma within_booked dS dP h h' :
  booked dS dP h h' ->
  (forall s st, sessions h !! s = Some st -> is_Some (peers h !! session_peer st)) ->
  (forall s st k, sessions h !! s = Some st ->
     count k (session_usage st) + dS s k <= sessionCeil k (limits (peer h (session_peer st)))) ->
  (forall p ps k, peers h !! p = Some ps ->
     count k (peer_Usage (usage ps)) + dP p k <= peerCeil k (limits ps)) ->
  within h'.
Proof.
  intros HB Hpe HS HP. split.
  - intros s st' k Hs'.
    destruct (both_some _ _ _ _ (bk_sessions _ _ _ _ HB s) Hs') as (st & Hs & H1 & _ & _ & _ & Hu).
    destruct (Hpe _ _ Hs) as [ps Hp].
    destruct (both_some_l _ _ _ _ (bk_peers _ _ _ _ HB _) Hp) as (ps' & Hp' & Hl & _).
    specialize (HS _ _ k Hs). rewrite (peer_lookup _ _ _ Hp) in HS.
    rewrite H1, (peer_lookup _ _ _ Hp'), Hl, Hu. exact HS.
  - intros p ps' k Hp'.
    destruct (both_some _ _ _ _ (bk_peers _ _ _ _ HB p) Hp') as (ps & Hp & Hl & _ & _ & _ & Hu).
    rewrite Hl, Hu. by apply HP.
Qed.

Lemma session_le_peer {lag late h} (HI : Inv lag late h) s st k :
  sessions h !! s = Some st ->
  count k (session_usage st) <= count k (peer_Usage (usage (peer h (session_peer st)))).
Proof.
  intros Hs. rewrite (so_usage _ _ _ _ (inv_sessions _ _ _ HI _ _ Hs)).
  rewrite (po_usage _ _ _ _ (inv_peers _ _ _ HI _ _ (session_has_peer HI _ _ Hs))).
  apply msum_le. intros l ls Hl. pose proof (peerShare_nonneg HI k (session_peer st) _ _ Hl).
  unfold share. destruct (decide _) as [Ho|]; [|done].
  destruct (lease_covered HI l ls s st k Hl Ho Hs) as (Hp & Hr & _).
  by rewrite (peerShare_live k _ ls) by done.
Qed.

(** The room the guards leave. *)
Lemma room {lag late h} (HI : Inv lag late h) s st c :
  sessions h !! s = Some st -> in_u 64 (Claim_Bytes c) ->
  checkSessionClaimLocked (peer h (session_peer st)) st c = None ->
  Usage_Bytes (session_usage st) + Claim_Bytes c
    <= MaxSessionBytes (limits (peer h (session_peer st))) <= MaxRetainedBytes /\
  (BusinessStream c = true -> BusinessStreams (session_usage st) + 1
     <= MaxStreamsPerSession (limits (peer h (session_peer st)))).
Proof.
  intros Hs [? ?] Hck. pose proof (session_limits_ok HI _ _ Hs) as Hl.
  pose proof (lo_bytes _ Hl). pose proof (session_count_range HI _ _ KBytes Hs) as Hb.
  pose proof (session_count_range HI _ _ KStreams Hs) as Hst. simpl in Hb, Hst.
  unfold checkSessionClaimLocked in Hck. destruct (_ || _) eqn:E; [done|].
  apply orb_false_elim in E as [E1%Z.ltb_ge E2].
  unfold u64 in E1. rewrite wrap_small in E1 by (unfold in_u, MaxRetainedBytes in *; lia).
  split; [lia|]. intros Hbs. rewrite Hbs in E2. simpl in E2. lia.
Qed.

Lemma room_peer {lag late h} (HI : Inv lag late h) s st c k :
  sessions h !! s = Some st -> in_u 64 (Claim_Bytes c) ->
  checkClaimLocked (peer h (session_peer st)) st c = None ->
  count k (session_usage st) + weight k c <= sessionCeil k (limits (peer h (session_peer st))) /\
  count k (peer_Usage (usage (peer h (session_peer st)))) + weight k c
    <= peerCeil k (limits (peer h (session_peer st))).
Proof.
  intros Hs Hcb Hck. pose proof (session_has_peer HI _ _ Hs) as Hp.
  pose proof (lo_bytes _ (session_limits_ok HI _ _ Hs)) as Hlo.
  assert (Hpk : forall k, _) by (intros k0; exact (peer_count_range HI _ _ k0 Hp)).
  pose proof (session_le_peer HI _ _ k Hs) as Hle.
  pose proof (session_count_range HI _ _ k Hs) as Hsk.
  unfold checkClaimLocked in Hck.
  destruct (checkSessionClaimLocked _ _ _) eqn:E; [done|].
  pose proof (room HI _ _ _ Hs Hcb E) as [Hr1 Hr2].
  destruct (_ || _) eqn:E' in Hck; [done|].
  apply orb_false_elim in E' as [[[E1%Z.ltb_ge E2%Z.eqb_neq]%orb_false_elim E3]%orb_false_elim E4].
  pose proof (Hpk KBytes) as HpB. simpl in HpB. destruct Hcb as [? ?].
  unfold u64 in E1. rewrite wrap_small in E1 by (unfold in_u, MaxRetainedBytes in *; lia).
  pose proof (Hpk k) as Hk. destruct k; simpl in *.
  - lia.
  - lia.
  - destruct (BusinessStream c); simpl in *; [|lia]. specialize (Hr2 eq_refl). lia.
  - destruct (PendingAccept c); simpl in *; lia.
Qed.

Lemma at_ptr_other p e q k : q <> p -> at_ptr p e q k = 0.
Proof. intros H. unfold at_ptr. by rewrite decide_False. Qed.
Lemma at_ptr_same p e k : at_ptr p e p k = e k.
Proof. unfold at_ptr. by rewrite decide_True. Qed.

Lemma share_not k s ls : owner ls <> Some s -> share k s ls = 0.
Proof. intros H. unfold share. by rewrite decide_False. Qed.
Lemma peerShare_not k p ls : (released ls = false -> lease_peer ls <> p) -> peerShare k p ls = 0.
Proof. intros H. unfold peerShare. rewrite decide_False; [done|]. intros [? ?]. by apply H. Qed.

(** The books after a claim is charged to a Session and its Peer. *)
Lemma booked_charge {h} s st p ps c :
  sessions h !! s = Some st -> session_peer st = p -> peers h !! p = Some ps ->
  in_u 64 (Usage_Bytes (session_usage st) + Claim_Bytes c) ->
  in_u 64 (Usage_Bytes (peer_Usage (usage ps)) + Claim_Bytes c) ->
  booked (at_ptr s (fun k => weight k c)) (at_ptr p (fun k => weight k c)) h (chargeLocked p s c h).
Proof.
  intros Hs Hsp Hp H1 H2. eapply booked_ext.
  - eapply booked_trans.
    + apply (booked_peer_usage (fun u => addClaim u c) p ps (fun k => weight k c)); [done|].
      intros k. by apply count_addClaim.
    + apply (booked_session_usage _ s st (fun k => weight k c)); [done|].
      intros k. by apply count_addClaim.
  - intros; simpl; lia.
  - intros; simpl; lia.
Qed.

Lemma charge_keeps h s st c :
  Inv settled settled h -> sessions h !! s = Some st -> closed st = false ->
  in_u 64 (Claim_Bytes c) ->
  checkClaimLocked (peer h (session_peer st)) st c = None ->
  let '(l, h1) := newLease s c h in
  Inv settled settled (chargeLocked (session_peer st) s c h1).
Proof.
  intros HI Hs Hc Hcb Hck. pose proof (alloc_fresh (leases h)) as Hf. unfold newLease.
  rewrite (session_lookup _ _ _ Hs).
  set (l := alloc (leases h)) in *. set (new := Build_leaseState _ _ _ _ _ _).
  pose proof (fun k => room_peer HI s st c k Hs Hcb Hck) as Hroom.
  pose proof (session_has_peer HI _ _ Hs) as Hp. set (ps := peer h (session_peer st)) in *.
  pose proof (Hroom KBytes) as [Hr1 Hr2]. pose proof (lo_bytes _ (session_limits_ok HI _ _ Hs)).
  pose proof (session_count_range HI _ _ KBytes Hs) as Hr3.
  pose proof (peer_count_range HI _ _ KBytes Hp) as Hr4. destruct Hcb as [? ?].
  assert (HB : booked (fun s' k => share k s' new - oshare k s' (leases h !! l))
                      (fun p k => peerShare k p new - opeerShare k p (leases h !! l)) h
                      (chargeLocked (session_peer st) s c (setLease l new h))).
  { rewrite Hf. simpl. eapply booked_ext.
    - eapply booked_trans; [by apply (booked_none h (setLease l new h))|].
      apply (booked_charge s st _ ps c); try done; unfold in_u, MaxRetainedBytes, ps in *; simpl in *; lia.
    - intros s' k _. simpl. destruct (decide (s' = s)) as [->|Hne].
      + rewrite at_ptr_same, (share_owner _ _ new) by done. simpl. lia.
      + rewrite at_ptr_other, share_not by (done || by intros [= ]). lia.
    - intros p' k _. simpl. destruct (decide (p' = session_peer st)) as [->|Hne].
      + rewrite at_ptr_same, (peerShare_live _ _ new) by done. simpl. lia.
      + rewrite at_ptr_other, peerShare_not by (done || by intros _ Heq; apply Hne). lia. }
  eapply Inv_weaken; [apply (Inv_rebook l new HI HB)| |done].
  - done.
  - left. split; [done|by split|]. exists s, st. repeat split; try done.
    apply not_true_iff_false. intros [? _]%(so_retired _ _ _ _ (inv_sessions _ _ _ HI _ _ Hs)). congruence.
  - apply (within_booked _ _ _ _ HB).
    + intros s' st' Hs'. by rewrite (session_has_peer HI _ _ Hs').
    + intros s' st' k Hs'. rewrite Hf. simpl. destruct (decide (s' = s)) as [->|Hne].
      * assert (st' = st) as -> by congruence. rewrite share_owner by done. simpl.
        pose proof (proj1 (Hroom k)). unfold ps in *. lia.
      * rewrite share_not by by intros [= ]. pose proof (session_count_range HI _ _ k Hs'). lia.
    + intros p' ps' k Hp'. rewrite Hf. simpl. destruct (decide (p' = session_peer st)) as [->|Hne].
      * assert (ps' = ps) as -> by congruence. rewrite peerShare_live by done. simpl.
        pose proof (proj2 (Hroom k)). lia.
      * rewrite peerShare_not by by intros _ Heq; apply Hne. pose proof (peer_count_range HI _ _ k Hp'). lia.
  - unfold lost. intros s' [?|(ls & ? & _)]; [done|congruence].
Qed.

(** ** Reducing a lease: shrinking, accepting and releasing *)

Lemma booked_pair {h} s st p ps f e :
  sessions h !! s = Some st -> peers h !! p = Some ps ->
  (forall k, count k (f (session_usage st)) = count k (session_usage st) + e k) ->
  (forall k, count k (f (peer_Usage (usage ps))) = count k (peer_Usage (usage ps)) + e k) ->
  booked (at_ptr s e) (at_ptr p e) h (on_peer_usage f p (on_session_usage f s h)).
Proof.
  intros Hs Hp H1 H2. eapply booked_ext.
  - eapply booked_trans.
    + by apply (booked_session_usage f s st e).
    + by apply (booked_peer_usage f p ps e).
  - intros; simpl; lia.
  - intros; simpl; lia.
Qed.

Lemma booked_lease_first {dS dP h h'} l new :
  booked dS dP (setLease l new h) h' -> booked dS dP h h'.
Proof.
  intros H. eapply booked_ext.
  - eapply booked_trans; [by apply (booked_none h (setLease l new h))|exact H].
  - intros; simpl; lia.
  - intros; simpl; lia.
Qed.

Lemma booked_lease_last {dS dP h h'} l new :
  booked dS dP h h' -> booked dS dP h (setLease l new h').
Proof.
  intros H. eapply booked_ext.
  - eapply booked_trans; [exact H|by apply (booked_none h' (setLease l new h'))].
  - intros; simpl; lia.
  - intros; simpl; lia.
Qed.

(** What is left of a lease's weight after it became [new]. *)
Definition leftover (k : Kind) (new : leaseState) : Z :=
  if released new then 0 else weight k (claim new).

Lemma reduce_keeps h h' l ls s st new :
  Inv settled settled h -> leases h !! l = Some ls -> owner ls = Some s ->
  sessions h !! s = Some st ->
  lease_peer new = lease_peer ls -> owner new = (if released new then None else Some s) ->
  (if released new then claim new = zeroClaim else in_u 64 (Claim_Bytes (claim new))) ->
  (forall k, leftover k new <= weight k (claim ls)) ->
  leases h' = <[l := new]> (leases h) ->
  booked (at_ptr s (fun k => leftover k new - weight k (claim ls)))
         (at_ptr (lease_peer ls) (fun k => leftover k new - weight k (claim ls))) h h' ->
  Inv (fun x => x = s /\ released new = true) settled h'.
Proof.
  intros HI Hl Ho Hs Hlp Hon Hcn Hle HL HB.
  destruct (inv_leases _ _ _ HI _ _ Hl) as [Hlive|(_ & ? & _)]; [|congruence].
  pose proof Hlive as [L1 L2 (s0 & st0 & Ho0 & Hs0 & Hsp & Ht)].
  assert (s0 = s) as -> by congruence. assert (st0 = st) as -> by congruence.
  assert (HsN : forall s' k, share k s' new = if decide (s' = s) then leftover k new else 0).
  { intros s' k. unfold share, leftover. rewrite Hon. destruct (released new), (decide (s' = s));
      repeat destruct (decide _); congruence. }
  assert (HpN : forall p k, peerShare k p new = if decide (p = lease_peer ls) then leftover k new else 0).
  { intros p' k. unfold peerShare, leftover. rewrite Hlp. destruct (released new);
      repeat destruct (decide _); naive_solver. }
  assert (HsO : forall s' k, share k s' ls = if decide (s' = s) then weight k (claim ls) else 0).
  { intros s' k. unfold share. rewrite Ho. repeat destruct (decide _); congruence. }
  assert (HpO : forall p k, peerShare k p ls = if decide (p = lease_peer ls) then weight k (claim ls) else 0).
  { intros p' k. unfold peerShare. repeat destruct (decide _); naive_solver. }
  assert (HB' : booked (fun s' k => share k s' new - oshare k s' (leases h !! l))
                       (fun p k => peerShare k p new - opeerShare k p (leases h !! l)) h h').
  { rewrite Hl. simpl. eapply booked_ext; [exact HB|..]; intros x k _; unfold at_ptr.
    - rewrite HsN, HsO. destruct (decide _); lia.
    - rewrite HpN, HpO. destruct (decide _); lia. }
  eapply Inv_weaken; [apply (Inv_rebook l new HI HB' HL)| |done].
  - destruct (released new) eqn:Hr; [right|left].
    + split; done.
    + split; [done|done|]. exists s, st. rewrite Hlp. done.
  - apply (within_booked _ _ _ _ HB).
    + intros s' st' Hs'. by rewrite (session_has_peer HI _ _ Hs').
    + intros s' st' k Hs'. pose proof (session_count_range HI _ _ k Hs'). specialize (Hle k).
      unfold at_ptr. destruct (decide _); lia.
    + intros p' ps' k Hp'. pose proof (peer_count_range HI _ _ k Hp'). specialize (Hle k).
      unfold at_ptr. destruct (decide _); lia.
  - intros x [[]|(ls' & Hl' & Ho' & Hn)]. assert (ls' = ls) as -> by congruence.
    assert (x = s) as -> by congruence. split; [done|]. rewrite Hon in Hn.
    by destruct (released new).
Qed.

(** The state of a live lease, as its operations see it. *)
Lemma live_view h l ls :
  Inv settled settled h -> leases h !! l = Some ls -> released ls = false ->
  exists s st, owner ls = Some s /\ ownerOf ls = s /\ sessions h !! s = Some st /\
    session_peer st = lease_peer ls /\ peers h !! lease_peer ls = Some (peer h (lease_peer ls)) /\
    in_u 64 (Claim_Bytes (claim ls)) /\
    Claim_Bytes (claim ls) <= Usage_Bytes (session_usage st) < 2 ^ 64 /\
    Claim_Bytes (claim ls) <= Usage_Bytes (peer_Usage (usage (peer h (lease_peer ls)))) < 2 ^ 64.
Proof.
  intros HI Hl Hr.
  destruct (inv_leases _ _ _ HI _ _ Hl) as [[_ Hb (s & st & Ho & Hs & Hp & _)]|(? & _)]; [|congruence].
  exists s, st. pose proof (session_has_peer HI _ _ Hs) as Hpe. rewrite Hp in Hpe.
  pose proof (lease_covered HI l ls s st KBytes Hl Ho Hs) as (_ & _ & H1 & H2).
  pose proof (lo_bytes _ (session_limits_ok HI _ _ Hs)). rewrite Hp in *.
  pose proof (session_count_range HI _ _ KBytes Hs) as H3. rewrite Hp in H3.
  pose proof (peer_count_range HI _ _ KBytes Hpe) as H4. simpl in *.
  unfold ownerOf, MaxRetainedBytes in *. rewrite Ho. repeat split; try done; lia.
Qed.

Lemma MarkAccepted_keeps h l ls :
  Inv settled settled h -> leases h !! l = Some ls ->
  Inv settled settled (snd (MarkAccepted (Some l) h)).
Proof.
  intros HI Hl. unfold MarkAccepted. rewrite (lease_lookup _ _ _ Hl).
  destruct (released ls) eqn:Hr; [done|].
  destruct (live_view h l ls HI Hl Hr) as (s & st & Ho & -> & Hs & Hsp & Hp & Hb & _).
  destruct (closed _ || _); [done|]. destruct (pendingHandshake _ || _); [done|].
  destruct (PendingAccept (claim ls)) eqn:Hpa; [|done]. simpl.
  eapply Inv_weaken; [eapply (reduce_keeps h _ l ls s st (with_claim _ ls)); eauto| |done]; simpl.
  - by rewrite Hr.
  - by rewrite Hr.
  - intros k. unfold leftover. simpl. rewrite Hr. destruct k; simpl; try lia. destruct (PendingAccept _); lia.
  - apply booked_lease_first with l (with_claim {| Claim_Bytes := Claim_Bytes (claim ls);
      BusinessStream := BusinessStream (claim ls); PendingAccept := false |} ls).
    eapply booked_pair; [done|done|..]; intros k; unfold leftover; simpl; rewrite Hr;
      destruct k; simpl; rewrite ?Hpa; lia.
  - rewrite Hr. by intros x [_ ?].
Qed.

Lemma ShrinkBytes_keeps h l ls n :
  Inv settled settled h -> leases h !! l = Some ls -> in_u 64 n ->
  Inv settled settled (snd (ShrinkBytes (Some l) n h)).
Proof.
  intros HI Hl [? ?]. unfold ShrinkBytes. rewrite (lease_lookup _ _ _ Hl).
  destruct (released ls) eqn:Hr; [done|].
  destruct (live_view h l ls HI Hl Hr) as (s & st & Ho & -> & Hs & Hsp & Hp & [? ?] & Hb1 & Hb2).
  destruct (_ <? n) eqn:En; [done|]. simpl.
  assert (u64 (Claim_Bytes (claim ls) - n) = Claim_Bytes (claim ls) - n) as ->
    by (apply wrap_small; unfold in_u; lia).
  eapply Inv_weaken; [eapply (reduce_keeps h _ l ls s st (with_claim _ ls)); eauto| |done]; simpl.
  - by rewrite Hr.
  - by rewrite Hr.
  - intros k. unfold leftover. simpl. rewrite Hr. destruct k; simpl; lia.
  - eapply booked_lease_first, booked_pair; [done|done|..]; intros k; unfold leftover; simpl; rewrite Hr;
      destruct k; simpl; try lia; unfold u64; rewrite wrap_small by (unfold in_u; lia); lia.
  - rewrite Hr. by intros x [_ ?].
Qed.

Lemma Release_keeps h l ls :
  Inv settled settled h -> leases h !! l = Some ls ->
  Inv settled settled (Release (Some l) h).
Proof.
  intros HI Hl. unfold Release. rewrite (lease_lookup _ _ _ Hl).
  destruct (released ls) eqn:Hr; [done|].
  destruct (live_view h l ls HI Hl Hr) as (s & st & Ho & -> & Hs & Hsp & Hp & [? ?] & Hb1 & Hb2).
  set (new := Build_leaseState _ _ _ _ _ _). set (h1 := setLease l new _).
  assert (HB : booked (at_ptr s (fun k => leftover k new - weight k (claim ls)))
                 (at_ptr (lease_peer ls) (fun k => leftover k new - weight k (claim ls))) h h1).
  { apply booked_lease_last. eapply (booked_pair s st); [done|done|..]; intros k; unfold leftover; simpl;
      rewrite count_subtractClaim by (unfold in_u; lia); lia. }
  assert (HI1 : Inv (fun x => x = s /\ released new = true) settled h1).
  { eapply (reduce_keeps h _ l ls s st new); eauto; try done.
    intros k. unfold leftover. simpl.
    by destruct (lease_covered HI l ls s st k Hl Ho Hs) as (_ & _ & [? _] & _). }
  destruct (both_some_l _ _ _ _ (bk_sessions _ _ _ _ HB s) Hs) as (st1 & Hs1 & Hp1 & _).
  rewrite <- Hsp, <- Hp1. eapply Inv_weaken; [apply (retire_keeps _ _ _ _ _ HI1 Hs1)| |done].
  intros x [[-> _] Hne]. by apply Hne.
Qed.

(** ** Binding and transferring a lease *)

Lemma BindBytes_keeps h s l ls n :
  Inv settled settled h -> leases h !! l = Some ls ->
  Inv settled settled (snd (BindBytes (Some s) (Some l) n h)).
Proof.
  intros HI Hl. unfold BindBytes. rewrite (lease_lookup _ _ _ Hl).
  destruct (_ || _); [done|]. destruct (negb _); [done|].
  destruct (closed _ || _); [done|]. destruct (pendingHandshake _); [done|].
  destruct (released ls) eqn:Hr; [done|]. destruct (_ || _); [done|]. simpl.
  destruct (live_view h l ls HI Hl Hr) as (s0 & st & Ho & _ & Hs & Hsp & Hp & Hb & _).
  set (new := Build_leaseState _ _ _ _ _ _).
  eapply Inv_weaken; [eapply (reduce_keeps h _ l ls s0 st new); eauto| |done]; simpl.
  - intros k. by unfold leftover.
  - eapply booked_ext; [by apply (booked_none h (setLease l new h))|..]; intros x k _;
      unfold at_ptr, leftover; simpl; destruct (decide _); lia.
  - by intros x [_ ?].
Qed.

Lemma msum_add {A} (f g : A -> Z) (m : gmap Ptr A) :
  msum (fun a => f a + g a) m = msum f m + msum g m.
Proof.
  induction m as [|k a m Hk IH] using map_ind; [done|]. rewrite !msum_insert by done. lia.
Qed.

(** Two Sessions of a Peer together stay within its usage. *)
Lemma session_pair_le_peer {lag late h} (HI : Inv lag late h) s st t tt k :
  sessions h !! s = Some st -> sessions h !! t = Some tt -> s <> t ->
  session_peer tt = session_peer st ->
  count k (session_usage st) + count k (session_usage tt)
    <= count k (peer_Usage (usage (peer h (session_peer st)))).
Proof.
  intros Hs Ht Hne Hp. rewrite (so_usage _ _ _ _ (inv_sessions _ _ _ HI _ _ Hs)).
  rewrite (so_usage _ _ _ _ (inv_sessions _ _ _ HI _ _ Ht)).
  rewrite (po_usage _ _ _ _ (inv_peers _ _ _ HI _ _ (session_has_peer HI _ _ Hs))).
  rewrite <- msum_add. apply msum_le. intros l ls Hl.
  pose proof (peerShare_nonneg HI k (session_peer st) _ _ Hl).
  destruct (decide (owner ls = Some s)) as [Ho|Ho].
  - rewrite (share_not _ t) by congruence. rewrite share_owner by done.
    destruct (lease_covered HI l ls s st k Hl Ho Hs) as (Hq & Hr & _). rewrite peerShare_live by done. lia.
  - rewrite (share_not _ s) by done. destruct (decide (owner ls = Some t)) as [Ho'|Ho'].
    + destruct (lease_covered HI l ls t tt k Hl Ho' Ht) as (Hq & Hr & _).
      rewrite share_owner by done. rewrite peerShare_live by congruence. lia.
    + by rewrite share_not.
Qed.

(** A moved lease fits its new owner: its Peer already carries it. *)
Lemma room_transfer {h} (HI : Inv settled settled h) l ls s st t tt k :
  leases h !! l = Some ls -> owner ls = Some s -> sessions h !! s = Some st ->
  sessions h !! t = Some tt -> s <> t -> session_peer tt = lease_peer ls ->
  in_u 64 (Claim_Bytes (claim ls)) ->
  checkSessionClaimLocked (peer h (lease_peer ls)) tt (claim ls) = None ->
  count k (session_usage tt) + weight k (claim ls)
    <= sessionCeil k (limits (peer h (lease_peer ls))).
Proof.
  intros Hl Ho Hs Ht Hne Htp Hb Hck.
  destruct (lease_covered HI l ls s st k Hl Ho Hs) as (Hsp & _ & [? Hw] & _).
  pose proof (session_pair_le_peer HI s st t tt k Hs Ht Hne) as Hpair.
  rewrite Hsp in Hpair. specialize (Hpair Htp).
  assert (Hpe : peers h !! lease_peer ls = Some (peer h (lease_peer ls)))
    by (rewrite <- Hsp; by eapply session_has_peer).
  pose proof (peer_count_range HI _ _ k Hpe) as [_ Hceil].
  pose proof (session_count_range HI _ _ k Ht) as [_ Hct].
  rewrite <- Htp in Hck. pose proof (room HI t tt _ Ht Hb Hck) as [Hr1 Hr2]. rewrite Htp in *.
  destruct k; simpl in *; try lia.
  destruct (BusinessStream (claim ls)); [|lia]. specialize (Hr2 eq_refl). lia.
Qed.

Lemma booked_transfer {h} s st t tt c :
  sessions h !! s = Some st -> sessions h !! t = Some tt -> s <> t ->
  in_u 64 (Usage_Bytes (session_usage st) - Claim_Bytes c) ->
  in_u 64 (Usage_Bytes (session_usage tt) + Claim_Bytes c) ->
  booked (fun x k => at_ptr s (fun k => - weight k c) x k + at_ptr t (fun k => weight k c) x k)
    (fun _ _ => 0) h
    (on_session_usage (fun u => addClaim u c) t (on_session_usage (fun u => subtractClaim u c) s h)).
Proof.
  intros Hs Ht Hne H1 H2. eapply booked_ext.
  - eapply booked_trans.
    + apply (booked_session_usage (fun u => subtractClaim u c) s st (fun k => - weight k c)); [done|].
      intros k. by apply count_subtractClaim.
    + apply (booked_session_usage (fun u => addClaim u c) t tt (fun k => weight k c)).
      * unfold on_session_usage. simpl. by rewrite lookup_insert_ne.
      * intros k. by apply count_addClaim.
  - done.
  - intros; simpl; lia.
Qed.

Lemma Transfer_keeps h l ls t tt :
  Inv settled settled h -> leases h !! l = Some ls -> sessions h !! t = Some tt ->
  Inv settled settled (snd (Transfer (Some l) (Some t) h)).
Proof.
  intros HI Hl Ht. unfold Transfer. rewrite (lease_lookup _ _ _ Hl), (session_lookup _ _ _ Ht).
  destruct (decide (session_peer tt = lease_peer ls)) as [Htp|];
    [rewrite bool_decide_true by done|by rewrite bool_decide_false].
  destruct (released ls) eqn:Hr; [done|]. destruct (closed tt || _) eqn:Ec; [done|].
  apply orb_false_elim in Ec as [Htc _].
  destruct (live_view h l ls HI Hl Hr) as (s & st & Ho & -> & Hs & Hsp & Hp & Hb & Hb1 & Hb2).
  destruct (decide (s = t)) as [->|Hne]; [by rewrite bool_decide_true|].
  rewrite bool_decide_false by done. destruct (bound ls); [done|].
  destruct (checkSessionClaimLocked _ _ _) eqn:Hck; [done|]. cbn [negb snd].
  pose proof (fun k => room_transfer HI l ls s st t tt k Hl Ho Hs Ht Hne Htp Hb Hck) as Hroom.
  pose proof (session_count_range HI _ _ KBytes Ht) as Hbt. pose proof (Hroom KBytes) as Hbr.
  pose proof (lo_bytes _ (session_limits_ok HI _ _ Ht)) as Hlo. rewrite Htp in Hlo. simpl in Hbt, Hbr.
  set (new := with_owner (Some t) ls). set (h1 := setLease l new _).
  assert (HB : booked (fun s' k => share k s' new - oshare k s' (leases h !! l))
                      (fun p k => peerShare k p new - opeerShare k p (leases h !! l)) h h1).
  { apply booked_lease_last. eapply booked_ext; [apply (booked_transfer s st t tt); try done|..].
    - destruct Hb. unfold in_u. lia.
    - destruct Hb. unfold in_u, MaxRetainedBytes in *. lia.
    - intros x k _. rewrite Hl. unfold at_ptr, oshare, share, new. simpl. rewrite Ho.
      repeat destruct (decide _); try congruence; lia.
    - intros x k _. rewrite Hl. simpl. unfold peerShare, new. simpl. lia. }
  assert (HI1 : Inv (fun x => settled x \/ lost l new (h := h) x) settled h1).
  { apply (Inv_rebook l new HI HB); [done|left|].
    - split; [done|done|]. exists t, tt. repeat split; try done.
      apply not_true_iff_false. intros [? _]%(so_retired _ _ _ _ (inv_sessions _ _ _ HI _ _ Ht)). congruence.
    - apply (within_booked _ _ _ _ HB).
      + intros s' st' Hs'. by rewrite (session_has_peer HI _ _ Hs').
      + intros x sx k Hx. rewrite Hl. simpl. pose proof (session_count_range HI _ _ k Hx).
        pose proof (share_nonneg HI k x _ _ Hl). destruct (decide (x = t)) as [->|].
        * assert (sx = tt) as -> by congruence. rewrite (share_owner k t new) by done.
          rewrite (share_not k t ls) by congruence. specialize (Hroom k). rewrite Htp. simpl. lia.
        * rewrite (share_not k x new) by (simpl; congruence). lia.
      + intros q qs k Hq. rewrite Hl. simpl. pose proof (peer_count_range HI _ _ k Hq).
        unfold peerShare, new. simpl. lia. }
  destruct (both_some_l _ _ _ _ (bk_sessions _ _ _ _ HB s) Hs) as (st1 & Hs1 & Hp1 & _).
  rewrite <- Hsp, <- Hp1. eapply Inv_weaken; [apply (retire_keeps _ _ _ _ _ HI1 Hs1)| |done].
  intros x [[[]|(ls' & Hl' & Ho' & _)] Hx]. apply Hx. congruence.
Qed.

(** ** Opening a Session *)

Lemma admit_charge p s pending c g ps :
  peers g !! p = Some ps ->
  admitSession p s pending (chargeLocked p s c g) = chargeLocked p s c (admitSession p s pending g).
Proof.
  intros Hp. unfold admitSession, chargeLocked, on_session_usage, on_peer_usage, setPeer, setSession,
    peer, session. simpl. by rewrite !lookup_total_insert_eq, !insert_insert_eq.
Qed.

Lemma begin_keeps h p ps c pending :
  Inv settled settled h -> peers h !! p = Some ps -> in_u 64 (Claim_Bytes c) ->
  Inv settled settled (snd (begin (Some p) c pending h)).
Proof.
  intros HI Hp Hc. unfold begin. rewrite (peer_lookup _ _ _ Hp).
  destruct (peer_Closed (usage ps)) eqn:Hpc; [done|].
  destruct (_ || _) eqn:E; [done|]. apply orb_false_elim in E as [E1%Z.eqb_neq E2].
  fold (newSession p pending). pose proof (alloc_fresh (sessions h)) as Hf.
  set (s := alloc (sessions h)) in *. set (st := newSession p pending) in *.
  assert (HI0 : Inv settled settled (admitSession p s pending (setSession s st h))).
  { apply (admit_keeps h s p ps pending); try done. intros ->. simpl in E2. by apply Z.eqb_neq. }
  destruct (empty c); [done|]. destruct (checkClaimLocked ps st c) eqn:Hck; [done|].
  set (g := setSession s st h) in *.
  assert (Hs : sessions (admitSession p s pending g) !! s = Some st) by apply lookup_insert_eq.
  pose proof (charge_keeps _ s st c HI0 Hs eq_refl Hc) as Hck'.
  unfold newLease in *. cbn [snd]. rewrite admit_charge with (ps := ps) by done.
  rewrite (session_lookup g s st) by apply lookup_insert_eq.
  rewrite (session_lookup _ s st Hs) in Hck'. apply Hck'.
  rewrite <- Hck. unfold checkClaimLocked, checkSessionClaimLocked, admitSession, peer. simpl.
  rewrite lookup_total_insert_eq. simpl.
  by rewrite (lookup_total_correct _ _ _ Hp : peers g !!! p = ps).
Qed.

Lemma Reserve_keeps h s st c :
  Inv settled settled h -> sessions h !! s = Some st -> in_u 64 (Claim_Bytes c) ->
  Inv settled settled (snd (Reserve (Some s) c h)).
Proof.
  intros HI Hs Hc. unfold Reserve. rewrite (session_lookup _ _ _ Hs).
  destruct (empty c); [done|]. destruct (closed st || _) eqn:E; [done|].
  apply orb_false_elim in E as [Hcl _].
  destruct (checkClaimLocked _ _ _) eqn:Hck; [done|].
  pose proof (charge_keeps h s st c HI Hs Hcl Hc Hck) as H. by destruct (newLease s c h).
Qed.

Lemma Session_Close_keeps h s st :
  Inv settled settled h -> sessions h !! s = Some st ->
  Inv settled settled (Session_Close (Some s) h).
Proof.
  intros HI Hs. unfold Session_Close. rewrite (session_lookup _ _ _ Hs).
  eapply Inv_weaken; [apply (closeMember_keeps _ _ _ _ _ HI Hs)|by intros x [[] _]..].
Qed.

(** ** Programs *)

Definition knownPeer (h : heap) (p : option Ptr) : Prop :=
  match p with Some p => is_Some (peers h !! p) | None => True end.
Definition knownSession (h : heap) (s : option Ptr) : Prop :=
  match s with Some s => is_Some (sessions h !! s) | None => True end.
Definition knownLease (h : heap) (l : option Ptr) : Prop :=
  match l with Some l => is_Some (leases h !! l) | None => True end.

(** The handles a Go program can hold, and values of the declared widths. *)
Definition op_typed (h : heap) (op : Op) : Prop :=
  match op with
  | OpNew lim => limits_typed lim
  | OpBeginHandshake p c | OpBeginSession p c => knownPeer h p /\ in_u 64 (Claim_Bytes c)
  | OpPromote s | OpSessionClose s => knownSession h s
  | OpReserve s c => knownSession h s /\ in_u 64 (Claim_Bytes c)
  | OpBindBytes s l n => knownSession h s /\ knownLease h l /\ in_u 64 n
  | OpTransfer l s => knownLease h l /\ knownSession h s
  | OpMarkAccepted l | OpRelease l => knownLease h l
  | OpShrinkBytes l n => knownLease h l /\ in_u 64 n
  | OpPeerClose p => knownPeer h p
  end.

Inductive reachable : heap -> Prop :=
| reach_init : reachable emptyHeap
| reach_step h op : reachable h -> op_typed h op -> reachable (snd (step h op)).

Lemma snd_step_result {A} (r : result CreditError A * heap) :
  snd (let '(x, h) := r in (errOf x, h)) = snd r.
Proof. by destruct r. Qed.

Lemma step_keeps h op :
  Inv settled settled h -> op_typed h op -> Inv settled settled (snd (step h op)).
Proof.
  intros HI Ht. destruct op; simpl step; rewrite ?snd_step_result; simpl in Ht.
  - by apply New_keeps.
  - destruct Ht as [Hk Hc], p; [destruct Hk; by eapply begin_keeps|done].
  - destruct Ht as [Hk Hc], p; [destruct Hk; by eapply begin_keeps|done].
  - destruct s; [destruct Ht; by eapply Promote_keeps|done].
  - destruct Ht as [Hk Hc], s; [destruct Hk; by eapply Reserve_keeps|done].
  - destruct Ht as (? & Hk & ?), s, l; try done. destruct Hk. by eapply BindBytes_keeps.
  - destruct Ht as [Hk Hk'], l, s; try done. destruct Hk, Hk'. by eapply Transfer_keeps.
  - destruct l; [destruct Ht; by eapply MarkAccepted_keeps|done].
  - destruct Ht as [Hk Hn], l; [destruct Hk; by eapply ShrinkBytes_keeps|done].
  - destruct l; [destruct Ht; by eapply Release_keeps|done].
  - destruct s; [destruct Ht; by eapply Session_Close_keeps|done].
  - destruct p; [destruct Ht; by eapply Peer_Close_keeps|done].
Qed.

Lemma reachable_Inv h : reachable h -> Inv settled settled h.
Proof.
  induction 1 as [|h op _ IH Ht]; [by split|by apply step_keeps].
Qed.
