(* ===== verification/CreditProps.v ===== *)
(** * Properties of the credit ledger

    Conservation and ceilings in every reachable heap, failure atomicity, exact
    admission, release, and what a closed Peer still owes. *)

From S2P Require Import Prelude Credit.

(** ** Double counting: a Peer's usage is the sum over its Sessions *)

Lemma msum_comm {A B} (f : A -> B -> Z) (m : gmap Ptr A) (n : gmap Ptr B) :
  msum (fun a => msum (f a) n) m = msum (fun b => msum (fun a => f a b) m) n.
Proof.
  induction m as [|k a m Hk IH] using map_ind.
  - symmetry. apply msum_zero. intros; apply msum_empty.
  - rewrite msum_insert, IH by done. rewrite <- msum_add. apply msum_ext.
    intros b y _. by rewrite msum_insert.
Qed.

(** A key-dependent sum, used to sum over the Sessions of a Peer by address. *)
Definition keyed {A} (m : gmap Ptr A) : gmap Ptr (Ptr * A) := map_imap (fun k a => Some (k, a)) m.

Lemma keyed_lookup {A} (m : gmap Ptr A) k : keyed m !! k = (fun a => (k, a)) <$> m !! k.
Proof. unfold keyed. rewrite map_lookup_imap. by destruct (m !! k). Qed.

Lemma msum_keyed {A} (f : A -> Z) (m : gmap Ptr A) : msum f m = msum (fun x => f (snd x)) (keyed m).
Proof.
  rewrite <- (msum_fmap snd f). f_equal. apply map_eq. intros k.
  rewrite lookup_fmap, keyed_lookup. by destruct (m !! k).
Qed.

Lemma msum_singleton {A} (f : A -> Z) (m : gmap Ptr A) k a :
  m !! k = Some a -> (forall j b, m !! j = Some b -> j <> k -> f b = 0) -> msum f m = f a.
Proof.
  intros Hk Hz. rewrite <- (insert_delete_id m k a Hk), msum_insert by apply lookup_delete_eq.
  rewrite msum_zero; [lia|]. intros j b [Hj Hb]%lookup_delete_Some. by apply (Hz j).
Qed.

Definition ofPeer (p : Ptr) (f : sessionState -> Z) (st : sessionState) : Z :=
  if decide (session_peer st = p) then f st else 0.

Lemma peer_is_sum_of_sessions h p ps k :
  Inv settled settled h -> peers h !! p = Some ps ->
  count k (peer_Usage (usage ps))
  = msum (ofPeer p (fun st => count k (session_usage st))) (sessions h).
Proof.
  intros HI Hp. rewrite (po_usage _ _ _ _ (inv_peers _ _ _ HI _ _ Hp)). rewrite (msum_keyed (ofPeer p _)).
  transitivity (msum (fun x => msum (fun ls => ofPeer p (fun _ => share k (fst x) ls) (snd x)) (leases h))
                     (keyed (sessions h))).
  - rewrite msum_comm. apply msum_ext. intros l ls Hl. symmetry.
    destruct (inv_leases _ _ _ HI _ _ Hl) as [[Hr _ (s & st & Ho & Hs & Hq & _)]|(Hr & Ho & _)].
    + rewrite (msum_singleton _ _ s (s, st)); [|by rewrite keyed_lookup, Hs|].
      * simpl. rewrite share_owner by done. unfold ofPeer, peerShare. rewrite Hq.
        repeat destruct (decide _); naive_solver.
      * intros j [j' sj] Hj Hne. rewrite keyed_lookup in Hj. simpl.
        destruct (sessions h !! j); [|done]. simpl in Hj. injection Hj as -> ->.
        unfold ofPeer. destruct (decide _); [|done]. apply share_not. congruence.
    + rewrite peerShare_not by congruence. apply msum_zero. intros j [j' sj] _. simpl.
      unfold ofPeer. destruct (decide _); [|done]. apply share_not. congruence.
  - apply msum_ext. intros s [s' st] Hs. rewrite keyed_lookup in Hs.
    destruct (sessions h !! s) as [st1|] eqn:Es; [|done]. simpl in Hs. injection Hs as <- <-. simpl.
    unfold ofPeer. destruct (decide _); [|by apply msum_zero].
    by rewrite (so_usage _ _ _ _ (inv_sessions _ _ _ HI _ _ Es)).
Qed.

Lemma retired_iff h s st :
  Inv settled settled h -> sessions h !! s = Some st ->
  (retired st = true <-> closed st = true /\
     forall l ls, leases h !! l = Some ls -> owner ls <> Some s).
Proof.
  intros HI Hs. pose proof (inv_sessions _ _ _ HI _ _ Hs) as [S1 S2 S3 S4 S5].
  pose proof (S2 KReservations) as HR. simpl in HR. split.
  - intros [Hc Hz]%S4. split; [done|]. intros l ls Hl Ho.
    pose proof (msum_member (share KReservations s) _ _ _
      (fun l ls H => share_nonneg HI KReservations s l ls H) Hl) as Hm.
    rewrite share_owner in Hm by done. simpl in Hm. lia.
  - intros [Hc Hno]. destruct S5; [done| |done|done].
    rewrite HR. apply msum_zero. intros l ls Hl. apply share_not. by eapply Hno.
Qed.

(** C23: Conservation and ceilings.  In every heap a program can reach, each Peer
    counter (bytes, reservations, streams, pending accepts) equals both the sum over
    its live leases and the sum over its Sessions and never exceeds its limit; each
    Session counter is the sum over the leases it owns and respects the per-Session
    limits; slots are held by exactly the Sessions that are open or still own a
    lease, and never exceed the limits. *)
Theorem reachable_conserves (h : heap) (Hr : reachable h) :
  (forall p ps, peers h !! p = Some ps ->
     (forall k, count k (peer_Usage (usage ps)) = msum (peerShare k p) (leases h) /\
                count k (peer_Usage (usage ps))
                  = msum (ofPeer p (fun st => count k (session_usage st))) (sessions h) /\
                0 <= count k (peer_Usage (usage ps)) <= peerCeil k (limits ps)) /\
     (forall x, slotCount x (usage ps) = msum (slotShare x p) (sessions h)) /\
     SessionSlots (usage ps) <= MaxSessions (limits ps) /\
     PendingHandshakes (usage ps) <= MaxPendingHandshakes (limits ps)) /\
  (forall s st, sessions h !! s = Some st ->
     (forall k, count k (session_usage st) = msum (share k s) (leases h) /\
                0 <= count k (session_usage st)
                  <= sessionCeil k (limits (peer h (session_peer st)))) /\
     (retired st = true <-> closed st = true /\
        forall l ls, leases h !! l = Some ls -> owner ls <> Some s)).
Proof.
  pose proof (reachable_Inv h Hr) as HI. split.
  - intros p ps Hp. pose proof (inv_peers _ _ _ HI _ _ Hp) as [P1 P2 P3 P4 P5 P6 P7].
    repeat split; try done; try apply P5.
    + by eapply peer_is_sum_of_sessions.
    + by eapply (peer_count_range HI).
  - intros s st Hs. pose proof (inv_sessions _ _ _ HI _ _ Hs) as [S1 S2 S3 S4 S5].
    split; [|by apply retired_iff]. intros k. split; [done|]. by eapply session_count_range.
Qed.

(** A failed call changes nothing: whenever an operation reports an error, the
    heap after it is the heap before it, for every error of every operation. *)
Theorem step_error_unchanged (h : heap) (op : Op) (e : CreditError)
    (He : fst (step h op) = Some e) : snd (step h op) = h.
Proof.
  destruct op as [lim|[p|] c|[p|] c|[s|]|[s|] c|[s|] [l|] n|[l|] [s|]|[l|]|[l|] n|[l|]|[s|]|[p|]];
    cbn [step] in *; unfold New, BeginHandshake, BeginSession, begin, Promote, Reserve, BindBytes,
      Transfer, MarkAccepted, ShrinkBytes, newLease in *; cbn beta iota zeta in *;
    repeat match goal with
    | H : context [if ?c then _ else _] |- _ => destruct c; cbn in *; try done
    | H : context [match ?c with Some _ => _ | None => _ end] |- _ => destruct c; cbn in *; try done
    end.
  all: try done; discriminate He.
Qed.

(** ** Exact admission *)

(** The claim fits: every ceiling holds with the claim added to the live leases. *)
Definition fits (h : heap) (s p : Ptr) (c : Claim) : Prop :=
  let lim := limits (peer h p) in
  msum (share KBytes s) (leases h) + Claim_Bytes c <= MaxSessionBytes lim /\
  (BusinessStream c = true ->
     msum (share KStreams s) (leases h) + 1 <= MaxStreamsPerSession lim) /\
  (forall k, msum (peerShare k p) (leases h) + weight k c <= peerCeil k lim).

Lemma checkClaim_fits h s st c :
  Inv settled settled h -> sessions h !! s = Some st -> in_u 64 (Claim_Bytes c) ->
  checkClaimLocked (peer h (session_peer st)) st c = None <-> fits h s (session_peer st) c.
Proof.
  intros HI Hs Hc. pose proof (session_has_peer HI _ _ Hs) as Hp.
  pose proof (so_usage _ _ _ _ (inv_sessions _ _ _ HI _ _ Hs)) as Hsu.
  pose proof (po_usage _ _ _ _ (inv_peers _ _ _ HI _ _ Hp)) as Hpu.
  split; [intros Hck; unfold fits; rewrite <- !Hsu; split_and!|].
  - exact (proj1 (room_peer HI s st c KBytes Hs Hc Hck)).
  - intros Hb. pose proof (proj1 (room_peer HI s st c KStreams Hs Hc Hck)) as H. simpl in *. by rewrite Hb in H.
  - intros k. rewrite <- Hpu. exact (proj2 (room_peer HI s st c k Hs Hc Hck)).
  - unfold fits. rewrite <- !Hsu. intros (F1 & F2 & F3). destruct Hc as [Hc1 Hc2].
    pose proof (session_count_range HI _ _ KBytes Hs) as [B1 _].
    pose proof (peer_count_range HI _ _ KBytes Hp) as [B2 _].
    pose proof (lo_bytes _ (session_limits_ok HI _ _ Hs)) as Hlo.
    assert (G : forall k, _) by (intros k; specialize (F3 k); rewrite <- Hpu in F3; exact F3).
    pose proof (G KBytes) as G1. pose proof (G KReservations) as G2.
    pose proof (G KStreams) as G3. pose proof (G KAccepts) as G4. simpl in *.
    unfold checkClaimLocked, checkSessionClaimLocked, u64, MaxRetainedBytes in *.
    rewrite !wrap_small by (unfold in_u; lia).
    destruct (BusinessStream c), (PendingAccept c); simpl in *;
      try specialize (F2 eq_refl);
      rewrite ?orb_false_r, ?(proj2 (Z.ltb_ge _ _)), ?(proj2 (Z.eqb_neq _ _)) by lia; done.
Qed.

(** Admission is exact.  On an open Session of an open Peer, [Reserve] of a
    nonempty claim succeeds exactly when the live leases plus the claim stay within
    every per-Session and per-Peer limit; it then adds one fresh live lease holding
    precisely that claim and touches no other lease, and otherwise it reports the
    resource limit and changes nothing. *)
Theorem Reserve_exact (h : heap) (s : Ptr) (st : sessionState) (c : Claim)
    (Hr : reachable h) (Hs : sessions h !! s = Some st) (Hc : in_u 64 (Claim_Bytes c))
    (Hopen : closed st = false /\ peer_Closed (usage (peer h (session_peer st))) = false)
    (Hne : empty c = false) :
  (fits h s (session_peer st) c /\
   exists l h', Reserve (Some s) c h = (Ok l, h') /\ leases h !! l = None /\
     leases h' = <[l := {| lease_peer := session_peer st; owner := Some s; claim := c;
                           acceptReserved := PendingAccept c; bound := false;
                           released := false |}]> (leases h)) \/
  (~ fits h s (session_peer st) c /\ Reserve (Some s) c h = (Err ErrResourceLimit, h)).
Proof.
  pose proof (reachable_Inv h Hr) as HI. pose proof (checkClaim_fits h s st c HI Hs Hc) as Hfit.
  unfold Reserve. rewrite (session_lookup _ _ _ Hs), Hne.
  destruct Hopen as [-> ->]. cbn [orb].
  destruct (checkClaimLocked _ _ _) as [e|] eqn:Hck; [right|left].
  - split; [intros Hf%Hfit; congruence|]. f_equal. f_equal. revert Hck.
    unfold checkClaimLocked, checkSessionClaimLocked. go_case; congruence.
  - split; [by apply Hfit|]. do 2 eexists. unfold newLease. rewrite (session_lookup _ _ _ Hs).
    split; [done|]. split; [apply alloc_fresh|done].
Qed.

(** ** Release *)

Lemma retireLocked_leases p s h : leases (retireLocked p s h) = leases h.
Proof. unfold retireLocked. by destruct (_ || _ || _). Qed.

Lemma retireLocked_peers p s h q : is_Some (peers h !! q) -> is_Some (peers (retireLocked p s h) !! q).
Proof.
  intros Hq. unfold retireLocked. destruct (_ || _ || _); [done|]. simpl.
  apply lookup_insert_is_Some. destruct (decide (p = q)); auto.
Qed.

Definition spent (ls : leaseState) : leaseState := {|
  lease_peer := lease_peer ls; owner := None; claim := zeroClaim;
  acceptReserved := acceptReserved ls; bound := bound ls; released := true |}.

Lemma Release_leases h l ls :
  leases h !! l = Some ls -> released ls = false ->
  leases (Release (Some l) h) = <[l := spent ls]> (leases h).
Proof.
  intros Hl Hr. unfold Release. rewrite (lease_lookup _ _ _ Hl), Hr. by rewrite retireLocked_leases.
Qed.

(** Release gives back exactly the claim, once.  Releasing a live lease lowers
    every Peer counter by what that lease held (its whole weight), clears the lease
    and leaves every other lease alone; releasing it again changes nothing. *)
Theorem Release_exact (h : heap) (l : Ptr) (ls : leaseState)
    (Hr : reachable h) (Hl : leases h !! l = Some ls) (Hlive : released ls = false) :
  let h' := Release (Some l) h in
  leases h' = <[l := spent ls]> (leases h) /\
  (forall k, count k (peer_Usage (usage (peer h' (lease_peer ls))))
             = count k (peer_Usage (usage (peer h (lease_peer ls)))) - weight k (claim ls)) /\
  Release (Some l) h' = h'.
Proof.
  intros h'. pose proof (reachable_Inv h Hr) as HI.
  pose proof (Release_keeps h l ls HI Hl) as HI'. fold h' in HI'.
  pose proof (Release_leases h l ls Hl Hlive) as HL. fold h' in HL.
  destruct (live_view h l ls HI Hl Hlive) as (s & st & Ho & _ & Hs & Hsp & Hp & _).
  split; [done|]. split.
  - intros k.
    assert (Hp' : is_Some (peers h' !! lease_peer ls)).
    { unfold h', Release. rewrite (lease_lookup _ _ _ Hl), Hlive. apply retireLocked_peers. simpl.
      rewrite lookup_insert_eq. eauto. }
    destruct Hp' as [ps' Hp']. rewrite (peer_lookup _ _ _ Hp').
    rewrite (po_usage _ _ _ _ (inv_peers _ _ _ HI' _ _ Hp')).
    rewrite (po_usage _ _ _ _ (inv_peers _ _ _ HI _ _ Hp)).
    rewrite HL, (msum_update _ _ _ ls) by done. rewrite (peerShare_live k _ ls) by done.
    rewrite (peerShare_not k _ (spent ls)) by done. lia.
  - assert (Hl' : leases h' !! l = Some (spent ls)) by (rewrite HL; apply lookup_insert_eq).
    unfold Release. by rewrite (lease_lookup _ _ _ Hl').
Qed.

(** C34: A closed Peer drains.  Once a Peer is closed and every lease taken from it
    has been released, in whatever order, its ledger is empty: all four usage
    counters and all three Session counters are zero, no Session is left in its set,
    and every Session it ever had is retired. *)
Theorem closed_peer_drains (h : heap) (p : Ptr) (ps : peerState)
    (Hr : reachable h) (Hp : peers h !! p = Some ps) (Hc : peer_Closed (usage ps) = true)
    (Hall : forall l ls, leases h !! l = Some ls -> lease_peer ls = p -> released ls = true) :
  usage ps = {| peer_Usage := zeroUsage; SessionSlots := 0; PendingHandshakes := 0;
                EstablishedSessions := 0; peer_Closed := true |} /\
  members ps = ∅ /\
  forall s st, sessions h !! s = Some st -> session_peer st = p -> retired st = true.
Proof.
  pose proof (reachable_Inv h Hr) as HI. pose proof (inv_peers _ _ _ HI _ _ Hp) as [P1 P2 P3 P4 P5 P6 P7].
  assert (Hret : forall s st, sessions h !! s = Some st -> session_peer st = p -> retired st = true).
  { intros s st Hs Hsp. apply (retired_iff h s st HI Hs). split.
    - by destruct (P7 Hc s st Hs Hsp) as [|[]].
    - intros l ls Hl Ho. destruct (inv_leases _ _ _ HI _ _ Hl) as [[H1 _ (s1 & st1 & ? & ? & ? & _)]|(_ & ? & _)];
        [|congruence]. specialize (Hall l ls Hl). rewrite Hall in H1; [done|congruence]. }
  split; [|split; [|done]].
  - assert (Hu : forall k, count k (peer_Usage (usage ps)) = 0).
    { intros k. rewrite P2. apply msum_zero. intros l ls Hl. apply peerShare_not.
      intros Hrl Hlp. rewrite (Hall l ls Hl Hlp) in Hrl. done. }
    assert (Hx : forall x, slotCount x (usage ps) = 0).
    { intros x. rewrite P4. apply msum_zero. intros s st Hs. unfold slotShare.
      rewrite decide_False; [done|]. intros [Hsp Ht]. rewrite (Hret s st Hs Hsp) in Ht. done. }
    pose proof (Hu KBytes). pose proof (Hu KReservations). pose proof (Hu KStreams).
    pose proof (Hu KAccepts). pose proof (Hx SlotAny). pose proof (Hx SlotPending).
    pose proof (Hx SlotEstablished).
    destruct (usage ps) as [[? ? ? ?] ? ? ? ?]. simpl in *. subst. reflexivity.
  - apply set_eq. intros s. rewrite P6. split; [|set_solver].
    intros (st & Hs & Hsp & Ht). rewrite (Hret s st Hs Hsp) in Ht. done.
Qed.

(** ** Leases over time *)

(** What any later state of a lease may differ in. *)
Record lease_later (ls ls' : leaseState) : Prop := {
  la_peer : lease_peer ls' = lease_peer ls;
  la_released : released ls = true -> ls' = ls;
  la_shrinks : forall k, leftover k ls' <= leftover k ls;
  la_bound : bound ls = true -> bound ls' = true /\ (owner ls' = owner ls \/ released ls' = true) }.

Lemma lease_later_refl ls : lease_later ls ls.
Proof. split; auto. intros; lia. Qed.

Lemma lease_later_set h l0 ls0 new l ls :
  leases h !! l0 = Some ls0 -> lease_later ls0 new -> leases h !! l = Some ls ->
  exists ls', <[l0 := new]> (leases h) !! l = Some ls' /\ lease_later ls ls'.
Proof.
  intros H0 Hlater Hl. destruct (decide (l = l0)) as [->|].
  - rewrite lookup_insert_eq. exists new. split; [done|]. congruence.
  - rewrite lookup_insert_ne by done. exists ls. split; [done|apply lease_later_refl].
Qed.

Lemma fresh_later h new l ls :
  leases h !! l = Some ls ->
  exists ls', <[alloc (leases h) := new]> (leases h) !! l = Some ls' /\ lease_later ls ls'.
Proof.
  intros Hl. rewrite lookup_insert_ne; [exists ls; split; [done|apply lease_later_refl]|].
  intros <-. by rewrite alloc_fresh in Hl.
Qed.

Lemma closeMember_leases p s h : leases (closeMember p s h) = leases h.
Proof. unfold closeMember. by rewrite retireLocked_leases. Qed.

Lemma closeAll_leases p xs h : leases (fold_left (fun h s => closeMember p s h) xs h) = leases h.
Proof. revert h. induction xs as [|x xs IH]; intros h; [done|]. simpl. by rewrite IH, closeMember_leases. Qed.

Lemma leases_same h h' l ls :
  leases h' = leases h -> leases h !! l = Some ls ->
  exists ls', leases h' !! l = Some ls' /\ lease_later ls ls'.
Proof. intros -> Hl. exists ls. split; [done|apply lease_later_refl]. Qed.

Lemma begin_later p c pending h l ls :
  leases h !! l = Some ls ->
  exists ls', leases (snd (begin (Some p) c pending h)) !! l = Some ls' /\ lease_later ls ls'.
Proof.
  intros Hl. unfold begin. destruct (peer_Closed _); [by apply (leases_same h)|].
  destruct (_ || _); [by apply (leases_same h)|].
  destruct (if empty c then _ else _); [by apply (leases_same h)|].
  destruct (empty c); [by apply (leases_same h)|]. by apply fresh_later.
Qed.

Lemma weight_nonneg' h l ls k :
  Inv settled settled h -> leases h !! l = Some ls -> released ls = false -> 0 <= weight k (claim ls).
Proof.
  intros HI Hl Hr. destruct (inv_leases _ _ _ HI _ _ Hl) as [Hv|(? & _)]; [|congruence].
  by eapply weight_nonneg.
Qed.

Lemma lease_op_later h l0 ls0 op l ls :
  Inv settled settled h -> leases h !! l0 = Some ls0 ->
  (exists n, in_u 64 n /\ op = OpShrinkBytes (Some l0) n) \/ op = OpMarkAccepted (Some l0) \/
  op = OpRelease (Some l0) \/ (exists s, op = OpTransfer (Some l0) (Some s)) \/
  (exists s n, op = OpBindBytes (Some s) (Some l0) n) ->
  leases h !! l = Some ls ->
  exists ls', leases (snd (step h op)) !! l = Some ls' /\ lease_later ls ls'.
Proof.
  intros HI H0 Hop Hl. pose proof (fun k => weight_nonneg' h l0 ls0 k HI H0) as Hw.
  destruct Hop as [(n & Hn & ->)|[->|[->|[(s & ->)|(s & n & ->)]]]]; cbn [step];
    rewrite ?snd_step_result;
    unfold ShrinkBytes, MarkAccepted, Release, Transfer, BindBytes; rewrite (lease_lookup _ _ _ H0).
  - destruct (released ls0) eqn:Hr; [by apply (leases_same h)|].
    destruct (_ <? n) eqn:En; [by apply (leases_same h)|]. eapply lease_later_set; [done| |done].
    split; simpl; try done; try auto; try congruence.
    intros k. unfold leftover; simpl. rewrite Hr. destruct k; simpl; lia.
  - destruct (released ls0) eqn:Hr; [by apply (leases_same h)|].
    do 2 (destruct (_ || _); [by apply (leases_same h)|]).
    destruct (PendingAccept _) eqn:Hpa; [|by apply (leases_same h)]. eapply lease_later_set; [done| |done].
    split; simpl; try done; try auto; try congruence.
    intros k. unfold leftover; simpl. rewrite Hr. destruct k; simpl; rewrite ?Hpa; lia.
  - destruct (released ls0) eqn:Hr; [by apply (leases_same h)|]. cbn [snd]. rewrite retireLocked_leases.
    eapply lease_later_set; [done| |done]. split; simpl; auto; try congruence.
    intros k. unfold leftover; simpl. rewrite Hr. by apply Hw.
  - destruct (negb _); [by apply (leases_same h)|].
    destruct (released ls0) eqn:Hr; [by apply (leases_same h)|].
    destruct (_ || _); [by apply (leases_same h)|]. destruct (bool_decide _); [by apply (leases_same h)|].
    destruct (bound ls0) eqn:Hb; [by apply (leases_same h)|].
    destruct (checkSessionClaimLocked _ _ _); [by apply (leases_same h)|].
    cbn [snd]. rewrite retireLocked_leases. eapply lease_later_set; [done| |done].
    split; simpl; auto; try congruence; intros k; unfold leftover; simpl; lia.
  - destruct (_ || _); [by apply (leases_same h)|]. destruct (negb _); [by apply (leases_same h)|].
    destruct (_ || _); [by apply (leases_same h)|]. destruct (pendingHandshake _); [by apply (leases_same h)|].
    destruct (released ls0) eqn:Hr; [by apply (leases_same h)|].
    destruct (_ || _); [by apply (leases_same h)|]. eapply lease_later_set; [done| |done].
    split; simpl; auto; try congruence;
      intros; unfold leftover; simpl; rewrite ?Hr; lia.
Qed.

(** Leases only give back.  Across any operation a lease keeps its Peer; once
    released it never changes again; none of the four quantities it holds ever grows;
    and once dedicated to a storage owner by [BindBytes] it stays bound and stays with
    that Session until it is released. *)
Theorem leases_only_give_back (h : heap) (op : Op) (l : Ptr) (ls : leaseState)
    (Hr : reachable h) (Ht : op_typed h op) (Hl : leases h !! l = Some ls) :
  exists ls', leases (snd (step h op)) !! l = Some ls' /\ lease_later ls ls'.
Proof.
  pose proof (reachable_Inv h Hr) as HI.
  destruct op as [lim|[p|] c|[p|] c|[s|]|[s|] c|[s|] [l0|] n|[l0|] [s|]|[l0|]|[l0|] n|[l0|]|[s|]|[p|]];
    try (by apply (leases_same h)); simpl in Ht.
  - cbn [step]. rewrite snd_step_result. unfold New. go_case; by apply (leases_same h).
  - cbn [step]. rewrite snd_step_result. by apply begin_later.
  - cbn [step]. rewrite snd_step_result. by apply begin_later.
  - cbn [step]. unfold Promote. go_case; by apply (leases_same h).
  - cbn [step]. rewrite snd_step_result. unfold Reserve. destruct (empty c); [by apply (leases_same h)|].
    destruct (_ || _); [by apply (leases_same h)|].
    destruct (checkClaimLocked _ _ _); [by apply (leases_same h)|]. by apply fresh_later.
  - destruct Ht as (_ & [ls0 H0] & _). apply (lease_op_later h l0 ls0); [done|done|naive_solver|done].
  - destruct Ht as [[ls0 H0] _]. apply (lease_op_later h l0 ls0); [done|done|naive_solver|done].
  - destruct Ht as [ls0 H0]. apply (lease_op_later h l0 ls0); [done|done|naive_solver|done].
  - destruct Ht as [[ls0 H0] Hn]. apply (lease_op_later h l0 ls0); [done|done|naive_solver|done].
  - destruct Ht as [ls0 H0]. apply (lease_op_later h l0 ls0); [done|done|naive_solver|done].
  - apply (leases_same h); [|done]. cbn [step snd]. unfold Session_Close. by rewrite retireLocked_leases.
  - apply (leases_same h); [|done]. cbn [step snd]. unfold Peer_Close. destruct (peer_Closed _); [done|].
    by rewrite closeAll_leases.
Qed.

(** ** Witnesses *)

Definition exec (h : heap) (ops : list Op) : heap := fold_left (fun h op => snd (step h op)) ops h.

Fixpoint typed_run (h : heap) (ops : list Op) : Prop :=
  match ops with
  | [] => True
  | op :: ops => op_typed h op /\ typed_run (snd (step h op)) ops
  end.

Lemma exec_reachable ops : forall h, reachable h -> typed_run h ops -> reachable (exec h ops).
Proof.
  induction ops as [|op ops IH]; intros h Hr Ht; [done|]. destruct Ht as [Ht1 Ht2].
  apply IH; [|done]. by apply reach_step.
Qed.

Definition demoLimits : Limits := {|
  MaxPeerBytes := 1000; MaxSessionBytes := 600; MaxSessions := 2; MaxPendingHandshakes := 1;
  MaxPendingAccepts := 2; MaxStreamsPerSession := 1; MaxPeerStreams := 2; MaxReservations := 8 |}.
Definition demoClaim : Claim :=
  {| Claim_Bytes := 400; BusinessStream := true; PendingAccept := true |}.
Definition storage : Claim :=
  {| Claim_Bytes := 200; BusinessStream := false; PendingAccept := false |}.

(** A Peer (address 1) with a promoted Session (1), a handshake (2), a stream lease,
    a storage lease bound to Session 1, and a lease accepted then shrunk. *)
Definition demoOps : list Op := [
  OpNew demoLimits; OpBeginHandshake (Some 1%positive) demoClaim; OpPromote (Some 1%positive);
  OpBeginHandshake (Some 1%positive) storage; OpReserve (Some 1%positive) storage;
  OpMarkAccepted (Some 1%positive); OpBindBytes (Some 1%positive) (Some 3%positive) 100;
  OpShrinkBytes (Some 1%positive) 300 ].
Definition demo : heap := exec emptyHeap demoOps.

Lemma demo_reachable : reachable demo.
Proof.
  apply exec_reachable; [apply reach_init|].
  repeat split; vm_compute; first [discriminate | eexists; reflexivity].
Qed.

Example demo_usage :
  usage (peer demo 1%positive) =
  {| peer_Usage := {| Usage_Bytes := 700; Reservations := 3; BusinessStreams := 1; PendingAccepts := 0 |};
     SessionSlots := 2; PendingHandshakes := 1; EstablishedSessions := 1; peer_Closed := false |}.
Proof. vm_compute. reflexivity. Qed.

Lemma reachable_conserves_witness :
  reachable demo /\ exists ps, peers demo !! 1%positive = Some ps /\
    count KBytes (peer_Usage (usage ps)) = msum (peerShare KBytes 1%positive) (leases demo).
Proof.
  split; [exact demo_reachable|].
  destruct (peers demo !! 1%positive) as [ps|] eqn:E; [|vm_compute in E; discriminate].
  exists ps. split; [reflexivity|].
  exact (proj1 (proj1 (proj1 (reachable_conserves demo demo_reachable) _ _ E) KBytes)).
Defined.

Lemma step_error_unchanged_witness :
  fst (step demo (OpReserve (Some 1%positive) demoClaim)) = Some ErrResourceLimit /\
  snd (step demo (OpReserve (Some 1%positive) demoClaim)) = demo.
Proof.
  split; [vm_compute; reflexivity|].
  apply (step_error_unchanged _ _ ErrResourceLimit). vm_compute. reflexivity.
Defined.

Lemma Reserve_exact_witness :
  let st := session demo 1%positive in
  (fits demo 1%positive (session_peer st) storage /\
   exists l h', Reserve (Some 1%positive) storage demo = (Ok l, h') /\ leases demo !! l = None /\
     leases h' = <[l := {| lease_peer := session_peer st; owner := Some 1%positive; claim := storage;
                           acceptReserved := false; bound := false; released := false |}]> (leases demo)) \/
  (~ fits demo 1%positive (session_peer st) storage /\
   Reserve (Some 1%positive) storage demo = (Err ErrResourceLimit, demo)).
Proof.
  apply (Reserve_exact demo 1%positive (session demo 1%positive) storage demo_reachable);
    [vm_compute; reflexivity|split; vm_compute; congruence|split; vm_compute; reflexivity|reflexivity].
Defined.

Lemma Release_exact_witness :
  let h' := Release (Some 1%positive) demo in
  leases h' = <[1%positive := spent (lease demo 1%positive)]> (leases demo) /\
  (forall k, count k (peer_Usage (usage (peer h' (lease_peer (lease demo 1%positive)))))
             = count k (peer_Usage (usage (peer demo (lease_peer (lease demo 1%positive)))))
               - weight k (claim (lease demo 1%positive))) /\
  Release (Some 1%positive) h' = h'.
Proof.
  apply (Release_exact demo 1%positive (lease demo 1%positive) demo_reachable); vm_compute; reflexivity.
Defined.

Definition demoDrain : list Op := [
  OpPeerClose (Some 1%positive); OpRelease (Some 3%positive); OpRelease (Some 1%positive);
  OpRelease (Some 2%positive)].
Definition drained : heap := exec demo demoDrain.

Lemma drained_reachable : reachable drained.
Proof.
  apply exec_reachable; [apply demo_reachable|].
  repeat split; vm_compute; eexists; reflexivity.
Qed.

Lemma closed_peer_drains_witness :
  peer_Closed (usage (peer demo 1%positive)) = false /\
  usage (peer drained 1%positive) =
    {| peer_Usage := zeroUsage; SessionSlots := 0; PendingHandshakes := 0;
       EstablishedSessions := 0; peer_Closed := true |}.
Proof.
  split; [vm_compute; reflexivity|].
  apply (closed_peer_drains drained 1%positive (peer drained 1%positive) drained_reachable);
    [vm_compute; reflexivity|vm_compute; reflexivity|].
  assert (Hall : map_Forall (fun _ ls => released ls = true) (leases drained))
    by (refine (bool_decide_eq_true_1 _ _); vm_compute; reflexivity).
  intros l ls Hl _. exact (Hall l ls Hl).
Defined.

Lemma leases_only_give_back_witness :
  exists ls', leases (snd (step demo (OpTransfer (Some 3%positive) (Some 2%positive)))) !! 3%positive = Some ls' /\
    lease_later (lease demo 3%positive) ls'.
Proof.
  apply (leases_only_give_back demo); [exact demo_reachable| |vm_compute; reflexivity].
  split; vm_compute; eexists; reflexivity.
Defined.
