(* ===== verification/WireV2.v ===== *)
(** * The v2 packet envelope and handshake codec ([internal/wirev2])

    Framing, authentication, the fixed-size handshake with its TLVs, routes and
    encoding contexts.  Packets are byte lists, fields are [Z] at their width,
    fixed arrays are byte lists of that length ([Header_wf] and its likes state
    what the Go types guarantee). *)

From S2P Require Import Prelude Sha256.

(** ** Constants *)

Definition Magic : bytes := map byte_of_Z [0x4d; 0x50; 0x55; 0x44].
Definition Version : Z := 2.
Definition PrefixSize : Z := 24.
Definition AuthenticationTagSize : Z := 32.
Definition EnvelopeOverhead : Z := PrefixSize + AuthenticationTagSize.
Definition RouteSize : Z := 16.
Definition TypedBodyOverhead : Z := EnvelopeOverhead + RouteSize.
Definition MaxUDPPayload : Z := 65507.
Definition MaxBodySize : Z := MaxUDPPayload - EnvelopeOverhead.
Definition HandshakePacketSize : Z := 512.
Definition HandshakeBodySize : Z := HandshakePacketSize - EnvelopeOverhead.
Definition HandshakeFixedSize : Z := 84.
Definition MaxTLVBytes : Z := HandshakeBodySize - HandshakeFixedSize.
Definition MaxTLVs : Z := 16.

Definition TypeHello : Z := 1.
Definition TypeChallenge : Z := 2.
Definition TypeFinish : Z := 3.
Definition TypeReady : Z := 4.
Definition TypeReject : Z := 5.
Definition TypePathJoin : Z := 16.
Definition TypePathReady : Z := 19.
Definition TypeEncodingContext : Z := 27.
Definition TypeEncodingContextAck : Z := 28.
Definition TypeFECBundle : Z := 32.
Definition TypeDatagramExpired : Z := 38.
Definition TypeKCPBundle : Z := 48.
Definition TypeClose : Z := 63.

Definition IsHandshake (t : Z) : bool := (TypeHello <=? t) && (t <=? TypeReject).

Definition knownPacketType (t : Z) : bool :=
  IsHandshake t || ((TypePathJoin <=? t) && (t <=? TypeEncodingContextAck))
  || ((TypeFECBundle <=? t) && (t <=? TypeDatagramExpired))
  || (t =? TypeKCPBundle) || (t =? TypeClose).

Definition TLVProtocol : Z := 0x8001.
Definition TLVCapabilities : Z := 0x8002.
Definition TLVLayout : Z := 0x8003.
Definition TLVFEC : Z := 0x8004.
Definition TLVMux : Z := 0x8005.
Definition TLVMTUStrategy : Z := 0x8006.
Definition TLVPayloadLimits : Z := 0x8007.
Definition TLVDatagramLimits : Z := 0x8008.
Definition TLVRepair : Z := 0x8009.
Definition TLVStreamLimits : Z := 0x800a.
Definition TLVEpochLimits : Z := 0x800b.
Definition TLVPaths : Z := 0x800c.
Definition TLVError : Z := 0x800d.

(** [tlvLength]: the registered length, if the type is registered. *)
Definition tlvLength (t : Z) : option Z :=
  if t =? TLVProtocol then Some 1 else
  if t =? TLVCapabilities then Some 16 else
  if (t =? TLVLayout) || (t =? TLVFEC) || (t =? TLVMux) || (t =? TLVMTUStrategy) then Some 2 else
  if (t =? TLVPayloadLimits) || (t =? TLVRepair) || (t =? TLVEpochLimits) then Some 8 else
  if t =? TLVDatagramLimits then Some 20 else
  if t =? TLVStreamLimits then Some 28 else
  if (t =? TLVPaths) || (t =? TLVError) then Some 4 else None.

(** ** Errors (of the whole package) *)

Inductive WireError :=
| ErrMalformed | ErrUnsupportedVersion | ErrUnknownPacketType | ErrAuthentication
| ErrInvalidSessionID | ErrPacketTooLarge | ErrInvalidKey | ErrInvalidTLV | ErrRequiredTLV
| ErrTranscript | ErrInvalidRoute | ErrInvalidPayloadLimit
| ErrInvalidContext | ErrContextUnavailable | ErrContextAck | ErrInvalidFECBundle.
#[global] Instance WireError_eq_dec : EqDecision WireError.
Proof. solve_decision. Defined.

(** ** Data *)

Definition SessionID := bytes.
Definition Nonce := bytes.
Definition Digest := bytes.
Definition Key := bytes.
Definition zero16 : bytes := replicate 16 Byte.x00.
Definition zero32 : bytes := replicate 32 Byte.x00.

Record Header := { Header_Type : Z; Header_SessionID : SessionID }.
Definition zeroHeader : Header := {| Header_Type := 0; Header_SessionID := zero16 |}.

Record Envelope := { packet : bytes; header : Header }.
Record AuthenticatedEnvelope := { envelope : Envelope; verified : bool }.

Definition AuthenticatedEnvelope_Header (e : AuthenticatedEnvelope) : Header := header (envelope e).
Definition Body (e : AuthenticatedEnvelope) : bytes :=
  if verified e
  then slice 24 (length (packet (envelope e)) - 32) (packet (envelope e)) else [].

Record TLV := { TLV_Type : Z; TLV_Value : bytes }.

Record Handshake := {
  Handshake_Header : Header;
  ClientNonce : Nonce;
  ServerNonce : Nonce;
  TranscriptDigest : Digest;
  ReturnPathToken : Nonce;
  TLVs : list TLV }.

(** ** The envelope *)

Definition validateEnvelope (h : Header) (bodySize : Z) : option WireError :=
  if negb (knownPacketType (Header_Type h)) then Some ErrUnknownPacketType else
  if decide (Header_SessionID h = zero16) then Some ErrInvalidSessionID else
  if MaxBodySize <? bodySize then Some ErrPacketTooLarge else
  if (IsHandshake (Header_Type h) && negb (bodySize =? HandshakeBodySize))
     || (negb (IsHandshake (Header_Type h)) && (bodySize <? RouteSize))
  then Some ErrMalformed else None.

Definition ParseEnvelope (p : bytes) : result WireError Envelope :=
  fail MaxUDPPayload <? len p with ErrPacketTooLarge in
  fail (len p <? EnvelopeOverhead) || negb (bool_decide (slice 0 4 p = Magic)) with ErrMalformed in
  fail negb (byte_at 4 p =? Version) with ErrUnsupportedVersion in
  let h := {| Header_Type := byte_at 5 p; Header_SessionID := slice 8 24 p |} in
  let bodySize := be_get (slice 6 8 p) in
  fail negb (bodySize + EnvelopeOverhead =? len p) with ErrMalformed in
  check validateEnvelope h bodySize in
  Ok {| packet := p; header := h |}.

(** The reusable directional authenticator: a keyed hash state and its scratch
    buffers; [mac = None] after [Close] (and for a nil pointer). *)
Record Authenticator := {
  key : Key; mac : option hmacHash; prefix : bytes; tag : bytes }.

Definition zeroPrefix : bytes := replicate 24 Byte.x00.

Definition NewAuthenticator (k : Key) : result WireError Authenticator :=
  if decide (k = zero32) then Err ErrInvalidKey else
  Ok {| key := k; mac := Some (mac_Reset (hmac_New k)); prefix := zeroPrefix; tag := zero32 |}.

Definition Close (a : Authenticator) : Authenticator :=
  {| key := zero32; mac := None; prefix := zeroPrefix; tag := zero32 |}.

Definition verifyEnvelope (m : hmacHash) (p : bytes) (tagOffset : nat) : bool * hmacHash :=
  let m := mac_Write m (take tagOffset p) in
  (hmac_Equal (mac_Sum m []) (drop tagOffset p), m).

(** [e.authenticate(key, authenticator)].  [None] is the stateless call; with an
    authenticator the hash state is reset, used, and kept. *)
Definition authenticate (e : Envelope) (k : Key) (a : option Authenticator)
    : result WireError AuthenticatedEnvelope * option Authenticator :=
  if decide (k = zero32) then (Err ErrInvalidKey, a) else
  if len (packet e) <? EnvelopeOverhead then (Err ErrMalformed, a) else
  let tagOffset := (length (packet e) - 32)%nat in
  let '(valid, a') :=
    match a with
    | Some ({| mac := Some m |} as au) =>
        let '(valid, m') := verifyEnvelope (mac_Reset m) (packet e) tagOffset in
        (valid, Some {| key := key au; mac := Some m'; prefix := prefix au; tag := zero32 |})
    | _ => (fst (verifyEnvelope (hmac_New k) (packet e) tagOffset), a)
    end in
  if valid then (Ok {| envelope := e; verified := true |}, a') else (Err ErrAuthentication, a').

Definition Authenticate (e : Envelope) (k : Key) : result WireError AuthenticatedEnvelope :=
  fst (authenticate e k None).

Definition Authenticator_Authenticate (a : Authenticator) (e : Envelope)
    : result WireError AuthenticatedEnvelope * Authenticator :=
  match mac a with
  | None => (Err ErrInvalidKey, a)
  | Some _ => let '(r, a') := authenticate e (key a) (Some a) in (r, default a a')
  end.

Definition encodePrefix (h : Header) (bodySize : Z) : bytes :=
  Magic ++ [byte_of_Z Version; byte_of_Z (Header_Type h)] ++ be_put 2 bodySize
  ++ Header_SessionID h.

Definition appendSignedEnvelope (dst : bytes) (h : Header) (body : bytes) (m : hmacHash)
    : bytes * hmacHash :=
  let pre := encodePrefix h (len body) in
  let m := mac_Write (mac_Write m pre) body in
  (dst ++ pre ++ body ++ mac_Sum m [], m).

Definition appendEnvelope (dst : bytes) (h : Header) (body : bytes) (k : Key)
    (a : option Authenticator) : (bytes * option WireError) * option Authenticator :=
  if decide (k = zero32) then ((dst, Some ErrInvalidKey), a) else
  match validateEnvelope h (len body) with
  | Some e => ((dst, Some e), a)
  | None =>
    match a with
    | Some ({| mac := Some m |} as au) =>
        let '(out, m') := appendSignedEnvelope dst h body (mac_Reset m) in
        ((out, None),
         Some {| key := key au; mac := Some m'; prefix := zeroPrefix; tag := zero32 |})
    | _ => ((fst (appendSignedEnvelope dst h body (hmac_New k)), None), a)
    end
  end.

Definition AppendEnvelope (dst : bytes) (h : Header) (body : bytes) (k : Key)
    : bytes * option WireError := fst (appendEnvelope dst h body k None).

(** Unfold the sizes, for [lia]. *)
Ltac sizes :=
  cbv delta [EnvelopeOverhead PrefixSize AuthenticationTagSize RouteSize TypedBodyOverhead
    MaxUDPPayload MaxBodySize HandshakePacketSize HandshakeBodySize HandshakeFixedSize
    MaxTLVBytes MaxTLVs] in *.

(** ** Opening a packet: the two calls every receiver makes *)

Definition open (p : bytes) (k : Key) : result WireError AuthenticatedEnvelope :=
  let? e := ParseEnvelope p in Authenticate e k.

Record Header_wf (h : Header) : Prop := {
  hw_type : in_u 8 (Header_Type h);
  hw_sid : length (Header_SessionID h) = 16%nat }.

(** The packet of a header and body under a key. *)
Definition seal (k : Key) (h : Header) (body : bytes) : bytes :=
  let signed := encodePrefix h (len body) ++ body in signed ++ hmac_sha256 k signed.

Definition opened (k : Key) (h : Header) (body : bytes) : AuthenticatedEnvelope :=
  {| envelope := {| packet := seal k h body; header := h |}; verified := true |}.

#[export] Instance Len_Magic : Len Magic 4 := eq_refl.

Lemma length_v2_prefix h n :
  length (Header_SessionID h) = 16%nat -> length (encodePrefix h n) = 24%nat.
Proof. intros H. unfold encodePrefix. by rewrite !length_app, length_be_put, H. Qed.

Lemma length_seal k h body :
  length (Header_SessionID h) = 16%nat -> length (seal k h body) = (56 + length body)%nat.
Proof.
  intros H. unfold seal. cbv zeta. rewrite !length_app, length_v2_prefix, length_hmac_sha256 by done. lia.
Qed.

Lemma Body_opened k h body : Header_wf h -> Body (opened k h body) = body.
Proof.
  intros [_ Hs]. unfold Body, opened. cbn [verified envelope packet].
  rewrite length_seal by done. unfold seal. cbv zeta. rewrite <- app_assoc.
  assert (Hp : Len (encodePrefix h (len body)) 24) by (by apply length_v2_prefix).
  assert (Hb : Len body (length body)) by done.
  replace (56 + length body - 32)%nat with (24 + length body)%nat by lia.
  rewrite (slice_skip _ _ 24) by done. rewrite Nat.sub_diag.
  replace (24 + length body - 24)%nat with (length body) by lia. by apply slice_take.
Qed.

Lemma AppendEnvelope_ok dst h body k out :
  AppendEnvelope dst h body k = (out, None) <->
  k <> zero32 /\ validateEnvelope h (len body) = None /\ out = dst ++ seal k h body.
Proof.
  unfold AppendEnvelope, appendEnvelope, seal. destruct (decide (k = zero32)) as [->|Hk].
  { split; [done|]. by intros (? & _). }
  destruct (validateEnvelope h (len body)) as [e|]; simpl; [split; [done|by intros (_ & ? & _)]|].
  rewrite <- !app_assoc. split; [intros [= <-]; done|]. intros (_ & _ & ->). done.
Qed.

Lemma validateEnvelope_size h n :
  validateEnvelope h n = None ->
  knownPacketType (Header_Type h) = true /\ Header_SessionID h <> zero16 /\ n <= 65451 /\
  (if IsHandshake (Header_Type h) then n = 456 else 16 <= n).
Proof.
  unfold validateEnvelope. intros H. go_inv H. sizes.
  split_and!; [by apply negb_false_iff|done|lia|]. destruct (IsHandshake _); lia.
Qed.

(** The header a parsed packet carries. *)
Definition headerOf (p : bytes) : Header :=
  {| Header_Type := byte_at 5 p; Header_SessionID := slice 8 24 p |}.

Lemma ParseEnvelope_ok p e :
  ParseEnvelope p = Ok e ->
  e = {| packet := p; header := headerOf p |} /\
  len p = be_get (slice 6 8 p) + 56 /\ slice 0 4 p = Magic /\ byte_at 4 p = Version /\
  validateEnvelope (headerOf p) (be_get (slice 6 8 p)) = None.
Proof.
  unfold ParseEnvelope. fold (headerOf p). intros H. go_inv H. bools. subst e. sizes.
  split_and!; try done; lia.
Qed.

Lemma seal_parts k p :
  (56 <= length p)%nat -> len p = be_get (slice 6 8 p) + 56 -> slice 0 4 p = Magic ->
  byte_at 4 p = Version ->
  hmac_sha256 k (take (length p - 32) p) = drop (length p - 32) p ->
  seal k (headerOf p) (slice 24 (length p - 32) p) = p.
Proof.
  intros Hp Hlen Hm Hv Ht. unfold seal, len in *. cbv zeta.
  assert (Hpre : encodePrefix (headerOf p) (be_get (slice 6 8 p)) ++ slice 24 (length p - 32) p
                 = take (length p - 32) p).
  { unfold encodePrefix, headerOf. cbn [Header_Type Header_SessionID]. rewrite <- Hm, <- Hv.
    rewrite <- !app_assoc. cbn [app]. unslice. apply slice_0_take. }
  rewrite length_slice by lia.
  replace (Z.of_nat (length p - 32 - 24)) with (be_get (slice 6 8 p)) by lia.
  rewrite Hpre, Ht. apply take_drop.
Qed.

Lemma open_seal k h body :
  Header_wf h -> k <> zero32 -> validateEnvelope h (len body) = None ->
  open (seal k h body) k = Ok (opened k h body).
Proof.
  intros [Ht Hs] Hk Hv. pose proof (validateEnvelope_size _ _ Hv) as (_ & _ & Hsize & _).
  pose proof (length_seal k h body Hs) as Hl. pose proof (len_nonneg body).
  assert (Hlen : len (seal k h body) = 56 + len body) by (unfold len; rewrite Hl; lia).
  unfold open, ParseEnvelope. sizes. rewrite Hlen.
  replace (65507 <? 56 + len body) with false by lia.
  replace (56 + len body <? 24 + 32) with false by lia.
  assert (Hsid : Len (Header_SessionID h) 16) by exact Hs.
  assert (Hh : slice 0 4 (seal k h body) = Magic /\ byte_at 4 (seal k h body) = Version /\
    headerOf (seal k h body) = h /\ be_get (slice 6 8 (seal k h body)) = len body).
  { unfold seal, encodePrefix, headerOf. cbv zeta. rewrite <- !app_assoc. cbn [app].
    slices. rewrite be_get_put_small by (unfold in_u; lia). by destruct h. }
  fold (headerOf (seal k h body)). destruct Hh as (-> & -> & -> & ->).
  rewrite bool_decide_true, Z.eqb_refl by done. cbn [orb negb].
  replace (len body + (24 + 32) =? 56 + len body) with true by lia. cbn [negb]. rewrite Hv.
  unfold result_bind, Authenticate, authenticate. cbn [packet fst]. rewrite decide_False by done.
  sizes. rewrite Hlen. replace (56 + len body <? 24 + 32) with false by lia.
  unfold verifyEnvelope. cbn [fst]. rewrite Hl. replace (56 + length body - 32)%nat with (24 + length body)%nat by lia.
  assert (Hsg : length (encodePrefix h (len body) ++ body) = (24 + length body)%nat)
    by (by rewrite length_app, length_v2_prefix).
  unfold seal at 1 2. cbv zeta. rewrite take_app_length', drop_app_length' by done.
  unfold mac_Sum, mac_Write, hmac_New. cbn [mac_key mac_written app].
  by rewrite (proj2 (hmac_Equal_spec _ _) eq_refl).
Qed.

Lemma open_iff p k ae :
  open p k = Ok ae <->
  exists h body, Header_wf h /\ AppendEnvelope [] h body k = (p, None) /\ ae = opened k h body.
Proof.
  split.
  - unfold open. intros H. go_step H.
    apply ParseEnvelope_ok in E as (-> & Hlen & Hm & Hver & Hv).
    pose proof (be_get_range (slice 6 8 p)) as [Hr _].
    unfold Authenticate, authenticate in H. cbn [packet fst] in H.
    destruct (decide _) as [|Hk]; [done|]. destruct (_ <? _); [done|].
    unfold verifyEnvelope in H. cbn [fst] in H. destruct (hmac_Equal _ _) eqn:E1; [|done].
    apply hmac_Equal_spec in E1. injection H as <-.
    assert (Hp : (56 <= length p)%nat) by (unfold len in Hlen; lia).
    pose proof (seal_parts k p Hp Hlen Hm Hver E1) as Hseal.
    exists (headerOf p), (slice 24 (length p - 32) p).
    assert (Hbl : len (slice 24 (length p - 32) p) = be_get (slice 6 8 p)).
    { unfold len in *. rewrite length_slice by lia. lia. }
    split_and!.
    + split; [apply byte_at_range|]. cbn. rewrite length_slice; lia.
    + apply AppendEnvelope_ok. split_and!; [done|by rewrite Hbl|done].
    + unfold opened. by rewrite Hseal.
  - intros (h & body & Hwf & (Hk & Hv & ->)%AppendEnvelope_ok & ->). cbn [app]. by apply open_seal.
Qed.
