(* ===== verification/WireV2Handshake.v ===== *)
(** * The v2 handshake message codec ([internal/wirev2/handshake.go])

    Canonical TLV lists, their validation, and the fixed-size handshake body. *)

From S2P Require Import Prelude Sha256 WireV2.

(** ** TLV validation *)

(** The loop of [validateTLVs]: previous type, bytes so far, mandatory types seen. *)
Fixpoint validateTLVs_loop (packetType : Z) (prev : option Z) (total seen : Z) (tlvs : list TLV)
    : result WireError Z :=
  match tlvs with
  | [] => Ok seen
  | tlv :: rest =>
    let t := TLV_Type tlv in
    let v := TLV_Value tlv in
    fail (match prev with Some p => t <=? p | None => false end) with ErrInvalidTLV in
    fail (MaxTLVBytes - 4 <? len v) || (MaxTLVBytes - 4 - len v <? total) with ErrInvalidTLV in
    let total := total + (4 + len v) in
    match tlvLength t with
    | Some length =>
      fail negb (len v =? length) || (negb (packetType =? TypeReject) && (t =? TLVError))
        with ErrInvalidTLV in
      let seen :=
        if (TLVProtocol <=? t) && (t <=? TLVPaths)
        then Z.lor seen (u16 (Z.shiftl 1 (t - TLVProtocol))) else seen in
      fail (t =? TLVRepair) && negb (allZero (slice 6 8 v)) with ErrInvalidTLV in
      fail (t =? TLVError) &&
           ((be_get (slice 0 2 v) <? 1) || (9 <? be_get (slice 0 2 v))
            || (1000 <? be_get (slice 2 4 v)))
        with ErrInvalidTLV in
      validateTLVs_loop packetType (Some t) total seen rest
    | None =>
      fail negb (Z.land t 0x8000 =? 0) with ErrRequiredTLV in
      validateTLVs_loop packetType (Some t) total seen rest
    end
  end.

Definition validateTLVs (packetType : Z) (tlvs : list TLV) : option WireError :=
  if MaxTLVs <? len tlvs then Some ErrInvalidTLV else
  if (packetType =? TypeFinish) || (packetType =? TypeReady) then
    if negb (len tlvs =? 0) then Some ErrInvalidTLV else None
  else
  if (packetType =? TypeReject) &&
     negb (match tlvs with [tlv] => TLV_Type tlv =? TLVError | _ => false end)
  then Some ErrInvalidTLV else
  match validateTLVs_loop packetType None 0 0 tlvs with
  | Err e => Some e
  | Ok seen =>
    if negb (packetType =? TypeReject) && negb (seen =? 2 ^ 12 - 1)
    then Some ErrInvalidTLV else None
  end.

Definition validateHandshake (m : Handshake) : option WireError :=
  let t := Header_Type (Handshake_Header m) in
  if negb (IsHandshake t) then Some ErrUnknownPacketType else
  if decide (Header_SessionID (Handshake_Header m) = zero16) then Some ErrInvalidSessionID else
  if decide (ClientNonce m = zero16) then Some ErrMalformed else
  if (t =? TypeHello) &&
     (negb (bool_decide (ServerNonce m = zero16)) || negb (bool_decide (TranscriptDigest m = zero32))
      || negb (bool_decide (ReturnPathToken m = zero16)))
  then Some ErrMalformed else
  if (t =? TypeReject) &&
     (negb (bool_decide (ServerNonce m = zero16)) || negb (bool_decide (ReturnPathToken m = zero16)))
  then Some ErrMalformed else
  validateTLVs t (TLVs m).

(** ** Encoding *)

Definition encodeTLV (tlv : TLV) : bytes :=
  be_put 2 (TLV_Type tlv) ++ be_put 2 (len (TLV_Value tlv)) ++ TLV_Value tlv.

Definition encodeTLVs (tlvs : list TLV) : bytes := concat (map encodeTLV tlvs).

(** The 456-byte body: the fixed fields, the TLV length, two reserved bytes, the
    TLVs, and zero padding (the untouched rest of the Go array). *)
Definition encodeHandshake (m : Handshake) : bytes :=
  let tlvs := encodeTLVs (TLVs m) in
  ClientNonce m ++ ServerNonce m ++ TranscriptDigest m ++ ReturnPathToken m
  ++ be_put 2 (len tlvs) ++ replicate 2 Byte.x00 ++ tlvs
  ++ replicate (372 - length tlvs) Byte.x00.

Definition AppendHandshake (dst : bytes) (m : Handshake) (k : Key) : bytes * option WireError :=
  match validateHandshake m with
  | Some e => (dst, Some e)
  | None => AppendEnvelope dst (Handshake_Header m) (encodeHandshake m) k
  end.

(** ** Decoding *)

(** The TLV loop; [fuel] bounds its iterations, each of which consumes at least the
    four bytes of a TLV header. *)
Fixpoint parseTLVs (fuel : nat) (remaining : bytes) (acc : list TLV) : result WireError (list TLV) :=
  if len remaining =? 0 then Ok acc else
  match fuel with
  | O => Err ErrInvalidTLV
  | S fuel' =>
    fail (len remaining <? 4) || (len acc =? MaxTLVs) with ErrInvalidTLV in
    let valueBytes := be_get (slice 2 4 remaining) in
    fail len remaining - 4 <? valueBytes with ErrInvalidTLV in
    let tlv := {| TLV_Type := be_get (slice 0 2 remaining);
                  TLV_Value := slice 4 (4 + Z.to_nat valueBytes) remaining |} in
    parseTLVs fuel' (drop (4 + Z.to_nat valueBytes) remaining) (acc ++ [tlv])
  end.

Definition DecodeHandshake (e : AuthenticatedEnvelope) : result WireError Handshake :=
  fail negb (verified e) with ErrAuthentication in
  fail negb (IsHandshake (Header_Type (AuthenticatedEnvelope_Header e))) with ErrUnknownPacketType in
  let body := Body e in
  fail negb (len body =? HandshakeBodySize) with ErrMalformed in
  let tlvBytes := be_get (slice 80 82 body) in
  fail (MaxTLVBytes <? tlvBytes) || negb (be_get (slice 82 84 body) =? 0)
       || negb (allZero (drop (84 + Z.to_nat tlvBytes) body)) with ErrMalformed in
  let remaining := slice 84 (84 + Z.to_nat tlvBytes) body in
  let? tlvs := parseTLVs (length remaining) remaining [] in
  let m := {| Handshake_Header := AuthenticatedEnvelope_Header e;
              ClientNonce := slice 0 16 body; ServerNonce := slice 16 32 body;
              TranscriptDigest := slice 32 64 body; ReturnPathToken := slice 64 80 body;
              TLVs := tlvs |} in
  check validateHandshake m in
  Ok m.

(** ** What the Go types guarantee *)

Record TLV_wf (t : TLV) : Prop := { tw_type : in_u 16 (TLV_Type t) }.

Record Handshake_wf (m : Handshake) : Prop := {
  hs_header : Header_wf (Handshake_Header m);
  hs_client : length (ClientNonce m) = 16%nat;
  hs_server : length (ServerNonce m) = 16%nat;
  hs_digest : length (TranscriptDigest m) = 32%nat;
  hs_token : length (ReturnPathToken m) = 16%nat;
  hs_tlvs : Forall TLV_wf (TLVs m) }.

(** ** TLV lists round trip *)

Lemma length_encodeTLV t : length (encodeTLV t) = (4 + length (TLV_Value t))%nat.
Proof. unfold encodeTLV. rewrite !length_app, !length_be_put. lia. Qed.

Lemma encodeTLVs_cons t ts : encodeTLVs (t :: ts) = encodeTLV t ++ encodeTLVs ts.
Proof. done. Qed.

Lemma encodeTLVs_app ts us : encodeTLVs (ts ++ us) = encodeTLVs ts ++ encodeTLVs us.
Proof. unfold encodeTLVs. by rewrite map_app, concat_app. Qed.

(** A list whose encoding fits, entry by entry. *)
Definition fitting (ts : list TLV) : Prop :=
  Forall TLV_wf ts /\ len ts <= 16 /\ len (encodeTLVs ts) <= 372.

Lemma parseTLVs_encode ts acc fuel :
  Forall TLV_wf ts -> len acc + len ts <= 16 -> len (encodeTLVs ts) < 65536 ->
  (length (encodeTLVs ts) <= fuel)%nat ->
  parseTLVs fuel (encodeTLVs ts) acc = Ok (acc ++ ts).
Proof.
  revert acc fuel. induction ts as [|[t v] ts IH]; intros acc fuel Hwf Hlen Hb Hf.
  { destruct fuel; simpl; by rewrite app_nil_r. }
  rewrite encodeTLVs_cons in *. rewrite length_app, length_encodeTLV in Hf. cbn [TLV_Value] in Hf.
  apply Forall_cons in Hwf as [[Ht] Hwf]. rewrite len_cons in Hlen.
  pose proof (len_nonneg ts). pose proof (len_nonneg (encodeTLVs ts)). pose proof (len_nonneg v).
  assert (Hl : len (encodeTLV {| TLV_Type := t; TLV_Value := v |}) = 4 + len v).
  { unfold len. rewrite length_encodeTLV. cbn [TLV_Value]. lia. }
  rewrite len_app, Hl in Hb. destruct fuel as [|fuel]; [lia|].
  cbn [parseTLVs]. rewrite len_app, Hl.
  replace (4 + len v + len (encodeTLVs ts) =? 0) with false by lia.
  replace (4 + len v + len (encodeTLVs ts) <? 4) with false by lia.
  replace (len acc =? MaxTLVs) with false by (sizes; lia). cbn [orb].
  assert (Hv : Len v (length v)) by done.
  unfold encodeTLV. cbn [TLV_Type TLV_Value] in *. rewrite <- !app_assoc.
  assert (Hg : be_get (slice 2 4 (be_put 2 t ++ be_put 2 (len v) ++ v ++ encodeTLVs ts)) = len v).
  { slices. rewrite be_get_put_small; [done|]. unfold in_u. lia. }
  rewrite Hg. replace (4 + len v + len (encodeTLVs ts) - 4 <? len v) with false by lia.
  replace (Z.to_nat (len v)) with (length v) by (unfold len; lia).
  assert (Hd : drop (4 + length v) (be_put 2 t ++ be_put 2 (len v) ++ v ++ encodeTLVs ts) = encodeTLVs ts).
  { rewrite !app_assoc. apply drop_app_length'. rewrite !length_app, !length_be_put. lia. }
  assert (Hs : slice 4 (4 + length v) (be_put 2 t ++ be_put 2 (len v) ++ v ++ encodeTLVs ts) = v).
  { slices. replace (4 + length v - 2 - 2)%nat with (length v) by lia. by apply slice_take. }
  rewrite Hd, Hs. slices. rewrite be_get_put_small by width.
  rewrite IH; [by rewrite <- app_assoc|done|rewrite len_app, len_cons, len_nil; lia|lia|lia].
Qed.

Lemma parseTLVs_ok fuel : forall l acc ts,
  parseTLVs fuel l acc = Ok ts ->
  exists us, ts = acc ++ us /\ encodeTLVs us = l /\ Forall TLV_wf us /\ (len acc <= 16 -> len ts <= 16).
Proof.
  induction fuel as [|fuel IH]; intros l acc ts H; cbn [parseTLVs] in H.
  - go_inv H. subst ts. exists []. rewrite app_nil_r. assert (l = []) as -> by (apply len_zero; lia). done.
  - destruct (len l =? 0) eqn:E0.
    { injection H as <-. exists []. rewrite app_nil_r. assert (l = []) as -> by (apply len_zero; lia). done. }
    go_inv H. bools. apply IH in H as (us & -> & He & Hwf & Hle). pose proof (be_get_range (slice 2 4 l)).
    set (n := Z.to_nat (be_get (slice 2 4 l))) in *.
    set (tlv := {| TLV_Type := be_get (slice 0 2 l); TLV_Value := slice 4 (4 + n) l |}) in *.
    assert (Hn : (4 + n <= length l)%nat) by (unfold len in *; lia).
    exists (tlv :: us). split_and!.
    + by rewrite <- app_assoc.
    + rewrite encodeTLVs_cons, He. unfold encodeTLV. cbn [tlv TLV_Type TLV_Value].
      assert (len (slice 4 (4 + n) l) = be_get (slice 2 4 l)) as ->
        by (unfold len; rewrite length_slice by lia; lia).
      unslice. by rewrite drop_0.
    + constructor; [|done]. split. cbn. change 16 with (8 * Z.of_nat 2). apply be_get_slice_range; lia.
    + intros Ha. apply Hle. sizes. rewrite len_app, len_cons, len_nil. lia.
Qed.

(** More fuel than bytes changes nothing: the loop never runs out. *)
Lemma parseTLVs_fuel f : forall g l acc,
  (length l <= f)%nat -> (length l <= g)%nat -> parseTLVs f l acc = parseTLVs g l acc.
Proof.
  induction f as [|f IH]; intros [|g] l acc Hf Hg; [done| | |].
  - assert (l = []) as -> by (destruct l; simpl in *; [done|lia]). done.
  - assert (l = []) as -> by (destruct l; simpl in *; [done|lia]). done.
  - cbn [parseTLVs]. go_case; try done. pose proof (be_get_range (slice 2 4 l)).
    bools. unfold len in *. apply IH; rewrite length_drop; lia.
Qed.

Lemma validateTLVs_loop_total t : forall ts prev total seen s,
  validateTLVs_loop t prev total seen ts = Ok s -> total <= 372 -> total + len (encodeTLVs ts) <= 372.
Proof.
  induction ts as [|[ty v] ts IH]; intros prev total seen s H Ht; [rewrite Z.add_0_r; done|].
  cbn [validateTLVs_loop TLV_Type TLV_Value] in H. sizes. go_step H; [done|]. go_step H; [done|].
  rewrite encodeTLVs_cons, len_app.
  assert (len (encodeTLV {| TLV_Type := ty; TLV_Value := v |}) = 4 + len v) as ->.
  { unfold len. rewrite length_encodeTLV. cbn [TLV_Value]. lia. }
  cbv beta zeta in H. destruct (tlvLength ty); go_inv H; apply IH in H; lia.
Qed.

Lemma validateHandshake_fitting m :
  Handshake_wf m -> validateHandshake m = None -> fitting (TLVs m).
Proof.
  intros Hwf H. unfold validateHandshake in H. go_inv H. unfold validateTLVs in H. sizes. go_inv H.
  - bools. assert (TLVs m = []) as -> by (apply len_zero; lia). split_and!; [constructor|vm_compute; discriminate..].
  - split_and!; [apply Hwf|lia|].
    match goal with E : validateTLVs_loop _ _ _ _ _ = Ok _ |- _ =>
      pose proof (validateTLVs_loop_total _ _ _ _ _ _ E) end. lia.
Qed.

Lemma length_encodeHandshake m :
  Handshake_wf m -> fitting (TLVs m) -> length (encodeHandshake m) = 456%nat.
Proof.
  intros [_ H1 H2 H3 H4 _] (_ & _ & H5). unfold encodeHandshake, len in *. cbv zeta.
  rewrite !length_app, !length_be_put, !length_replicate, H1, H2, H3, H4. lia.
Qed.

(** The fields of an encoded handshake body. *)
Lemma encodeHandshake_fields m :
  Handshake_wf m -> fitting (TLVs m) ->
  let body := encodeHandshake m in
  let n := length (encodeTLVs (TLVs m)) in
  slice 0 16 body = ClientNonce m /\ slice 16 32 body = ServerNonce m /\
  slice 32 64 body = TranscriptDigest m /\ slice 64 80 body = ReturnPathToken m /\
  be_get (slice 80 82 body) = Z.of_nat n /\ slice 82 84 body = replicate 2 Byte.x00 /\
  slice 84 (84 + n) body = encodeTLVs (TLVs m) /\
  drop (84 + n) body = replicate (372 - n) Byte.x00.
Proof.
  intros [_ H1 H2 H3 H4 _] (_ & _ & H5) body n. unfold body, encodeHandshake. cbv zeta. fold n.
  assert (Len (ClientNonce m) 16) by done. assert (Len (ServerNonce m) 16) by done.
  assert (Len (TranscriptDigest m) 32) by done. assert (Len (ReturnPathToken m) 16) by done.
  assert (Hn : Len (encodeTLVs (TLVs m)) n) by done.
  change (len (encodeTLVs (TLVs m))) with (Z.of_nat n) in *.
  assert (Hg : be_get (be_put 2 (Z.of_nat n)) = Z.of_nat n) by (apply be_get_put_small; unfold in_u; lia).
  split_and!; slices; try done.
  - replace (84 + n - 16 - 16 - 32 - 16 - 2 - 2)%nat with n by lia. by apply slice_take.
  - replace (84 + n - 16 - 16 - 32 - 16 - 2 - 2)%nat with n by lia. by rewrite drop_app_length'.
Qed.

Lemma decode_encodeHandshake k m :
  Handshake_wf m -> validateHandshake m = None ->
  DecodeHandshake (opened k (Handshake_Header m) (encodeHandshake m)) = Ok m.
Proof.
  intros Hwf Hv. pose proof (validateHandshake_fitting m Hwf Hv) as Hfit.
  pose proof (length_encodeHandshake m Hwf Hfit) as Hl. pose proof (encodeHandshake_fields m Hwf Hfit) as Hf.
  cbv zeta in Hf. destruct Hf as (F1 & F2 & F3 & F4 & F5 & F6 & F7 & F8).
  unfold DecodeHandshake. rewrite Body_opened by apply Hwf. cbn [verified opened negb].
  change (AuthenticatedEnvelope_Header _) with (Handshake_Header m).
  assert (IsHandshake (Header_Type (Handshake_Header m)) = true) as Hh.
  { unfold validateHandshake in Hv. go_inv Hv; by apply negb_false_iff. }
  rewrite Hh. cbn [negb]. sizes. unfold len at 1. rewrite Hl, F5, Nat2Z.id, F6, F7, F8.
  replace (Z.of_nat 456 =? 512 - (24 + 32)) with true by done. cbn [negb].
  destruct Hfit as (Hw & Hc & Ht). unfold len in Ht.
  replace (512 - (24 + 32) - 84 <? Z.of_nat (length (encodeTLVs (TLVs m)))) with false by lia.
  rewrite allZero_replicate. change (be_get (replicate 2 Byte.x00)) with 0. cbn [Z.eqb negb orb].
  rewrite parseTLVs_encode; [|done|rewrite len_nil; lia|unfold len; lia|lia]. cbn [result_bind app].
  rewrite F1, F2, F3, F4. replace {| Handshake_Header := _ |} with m by by destruct m.
  by rewrite Hv.
Qed.

Lemma DecodeHandshake_ok h body k m :
  Header_wf h -> DecodeHandshake (opened k h body) = Ok m ->
  Handshake_wf m /\ validateHandshake m = None /\ Handshake_Header m = h /\ encodeHandshake m = body.
Proof.
  intros Hh H. unfold DecodeHandshake in H. rewrite Body_opened in H by done.
  change (AuthenticatedEnvelope_Header _) with h in H. go_inv H. subst m. bools. sizes.
  pose proof (be_get_range (slice 80 82 body)). set (n := Z.to_nat (be_get (slice 80 82 body))) in *.
  assert (Hb : length body = 456%nat) by (unfold len in *; lia).
  match goal with E : parseTLVs _ _ _ = Ok _ |- _ => apply parseTLVs_ok in E as (us & -> & He & Hw & _) end.
  assert (Hn : (84 + n <= 456)%nat) by lia.
  split_and!; [split; cbn; try (rewrite length_slice by lia; lia); done|done|done|].
  unfold encodeHandshake. cbn [ClientNonce ServerNonce TranscriptDigest ReturnPathToken TLVs app].
  rewrite He. assert (Hlr : length (slice 84 (84 + n) body) = n) by (rewrite length_slice by lia; lia).
  assert (len (slice 84 (84 + n) body) = be_get (slice 80 82 body)) as -> by (unfold len; rewrite Hlr; lia).
  assert (Hz : replicate 2 Byte.x00 = slice 82 84 body).
  { assert (be_put 2 (be_get (slice 82 84 body)) = slice 82 84 body) as <- by (by apply be_put_slice; lia).
    assert (be_get (slice 82 84 body) = 0) as -> by lia. done. }
  rewrite Hz, Hlr. assert (Hd : drop (84 + n) body = replicate (372 - n) Byte.x00).
  { match goal with E : allZero (drop _ _) = true |- _ => apply allZero_eq in E; rewrite E end.
    rewrite length_drop. f_equal. lia. }
  rewrite <- Hd. unslice. by rewrite drop_0.
Qed.

Lemma DecodeHandshake_iff p k m :
  result_bind DecodeHandshake (open p k) = Ok m <->
  Handshake_wf m /\ AppendHandshake [] m k = (p, None).
Proof.
  rewrite result_bind_ok. split.
  - intros (ae & (h & body & Hh & Ha & ->)%open_iff & Hd).
    apply DecodeHandshake_ok in Hd as (Hwf & Hv & <- & <-); [|done].
    split; [done|]. unfold AppendHandshake. by rewrite Hv.
  - unfold AppendHandshake. intros [Hwf H]. destruct (validateHandshake m) eqn:Hv; [done|].
    exists (opened k (Handshake_Header m) (encodeHandshake m)). split; [|by apply decode_encodeHandshake].
    apply open_iff. do 2 eexists. split_and!; [apply Hwf|done|done].
Qed.

(** A handshake packet is always exactly 512 bytes. *)
Lemma AppendHandshake_size m k p :
  Handshake_wf m -> AppendHandshake [] m k = (p, None) -> len p = HandshakePacketSize.
Proof.
  intros Hwf. unfold AppendHandshake. destruct (validateHandshake m) eqn:Hv; [done|].
  intros (_ & _ & ->)%AppendEnvelope_ok. cbn [app]. unfold len.
  rewrite length_seal by apply Hwf. rewrite length_encodeHandshake; [done|done|].
  by apply validateHandshake_fitting.
Qed.

(** C28: The handshake codec is a bijection.  A datagram under a key parses,
    authenticates and decodes to a handshake if and only if that handshake is a value
    of the Go types and encoding it under the key yields that very datagram, which is
    then exactly 512 bytes: canonical TLV order, the registered lengths, the reserved
    bytes and the zero padding leave no second encoding. *)
Theorem DecodeHandshake_iff_Append (p : bytes) (k : Key) (m : Handshake) :
  (result_bind DecodeHandshake (open p k) = Ok m <->
   Handshake_wf m /\ AppendHandshake [] m k = (p, None)) /\
  (Handshake_wf m -> AppendHandshake [] m k = (p, None) -> len p = HandshakePacketSize).
Proof. split; [apply DecodeHandshake_iff|apply AppendHandshake_size]. Qed.
