(* ===== verification/WireV2Bundle.v ===== *)
(** * Routes, encoding contexts and FEC bundles ([internal/wirev2])

    The typed bodies of established Sessions: the route every such packet starts
    with ([established.go]), encoding contexts and their acknowledgements
    ([context.go]), and the multi-group FEC bundle ([bundle.go]). *)

From S2P Require Import Prelude Sha256 WireV2.

(** ** Routes *)

Record Route := { PathID : Z; Generation : Z; BudgetEpoch : Z }.

Record Established := {
  Established_Header : Header; Established_Route : Route; Established_Body : bytes }.

Definition validateRoute (packetType : Z) (r : Route) : option WireError :=
  if (PathID r <? 1) || (256 <? PathID r) || (Generation r =? 0) then Some ErrInvalidRoute else
  let pending := (TypePathJoin <=? packetType) && (packetType <=? TypePathReady) in
  if (pending && negb (BudgetEpoch r =? 0)) || (negb pending && (BudgetEpoch r =? 0))
  then Some ErrInvalidRoute else None.

Definition encodeRoute (r : Route) : bytes :=
  be_put 4 (PathID r) ++ be_put 8 (Generation r) ++ be_put 4 (BudgetEpoch r).

Definition validatePayloadLimit (maxPayload : Z) : option WireError :=
  if (maxPayload <? HandshakePacketSize) || (MaxUDPPayload <? maxPayload)
  then Some ErrInvalidPayloadLimit else None.

Definition DecodeEstablished (e : AuthenticatedEnvelope) : result WireError Established :=
  fail negb (verified e) with ErrAuthentication in
  let h := AuthenticatedEnvelope_Header e in
  fail IsHandshake (Header_Type h) with ErrUnknownPacketType in
  let body := Body e in
  fail len body <? RouteSize with ErrMalformed in
  let r := {| PathID := be_get (slice 0 4 body); Generation := be_get (slice 4 12 body);
              BudgetEpoch := be_get (slice 12 16 body) |} in
  check validateRoute (Header_Type h) r in
  Ok {| Established_Header := h; Established_Route := r; Established_Body := drop 16 body |}.

Definition AppendEstablished (dst : bytes) (h : Header) (r : Route) (typedBody : bytes) (k : Key)
    : bytes * option WireError :=
  if decide (k = zero32) then (dst, Some ErrInvalidKey) else
  if IsHandshake (Header_Type h) then (dst, Some ErrUnknownPacketType) else
  if MaxBodySize - RouteSize <? len typedBody then (dst, Some ErrPacketTooLarge) else
  match validateEnvelope h (RouteSize + len typedBody) with
  | Some e => (dst, Some e)
  | None =>
    match validateRoute (Header_Type h) r with
    | Some e => (dst, Some e)
    | None => AppendEnvelope dst h (encodeRoute r ++ typedBody) k
    end
  end.

Record Route_wf (r : Route) : Prop := {
  rw_path : in_u 32 (PathID r); rw_generation : in_u 64 (Generation r);
  rw_epoch : in_u 32 (BudgetEpoch r) }.

Record Established_wf (m : Established) : Prop := {
  ew_header : Header_wf (Established_Header m); ew_route : Route_wf (Established_Route m) }.

Lemma length_encodeRoute r : length (encodeRoute r) = 16%nat.
Proof. unfold encodeRoute. by rewrite !length_app, !length_be_put. Qed.

Lemma len_encodeRoute r : len (encodeRoute r) = 16.
Proof. unfold len. by rewrite length_encodeRoute. Qed.
#[export] Hint Rewrite len_encodeRoute : len.

#[export] Instance Len_encodeRoute r : Len (encodeRoute r) 16 := length_encodeRoute r.

Lemma AppendEstablished_ok dst h r b k out :
  AppendEstablished dst h r b k = (out, None) <->
  k <> zero32 /\ IsHandshake (Header_Type h) = false /\ len b <= 65435 /\
  validateEnvelope h (16 + len b) = None /\ validateRoute (Header_Type h) r = None /\
  out = dst ++ seal k h (encodeRoute r ++ b).
Proof.
  unfold AppendEstablished. sizes.
  assert (Hl : len (encodeRoute r ++ b) = 16 + len b) by (unfold len; rewrite length_app, length_encodeRoute; lia).
  destruct (decide (k = zero32)); [naive_solver|]. destruct (IsHandshake _); [naive_solver|].
  destruct (_ <? len b) eqn:Eb; [split; [done|]; intros; lia|].
  destruct (validateEnvelope h (16 + len b)) eqn:Ev; [naive_solver|].
  destruct (validateRoute _ r); [naive_solver|].
  rewrite AppendEnvelope_ok, Hl. split; [|naive_solver]. intros (? & ? & ->). split_and!; (done || lia).
Qed.

Lemma validateRoute_encode_decode r :
  Route_wf r ->
  {| PathID := be_get (slice 0 4 (encodeRoute r)); Generation := be_get (slice 4 12 (encodeRoute r));
     BudgetEpoch := be_get (slice 12 16 (encodeRoute r)) |} = r.
Proof.
  intros [? ? ?]. unfold encodeRoute. slices. rewrite !be_get_put_small by width. by destruct r.
Qed.

Lemma DecodeEstablished_opened k h body m :
  Header_wf h ->
  (DecodeEstablished (opened k h body) = Ok m <->
   IsHandshake (Header_Type h) = false /\ Established_Header m = h /\
   Route_wf (Established_Route m) /\ validateRoute (Header_Type h) (Established_Route m) = None /\
   body = encodeRoute (Established_Route m) ++ Established_Body m).
Proof.
  intros Hh. unfold DecodeEstablished. rewrite Body_opened by done.
  change (AuthenticatedEnvelope_Header _) with h. cbn [verified opened negb]. sizes.
  destruct (IsHandshake _); [split; [done|by intros (? & _)]|]. split.
  - intros H. go_inv H. subst m. cbn. unfold len in *. split_and!; try done.
    + split; cbn; [change 32 with (8 * Z.of_nat 4)|change 64 with (8 * Z.of_nat 8)|change 32 with (8 * Z.of_nat 4)];
        apply be_get_slice_range; lia.
    + unfold encodeRoute. cbn. unslice. by rewrite drop_0.
  - destruct m as [h' r b]. cbn. intros (_ & -> & Hr & Hv & ->).
    pose proof (len_nonneg b). rewrite len_app, len_encodeRoute.
    replace (16 + len b <? 16) with false by lia. rewrite !(slice_left _ _ 16) by done.
    rewrite validateRoute_encode_decode, Hv by done. by rewrite drop_app_length'.
Qed.

(** Routed packets round trip.  A datagram opens under a key to an established
    message (header, route and typed body) if and only if these are values of the Go
    types and [AppendEstablished] produces that datagram from them: the receiver sees
    exactly the route and body that were authenticated, and no handshake packet or
    route outside its bounds is ever accepted. *)
Theorem DecodeEstablished_iff_Append (p : bytes) (k : Key) (m : Established) :
  result_bind DecodeEstablished (open p k) = Ok m <->
  Established_wf m /\
  AppendEstablished [] (Established_Header m) (Established_Route m) (Established_Body m) k = (p, None).
Proof.
  rewrite result_bind_ok, AppendEstablished_ok. split.
  - intros (ae & (h & body & Hh & (Hk & Hv & ->)%AppendEnvelope_ok & ->)%open_iff & Hd).
    apply DecodeEstablished_opened in Hd as (Hn & <- & Hr & Hvr & ->); [|done].
    rewrite len_app, len_encodeRoute in Hv.
    apply validateEnvelope_size in Hv as Hs. split_and!; try done; lia.
  - intros [[Hh Hr] (Hk & Hn & Hl & Hv & Hvr & ->)].
    exists (opened k (Established_Header m) (encodeRoute (Established_Route m) ++ Established_Body m)).
    split; [|by apply DecodeEstablished_opened]. apply open_iff. do 2 eexists. split_and!; [done| |done].
    apply AppendEnvelope_ok. by rewrite len_app, len_encodeRoute.
Qed.

(** ** Encoding contexts *)

Definition EncodingContextBodySize : Z := 24.
Definition EncodingContextAckBodySize : Z := 36.
Definition FECBundlePrefixSize : Z := 4.
Definition FECRecordHeaderSize : Z := 18.
Definition MaxFECRecords : Z := 16.
Definition MaxFECDescriptors : Z := 256.
Definition MinimumFECLogicalBytes : Z := 24.
Definition MaxFECLogicalBytes : Z := 16 * 1024 * 1024.
Definition MaxFECShardBytes : Z :=
  MaxUDPPayload - TypedBodyOverhead - FECBundlePrefixSize - FECRecordHeaderSize.

Record EncodingContext := {
  Epoch : Z; LayoutID : Z; ProtectionID : Z; DataShards : Z; ParityShards : Z;
  ShardBytes : Z; MaxDescriptors : Z; MaxLogicalBytes : Z }.
#[global] Instance EncodingContext_eq_dec : EqDecision EncodingContext.
Proof. solve_decision. Defined.

Definition Validate (c : EncodingContext) : option WireError :=
  if (Epoch c =? 0) || negb (LayoutID c =? 1) || negb (ProtectionID c =? 1)
     || (DataShards c =? 0) || (ParityShards c =? 0) || (256 <? DataShards c + ParityShards c)
  then Some ErrInvalidContext else
  if (ShardBytes c =? 0) || (MaxFECShardBytes <? ShardBytes c)
     || (MaxDescriptors c =? 0) || (MaxFECDescriptors <? MaxDescriptors c)
  then Some ErrInvalidContext else
  if (MaxLogicalBytes c <? MinimumFECLogicalBytes) || (MaxFECLogicalBytes <? MaxLogicalBytes c)
     || (DataShards c * ShardBytes c <? MaxLogicalBytes c)
  then Some ErrInvalidContext else None.

Definition contextBody (c : EncodingContext) : bytes :=
  be_put 4 (Epoch c) ++ be_put 2 (LayoutID c) ++ be_put 2 (ProtectionID c)
  ++ [byte_of_Z (DataShards c); byte_of_Z (ParityShards c)]
  ++ be_put 2 (ShardBytes c) ++ be_put 2 (MaxDescriptors c) ++ replicate 2 Byte.x00
  ++ be_put 4 (MaxLogicalBytes c) ++ replicate 4 Byte.x00.

Definition encodeContext (c : EncodingContext) : result WireError bytes :=
  check Validate c in Ok (contextBody c).

Definition AppendEncodingContext (dst : bytes) (sid : SessionID) (r : Route) (c : EncodingContext)
    (k : Key) : bytes * option WireError :=
  match encodeContext c with
  | Err e => (dst, Some e)
  | Ok body =>
    AppendEstablished dst {| Header_Type := TypeEncodingContext; Header_SessionID := sid |} r body k
  end.

Definition parseContext (body : bytes) : EncodingContext := {|
  Epoch := be_get (slice 0 4 body); LayoutID := be_get (slice 4 6 body);
  ProtectionID := be_get (slice 6 8 body); DataShards := byte_at 8 body;
  ParityShards := byte_at 9 body; ShardBytes := be_get (slice 10 12 body);
  MaxDescriptors := be_get (slice 12 14 body); MaxLogicalBytes := be_get (slice 16 20 body) |}.

Definition DecodeEncodingContext (e : AuthenticatedEnvelope)
    : result WireError (Route * EncodingContext) :=
  let? m := DecodeEstablished e in
  fail negb (Header_Type (Established_Header m) =? TypeEncodingContext) with ErrUnknownPacketType in
  let body := Established_Body m in
  fail negb (len body =? EncodingContextBodySize) || negb (allZero (slice 14 16 body))
       || negb (allZero (slice 20 24 body)) with ErrMalformed in
  let c := parseContext body in
  check Validate c in
  Ok (Established_Route m, c).

Record EncodingContextAck := { Ack_Epoch : Z; Ack_Digest : Digest }.
#[global] Instance EncodingContextAck_eq_dec : EqDecision EncodingContextAck.
Proof. solve_decision. Defined.

Definition NewEncodingContextAck (c : EncodingContext) : result WireError EncodingContextAck :=
  let? body := encodeContext c in
  Ok {| Ack_Epoch := Epoch c; Ack_Digest := sha256 body |}.

Definition ValidateContext (ack : EncodingContextAck) (c : EncodingContext) : option WireError :=
  match NewEncodingContextAck c with
  | Err e => Some e
  | Ok expected => if decide (ack = expected) then None else Some ErrContextAck
  end.

Definition AppendEncodingContextAck (dst : bytes) (sid : SessionID) (r : Route)
    (ack : EncodingContextAck) (k : Key) : bytes * option WireError :=
  if Ack_Epoch ack =? 0 then (dst, Some ErrInvalidContext) else
  AppendEstablished dst {| Header_Type := TypeEncodingContextAck; Header_SessionID := sid |} r
    (be_put 4 (Ack_Epoch ack) ++ Ack_Digest ack) k.

Definition DecodeEncodingContextAck (e : AuthenticatedEnvelope)
    : result WireError (Route * EncodingContextAck) :=
  let? m := DecodeEstablished e in
  fail negb (Header_Type (Established_Header m) =? TypeEncodingContextAck)
    with ErrUnknownPacketType in
  fail negb (len (Established_Body m) =? EncodingContextAckBodySize) with ErrMalformed in
  let ack := {| Ack_Epoch := be_get (slice 0 4 (Established_Body m));
                Ack_Digest := slice 4 36 (Established_Body m) |} in
  fail Ack_Epoch ack =? 0 with ErrInvalidContext in
  Ok (Established_Route m, ack).

Record Context_wf (c : EncodingContext) : Prop := {
  cw_epoch : in_u 32 (Epoch c); cw_layout : in_u 16 (LayoutID c);
  cw_protection : in_u 16 (ProtectionID c); cw_data : in_u 8 (DataShards c);
  cw_parity : in_u 8 (ParityShards c); cw_shard : in_u 16 (ShardBytes c);
  cw_descriptors : in_u 16 (MaxDescriptors c); cw_logical : in_u 32 (MaxLogicalBytes c) }.

Lemma length_contextBody c : length (contextBody c) = 24%nat.
Proof. unfold contextBody. by rewrite !length_app, !length_be_put. Qed.

Lemma len_contextBody c : len (contextBody c) = 24.
Proof. unfold len. by rewrite length_contextBody. Qed.

Lemma parse_contextBody c : Context_wf c -> parseContext (contextBody c) = c.
Proof.
  intros []. unfold parseContext, contextBody. cbn [app]. slices.
  rewrite !be_get_put_small by width. by destruct c.
Qed.

Lemma contextBody_parse body :
  length body = 24%nat -> allZero (slice 14 16 body) = true -> allZero (slice 20 24 body) = true ->
  contextBody (parseContext body) = body /\ Context_wf (parseContext body).
Proof.
  intros Hl H1%allZero_eq H2%allZero_eq. rewrite length_slice in H1, H2 by lia. split.
  - unfold contextBody, parseContext. cbn [Epoch LayoutID ProtectionID DataShards ParityShards
      ShardBytes MaxDescriptors MaxLogicalBytes app]. cbn [Nat.sub] in H1, H2. rewrite <- H1, <- H2.
    unslice. rewrite slice_0_take. apply take_ge. lia.
  - split; cbn; try apply byte_at_range;
      first [apply (be_get_slice_range 2); lia | apply (be_get_slice_range 4); lia].
Qed.

Lemma contextBody_inj c1 c2 :
  Context_wf c1 -> Context_wf c2 -> contextBody c1 = contextBody c2 -> c1 = c2.
Proof. intros H1 H2 H. by rewrite <- (parse_contextBody c1), <- (parse_contextBody c2), H. Qed.

(** Encoding contexts round trip.  A datagram opens to a route and an encoding
    context if and only if [AppendEncodingContext] produces it from them; the context
    then satisfies every codec bound, since both sides validate it. *)
Theorem DecodeEncodingContext_iff_Append (p : bytes) (k : Key) (r : Route) (c : EncodingContext) :
  result_bind DecodeEncodingContext (open p k) = Ok (r, c) <->
  Route_wf r /\ Context_wf c /\
  exists sid, length sid = 16%nat /\ AppendEncodingContext [] sid r c k = (p, None).
Proof.
  rewrite result_bind_ok. unfold AppendEncodingContext, encodeContext. split.
  - intros (ae & (h & body & Hh & (Hk & Hv & ->)%AppendEnvelope_ok & ->)%open_iff & Hd).
    unfold DecodeEncodingContext in Hd. go_inv Hd. simplify_eq. bools.
    match goal with E : DecodeEstablished _ = Ok _ |- _ =>
      apply DecodeEstablished_opened in E as (Hn & <- & Hr & Hvr & ->); [|done] end.
    match goal with E : (len _ =? _) = true |- _ => apply Z.eqb_eq in E as Hl end.
    destruct (contextBody_parse (Established_Body x)) as [Hb Hw]; [unfold EncodingContextBodySize, len in Hl; lia|done..|].
    split_and!; try done. exists (Header_SessionID (Established_Header x)). split; [apply Hh|].
    match goal with E : Validate _ = None |- _ => rewrite E end. rewrite Hb.
    apply AppendEstablished_ok. rewrite len_app, len_encodeRoute in Hv. unfold EncodingContextBodySize in Hl.
    assert (Hhd : {| Header_Type := TypeEncodingContext;
                     Header_SessionID := Header_SessionID (Established_Header x) |} = Established_Header x).
    { destruct (Established_Header x) as [t s]; cbn in *. f_equal. lia. }
    rewrite Hhd. split_and!; try done; lia.
  - intros (Hr & Hc & sid & Hsid & H). destruct (Validate c) eqn:Ev; [done|].
    apply AppendEstablished_ok in H as (Hk & Hn & Hl & Hv & Hvr & ->). cbn [app].
    set (h := {| Header_Type := TypeEncodingContext; Header_SessionID := sid |}) in *.
    exists (opened k h (encodeRoute r ++ contextBody c)). assert (Hh : Header_wf h) by (by split).
    split.
    + apply open_iff. do 2 eexists. split_and!; [done| |done]. apply AppendEnvelope_ok.
      by rewrite len_app, len_encodeRoute.
    + unfold DecodeEncodingContext.
      assert (DecodeEstablished (opened k h (encodeRoute r ++ contextBody c))
        = Ok {| Established_Header := h; Established_Route := r; Established_Body := contextBody c |}) as ->
        by (by apply DecodeEstablished_opened).
      cbn [result_bind Established_Header Established_Body Established_Route Header_Type h].
      rewrite len_contextBody, parse_contextBody, Ev by done.
      assert (slice 14 16 (contextBody c) = replicate 2 Byte.x00 /\
              slice 20 24 (contextBody c) = replicate 4 Byte.x00) as [-> ->]
        by (unfold contextBody; cbn [app]; split; by slices).
      done.
Qed.

(** An acknowledgement binds one context.  A context validates against the
    acknowledgement built from it; and whenever an acknowledgement validates two valid
    contexts, either they are the same context or their distinct 24-byte encodings
    collide under SHA-256. *)
Theorem ContextAck_binds (ack : EncodingContextAck) (c1 c2 : EncodingContext)
    (H1 : Context_wf c1) (H2 : Context_wf c2) :
  (Validate c1 = None ->
     exists a, NewEncodingContextAck c1 = Ok a /\ ValidateContext a c1 = None) /\
  (ValidateContext ack c1 = None -> ValidateContext ack c2 = None ->
     c1 = c2 \/ (contextBody c1 <> contextBody c2 /\
                 sha256 (contextBody c1) = sha256 (contextBody c2))).
Proof.
  unfold ValidateContext, NewEncodingContextAck, encodeContext. split.
  - intros ->. eexists. split; [done|]. simpl. by rewrite decide_True.
  - destruct (Validate c1); [done|]. destruct (Validate c2); [done|]. simpl.
    destruct (decide _) as [Ha1|]; [|done]. destruct (decide _) as [Ha2|]; [|done].
    intros _ _. assert (Hd : sha256 (contextBody c1) = sha256 (contextBody c2)).
    { rewrite Ha1 in Ha2. exact (f_equal Ack_Digest Ha2). }
    destruct (decide (contextBody c1 = contextBody c2)) as [E|Hne].
    + left. by apply contextBody_inj.
    + right. split; [exact Hne|exact Hd].
Qed.

(** ** FEC bundles *)

(** The caller's read-only context lookup; a nil function is [None]. *)
Definition ContextLookup := option (Z -> option EncodingContext).

Record FECRecord := {
  GroupID : Z; EncodingEpoch : Z; LogicalBytes : Z; Record_ShardIndex : Z; Record_Payload : bytes }.

Record FECBundle := {
  Bundle_Header : Header; Bundle_Route : Route; Records : list FECRecord }.

Record contextCache := { lookup : ContextLookup; contexts : list EncodingContext }.

Definition contextCache_get (c : contextCache) (epoch : Z)
    : result WireError EncodingContext * contextCache :=
  if epoch =? 0 then (Err ErrInvalidContext, c) else
  match List.find (fun ctx => Epoch ctx =? epoch) (contexts c) with
  | Some ctx => (Ok ctx, c)
  | None =>
    match lookup c with
    | None => (Err ErrContextUnavailable, c)
    | Some f =>
      match f epoch with
      | None => (Err ErrContextUnavailable, c)
      | Some ctx =>
        if negb (Epoch ctx =? epoch) then (Err ErrInvalidContext, c) else
        match Validate ctx with
        | Some e => (Err e, c)
        | None => (Ok ctx, {| lookup := lookup c; contexts := contexts c ++ [ctx] |})
        end
      end
    end
  end.

Definition validateFECRecord (r : FECRecord) (c : EncodingContext) : option WireError :=
  if (GroupID r =? 0) || (LogicalBytes r <? MinimumFECLogicalBytes)
     || (MaxLogicalBytes c <? LogicalBytes r)
     || (DataShards c + ParityShards c <=? Record_ShardIndex r)
     || negb (len (Record_Payload r) =? ShardBytes c)
  then Some ErrInvalidFECBundle else
  if Record_ShardIndex r <? DataShards c then
    let start := Record_ShardIndex r * ShardBytes c in
    let used := if start <? LogicalBytes r then Z.min (LogicalBytes r - start) (ShardBytes c) else 0 in
    if negb (allZero (drop (Z.to_nat used) (Record_Payload r))) then Some ErrInvalidFECBundle else None
  else None.

Definition duplicateGroup (rs : list FECRecord) (groupID : Z) : bool :=
  existsb (fun r => GroupID r =? groupID) rs.

(** The validation loop of [appendFECBundle]: the typed bytes so far, or an error. *)
Fixpoint validateRecords (c : contextCache) (maxPayload : Z) (before : list FECRecord)
    (typedBytes : Z) (rs : list FECRecord) : result WireError Z :=
  match rs with
  | [] => Ok typedBytes
  | r :: rest =>
    fail duplicateGroup before (GroupID r) with ErrInvalidFECBundle in
    let '(ctx, c) := contextCache_get c (EncodingEpoch r) in
    let? context := ctx in
    check validateFECRecord r context in
    let recordBytes := FECRecordHeaderSize + len (Record_Payload r) in
    fail maxPayload - TypedBodyOverhead - typedBytes <? recordBytes with ErrPacketTooLarge in
    validateRecords c maxPayload (before ++ [r]) (typedBytes + recordBytes) rest
  end.

Definition encodeRecord (r : FECRecord) : bytes :=
  be_put 8 (GroupID r) ++ be_put 4 (EncodingEpoch r) ++ be_put 4 (LogicalBytes r)
  ++ [byte_of_Z (Record_ShardIndex r); Byte.x00] ++ Record_Payload r.

Definition encodeRecords (rs : list FECRecord) : bytes := concat (map encodeRecord rs).

Definition bundleBody (b : FECBundle) : bytes :=
  encodeRoute (Bundle_Route b) ++ be_put 2 (len (Records b)) ++ replicate 2 Byte.x00
  ++ encodeRecords (Records b).

Definition appendFECBundle (dst : bytes) (b : FECBundle) (f : ContextLookup) (k : Key)
    (maxPayload : Z) (a : option Authenticator) : (bytes * option WireError) * option Authenticator :=
  let h := Bundle_Header b in
  if negb (Header_Type h =? TypeFECBundle) then ((dst, Some ErrUnknownPacketType), a) else
  if decide (Header_SessionID h = zero16) then ((dst, Some ErrInvalidSessionID), a) else
  if decide (k = zero32) then ((dst, Some ErrInvalidKey), a) else
  match validateRoute (Header_Type h) (Bundle_Route b) with
  | Some e => ((dst, Some e), a)
  | None =>
  match validatePayloadLimit maxPayload with
  | Some e => ((dst, Some e), a)
  | None =>
    if (len (Records b) <? 1) || (MaxFECRecords <? len (Records b))
    then ((dst, Some ErrInvalidFECBundle), a) else
    match validateRecords {| lookup := f; contexts := [] |} maxPayload [] FECBundlePrefixSize
            (Records b) with
    | Err e => ((dst, Some e), a)
    | Ok _ => appendEnvelope dst h (bundleBody b) k a
    end
  end
  end.

Definition AppendFECBundle (dst : bytes) (b : FECBundle) (f : ContextLookup) (k : Key)
    (maxPayload : Z) : bytes * option WireError := fst (appendFECBundle dst b f k maxPayload None).

(** One record per iteration, [count] of them; the rest of the body is returned. *)
Fixpoint decodeRecords (count : nat) (c : contextCache) (before : list FECRecord) (body : bytes)
    : result WireError (list FECRecord * bytes) :=
  match count with
  | O => Ok (before, body)
  | S count' =>
    fail len body <? FECRecordHeaderSize with ErrMalformed in
    fail negb (byte_at 17 body =? 0) || duplicateGroup before (be_get (slice 0 8 body))
      with ErrInvalidFECBundle in
    let '(ctx, c) := contextCache_get c (be_get (slice 8 12 body)) in
    let? context := ctx in
    let body' := drop 18 body in
    fail len body' <? ShardBytes context with ErrMalformed in
    let n := Z.to_nat (ShardBytes context) in
    let r := {| GroupID := be_get (slice 0 8 body); EncodingEpoch := be_get (slice 8 12 body);
                LogicalBytes := be_get (slice 12 16 body);
                Record_ShardIndex := byte_at 16 body; Record_Payload := take n body' |} in
    check validateFECRecord r context in
    decodeRecords count' c (before ++ [r]) (drop n body')
  end.

Definition DecodeFECBundle (e : AuthenticatedEnvelope) (f : ContextLookup) (maxPayload : Z)
    : result WireError FECBundle :=
  let? m := DecodeEstablished e in
  fail negb (Header_Type (Established_Header m) =? TypeFECBundle) with ErrUnknownPacketType in
  check validatePayloadLimit maxPayload in
  fail maxPayload <? len (packet (envelope e)) with ErrPacketTooLarge in
  let body := Established_Body m in
  fail (len body <? FECBundlePrefixSize) || negb (allZero (slice 2 4 body)) with ErrMalformed in
  let count := be_get (slice 0 2 body) in
  fail (count <? 1) || (MaxFECRecords <? count) with ErrInvalidFECBundle in
  let? out := decodeRecords (Z.to_nat count) {| lookup := f; contexts := [] |} [] (drop 4 body) in
  fail negb (len (snd out) =? 0) with ErrMalformed in
  Ok {| Bundle_Header := Established_Header m; Bundle_Route := Established_Route m;
        Records := fst out |}.

(** ** The authenticator's entry points *)

Definition Authenticator_AppendFECBundle (a : Authenticator) (dst : bytes) (b : FECBundle)
    (f : ContextLookup) (maxPayload : Z) : (bytes * option WireError) * Authenticator :=
  match mac a with
  | None => ((dst, Some ErrInvalidKey), a)
  | Some _ => let '(r, a') := appendFECBundle dst b f (key a) maxPayload (Some a) in (r, default a a')
  end.

Definition sampleContext : EncodingContext := {|
  Epoch := 1; LayoutID := 1; ProtectionID := 1; DataShards := 4; ParityShards := 2;
  ShardBytes := 100; MaxDescriptors := 8; MaxLogicalBytes := 400 |}.

Lemma ContextAck_binds_witness :
  exists a, NewEncodingContextAck sampleContext = Ok a /\ ValidateContext a sampleContext = None.
Proof.
  assert (Hwf : Context_wf sampleContext) by (split; split; vm_compute; congruence).
  apply (proj1 (ContextAck_binds {| Ack_Epoch := 1; Ack_Digest := [] |} _ _ Hwf Hwf)).
  reflexivity.
Defined.
