(* ===== verification/WireV2BundleProps.v ===== *)
(** * Properties of the FEC bundle codec and of the directional authenticator *)

From S2P Require Import Prelude Sha256 WireV2 WireV2Bundle.

(** ** The context cache answers as the lookup does *)

(** What one uncached query answers. *)
Definition contextFor (f : ContextLookup) (epoch : Z) : result WireError EncodingContext :=
  fst (contextCache_get {| lookup := f; contexts := [] |} epoch).

Definition cache_ok (f : ContextLookup) (c : contextCache) : Prop :=
  lookup c = f /\ Forall (fun ctx => contextFor f (Epoch ctx) = Ok ctx) (contexts c).

Lemma contextFor_epoch f epoch ctx :
  contextFor f epoch = Ok ctx ->
  Epoch ctx = epoch /\ Validate ctx = None /\ epoch <> 0 /\ exists g, f = Some g /\ g epoch = Some ctx.
Proof.
  unfold contextFor, contextCache_get. cbn [List.find contexts lookup]. intros H.
  destruct (epoch =? 0) eqn:E0; [done|]. destruct f as [g|]; [|done].
  destruct (g epoch) as [c|] eqn:Eg; [|done]. destruct (negb _) eqn:En; [done|].
  destruct (Validate c) eqn:Ev; [done|]. cbn in H. injection H as <-. bools.
  split_and!; [lia|done|lia|]. eauto.
Qed.

Lemma contextCache_get_spec f c epoch :
  cache_ok f c ->
  let '(r, c') := contextCache_get c epoch in r = contextFor f epoch /\ cache_ok f c'.
Proof.
  intros [Hf Hc]. unfold contextCache_get, contextFor at 1, contextCache_get.
  cbn [List.find contexts lookup]. destruct (epoch =? 0) eqn:E0; [done|].
  destruct (List.find _ (contexts c)) as [ctx|] eqn:Ef.
  - apply List.find_some in Ef as [Hin He]. split; [|done]. rewrite Forall_forall in Hc.
    apply list_elem_of_In in Hin. specialize (Hc _ Hin).
    assert (Epoch ctx = epoch) as Hep by lia. rewrite Hep in Hc.
    unfold contextFor, contextCache_get in Hc. cbn [List.find contexts lookup] in Hc. by rewrite E0 in Hc.
  - rewrite Hf. destruct f as [g|]; [|done]. destruct (g epoch) as [ctx|] eqn:Eg; [|done].
    destruct (negb _) eqn:En; [done|]. destruct (Validate ctx) eqn:Ev; [done|].
    split; [done|]. split; [done|]. cbn [contexts]. apply Forall_app. split; [done|].
    constructor; [|done]. bools. assert (Epoch ctx = epoch) as -> by lia.
    unfold contextFor, contextCache_get. cbn [List.find contexts lookup]. by rewrite E0, Eg, En, Ev.
Qed.

Lemma cache_ok_empty f : cache_ok f {| lookup := f; contexts := [] |}.
Proof. by split. Qed.

(** ** What both loops accept *)

Record FECRecord_wf (r : FECRecord) : Prop := {
  fw_group : in_u 64 (GroupID r); fw_epoch : in_u 32 (EncodingEpoch r);
  fw_logical : in_u 32 (LogicalBytes r); fw_index : in_u 8 (Record_ShardIndex r) }.

Definition record_ok (f : ContextLookup) (r : FECRecord) : Prop :=
  exists ctx, contextFor f (EncodingEpoch r) = Ok ctx /\ validateFECRecord r ctx = None.

Fixpoint groups_fresh (before rs : list FECRecord) : Prop :=
  match rs with
  | [] => True
  | r :: rest => duplicateGroup before (GroupID r) = false /\ groups_fresh (before ++ [r]) rest
  end.

Lemma validateFECRecord_payload r ctx :
  validateFECRecord r ctx = None -> len (Record_Payload r) = ShardBytes ctx.
Proof. unfold validateFECRecord. intros H. go_step H; [done|]. bools. lia. Qed.

Lemma len_encodeRecord r : len (encodeRecord r) = 18 + len (Record_Payload r).
Proof. unfold encodeRecord. autorewrite with len. lia. Qed.

Lemma encodeRecords_cons r rs : encodeRecords (r :: rs) = encodeRecord r ++ encodeRecords rs.
Proof. done. Qed.

Lemma validateRecords_ok f max : forall rs c before typed n,
  cache_ok f c ->
  (validateRecords c max before typed rs = Ok n <->
   groups_fresh before rs /\ Forall (record_ok f) rs /\
   n = typed + len (encodeRecords rs) /\ (rs = [] \/ n <= max - 72)).
Proof.
  induction rs as [|r rs IH]; intros c before typed n Hc.
  - cbn [validateRecords]. change (len (encodeRecords [])) with 0. split.
    + intros [= <-]. split_and!; try done; [lia|by left].
    + intros (_ & _ & -> & _). f_equal. lia.
  - cbn [validateRecords groups_fresh]. rewrite encodeRecords_cons, len_app, len_encodeRecord, Forall_cons.
    pose proof (len_nonneg (Record_Payload r)). pose proof (len_nonneg (encodeRecords rs)).
    destruct (duplicateGroup _ _); [naive_solver|].
    pose proof (contextCache_get_spec f c (EncodingEpoch r) Hc) as Hg.
    destruct (contextCache_get c (EncodingEpoch r)) as [ctx c']. destruct Hg as [-> Hc'].
    unfold record_ok at 1. destruct (contextFor f (EncodingEpoch r)) as [ctx|]; [|naive_solver].
    cbn [result_bind]. destruct (validateFECRecord r ctx) eqn:Ev; [naive_solver|].
    unfold FECRecordHeaderSize. sizes. destruct (_ <? _) eqn:Es.
    + split; [done|]. intros (_ & _ & -> & [?|?]); [done|lia].
    + rewrite IH by done. split.
      * intros (? & ? & -> & Hs). split; [done|]. split; [by eauto|]. split; [lia|]. right.
        destruct Hs as [->|]; [|lia]. change (len (encodeRecords [])) with 0. lia.
      * intros ([_ ?] & [_ ?] & -> & [?|?]); [done|]. split; [done|]. split; [done|]. split; [lia|right; lia].
Qed.

(** One record, read back. *)
Lemma record_fields r rest :
  FECRecord_wf r ->
  let body := encodeRecord r ++ rest in
  be_get (slice 0 8 body) = GroupID r /\ be_get (slice 8 12 body) = EncodingEpoch r /\
  be_get (slice 12 16 body) = LogicalBytes r /\ byte_at 16 body = Record_ShardIndex r /\
  byte_at 17 body = 0 /\ drop 18 body = Record_Payload r ++ rest.
Proof.
  intros [? ? ? ?] body. unfold body, encodeRecord. rewrite <- !app_assoc. cbn [app].
  change Byte.x00 with (byte_of_Z 0). split_and!; slices; rewrite ?be_get_put_small by width;
    done.
Qed.

Lemma record_parts body n :
  (18 + n <= length body)%nat -> byte_at 17 body = 0 ->
  let r := {| GroupID := be_get (slice 0 8 body); EncodingEpoch := be_get (slice 8 12 body);
              LogicalBytes := be_get (slice 12 16 body); Record_ShardIndex := byte_at 16 body;
              Record_Payload := take n (drop 18 body) |} in
  FECRecord_wf r /\ encodeRecord r ++ drop n (drop 18 body) = body.
Proof.
  intros Hl H17 r. split.
  - split; cbn; [apply (be_get_slice_range 8)|apply (be_get_slice_range 4)|
      apply (be_get_slice_range 4)|apply byte_at_range]; lia.
  - unfold encodeRecord, r. cbn [GroupID EncodingEpoch LogicalBytes Record_ShardIndex Record_Payload].
    rewrite <- !app_assoc. cbn [app]. rewrite take_drop.
    assert (Byte.x00 = byte_of_Z (byte_at 17 body)) as -> by (by rewrite H17).
    unslice. by rewrite drop_0.
Qed.

Lemma decodeRecords_prefix n : forall c before body out rest,
  decodeRecords n c before body = Ok (out, rest) -> exists q, out = before ++ q.
Proof.
  induction n as [|n IH]; intros c before body out rest H; cbn [decodeRecords] in H.
  - injection H as <- _. exists []. by rewrite app_nil_r.
  - go_step H; [done|]. go_step H; [done|]. destruct (contextCache_get _ _) as [o c'].
    apply result_bind_ok in H as (ctx & _ & H). cbv beta zeta in H. go_step H; [done|].
    go_step H; [done|]. apply IH in H as [q ->]. rewrite <- app_assoc. eauto.
Qed.

Lemma decodeRecords_ok f : forall n c before body rs rest,
  cache_ok f c ->
  (decodeRecords n c before body = Ok (before ++ rs, rest) <->
   length rs = n /\ Forall FECRecord_wf rs /\ groups_fresh before rs /\ Forall (record_ok f) rs /\
   body = encodeRecords rs ++ rest).
Proof.
  induction n as [|n IH]; intros c before body rs rest Hc.
  - cbn [decodeRecords]. split.
    + intros [= Hb ->]. assert (rs = []) as -> by (apply (app_inv_head before); by rewrite app_nil_r). done.
    + intros (Hn & _ & _ & _ & ->). apply nil_length_inv in Hn as ->. by rewrite app_nil_r.
  - cbn [decodeRecords]. split.
    + intros H. go_step H; [done|]. go_step H; [done|]. bools.
      pose proof (contextCache_get_spec f c (be_get (slice 8 12 body)) Hc) as Hg.
      destruct (contextCache_get c (be_get (slice 8 12 body))) as [ctx c']. destruct Hg as [-> Hc'].
      apply result_bind_ok in H as (ctx & Hctx & H). cbv beta zeta in H.
      destruct (len (drop 18 body) <? ShardBytes ctx) eqn:Es; [done|].
      set (r := Build_FECRecord _ _ _ _ _) in H. destruct (validateFECRecord r ctx) eqn:Ev; [done|].
      assert (Hpos : 0 <= ShardBytes ctx) by (apply validateFECRecord_payload in Ev; pose proof (len_nonneg (Record_Payload r)); lia).
      unfold FECRecordHeaderSize, len in *. rewrite length_drop in Es.
      destruct (record_parts body (Z.to_nat (ShardBytes ctx))) as [Hw He];
        [apply Z.ltb_ge in E, Es; clear -E Es Hpos; lia|lia|]. fold r in Hw, He.
      set (body' := drop _ (drop 18 body)) in *.
      destruct (decodeRecords_prefix _ _ _ _ _ _ H) as [q Hq]. rewrite <- app_assoc in Hq.
      apply app_inv_head in Hq as ->. rename q into rs'.
      change ([r] ++ rs') with (r :: rs') in *.
      replace (before ++ r :: rs') with ((before ++ [r]) ++ rs') in H by (by rewrite <- app_assoc).
      apply IH in H as (Hn & Hwf & Hfr & Hok & Hb); [|done].
      cbn [groups_fresh]. split_and!; try done.
      * cbn. by rewrite Hn.
      * by constructor.
      * constructor; [by exists ctx|done].
      * by rewrite encodeRecords_cons, <- app_assoc, <- Hb, He.
    + intros (Hn & Hwf & Hfr & Hok & ->). destruct rs as [|r rs]; [done|].
      apply Forall_cons in Hwf as [Hr Hwf]. apply Forall_cons in Hok as [(ctx & Hctx & Hv) Hok].
      cbn [groups_fresh] in Hfr. destruct Hfr as [Hd Hfr].
      rewrite encodeRecords_cons, <- app_assoc.
      pose proof (record_fields r (encodeRecords rs ++ rest) Hr) as Hf. cbv zeta in Hf.
      destruct Hf as (F1 & F2 & F3 & F4 & F5 & F6). rewrite F1, F2, F3, F4, F5, F6, Hd.
      pose proof (len_nonneg (Record_Payload r)). pose proof (len_nonneg (encodeRecords rs ++ rest)).
      unfold FECRecordHeaderSize. rewrite !len_app with (l1 := encodeRecord r), len_encodeRecord.
      rewrite (proj2 (Z.ltb_ge _ _)) by lia. cbn [Z.eqb negb orb].
      pose proof (contextCache_get_spec f c (EncodingEpoch r) Hc) as Hg.
      destruct (contextCache_get c (EncodingEpoch r)) as [o c']. destruct Hg as [-> Hc'].
      rewrite Hctx. cbn [result_bind]. pose proof (validateFECRecord_payload _ _ Hv) as Hp.
      rewrite !len_app with (l1 := Record_Payload r). rewrite (proj2 (Z.ltb_ge _ _)) by lia.
      rewrite <- Hp. assert (Z.to_nat (len (Record_Payload r)) = length (Record_Payload r)) as ->
        by (unfold len; lia).
      rewrite take_app_length, drop_app_length.
      replace {| GroupID := GroupID r |} with r by by destruct r. rewrite Hv.
      replace (before ++ r :: rs) with ((before ++ [r]) ++ rs) by (by rewrite <- app_assoc).
      apply IH; [done|]. split_and!; try done. by injection Hn.
Qed.

(** ** The bundle codec *)

Record FECBundle_wf (b : FECBundle) : Prop := {
  bw_header : Header_wf (Bundle_Header b); bw_route : Route_wf (Bundle_Route b);
  bw_records : Forall FECRecord_wf (Records b) }.

(** What makes a bundle encodable under a lookup and a payload limit. *)
Record bundle_ok (f : ContextLookup) (maxPayload : Z) (b : FECBundle) : Prop := {
  bo_type : Header_Type (Bundle_Header b) = TypeFECBundle;
  bo_sid : Header_SessionID (Bundle_Header b) <> zero16;
  bo_route : validateRoute TypeFECBundle (Bundle_Route b) = None;
  bo_limit : 512 <= maxPayload <= 65507;
  bo_count : 1 <= len (Records b) <= 16;
  bo_groups : groups_fresh [] (Records b);
  bo_records : Forall (record_ok f) (Records b);
  bo_size : 76 + len (encodeRecords (Records b)) <= maxPayload }.

Lemma validatePayloadLimit_ok n : validatePayloadLimit n = None <-> 512 <= n <= 65507.
Proof. unfold validatePayloadLimit. sizes. destruct (_ || _) eqn:E; split; intros; (done || lia). Qed.

Lemma len_bundleBody b : len (bundleBody b) = 20 + len (encodeRecords (Records b)).
Proof. unfold bundleBody. autorewrite with len. lia. Qed.

Lemma validateEnvelope_bundle h n :
  Header_Type h = TypeFECBundle -> Header_SessionID h <> zero16 -> 16 <= n <= 65451 ->
  validateEnvelope h n = None.
Proof.
  intros Ht Hs Hn. unfold validateEnvelope. rewrite Ht, decide_False by done. sizes. simpl.
  rewrite (proj2 (Z.ltb_ge _ _)) by lia. by rewrite (proj2 (Z.ltb_ge _ _)) by lia.
Qed.

Lemma AppendFECBundle_ok dst b f k max out :
  AppendFECBundle dst b f k max = (out, None) <->
  k <> zero32 /\ bundle_ok f max b /\ out = dst ++ seal k (Bundle_Header b) (bundleBody b).
Proof.
  unfold AppendFECBundle, appendFECBundle.
  destruct (Header_Type (Bundle_Header b) =? TypeFECBundle) eqn:Et; cbn [negb];
    [|split; [done|]; intros (_ & [] & _); lia].
  apply Z.eqb_eq in Et. destruct (decide (Header_SessionID _ = _)) as [Hs|Hs];
    [split; [done|]; by intros (_ & [] & _)|].
  destruct (decide (k = zero32)); [split; [done|]; by intros (? & _)|].
  rewrite Et. destruct (validateRoute _ _) eqn:Er; [split; [done|]; intros (_ & [] & _); congruence|].
  destruct (validatePayloadLimit max) eqn:El.
  { split; [done|]. intros (_ & [] & _). assert (validatePayloadLimit max = None) by (by apply validatePayloadLimit_ok).
    congruence. }
  apply validatePayloadLimit_ok in El. unfold MaxFECRecords.
  destruct (_ || _) eqn:Ec; [split; [done|]; intros (_ & [] & _); lia|].
  pose proof (validateRecords_ok f max (Records b) {| lookup := f; contexts := [] |} [] FECBundlePrefixSize)
    as Hrec. unfold FECBundlePrefixSize in *.
  destruct (validateRecords _ _ _ _ _) as [n0|e].
  - destruct (proj1 (Hrec n0 (cache_ok_empty f)) eq_refl) as (Hg & Ho & -> & Hsz).
    assert (Hne : Records b <> []) by (intros Hb; rewrite Hb in Ec; done).
    destruct Hsz as [|Hsz]; [done|]. pose proof (len_nonneg (encodeRecords (Records b))).
    change (fst (appendEnvelope dst (Bundle_Header b) (bundleBody b) k None))
      with (AppendEnvelope dst (Bundle_Header b) (bundleBody b) k).
    rewrite AppendEnvelope_ok, len_bundleBody, validateEnvelope_bundle by (done || lia).
    split; [intros (? & _ & ->)|intros (? & _ & ->); done]. split_and!; [done| |done]. split; try done; lia.
  - split; [done|]. intros (_ & [] & _).
    assert (Err e = Ok (4 + len (encodeRecords (Records b)))); [|done]. apply (Hrec _ (cache_ok_empty f)).
    split_and!; try done. right. lia.
Qed.

Lemma bundle_body_fields r n recs :
  in_u 16 n ->
  let body := be_put 2 n ++ replicate 2 Byte.x00 ++ recs in
  be_get (slice 0 2 body) = n /\ slice 2 4 body = replicate 2 Byte.x00 /\ drop 4 body = recs /\
  encodeRoute r ++ body = encodeRoute r ++ be_put 2 n ++ replicate 2 Byte.x00 ++ recs.
Proof. intros Hn body. unfold body. split_and!; slices; try done. by apply be_get_put_small. Qed.

Lemma DecodeFECBundle_opened k h body f max b :
  Header_wf h -> validateEnvelope h (len body) = None ->
  (DecodeFECBundle (opened k h body) f max = Ok b <->
   Bundle_Header b = h /\ FECBundle_wf b /\ bundle_ok f max b /\ body = bundleBody b).
Proof.
  intros Hh Hv. assert (Hpk : len (seal k h body) = 56 + len body).
  { unfold len. rewrite length_seal by apply Hh. lia. }
  unfold DecodeFECBundle. rewrite result_bind_ok. cbn [packet envelope opened]. rewrite Hpk. split.
  - intros (m & Hm & H). apply DecodeEstablished_opened in Hm as (Hn & <- & Hr & Hvr & ->); [|done].
    go_step H; [done|]. bools. destruct (validatePayloadLimit max) eqn:El; [done|].
    apply validatePayloadLimit_ok in El. go_step H; [done|]. cbv beta zeta in H. go_step H; [done|].
    go_step H; [done|]. bools. apply result_bind_ok in H as ([rs rest] & Hd & H). cbn [fst snd] in H.
    go_step H; [done|]. injection H as <-. bools. assert (rest = []) as -> by (apply len_zero; lia).
    change rs with ([] ++ rs) in Hd. apply (decodeRecords_ok f) in Hd as (Hc & Hw & Hg & Ho & Hb);
      [|apply cache_ok_empty]. rewrite app_nil_r in Hb.
    set (tb := Established_Body m) in *. unfold FECBundlePrefixSize, MaxFECRecords in *.
    assert (Hlr : len rs = be_get (slice 0 2 tb)) by (unfold len; lia).
    assert (Hbody : tb = be_put 2 (len rs) ++ replicate 2 Byte.x00 ++ encodeRecords rs).
    { rewrite <- Hb, Hlr. assert (Ht : (4 <= length tb)%nat) by (unfold len in *; lia).
      match goal with E : allZero (slice 2 4 tb) = true |- _ => apply allZero_eq in E as Hz end.
      rewrite length_slice in Hz by lia. cbn [Nat.sub] in Hz. rewrite <- Hz. unslice. by rewrite drop_0. }
    assert (Hbb : encodeRoute (Established_Route m) ++ tb
                  = bundleBody {| Bundle_Header := Established_Header m;
                                  Bundle_Route := Established_Route m; Records := rs |})
      by (unfold bundleBody; cbn; by rewrite Hbody).
    cbn [Bundle_Header]. assert (Htype : Header_Type (Established_Header m) = TypeFECBundle) by lia.
    split_and!; [done|by split| |done]. rewrite Hbb, len_bundleBody in *. cbn [Records] in *.
    split; cbn [Bundle_Header Bundle_Route Records]; try done; try lia.
    + by apply validateEnvelope_size in Hv as (_ & ? & _).
    + by rewrite <- Htype.
  - intros (<- & [_ Hr Hw] & [Ht Hs Hvr Hl Hc Hg Ho Hsz] & ->).
    exists {| Established_Header := Bundle_Header b; Established_Route := Bundle_Route b;
              Established_Body := be_put 2 (len (Records b)) ++ replicate 2 Byte.x00
                                  ++ encodeRecords (Records b) |}.
    split. { apply DecodeEstablished_opened; [done|]. cbn. rewrite Ht. split_and!; done. }
    cbn [Established_Header Established_Body Established_Route]. rewrite Ht, Z.eqb_refl. cbn [negb].
    rewrite (proj2 (validatePayloadLimit_ok max) Hl), len_bundleBody.
    rewrite (proj2 (Z.ltb_ge _ _)) by lia.
    destruct (bundle_body_fields (Bundle_Route b) (len (Records b)) (encodeRecords (Records b)))
      as (F1 & F2 & F3 & _); [unfold in_u; lia|]. rewrite F1, F2, F3. autorewrite with len.
    pose proof (len_nonneg (encodeRecords (Records b))). unfold FECBundlePrefixSize, MaxFECRecords.
    rewrite (proj2 (Z.ltb_ge _ _)) by lia. cbn [orb negb allZero replicate forallb].
    change (negb (allZero (replicate 2 Byte.x00))) with false. cbn [orb].
    replace ((len (Records b) <? 1) || (16 <? len (Records b))) with false by lia.
    assert (Z.to_nat (len (Records b)) = length (Records b)) as -> by (unfold len; lia).
    rewrite (proj2 (decodeRecords_ok f _ {| lookup := f; contexts := [] |} [] _ (Records b) [] (cache_ok_empty f)));
      [|by rewrite app_nil_r]. cbn [result_bind fst snd app]. change (len [] =? 0) with true.
    by destruct b.
Qed.

(** C29: The FEC bundle codec is a bijection.  Under the same key, context lookup and
    payload limit, a datagram opens to a bundle if and only if the bundle is a value of
    the Go types and [AppendFECBundle] produces that datagram: records come back in
    order with their exact payloads, no group is ever repeated, every record fits its
    context, and the datagram never exceeds the limit. *)
Theorem DecodeFECBundle_iff_Append (p : bytes) (k : Key) (f : ContextLookup) (maxPayload : Z)
    (b : FECBundle) :
  (result_bind (fun e => DecodeFECBundle e f maxPayload) (open p k) = Ok b <->
   FECBundle_wf b /\ AppendFECBundle [] b f k maxPayload = (p, None)) /\
  (FECBundle_wf b -> AppendFECBundle [] b f k maxPayload = (p, None) -> len p <= maxPayload).
Proof.
  rewrite result_bind_ok, AppendFECBundle_ok. split; [split|].
  - intros (ae & (h & body & Hh & (Hk & Hv & ->)%AppendEnvelope_ok & ->)%open_iff & Hd).
    by apply DecodeFECBundle_opened in Hd as (<- & Hw & Ho & ->).
  - intros (Hw & Hk & Ho & ->). pose proof Ho as [Ht Hs _ Hl _ _ _ Hsz].
    pose proof (len_nonneg (encodeRecords (Records b))).
    assert (Hv : validateEnvelope (Bundle_Header b) (len (bundleBody b)) = None)
      by (rewrite len_bundleBody; apply validateEnvelope_bundle; (done || lia)).
    exists (opened k (Bundle_Header b) (bundleBody b)). split.
    + apply open_iff. do 2 eexists. split_and!; [apply Hw| |done]. by apply AppendEnvelope_ok.
    + apply DecodeFECBundle_opened; [apply Hw|done|done].
  - intros [Hh _ _] (_ & [] & ->). cbn [app]. unfold len. rewrite length_seal by apply Hh.
    pose proof (len_bundleBody b) as Hb. unfold len in *. lia.
Qed.

(** ** The reusable authenticator against the stateless functions *)

Inductive AuthOp :=
| OpAppend (dst : bytes) (b : FECBundle) (f : ContextLookup) (maxPayload : Z)
| OpAuthenticate (e : Envelope)
| OpClose.

Inductive AuthOut :=
| OutAppend (r : bytes * option WireError)
| OutAuthenticate (r : result WireError AuthenticatedEnvelope)
| OutClose.

Definition authStep (a : Authenticator) (op : AuthOp) : AuthOut * Authenticator :=
  match op with
  | OpAppend dst b f max =>
      let '(r, a') := Authenticator_AppendFECBundle a dst b f max in (OutAppend r, a')
  | OpAuthenticate e => let '(r, a') := Authenticator_Authenticate a e in (OutAuthenticate r, a')
  | OpClose => (OutClose, Close a)
  end.

(** The contract: a key until [Close], and the stateless functions under it. *)
Definition specStep (k : option Key) (op : AuthOp) : AuthOut * option Key :=
  match op, k with
  | OpAppend dst b f max, Some k => (OutAppend (AppendFECBundle dst b f k max), Some k)
  | OpAppend dst b f max, None => (OutAppend (dst, Some ErrInvalidKey), None)
  | OpAuthenticate e, Some k => (OutAuthenticate (Authenticate e k), Some k)
  | OpAuthenticate e, None => (OutAuthenticate (Err ErrInvalidKey), None)
  | OpClose, _ => (OutClose, None)
  end.

Fixpoint run {S : Type} (f : S -> AuthOp -> AuthOut * S) (s : S) (ops : list AuthOp) : list AuthOut :=
  match ops with
  | [] => []
  | op :: ops => let '(o, s') := f s op in o :: run f s' ops
  end.

(** The hash state belongs to the key, whatever bytes it has absorbed. *)
Definition auth_rel (a : Authenticator) (k : option Key) : Prop :=
  match mac a, k with
  | Some m, Some k => mac_key m = k /\ key a = k
  | None, None => True
  | _, _ => False
  end.

Lemma appendEnvelope_auth dst h body a m :
  mac a = Some m -> mac_key m = key a ->
  fst (appendEnvelope dst h body (key a) (Some a)) = AppendEnvelope dst h body (key a) /\
  exists a', snd (appendEnvelope dst h body (key a) (Some a)) = Some a' /\
    auth_rel a' (Some (key a)).
Proof.
  intros Hm Hk. unfold AppendEnvelope, appendEnvelope. destruct a as [ka ma pa ta]. cbn [mac key] in *. subst ma.
  destruct (decide (ka = zero32)); [split; [done|]; eexists; split; [done|]; by cbn|].
  destruct (validateEnvelope h (len body)); [split; [done|]; eexists; split; [done|]; by cbn|].
  unfold appendSignedEnvelope. cbn. subst ka. split; [done|]. eexists. split; [done|]. by cbn.
Qed.

Lemma AppendFECBundle_auth a m dst b f max :
  mac a = Some m -> mac_key m = key a ->
  fst (Authenticator_AppendFECBundle a dst b f max) = AppendFECBundle dst b f (key a) max /\
  auth_rel (snd (Authenticator_AppendFECBundle a dst b f max)) (Some (key a)).
Proof.
  intros Hm Hk. assert (Hrel : auth_rel a (Some (key a))) by (unfold auth_rel; by rewrite Hm).
  unfold Authenticator_AppendFECBundle. rewrite Hm. unfold AppendFECBundle, appendFECBundle.
  destruct (negb _); [done|]. destruct (decide _); [done|]. destruct (decide _); [done|].
  destruct (validateRoute _ _); [done|]. destruct (validatePayloadLimit _); [done|].
  destruct (_ || _); [done|]. destruct (validateRecords _ _ _ _ _); [|done].
  pose proof (appendEnvelope_auth dst (Bundle_Header b) (bundleBody b) a m Hm Hk) as [H1 (a' & H2 & H3)].
  unfold AppendEnvelope in H1.
  destruct (appendEnvelope dst (Bundle_Header b) (bundleBody b) (key a) (Some a)) as [r o]. cbn in *.
  subst o. by rewrite <- H1.
Qed.

Lemma Authenticate_auth a m e :
  mac a = Some m -> mac_key m = key a ->
  fst (Authenticator_Authenticate a e) = Authenticate e (key a) /\
  auth_rel (snd (Authenticator_Authenticate a e)) (Some (key a)).
Proof.
  intros Hm Hk. assert (Hrel : auth_rel a (Some (key a))) by (unfold auth_rel; by rewrite Hm).
  unfold Authenticator_Authenticate. rewrite Hm. unfold Authenticate, authenticate.
  destruct (decide _); [done|]. destruct (_ <? _); [done|].
  destruct a as [ka ma pa ta]. cbn in Hm, Hk. subst ma. unfold verifyEnvelope. cbn [fst mac key].
  unfold mac_Sum, mac_Write, mac_Reset, hmac_New. cbn [mac_key mac_written app]. rewrite Hk.
  by destruct (hmac_Equal _ _).
Qed.

Lemma v2_authStep_spec a k op :
  auth_rel a k ->
  fst (authStep a op) = fst (specStep k op) /\ auth_rel (snd (authStep a op)) (snd (specStep k op)).
Proof.
  intros Hrel. unfold auth_rel in Hrel. destruct (mac a) as [m|] eqn:Hm, k as [k|]; try done.
  - destruct Hrel as [Hk Hka]. destruct op as [dst b f max|e|]; cbn [authStep specStep].
    + destruct (AppendFECBundle_auth a m dst b f max Hm) as [H1 H2]; [congruence|].
      destruct (Authenticator_AppendFECBundle a dst b f max) as [r a']. cbn in *. by rewrite H1, Hka in *.
    + destruct (Authenticate_auth a m e Hm) as [H1 H2]; [congruence|].
      destruct (Authenticator_Authenticate a e) as [r a']. cbn in *. by rewrite H1, Hka in *.
    + done.
  - destruct op as [dst b f max|e|]; cbn [authStep specStep]; [| |done].
    + unfold Authenticator_AppendFECBundle, auth_rel. rewrite Hm. cbn. by rewrite Hm.
    + unfold Authenticator_Authenticate, auth_rel. rewrite Hm. cbn. by rewrite Hm.
Qed.

(** C30: The reusable authenticator is the stateless codec under its key.  Whatever
    bundles are appended and envelopes authenticated on an authenticator, in whatever
    order and whatever its scratch state, every result equals the stateless function's
    under the key it was built with, until [Close], after which every call reports an
    invalid key. *)
Theorem Authenticator_refines_stateless (k : Key) (a : Authenticator) (ops : list AuthOp)
    (Hnew : NewAuthenticator k = Ok a) :
  run authStep a ops = run specStep (Some k) ops.
Proof.
  assert (Hrel : auth_rel a (Some k)).
  { unfold NewAuthenticator in Hnew. destruct (decide _); [done|]. by injection Hnew as <-. }
  clear Hnew. revert Hrel. generalize (Some k). revert a.
  induction ops as [|op ops IH]; intros a o Hrel; [done|]. cbn [run].
  destruct (v2_authStep_spec a o op Hrel) as [H1 H2].
  destruct (authStep a op) as [x a'], (specStep o op) as [y o']. cbn in *. subst. f_equal. by apply IH.
Qed.

Lemma Authenticator_refines_stateless_witness :
  exists a, NewAuthenticator (replicate 32 Byte.x07) = Ok a /\
    run authStep a [OpAuthenticate {| packet := replicate 80 Byte.x00; header := zeroHeader |}; OpClose;
                    OpAuthenticate {| packet := replicate 80 Byte.x00; header := zeroHeader |}]
    = run specStep (Some (replicate 32 Byte.x07))
        [OpAuthenticate {| packet := replicate 80 Byte.x00; header := zeroHeader |}; OpClose;
         OpAuthenticate {| packet := replicate 80 Byte.x00; header := zeroHeader |}].
Proof.
  eexists. split; [reflexivity|].
  apply (Authenticator_refines_stateless (replicate 32 Byte.x07)). reflexivity.
Defined.
