(* ===== verification/Transcript.v ===== *)
(** * Handshake transcripts and session keys ([internal/wirev2/transcript.go, keys.go]) *)

From Stdlib Require Import Strings.String.
From S2P Require Import Prelude Sha256 WireV2 WireV2Handshake.

(** ** Transcripts *)

Record Transcript := {
  sessionID : SessionID;
  clientNonce : Nonce;
  serverNonce : Nonce;
  returnPathToken : Nonce;
  digest : Digest;
  valid : bool }.

(** [packet[:HandshakePacketSize-AuthenticationTagSize]]: prefix and body, no tag. *)
Definition signedBytes (e : AuthenticatedEnvelope) : bytes := take 480 (packet (envelope e)).

Definition HandshakeDigest (e : AuthenticatedEnvelope) : result WireError Digest :=
  let? _m := DecodeHandshake e in Ok (sha256 (signedBytes e)).

Definition NewTranscript (hello challenge : AuthenticatedEnvelope) : result WireError Transcript :=
  let? h := DecodeHandshake hello in
  let? c := DecodeHandshake challenge in
  fail negb (Header_Type (Handshake_Header h) =? TypeHello)
       || negb (Header_Type (Handshake_Header c) =? TypeChallenge)
       || negb (bool_decide (Header_SessionID (Handshake_Header h) = Header_SessionID (Handshake_Header c)))
       || negb (bool_decide (ClientNonce h = ClientNonce c)) with ErrTranscript in
  if decide (TranscriptDigest c = sha256 (signedBytes hello)) then
    Ok {| sessionID := Header_SessionID (Handshake_Header h);
          clientNonce := ClientNonce h; serverNonce := ServerNonce c;
          returnPathToken := ReturnPathToken c;
          digest := sha256 (signedBytes hello ++ signedBytes challenge); valid := true |}
  else Err ErrTranscript.

Definition confirmation (t : Transcript) (packetType : Z) : Handshake := {|
  Handshake_Header := {| Header_Type := packetType; Header_SessionID := sessionID t |};
  ClientNonce := clientNonce t; ServerNonce := serverNonce t;
  TranscriptDigest := digest t; ReturnPathToken := returnPathToken t; TLVs := [] |}.

Definition Confirmation (t : Transcript) (packetType : Z) : result WireError Handshake :=
  fail negb (valid t) || (negb (packetType =? TypeFinish) && negb (packetType =? TypeReady))
    with ErrTranscript in
  Ok (confirmation t packetType).

Definition ValidateConfirmation (t : Transcript) (e : AuthenticatedEnvelope) : option WireError :=
  if negb (valid t) then Some ErrTranscript else
  match DecodeHandshake e with
  | Err err => Some err
  | Ok m =>
    let ty := Header_Type (Handshake_Header m) in
    if (negb (ty =? TypeFinish) && negb (ty =? TypeReady))
       || negb (bool_decide (Header_SessionID (Handshake_Header m) = sessionID t))
       || negb (bool_decide (ClientNonce m = clientNonce t))
       || negb (bool_decide (ServerNonce m = serverNonce t))
       || negb (bool_decide (ReturnPathToken m = returnPathToken t))
       || negb (bool_decide (TranscriptDigest m = digest t))
    then Some ErrTranscript else None
  end.

Definition ValidateReject (hello reject : AuthenticatedEnvelope) : option WireError :=
  match DecodeHandshake hello with
  | Err err => Some err
  | Ok h =>
    match DecodeHandshake reject with
    | Err err => Some err
    | Ok r =>
      if negb (Header_Type (Handshake_Header h) =? TypeHello)
         || negb (Header_Type (Handshake_Header r) =? TypeReject)
         || negb (bool_decide (Header_SessionID (Handshake_Header h) = Header_SessionID (Handshake_Header r)))
         || negb (bool_decide (ClientNonce h = ClientNonce r))
      then Some ErrTranscript else
      if decide (TranscriptDigest r = sha256 (signedBytes hello)) then None else Some ErrTranscript
    end
  end.

(** ** Keys *)

Record DirectionalKeys := { ClientToServer : Key; ServerToClient : Key }.

Definition label (s : string) : bytes := list_byte_of_string s.

(** A 32-byte HKDF-SHA-256 output, which [hkdf.Key] produces without error. *)
Definition deriveKey (psk salt info : bytes) : result WireError Key :=
  fail len psk =? 0 with ErrInvalidKey in Ok (hkdf32 psk salt info).

Definition handshakeInfo : bytes := label "MPUDP/v2/handshake".
Definition DeriveHandshakeKey (psk : bytes) : result WireError Key := deriveKey psk [] handshakeInfo.

Definition keySalt (t : Transcript) : bytes := clientNonce t ++ serverNonce t.
Definition c2sInfo (t : Transcript) : bytes := label "MPUDP/v2/c2s" ++ sessionID t ++ digest t.
Definition s2cInfo (t : Transcript) : bytes := label "MPUDP/v2/s2c" ++ sessionID t ++ digest t.

Definition DeriveDirectionalKeys (psk : bytes) (t : Transcript) : result WireError DirectionalKeys :=
  fail negb (valid t) with ErrTranscript in
  let? c2s := deriveKey psk (keySalt t) (c2sInfo t) in
  let? s2c := deriveKey psk (keySalt t) (s2cInfo t) in
  Ok {| ClientToServer := c2s; ServerToClient := s2c |}.

(** ** Transcripts made by the handshake *)

Record Transcript_wf (t : Transcript) : Prop := {
  tw_sid : length (sessionID t) = 16%nat; tw_client : length (clientNonce t) = 16%nat;
  tw_server : length (serverNonce t) = 16%nat; tw_token : length (returnPathToken t) = 16%nat;
  tw_digest : length (digest t) = 32%nat;
  tw_nz : sessionID t <> zero16 /\ clientNonce t <> zero16; tw_valid : valid t = true }.

(** Decoding an opened packet, with everything the codec guarantees. *)
Lemma DecodeHandshake_open p k ae m :
  open p k = Ok ae -> DecodeHandshake ae = Ok m ->
  Handshake_wf m /\ validateHandshake m = None /\ packet (envelope ae) = p /\
  p = seal k (Handshake_Header m) (encodeHandshake m) /\
  signedBytes ae = encodePrefix (Handshake_Header m) 456 ++ encodeHandshake m.
Proof.
  intros Ho Hd. apply open_iff in Ho as (h & body & Hh & (Hk & Hv & ->)%AppendEnvelope_ok & ->).
  apply DecodeHandshake_ok in Hd as (Hwf & Hvm & <- & <-); [|done].
  pose proof (length_encodeHandshake m Hwf (validateHandshake_fitting m Hwf Hvm)) as Hl.
  split_and!; try done. unfold signedBytes, opened. cbn [packet envelope app]. unfold seal. cbv zeta.
  assert (len (encodeHandshake m) = 456) as -> by (unfold len; by rewrite Hl).
  apply take_app_length'. rewrite length_app, Hl, length_v2_prefix by apply Hwf. done.
Qed.

Lemma validateHandshake_nz m :
  validateHandshake m = None ->
  Header_SessionID (Handshake_Header m) <> zero16 /\ ClientNonce m <> zero16.
Proof. unfold validateHandshake. intros H. go_inv H; split; done. Qed.

Lemma NewTranscript_wf p q k kq hello challenge t :
  open p k = Ok hello -> open q kq = Ok challenge -> NewTranscript hello challenge = Ok t ->
  Transcript_wf t.
Proof.
  intros Hp Hq H. unfold NewTranscript in H. go_step H. go_step H. go_step H; [done|].
  destruct (decide _); [|done]. injection H as <-.
  apply (DecodeHandshake_open _ _ _ _ Hp) in E as (Hw1 & Hv1 & _).
  apply (DecodeHandshake_open _ _ _ _ Hq) in E0 as (Hw2 & Hv2 & _).
  apply validateHandshake_nz in Hv1. split; cbn;
    first [done | apply Hw1 | apply Hw2 | apply length_sha256].
Qed.

Lemma confirmation_wf t ty :
  Transcript_wf t -> ty = TypeFinish \/ ty = TypeReady -> Handshake_wf (confirmation t ty).
Proof.
  intros [] Hty. split; try done. split; [|done]. cbn. destruct Hty as [-> | ->]; vm_compute; split; congruence.
Qed.

Lemma confirmation_valid t ty :
  Transcript_wf t -> ty = TypeFinish \/ ty = TypeReady -> validateHandshake (confirmation t ty) = None.
Proof.
  intros [_ _ _ _ _ [H1 H2] _] Hty. unfold validateHandshake, confirmation. cbn [Handshake_Header
    Header_Type Header_SessionID ClientNonce].
  destruct Hty as [-> | ->]; rewrite !decide_False by done; reflexivity.
Qed.

Lemma confirmation_tlvs m :
  validateHandshake m = None ->
  Header_Type (Handshake_Header m) = TypeFinish \/ Header_Type (Handshake_Header m) = TypeReady ->
  TLVs m = [].
Proof.
  intros Hv Ht. unfold validateHandshake in Hv. go_inv Hv; clear -Hv Ht; unfold validateTLVs in Hv;
    destruct Ht as [Ht|Ht]; rewrite Ht in Hv; cbn [TypeFinish TypeReady Z.eqb Pos.eqb orb] in Hv;
    go_inv Hv; bools; apply len_zero; lia.
Qed.

Lemma confirmation_types ty :
  (negb (ty =? TypeFinish) && negb (ty =? TypeReady)) = false <-> ty = TypeFinish \/ ty = TypeReady.
Proof. unfold TypeFinish, TypeReady. lia. Qed.

Lemma decoded_iff p k ae m :
  open p k = Ok ae ->
  (DecodeHandshake ae = Ok m <-> Handshake_wf m /\ AppendHandshake [] m k = (p, None)).
Proof. intros Ho. by rewrite <- DecodeHandshake_iff, Ho. Qed.

(** A transcript accepts its own confirmations. *)
Lemma ValidateConfirmation_own t ty ae :
  Transcript_wf t -> ty = TypeFinish \/ ty = TypeReady -> DecodeHandshake ae = Ok (confirmation t ty) ->
  ValidateConfirmation t ae = None.
Proof.
  intros Hwf Hty Hd. unfold ValidateConfirmation. rewrite (tw_valid t Hwf), Hd. cbn [negb orb confirmation
    Handshake_Header Header_Type Header_SessionID ClientNonce ServerNonce ReturnPathToken TranscriptDigest].
  apply confirmation_types in Hty. by rewrite Hty, !bool_decide_true.
Qed.

(** One FINISH and one READY per transcript and key.  For a transcript built from an
    opened HELLO and CHALLENGE, a datagram opened under a key passes
    [ValidateConfirmation] if and only if it is byte for byte the packet that
    [Confirmation] and [AppendHandshake] build for FINISH or READY under that key. *)
Theorem ValidateConfirmation_exact (hp cp p : bytes) (kh k : Key)
    (hello challenge ae : AuthenticatedEnvelope) (t : Transcript)
    (Hh : open hp kh = Ok hello) (Hc : open cp kh = Ok challenge)
    (Ht : NewTranscript hello challenge = Ok t) (Ho : open p k = Ok ae) :
  ValidateConfirmation t ae = None <->
  exists ty m, Confirmation t ty = Ok m /\ AppendHandshake [] m k = (p, None).
Proof.
  pose proof (NewTranscript_wf _ _ _ _ _ _ _ Hh Hc Ht) as Hwf. unfold ValidateConfirmation, Confirmation.
  rewrite (tw_valid t Hwf). cbn [negb orb]. split.
  - destruct (DecodeHandshake ae) as [m|] eqn:Hd; [|done].
    destruct (_ || _) eqn:E; [done|]. intros _. bools.
    pose proof (DecodeHandshake_open _ _ _ _ Ho Hd) as (_ & Hv & _).
    exists (Header_Type (Handshake_Header m)), m.
    match goal with E : negb _ && negb _ = false |- _ =>
      rewrite E; apply confirmation_types, (confirmation_tlvs m Hv) in E as Htl end.
    split; [|by apply (decoded_iff _ _ _ _ Ho)]. f_equal.
    destruct m as [[ty sid] cn sn dg tk tlvs]. cbn in *. by subst.
  - intros (ty & m & Hcf & Ha). destruct (negb _ && negb _) eqn:Ety; [done|].
    injection Hcf as <-. apply confirmation_types in Ety as Hty.
    pose proof (confirmation_wf t ty Hwf Hty) as Hm.
    pose proof (ValidateConfirmation_own t ty ae Hwf Hty) as Hv. unfold ValidateConfirmation in Hv.
    rewrite (tw_valid t Hwf) in Hv. by apply Hv, (decoded_iff _ _ _ _ Ho).
Qed.

(** ** What a transcript digest binds *)

Lemma length_signedBytes p k ae m :
  open p k = Ok ae -> DecodeHandshake ae = Ok m -> length (signedBytes ae) = 480%nat.
Proof.
  intros Ho Hd. apply (DecodeHandshake_open _ _ _ _ Ho) in Hd as (Hw & Hv & _ & _ & ->).
  rewrite length_app, length_v2_prefix by apply Hw.
  by rewrite (length_encodeHandshake m Hw (validateHandshake_fitting m Hw Hv)).
Qed.

Lemma NewTranscript_ok hello challenge t :
  NewTranscript hello challenge = Ok t ->
  (exists h, DecodeHandshake hello = Ok h) /\ (exists c, DecodeHandshake challenge = Ok c) /\
  digest t = sha256 (signedBytes hello ++ signedBytes challenge).
Proof.
  unfold NewTranscript. intros H. go_step H. go_step H. go_step H; [done|].
  destruct (decide _); [|done]. injection H as <-. split; [by eauto|]. split; [by eauto|]. reflexivity.
Qed.

(** C31: A transcript digest binds the whole exchange.  If two handshakes, opened under
    any keys, lead to the same transcript digest (so one FINISH or READY could confirm
    both), then their HELLO packets and their CHALLENGE packets agree on every signed
    byte, unless the two 960-byte exchanges are an explicit SHA-256 collision. *)
Theorem Transcript_binds_exchange (p1 q1 p2 q2 : bytes) (k1 l1 k2 l2 : Key)
    (h1 c1 h2 c2 : AuthenticatedEnvelope) (t1 t2 : Transcript)
    (Hh1 : open p1 k1 = Ok h1) (Hc1 : open q1 l1 = Ok c1) (Ht1 : NewTranscript h1 c1 = Ok t1)
    (Hh2 : open p2 k2 = Ok h2) (Hc2 : open q2 l2 = Ok c2) (Ht2 : NewTranscript h2 c2 = Ok t2)
    (Hd : digest t1 = digest t2) :
  (signedBytes h1 = signedBytes h2 /\ signedBytes c1 = signedBytes c2) \/
  (signedBytes h1 ++ signedBytes c1 <> signedBytes h2 ++ signedBytes c2 /\
   sha256 (signedBytes h1 ++ signedBytes c1) = sha256 (signedBytes h2 ++ signedBytes c2)).
Proof.
  apply NewTranscript_ok in Ht1 as ((m1 & Hm1) & _ & Hd1).
  apply NewTranscript_ok in Ht2 as ((m2 & Hm2) & _ & Hd2). rewrite Hd1, Hd2 in Hd.
  destruct (decide (signedBytes h1 ++ signedBytes c1 = signedBytes h2 ++ signedBytes c2)) as [E|Hne].
  - left. apply app_inj_1 in E; [exact E|].
    by rewrite (length_signedBytes _ _ _ _ Hh1 Hm1), (length_signedBytes _ _ _ _ Hh2 Hm2).
  - right. split; [exact Hne|exact Hd].
Qed.

(** ** Key separation *)

(** The inputs of a key derivation: the salt and the HKDF info string. *)
Inductive KeyUse := UseHandshake | UseC2S (t : Transcript) | UseS2C (t : Transcript).

Definition keyInput (u : KeyUse) : bytes * bytes :=
  match u with
  | UseHandshake => ([], handshakeInfo)
  | UseC2S t => (keySalt t, c2sInfo t)
  | UseS2C t => (keySalt t, s2cInfo t)
  end.

(** What identifies a use: direction, nonces, SessionID and digest. *)
Definition keyIdentity (u : KeyUse) : option (bool * SessionID * Nonce * Nonce * Digest) :=
  match u with
  | UseHandshake => None
  | UseC2S t => Some (true, sessionID t, clientNonce t, serverNonce t, digest t)
  | UseS2C t => Some (false, sessionID t, clientNonce t, serverNonce t, digest t)
  end.

Definition use_wf (u : KeyUse) : Prop :=
  match u with UseHandshake => True | UseC2S t | UseS2C t => Transcript_wf t end.

Lemma info_inj l1 l2 t1 t2 :
  length l1 = 12%nat -> length l2 = 12%nat -> Transcript_wf t1 -> Transcript_wf t2 ->
  l1 ++ sessionID t1 ++ digest t1 = l2 ++ sessionID t2 ++ digest t2 ->
  l1 = l2 /\ sessionID t1 = sessionID t2 /\ digest t1 = digest t2.
Proof.
  intros H1 H2 [S1 _ _ _ _ _ _] [S2 _ _ _ _ _ _] E.
  apply app_inj_1 in E as [E1 E]; [|congruence]. apply app_inj_1 in E as [E2 E3]; [done|congruence].
Qed.

Lemma salt_inj t1 t2 :
  Transcript_wf t1 -> Transcript_wf t2 -> keySalt t1 = keySalt t2 ->
  clientNonce t1 = clientNonce t2 /\ serverNonce t1 = serverNonce t2.
Proof.
  intros [_ C1 _ _ _ _ _] [_ C2 _ _ _ _ _] E. apply app_inj_1 in E; [exact E|congruence].
Qed.

(** Session keys are domain separated.  Two key derivations (the handshake key, and
    the client-to-server and server-to-client keys of any transcripts) feed HKDF the same
    salt and info only if they have the same direction, SessionID, nonces and transcript
    digest; the two directions of a session, and the handshake key, never share inputs. *)
Theorem keyInput_separates (u1 u2 : KeyUse) (H1 : use_wf u1) (H2 : use_wf u2)
    (H : keyInput u1 = keyInput u2) : keyIdentity u1 = keyIdentity u2.
Proof.
  assert (Hlen : forall l t, length l = 12%nat -> Transcript_wf t ->
    length (l ++ sessionID t ++ digest t) = 60%nat).
  { intros l t Hl [S1 _ _ _ D1 _ _]. by rewrite !length_app, Hl, S1, D1. }
  destruct u1 as [|t1|t1], u2 as [|t2|t2]; cbn in H1, H2 |- *; try done;
    pose proof (f_equal fst H) as Hsalt; pose proof (f_equal snd H) as Hinfo; cbn [keyInput fst snd] in *;
    try (apply (f_equal length) in Hinfo; unfold c2sInfo, s2cInfo in Hinfo;
         rewrite Hlen in Hinfo by done; discriminate Hinfo).
  - apply salt_inj in Hsalt as [-> ->]; [|done..].
    apply info_inj in Hinfo as (_ & -> & ->); done.
  - apply salt_inj in Hsalt as [-> ->]; [|done..].
    apply info_inj in Hinfo as (_ & -> & ->); done.
Qed.
