(* ===== verification/Negotiation.v ===== *)
(** * Contract negotiation ([internal/negotiationv2])

    Profiles and advertisements, their validation, the contract TLVs, selection by
    the listener, acceptance by the initiator, and the effective send limits.
    Capability sets are [Z] bit masks; [a & ^b] is [Z.ldiff a b]. *)

From S2P Require Import Prelude WireV2 WireV2Handshake.

(** ** Data *)

Inductive NegotiationError := ErrInvalid | ErrIncompatible | ErrUnsupportedCapability.
#[global] Instance NegotiationError_eq_dec : EqDecision NegotiationError.
Proof. solve_decision. Defined.

Definition Datagram : Z := 1.
Definition KCP : Z := 2.

Definition FragmentManifest : Z := 1.
Definition Aggregation : Z := 2.
Definition DatagramRepair : Z := 4.
Definition NativeKCP : Z := 8.
Definition KCPPacketPieces : Z := 16.
Definition SmuxAdmission : Z := 32.
Definition PLPMTUD : Z := 64.
Definition PerCarrierBudget : Z := 128.
Definition GroupMigration : Z := 256.
Definition KnownCapabilities : Z :=
  foldr Z.lor 0 [FragmentManifest; Aggregation; DatagramRepair; NativeKCP; KCPPacketPieces;
                 SmuxAdmission; PLPMTUD; PerCarrierBudget; GroupMigration].

Definition MuxOff : Z := 0.
Definition SmuxWire2 : Z := 1.
Definition Fixed : Z := 0.
Definition ProbeMTU : Z := 1.
Definition SessionBudget : Z := 0.
Definition CarrierBudget : Z := 1.

Record PayloadLimits := {
  SendHardCap : Z; ReceiveHardCap : Z; BootstrapBytes : Z; InnerKCPBytes : Z }.
Record DatagramLimits := {
  DatagramWindow : Z; GroupWindow : Z; MaxDatagramBytes : Z;
  MaxFragments : Z; MaxDescriptors : Z; MaxDatagramAssemblies : Z }.
Record RepairLimits := { MaxAgeMS : Z; MaxAttempts : Z }.
Record StreamLimits := {
  MaxBusinessStreams : Z; MaxPendingAccepts : Z; SessionReceiveBytes : Z;
  StreamReceiveBytes : Z; ControlReceiveReserve : Z; MaxPendingOpens : Z; MaxFrameBytes : Z }.
Record EpochLimits := { MaxOldEpochs : Z; MaxMigrations : Z; GraceMS : Z }.

#[global] Instance DatagramLimits_eq_dec : EqDecision DatagramLimits.
Proof. solve_decision. Defined.
#[global] Instance RepairLimits_eq_dec : EqDecision RepairLimits.
Proof. solve_decision. Defined.
#[global] Instance StreamLimits_eq_dec : EqDecision StreamLimits.
Proof. solve_decision. Defined.

Definition zeroDatagramLimits : DatagramLimits := {|
  DatagramWindow := 0; GroupWindow := 0; MaxDatagramBytes := 0; MaxFragments := 0;
  MaxDescriptors := 0; MaxDatagramAssemblies := 0 |}.
Definition zeroRepairLimits : RepairLimits := {| MaxAgeMS := 0; MaxAttempts := 0 |}.
Definition zeroStreamLimits : StreamLimits := {|
  MaxBusinessStreams := 0; MaxPendingAccepts := 0; SessionReceiveBytes := 0;
  StreamReceiveBytes := 0; ControlReceiveReserve := 0; MaxPendingOpens := 0; MaxFrameBytes := 0 |}.

Record Profile := {
  Protocol : Z; OfferedCaps : Z; RequiredCaps : Z; LayoutID : Z;
  DataShards : Z; ParityShards : Z; Mux : Z; Discovery : Z; Scope : Z;
  Payload : PayloadLimits; DatagramL : DatagramLimits; Repair : RepairLimits;
  Streams : StreamLimits; Epochs : EpochLimits; MaxPaths : Z }.

Record Advertisement := { Adv_Profile : Profile; BootstrapPathID : Z }.

Inductive Role := Initiator | Responder | OtherRole.

Record StreamSendLimits := {
  Send_MaxOpenStreams : Z; Send_MaxPendingOpens : Z; SessionBytes : Z; StreamBytes : Z }.
#[global] Instance StreamSendLimits_eq_dec : EqDecision StreamSendLimits.
Proof. solve_decision. Defined.
Definition zeroStreamSendLimits : StreamSendLimits := {|
  Send_MaxOpenStreams := 0; Send_MaxPendingOpens := 0; SessionBytes := 0; StreamBytes := 0 |}.

Record SendLimits := { Send_Datagram : DatagramLimits; Send_Streams : StreamSendLimits }.

Record DirectionLimits := {
  MaxUDPPayload : Z; Dir_Datagram : DatagramLimits; Dir_Streams : StreamSendLimits;
  Dir_ControlReceiveReserve : Z; BusinessSessionBytes : Z }.

Record Contract := {
  SelectedCaps : Z; ActiveCaps : Z; Contract_MaxPaths : Z; Contract_BootstrapPathID : Z;
  MuxFrameBytes : Z; Contract_Repair : RepairLimits; Contract_Epochs : EpochLimits;
  client : Profile; server : Profile; contract_valid : bool }.

(** ** Validation *)

Definition maxReceiveBytes : Z := 2 ^ 30.
Definition initialSmuxWindow : Z := 262144.

Definition applicableCaps (p : Profile) : Z :=
  let caps :=
    if Protocol p =? Datagram then
      Z.lor (Z.lor (Z.lor FragmentManifest Aggregation) DatagramRepair) GroupMigration
    else
      let caps := Z.lor NativeKCP KCPPacketPieces in
      if Mux p =? SmuxWire2 then Z.lor caps SmuxAdmission else caps in
  let caps := if Discovery p =? ProbeMTU then Z.lor caps PLPMTUD else caps in
  if Scope p =? CarrierBudget then Z.lor caps PerCarrierBudget else caps.

Definition validateDatagram (d : DatagramLimits) : option NegotiationError :=
  if (DatagramWindow d <? 1) || (65536 <? DatagramWindow d) || (GroupWindow d <? 1)
     || (65536 <? GroupWindow d) || (MaxDatagramBytes d <? 1) || (2 ^ 24 <? MaxDatagramBytes d)
     || (MaxFragments d <? 1) || (4096 <? MaxFragments d) || (MaxDescriptors d <? 1)
     || (256 <? MaxDescriptors d) || (MaxDatagramAssemblies d <? 1)
     || (DatagramWindow d <? MaxDatagramAssemblies d)
  then Some ErrInvalid else None.

Definition validateStreams (s : StreamLimits) (mux : Z) : option NegotiationError :=
  if (MaxPendingAccepts s <? 1) || (65536 <? MaxPendingAccepts s) || (SessionReceiveBytes s <? 1)
     || (maxReceiveBytes <? SessionReceiveBytes s) || (StreamReceiveBytes s <? 1)
     || (SessionReceiveBytes s <? StreamReceiveBytes s)
  then Some ErrInvalid else
  if mux =? MuxOff then
    if negb (MaxBusinessStreams s =? 0) || negb (ControlReceiveReserve s =? 0)
       || negb (MaxPendingOpens s =? 0) || negb (MaxFrameBytes s =? 0)
    then Some ErrInvalid else None
  else
  if (MaxBusinessStreams s <? 1) || (4096 <? MaxBusinessStreams s) || (MaxPendingOpens s <? 1)
     || (128 <? MaxPendingOpens s) || (MaxFrameBytes s <? 128) || (65535 <? MaxFrameBytes s)
  then Some ErrInvalid else
  let minimum := initialSmuxWindow + MaxFrameBytes s in
  if (StreamReceiveBytes s <? minimum) || (ControlReceiveReserve s <? minimum)
     || (SessionReceiveBytes s <? ControlReceiveReserve s + minimum)
  then Some ErrInvalid else None.

(** The capabilities the policy forces to be required. *)
Definition requiredByPolicy (p : Profile) : Z :=
  let required := if Discovery p =? ProbeMTU then PLPMTUD else 0 in
  let required := if Scope p =? CarrierBudget then Z.lor required PerCarrierBudget else required in
  let required :=
    if Protocol p =? Datagram then Z.lor required FragmentManifest
    else
      let required := Z.lor required NativeKCP in
      if (Discovery p =? ProbeMTU) || (Scope p =? CarrierBudget)
      then Z.lor required KCPPacketPieces else required in
  if Mux p =? SmuxWire2 then Z.lor required SmuxAdmission else required.

(** The protocol-dependent middle part of [Validate]. *)
Definition validateMode (p : Profile) : option NegotiationError :=
  if Protocol p =? Datagram then
    if negb (LayoutID p =? 1) || (DataShards p =? 0) || (ParityShards p =? 0)
       || (256 <? DataShards p + ParityShards p) then Some ErrInvalid else
    if negb (InnerKCPBytes (Payload p) =? 0) || negb (Mux p =? MuxOff)
       || negb (bool_decide (Streams p = zeroStreamLimits)) then Some ErrInvalid else
    validateDatagram (DatagramL p)
  else
    if negb (LayoutID p =? 0) || negb (DataShards p =? 0) || negb (ParityShards p =? 0)
       || negb (bool_decide (DatagramL p = zeroDatagramLimits))
       || negb (InnerKCPBytes (Payload p) =? 1500) then Some ErrInvalid else
    validateStreams (Streams p) (Mux p).

Definition Validate (p : Profile) : option NegotiationError :=
  if negb (Protocol p =? Datagram) && negb (Protocol p =? KCP) then Some ErrInvalid else
  if (SmuxWire2 <? Mux p) || (ProbeMTU <? Discovery p) || (CarrierBudget <? Scope p)
  then Some ErrInvalid else
  if negb (Z.ldiff (RequiredCaps p) KnownCapabilities =? 0) then Some ErrUnsupportedCapability else
  if negb (Z.ldiff (RequiredCaps p) (OfferedCaps p) =? 0) then Some ErrInvalid else
  if (SendHardCap (Payload p) <? 512) || (65507 <? SendHardCap (Payload p))
     || (ReceiveHardCap (Payload p) <? 512) || (65507 <? ReceiveHardCap (Payload p))
     || negb (BootstrapBytes (Payload p) =? 512) then Some ErrInvalid else
  if (MaxPaths p <? 1) || (256 <? MaxPaths p) then Some ErrInvalid else
  if (MaxOldEpochs (Epochs p) <? 1) || (8 <? MaxOldEpochs (Epochs p))
     || (GraceMS (Epochs p) <? 100) || (60000 <? GraceMS (Epochs p)) then Some ErrInvalid else
  if (if Z.land (OfferedCaps p) GroupMigration =? 0
      then negb (MaxMigrations (Epochs p) =? 0)
      else (MaxMigrations (Epochs p) <? 1) || (2 <? MaxMigrations (Epochs p)))
  then Some ErrInvalid else
  match validateMode p with
  | Some e => Some e
  | None =>
    if (if negb (Z.land (RequiredCaps p) DatagramRepair =? 0)
        then negb (Protocol p =? Datagram) || (MaxAgeMS (Repair p) <? 100)
             || (60000 <? MaxAgeMS (Repair p)) || (MaxAttempts (Repair p) <? 1)
             || (16 <? MaxAttempts (Repair p))
        else negb (bool_decide (Repair p = zeroRepairLimits)))
    then Some ErrInvalid else
    if negb (Z.land (OfferedCaps p) DatagramRepair =? Z.land (RequiredCaps p) DatagramRepair)
    then Some ErrInvalid else
    if negb (Mux p =? SmuxWire2) && negb (Z.land (OfferedCaps p) SmuxAdmission =? 0)
    then Some ErrInvalid else
    if negb (Z.land (RequiredCaps p) (requiredByPolicy p) =? requiredByPolicy p)
    then Some ErrInvalid else
    if negb (Z.ldiff (RequiredCaps p) (applicableCaps p) =? 0) then Some ErrInvalid else None
  end.

Definition validate (a : Advertisement) : option NegotiationError :=
  match Validate (Adv_Profile a) with
  | Some e => Some e
  | None =>
    if (BootstrapPathID a <? 1) || (MaxPaths (Adv_Profile a) <? BootstrapPathID a)
    then Some ErrInvalid else None
  end.

(** ** Selection and acceptance *)

Definition samePolicy (a b : Profile) : bool :=
  (Protocol a =? Protocol b) && (LayoutID a =? LayoutID b) && (DataShards a =? DataShards b)
  && (ParityShards a =? ParityShards b) && (Mux a =? Mux b) && (Discovery a =? Discovery b)
  && (Scope a =? Scope b)
  && (Z.land (RequiredCaps a) DatagramRepair =? Z.land (RequiredCaps b) DatagramRepair).

Definition Accept (hello challenge : Advertisement) : result NegotiationError Contract :=
  check validate hello in
  check validate challenge in
  let h := Adv_Profile hello in
  let c := Adv_Profile challenge in
  let selected := OfferedCaps c in
  fail negb (samePolicy h c) || negb (Z.ldiff selected KnownCapabilities =? 0)
       || negb (Z.ldiff selected (OfferedCaps h) =? 0)
       || negb (Z.ldiff (Z.lor (RequiredCaps h) (RequiredCaps c)) selected =? 0)
       || negb (BootstrapPathID hello =? BootstrapPathID challenge) with ErrIncompatible in
  let paths := Z.min (MaxPaths h) (MaxPaths c) in
  fail (paths <? BootstrapPathID hello)
       || ((Discovery h =? Fixed) && (Scope h =? CarrierBudget) && (MaxPaths c <? MaxPaths h))
    with ErrIncompatible in
  Ok {| SelectedCaps := selected; ActiveCaps := Z.land selected (applicableCaps h);
        Contract_MaxPaths := paths; Contract_BootstrapPathID := BootstrapPathID hello;
        MuxFrameBytes := Z.min (MaxFrameBytes (Streams h)) (MaxFrameBytes (Streams c));
        Contract_Repair := {| MaxAgeMS := Z.min (MaxAgeMS (Repair h)) (MaxAgeMS (Repair c));
                              MaxAttempts := Z.min (MaxAttempts (Repair h)) (MaxAttempts (Repair c)) |};
        Contract_Epochs := {| MaxOldEpochs := Z.min (MaxOldEpochs (Epochs h)) (MaxOldEpochs (Epochs c));
                              MaxMigrations := Z.min (MaxMigrations (Epochs h)) (MaxMigrations (Epochs c));
                              GraceMS := Z.min (GraceMS (Epochs h)) (GraceMS (Epochs c)) |};
        client := h; server := c; contract_valid := true |}.

(** The profile a listener sends back: the selection, and no migrations without
    their capability. *)
Definition challengeProfile (listener : Profile) (selected : Z) : Profile := {|
  Protocol := Protocol listener; OfferedCaps := selected; RequiredCaps := RequiredCaps listener;
  LayoutID := LayoutID listener; DataShards := DataShards listener;
  ParityShards := ParityShards listener; Mux := Mux listener; Discovery := Discovery listener;
  Scope := Scope listener; Payload := Payload listener; DatagramL := DatagramL listener;
  Repair := Repair listener; Streams := Streams listener;
  Epochs := {| MaxOldEpochs := MaxOldEpochs (Epochs listener);
               MaxMigrations := if Z.land selected GroupMigration =? 0 then 0
                                else MaxMigrations (Epochs listener);
               GraceMS := GraceMS (Epochs listener) |};
  MaxPaths := MaxPaths listener |}.

Definition Select (hello : Advertisement) (listener : Profile)
    : result NegotiationError (Advertisement * Contract) :=
  check validate hello in
  check Validate listener in
  let h := Adv_Profile hello in
  fail negb (samePolicy h listener) with ErrIncompatible in
  let selected := Z.land (Z.land (OfferedCaps h) (OfferedCaps listener)) KnownCapabilities in
  fail negb (Z.ldiff (Z.lor (RequiredCaps h) (RequiredCaps listener)) selected =? 0)
    with ErrIncompatible in
  let challenge := {| Adv_Profile := challengeProfile listener selected;
                      BootstrapPathID := BootstrapPathID hello |} in
  let? contract := Accept hello challenge in
  Ok (challenge, contract).

Definition Profiles (c : Contract) (role : Role) : result NegotiationError (Profile * Profile) :=
  match contract_valid c, role with
  | false, _ | _, OtherRole => Err ErrInvalid
  | true, Responder => Ok (server c, client c)
  | true, Initiator => Ok (client c, server c)
  end.

(** ** Effective send limits *)

Definition sendDatagram (a b : DatagramLimits) : DatagramLimits := {|
  DatagramWindow := Z.min (DatagramWindow a) (DatagramWindow b);
  GroupWindow := Z.min (GroupWindow a) (GroupWindow b);
  MaxDatagramBytes := Z.min (MaxDatagramBytes a) (MaxDatagramBytes b);
  MaxFragments := Z.min (MaxFragments a) (MaxFragments b);
  MaxDescriptors := Z.min (MaxDescriptors a) (MaxDescriptors b);
  MaxDatagramAssemblies :=
    Z.min (Z.min (Z.min (MaxDatagramAssemblies a) (MaxDatagramAssemblies b)) (DatagramWindow a))
          (DatagramWindow b) |}.

Definition EffectiveSend (c : Contract) (role : Role) (local : SendLimits)
    : result NegotiationError DirectionLimits :=
  let? selfpeer := Profiles c role in
  let self := fst selfpeer in
  let peer := snd selfpeer in
  let maxUDP := Z.min (SendHardCap (Payload self)) (ReceiveHardCap (Payload peer)) in
  if Protocol self =? Datagram then
    check validateDatagram (Send_Datagram local) in
    fail negb (bool_decide (Send_Streams local = zeroStreamSendLimits)) with ErrInvalid in
    Ok {| MaxUDPPayload := maxUDP; Dir_Datagram := sendDatagram (Send_Datagram local) (DatagramL peer);
          Dir_Streams := zeroStreamSendLimits; Dir_ControlReceiveReserve := 0;
          BusinessSessionBytes := 0 |}
  else
    let s := Send_Streams local in
    fail negb (bool_decide (Send_Datagram local = zeroDatagramLimits)) || (SessionBytes s <? 1)
         || (maxReceiveBytes <? SessionBytes s) || (StreamBytes s <? 1)
         || (SessionBytes s <? StreamBytes s) with ErrInvalid in
    fail (if Mux self =? MuxOff
          then negb (Send_MaxOpenStreams s =? 0) || negb (Send_MaxPendingOpens s =? 0)
          else (Send_MaxOpenStreams s <? 1) || (4096 <? Send_MaxOpenStreams s)
               || (Send_MaxPendingOpens s <? 1) || (128 <? Send_MaxPendingOpens s))
      with ErrInvalid in
    let ps := Streams peer in
    let business := Z.min (SessionBytes s) (u32 (SessionReceiveBytes ps - ControlReceiveReserve ps)) in
    Ok {| MaxUDPPayload := maxUDP; Dir_Datagram := zeroDatagramLimits;
          Dir_Streams := {|
            Send_MaxOpenStreams := Z.min (Send_MaxOpenStreams s) (MaxBusinessStreams ps);
            Send_MaxPendingOpens :=
              Z.min (Z.min (Send_MaxPendingOpens s) (MaxPendingOpens ps)) (MaxPendingAccepts ps);
            SessionBytes := Z.min (SessionBytes s) (SessionReceiveBytes ps);
            StreamBytes := Z.min (Z.min (StreamBytes s) (StreamReceiveBytes ps)) business |};
          Dir_ControlReceiveReserve := ControlReceiveReserve ps;
          BusinessSessionBytes := business |}.

(** ** Contract TLVs *)

Definition mandatoryLengths : list Z := [1; 16; 2; 2; 2; 2; 8; 20; 8; 28; 8; 4].

Definition contractValues (a : Advertisement) : list bytes :=
  let p := Adv_Profile a in
  let pl := Payload p in let d := DatagramL p in let s := Streams p in let e := Epochs p in
  [ [byte_of_Z (Protocol p)];
    be_put 8 (OfferedCaps p) ++ be_put 8 (RequiredCaps p);
    be_put 2 (LayoutID p);
    [byte_of_Z (DataShards p); byte_of_Z (ParityShards p)];
    be_put 2 (Mux p);
    [byte_of_Z (Discovery p); byte_of_Z (Scope p)];
    be_put 2 (SendHardCap pl) ++ be_put 2 (ReceiveHardCap pl) ++ be_put 2 (BootstrapBytes pl)
      ++ be_put 2 (InnerKCPBytes pl);
    be_put 4 (DatagramWindow d) ++ be_put 4 (GroupWindow d) ++ be_put 4 (MaxDatagramBytes d)
      ++ be_put 2 (MaxFragments d) ++ be_put 2 (MaxDescriptors d) ++ be_put 4 (MaxDatagramAssemblies d);
    be_put 4 (MaxAgeMS (Repair p)) ++ be_put 2 (MaxAttempts (Repair p)) ++ replicate 2 Byte.x00;
    be_put 4 (MaxBusinessStreams s) ++ be_put 4 (MaxPendingAccepts s)
      ++ be_put 4 (SessionReceiveBytes s) ++ be_put 4 (StreamReceiveBytes s)
      ++ be_put 4 (ControlReceiveReserve s) ++ be_put 4 (MaxPendingOpens s) ++ be_put 4 (MaxFrameBytes s);
    be_put 2 (MaxOldEpochs e) ++ be_put 2 (MaxMigrations e) ++ be_put 4 (GraceMS e);
    be_put 2 (MaxPaths p) ++ be_put 2 (BootstrapPathID a) ].

Definition numbered (vs : list bytes) : list TLV :=
  imap (fun i v => {| TLV_Type := TLVProtocol + Z.of_nat i; TLV_Value := v |}) vs.

Definition contractTLVs (a : Advertisement) : result NegotiationError (list TLV) :=
  check validate a in Ok (numbered (contractValues a)).

(** The collecting loop of [decodeAdvertisement]. *)
Fixpoint collectTLVs (prev : option Z) (total : Z) (values : list (option bytes)) (tlvs : list TLV)
    : result NegotiationError (list (option bytes)) :=
  match tlvs with
  | [] => Ok values
  | tlv :: rest =>
    let t := TLV_Type tlv in
    let v := TLV_Value tlv in
    fail (match prev with Some p => t <=? p | None => false end) with ErrInvalid in
    fail (MaxTLVBytes - 4 <? len v) || (MaxTLVBytes - 4 - len v <? total) with ErrInvalid in
    let total := total + (4 + len v) in
    if (t <? TLVProtocol) || (TLVPaths <? t) then
      fail negb (Z.land t 0x8000 =? 0) with ErrInvalid in
      collectTLVs (Some t) total values rest
    else
      let index := Z.to_nat (t - TLVProtocol) in
      fail negb (len v =? nth index mandatoryLengths 0) with ErrInvalid in
      collectTLVs (Some t) total (<[index := Some v]> values) rest
  end.

Definition parseValues (vs : list bytes) : Advertisement :=
  let v i := nth i vs [] in
  {| Adv_Profile := {|
       Protocol := byte_at 0 (v 0%nat);
       OfferedCaps := be_get (slice 0 8 (v 1%nat)); RequiredCaps := be_get (slice 8 16 (v 1%nat));
       LayoutID := be_get (slice 0 2 (v 2%nat));
       DataShards := byte_at 0 (v 3%nat); ParityShards := byte_at 1 (v 3%nat);
       Mux := be_get (slice 0 2 (v 4%nat));
       Discovery := byte_at 0 (v 5%nat); Scope := byte_at 1 (v 5%nat);
       Payload := {|
         SendHardCap := be_get (slice 0 2 (v 6%nat)); ReceiveHardCap := be_get (slice 2 4 (v 6%nat));
         BootstrapBytes := be_get (slice 4 6 (v 6%nat)); InnerKCPBytes := be_get (slice 6 8 (v 6%nat)) |};
       DatagramL := {|
         DatagramWindow := be_get (slice 0 4 (v 7%nat)); GroupWindow := be_get (slice 4 8 (v 7%nat));
         MaxDatagramBytes := be_get (slice 8 12 (v 7%nat)); MaxFragments := be_get (slice 12 14 (v 7%nat));
         MaxDescriptors := be_get (slice 14 16 (v 7%nat));
         MaxDatagramAssemblies := be_get (slice 16 20 (v 7%nat)) |};
       Repair := {| MaxAgeMS := be_get (slice 0 4 (v 8%nat)); MaxAttempts := be_get (slice 4 6 (v 8%nat)) |};
       Streams := {|
         MaxBusinessStreams := be_get (slice 0 4 (v 9%nat)); MaxPendingAccepts := be_get (slice 4 8 (v 9%nat));
         SessionReceiveBytes := be_get (slice 8 12 (v 9%nat)); StreamReceiveBytes := be_get (slice 12 16 (v 9%nat));
         ControlReceiveReserve := be_get (slice 16 20 (v 9%nat)); MaxPendingOpens := be_get (slice 20 24 (v 9%nat));
         MaxFrameBytes := be_get (slice 24 28 (v 9%nat)) |};
       Epochs := {|
         MaxOldEpochs := be_get (slice 0 2 (v 10%nat)); MaxMigrations := be_get (slice 2 4 (v 10%nat));
         GraceMS := be_get (slice 4 8 (v 10%nat)) |};
       MaxPaths := be_get (slice 0 2 (v 11%nat)) |};
     BootstrapPathID := be_get (slice 2 4 (v 11%nat)) |}.

Definition decodeAdvertisement (m : Handshake) (packetType : Z) : result NegotiationError Advertisement :=
  fail negb (Header_Type (Handshake_Header m) =? packetType) || (len (TLVs m) <? 12)
       || (MaxTLVs <? len (TLVs m)) with ErrInvalid in
  let? values := collectTLVs None 0 (replicate 12 None) (TLVs m) in
  match mapM id values with
  | None => Err ErrInvalid
  | Some vs =>
    fail negb (be_get (slice 6 8 (nth 8 vs [])) =? 0) with ErrInvalid in
    let a := parseValues vs in
    check validate a in
    Ok a
  end.

Definition DecodeHello (m : Handshake) := decodeAdvertisement m TypeHello.
Definition DecodeChallenge (m : Handshake) := decodeAdvertisement m TypeChallenge.
