(* ===== verification/NegotiationProps.v ===== *)
(** * Properties of contract negotiation *)

From S2P Require Import Prelude Sha256 WireV2 WireV2Handshake Negotiation.

(** ** Capability sets *)

Lemma ldiff_0 a b :
  Z.ldiff a b = 0 <-> forall i, 0 <= i -> Z.testbit a i = true -> Z.testbit b i = true.
Proof.
  split.
  - intros H i Hi Ha. apply (f_equal (fun z => Z.testbit z i)) in H.
    rewrite Z.ldiff_spec, Ha, Z.bits_0 in H. simpl in H. by apply negb_false_iff in H.
  - intros H. apply Z.bits_inj'. intros i Hi. rewrite Z.ldiff_spec, Z.bits_0.
    destruct (Z.testbit a i) eqn:Ha; [|done]. by rewrite (H i Hi Ha).
Qed.

(** [a] is included in [b]. *)
Definition subset (a b : Z) : Prop := Z.ldiff a b = 0.

Lemma subset_trans a b c : subset a b -> subset b c -> subset a c.
Proof. unfold subset. rewrite !ldiff_0. auto. Qed.

Lemma subset_lor a b c : subset (Z.lor a b) c <-> subset a c /\ subset b c.
Proof.
  unfold subset. rewrite !ldiff_0. split.
  - intros H. split; intros i Hi Ht; apply H; try done; rewrite Z.lor_spec, Ht; [done|apply orb_true_r].
  - intros [H1 H2] i Hi. rewrite Z.lor_spec. intros [?|?]%orb_prop; auto.
Qed.

Lemma subset_land_l a b : subset (Z.land a b) a.
Proof. unfold subset. rewrite ldiff_0. intros i _. rewrite Z.land_spec. by intros [? _]%andb_prop. Qed.
Lemma subset_land_r a b : subset (Z.land a b) b.
Proof. unfold subset. rewrite ldiff_0. intros i _. rewrite Z.land_spec. by intros [_ ?]%andb_prop. Qed.

Lemma subset_land a b c : subset a (Z.land b c) <-> subset a b /\ subset a c.
Proof.
  unfold subset. rewrite !ldiff_0. split.
  - intros H. split; intros i Hi Ht; specialize (H i Hi Ht); rewrite Z.land_spec in H;
      by apply andb_prop in H as [? ?].
  - intros [H1 H2] i Hi Ht. rewrite Z.land_spec. by rewrite H1, H2.
Qed.

(** A one-bit mask picks the same bit of every set that agrees on it. *)
Lemma subset_mask a b m : subset a b -> Z.land b m = 0 -> Z.land a m = 0.
Proof.
  unfold subset. rewrite ldiff_0. intros H Hb. apply Z.bits_inj'. intros i Hi.
  apply (f_equal (fun z => Z.testbit z i)) in Hb. rewrite Z.land_spec, Z.bits_0 in *.
  destruct (Z.testbit a i) eqn:Ha; [|done]. by rewrite (H i Hi Ha) in Hb.
Qed.

Lemma land_agree a b c m :
  Z.land a m = Z.land c m -> Z.land b m = Z.land c m ->
  subset m KnownCapabilities ->
  Z.land (Z.land (Z.land a b) KnownCapabilities) m = Z.land c m.
Proof.
  unfold subset. rewrite ldiff_0. intros Ha Hb Hm. apply Z.bits_inj'. intros i Hi.
  apply (f_equal (fun z => Z.testbit z i)) in Ha, Hb. rewrite !Z.land_spec in *.
  specialize (Hm i Hi). destruct (Z.testbit m i); [|by rewrite !andb_false_r].
  rewrite !andb_true_r in *. by rewrite Ha, Hb, Hm, andb_true_r, andb_diag.
Qed.

(** ** Profiles *)

Record Profile_ok (p : Profile) : Prop := {
  po_required_known : subset (RequiredCaps p) KnownCapabilities;
  po_required_offered : subset (RequiredCaps p) (OfferedCaps p);
  po_payload : 512 <= SendHardCap (Payload p) <= 65507 /\ 512 <= ReceiveHardCap (Payload p) <= 65507;
  po_paths : 1 <= MaxPaths p <= 256;
  po_mode : validateMode p = None;
  po_repair_offer : Z.land (OfferedCaps p) DatagramRepair = Z.land (RequiredCaps p) DatagramRepair;
  po_applicable : subset (RequiredCaps p) (applicableCaps p) }.

Lemma Validate_ok p : Validate p = None -> Profile_ok p.
Proof. unfold Validate. intros H. go_inv H; bools; split; unfold subset; try done; lia. Qed.

(** The listener's answer is itself a valid profile. *)
Lemma challengeProfile_valid l h :
  Validate l = None -> Validate h = None -> samePolicy h l = true ->
  let selected := Z.land (Z.land (OfferedCaps h) (OfferedCaps l)) KnownCapabilities in
  subset (RequiredCaps l) selected -> Validate (challengeProfile l selected) = None.
Proof.
  intros Hl Hh Hp sel Hr. pose proof (Validate_ok l Hl) as Ol. pose proof (Validate_ok h Hh) as Oh.
  assert (Hso : subset sel (OfferedCaps l)).
  { eapply subset_trans; [apply subset_land_l|apply subset_land_r]. }
  assert (Hdr : Z.land sel DatagramRepair = Z.land (RequiredCaps l) DatagramRepair).
  { apply land_agree; [|apply Ol|done]. rewrite (po_repair_offer h Oh).
    unfold samePolicy in Hp. bools. lia. }
  clearbody sel. clear Hp Oh Hh h. unfold Validate in *.
  change (validateMode (challengeProfile l sel)) with (validateMode l).
  change (applicableCaps (challengeProfile l sel)) with (applicableCaps l).
  change (requiredByPolicy (challengeProfile l sel)) with (requiredByPolicy l).
  unfold challengeProfile.
  cbn [Protocol OfferedCaps RequiredCaps Mux Discovery Scope Payload Epochs MaxPaths
    MaxOldEpochs MaxMigrations GraceMS Repair DatagramL Streams].
  go_step Hl; [done|]. go_step Hl; [done|]. go_step Hl; [done|]. go_step Hl; [done|].
  go_step Hl; [done|]. go_step Hl; [done|]. go_step Hl; [done|].
  unfold subset in Hr. rewrite Hr. cbn [Z.eqb negb].
  destruct (if Z.land (OfferedCaps l) GroupMigration =? 0 then _ else _) eqn:Em; [done|].
  assert (Hm : (if Z.land sel GroupMigration =? 0
                then negb ((if Z.land sel GroupMigration =? 0 then 0 else MaxMigrations (Epochs l)) =? 0)
                else ((if Z.land sel GroupMigration =? 0 then 0 else MaxMigrations (Epochs l)) <? 1)
                     || (2 <? (if Z.land sel GroupMigration =? 0 then 0 else MaxMigrations (Epochs l)))) = false).
  { destruct (Z.land sel GroupMigration =? 0) eqn:Es; [done|].
    destruct (Z.land (OfferedCaps l) GroupMigration =? 0) eqn:Eo; [|done].
    rewrite (subset_mask _ _ _ Hso) in Es by lia. done. }
  rewrite Hm. destruct (validateMode l); [done|].
  go_step Hl; [done|]. rewrite Hdr, Z.eqb_refl. cbn [negb].
  destruct (negb (_ =? Z.land (RequiredCaps l) DatagramRepair)) in Hl; [done|].
  destruct (negb (Mux l =? SmuxWire2) && negb (Z.land (OfferedCaps l) SmuxAdmission =? 0)) eqn:Esm; [done|].
  assert (Hsm : negb (Mux l =? SmuxWire2) && negb (Z.land sel SmuxAdmission =? 0) = false).
  { apply andb_false_iff in Esm as [->|Esm%negb_false_iff]; [done|].
    rewrite (subset_mask _ _ _ Hso) by lia. by rewrite andb_false_r. }
  by rewrite Hsm.
Qed.

(** ** Acceptance *)

Lemma validate_ok a :
  validate a = None <->
  Validate (Adv_Profile a) = None /\ 1 <= BootstrapPathID a <= MaxPaths (Adv_Profile a).
Proof.
  unfold validate. destruct (Validate _); [by split; [|intros [? _]]|].
  destruct (_ || _) eqn:E; (split; [intros ?|intros [_ ?]]); try done; [exfalso; lia|].
  split; [done|lia].
Qed.

Lemma Accept_ok hello challenge c :
  Accept hello challenge = Ok c ->
  let h := Adv_Profile hello in let s := Adv_Profile challenge in
  Profile_ok h /\ Profile_ok s /\ samePolicy h s = true /\
  SelectedCaps c = OfferedCaps s /\ subset (SelectedCaps c) KnownCapabilities /\
  subset (SelectedCaps c) (OfferedCaps h) /\
  subset (RequiredCaps h) (SelectedCaps c) /\ subset (RequiredCaps s) (SelectedCaps c) /\
  1 <= Contract_BootstrapPathID c <= Contract_MaxPaths c /\
  Contract_BootstrapPathID c = BootstrapPathID hello /\
  Contract_MaxPaths c = Z.min (MaxPaths h) (MaxPaths s) /\
  client c = h /\ server c = s /\ contract_valid c = true.
Proof.
  intros H h s. unfold Accept in H. cbv beta zeta in H. fold h s in H.
  destruct (validate hello) eqn:Vh; [done|]. destruct (validate challenge) eqn:Vs; [done|].
  apply validate_ok in Vh as [Vh Bh], Vs as [Vs Bs]. fold h in Vh, Bh. fold s in Vs, Bs.
  go_step H; [done|]. go_step H; [done|]. injection H as <-. bools.
  cbn [SelectedCaps Contract_MaxPaths Contract_BootstrapPathID client server contract_valid].
  match goal with E : (Z.ldiff (Z.lor _ _) _ =? 0) = true |- _ =>
    apply Z.eqb_eq, subset_lor in E as [Hr1 Hr2] end.
  split_and!; try done; try (by apply Validate_ok); try (by apply Z.eqb_eq); lia.
Qed.

(** C33: A contract is within both endpoints.  Whatever HELLO and CHALLENGE [Accept]
    turns into a contract, the selected capabilities are known, offered by the client,
    exactly those of the CHALLENGE and include everything either side requires; the
    active ones are a subset; every negotiated bound (paths, mux frame, age and attempts
    of repairs, old epochs, migrations and their grace) is the smaller of the two sides',
    so neither side's limit is exceeded; the contract names the two profiles; and the
    bootstrap path, that of the HELLO, is in range. *)
Theorem Accept_sound (hello challenge : Advertisement) (c : Contract)
    (H : Accept hello challenge = Ok c) :
  let h := Adv_Profile hello in let s := Adv_Profile challenge in
  (subset (SelectedCaps c) KnownCapabilities /\ subset (SelectedCaps c) (OfferedCaps h) /\
   SelectedCaps c = OfferedCaps s /\
   subset (RequiredCaps h) (SelectedCaps c) /\ subset (RequiredCaps s) (SelectedCaps c) /\
   subset (ActiveCaps c) (SelectedCaps c)) /\
  (Contract_MaxPaths c = Z.min (MaxPaths h) (MaxPaths s) /\
   MuxFrameBytes c = Z.min (MaxFrameBytes (Streams h)) (MaxFrameBytes (Streams s)) /\
   MaxAgeMS (Contract_Repair c) = Z.min (MaxAgeMS (Repair h)) (MaxAgeMS (Repair s)) /\
   MaxAttempts (Contract_Repair c) = Z.min (MaxAttempts (Repair h)) (MaxAttempts (Repair s)) /\
   MaxOldEpochs (Contract_Epochs c) = Z.min (MaxOldEpochs (Epochs h)) (MaxOldEpochs (Epochs s)) /\
   MaxMigrations (Contract_Epochs c) = Z.min (MaxMigrations (Epochs h)) (MaxMigrations (Epochs s)) /\
   GraceMS (Contract_Epochs c) = Z.min (GraceMS (Epochs h)) (GraceMS (Epochs s))) /\
  (client c = h /\ server c = s) /\
  Contract_BootstrapPathID c = BootstrapPathID hello /\
  1 <= Contract_BootstrapPathID c <= Contract_MaxPaths c /\ Contract_MaxPaths c <= 256.
Proof.
  assert (Fields : client c = Adv_Profile hello /\ server c = Adv_Profile challenge /\
    Contract_BootstrapPathID c = BootstrapPathID hello).
  { unfold Accept in H. cbv beta zeta in H. destruct (validate hello); [done|].
    destruct (validate challenge); [done|]. go_step H; [done|]. go_step H; [done|]. by injection H as <-. }
  destruct Fields as (F1 & F2 & F3).
  pose proof (Accept_ok _ _ _ H) as Ho. cbv zeta in Ho |- *.
  destruct Ho as (Oh & Os & _ & Hs & Hk & Hoff & Hr1 & Hr2 & Hb & _ & Hp & _).
  pose proof (po_paths _ Oh). split; [|split; [|split; [by split|split; [done|lia]]]].
  - split_and!; try done. unfold Accept in H. cbv beta zeta in H.
    destruct (validate hello); [done|]. destruct (validate challenge); [done|].
    go_step H; [done|]. go_step H; [done|]. injection H as <-. apply subset_land_l.
  - unfold Accept in H. cbv beta zeta in H. destruct (validate hello); [done|]. destruct (validate challenge); [done|].
    go_step H; [done|]. go_step H; [done|]. injection H as <-. done.
Qed.

(** Selection is exact.  A listener selects for a HELLO precisely when both profiles
    are valid, their policies agree, the known capabilities offered by both cover
    everything either requires, the winning path exists on the listener, and a
    fixed-budget carrier set is not larger than the listener's; the CHALLENGE then
    carries the listener's own limits with that intersection, and the initiator's
    [Accept] of it yields the listener's contract. *)
Theorem Select_exact (hello : Advertisement) (listener : Profile) :
  let h := Adv_Profile hello in
  let selected := Z.land (Z.land (OfferedCaps h) (OfferedCaps listener)) KnownCapabilities in
  let challenge := {| Adv_Profile := challengeProfile listener selected;
                      BootstrapPathID := BootstrapPathID hello |} in
  (validate hello = None /\ Validate listener = None /\ samePolicy h listener = true /\
   subset (RequiredCaps h) selected /\ subset (RequiredCaps listener) selected /\
   BootstrapPathID hello <= MaxPaths listener /\
   ~ (Discovery h = Fixed /\ Scope h = CarrierBudget /\ MaxPaths listener < MaxPaths h) /\
   exists c, Select hello listener = Ok (challenge, c) /\ Accept hello challenge = Ok c) \/
  (~ (validate hello = None /\ Validate listener = None /\ samePolicy h listener = true /\
      subset (RequiredCaps h) selected /\ subset (RequiredCaps listener) selected /\
      BootstrapPathID hello <= MaxPaths listener /\
      ~ (Discovery h = Fixed /\ Scope h = CarrierBudget /\ MaxPaths listener < MaxPaths h)) /\
   exists e, Select hello listener = Err e).
Proof.
  intros h sel ch. unfold Select. fold h.
  destruct (validate hello) eqn:Vh; [right; split; [by intros [? _]|eauto]|].
  destruct (Validate listener) eqn:Vl; [right; split; [by intros (_ & ? & _)|eauto]|].
  destruct (samePolicy h listener) eqn:Hp; cbn [negb]; [|right; split; [by intros (_ & _ & ? & _)|eauto]].
  fold sel. destruct (Z.ldiff (Z.lor (RequiredCaps h) (RequiredCaps listener)) sel =? 0) eqn:Hr; cbn [negb].
  2: { right. split; [|eauto]. intros (_ & _ & _ & H1 & H2 & _).
       assert (subset (Z.lor (RequiredCaps h) (RequiredCaps listener)) sel) by by apply subset_lor.
       unfold subset in *. lia. }
  apply Z.eqb_eq in Hr. fold (subset (Z.lor (RequiredCaps h) (RequiredCaps listener)) sel) in Hr.
  apply subset_lor in Hr as Hr'. destruct Hr' as [Hr1 Hr2]. fold ch.
  pose proof (proj1 (validate_ok hello) Vh) as [Vhp Hb]. fold h in Vhp, Hb.
  pose proof (challengeProfile_valid listener h Vl Vhp Hp Hr2) as Vc. fold sel in Vc.
  unfold Accept. rewrite Vh. fold h. change (Adv_Profile ch) with (challengeProfile listener sel).
  change (BootstrapPathID ch) with (BootstrapPathID hello).
  destruct (validate ch) eqn:Vch.
  { right. split; [|eauto]. intros (_ & _ & _ & _ & _ & Hle & _).
    assert (validate ch = None); [|congruence]. apply validate_ok. split; [exact Vc|]. cbn. lia. }
  apply validate_ok in Vch as [_ Hb']. change (MaxPaths (Adv_Profile ch)) with (MaxPaths listener) in Hb'.
  change (BootstrapPathID ch) with (BootstrapPathID hello) in Hb'.
  change (samePolicy h (challengeProfile listener sel)) with (samePolicy h listener). rewrite Hp.
  change (OfferedCaps (challengeProfile listener sel)) with sel.
  change (RequiredCaps (challengeProfile listener sel)) with (RequiredCaps listener).
  assert (Hk : Z.ldiff sel KnownCapabilities = 0) by apply subset_land_r.
  assert (Ho : Z.ldiff sel (OfferedCaps h) = 0).
  { eapply subset_trans; [apply subset_land_l|apply subset_land_l]. }
  unfold subset in Hr. rewrite Hk, Ho, Hr, !Z.eqb_refl. cbn [negb orb].
  change (MaxPaths (challengeProfile listener sel)) with (MaxPaths listener).
  destruct (_ || _) eqn:E; [right|left].
  - split; [|eauto]. intros (_ & _ & _ & _ & _ & Hle & Hn). apply Hn. lia.
  - split_and!; try done; [lia|lia|]. eexists. split; reflexivity.
Qed.

(** Send limits never exceed either end.  For a contract made by [Accept], either
    role and any local ceilings, the effective limits are at most the local ceilings
    and the peer's advertised receive limits; for reliable sessions the business bytes
    together with the control reserve fit the peer's receive window (the [uint32]
    subtraction never wraps), and a stream never exceeds the business bytes. *)
Theorem EffectiveSend_bounds (hello challenge : Advertisement) (c : Contract) (role : Role)
    (local : SendLimits) (d : DirectionLimits) (self peer : Profile)
    (Hc : Accept hello challenge = Ok c) (Hp : Profiles c role = Ok (self, peer))
    (Hd : EffectiveSend c role local = Ok d) :
  MaxUDPPayload d <= SendHardCap (Payload self) /\
  512 <= MaxUDPPayload d <= ReceiveHardCap (Payload peer) /\
  (Protocol self = Datagram ->
     let l := Send_Datagram local in let r := DatagramL peer in let e := Dir_Datagram d in
     1 <= DatagramWindow e <= Z.min (DatagramWindow l) (DatagramWindow r) /\
     1 <= MaxDatagramBytes e <= Z.min (MaxDatagramBytes l) (MaxDatagramBytes r) /\
     1 <= MaxFragments e <= Z.min (MaxFragments l) (MaxFragments r) /\
     1 <= MaxDatagramAssemblies e <= DatagramWindow e) /\
  (Protocol self <> Datagram ->
     let s := Send_Streams local in let r := Streams peer in
     0 < BusinessSessionBytes d /\
     BusinessSessionBytes d + Dir_ControlReceiveReserve d <= SessionReceiveBytes r /\
     BusinessSessionBytes d <= SessionBytes s /\
     1 <= StreamBytes (Dir_Streams d) <= BusinessSessionBytes d /\
     StreamBytes (Dir_Streams d) <= Z.min (StreamBytes s) (StreamReceiveBytes r) /\
     Send_MaxOpenStreams (Dir_Streams d) <= Z.min (Send_MaxOpenStreams s) (MaxBusinessStreams r)).
Proof.
  apply Accept_ok in Hc. cbv zeta in Hc |- *.
  destruct Hc as (Oh & Os & Hsp & _ & _ & _ & _ & _ & _ & _ & _ & Hcl & Hsv & Hcv).
  assert (Hsame : Profile_ok self /\ Profile_ok peer /\ Protocol self = Protocol peer /\ Mux self = Mux peer).
  { unfold Profiles in Hp. rewrite Hcv, Hcl, Hsv in Hp. unfold samePolicy in Hsp. bools.
    destruct role; [| |done]; injection Hp as <- <-; split_and!; (done || lia). }
  destruct Hsame as (O1 & O2 & Hpr & Hmx). unfold EffectiveSend in Hd. rewrite Hp in Hd.
  cbn [result_bind fst snd] in Hd. cbv beta zeta in Hd.
  pose proof (po_payload _ O1). pose proof (po_payload _ O2). pose proof (po_mode _ O2) as Hm.
  unfold validateMode in Hm. rewrite <- Hpr in Hm.
  destruct (Protocol self =? Datagram) eqn:Ep.
  - destruct (validateDatagram (Send_Datagram local)) eqn:Vl; [done|]. go_step Hd; [done|].
    injection Hd as <-. go_step Hm; [done|]. go_step Hm; [done|].
    unfold validateDatagram in Vl, Hm. go_step Vl; [done|]. go_step Hm; [done|].
    cbn [MaxUDPPayload Dir_Datagram sendDatagram DatagramWindow MaxDatagramBytes MaxFragments
      MaxDatagramAssemblies]. lia.
  - go_step Hd; [done|]. go_step Hd; [done|]. injection Hd as <-. go_step Hm; [done|].
    unfold validateStreams, maxReceiveBytes, initialSmuxWindow in *. go_step Hm; [done|].
    assert (Hu : u32 (SessionReceiveBytes (Streams peer) - ControlReceiveReserve (Streams peer))
                 = SessionReceiveBytes (Streams peer) - ControlReceiveReserve (Streams peer) /\
                 0 <= ControlReceiveReserve (Streams peer) < SessionReceiveBytes (Streams peer)).
    { go_step Hm; go_step Hm; try done; [|go_step Hm; [done|]]; split;
        try (apply wrap_small; unfold in_u); lia. }
    destruct Hu as [-> Hres]. bools.
    cbn [MaxUDPPayload Dir_Streams StreamBytes BusinessSessionBytes Dir_ControlReceiveReserve
      Send_MaxOpenStreams]. lia.
Qed.

(** ** Contract TLVs round trip *)

Record Profile_wf (p : Profile) : Prop := {
  pw_protocol : in_u 8 (Protocol p); pw_caps : in_u 64 (OfferedCaps p) /\ in_u 64 (RequiredCaps p);
  pw_layout : in_u 16 (LayoutID p); pw_fec : in_u 8 (DataShards p) /\ in_u 8 (ParityShards p);
  pw_mux : in_u 16 (Mux p); pw_strategy : in_u 8 (Discovery p) /\ in_u 8 (Scope p);
  pw_payload : in_u 16 (SendHardCap (Payload p)) /\ in_u 16 (ReceiveHardCap (Payload p)) /\
               in_u 16 (BootstrapBytes (Payload p)) /\ in_u 16 (InnerKCPBytes (Payload p));
  pw_datagram : in_u 32 (DatagramWindow (DatagramL p)) /\ in_u 32 (GroupWindow (DatagramL p)) /\
                in_u 32 (MaxDatagramBytes (DatagramL p)) /\ in_u 16 (MaxFragments (DatagramL p)) /\
                in_u 16 (MaxDescriptors (DatagramL p)) /\ in_u 32 (MaxDatagramAssemblies (DatagramL p));
  pw_repair : in_u 32 (MaxAgeMS (Repair p)) /\ in_u 16 (MaxAttempts (Repair p));
  pw_streams : in_u 32 (MaxBusinessStreams (Streams p)) /\ in_u 32 (MaxPendingAccepts (Streams p)) /\
               in_u 32 (SessionReceiveBytes (Streams p)) /\ in_u 32 (StreamReceiveBytes (Streams p)) /\
               in_u 32 (ControlReceiveReserve (Streams p)) /\ in_u 32 (MaxPendingOpens (Streams p)) /\
               in_u 32 (MaxFrameBytes (Streams p));
  pw_epochs : in_u 16 (MaxOldEpochs (Epochs p)) /\ in_u 16 (MaxMigrations (Epochs p)) /\
              in_u 32 (GraceMS (Epochs p));
  pw_paths : in_u 16 (MaxPaths p) }.

Record Advertisement_wf (a : Advertisement) : Prop := {
  aw_profile : Profile_wf (Adv_Profile a); aw_path : in_u 16 (BootstrapPathID a) }.

Lemma parse_contractValues a : Advertisement_wf a -> parseValues (contractValues a) = a.
Proof.
  intros [[? [? ?] ? [? ?] ? [? ?] (?&?&?&?) (?&?&?&?&?&?) [? ?] (?&?&?&?&?&?&?) (?&?&?) ?] ?].
  unfold parseValues, contractValues.
  cbn [nth Adv_Profile BootstrapPathID Protocol OfferedCaps RequiredCaps LayoutID DataShards
    ParityShards Mux Discovery Scope Payload DatagramL Repair Streams Epochs MaxPaths SendHardCap
    ReceiveHardCap BootstrapBytes InnerKCPBytes DatagramWindow GroupWindow MaxDatagramBytes
    MaxFragments MaxDescriptors MaxDatagramAssemblies MaxAgeMS MaxAttempts MaxBusinessStreams
    MaxPendingAccepts SessionReceiveBytes StreamReceiveBytes ControlReceiveReserve MaxPendingOpens
    MaxFrameBytes MaxOldEpochs MaxMigrations GraceMS].
  slices. rewrite !be_get_put_small by width.
  by destruct a as [[? ? ? ? ? ? ? ? ? [? ? ? ?] [? ? ? ? ? ?] [? ?] [? ? ? ? ? ? ?] [? ? ?] ?] ?].
Qed.

Lemma contractValues_lengths a :
  map len (contractValues a) = mandatoryLengths.
Proof. unfold contractValues, mandatoryLengths. cbn [map]. autorewrite with len. reflexivity. Qed.

Definition numbered_from (i : nat) (vs : list bytes) : list TLV :=
  imap (fun j v => {| TLV_Type := TLVProtocol + Z.of_nat (i + j); TLV_Value := v |}) vs.

Lemma numbered_from_cons i v vs :
  numbered_from i (v :: vs)
  = {| TLV_Type := TLVProtocol + Z.of_nat i; TLV_Value := v |} :: numbered_from (S i) vs.
Proof.
  unfold numbered_from. simpl. f_equal; [by rewrite Nat.add_0_r|]. apply imap_ext.
  intros j x _. cbn. by replace (i + S j)%nat with (S (i + j))%nat by lia.
Qed.

Definition tlvBytes (vs : list bytes) : Z := foldr (fun v n => 4 + len v + n) 0 vs.

Lemma collect_numbered : forall vs i prev total values,
  length values = 12%nat -> (i + length vs = 12)%nat ->
  map len vs = drop i mandatoryLengths ->
  (match prev with Some p => p < TLVProtocol + Z.of_nat i | None => True end) ->
  0 <= total -> total + tlvBytes vs <= 372 ->
  collectTLVs prev total values (numbered_from i vs) = Ok (take i values ++ map Some vs).
Proof.
  induction vs as [|v vs IH]; intros i prev total values Hv Hi Hl Hp Ht Hs.
  - cbn. rewrite app_nil_r, take_ge; [done|]. simpl in Hi. lia.
  - rewrite numbered_from_cons. cbn [collectTLVs TLV_Type TLV_Value]. cbn [tlvBytes foldr] in Hs.
    fold (tlvBytes vs) in Hs.
    assert (Hb : 0 <= tlvBytes vs) by (clear; induction vs as [|x xs IH]; cbn; [lia|];
      fold (tlvBytes xs); pose proof (len_nonneg x); lia).
    pose proof (len_nonneg v). cbn [map] in Hl. simpl length in Hi.
    assert (Hni : nth i mandatoryLengths 0 = len v /\ map len vs = drop (S i) mandatoryLengths).
    { assert (Hd : drop i mandatoryLengths = nth i mandatoryLengths 0 :: drop (S i) mandatoryLengths).
      { do 12 (destruct i as [|i]; [reflexivity|]). lia. }
      rewrite Hd in Hl. injection Hl as -> ->. done. }
    destruct Hni as [Hn Hl'].
    replace (match prev with Some p => _ | None => false end) with false
      by (destruct prev; [symmetry; apply Z.leb_gt; lia|done]).
    unfold TLVProtocol, TLVPaths in *. sizes.
    rewrite (proj2 (Z.ltb_ge _ _)) by lia. rewrite (proj2 (Z.ltb_ge _ _)) by lia.
    cbn [orb]. rewrite (proj2 (Z.ltb_ge _ _)) by lia. rewrite (proj2 (Z.ltb_ge _ _)) by lia. cbn [orb].
    replace (32769 + Z.of_nat i - 32769) with (Z.of_nat i) by lia. rewrite Nat2Z.id, Hn, Z.eqb_refl.
    cbn [negb]. rewrite IH; [|by rewrite length_insert|lia|done|lia|lia|lia]. f_equal.
    rewrite (take_S_r (<[i:=Some v]> values) i (Some v)) by (apply list_lookup_insert_eq; lia).
    rewrite take_insert_ge by lia. by rewrite <- app_assoc.
Qed.


(** Optional extensions: strictly increasing types without the required bit. *)
Fixpoint optional (prev : option Z) (tlvs : list TLV) : Prop :=
  match tlvs with
  | [] => True
  | t :: rest => (match prev with Some p => p < TLV_Type t | None => True end) /\
                 0 <= TLV_Type t < 0x8000 /\ optional (Some (TLV_Type t)) rest
  end.

Definition lastType (prev : option Z) (tlvs : list TLV) : option Z :=
  foldl (fun _ t => Some (TLV_Type t)) prev tlvs.

Lemma land_required t : 0 <= t < 0x8000 -> Z.land t 0x8000 = 0.
Proof.
  intros H. apply Z.bits_inj'. intros i Hi. rewrite Z.land_spec, Z.bits_0.
  destruct (Z.eq_dec i 15) as [->|].
  - rewrite <- (Z.mod_small t (2 ^ 15)) by done. by rewrite Z.mod_pow2_bits_high by lia.
  - change 0x8000 with (2 ^ 15). rewrite Z.pow2_bits_false by done. apply andb_false_r.
Qed.

Lemma collect_optional rest values : forall opts prev total,
  optional prev opts -> 0 <= total -> total + len (encodeTLVs opts) <= 372 ->
  collectTLVs prev total values (opts ++ rest)
  = collectTLVs (lastType prev opts) (total + len (encodeTLVs opts)) values rest.
Proof.
  induction opts as [|[t v] opts IH]; intros prev total Ho Ht Hs.
  - cbn [app lastType foldl]. by rewrite Z.add_0_r.
  - cbn [optional TLV_Type] in Ho. destruct Ho as (Hp & Hr & Ho).
    rewrite encodeTLVs_cons, len_app in *.
    assert (Hl : len (encodeTLV {| TLV_Type := t; TLV_Value := v |}) = 4 + len v).
    { unfold len. rewrite length_encodeTLV. cbn [TLV_Value]. lia. }
    rewrite Hl in *. pose proof (len_nonneg v). pose proof (len_nonneg (encodeTLVs opts)).
    cbn [app collectTLVs TLV_Type TLV_Value].
    replace (match prev with Some p => _ | None => false end) with false
      by (destruct prev; [symmetry; apply Z.leb_gt; lia|done]).
    unfold TLVProtocol. sizes. rewrite (proj2 (Z.ltb_ge _ _)) by lia. rewrite (proj2 (Z.ltb_ge _ _)) by lia.
    rewrite (proj2 (Z.ltb_lt t _)) by lia. cbn [orb]. rewrite land_required by done. cbn [Z.eqb negb].
    rewrite IH by (done || lia). cbn [lastType foldl TLV_Type]. f_equal. lia.
Qed.

Lemma lastType_bound opts : forall prev,
  optional prev opts -> (match prev with Some p => p < 0x8000 | None => True end) ->
  match lastType prev opts with Some p => p < 0x8000 | None => True end.
Proof.
  induction opts as [|t opts IH]; intros prev Ho Hp; [done|].
  destruct Ho as (_ & Hr & Ho). apply (IH (Some (TLV_Type t))); [done|lia].
Qed.

Lemma mapM_Some {A} (l : list A) : mapM id (map Some l) = Some l.
Proof. induction l as [|x l IH]; [done|]. cbn. by rewrite IH. Qed.

(** Reading a contract back, with optional extensions before it. *)
Lemma decode_contract a opts m ty :
  Advertisement_wf a -> validate a = None -> Header_Type (Handshake_Header m) = ty ->
  TLVs m = opts ++ numbered (contractValues a) -> optional None opts ->
  len opts <= 4 -> len (encodeTLVs opts) <= 223 ->
  decodeAdvertisement m ty = Ok a.
Proof.
  intros Hw Hv Ht Htl Ho Hc Hb. unfold decodeAdvertisement. rewrite Ht, Z.eqb_refl, Htl.
  assert (Hn : len (numbered (contractValues a)) = 12) by done.
  pose proof (len_nonneg opts). rewrite len_app, Hn. sizes.
  rewrite (proj2 (Z.ltb_ge _ _)) by lia. rewrite (proj2 (Z.ltb_ge _ _)) by lia. cbn [negb orb].
  rewrite collect_optional by (done || lia).
  change (numbered (contractValues a)) with (numbered_from 0 (contractValues a)).
  pose proof (len_nonneg (encodeTLVs opts)).
  assert (Hsum : tlvBytes (contractValues a) = 149).
  { unfold tlvBytes, contractValues. cbn [foldr]. autorewrite with len. reflexivity. }
  rewrite collect_numbered; [|done|done|apply contractValues_lengths| |lia|lia].
  2: { pose proof (lastType_bound opts None Ho I) as Hlast. destruct (lastType None opts); [|done].
       unfold TLVProtocol. simpl. lia. }
  cbn [result_bind]. change (take 0 (replicate 12 None) ++ map Some (contractValues a)) with (map Some (contractValues a)). rewrite mapM_Some.
  assert (Hz : be_get (slice 6 8 (nth 8 (contractValues a) [])) = 0).
  { unfold contractValues. cbn [nth]. slices. reflexivity. }
  rewrite Hz, parse_contractValues by done. cbn [Z.eqb negb]. by rewrite Hv.
Qed.

(** ** The contract TLVs form a valid handshake *)

Definition indexFacts (i : nat) : bool :=
  bool_decide (tlvLength (TLVProtocol + Z.of_nat i) = Some (nth i mandatoryLengths 0))
  && negb (TLVProtocol + Z.of_nat i =? TLVError)
  && (TLVProtocol <=? TLVProtocol + Z.of_nat i) && (TLVProtocol + Z.of_nat i <=? TLVPaths)
  && (Z.lor (2 ^ Z.of_nat i - 1) (u16 (Z.shiftl 1 (Z.of_nat i))) =? 2 ^ Z.of_nat (S i) - 1)
  && (Bool.eqb (TLVProtocol + Z.of_nat i =? TLVRepair) (i =? 8)%nat).

Lemma indexFacts_all i : (i < 12)%nat -> indexFacts i = true.
Proof. intros H. do 12 (destruct i as [|i]; [vm_compute; reflexivity|]). lia. Qed.

Lemma tlvBytes_nonneg vs : 0 <= tlvBytes vs.
Proof.
  induction vs as [|v vs IH]; cbn [tlvBytes foldr]; [lia|]. fold (tlvBytes vs). pose proof (len_nonneg v). lia.
Qed.

Lemma validate_numbered ty : forall vs i prev total,
  (i + length vs = 12)%nat -> map len vs = drop i mandatoryLengths ->
  (match prev with Some p => p < TLVProtocol + Z.of_nat i | None => True end) ->
  (forall j v, vs !! j = Some v -> (i + j = 8)%nat -> allZero (slice 6 8 v) = true) ->
  0 <= total -> total + tlvBytes vs <= 372 ->
  validateTLVs_loop ty prev total (2 ^ Z.of_nat i - 1) (numbered_from i vs) = Ok (2 ^ 12 - 1).
Proof.
  induction vs as [|v vs IH]; intros i prev total Hi Hl Hp Hr Ht Hs.
  - simpl in Hi. replace i with 12%nat by lia. done.
  - rewrite numbered_from_cons. cbn [validateTLVs_loop TLV_Type TLV_Value]. cbn [tlvBytes foldr] in Hs.
    fold (tlvBytes vs) in Hs. pose proof (tlvBytes_nonneg vs). pose proof (len_nonneg v).
    simpl length in Hi. pose proof (indexFacts_all i ltac:(lia)) as Hf. unfold indexFacts in Hf. bools.
    assert (Hd : drop i mandatoryLengths = nth i mandatoryLengths 0 :: drop (S i) mandatoryLengths).
    { do 12 (destruct i as [|i]; [reflexivity|]). lia. }
    rewrite Hd in Hl. cbn [map] in Hl. injection Hl as Hlv Hl.
    replace (match prev with Some p => _ | None => false end) with false
      by (destruct prev; [symmetry; apply Z.leb_gt; lia|done]). sizes.
    rewrite (proj2 (Z.ltb_ge _ _)) by lia. rewrite (proj2 (Z.ltb_ge _ _)) by lia. cbn [orb].
    repeat match goal with E : ?b = true |- context [?b] => rewrite E end.
    match goal with E : tlvLength _ = _ |- _ => rewrite E end. rewrite Hlv, Z.eqb_refl.
    repeat match goal with E : ?b = false |- context [?b] => rewrite E end.
    cbn [negb andb orb]. rewrite andb_false_r. cbn [orb].
    match goal with E : Bool.eqb _ _ = true |- _ => apply eqb_prop in E as Hrep end.
    assert (Hz : (TLVProtocol + Z.of_nat i =? TLVRepair) && negb (allZero (slice 6 8 v)) = false).
    { rewrite Hrep. destruct (i =? 8)%nat eqn:Ei; [|done]. apply Nat.eqb_eq in Ei.
      rewrite (Hr 0%nat v); [done|done|lia]. }
    rewrite Hz. cbn [andb].
    replace (TLVProtocol + Z.of_nat i - TLVProtocol) with (Z.of_nat i) by lia.
    match goal with E : (Z.lor _ _ =? _) = true |- _ => apply Z.eqb_eq in E; rewrite E end.
    apply IH; [lia|done|lia| |lia|lia]. intros j x Hx Hj. apply (Hr (S j) x Hx). lia.
Qed.

Lemma validateTLVs_contract a ty :
  ty = TypeHello \/ ty = TypeChallenge -> validateTLVs ty (numbered (contractValues a)) = None.
Proof.
  intros Hty. unfold validateTLVs. assert (Hn : len (numbered (contractValues a)) = 12) by done.
  rewrite Hn. change (numbered (contractValues a)) with (numbered_from 0 (contractValues a)).
  change 0 with (2 ^ Z.of_nat 0 - 1) at 3.
  assert (Hsum : tlvBytes (contractValues a) = 149).
  { unfold tlvBytes, contractValues. cbn [foldr]. autorewrite with len. reflexivity. }
  rewrite validate_numbered; [|done|apply contractValues_lengths|done| |lia|lia].
  - by destruct Hty as [-> | ->].
  - intros j v Hj Hj8. simpl in Hj8. subst j. unfold contractValues in Hj. cbn in Hj.
    injection Hj as <-. slices. reflexivity.
Qed.

(** ** Both ends reach the same contract over the wire *)

Lemma land_known_width z : in_u 64 (Z.land z KnownCapabilities).
Proof.
  change KnownCapabilities with (Z.ones 9). rewrite Z.land_ones by lia.
  pose proof (Z.mod_pos_bound z (2 ^ 9) ltac:(lia)). unfold in_u. lia.
Qed.

Lemma challenge_wf l sel path :
  Profile_wf l -> in_u 64 sel -> in_u 16 path ->
  Advertisement_wf {| Adv_Profile := challengeProfile l sel; BootstrapPathID := path |}.
Proof.
  intros [] Hs Hp. split; [|done]. split; cbn [challengeProfile Protocol OfferedCaps RequiredCaps LayoutID
    DataShards ParityShards Mux Discovery Scope Payload DatagramL Repair Streams Epochs MaxPaths
    MaxOldEpochs MaxMigrations GraceMS Adv_Profile]; try done; try tauto.
  split_and!; try tauto. destruct (_ =? 0); [split; lia|tauto].
Qed.

(** What [Select] answers is what [Accept] computes from the two advertisements. *)
Lemma Select_agreed a listener ch c :
  Profile_wf listener -> in_u 16 (BootstrapPathID a) -> Select a listener = Ok (ch, c) ->
  Accept a ch = Ok c /\ Advertisement_wf ch.
Proof.
  intros Hl Hp Hsel. unfold Select in Hsel. destruct (validate a); [done|]. destruct (Validate listener); [done|].
  go_step Hsel; [done|]. go_step Hsel; [done|]. go_step Hsel. injection Hsel as <- <-. split; [done|].
  apply challenge_wf; [done|apply land_known_width|done].
Qed.

Lemma decoded_path m ty a : decodeAdvertisement m ty = Ok a -> in_u 16 (BootstrapPathID a).
Proof.
  unfold decodeAdvertisement. intros Hd. go_step Hd; [done|]. go_step Hd.
  destruct (mapM id _) as [vs|]; [|done]. go_step Hd; [done|]. cbv zeta in Hd.
  destruct (validate (parseValues vs)); [done|]. injection Hd as <-. cbn [parseValues BootstrapPathID].
  set (l := slice 2 4 (nth 11 vs [])). pose proof (be_get_range l) as Hr.
  assert (len l <= 2).
  { unfold l. destruct (nth 11 vs []) as [|? [|? [|? [|? ?]]]]; vm_compute; discriminate. }
  unfold in_u. assert (2 ^ (8 * len l) <= 2 ^ 16) by (apply Z.pow_le_mono_r; lia). lia.
Qed.

(** C32: Negotiation agrees over the wire.  When a listener selects for a client's
    advertisement, the client's HELLO packet decodes, under the handshake key, to that
    very advertisement; the listener's CHALLENGE packet decodes to the advertisement it
    selected; and [Accept] on the client's side yields exactly the listener's contract,
    with the two roles' profiles mirrored. *)
Theorem negotiation_agrees (a : Advertisement) (listener : Profile) (ch : Advertisement) (c : Contract)
    (hm cm : Handshake) (hp cp : bytes) (k : Key)
    (Ha : Advertisement_wf a) (Hl : Profile_wf listener)
    (Hsel : Select a listener = Ok (ch, c))
    (Hht : Header_Type (Handshake_Header hm) = TypeHello /\ contractTLVs a = Ok (TLVs hm))
    (Hct : Header_Type (Handshake_Header cm) = TypeChallenge /\ contractTLVs ch = Ok (TLVs cm))
    (Hhw : Handshake_wf hm /\ AppendHandshake [] hm k = (hp, None))
    (Hcw : Handshake_wf cm /\ AppendHandshake [] cm k = (cp, None)) :
  (exists hm', result_bind DecodeHandshake (open hp k) = Ok hm' /\ DecodeHello hm' = Ok a) /\
  (exists cm', result_bind DecodeHandshake (open cp k) = Ok cm' /\ DecodeChallenge cm' = Ok ch) /\
  Accept a ch = Ok c /\
  Profiles c Initiator = Ok (Adv_Profile a, Adv_Profile ch) /\
  Profiles c Responder = Ok (Adv_Profile ch, Adv_Profile a).
Proof.
  assert (Hacc : Accept a ch = Ok c /\ Advertisement_wf ch).
  { apply (Select_agreed a listener); [done|apply Ha|done]. }
  destruct Hacc as [Hacc Hchw].
  assert (Hv : validate a = None /\ validate ch = None).
  { unfold Accept in Hacc. destruct (validate a); [done|]. by destruct (validate ch). }
  destruct Hv as [Hva Hvc]. destruct Hht as [Hht Hts], Hct as [Hct Hcts].
  unfold contractTLVs in Hts, Hcts. rewrite Hva in Hts. rewrite Hvc in Hcts.
  injection Hts as Hts. injection Hcts as Hcts.
  split_and!.
  - exists hm. split; [by apply DecodeHandshake_iff|]. by apply (decode_contract a []).
  - exists cm. split; [by apply DecodeHandshake_iff|]. by apply (decode_contract ch []).
  - done.
  - apply Accept_ok in Hacc. cbv zeta in Hacc.
    destruct Hacc as (_ & _ & _ & _ & _ & _ & _ & _ & _ & _ & _ & Hcl & Hsv & Hcv).
    unfold Profiles. by rewrite Hcv, Hcl, Hsv.
  - apply Accept_ok in Hacc. cbv zeta in Hacc.
    destruct Hacc as (_ & _ & _ & _ & _ & _ & _ & _ & _ & _ & _ & Hcl & Hsv & Hcv).
    unfold Profiles. by rewrite Hcv, Hcl, Hsv.
Qed.

(** Contract TLVs round trip, and extensions are ignored.  The twelve TLVs built for
    a valid advertisement are a canonical list for HELLO and CHALLENGE; any handshake
    carrying them decodes to that advertisement, also when optional (non-required)
    TLVs in canonical order come before them, within the handshake's size. *)
Theorem contractTLVs_roundtrip (a : Advertisement) (ts opts : list TLV) (m : Handshake) (ty : Z)
    (Ha : Advertisement_wf a) (Hts : contractTLVs a = Ok ts)
    (Hty : ty = TypeHello \/ ty = TypeChallenge)
    (Hm : Header_Type (Handshake_Header m) = ty /\ TLVs m = opts ++ ts)
    (Hopt : optional None opts /\ len opts <= 4 /\ len (encodeTLVs opts) <= 223) :
  validateTLVs ty ts = None /\ decodeAdvertisement m ty = Ok a.
Proof.
  unfold contractTLVs in Hts. destruct (validate a) eqn:Hv; [done|]. injection Hts as <-.
  destruct Hm as [Ht Htl], Hopt as (Ho & Hc & Hb).
  split; [by apply validateTLVs_contract|]. by apply (decode_contract a opts).
Qed.
