(* ===== verification/HandshakeDemo.v ===== *)
(** * A worked handshake

    One complete HELLO / CHALLENGE / FINISH exchange, computed: the inputs at which the
    theorems about negotiation, transcripts and keys are instantiated. *)

From S2P Require Import Prelude Sha256 WireV2 WireV2Handshake Transcript Negotiation NegotiationProps.

Definition demoProfile : Profile := {|
  Protocol := Datagram; OfferedCaps := 3; RequiredCaps := 1; LayoutID := 1;
  DataShards := 4; ParityShards := 2; Mux := 0; Discovery := 0; Scope := 0;
  Payload := {| SendHardCap := 1400; ReceiveHardCap := 1200; BootstrapBytes := 512; InnerKCPBytes := 0 |};
  DatagramL := {| DatagramWindow := 64; GroupWindow := 64; MaxDatagramBytes := 1000; MaxFragments := 16;
                  MaxDescriptors := 8; MaxDatagramAssemblies := 32 |};
  Repair := zeroRepairLimits; Streams := zeroStreamLimits;
  Epochs := {| MaxOldEpochs := 1; MaxMigrations := 0; GraceMS := 1000 |}; MaxPaths := 2 |}.

Definition demoAdvertisement : Advertisement := {| Adv_Profile := demoProfile; BootstrapPathID := 1 |}.

Definition demoSelection : Advertisement * Contract :=
  Eval vm_compute in
  match Select demoAdvertisement demoProfile with
  | Ok x => x
  | Err _ => (demoAdvertisement,
      {| SelectedCaps := 0; ActiveCaps := 0; Contract_MaxPaths := 0; Contract_BootstrapPathID := 0;
         MuxFrameBytes := 0; Contract_Repair := zeroRepairLimits; Contract_Epochs := Epochs demoProfile;
         client := demoProfile; server := demoProfile; contract_valid := false |})
  end.

Definition demoSID : SessionID := replicate 16 Byte.x01.
Definition demoKey : Key := replicate 32 Byte.x09.

Definition helloTLVs : list TLV := Eval vm_compute in numbered (contractValues demoAdvertisement).
Definition challengeTLVs : list TLV := Eval vm_compute in numbered (contractValues (fst demoSelection)).

Definition helloMessage : Handshake := {|
  Handshake_Header := {| Header_Type := TypeHello; Header_SessionID := demoSID |};
  ClientNonce := replicate 16 Byte.x02; ServerNonce := zero16; TranscriptDigest := zero32;
  ReturnPathToken := zero16; TLVs := helloTLVs |}.

Definition helloPacket : bytes := Eval vm_compute in fst (AppendHandshake [] helloMessage demoKey).

Definition helloDigest : bytes := Eval vm_compute in sha256 (take 480 helloPacket).

Definition challengeMessage : Handshake := {|
  Handshake_Header := {| Header_Type := TypeChallenge; Header_SessionID := demoSID |};
  ClientNonce := replicate 16 Byte.x02; ServerNonce := replicate 16 Byte.x03;
  TranscriptDigest := helloDigest;
  ReturnPathToken := replicate 16 Byte.x04;
  TLVs := challengeTLVs |}.

Definition challengePacket : bytes := Eval vm_compute in fst (AppendHandshake [] challengeMessage demoKey).

Definition openedAs (p : bytes) : AuthenticatedEnvelope :=
  {| envelope := {| packet := p; header := headerOf p |}; verified := true |}.

Definition demoTranscript : Transcript :=
  Eval vm_compute in
  match NewTranscript (openedAs helloPacket) (openedAs challengePacket) with
  | Ok t => t
  | Err _ => {| sessionID := []; clientNonce := []; serverNonce := []; returnPathToken := [];
                digest := []; valid := false |}
  end.

Definition finishPacket : bytes :=
  Eval vm_compute in fst (AppendHandshake [] (confirmation demoTranscript TypeFinish) demoKey).

Lemma hello_opens : open helloPacket demoKey = Ok (openedAs helloPacket).
Proof. vm_compute. reflexivity. Qed.
Lemma challenge_opens : open challengePacket demoKey = Ok (openedAs challengePacket).
Proof. vm_compute. reflexivity. Qed.
Lemma finish_opens : open finishPacket demoKey = Ok (openedAs finishPacket).
Proof. vm_compute. reflexivity. Qed.
Lemma demo_transcript : NewTranscript (openedAs helloPacket) (openedAs challengePacket) = Ok demoTranscript.
Proof. vm_compute. reflexivity. Qed.

Lemma demoProfile_wf : Profile_wf demoProfile.
Proof. split; repeat split; vm_compute; congruence. Qed.

Lemma demoAdvertisement_wf : Advertisement_wf demoAdvertisement.
Proof. split; [exact demoProfile_wf|split; vm_compute; congruence]. Qed.

Lemma hello_wf : Handshake_wf helloMessage.
Proof. split; try reflexivity; [split; [split|]|repeat constructor]; vm_compute; congruence. Qed.
Lemma challenge_message_wf : Handshake_wf challengeMessage.
Proof. split; try reflexivity; [split; [split|]|repeat constructor]; vm_compute; congruence. Qed.

Lemma Accept_sound_witness :
  Accept demoAdvertisement (fst demoSelection) = Ok (snd demoSelection) /\
  1 <= Contract_BootstrapPathID (snd demoSelection) <= Contract_MaxPaths (snd demoSelection).
Proof.
  assert (H : Accept demoAdvertisement (fst demoSelection) = Ok (snd demoSelection))
    by (vm_compute; reflexivity).
  split; [exact H|].
  destruct (Accept_sound _ _ _ H) as (_ & _ & _ & _ & B & _). exact B.
Defined.

Definition demoSend : SendLimits := {|
  Send_Datagram := DatagramL demoProfile; Send_Streams := zeroStreamSendLimits |}.
Definition demoDirection : DirectionLimits :=
  Eval vm_compute in
  match EffectiveSend (snd demoSelection) Initiator demoSend with
  | Ok d => d
  | Err _ => {| MaxUDPPayload := 0; Dir_Datagram := zeroDatagramLimits;
                Dir_Streams := zeroStreamSendLimits; Dir_ControlReceiveReserve := 0;
                BusinessSessionBytes := 0 |}
  end.

Lemma EffectiveSend_bounds_witness :
  EffectiveSend (snd demoSelection) Initiator demoSend = Ok demoDirection /\
  MaxUDPPayload demoDirection <= SendHardCap (Payload demoProfile).
Proof.
  split; [vm_compute; reflexivity|].
  refine (proj1 (EffectiveSend_bounds demoAdvertisement (fst demoSelection) (snd demoSelection) Initiator
    demoSend demoDirection demoProfile (Adv_Profile (fst demoSelection)) _ _ _)); vm_compute; reflexivity.
Defined.

Lemma negotiation_agrees_witness :
  Accept demoAdvertisement (fst demoSelection) = Ok (snd demoSelection).
Proof.
  refine (proj1 (proj2 (proj2 (negotiation_agrees demoAdvertisement demoProfile (fst demoSelection)
    (snd demoSelection) helloMessage challengeMessage helloPacket challengePacket demoKey
    demoAdvertisement_wf demoProfile_wf _ _ _ _ _)))).
  - vm_compute. reflexivity.
  - split; vm_compute; reflexivity.
  - split; vm_compute; reflexivity.
  - split; [exact hello_wf|vm_compute; reflexivity].
  - split; [exact challenge_message_wf|vm_compute; reflexivity].
Defined.

(** An optional extension in front of the mandatory TLVs. *)
Definition extended : Handshake := {|
  Handshake_Header := Handshake_Header helloMessage; ClientNonce := ClientNonce helloMessage;
  ServerNonce := zero16; TranscriptDigest := zero32; ReturnPathToken := zero16;
  TLVs := {| TLV_Type := 7; TLV_Value := [Byte.x01] |} :: TLVs helloMessage |}.

Lemma contractTLVs_roundtrip_witness :
  validateTLVs TypeHello (TLVs helloMessage) = None /\
  decodeAdvertisement extended TypeHello = Ok demoAdvertisement.
Proof.
  apply (contractTLVs_roundtrip demoAdvertisement (TLVs helloMessage)
    [{| TLV_Type := 7; TLV_Value := [Byte.x01] |}] extended TypeHello demoAdvertisement_wf).
  - vm_compute. reflexivity.
  - left. reflexivity.
  - split; reflexivity.
  - split; [|split]; vm_compute; repeat split; congruence.
Defined.

Lemma ValidateConfirmation_exact_witness :
  ValidateConfirmation demoTranscript (openedAs finishPacket) = None.
Proof.
  apply (ValidateConfirmation_exact helloPacket challengePacket finishPacket demoKey demoKey
    (openedAs helloPacket) (openedAs challengePacket) (openedAs finishPacket) demoTranscript
    hello_opens challenge_opens demo_transcript finish_opens).
  exists TypeFinish, (confirmation demoTranscript TypeFinish). split; vm_compute; reflexivity.
Defined.

Lemma Transcript_binds_exchange_witness :
  (signedBytes (openedAs helloPacket) = signedBytes (openedAs helloPacket) /\
   signedBytes (openedAs challengePacket) = signedBytes (openedAs challengePacket)) \/
  (signedBytes (openedAs helloPacket) ++ signedBytes (openedAs challengePacket)
     <> signedBytes (openedAs helloPacket) ++ signedBytes (openedAs challengePacket) /\
   sha256 (signedBytes (openedAs helloPacket) ++ signedBytes (openedAs challengePacket))
     = sha256 (signedBytes (openedAs helloPacket) ++ signedBytes (openedAs challengePacket))).
Proof.
  exact (Transcript_binds_exchange _ _ _ _ _ _ _ _ _ _ _ _ demoTranscript demoTranscript
    hello_opens challenge_opens demo_transcript hello_opens challenge_opens demo_transcript eq_refl).
Defined.

Lemma demoTranscript_wf : Transcript_wf demoTranscript.
Proof. split; try (vm_compute; reflexivity). split; vm_compute; discriminate. Qed.

(** The return-path token is not a key input. *)
Definition otherToken : Transcript := {|
  sessionID := sessionID demoTranscript; clientNonce := clientNonce demoTranscript;
  serverNonce := serverNonce demoTranscript; returnPathToken := replicate 16 Byte.x05;
  digest := digest demoTranscript; valid := true |}.

Lemma otherToken_wf : Transcript_wf otherToken.
Proof. split; try (vm_compute; reflexivity). split; vm_compute; discriminate. Qed.

Lemma keyInput_separates_witness :
  keyIdentity (UseC2S demoTranscript) = keyIdentity (UseC2S otherToken).
Proof.
  apply (keyInput_separates (UseC2S demoTranscript) (UseC2S otherToken));
    [exact demoTranscript_wf|exact otherToken_wf|reflexivity].
Defined.
