(* ===== verification/Handshake.v ===== *)
(** * The version 2 handshake engine ([internal/handshakev2])

    An [Engine] admits dials and listener attempts, authenticates the five handshake
    messages, and hands established Sessions to an adapter.  A single caller
    serialises its methods, so each one is a function on the engine and the world
    outside it: the credit ledger, the storage handed to deferred disposal, and the
    adapter's own state.  [Emit], [Install], the disposers and the entropy source are
    the adapter's code, the class [Adapter]; closures are opaque references.  Times
    are nanoseconds, and [None] is the zero time. *)

From stdpp Require Import sorting.
From S2P Require Import Prelude Sha256.
From S2P Require WireV2 WireV2Handshake WireV2Bundle Transcript Negotiation Credit.
Import WireV2 (SessionID, Nonce, Digest, Key, zero16, zero32).

Abbreviation Ptr := Credit.Ptr.
Abbreviation Transcript := Transcript.Transcript.
Abbreviation DirectionalKeys := Transcript.DirectionalKeys.

(** ** Constants and errors *)

Definition Lifetime : Z := 10 * 10 ^ 9.
Definition RetryInterval : Z := 10 ^ 9.
Definition MaxSends : Z := 8.
Definition MaxPending : Z := 256.
Definition MaxRejections : nat := 256.
Definition MaxInitialReservations : Z := 16.
Definition PacketReservationBytes : Z := 4 * WireV2.HandshakePacketSize.
Definition DeferredDisposalBytes : Z := 512.
Definition PreparedDialBytes : Z := 32768.

Inductive HandshakeError :=
| ErrInvalid | ErrClosed | ErrReentrant | ErrTime | ErrExpired | ErrCancelled | ErrRejected
| ErrEntropy | ErrInstallation | ErrExhausted
| WireErr (e : WireV2.WireError) | NegotiationErr (e : Negotiation.NegotiationError)
| CreditErr (e : Credit.CreditError).
#[global] Instance HandshakeError_eq_dec : EqDecision HandshakeError.
Proof. solve_decision. Defined.

(** ** Addresses ([net/netip]) *)

Inductive Addr := NoAddr | V4 (a : Z) | V6 (a : Z) (zone : bytes).
#[global] Instance Addr_eq_dec : EqDecision Addr.
Proof. solve_decision. Defined.

Record AddrPort := { addr : Addr; port : Z }.
#[global] Instance AddrPort_eq_dec : EqDecision AddrPort.
Proof. solve_decision. Defined.

Definition IsUnspecified (a : Addr) : bool :=
  match a with NoAddr => false | V4 a => a =? 0 | V6 a z => (a =? 0) && bool_decide (z = []) end.
Definition Unmap (a : Addr) : Addr :=
  match a with V6 a z => if Z.shiftr a 32 =? 0xffff then V4 (Z.land a (2 ^ 32 - 1)) else V6 a z | _ => a end.
Definition IsMulticast (a : Addr) : bool :=
  match Unmap a with
  | NoAddr => false | V4 a => Z.shiftr a 28 =? 0xe | V6 a _ => Z.shiftr a 120 =? 0xff end.

Record Binding := { SocketID : Z; Local : AddrPort; Remote : AddrPort }.
#[global] Instance Binding_eq_dec : EqDecision Binding.
Proof. solve_decision. Defined.

Definition validAddress (a : AddrPort) : bool :=
  negb (bool_decide (addr a = NoAddr)) && negb (port a =? 0) && negb (IsUnspecified (addr a))
  && negb (IsMulticast (addr a)) && bool_decide (addr a = Unmap (addr a)).
Definition validBinding (b : Binding) : bool :=
  negb (SocketID b =? 0) && validAddress (Local b) && validAddress (Remote b).

(** ** Data *)

Record Carrier := { car_PathID : Z; car_Binding : Binding }.

Record Policy := { pol_Profile : Negotiation.Profile; pol_Receive : Credit.Claim; pol_Initial : list Credit.Claim }.

Record DialRequest := {
  req_Policy : Policy; Carriers : list Carrier; Concurrent : Z; Deadline : option Z }.

(** [Contract] is [None] for the zero value. *)
Record Setup := {
  ID : SessionID; setup_DialID : Z; setup_Role : Negotiation.Role; PathID : Z;
  setup_Binding : Binding; setup_Contract : option Negotiation.Contract; Keys : DirectionalKeys;
  setup_Scope : option Ptr; Receive_claim : Credit.Claim; Initial : list Ptr }.

Record SendAttempt := { send_ID : SessionID; send_Type : Z; send_PathID : Z; send_Err : bool }.
Record Failure := { fail_ID : SessionID; fail_DialID : Z; fail_Err : HandshakeError }.
Record Result := {
  Sends : list SendAttempt; Established : list Setup; Closed : list SessionID; Failures : list Failure }.
Definition noResult : Result := {| Sends := []; Established := []; Closed := []; Failures := [] |}.

Inductive phase := waitChallenge | waitFinish | waitReady | established.
#[global] Instance phase_eq_dec : EqDecision phase.
Proof. solve_decision. Defined.

Record packets := { hello : bytes; challenge : bytes; finish : bytes; ready : bytes }.
Definition blank : bytes := replicate 512 Byte.x00.
Definition newPackets : packets := {| hello := blank; challenge := blank; finish := blank; ready := blank |}.

(** The four packets of an attempt live in the attempt; a prepared dial keeps the
    cleared storage between attempts. *)
Record attempt := {
  setup : Setup;
  state : phase;
  policy : Policy;
  att_hello : Negotiation.Advertisement;
  transcript : option Transcript;
  deadline : Z;
  nextSend : option Z;
  sends : Z;
  att_packets : option packets;
  receiveLease : option Ptr;
  packetLease : option Ptr;
  dispose : option Ptr;
  disposeDeferred : option Ptr;
  retirement : option Ptr;
  closeSent : bool;
  prepared : option Ptr }.

Record dial := { dial_id : Z; request : DialRequest; next : nat; running : Z; dial_prepared : option Ptr }.

Record rejected := { rej_id : SessionID; rej_digest : Digest; rej_deadline : Z }.

Record Config := {
  Credits : option Ptr; Listener : option Policy;
  hasEntropy : bool; hasEmit : bool; hasInstall : bool; hasInstallDeferred : bool }.

Inductive preparationPhase := preparationWaiting | preparationAdopted | preparationAborted.
#[global] Instance preparationPhase_eq_dec : EqDecision preparationPhase.
Proof. solve_decision. Defined.

(** [None] fields are the cleared ones. *)
Record preparedDialState := {
  prep_phase : preparationPhase; prep_policy : option Policy; prep_scope : option Ptr;
  prep_receive : option Ptr; prep_packet : option Ptr; prep_initial : list Ptr;
  prep_storage : option Ptr; disposePending : option Ptr }.

Record Engine := {
  config : Config;
  psk : bytes;
  handshakeKey : Key;
  sessions : gmap SessionID attempt;
  dials : gmap Z dial;
  prepareds : gmap Ptr preparedDialState;
  preparations : gset Ptr;
  rejections : list (option rejected);
  pending : Z;
  nextDial : Z;
  lastNow : Z;
  hasTime : bool;
  busy : bool;
  eng_closed : bool }.

(** ** The outside world *)

Record retiredStorage := {
  once : bool; sto_initial : list Ptr; sto_receive : option Ptr; sto_metadata : option Ptr;
  preparedMetadata : option Ptr }.

Record Outside (Env : Type) := { credits : Credit.heap; storages : gmap Ptr retiredStorage; env : Env }.
Arguments credits {Env}.
Arguments storages {Env}.
Arguments env {Env}.

(** The adapter's callbacks.  An installer returns a disposer ([nil] is [None]) and
    whether it failed; a deferred disposer gets a reference to [releaseStorage]. *)
Class Adapter := {
  Env : Type;
  Entropy : Env -> option bytes * Env;
  Emit : Binding -> bytes -> Outside Env -> bool * Outside Env;
  Install : Setup -> Outside Env -> option Ptr * bool * Outside Env;
  Dispose : Ptr -> option Ptr -> Outside Env -> Outside Env;
  (** [io.ReadFull] fills the block. *)
  Entropy_full : forall e v e', Entropy e = (Some v, e') -> length v = 16%nat }.

(** Field updates. *)
Definition with_sessions (m : gmap SessionID attempt) (p : Z) (e : Engine) : Engine := {|
  config := config e; psk := psk e; handshakeKey := handshakeKey e; sessions := m; dials := dials e;
  prepareds := prepareds e; preparations := preparations e; rejections := rejections e; pending := p;
  nextDial := nextDial e; lastNow := lastNow e; hasTime := hasTime e; busy := busy e;
  eng_closed := eng_closed e |}.
Definition with_dials (m : gmap Z dial) (e : Engine) : Engine := {|
  config := config e; psk := psk e; handshakeKey := handshakeKey e; sessions := sessions e; dials := m;
  prepareds := prepareds e; preparations := preparations e; rejections := rejections e;
  pending := pending e; nextDial := nextDial e; lastNow := lastNow e; hasTime := hasTime e;
  busy := busy e; eng_closed := eng_closed e |}.
Definition with_prepareds (m : gmap Ptr preparedDialState) (ps : gset Ptr) (e : Engine) : Engine := {|
  config := config e; psk := psk e; handshakeKey := handshakeKey e; sessions := sessions e;
  dials := dials e; prepareds := m; preparations := ps; rejections := rejections e;
  pending := pending e; nextDial := nextDial e; lastNow := lastNow e; hasTime := hasTime e;
  busy := busy e; eng_closed := eng_closed e |}.
Definition with_rejections (l : list (option rejected)) (e : Engine) : Engine := {|
  config := config e; psk := psk e; handshakeKey := handshakeKey e; sessions := sessions e;
  dials := dials e; prepareds := prepareds e; preparations := preparations e; rejections := l;
  pending := pending e; nextDial := nextDial e; lastNow := lastNow e; hasTime := hasTime e;
  busy := busy e; eng_closed := eng_closed e |}.
Definition with_nextDial (n : Z) (e : Engine) : Engine := {|
  config := config e; psk := psk e; handshakeKey := handshakeKey e; sessions := sessions e;
  dials := dials e; prepareds := prepareds e; preparations := preparations e;
  rejections := rejections e; pending := pending e; nextDial := n; lastNow := lastNow e;
  hasTime := hasTime e; busy := busy e; eng_closed := eng_closed e |}.
Definition with_clock (now : Z) (b : bool) (e : Engine) : Engine := {|
  config := config e; psk := psk e; handshakeKey := handshakeKey e; sessions := sessions e;
  dials := dials e; prepareds := prepareds e; preparations := preparations e;
  rejections := rejections e; pending := pending e; nextDial := nextDial e; lastNow := now;
  hasTime := true; busy := b; eng_closed := eng_closed e |}.
Definition leave (e : Engine) : Engine := {|
  config := config e; psk := psk e; handshakeKey := handshakeKey e; sessions := sessions e;
  dials := dials e; prepareds := prepareds e; preparations := preparations e;
  rejections := rejections e; pending := pending e; nextDial := nextDial e; lastNow := lastNow e;
  hasTime := hasTime e; busy := false; eng_closed := eng_closed e |}.
Definition mark_closed (e : Engine) : Engine := {|
  config := config e; psk := psk e; handshakeKey := handshakeKey e; sessions := sessions e;
  dials := dials e; prepareds := prepareds e; preparations := preparations e;
  rejections := rejections e; pending := pending e; nextDial := nextDial e; lastNow := lastNow e;
  hasTime := hasTime e; busy := busy e; eng_closed := true |}.
Definition wiped (e : Engine) : Engine := {|
  config := config e; psk := []; handshakeKey := zero32; sessions := sessions e;
  dials := dials e; prepareds := prepareds e; preparations := preparations e;
  rejections := replicate MaxRejections None; pending := pending e; nextDial := nextDial e;
  lastNow := lastNow e; hasTime := hasTime e; busy := busy e; eng_closed := eng_closed e |}.

Definition noKeys : DirectionalKeys :=
  {| Transcript.ClientToServer := zero32; Transcript.ServerToClient := zero32 |}.

Definition with_setup (s : Setup) (a : attempt) : attempt := {|
  setup := s; state := state a; policy := policy a; att_hello := att_hello a;
  transcript := transcript a; deadline := deadline a; nextSend := nextSend a; sends := sends a;
  att_packets := att_packets a; receiveLease := receiveLease a; packetLease := packetLease a;
  dispose := dispose a; disposeDeferred := disposeDeferred a; retirement := retirement a;
  closeSent := closeSent a; prepared := prepared a |}.
Definition with_state (p : phase) (a : attempt) : attempt := {|
  setup := setup a; state := p; policy := policy a; att_hello := att_hello a;
  transcript := transcript a; deadline := deadline a; nextSend := nextSend a; sends := sends a;
  att_packets := att_packets a; receiveLease := receiveLease a; packetLease := packetLease a;
  dispose := dispose a; disposeDeferred := disposeDeferred a; retirement := retirement a;
  closeSent := closeSent a; prepared := prepared a |}.
Definition with_proof (t : option Transcript) (ps : option packets) (a : attempt) : attempt := {|
  setup := setup a; state := state a; policy := policy a; att_hello := att_hello a;
  transcript := t; deadline := deadline a; nextSend := nextSend a; sends := sends a;
  att_packets := ps; receiveLease := receiveLease a; packetLease := packetLease a;
  dispose := dispose a; disposeDeferred := disposeDeferred a; retirement := retirement a;
  closeSent := closeSent a; prepared := prepared a |}.
Definition with_sends (n : Z) (t : option Z) (a : attempt) : attempt := {|
  setup := setup a; state := state a; policy := policy a; att_hello := att_hello a;
  transcript := transcript a; deadline := deadline a; nextSend := t; sends := n;
  att_packets := att_packets a; receiveLease := receiveLease a; packetLease := packetLease a;
  dispose := dispose a; disposeDeferred := disposeDeferred a; retirement := retirement a;
  closeSent := closeSent a; prepared := prepared a |}.
Definition with_disposers (d dd : option Ptr) (a : attempt) : attempt := {|
  setup := setup a; state := state a; policy := policy a; att_hello := att_hello a;
  transcript := transcript a; deadline := deadline a; nextSend := nextSend a; sends := sends a;
  att_packets := att_packets a; receiveLease := receiveLease a; packetLease := packetLease a;
  dispose := d; disposeDeferred := dd; retirement := retirement a;
  closeSent := closeSent a; prepared := prepared a |}.
Definition with_packetLease (l : option Ptr) (a : attempt) : attempt := {|
  setup := setup a; state := state a; policy := policy a; att_hello := att_hello a;
  transcript := transcript a; deadline := deadline a; nextSend := nextSend a; sends := sends a;
  att_packets := att_packets a; receiveLease := receiveLease a; packetLease := l;
  dispose := dispose a; disposeDeferred := disposeDeferred a; retirement := retirement a;
  closeSent := closeSent a; prepared := prepared a |}.
Definition with_closeSent (a : attempt) : attempt := {|
  setup := setup a; state := state a; policy := policy a; att_hello := att_hello a;
  transcript := transcript a; deadline := deadline a; nextSend := nextSend a; sends := sends a;
  att_packets := att_packets a; receiveLease := receiveLease a; packetLease := packetLease a;
  dispose := dispose a; disposeDeferred := disposeDeferred a; retirement := retirement a;
  closeSent := true; prepared := prepared a |}.
Definition unprepared (a : attempt) : attempt := {|
  setup := setup a; state := state a; policy := policy a; att_hello := att_hello a;
  transcript := transcript a; deadline := deadline a; nextSend := nextSend a; sends := sends a;
  att_packets := att_packets a; receiveLease := receiveLease a; packetLease := packetLease a;
  dispose := dispose a; disposeDeferred := disposeDeferred a; retirement := retirement a;
  closeSent := closeSent a; prepared := None |}.
Definition with_keys (c : option Negotiation.Contract) (k : DirectionalKeys) (s : Setup) : Setup := {|
  ID := ID s; setup_DialID := setup_DialID s; setup_Role := setup_Role s; PathID := PathID s;
  setup_Binding := setup_Binding s; setup_Contract := c; Keys := k; setup_Scope := setup_Scope s;
  Receive_claim := Receive_claim s; Initial := Initial s |}.

(** ** Policies *)

Fixpoint sumInitial (claims : list Credit.Claim) (total : Z) : result HandshakeError Z :=
  match claims with
  | [] => Ok total
  | c :: rest =>
      fail (Credit.Claim_Bytes c =? 0) || (u64 (Credit.MaxRetainedBytes - total) <? Credit.Claim_Bytes c)
           || Credit.BusinessStream c || Credit.PendingAccept c with ErrInvalid in
      sumInitial rest (u64 (total + Credit.Claim_Bytes c))
  end.

Definition validatePolicy (p : Policy) (listener : bool) : option HandshakeError :=
  let prof := pol_Profile p in
  match Negotiation.Validate prof with
  | Some e => Some (NegotiationErr e)
  | None =>
      let minimum :=
        if Negotiation.Protocol prof =? Negotiation.Datagram
        then 16 * ((Negotiation.DatagramWindow (Negotiation.DatagramL prof) + 63) / 64
                   + (Negotiation.GroupWindow (Negotiation.DatagramL prof) + 63) / 64)
        else Negotiation.SessionReceiveBytes (Negotiation.Streams prof) in
      if (MaxInitialReservations <? len (pol_Initial p))
         || negb (eqb (Credit.PendingAccept (pol_Receive p)) listener)
         || (Credit.MaxRetainedBytes <? Credit.Claim_Bytes (pol_Receive p)) then Some ErrInvalid else
      match sumInitial (pol_Initial p) (Credit.Claim_Bytes (pol_Receive p)) with
      | Err e => Some e
      | Ok total => if total <? minimum then Some ErrInvalid else None
      end
  end.

(** ** Encoding and transcripts *)

Definition encode (m : WireV2.Handshake) (k : Key) : result HandshakeError bytes :=
  match WireV2Handshake.AppendHandshake [] m k with
  | (_, Some e) => Err (WireErr e)
  | (encoded, None) =>
      fail negb (len encoded =? WireV2.HandshakePacketSize) with ErrInvalid in Ok encoded
  end.

Definition wire {A} (r : result WireV2.WireError A) : result HandshakeError A :=
  match r with Ok a => Ok a | Err e => Err (WireErr e) end.
Definition negotiation {A} (r : result Negotiation.NegotiationError A) : result HandshakeError A :=
  match r with Ok a => Ok a | Err e => Err (NegotiationErr e) end.

(** [authenticate] of engine.go is [WireV2.open]. *)
Definition authenticate (p : bytes) (k : Key) : result HandshakeError WireV2.AuthenticatedEnvelope :=
  let? envelope := wire (WireV2.ParseEnvelope p) in wire (WireV2.Authenticate envelope k).

Definition prepareTranscript (hsKey : Key) (secret : bytes) (ps : packets)
    : result HandshakeError (Transcript * DirectionalKeys * packets) :=
  let? h := authenticate (hello ps) hsKey in
  let? c := authenticate (challenge ps) hsKey in
  let? t := wire (Transcript.NewTranscript h c) in
  let? keys := wire (Transcript.DeriveDirectionalKeys secret t) in
  let? f := wire (Transcript.Confirmation t WireV2.TypeFinish) in
  let? r := wire (Transcript.Confirmation t WireV2.TypeReady) in
  let? f := encode f (Transcript.ClientToServer keys) in
  let? r := encode r (Transcript.ServerToClient keys) in
  Ok (t, keys, {| hello := hello ps; challenge := challenge ps; finish := f; ready := r |}).

(** [bytes.Compare] on identifiers of the same length. *)
Definition bytes_le (a b : bytes) : Prop := be_get a <= be_get b.
#[global] Instance bytes_le_dec : RelDecision bytes_le.
Proof. intros a b. unfold bytes_le. apply _. Defined.

(** ** The engine *)

Section engine.
Context `{Adapter}.

Abbreviation World := (Outside Env).

(** What a running method has: the engine, the world and the result so far. *)
Record St := { eng : Engine; out : World; res : Result }.

Definition on_eng (f : Engine -> Engine) (s : St) : St := {| eng := f (eng s); out := out s; res := res s |}.
Definition on_out (f : World -> World) (s : St) : St := {| eng := eng s; out := f (out s); res := res s |}.
Definition on_credits (f : Credit.heap -> Credit.heap) (s : St) : St :=
  on_out (fun o => {| credits := f (credits o); storages := storages o; env := env o |}) s.
Definition sent (a : SendAttempt) (s : St) : St := {| eng := eng s; out := out s;
  res := {| Sends := Sends (res s) ++ [a]; Established := Established (res s); Closed := Closed (res s);
            Failures := Failures (res s) |} |}.
Definition announce (x : Setup) (s : St) : St := {| eng := eng s; out := out s;
  res := {| Sends := Sends (res s); Established := Established (res s) ++ [x]; Closed := Closed (res s);
            Failures := Failures (res s) |} |}.
Definition report (c : list SessionID) (f : list Failure) (s : St) : St := {| eng := eng s; out := out s;
  res := {| Sends := Sends (res s); Established := Established (res s); Closed := Closed (res s) ++ c;
            Failures := Failures (res s) ++ f |} |}.

Definition put (id : SessionID) (a : attempt) (s : St) : St :=
  on_eng (fun e => with_sessions (<[id := a]> (sessions e)) (pending e) e) s.
Definition putDial (d : dial) (s : St) : St :=
  on_eng (fun e => with_dials (<[dial_id d := d]> (dials e)) e) s.
Definition dropDial (id : Z) (s : St) : St := on_eng (fun e => with_dials (delete id (dials e)) e) s.
Definition scopeState (o : option Ptr) (s : St) : Credit.SessionSnapshot :=
  Credit.Session_Snapshot o (credits (out s)).

Definition New (secret : bytes) (c : Config) (h : Credit.heap) : result HandshakeError Engine :=
  fail bool_decide (Credits c = None) || Credit.peer_Closed (Credit.Peer_Snapshot (Credits c) h)
       || negb (hasEntropy c) || negb (hasEmit c) || eqb (hasInstall c) (hasInstallDeferred c) with ErrInvalid in
  let? k := wire (Transcript.DeriveHandshakeKey secret) in
  check match Listener c with None => None | Some p => validatePolicy p true end in
  Ok {| config := c; psk := secret; handshakeKey := k; sessions := ∅; dials := ∅; prepareds := ∅;
        preparations := ∅; rejections := replicate MaxRejections None; pending := 0; nextDial := 0;
        lastNow := 0; hasTime := false; busy := false; eng_closed := false |}.

Definition enter (now : Z) (allowClosed : bool) (e : Engine) : option HandshakeError * Engine :=
  if busy e then (Some ErrReentrant, e) else
  if eng_closed e && negb allowClosed then (Some ErrClosed, e) else
  if hasTime e && (now <? lastNow e) then (Some ErrTime, e) else
  (None, with_clock now true e).

(** Every exported method: [enter], the body, and the deferred [leave]. *)
Definition method {A} (now : Z) (allowClosed : bool) (zero : HandshakeError -> A)
    (body : St -> A * St) (e : Engine) (o : World) : A * Result * Engine * World :=
  match enter now allowClosed e with
  | (Some err, e) => (zero err, noResult, e, o)
  | (None, e) =>
      let '(a, s) := body {| eng := e; out := o; res := noResult |} in
      (a, res s, leave (eng s), out s)
  end.

(** ** Entropy *)

Fixpoint randomLoop (n : nat) (o : World) : result HandshakeError Nonce * World :=
  match n with
  | O => (Err ErrEntropy, o)
  | S n =>
      let '(v, e) := Entropy (env o) in
      let o := {| credits := credits o; storages := storages o; env := e |} in
      match v with
      | None => (Err ErrEntropy, o)
      | Some value => if decide (value = zero16) then randomLoop n o else (Ok value, o)
      end
  end.
Definition randomBlock (s : St) : result HandshakeError Nonce * St :=
  let '(r, o) := randomLoop 4 (out s) in (r, on_out (fun _ => o) s).

Fixpoint newIDLoop (n : nat) (s : St) : result HandshakeError SessionID * St :=
  match n with
  | O => (Err ErrEntropy, s)
  | S n =>
      match randomBlock s with
      | (Err e, s) => (Err e, s)
      | (Ok value, s) => if decide (sessions (eng s) !! value = None) then (Ok value, s) else newIDLoop n s
      end
  end.
Definition newID (s : St) : result HandshakeError SessionID * St := newIDLoop 4 s.

(** ** Admission *)

Definition releaseAll (ls : list Ptr) (h : Credit.heap) : Credit.heap :=
  foldl (fun h l => Credit.Release (Some l) h) h ls.

Record reserved := {
  rsv_scope : Ptr; rsv_receive : option Ptr; rsv_packet : Ptr; rsv_initial : list Ptr;
  rsv_retirement : option Ptr }.

Fixpoint reserveInitial (scope : Ptr) (claims : list Credit.Claim) (initial : list Ptr) (h : Credit.heap)
    : option HandshakeError * list Ptr * Credit.heap :=
  match claims with
  | [] => (None, initial, h)
  | c :: rest =>
      match Credit.Reserve (Some scope) c h with
      | (Err e, h) => (Some (CreditErr e), initial, h)
      | (Ok l, h) => reserveInitial scope rest (initial ++ [l]) h
      end
  end.

Definition rollback (scope : Ptr) (initial : list Ptr) (receive : option Ptr) (h : Credit.heap)
    : Credit.heap :=
  Credit.Release receive (releaseAll initial (Credit.Session_Close (Some scope) h)).

(** The reservations on the ledger; the retirement's metadata lease comes last. *)
Definition reserveCredits (c : Config) (p : Policy) (h : Credit.heap)
    : result HandshakeError (Ptr * option Ptr * list Ptr * Ptr * option Ptr) * Credit.heap :=
  match Credit.BeginHandshake (Credits c) (pol_Receive p) h with
  | (Err e, h) => (Err (CreditErr e), h)
  | (Ok (scope, receive), h) =>
      match reserveInitial scope (pol_Initial p) [] h with
      | (Some e, initial, h) => (Err e, rollback scope initial receive h)
      | (None, initial, h) =>
          match Credit.Reserve (Some scope) {| Credit.Claim_Bytes := PacketReservationBytes;
                  Credit.BusinessStream := false; Credit.PendingAccept := false |} h with
          | (Err e, h) => (Err (CreditErr e), rollback scope initial receive h)
          | (Ok packet, h) =>
              if hasInstallDeferred c then
                match Credit.Reserve (Some scope) {| Credit.Claim_Bytes := DeferredDisposalBytes;
                        Credit.BusinessStream := false; Credit.PendingAccept := false |} h with
                | (Err e, h) =>
                    (Err (CreditErr e), rollback scope initial receive (Credit.Release (Some packet) h))
                | (Ok l, h) => (Ok (scope, receive, initial, packet, Some l), h)
                end
              else (Ok (scope, receive, initial, packet, None), h)
          end
      end
  end.

Definition reserve (p : Policy) (s : St) : result HandshakeError reserved * St :=
  if MaxPending <=? pending (eng s) + Z.of_nat (size (preparations (eng s)))
  then (Err (CreditErr Credit.ErrResourceLimit), s) else
  match reserveCredits (config (eng s)) p (credits (out s)) with
  | (Err e, h) => (Err e, on_credits (fun _ => h) s)
  | (Ok (scope, receive, initial, packet, metadata), h) =>
      let r st := {| rsv_scope := scope; rsv_receive := receive; rsv_packet := packet;
                     rsv_initial := initial; rsv_retirement := st |} in
      match metadata with
      | None => (Ok (r None), on_credits (fun _ => h) s)
      | Some l =>
          let st := fresh (dom (storages (out s))) in
          (Ok (r (Some st)),
           on_out (fun o => {| credits := h; env := env o;
             storages := <[st := {| once := false; sto_initial := initial; sto_receive := receive;
                                    sto_metadata := Some l; preparedMetadata := None |}]> (storages o) |}) s)
      end
  end.

Definition orderedIDs (e : Engine) : list SessionID :=
  merge_sort bytes_le (elements (dom (sessions e))).

(** ** Sending *)

Definition emit (b : Binding) (p : bytes) (s : St) : bool * St :=
  let '(err, o) := Emit b p (out s) in (err, on_out (fun _ => o) s).

Definition send (id : SessionID) (kind : Z) (packet : bytes) (now : Z) (transition : bool) (s : St) : St :=
  match sessions (eng s) !! id with
  | None => s
  | Some a =>
      if (MaxSends <=? sends a)
         || (negb transition && match nextSend a with Some t => now <? t | None => false end) then s else
      if ((kind =? WireV2.TypeHello) || (kind =? WireV2.TypeChallenge)) && (MaxSends - 1 <=? sends a)
      then s else
      let s := put id (with_sends (sends a + 1) (Some (now + RetryInterval)) a) s in
      let '(err, s) := emit (setup_Binding (setup a)) packet s in
      sent {| send_ID := ID (setup a); send_Type := kind; send_PathID := PathID (setup a);
              send_Err := err |} s
  end.

Definition packetOf (a : attempt) (f : packets -> bytes) : bytes := f (default newPackets (att_packets a)).

(** Whether [digest] is already answered, and the first free slot. *)
Fixpoint rejectScan (now : Z) (id : SessionID) (digest : Digest) (l : list (option rejected)) (i : nat)
    (slot : option nat) : option (option nat) :=
  match l with
  | [] => Some slot
  | entry :: rest =>
      match entry with
      | Some r =>
          if bool_decide (rej_id r = zero16) || negb (now <? rej_deadline r)
          then rejectScan now id digest rest (S i) (match slot with None => Some i | _ => slot end)
          else if bool_decide (rej_id r = id) && bool_decide (rej_digest r = digest) then None
          else rejectScan now id digest rest (S i) slot
      | None => rejectScan now id digest rest (S i) (match slot with None => Some i | _ => slot end)
      end
  end.

Definition rejectMessage (id : SessionID) (digest nonce : bytes) (code : Z) : WireV2.Handshake := {|
  WireV2.Handshake_Header := {| WireV2.Header_Type := WireV2.TypeReject; WireV2.Header_SessionID := id |};
  WireV2.ClientNonce := nonce; WireV2.ServerNonce := zero16; WireV2.TranscriptDigest := digest;
  WireV2.ReturnPathToken := zero16;
  WireV2.TLVs := [{| WireV2.TLV_Type := WireV2.TLVError;
                     WireV2.TLV_Value := be_put 2 code ++ [Byte.x00; Byte.x00] |}] |}.

Definition reject (now : Z) (b : Binding) (packet : bytes) (code : Z) (s : St) : St :=
  if negb (len packet =? WireV2.HandshakePacketSize) then s else
  let id := slice 8 24 packet in
  let digest := sha256 (take 480 packet) in
  match rejectScan now id digest (rejections (eng s)) 0 None with
  | None => s
  | Some None => s
  | Some (Some slot) =>
      match encode (rejectMessage id digest (slice 24 40 packet) code) (handshakeKey (eng s)) with
      | Err _ => s
      | Ok response =>
          let s := on_eng (fun e => with_rejections
            (<[slot := Some {| rej_id := id; rej_digest := digest; rej_deadline := now + Lifetime |}]>
               (rejections e)) e) s in
          let '(err, s) := emit b response s in
          sent {| send_ID := id; send_Type := WireV2.TypeReject; send_PathID := 0; send_Err := err |} s
      end
  end.

(** ** Disposal *)

(** [retiredStorage.release], once. *)
Definition releaseStorage (p : Ptr) (o : World) : World :=
  match storages o !! p with
  | None => o
  | Some st =>
      if once st then o else
      {| credits := Credit.Release (sto_metadata st) (Credit.Release (preparedMetadata st)
           (Credit.Release (sto_receive st) (releaseAll (sto_initial st) (credits o))));
         storages := <[p := {| once := true; sto_initial := []; sto_receive := None;
                               sto_metadata := None; preparedMetadata := None |}]> (storages o);
         env := env o |}
  end.

(** The attempt's part of [releasePackets]; the lease is released by the caller. *)
Definition withoutPackets (a : attempt) : attempt := with_packetLease None (with_proof None None a).
Definition releasePackets (id : SessionID) (s : St) : St :=
  match sessions (eng s) !! id with
  | None => s
  | Some a => on_credits (Credit.Release (packetLease a)) (put id (withoutPackets a) s)
  end.

Definition clearedStorage (p : preparedDialState) : preparedDialState := {|
  prep_phase := prep_phase p; prep_policy := None; prep_scope := None; prep_receive := None;
  prep_packet := None; prep_initial := []; prep_storage := None; disposePending := None |}.
Definition clearStorage (p : Ptr) (s : St) : St :=
  on_eng (fun e => with_prepareds (alter clearedStorage p (prepareds e)) (preparations e) e) s.

(** [preparedDialState.retire] *)
Definition retire (p : Ptr) (disposer : option Ptr) (s : St) : St :=
  match prepareds (eng s) !! p with
  | None => s
  | Some st =>
      match prep_storage st with
      | None => s
      | Some storage =>
          let s := on_credits (fun h => Credit.Release (prep_packet st)
                     (Credit.Session_Close (prep_scope st) h)) s in
          let s := clearStorage p s in
          match (match disposer with Some d => Some d | None => disposePending st end) with
          | Some d => on_out (Dispose d (Some storage)) s
          | None => s
          end
      end
  end.

Definition disposeAttempt (a : attempt) (s : St) : St :=
  match prepared a with
  | Some p => retire p (disposeDeferred a) (dropDial (setup_DialID (setup a)) s)
  | None =>
      let s := on_credits (Credit.Session_Close (setup_Scope (setup a))) s in
      let s := match dispose a with Some d => on_out (Dispose d None) s | None => s end in
      let s := on_credits (Credit.Release (packetLease a)) s in
      match retirement a with
      | Some storage =>
          match disposeDeferred a with
          | Some d => on_out (Dispose d (Some storage)) s
          | None => on_out (releaseStorage storage) s
          end
      | None => on_credits (fun h => Credit.Release (receiveLease a)
                              (releaseAll (Initial (setup a)) h)) s
      end
  end.

(** ** Failure *)

Definition sendClose (id : SessionID) (cause : HandshakeError) (s : St) : St :=
  match sessions (eng s) !! id with
  | None => s
  | Some a =>
      if closeSent a then s else
      let keys := Keys (setup a) in
      let key := match setup_Role (setup a) with
                 | Negotiation.Responder => Transcript.ServerToClient keys
                 | _ => Transcript.ClientToServer keys end in
      if decide (key = zero32) then s else
      let s := put id (with_closeSent a) s in
      let reason := if decide (cause = ErrExpired) then 5 else 6 in
      let body := be_put 2 reason ++ be_put 2 0 ++ be_put 4 1 in
      let '(err, s) :=
        match WireV2Bundle.AppendEstablished []
                {| WireV2.Header_Type := WireV2.TypeClose; WireV2.Header_SessionID := ID (setup a) |}
                {| WireV2Bundle.PathID := PathID (setup a); WireV2Bundle.Generation := 1;
                   WireV2Bundle.BudgetEpoch := 1 |} body key with
        | (_, Some _) => (true, s)
        | (packet, None) => emit (setup_Binding (setup a)) packet s
        end in
      sent {| send_ID := ID (setup a); send_Type := WireV2.TypeClose; send_PathID := PathID (setup a);
              send_Err := err |} s
  end.

(** Whether a failed attempt of a prepared dial leaves its reservations to the next. *)
Definition recyclable (a : attempt) (now : Z) (s : St) : bool :=
  match prepared a with
  | None => false
  | Some _ =>
      if eng_closed (eng s) then false else
      let scope := scopeState (setup_Scope (setup a)) s in
      match dials (eng s) !! setup_DialID (setup a) with
      | None => false
      | Some d =>
          negb ((length (Carriers (request d)) <=? next d)%nat || Credit.session_Closed scope
                || negb (Credit.PendingHandshake scope)
                || match Deadline (request d) with Some t => negb (now <? t) | None => false end)
      end
  end.

Definition stopRunning (id : Z) (s : St) : St :=
  match dials (eng s) !! id with
  | None => s
  | Some d => putDial {| dial_id := dial_id d; request := request d; next := next d;
                         running := running d - 1; dial_prepared := dial_prepared d |} s
  end.

Definition failAttempt (id : SessionID) (cause : HandshakeError) (now : Z) (notify : bool) (s : St) : St :=
  match sessions (eng s) !! id with
  | None => s
  | Some _ =>
      let s := if notify then sendClose id cause s else s in
      match sessions (eng s) !! id with
      | None => s
      | Some a =>
          let s := on_eng (fun e => with_sessions (delete id (sessions e)) (pending e) e) s in
          let s :=
            if decide (state a = established) then report [id] [] s
            else
              let s := on_eng (fun e => with_sessions (sessions e) (pending e - 1) e) s in
              let s := stopRunning (setup_DialID (setup a)) s in
              report [] [{| fail_ID := id; fail_DialID := setup_DialID (setup a); fail_Err := cause |}] s in
          if recyclable a now s then s else disposeAttempt a s
      end
  end.

(** ** Installation *)

Definition setupOf (id : SessionID) (s : St) : option Setup := setup <$> sessions (eng s) !! id.

(** [installSynchronous], and the deferred branch of [install]. *)
Definition runInstaller (id : SessionID) (a : attempt) (s : St) : option HandshakeError * St :=
  let '(disposer, failed, o) := Install (setup a) (out s) in
  let s := on_out (fun _ => o) s in
  let gone := Credit.session_Closed (scopeState (setup_Scope (setup a)) s) in
  if hasInstallDeferred (config (eng s)) then
    let s := put id (with_disposers (dispose a) disposer a) s in
    if failed || bool_decide (disposer = None) || gone then (Some ErrInstallation, s) else (None, s)
  else
    let disposed d s := on_out (Dispose d None) s in
    match disposer with
    | None => (Some ErrInstallation, s)
    | Some d =>
        if failed || gone then (Some ErrInstallation, disposed d s)
        else (None, put id (with_disposers (Some d) (disposeDeferred a) a) s)
    end.

Definition install (id : SessionID) (s : St) : option HandshakeError * St :=
  match sessions (eng s) !! id with
  | None => (Some ErrInvalid, s)
  | Some a =>
      match Credit.Promote (setup_Scope (setup a)) (credits (out s)) with
      | (Some e, h) => (Some (CreditErr e), on_credits (fun _ => h) s)
      | (None, h) =>
          let s := on_credits (fun _ => h) s in
          match runInstaller id a s with
          | (Some e, s) => (Some e, s)
          | (None, s) =>
              let s := match prepared a with Some p => clearStorage p s | None => s end in
              let s := on_eng (fun e => with_sessions
                (alter (fun a => with_state established (unprepared a)) id (sessions e)) (pending e - 1) e) s in
              (None, announce (setup a) s)
          end
      end
  end.

(** ** Dialling *)

Definition attemptOf (st : phase) (su : Setup) (p : Policy) (h : Negotiation.Advertisement) (dl : Z)
    (ps : packets) (receive packet retire_ : option Ptr) (prep : option Ptr) : attempt := {|
  setup := su; state := st; policy := p; att_hello := h; transcript := None; deadline := dl;
  nextSend := None; sends := 0; att_packets := Some ps; receiveLease := receive; packetLease := packet;
  dispose := None; disposeDeferred := None; retirement := retire_; closeSent := false;
  prepared := prep |}.

(** The reservations of a new attempt: the prepared ones, or fresh ones. *)
Definition admission (d : dial) (s : St)
    : result HandshakeError (option Ptr * list Ptr * option Ptr * option Ptr * option Ptr) * St :=
  match dial_prepared d with
  | Some p =>
      match prepareds (eng s) !! p with
      | Some st =>
          if bool_decide (prep_scope st = None)
             || Credit.session_Closed (scopeState (prep_scope st) s) then (Err ErrClosed, s) else
          (Ok (prep_scope st, prep_initial st, prep_receive st, prep_packet st, prep_storage st), s)
      | None => (Err ErrClosed, s)
      end
  | None =>
      match reserve (req_Policy (request d)) s with
      | (Err e, s) => (Err e, s)
      | (Ok r, s) => (Ok (Some (rsv_scope r), rsv_initial r, rsv_receive r, Some (rsv_packet r),
                          rsv_retirement r), s)
      end
  end.

Definition startRunning (id : Z) (s : St) : St :=
  match dials (eng s) !! id with
  | None => s
  | Some d => putDial {| dial_id := dial_id d; request := request d; next := next d;
                         running := running d + 1; dial_prepared := dial_prepared d |} s
  end.

Definition helloMessage (id nonce : bytes) (tlvs : list WireV2.TLV) : WireV2.Handshake := {|
  WireV2.Handshake_Header := {| WireV2.Header_Type := WireV2.TypeHello; WireV2.Header_SessionID := id |};
  WireV2.ClientNonce := nonce; WireV2.ServerNonce := zero16; WireV2.TranscriptDigest := zero32;
  WireV2.ReturnPathToken := zero16; WireV2.TLVs := tlvs |}.

Definition startAttempt (now : Z) (d : dial) (c : Carrier) (s : St) : option HandshakeError * St :=
  match newID s with
  | (Err e, s) => (Some e, s)
  | (Ok id, s) =>
  match randomBlock s with
  | (Err e, s) => (Some e, s)
  | (Ok nonce, s) =>
      let p := req_Policy (request d) in
      let adv := {| Negotiation.Adv_Profile := pol_Profile p; Negotiation.BootstrapPathID := car_PathID c |} in
      match negotiation (Negotiation.contractTLVs adv) with
      | Err e => (Some e, s)
      | Ok tlvs =>
          match admission d s with
          | (Err e, s) => (Some e, s)
          | (Ok (scope, initial, receive, packet, storage), s) =>
              let dl := match Deadline (request d) with
                        | Some t => if t <? now + Lifetime then t else now + Lifetime
                        | None => now + Lifetime end in
              let su := {| ID := id; setup_DialID := dial_id d; setup_Role := Negotiation.Initiator;
                           PathID := car_PathID c; setup_Binding := car_Binding c; setup_Contract := None;
                           Keys := noKeys; setup_Scope := scope; Receive_claim := pol_Receive p;
                           Initial := initial |} in
              let a ps := attemptOf waitChallenge su p adv dl ps receive packet storage (dial_prepared d) in
              match encode (helloMessage id nonce tlvs) (handshakeKey (eng s)) with
              | Err e => (Some e, disposeAttempt (a newPackets) s)
              | Ok encoded =>
                  let s := on_eng (fun e => with_sessions (<[id := a {| hello := encoded; challenge := blank;
                             finish := blank; ready := blank |}]> (sessions e)) (pending e + 1) e) s in
                  let s := startRunning (dial_id d) s in
                  (None, send id WireV2.TypeHello encoded now true s)
              end
          end
      end
  end
  end.

Definition advanceDial (id : Z) (s : St) : St :=
  match dials (eng s) !! id with
  | None => s
  | Some d => putDial {| dial_id := dial_id d; request := request d; next := S (next d);
                         running := running d; dial_prepared := dial_prepared d |} s
  end.

(** The filling loop; [fuel] is the number of Carriers left. *)
Fixpoint fillLoop (fuel : nat) (now : Z) (id : Z) (s : St) : option HandshakeError * St :=
  match fuel with
  | O => (None, s)
  | S fuel =>
      match dials (eng s) !! id with
      | None => (None, s)
      | Some d =>
          match Carriers (request d) !! next d with
          | None => (None, s)
          | Some c =>
              if Concurrent (request d) <=? running d then (None, s) else
              match startAttempt now d c s with
              | (Some e, s) => (Some e, s)
              | (None, s) => fillLoop fuel now id (advanceDial id s)
              end
          end
      end
  end.

Definition fillDial (now : Z) (id : Z) (s : St) : option HandshakeError * St :=
  match dials (eng s) !! id with
  | None => (None, s)
  | Some d =>
      if match Deadline (request d) with Some t => negb (now <? t) | None => false end
      then (Some ErrExpired, s)
      else fillLoop (length (Carriers (request d)) - next d) now id s
  end.

(** Attempts of the dial under way; a prepared dial that failed to start is gone. *)
Definition runningOf (id : Z) (s : St) : Z :=
  match dials (eng s) !! id with Some d => running d | None => 0 end.

Definition fillOne (now : Z) (s : St) (id : Z) : St :=
  match dials (eng s) !! id with
  | None => s
  | Some d =>
      let '(err, s) := fillDial now id s in
      if runningOf id s =? 0 then
        let s := dropDial id s in
        let s := match dial_prepared d with Some p => retire p None s | None => s end in
        match err with
        | Some e => report [] [{| fail_ID := zero16; fail_DialID := id; fail_Err := e |}] s
        | None => s
        end
      else s
  end.

Definition fillDials (now : Z) (s : St) : St :=
  foldl (fillOne now) s (merge_sort Z.le (elements (dom (dials (eng s))))).

Definition nextDialID (s : St) : result HandshakeError Z * St :=
  if nextDial (eng s) =? maxUint64 then (Err ErrExhausted, s)
  else (Ok (nextDial (eng s) + 1), on_eng (fun e => with_nextDial (nextDial e + 1) e) s).

Fixpoint validCarriers (cs : list Carrier) (i : Z) : bool :=
  match cs with
  | [] => true
  | c :: rest => (car_PathID c =? u16 (i + 1)) && validBinding (car_Binding c) && validCarriers rest (i + 1)
  end.

Definition checkCarriers (p : Policy) (cs : list Carrier) : bool :=
  (1 <=? len cs) && (len cs <=? MaxPending) && (len cs =? Negotiation.MaxPaths (pol_Profile p)).

Definition past (d : option Z) (now : Z) : bool :=
  match d with Some t => negb (now <? t) | None => false end.

(** A dial in the table is started; it is dropped when no attempt is under way. *)
Definition launch (now : Z) (d : dial) (s : St) : result HandshakeError Z * St :=
  let id := dial_id d in
  let '(err, s) := fillDial now id (putDial d s) in
  if runningOf id s =? 0 then
    let s := dropDial id s in
    let s := match dial_prepared d with Some p => retire p None s | None => s end in
    (Err (default ErrInvalid err), s)
  else (Ok id, s).

Definition BeginDial (now : Z) (r : DialRequest) : Engine -> World
    -> result HandshakeError Z * Result * Engine * World :=
  method now false Err (fun s =>
    match validatePolicy (req_Policy r) false with
    | Some e => (Err e, s)
    | None =>
        if negb (checkCarriers (req_Policy r) (Carriers r)) then (Err ErrInvalid, s) else
        let concurrent := if Concurrent r =? 0 then 1 else Concurrent r in
        if (concurrent <? 1) || (len (Carriers r) <? concurrent) then (Err ErrInvalid, s) else
        if past (Deadline r) now then (Err ErrExpired, s) else
        if negb (validCarriers (Carriers r) 0) then (Err ErrInvalid, s) else
        if MaxPending <=? Z.of_nat (size (dials (eng s)))
        then (Err (CreditErr Credit.ErrResourceLimit), s) else
        match nextDialID s with
        | (Err e, s) => (Err e, s)
        | (Ok id, s) =>
            launch now {| dial_id := id;
              request := {| req_Policy := req_Policy r; Carriers := Carriers r; Concurrent := concurrent;
                            Deadline := Deadline r |};
              next := 0; running := 0; dial_prepared := None |} s
        end
    end).

(** ** Prepared dials *)

Definition PrepareDial (now : Z) (p : Policy) (pendingDisposer : option Ptr) : Engine -> World
    -> result HandshakeError Ptr * Result * Engine * World :=
  method now false Err (fun s =>
    if bool_decide (pendingDisposer = None) || negb (hasInstallDeferred (config (eng s)))
    then (Err ErrInvalid, s) else
    match validatePolicy p false with
    | Some e => (Err e, s)
    | None =>
        match reserve p s with
        | (Err e, s) => (Err e, s)
        | (Ok r, s) =>
            match Credit.Reserve (Some (rsv_scope r)) {| Credit.Claim_Bytes := PreparedDialBytes;
                    Credit.BusinessStream := false; Credit.PendingAccept := false |} (credits (out s)) with
            | (Err e, h) =>
                let s := on_credits (fun _ => Credit.Release (Some (rsv_packet r))
                           (Credit.Session_Close (Some (rsv_scope r)) h)) s in
                (Err (CreditErr e),
                 match rsv_retirement r with Some st => on_out (releaseStorage st) s | None => s end)
            | (Ok l, h) =>
                let s := on_credits (fun _ => h) s in
                let s := match rsv_retirement r with
                         | Some st => on_out (fun o => {| credits := credits o; env := env o;
                             storages := alter (fun x => {| once := once x; sto_initial := sto_initial x;
                               sto_receive := sto_receive x; sto_metadata := sto_metadata x;
                               preparedMetadata := Some l |}) st (storages o) |}) s
                         | None => s end in
                let q := fresh (dom (prepareds (eng s))) in
                (Ok q, on_eng (fun e => with_prepareds (<[q := {| prep_phase := preparationWaiting;
                         prep_policy := Some p; prep_scope := Some (rsv_scope r);
                         prep_receive := rsv_receive r; prep_packet := Some (rsv_packet r);
                         prep_initial := rsv_initial r; prep_storage := rsv_retirement r;
                         disposePending := pendingDisposer |}]> (prepareds e))
                         ({[q]} ∪ preparations e) e) s)
            end
        end
    end).

(** [waitingPreparation]; a handle of another engine is not in the table. *)
Definition waitingPreparation (h : option Ptr) (e : Engine) : result HandshakeError (Ptr * preparedDialState) :=
  match h with
  | None => Err ErrInvalid
  | Some p =>
      match prepareds e !! p with
      | None => Err ErrInvalid
      | Some st =>
          fail negb (bool_decide (prep_phase st = preparationWaiting)) with ErrInvalid in
          fail negb (bool_decide (p ∈ preparations e)) with ErrInvalid in
          Ok (p, st)
      end
  end.

Definition with_phase (ph : preparationPhase) (pol : option Policy) (p : preparedDialState)
    : preparedDialState := {|
  prep_phase := ph; prep_policy := pol; prep_scope := prep_scope p; prep_receive := prep_receive p;
  prep_packet := prep_packet p; prep_initial := prep_initial p; prep_storage := prep_storage p;
  disposePending := disposePending p |}.

Definition takePreparation (p : Ptr) (st : preparedDialState) (s : St) : St :=
  on_eng (fun e => with_prepareds (<[p := st]> (prepareds e)) (preparations e ∖ {[p]}) e) s.

Definition BeginPreparedDial (now : Z) (h : option Ptr) (cs : list Carrier) (dl : option Z) : Engine -> World
    -> result HandshakeError Z * Result * Engine * World :=
  method now false Err (fun s =>
    match waitingPreparation h (eng s) with
    | Err e => (Err e, s)
    | Ok (p, st) =>
        match prep_policy st with
        | None => (Err ErrInvalid, s)
        | Some pol =>
            if negb (checkCarriers pol cs) then (Err ErrInvalid, s) else
            if past dl now then (Err ErrExpired, s) else
            if negb (validCarriers cs 0) then (Err ErrInvalid, s) else
            if Credit.session_Closed (scopeState (prep_scope st) s) then (Err ErrClosed, s) else
            if MaxPending <=? Z.of_nat (size (dials (eng s)))
            then (Err (CreditErr Credit.ErrResourceLimit), s) else
            let s := takePreparation p (with_phase preparationAdopted (Some pol) st) s in
            match nextDialID s with
            | (Err e, s) => (Err e, retire p None s)
            | (Ok id, s) =>
                let s := takePreparation p (with_phase preparationAdopted None st) s in
                launch now {| dial_id := id;
                  request := {| req_Policy := pol; Carriers := cs; Concurrent := 1; Deadline := dl |};
                  next := 0; running := 0; dial_prepared := Some p |} s
            end
        end
    end).

Definition AbortPreparedDial (now : Z) (h : option Ptr) : Engine -> World
    -> option HandshakeError * Result * Engine * World :=
  method now true Some (fun s =>
    match h with
    | None => (Some ErrInvalid, s)
    | Some p =>
        match prepareds (eng s) !! p with
        | None => (Some ErrInvalid, s)
        | Some st =>
            if decide (prep_phase st = preparationAborted) then (None, s) else
            if negb (bool_decide (prep_phase st = preparationWaiting)) then (Some ErrInvalid, s) else
            if negb (bool_decide (p ∈ preparations (eng s))) then (Some ErrInvalid, s) else
            (None, retire p None (takePreparation p (with_phase preparationAborted (prep_policy st) st) s))
        end
    end).

(** ** Receiving *)

(** An in-order error: [Some e] is an error of [negotiationv2] or [wirev2]. *)
Definition rejectCode (e : HandshakeError) : Z :=
  match e with
  | NegotiationErr Negotiation.ErrUnsupportedCapability => 1
  | NegotiationErr Negotiation.ErrIncompatible => 2
  | _ => 3
  end.

(** The challenge of a listener attempt, or the step that failed. *)
Definition makeChallenge (m : WireV2.Handshake) (env_ : WireV2.AuthenticatedEnvelope)
    (selected : Negotiation.Advertisement) (s : St) : result HandshakeError WireV2.Handshake * St :=
  match randomBlock s with
  | (Err e, s) => (Err e, s)
  | (Ok nonce, s) =>
      match randomBlock s with
      | (Err e, s) => (Err e, s)
      | (Ok token, s) =>
          (let? d := wire (Transcript.HandshakeDigest env_) in
           let? tlvs := negotiation (Negotiation.contractTLVs selected) in
           Ok {| WireV2.Handshake_Header := {| WireV2.Header_Type := WireV2.TypeChallenge;
                   WireV2.Header_SessionID := WireV2.Header_SessionID (WireV2.Handshake_Header m) |};
                 WireV2.ClientNonce := WireV2.ClientNonce m; WireV2.ServerNonce := nonce;
                 WireV2.TranscriptDigest := d; WireV2.ReturnPathToken := token; WireV2.TLVs := tlvs |}, s)
      end
  end.

(** A new attempt for a decoded HELLO. *)
Definition acceptHello (now : Z) (b : Binding) (packet : bytes) (env_ : WireV2.AuthenticatedEnvelope)
    (lp : Policy) (s : St) : option HandshakeError * St :=
  match wire (WireV2Handshake.DecodeHandshake env_) with
  | Err e => (Some e, reject now b packet (if decide (e = WireErr WireV2.ErrRequiredTLV) then 1 else 3) s)
  | Ok m =>
  match negotiation (Negotiation.DecodeHello m) with
  | Err e => (Some e, reject now b packet (rejectCode e) s)
  | Ok adv =>
  match negotiation (Negotiation.Select adv (pol_Profile lp)) with
  | Err e => (Some e, reject now b packet (rejectCode e) s)
  | Ok (selected, contract) =>
  match reserve lp s with
  | (Err e, s) => (Some e, reject now b packet 4 s)
  | (Ok r, s) =>
      let id := WireV2.Header_SessionID (WireV2.Handshake_Header m) in
      let su := {| ID := id; setup_DialID := 0; setup_Role := Negotiation.Responder;
                   PathID := Negotiation.Contract_BootstrapPathID contract; setup_Binding := b;
                   setup_Contract := Some contract; Keys := noKeys; setup_Scope := Some (rsv_scope r);
                   Receive_claim := pol_Receive lp; Initial := rsv_initial r |} in
      let a ps := attemptOf waitFinish su lp adv (now + Lifetime) ps (rsv_receive r)
                    (Some (rsv_packet r)) (rsv_retirement r) None in
      match makeChallenge m env_ selected s with
      | (Err e, s) => (Some e, disposeAttempt (a newPackets) s)
      | (Ok c, s) =>
          match (let? encoded := encode c (handshakeKey (eng s)) in
                 prepareTranscript (handshakeKey (eng s)) (psk (eng s))
                   {| hello := packet; challenge := encoded; finish := blank; ready := blank |}) with
          | Err e => (Some e, disposeAttempt (a newPackets) s)
          | Ok (t, keys, ps) =>
              let a := with_setup (with_keys (Some contract) keys su) (with_proof (Some t) (Some ps) (a ps)) in
              let s := on_eng (fun e => with_sessions (<[id := a]> (sessions e)) (pending e + 1) e) s in
              (None, send id WireV2.TypeChallenge (challenge ps) now true s)
          end
      end
  end
  end
  end
  end.

Definition receiveHello (now : Z) (b : Binding) (packet : bytes) (env_ : WireV2.AuthenticatedEnvelope)
    (id : SessionID) (lp : Policy) (s : St) : option HandshakeError * St :=
  if negb (len packet =? WireV2.HandshakePacketSize) then (Some (WireErr WireV2.ErrMalformed), s) else
  match sessions (eng s) !! id with
  | None => acceptHello now b packet env_ lp s
  | Some a =>
      if bool_decide (state a = established)
         || match setup_Role (setup a) with Negotiation.Responder => false | _ => true end
         || negb (bool_decide (setup_Binding (setup a) = b)) then (None, s) else
      if now <? deadline a then
        if decide (packet = packetOf a hello)
        then (None, send id WireV2.TypeChallenge (packetOf a challenge) now false s)
        else (None, reject now b packet 2 s)
      else acceptHello now b packet env_ lp (failAttempt id ErrExpired now true s)
  end.

Definition receiveChallenge (now : Z) (id : SessionID) (packet : bytes)
    (env_ : WireV2.AuthenticatedEnvelope) (s : St) : option HandshakeError * St :=
  match sessions (eng s) !! id with
  | None => (None, s)
  | Some a =>
      match state a with
      | waitReady =>
          (None, if decide (packet = packetOf a challenge)
                 then send id WireV2.TypeFinish (packetOf a finish) now false s else s)
      | waitChallenge =>
          match (let? m := wire (WireV2Handshake.DecodeHandshake env_) in
                 let? selected := negotiation (Negotiation.DecodeChallenge m) in
                 negotiation (Negotiation.Accept (att_hello a) selected)) with
          | Err e => (Some e, s)
          | Ok contract =>
              match prepareTranscript (handshakeKey (eng s)) (psk (eng s))
                      {| hello := packetOf a hello; challenge := packet; finish := blank; ready := blank |} with
              | Err e => (Some e, s)
              | Ok (t, keys, ps) =>
                  let s := put id (with_state waitReady (with_setup (with_keys (Some contract) keys (setup a))
                             (with_proof (Some t) (Some ps) a))) s in
                  (None, send id WireV2.TypeFinish (finish ps) now true s)
              end
          end
      | _ => (None, s)
      end
  end.

Definition receiveReject (now : Z) (id : SessionID) (env_ : WireV2.AuthenticatedEnvelope) (s : St)
    : option HandshakeError * St :=
  match sessions (eng s) !! id with
  | None => (None, s)
  | Some a =>
      if decide (state a = waitChallenge) then
        match authenticate (packetOf a hello) (handshakeKey (eng s)) with
        | Err e => (Some e, s)
        | Ok h =>
            match Transcript.ValidateReject h env_ with
            | Some e => (Some (WireErr e), s)
            | None => (None, failAttempt id ErrRejected now false s)
            end
        end
      else (None, s)
  end.

(** The confirmation checks of FINISH and READY: the decoded fields and the exact bytes. *)
Definition confirmed (a : attempt) (packet : bytes) (expected : packets -> bytes)
    (env_ : WireV2.AuthenticatedEnvelope) : option HandshakeError :=
  match transcript a with
  | None => Some (WireErr WireV2.ErrTranscript)
  | Some t =>
      match Transcript.ValidateConfirmation t env_ with
      | Some e => Some (WireErr e)
      | None => if decide (packet = packetOf a expected) then None else Some (WireErr WireV2.ErrTranscript)
      end
  end.

Definition receiveFinish (now : Z) (id : SessionID) (packet : bytes)
    (env_ : WireV2.AuthenticatedEnvelope) (s : St) : option HandshakeError * St :=
  match sessions (eng s) !! id with
  | None => (None, s)
  | Some a =>
      match confirmed a packet finish env_ with
      | Some e => (Some e, s)
      | None =>
          match state a with
          | established => (None, send id WireV2.TypeReady (packetOf a ready) now false s)
          | waitFinish =>
              match install id s with
              | (Some e, s) => (Some e, failAttempt id e now true s)
              | (None, s) => (None, send id WireV2.TypeReady (packetOf a ready) now true s)
              end
          | _ => (None, s)
          end
      end
  end.

Definition cancelOthers (now : Z) (d : Z) (winner : SessionID) (ids : list SessionID) (s : St) : St :=
  foldl (fun s id =>
    match sessions (eng s) !! id with
    | None => s
    | Some other =>
        if negb (bool_decide (id = winner)) && (setup_DialID (setup other) =? d)
        then failAttempt id ErrCancelled now true s else s
    end) s ids.

Definition receiveReady (now : Z) (id : SessionID) (packet : bytes)
    (env_ : WireV2.AuthenticatedEnvelope) (s : St) : option HandshakeError * St :=
  match sessions (eng s) !! id with
  | None => (None, s)
  | Some a =>
      if negb (bool_decide (state a = waitReady)) then (None, s) else
      match confirmed a packet ready env_ with
      | Some e => (Some e, s)
      | None =>
          match install id s with
          | (Some e, s) => (Some e, failAttempt id e now true s)
          | (None, s) =>
              let d := setup_DialID (setup a) in
              let s := match dials (eng s) !! d with
                       | Some _ => let s := dropDial d s in cancelOthers now d id (orderedIDs (eng s)) s
                       | None => s end in
              (None, releasePackets id s)
          end
      end
  end.

Definition receiveClose (now : Z) (id : SessionID) (env_ : WireV2.AuthenticatedEnvelope) (s : St)
    : option HandshakeError * St :=
  match sessions (eng s) !! id with
  | None => (None, s)
  | Some a =>
      match wire (WireV2Bundle.DecodeEstablished env_) with
      | Err e => (Some e, s)
      | Ok m =>
          let r := WireV2Bundle.Established_Route m in
          let body := WireV2Bundle.Established_Body m in
          if negb ((WireV2Bundle.PathID r =? PathID (setup a)) && (WireV2Bundle.Generation r =? 1)
                   && (WireV2Bundle.BudgetEpoch r =? 1))
          then (Some (WireErr WireV2.ErrInvalidRoute), s) else
          if negb (len body =? 8) || negb (be_get (slice 2 4 body) =? 0) || negb (be_get (drop 4 body) =? 1)
          then (Some (WireErr WireV2.ErrMalformed), s) else
          let reason := be_get (slice 0 2 body) in
          if (reason <? 1) || (9 <? reason) then (Some (WireErr WireV2.ErrMalformed), s) else
          (None, fillDials now (failAttempt id ErrCancelled now false s))
      end
  end.

(** The key a message other than HELLO is authenticated with; [None] when the attempt
    does not expect it. *)
Definition expectedKey (e : Engine) (a : attempt) (kind : Z) : option Key :=
  let initiator := match setup_Role (setup a) with Negotiation.Initiator => true | _ => false end in
  let responder := match setup_Role (setup a) with Negotiation.Responder => true | _ => false end in
  if (kind =? WireV2.TypeChallenge) || (kind =? WireV2.TypeReject) then
    if negb initiator || bool_decide (state a = established) then None else Some (handshakeKey e)
  else if kind =? WireV2.TypeFinish then
    if negb responder || bool_decide (att_packets a = None) then None
    else Some (Transcript.ClientToServer (Keys (setup a)))
  else if kind =? WireV2.TypeReady then
    if negb initiator || negb (bool_decide (state a = waitReady)) then None
    else Some (Transcript.ServerToClient (Keys (setup a)))
  else if kind =? WireV2.TypeClose then
    let key := if initiator then Transcript.ServerToClient (Keys (setup a))
               else Transcript.ClientToServer (Keys (setup a)) in
    if decide (key = zero32) then None else Some key
  else None.

(** The transitions of an authenticated message before the attempt's deadline. *)
Definition dispatch (now : Z) (id : SessionID) (kind : Z) (packet : bytes)
    (env_ : WireV2.AuthenticatedEnvelope) (s : St) : option HandshakeError * St :=
  if kind =? WireV2.TypeChallenge then receiveChallenge now id packet env_ s else
  if kind =? WireV2.TypeReject then receiveReject now id env_ s else
  if kind =? WireV2.TypeFinish then receiveFinish now id packet env_ s else
  if kind =? WireV2.TypeReady then receiveReady now id packet env_ s else (None, s).

Definition receive (now : Z) (b : Binding) (packet : bytes) (s : St) : option HandshakeError * St :=
  if negb (validBinding b) then (Some ErrInvalid, s) else
  match wire (WireV2.ParseEnvelope packet) with
  | Err e => (Some e, s)
  | Ok envelope =>
      let id := WireV2.Header_SessionID (WireV2.header envelope) in
      let kind := WireV2.Header_Type (WireV2.header envelope) in
      if kind =? WireV2.TypeHello then
        match Listener (config (eng s)) with
        | None => (None, s)
        | Some lp =>
            match wire (WireV2.Authenticate envelope (handshakeKey (eng s))) with
            | Err e => (Some e, s)
            | Ok env_ => receiveHello now b packet env_ id lp s
            end
        end
      else
      match sessions (eng s) !! id with
      | None => (None, s)
      | Some a =>
          if negb (bool_decide (setup_Binding (setup a) = b)) then (None, s) else
          match expectedKey (eng s) a kind with
          | None => (None, s)
          | Some key =>
              match wire (WireV2.Authenticate envelope key) with
              | Err e => (Some e, s)
              | Ok env_ =>
                  if kind =? WireV2.TypeClose then receiveClose now id env_ s else
                  if now <? deadline a then
                    let '(err, s) := dispatch now id kind packet env_ s in (err, fillDials now s)
                  else if decide (state a = established) then (None, releasePackets id s)
                  else (None, fillDials now (failAttempt id ErrExpired now true s))
              end
          end
      end
  end.

Definition Receive (now : Z) (b : Binding) (packet : bytes) : Engine -> World
    -> option HandshakeError * Result * Engine * World :=
  method now false Some (receive now b packet).

(** ** Time, cancellation and close *)

(** One retained attempt in [Advance]. *)
Definition advanceOne (now : Z) (s : St) (id : SessionID) : St :=
  match sessions (eng s) !! id with
  | None => s
  | Some a =>
      if Credit.session_Closed (scopeState (setup_Scope (setup a)) s)
      then failAttempt id ErrClosed now false s else
      if negb (now <? deadline a) then
        if decide (state a = established) then releasePackets id s else failAttempt id ErrExpired now true s
      else
      match att_packets a with
      | None => s
      | Some ps =>
          match state a with
          | waitChallenge => send id WireV2.TypeHello (hello ps) now false s
          | waitFinish => send id WireV2.TypeChallenge (challenge ps) now false s
          | waitReady => send id WireV2.TypeFinish (finish ps) now false s
          | established =>
              match setup_Role (setup a) with
              | Negotiation.Responder => send id WireV2.TypeReady (ready ps) now false s
              | _ => s
              end
          end
      end
  end.

Definition expireRejections (now : Z) (l : list (option rejected)) : list (option rejected) :=
  (fun entry => match entry with
                | Some r => if now <? rej_deadline r then Some r else None
                | None => None end) <$> l.

Definition advance (now : Z) (s : St) : St :=
  let s := on_eng (fun e => with_rejections (expireRejections now (rejections e)) e) s in
  fillDials now (foldl (advanceOne now) s (orderedIDs (eng s))).

Definition Advance (now : Z) : Engine -> World -> option HandshakeError * Result * Engine * World :=
  method now false Some (fun s => (None, advance now s)).

Definition cancelDial (now : Z) (id : Z) (s : St) : St :=
  match dials (eng s) !! id with
  | None => s
  | Some _ =>
      let s := dropDial id s in
      foldl (fun s sid =>
        match sessions (eng s) !! sid with
        | None => s
        | Some a => if (setup_DialID (setup a) =? id) && negb (bool_decide (state a = established))
                    then failAttempt sid ErrCancelled now true s else s
        end) s (orderedIDs (eng s))
  end.

Definition CancelDial (now : Z) (id : Z) : Engine -> World -> option HandshakeError * Result * Engine * World :=
  method now false Some (fun s => (None, cancelDial now id s)).

Definition markAccepted (id : SessionID) (s : St) : option HandshakeError * St :=
  match sessions (eng s) !! id with
  | None => (Some ErrInvalid, s)
  | Some a =>
      if negb (bool_decide (state a = established))
         || match setup_Role (setup a) with Negotiation.Responder => false | _ => true end
      then (Some ErrInvalid, s)
      else
        let '(e, h) := Credit.MarkAccepted (receiveLease a) (credits (out s)) in
        (CreditErr <$> e, on_credits (fun _ => h) s)
  end.
Definition MarkAccepted (now : Z) (id : SessionID) : Engine -> World
    -> option HandshakeError * Result * Engine * World :=
  method now false Some (markAccepted id).

Definition CloseSession (now : Z) (id : SessionID) : Engine -> World
    -> option HandshakeError * Result * Engine * World :=
  method now false Some (fun s => (None, fillDials now (failAttempt id ErrCancelled now true s))).

(** The preparations are retired in some order; the source ranges over a map. *)
Definition closeEngine (now : Z) (s : St) : St :=
  if eng_closed (eng s) then s else
  let s := on_eng mark_closed s in
  let s := foldl (fun s p =>
    match prepareds (eng s) !! p with
    | None => s
    | Some st => retire p None (takePreparation p (with_phase preparationAborted (prep_policy st) st) s)
    end) s (elements (preparations (eng s))) in
  let s := on_eng (with_dials ∅) s in
  let s := foldl (fun s id => failAttempt id ErrCancelled now true s) s (orderedIDs (eng s)) in
  on_eng wiped s.

Definition Close (now : Z) : Engine -> World -> option HandshakeError * Result * Engine * World :=
  method now true Some (fun s => (None, closeEngine now s)).

(** ** Queries *)

Definition earlier (a b : option Z) : option Z :=
  match a, b with Some x, Some y => Some (Z.min x y) | None, y => y | x, None => x end.

Definition attemptDeadline (a : attempt) : option Z :=
  if bool_decide (state a = established) && bool_decide (att_packets a = None) then None else
  earlier (Some (deadline a))
    (if (MaxSends <=? sends a)
        || ((bool_decide (state a = waitChallenge) || bool_decide (state a = waitFinish))
            && (MaxSends - 1 <=? sends a))
     then None else nextSend a).

Definition NextDeadline (e : Engine) : option Z :=
  if eng_closed e then None else
  foldr (fun r acc => match r with
      | Some x => if bool_decide (rej_id x = zero16) then acc else earlier (Some (rej_deadline x)) acc
      | None => acc end)
    (map_fold (fun _ a acc => earlier (attemptDeadline a) acc) None (sessions e)) (rejections e).

Record EngineSnapshot := {
  snap_Pending : Z; snap_Established : Z; snap_Dials : Z; snap_Rejections : Z; snap_Prepared : Z;
  snap_PacketBytes : Z; snap_Closed : bool }.

Definition Snapshot (e : Engine) : EngineSnapshot := {|
  snap_Pending := pending e;
  snap_Established := Z.of_nat (size (filter (fun x => state x.2 = established) (sessions e)));
  snap_Dials := Z.of_nat (size (dials e));
  snap_Rejections := len (List.filter
    (fun r => match r with Some x => lastNow e <? rej_deadline x | None => false end) (rejections e));
  snap_Prepared := Z.of_nat (size (preparations e));
  snap_PacketBytes := Z.of_nat (size (preparations e)) * PacketReservationBytes
    + Z.of_nat (size (filter (fun x => is_Some (packetLease x.2)) (sessions e))) * PacketReservationBytes;
  snap_Closed := eng_closed e |}.
End engine.
