(* ===== verification/HandshakeInv.v ===== *)
(** * The invariant of the handshake engine

    [Wf] is what holds of an [Engine] between two methods: every attempt is consistent
    with the packets it holds ([attempt_ok]), every dial counts its attempts
    ([dial_ok]), and the admission counters are exact.  A running method may hold one
    exempted attempt, just installed, whose dial is about to be dropped.  [good] says
    that a step keeps the invariant and the parts of the engine no step changes. *)

From S2P Require Import Prelude Sha256 Handshake.
From S2P Require WireV2 WireV2Handshake WireV2Bundle Transcript Negotiation NegotiationProps Credit.
Import WireV2 (SessionID, Nonce, Digest, Key, zero16, zero32).

(** ** Packets of an attempt *)

Lemma authenticate_open p k e : authenticate p k = Ok e <-> WireV2.open p k = Ok e.
Proof.
  unfold authenticate, WireV2.open, wire. destruct (WireV2.ParseEnvelope p) as [a|]; cbn;
    [destruct (WireV2.Authenticate a k)|]; split; congruence.
Qed.

(** The packet is, under the key, a handshake of this Session carrying this advertisement. *)
Definition carries (ty : Z) (k : Key) (id : SessionID) (p : bytes) (adv : Negotiation.Advertisement) : Prop :=
  exists m, result_bind WireV2Handshake.DecodeHandshake (WireV2.open p k) = Ok m /\
    WireV2.Header_SessionID (WireV2.Handshake_Header m) = id /\
    Negotiation.decodeAdvertisement m ty = Ok adv.

Lemma carries_fun ty k id p a1 a2 : carries ty k id p a1 -> carries ty k id p a2 -> a1 = a2.
Proof. intros (m1 & H1 & _ & D1) (m2 & H2 & _ & D2). congruence. Qed.

(** What the packets of an attempt past its first phase determine. *)
Definition proved (k : Key) (secret : bytes) (a : attempt) (ps : packets) : Prop :=
  exists t sel,
    transcript a = Some t /\ prepareTranscript k secret ps = Ok (t, Keys (setup a), ps) /\
    carries WireV2.TypeChallenge k (ID (setup a)) (challenge ps) sel /\
    Negotiation.Accept (att_hello a) sel = match setup_Contract (setup a) with
      | Some c => Ok c | None => Err Negotiation.ErrIncompatible end.

Record attempt_ok (k : Key) (secret : bytes) (n : Z) (x : option SessionID) (id : SessionID) (a : attempt)
    : Prop := {
  ok_id : ID (setup a) = id;
  ok_sends : 0 <= sends a <= MaxSends;
  ok_early : state a = waitChallenge \/ state a = waitFinish -> sends a <= MaxSends - 1;
  ok_initiator : state a = waitChallenge \/ state a = waitReady -> setup_Role (setup a) = Negotiation.Initiator;
  ok_responder : state a = waitFinish -> setup_Role (setup a) = Negotiation.Responder;
  ok_dial : match setup_Role (setup a) with
            | Negotiation.Responder => setup_DialID (setup a) = 0
            | _ => 1 <= setup_DialID (setup a) <= n end;
  ok_packets : state a <> established -> is_Some (att_packets a);
  ok_spent : x <> Some id -> state a = established -> setup_Role (setup a) <> Negotiation.Responder ->
             att_packets a = None;
  ok_hello : forall ps, att_packets a = Some ps -> carries WireV2.TypeHello k id (hello ps) (att_hello a);
  ok_keys : state a = waitChallenge -> Keys (setup a) = noKeys /\ setup_Contract (setup a) = None;
  ok_contract : state a <> waitChallenge -> is_Some (setup_Contract (setup a));
  ok_proved : forall ps, state a <> waitChallenge -> att_packets a = Some ps -> proved k secret a ps }.

(** ** Counting attempts *)

Definition live (a : attempt) : Z := if decide (state a = established) then 0 else 1.
Definition mine (d : Z) (a : attempt) : Z := if decide (setup_DialID (setup a) = d) then live a else 0.
Definition unpaid (a : attempt) : Z := match prepared a with Some _ => 0 | None => live a end.

Lemma live_range a : 0 <= live a <= 1.
Proof. unfold live. case_decide; lia. Qed.
Lemma mine_range d a : 0 <= mine d a <= live a.
Proof. pose proof (live_range a). unfold mine. case_decide; lia. Qed.
Lemma unpaid_range a : 0 <= unpaid a <= live a.
Proof. pose proof (live_range a). unfold unpaid. destruct (prepared a); lia. Qed.

Record request_wf (r : DialRequest) : Prop := {
  rw_profile : NegotiationProps.Profile_wf (pol_Profile (req_Policy r));
  rw_paths : Forall (fun c => in_u 16 (car_PathID c)) (Carriers r) }.

Record dial_ok (x : option Z) (n : Z) (m : gmap SessionID attempt) (id : Z) (d : dial) : Prop := {
  dok_id : dial_id d = id;
  dok_range : 1 <= id <= n;
  dok_running : x <> Some id -> running d = msum (mine id) m;
  dok_request : request_wf (request d);
  dok_slots : running d <= Concurrent (request d);
  dok_serial : dial_prepared d <> None -> Concurrent (request d) = 1 }.

(** ** The invariant *)

Record Wf (x : option (SessionID * Z)) (e : Engine) : Prop := {
  wf_att : map_Forall (attempt_ok (handshakeKey e) (psk e) (nextDial e) (fst <$> x)) (sessions e);
  wf_pending : pending e = msum live (sessions e);
  wf_dials : map_Forall (dial_ok (snd <$> x) (nextDial e) (sessions e)) (dials e);
  wf_next : 0 <= nextDial e <= maxUint64;
  wf_unpaid : msum unpaid (sessions e) + Z.of_nat (size (preparations e)) <= MaxPending;
  wf_dialcount : Z.of_nat (size (dials e)) <= MaxPending;
  wf_listener : forall p, Listener (config e) = Some p -> NegotiationProps.Profile_wf (pol_Profile p);
  wf_prep : map_Forall (fun _ st => forall pol, prep_policy st = Some pol ->
              NegotiationProps.Profile_wf (pol_Profile pol)) (prepareds e);
  wf_handles : preparations e ⊆ dom (prepareds e);
  wf_rejections : length (rejections e) = MaxRejections }.

(** What no step inside a method changes. *)
Record frame (e e' : Engine) : Prop := {
  fr_config : config e' = config e; fr_psk : psk e' = psk e; fr_key : handshakeKey e' = handshakeKey e;
  fr_closed : eng_closed e' = eng_closed e; fr_now : lastNow e' = lastNow e;
  fr_time : hasTime e' = hasTime e; fr_busy : busy e' = busy e; fr_next : nextDial e <= nextDial e' }.

Lemma frame_refl e : frame e e.
Proof. by split. Qed.
Lemma frame_trans e1 e2 e3 : frame e1 e2 -> frame e2 e3 -> frame e1 e3.
Proof. intros [] []. split; try congruence. lia. Qed.
#[export] Hint Resolve frame_refl : mpudp.

Lemma attempt_ok_mono k s n n' x id a : n <= n' -> attempt_ok k s n x id a -> attempt_ok k s n' x id a.
Proof. intros Hn []. split; try done. destruct (setup_Role _); lia. Qed.

Lemma dial_ok_mono x n n' m id d : n <= n' -> dial_ok x n m id d -> dial_ok x n' m id d.
Proof. intros Hn []. split; try done. lia. Qed.

Section inv.
Context `{Adapter}.

(** A step keeps the frame and the invariant. *)
Definition good (x : option (SessionID * Z)) (s s' : St) : Prop :=
  Wf x (eng s) -> frame (eng s) (eng s') /\ Wf x (eng s').

Lemma good_intro x s s' : frame (eng s) (eng s') -> (Wf x (eng s) -> Wf x (eng s')) -> good x s s'.
Proof. unfold good. auto. Qed.
Lemma good_eng x s s' : eng s' = eng s -> good x s s'.
Proof. intros E. unfold good. rewrite E. auto with mpudp. Qed.
Lemma good_refl x s : good x s s.
Proof. by apply good_eng. Qed.
Lemma good_trans x s1 s2 s3 : good x s1 s2 -> good x s2 s3 -> good x s1 s3.
Proof. intros G1 G2 W. apply G1 in W as [F1 W]. apply G2 in W as [F2 W]. split; [by eapply frame_trans|done]. Qed.

Lemma good_foldl {A} x (f : St -> A -> St) :
  (forall s a, good x s (f s a)) -> forall l s, good x s (foldl f s l).
Proof.
  intros Hf l. induction l as [|a l IH]; intros s; [apply good_refl|].
  eapply good_trans; [apply Hf|apply IH].
Qed.

(** ** Sessions *)

Lemma wf_sessions x e m p :
  map_Forall (attempt_ok (handshakeKey e) (psk e) (nextDial e) (fst <$> x)) m ->
  p = msum live m -> (forall id d, dials e !! id = Some d -> snd <$> x <> Some id ->
    msum (mine id) m = msum (mine id) (sessions e)) ->
  msum unpaid m <= msum unpaid (sessions e) -> Wf x e -> Wf x (with_sessions m p e).
Proof.
  intros Hm -> Hd Hu []. split; try done; cbn.
  - intros id d Hid. destruct (wf_dials0 id d Hid). split; try done.
    intros Hx. rewrite (Hd id d Hid Hx). auto.
  - lia.
Qed.

Lemma wf_put x id a a' e :
  sessions e !! id = Some a -> live a' = live a -> setup_DialID (setup a') = setup_DialID (setup a) ->
  prepared a' = prepared a ->
  (attempt_ok (handshakeKey e) (psk e) (nextDial e) (fst <$> x) id a ->
   attempt_ok (handshakeKey e) (psk e) (nextDial e) (fst <$> x) id a') ->
  Wf x e -> Wf x (with_sessions (<[id := a']> (sessions e)) (pending e) e).
Proof.
  intros Ha Hl Hd Hp Hok W. pose proof W as [].
  assert (Hm : forall k, mine k a' = mine k a) by (intros k; unfold mine; by rewrite Hd, Hl).
  assert (Hu : unpaid a' = unpaid a) by (unfold unpaid; by rewrite Hp, Hl).
  apply wf_sessions; try done.
  - apply map_Forall_insert_2; [|done]. apply Hok. by apply wf_att0.
  - rewrite (msum_update _ _ _ a) by done. lia.
  - intros k d _ _. rewrite (msum_update _ _ _ a), Hm by done. lia.
  - rewrite (msum_update _ _ _ a) by done. lia.
Qed.

Lemma good_put x s id a a' :
  sessions (eng s) !! id = Some a -> live a' = live a ->
  setup_DialID (setup a') = setup_DialID (setup a) -> prepared a' = prepared a ->
  (attempt_ok (handshakeKey (eng s)) (psk (eng s)) (nextDial (eng s)) (fst <$> x) id a ->
   attempt_ok (handshakeKey (eng s)) (psk (eng s)) (nextDial (eng s)) (fst <$> x) id a') ->
  good x s (put id a' s).
Proof. intros. apply good_intro; [by split|]. by apply wf_put with (a := a). Qed.

(** Adding an attempt under a free identifier; its dial counts it separately. *)
Lemma wf_add x id a e :
  sessions e !! id = None -> live a = 1 ->
  attempt_ok (handshakeKey e) (psk e) (nextDial e) (fst <$> x) id a ->
  (forall d, dials e !! setup_DialID (setup a) = Some d -> snd <$> x = Some (setup_DialID (setup a))) ->
  msum unpaid (sessions e) + unpaid a + Z.of_nat (size (preparations e)) <= MaxPending ->
  Wf x e -> Wf x (with_sessions (<[id := a]> (sessions e)) (pending e + 1) e).
Proof.
  intros Hn Hl Hok Hd Hu []. split; try done; cbn.
  - by apply map_Forall_insert_2.
  - rewrite msum_insert by done. lia.
  - intros k d Hk. destruct (wf_dials0 k d Hk). split; try done. intros Hx.
    rewrite msum_insert by done. unfold mine at 1. rewrite decide_False; [auto|].
    intros E. destruct Hx. rewrite <- E in *. by eapply Hd.
  - rewrite msum_insert by done. lia.
Qed.

(** ** Dials *)

Lemma wf_dialmap x m e :
  map_Forall (dial_ok (snd <$> x) (nextDial e) (sessions e)) m ->
  Z.of_nat (size m) <= MaxPending -> Wf x e -> Wf x (with_dials m e).
Proof. intros Hm Hs []. by split. Qed.

Lemma wf_dropDial x id e : Wf x e -> Wf x (with_dials (delete id (dials e)) e).
Proof.
  intros W. pose proof W as []. apply wf_dialmap; try done.
  - by apply map_Forall_delete.
  - rewrite map_size_delete. destruct (dials e !! id); unfold Datatypes.id; lia.
Qed.

Lemma good_dropDial x id s : good x s (dropDial id s).
Proof. apply good_intro; [by split|apply wf_dropDial]. Qed.

(** The exempted attempt is done with, its dial being gone. *)
Lemma wf_settle id d e :
  dials e !! d = None ->
  (forall a, sessions e !! id = Some a -> state a = established ->
    setup_Role (setup a) <> Negotiation.Responder -> att_packets a = None) ->
  Wf (Some (id, d)) e -> Wf None e.
Proof.
  intros Hd Ha []. split; try done; cbn in *.
  - intros k a Hk. destruct (wf_att0 k a Hk). split; try done. intros _.
    destruct (decide (k = id)) as [->|Hne]; [by apply Ha|]. apply ok_spent0. congruence.
  - intros k x Hk. destruct (wf_dials0 k x Hk). split; try done. intros _.
    apply dok_running0. congruence.
Qed.

(** ** Preparations *)

Lemma wf_prepareds x m ps e :
  map_Forall (fun _ st => forall pol, prep_policy st = Some pol ->
    NegotiationProps.Profile_wf (pol_Profile pol)) m ->
  Z.of_nat (size ps) <= Z.of_nat (size (preparations e)) -> ps ⊆ dom m ->
  Wf x e -> Wf x (with_prepareds m ps e).
Proof. intros Hm Hs Hd []. split; try done. cbn. lia. Qed.

Lemma good_clearStorage x p s : good x s (clearStorage p s).
Proof.
  apply good_intro; [by split|]. intros W. apply wf_prepareds; [|done| |done]; [|rewrite dom_alter_L; apply W].
  intros q st. rewrite lookup_alter_Some. intros [(-> & st' & _ & ->)|[_ Hq]]; [done|].
  by eapply (wf_prep _ _ W).
Qed.
End inv.
#[export] Hint Resolve good_refl : mpudp.
