(* ===== verification/HandshakeSteps.v ===== *)
(** * The steps of the handshake engine keep its invariant

    One lemma per step of [Handshake]: sending, rejecting, disposal, failure,
    installation and the dialling loop are [good] in the sense of [HandshakeInv]. *)

From S2P Require Import Prelude Sha256 Handshake HandshakeInv.
From S2P Require WireV2 WireV2Handshake WireV2Bundle Transcript Negotiation NegotiationProps Credit.
Import WireV2 (SessionID, Nonce, Digest, Key, zero16, zero32).

Section steps.
Context `{Adapter}.
Implicit Types s : St.

(** ** Sending *)

Lemma send_eng id kind packet now tr s :
  eng (send id kind packet now tr s) = eng s \/
  exists a, sessions (eng s) !! id = Some a /\ sends a < MaxSends /\
    (kind = WireV2.TypeHello \/ kind = WireV2.TypeChallenge -> sends a < MaxSends - 1) /\
    eng (send id kind packet now tr s) =
      eng (put id (with_sends (sends a + 1) (Some (now + RetryInterval)) a) s).
Proof.
  unfold send. destruct (sessions (eng s) !! id) as [a|] eqn:Ha; [|by left].
  destruct (MaxSends <=? sends a) eqn:E1; [by left|]. cbn [orb]. destruct (negb tr && _); [by left|].
  destruct ((_ || _) && _) eqn:E2; [by left|].
  right. exists a. split_and!; [done|lia|lia|].
  unfold emit. by destruct (Emit _ _ _).
Qed.

Lemma good_send x id kind packet now tr s :
  (forall a, sessions (eng s) !! id = Some a -> state a = waitChallenge \/ state a = waitFinish ->
    kind = WireV2.TypeHello \/ kind = WireV2.TypeChallenge) ->
  good x s (send id kind packet now tr s).
Proof.
  intros Hk. destruct (send_eng id kind packet now tr s) as [E|(a & Ha & H1 & H2 & E)]; [by apply good_eng|].
  apply good_trans with (s2 := put id (with_sends (sends a + 1) (Some (now + RetryInterval)) a) s);
    [|by apply good_eng].
  apply good_put with (a := a); try done.
  intros []. split; try done; cbn.
  - lia.
  - intros Hs. specialize (H2 (Hk a Ha Hs)). lia.
Qed.

Lemma good_reject x now b packet code s : good x s (reject now b packet code s).
Proof.
  unfold reject. destruct (negb _); [apply good_refl|].
  destruct (rejectScan _ _ _ _ _ _) as [[slot|]|]; try apply good_refl.
  destruct (encode _ _) as [response|]; [|apply good_refl].
  unfold emit. destruct (Emit _ _ _).
  apply good_intro; [by split|]. intros []. split; try done. cbn. by rewrite length_insert.
Qed.

(** ** Disposal *)

Lemma good_retire x p d s : good x s (retire p d s).
Proof.
  unfold retire. destruct (prepareds (eng s) !! p) as [st|]; [|apply good_refl].
  destruct (prep_storage st); [|apply good_refl].
  cbv zeta. set (s1 := on_credits _ s). apply good_trans with (s2 := s1); [by apply good_eng|].
  apply good_trans with (s2 := clearStorage p s1); [apply good_clearStorage|].
  by destruct d, (disposePending st); apply good_eng.
Qed.

Lemma good_disposeAttempt x a s : good x s (disposeAttempt a s).
Proof.
  unfold disposeAttempt. destruct (prepared a) as [p|].
  - eapply good_trans; [apply good_dropDial|apply good_retire].
  - apply good_eng. by destruct (dispose a), (retirement a), (disposeDeferred a).
Qed.

Lemma disposeAttempt_sessions a s : sessions (eng (disposeAttempt a s)) = sessions (eng s).
Proof.
  unfold disposeAttempt. destruct (prepared a) as [p|].
  - unfold retire. destruct (prepareds _ !! p) as [st|]; [|done].
    destruct (prep_storage st); [|done]. by destruct (disposeDeferred a), (disposePending st).
  - by destruct (dispose a), (retirement a), (disposeDeferred a).
Qed.

Lemma good_releasePackets x id s :
  (forall a, sessions (eng s) !! id = Some a -> state a = established) ->
  good x s (releasePackets id s).
Proof.
  intros Hs. unfold releasePackets. destruct (sessions (eng s) !! id) as [a|] eqn:Ha; [|apply good_refl].
  apply good_trans with (s2 := put id (withoutPackets a) s); [|by apply good_eng].
  apply good_put with (a := a); try done.
  pose proof (Hs a eq_refl) as E. intros []. by split; try done; cbn; congruence.
Qed.

(** ** Failure *)

Lemma sendClose_eng id cause s :
  eng (sendClose id cause s) = eng s \/
  exists a, sessions (eng s) !! id = Some a /\
    eng (sendClose id cause s) = eng (put id (with_closeSent a) s).
Proof.
  unfold sendClose. destruct (sessions (eng s) !! id) as [a|] eqn:Ha; [|by left].
  destruct (closeSent a); [by left|]. destruct (decide _); [by left|].
  right. exists a. split; [done|].
  destruct (WireV2Bundle.AppendEstablished _ _ _ _ _) as [packet [e|]]; [done|].
  unfold emit. by destruct (Emit _ _ _).
Qed.

Lemma good_sendClose x id cause s : good x s (sendClose id cause s).
Proof.
  destruct (sendClose_eng id cause s) as [E|(a & Ha & E)]; [by apply good_eng|].
  apply good_trans with (s2 := put id (with_closeSent a) s); [|by apply good_eng].
  apply good_put with (a := a); try done. intros []. by split.
Qed.

(** Removing an attempt: the counters of the engine and of its dial follow. *)
Definition removed (id : SessionID) (a : attempt) (s : St) : St :=
  let s := on_eng (fun e => with_sessions (delete id (sessions e)) (pending e) e) s in
  if decide (state a = established) then s
  else stopRunning (setup_DialID (setup a))
         (on_eng (fun e => with_sessions (sessions e) (pending e - 1) e) s).

Lemma good_removed x id a s :
  sessions (eng s) !! id = Some a -> good x s (removed id a s).
Proof.
  intros Ha. unfold removed.
  set (m := delete id (sessions (eng s))).
  assert (Hok : forall e, eng s = e -> Wf x e ->
    map_Forall (attempt_ok (handshakeKey e) (psk e) (nextDial e) (fst <$> x)) m).
  { intros e <- []. by apply map_Forall_delete. }
  assert (Hmine : forall d, msum (mine d) m = msum (mine d) (sessions (eng s)) - mine d a)
    by (intros d; by apply msum_delete).
  pose proof (msum_delete live (sessions (eng s)) id a Ha) as Hlive. fold m in Hlive.
  pose proof (msum_delete unpaid (sessions (eng s)) id a Ha) as Hunpaid. fold m in Hunpaid.
  pose proof (unpaid_range a) as Hu. unfold live at 3 in Hlive.
  case_decide as Hs.
  - apply good_intro; [by split|]. intros W. pose proof W as []. apply wf_sessions; try done.
    + by apply Hok.
    + fold m. lia.
    + intros d _ _ _. fold m. rewrite Hmine. unfold mine, live. rewrite Hs. repeat case_decide; (done || lia).
    + fold m. lia.
  - unfold stopRunning. cbn [eng on_eng with_sessions sessions dials pending]. fold m.
    destruct (dials (eng s) !! setup_DialID (setup a)) as [d|] eqn:Hd.
    + apply good_intro; [by split|]. intros W. pose proof W as []. split; try done; cbn; fold m.
      * by apply Hok.
      * lia.
      * pose proof (wf_dials _ _ Hd) as Hdok. apply map_Forall_lookup. intros k d' Hk. cbn in Hdok.
        rewrite (dok_id _ _ _ _ _ Hdok) in Hk.
        destruct (decide (k = setup_DialID (setup a))) as [->|Hne].
        { rewrite lookup_insert_eq in Hk. injection Hk as <-. destruct Hdok. split; try done; cbn; [|lia].
          intros Hx. rewrite Hmine, dok_running by done. unfold mine, live.
          rewrite decide_True, decide_False by done. lia. }
        rewrite lookup_insert_ne in Hk by done. destruct (wf_dials k d' Hk). split; try done.
        intros Hx. rewrite Hmine. unfold mine at 2. rewrite decide_False by done. rewrite Z.sub_0_r. auto.
      * lia.
      * pose proof (wf_dials _ _ Hd) as Hdok. rewrite (dok_id _ _ _ _ _ Hdok), map_size_insert_Some by done. done.
    + apply good_intro; [by split|].
      change (Wf x (eng s) -> Wf x (with_sessions m (pending (eng s) - 1) (eng s))).
      intros W. pose proof W as []. apply wf_sessions; try done.
      * by apply Hok.
      * cbn. fold m. lia.
      * intros k d' Hk _. fold m. rewrite Hmine. unfold mine at 2. rewrite decide_False; [lia|congruence].
      * fold m. lia.
Qed.

Lemma failAttempt_unfold id cause now notify s :
  exists s1, (forall x, good x s s1) /\ delete id (sessions (eng s1)) = delete id (sessions (eng s)) /\
    dials (eng s1) = dials (eng s) /\ (preparations (eng s1) = preparations (eng s) /\ rejections (eng s1) = rejections (eng s)) /\
    match sessions (eng s1) !! id with
    | None => eng (failAttempt id cause now notify s) = eng s1 /\ sessions (eng s) !! id = None
    | Some a => exists s2, eng s2 = eng (removed id a s1) /\
        failAttempt id cause now notify s = if recyclable a now s2 then s2 else disposeAttempt a s2
    end.
Proof.
  unfold failAttempt. destruct (sessions (eng s) !! id) as [a0|] eqn:Ha.
  2: { exists s. rewrite Ha. split_and!; auto using good_refl. }
  set (s1 := if notify then sendClose id cause s else s). exists s1. split_and!.
  - intros x. unfold s1. destruct notify; [apply good_sendClose|apply good_refl].
  - unfold s1. destruct notify; [|done]. destruct (sendClose_eng id cause s) as [->|(a & _ & ->)]; [done|].
    apply delete_insert_eq.
  - unfold s1. destruct notify; [|done]. by destruct (sendClose_eng id cause s) as [->|(a & _ & ->)].
  - unfold s1. destruct notify; [|done]. by destruct (sendClose_eng id cause s) as [->|(a & _ & ->)].
  - unfold s1. destruct notify; [|done]. by destruct (sendClose_eng id cause s) as [->|(a & _ & ->)].
  - cbv zeta. fold s1. destruct (sessions (eng s1) !! id) as [a|] eqn:Ha1.
    + eexists. split; [|reflexivity]. unfold removed. cbv zeta. by destruct (decide (state a = established)).
    + exfalso. unfold s1 in Ha1. destruct notify; [|congruence].
      destruct (sendClose_eng id cause s) as [E|(a & _ & E)]; rewrite E in Ha1; [congruence|].
      cbn in Ha1. by rewrite lookup_insert_eq in Ha1.
Qed.

Lemma good_failAttempt x id cause now notify s : good x s (failAttempt id cause now notify s).
Proof.
  destruct (failAttempt_unfold id cause now notify s) as (s1 & Hg & _ & _ & _ & E).
  eapply good_trans; [apply Hg|]. destruct (sessions (eng s1) !! id) as [a|] eqn:Ha.
  - destruct E as (s2 & E2 & ->). apply good_trans with (s2 := s2).
    + unfold good. rewrite E2. by apply (good_removed x id a s1).
    + destruct (recyclable a now s2); [apply good_refl|apply good_disposeAttempt].
  - destruct E as [E _]. by apply good_eng.
Qed.

Lemma failAttempt_sessions id cause now notify s :
  sessions (eng (failAttempt id cause now notify s)) = delete id (sessions (eng s)).
Proof.
  destruct (failAttempt_unfold id cause now notify s) as (s1 & _ & Hs & _ & _ & E).
  destruct (sessions (eng s1) !! id) as [a|] eqn:Ha.
  - destruct E as (s2 & E2 & ->). rewrite <- Hs.
    transitivity (sessions (eng s2)).
    + destruct (recyclable a now s2); [done|apply disposeAttempt_sessions].
    + rewrite E2. unfold removed, stopRunning. case_decide; [done|]. by destruct (dials _ !! _).
  - destruct E as [-> E]. rewrite <- Hs. symmetry. by apply delete_id.
Qed.

(** ** Installation *)

Lemma runInstaller_eng id a s :
  exists d dd, eng (snd (runInstaller id a s)) = eng s \/
    eng (snd (runInstaller id a s)) = eng (put id (with_disposers d dd a) s).
Proof.
  unfold runInstaller. destruct (Install _ _) as [[disposer failed] o].
  destruct (hasInstallDeferred _).
  - exists (dispose a), disposer. right. by destruct (_ || _).
  - exists disposer, (disposeDeferred a). destruct disposer as [d|]; [|by left].
    destruct (failed || _); [by left|by right].
Qed.

Lemma good_runInstaller x id a s :
  sessions (eng s) !! id = Some a -> good x s (snd (runInstaller id a s)).
Proof.
  intros Ha. destruct (runInstaller_eng id a s) as (d & dd & [E|E]); [by apply good_eng|].
  apply good_trans with (s2 := put id (with_disposers d dd a) s); [|by apply good_eng].
  apply good_put with (a := a); try done. intros []. by split.
Qed.

(** An attempt that becomes established leaves the counters of the engine; its dial,
    which still counts it, is exempted until it is dropped. *)
Definition promoted (id : SessionID) (s : St) : St :=
  on_eng (fun e => with_sessions
    (alter (fun a => with_state established (unprepared a)) id (sessions e)) (pending e - 1) e) s.

Lemma promoted_ok id a s :
  sessions (eng s) !! id = Some a -> state a = waitFinish \/ state a = waitReady ->
  frame (eng s) (eng (promoted id s)) /\
  (Wf None (eng s) -> Wf (Some (id, setup_DialID (setup a))) (eng (promoted id s))).
Proof.
  intros Ha Hs. split; [by split|]. intros []. unfold promoted. cbn [eng on_eng].
  rewrite <- (insert_id (sessions (eng s)) id a Ha) at 1. rewrite alter_insert_eq.
  assert (Hl : live a = 1) by (unfold live; rewrite decide_False; [done|]; destruct Hs as [-> | ->]; done).
  set (a' := with_state established (unprepared a)).
  assert (Hl' : live a' = 0 /\ unpaid a' = 0) by (split; reflexivity). destruct Hl' as [Hl' Hu'].
  pose proof (unpaid_range a) as Hu.
  split; try done; cbn.
  - apply map_Forall_insert_2.
    + destruct (wf_att id a Ha). split; try done; cbn.
      * intros [E|E]; discriminate.
      * intros [E|E]; discriminate.
      * intros _. apply ok_contract. destruct Hs as [-> | ->]; done.
      * intros ps _ Hps. apply ok_proved; [destruct Hs as [-> | ->]; done|done].
    + intros k b Hk. destruct (wf_att k b Hk). split; try done. intros Hx. by apply ok_spent.
  - rewrite (msum_update _ _ _ a) by done. lia.
  - intros k d Hk. destruct (wf_dials k d Hk). split; try done. intros Hx.
    rewrite (msum_update _ _ _ a) by done. unfold mine at 2 3. change (setup a') with (setup a).
    rewrite !decide_False by congruence. rewrite dok_running by done. lia.
  - rewrite (msum_update _ _ _ a) by done. lia.
Qed.

Lemma install_ok id s err s' :
  install id s = (err, s') ->
  forall a, sessions (eng s) !! id = Some a -> state a = waitFinish \/ state a = waitReady ->
  match err with
  | Some _ => good None s s'
  | None => Wf None (eng s) -> frame (eng s) (eng s') /\ Wf (Some (id, setup_DialID (setup a))) (eng s')
  end.
Proof.
  intros Hi a Ha Hs. unfold install in Hi. rewrite Ha in Hi.
  destruct (Credit.Promote _ _) as [[e|] h]; [injection Hi as <- <-; by apply good_eng|].
  set (s1 := on_credits (fun _ => h) s) in *.
  pose proof (good_runInstaller None id a s1 Ha) as Hg.
  destruct (runInstaller_eng id a s1) as (d & dd & He).
  destruct (runInstaller id a s1) as [[e|] s2]; cbn [snd] in *; injection Hi as <- <-; [done|].
  set (s3 := match prepared a with Some p => clearStorage p s2 | None => s2 end).
  assert (H3 : good None s2 s3) by (unfold s3; destruct (prepared a); [apply good_clearStorage|apply good_refl]).
  assert (Ha2 : exists b, sessions (eng s2) !! id = Some b /\ state b = state a /\
    setup_DialID (setup b) = setup_DialID (setup a)).
  { destruct He as [-> | ->]; [by exists a|]. exists (with_disposers d dd a). cbn. by rewrite lookup_insert_eq. }
  destruct Ha2 as (b & Hb & Hsb & Hdb).
  assert (Hb3 : sessions (eng s3) !! id = Some b) by (unfold s3; by destruct (prepared a)).
  rewrite <- Hsb in Hs. pose proof (promoted_ok id b s3 Hb3 Hs) as [Hf4 Hw4]. rewrite Hdb in Hw4.
  intros W. apply Hg in W as [Hf W]. apply H3 in W as [Hf3 W]. split; [|by apply Hw4].
  eapply frame_trans; [apply Hf|]. eapply frame_trans; [apply Hf3|apply Hf4].
Qed.

(** What a successful installation leaves of the attempt. *)
Lemma install_session id s s' a :
  install id s = (None, s') -> sessions (eng s) !! id = Some a ->
  exists d dd, sessions (eng s') =
      <[id := with_state established (unprepared (with_disposers d dd a))]> (sessions (eng s)) /\
    dials (eng s') = dials (eng s) /\ Sends (res s') = Sends (res s) /\
    Established (res s') = Established (res s) ++ [setup a] /\ Failures (res s') = Failures (res s).
Proof.
  intros Hi Ha. unfold install in Hi. rewrite Ha in Hi.
  destruct (Credit.Promote _ _) as [[e|] h]; [done|].
  unfold runInstaller in Hi. destruct (Install _ _) as [[disposer failed] o]. cbv zeta in Hi.
  assert (Halter : forall d dd (m : gmap SessionID attempt), m !! id = Some (with_disposers d dd a) ->
    alter (fun a => with_state established (unprepared a)) id m =
      <[id := with_state established (unprepared (with_disposers d dd a))]> m).
  { intros d dd m Hm. rewrite <- (insert_id m id _ Hm) at 1. by rewrite alter_insert_eq. }
  destruct (hasInstallDeferred _).
  - destruct (_ || _); [done|]. injection Hi as <-. exists (dispose a), disposer.
    destruct (prepared a); cbn; rewrite (Halter (dispose a) disposer), insert_insert_eq by apply lookup_insert_eq;
      done.
  - destruct disposer as [d|]; [|done]. destruct (failed || _); [done|]. injection Hi as <-.
    exists (Some d), (disposeDeferred a).
    destruct (prepared a); cbn; rewrite (Halter (Some d) (disposeDeferred a)), insert_insert_eq
      by apply lookup_insert_eq; done.
Qed.

(** Failing an attempt enters no dial. *)
Lemma failAttempt_dials x id cause now notify s k :
  Wf x (eng s) -> dials (eng s) !! k = None -> dials (eng (failAttempt id cause now notify s)) !! k = None.
Proof.
  intros W Hk. destruct (failAttempt_unfold id cause now notify s) as (s1 & Hg & _ & Hd & _ & E).
  apply Hg in W as [_ W]. rewrite <- Hd in Hk.
  destruct (sessions (eng s1) !! id) as [a|] eqn:Ha; [|by destruct E as [-> _]].
  destruct E as (s2 & E2 & ->).
  assert (H2 : dials (eng s2) !! k = None).
  { rewrite E2. unfold removed, stopRunning. case_decide; [done|]. cbn [eng on_eng with_sessions dials].
    destruct (dials (eng s1) !! setup_DialID (setup a)) as [d|] eqn:Hd1; [|done]. cbn.
    rewrite (dok_id _ _ _ _ _ (wf_dials _ _ W _ _ Hd1)), lookup_insert_ne; [done|congruence]. }
  destruct (recyclable a now s2); [done|]. unfold disposeAttempt.
  destruct (prepared a) as [p|]; [|by destruct (dispose a), (retirement a), (disposeDeferred a)].
  assert (H3 : dials (eng (dropDial (setup_DialID (setup a)) s2)) !! k = None).
  { cbn. by apply lookup_delete_None; right. }
  unfold retire. destruct (prepareds _ !! p) as [st|]; [|done]. destruct (prep_storage st); [|done].
  by destruct (disposeDeferred a), (disposePending st).
Qed.

Lemma retire_preparations p d s : preparations (eng (retire p d s)) = preparations (eng s).
Proof.
  unfold retire. destruct (prepareds _ !! p) as [st|]; [|done].
  destruct (prep_storage st); [|done]. by destruct d, (disposePending st).
Qed.

Lemma failAttempt_preparations id cause now notify s :
  preparations (eng (failAttempt id cause now notify s)) = preparations (eng s).
Proof.
  destruct (failAttempt_unfold id cause now notify s) as (s1 & _ & _ & _ & [Hp _] & E). rewrite <- Hp.
  destruct (sessions (eng s1) !! id) as [a|]; [|by destruct E as [-> _]]. destruct E as (s2 & E2 & ->).
  transitivity (preparations (eng s2)).
  - destruct (recyclable a now s2); [done|]. unfold disposeAttempt. destruct (prepared a) as [p|].
    + by rewrite retire_preparations.
    + by destruct (dispose a), (retirement a), (disposeDeferred a).
  - rewrite E2. unfold removed, stopRunning. case_decide; [done|]. by destruct (dials _ !! _).
Qed.

Lemma disposeAttempt_rejections a s : rejections (eng (disposeAttempt a s)) = rejections (eng s).
Proof.
  unfold disposeAttempt. destruct (prepared a) as [p|].
  - unfold retire. destruct (prepareds _ !! p) as [st|]; [|done].
    destruct (prep_storage st); [|done]. by destruct (disposeDeferred a), (disposePending st).
  - by destruct (dispose a), (retirement a), (disposeDeferred a).
Qed.

Lemma failAttempt_rejections id cause now notify s :
  rejections (eng (failAttempt id cause now notify s)) = rejections (eng s).
Proof.
  destruct (failAttempt_unfold id cause now notify s) as (s1 & _ & _ & _ & [_ Hr] & E). rewrite <- Hr.
  destruct (sessions (eng s1) !! id) as [a|]; [|by destruct E as [-> _]]. destruct E as (s2 & E2 & ->).
  transitivity (rejections (eng s2)).
  - destruct (recyclable a now s2); [done|]. apply disposeAttempt_rejections.
  - rewrite E2. unfold removed, stopRunning. case_decide; [done|]. by destruct (dials _ !! _).
Qed.
End steps.
