(* ===== verification/HandshakeDial.v ===== *)
(** * Dialling keeps the engine's invariant

    Entropy, admission and the filling loop of [Handshake], on the invariant of
    [HandshakeInv]; the encoded HELLO carries the advertisement it was made from. *)

From S2P Require Import Prelude Sha256 Handshake HandshakeInv HandshakeSteps.
From S2P Require WireV2 WireV2Handshake WireV2Bundle Transcript Negotiation NegotiationProps Credit.
Import WireV2 (SessionID, Nonce, Digest, Key, zero16, zero32).

(** ** Encoded messages *)

Lemma encode_append m k p :
  encode m k = Ok p -> WireV2Handshake.AppendHandshake [] m k = (p, None).
Proof.
  unfold encode. destruct (WireV2Handshake.AppendHandshake [] m k) as [q [e|]]; [done|].
  destruct (negb _); congruence.
Qed.

Lemma contractTLVs_wf a ts : Negotiation.contractTLVs a = Ok ts -> Forall WireV2Handshake.TLV_wf ts.
Proof.
  unfold Negotiation.contractTLVs. destruct (Negotiation.validate a); [done|]. intros [= <-].
  unfold Negotiation.numbered, Negotiation.contractValues. cbn [imap].
  repeat (constructor; [split; vm_compute; split; congruence|]). constructor.
Qed.

(** A handshake made from an advertisement carries it. *)
Lemma encode_carries ty m k p a :
  encode m k = Ok p -> WireV2Handshake.Handshake_wf m ->
  WireV2.Header_Type (WireV2.Handshake_Header m) = ty -> Negotiation.contractTLVs a = Ok (WireV2.TLVs m) ->
  NegotiationProps.Advertisement_wf a ->
  carries ty k (WireV2.Header_SessionID (WireV2.Handshake_Header m)) p a.
Proof.
  intros He Hm Ht Hts Ha. exists m. split_and!; [|done|].
  - apply WireV2Handshake.DecodeHandshake_iff. split; [done|by apply encode_append].
  - unfold Negotiation.contractTLVs in Hts. destruct (Negotiation.validate a) eqn:Hv; [done|].
    injection Hts as Hts. by apply (NegotiationProps.decode_contract a []).
Qed.

Lemma helloMessage_wf id nonce ts :
  length id = 16%nat -> length nonce = 16%nat -> Forall WireV2Handshake.TLV_wf ts ->
  WireV2Handshake.Handshake_wf (helloMessage id nonce ts).
Proof. intros Hi Hn Ht. by repeat split. Qed.

Section dialling.
Context `{Adapter}.
Implicit Types s : St.

(** ** Entropy *)

Lemma randomLoop_length n o v o' : randomLoop n o = (Ok v, o') -> length v = 16%nat.
Proof.
  revert o. induction n as [|n IH]; intros o; [done|]. cbn [randomLoop].
  destruct (Entropy (env o)) as [[w|] e] eqn:E; [|done].
  destruct (decide (w = zero16)); [apply IH|]. intros [= <- _]. by eapply Entropy_full.
Qed.

Lemma randomBlock_spec s r s' :
  randomBlock s = (r, s') -> eng s' = eng s /\ forall v, r = Ok v -> length v = 16%nat.
Proof.
  unfold randomBlock. destruct (randomLoop 4 (out s)) as [r' o] eqn:E. intros [= <- <-].
  split; [done|]. intros v ->. by eapply randomLoop_length.
Qed.

Lemma newIDLoop_spec n s r s' :
  newIDLoop n s = (r, s') -> eng s' = eng s /\
  forall id, r = Ok id -> length id = 16%nat /\ sessions (eng s) !! id = None.
Proof.
  revert s. induction n as [|n IH]; intros s; [by intros [= <- <-]|].
  cbn [newIDLoop]. destruct (randomBlock s) as [[v|e] s1] eqn:E; apply randomBlock_spec in E as [E1 E2].
  - rewrite E1. destruct (decide _) as [Hn|_].
    + intros [= <- <-]. split; [done|]. intros id [= <-]. auto.
    + intros Hr. apply IH in Hr as [-> Hid]. by rewrite E1 in Hid |- *.
  - by intros [= <- <-].
Qed.

Lemma newID_spec s r s' :
  newID s = (r, s') -> eng s' = eng s /\
  forall id, r = Ok id -> length id = 16%nat /\ sessions (eng s) !! id = None.
Proof. apply newIDLoop_spec. Qed.

(** ** Admission *)

Lemma reserve_spec p s r s' :
  reserve p s = (r, s') -> eng s' = eng s /\
  forall v, r = Ok v -> pending (eng s) + Z.of_nat (size (preparations (eng s))) < MaxPending.
Proof.
  unfold reserve. destruct (MaxPending <=? _) eqn:E; [by intros [= <- <-]|].
  destruct (reserveCredits _ _ _) as [[[[[[scope receive] initial] packet] [l|]]|e] h]; intros [= <- <-];
    (split; [done|]); intros; (done || lia).
Qed.

Lemma admission_ok d s r s' :
  admission d s = (r, s') -> eng s' = eng s /\
  forall v, r = Ok v -> dial_prepared d <> None \/
    pending (eng s) + Z.of_nat (size (preparations (eng s))) < MaxPending.
Proof.
  unfold admission. destruct (dial_prepared d) as [p|].
  - destruct (prepareds (eng s) !! p) as [st|]; [destruct (_ || _)|]; intros [= <- <-]; split; auto; by left.
  - destruct (reserve _ s) as [[v|e] s1] eqn:E; apply reserve_spec in E as [He Hr]; intros [= <- <-]; [|done].
    split; [done|]. intros _ _. right. by apply (Hr v).
Qed.

(** ** Starting an attempt *)

Definition started (d : dial) : dial := {|
  dial_id := dial_id d; request := request d; next := next d; running := running d + 1;
  dial_prepared := dial_prepared d |}.

Lemma wf_start id a d e :
  Wf None e -> sessions e !! id = None -> dials e !! setup_DialID (setup a) = Some d ->
  running d < Concurrent (request d) -> live a = 1 ->
  attempt_ok (handshakeKey e) (psk e) (nextDial e) None id a ->
  (prepared a <> None \/ pending e + Z.of_nat (size (preparations e)) < MaxPending) ->
  Wf None (with_dials (<[dial_id d := started d]> (dials e))
            (with_sessions (<[id := a]> (sessions e)) (pending e + 1) e)).
Proof.
  intros [] Hn Hd Hr Hl Ha Hu. pose proof (wf_dials _ _ Hd) as Hdok. cbn in Hdok.
  assert (Hid : dial_id d = setup_DialID (setup a)) by apply Hdok. rewrite Hid.
  assert (Hle : msum unpaid (sessions e) <= pending e).
  { rewrite wf_pending. apply msum_le. intros k b _. apply unpaid_range. }
  split; try done; cbn.
  - by apply map_Forall_insert_2.
  - rewrite msum_insert by done. lia.
  - apply map_Forall_lookup. intros k d' Hk. destruct (decide (k = setup_DialID (setup a))) as [->|Hne].
    + rewrite lookup_insert_eq in Hk. injection Hk as <-. destruct Hdok. split; try done; cbn; [|lia].
      intros _. rewrite msum_insert, dok_running by done. unfold mine at 2. rewrite decide_True by done. lia.
    + rewrite lookup_insert_ne in Hk by done. destruct (wf_dials k d' Hk). split; try done.
      intros _. rewrite msum_insert, dok_running by done. unfold mine at 2. by rewrite decide_False.
  - rewrite msum_insert by done. unfold unpaid at 1. destruct Hu as [Hp|Hu].
    + destruct (prepared a); [lia|done].
    + destruct (prepared a); lia.
  - by rewrite map_size_insert_Some.
Qed.

Definition helloOf (d : dial) (c : Carrier) : Negotiation.Advertisement := {|
  Negotiation.Adv_Profile := pol_Profile (req_Policy (request d));
  Negotiation.BootstrapPathID := car_PathID c |}.

Definition deadlineOf (now : Z) (d : dial) : Z :=
  match Deadline (request d) with
  | Some t => if t <? now + Lifetime then t else now + Lifetime
  | None => now + Lifetime end.

(** The attempt that a started Carrier leaves in the table, before its first send. *)
Record launched (now : Z) (k : Key) (d : dial) (c : Carrier) (id : SessionID) (a : attempt) (p : bytes)
    : Prop := {
  la_id : ID (setup a) = id;
  la_dial : setup_DialID (setup a) = dial_id d;
  la_role : setup_Role (setup a) = Negotiation.Initiator;
  la_binding : setup_Binding (setup a) = car_Binding c;
  la_keys : Keys (setup a) = noKeys /\ setup_Contract (setup a) = None;
  la_state : state a = waitChallenge /\ sends a = 0;
  la_deadline : deadline a = deadlineOf now d;
  la_prepared : prepared a = dial_prepared d;
  la_hello : att_hello a = helloOf d c;
  la_packets : att_packets a = Some {| hello := p; challenge := blank; finish := blank; ready := blank |};
  la_encoded : exists nonce ts, length id = 16%nat /\ length nonce = 16%nat /\
    Negotiation.contractTLVs (helloOf d c) = Ok ts /\ encode (helloMessage id nonce ts) k = Ok p }.

(** Starting a Carrier: it fails leaving the sessions alone, or launches one attempt. *)
Lemma startAttempt_cases now d c s err s' :
  startAttempt now d c s = (err, s') -> dials (eng s) !! dial_id d = Some d ->
  match err with
  | Some _ => eng s' = eng s \/ exists a s1, eng s1 = eng s /\ s' = disposeAttempt a s1
  | None => exists id a p s1, launched now (handshakeKey (eng s)) d c id a p /\
      sessions (eng s) !! id = None /\
      (prepared a <> None \/ pending (eng s) + Z.of_nat (size (preparations (eng s))) < MaxPending) /\
      eng s1 = with_dials (<[dial_id d := started d]> (dials (eng s)))
                 (with_sessions (<[id := a]> (sessions (eng s))) (pending (eng s) + 1) (eng s)) /\
      s' = send id WireV2.TypeHello p now true s1
  end.
Proof.
  intros Hst Hd. unfold startAttempt in Hst.
  destruct (newID s) as [[id|e] s1] eqn:E1; apply newID_spec in E1 as [E1 Hid];
    [|injection Hst as <- <-; by left]. destruct (Hid id eq_refl) as [Hlid Hfree].
  destruct (randomBlock s1) as [[nonce|e] s2] eqn:E2; apply randomBlock_spec in E2 as [E2 Hn];
    [|injection Hst as <- <-; left; congruence]. rewrite E1 in E2.
  destruct (Negotiation.contractTLVs _) as [ts|e] eqn:Hts; cbn [negotiation] in Hst;
    [|injection Hst as <- <-; by left].
  destruct (admission d s2) as [[[[[[scope initial] receive] packet] storage]|e] s3] eqn:E3;
    apply admission_ok in E3 as [E3 Hadm]; [|injection Hst as <- <-; left; congruence]. rewrite E2 in E3, Hadm.
  rewrite E3 in Hst.
  destruct (encode _ _) as [p|e] eqn:He.
  2: { injection Hst as <- <-. right. eauto. }
  injection Hst as <- <-. unfold startRunning. cbn [eng on_eng with_sessions dials]. rewrite E3, Hd.
  eexists id, _, p, _. split; [|split; [done|]; split; [|split; [|reflexivity]]];
    [| |unfold putDial; cbn [eng on_eng with_sessions]; rewrite E3; reflexivity].
  - split; try reflexivity; try done. exists nonce, ts. split_and!; auto.
  - cbn. by eapply Hadm.
Qed.

Lemma launched_ok now e d c id a p x :
  launched now (handshakeKey e) d c id a p -> 1 <= dial_id d <= nextDial e ->
  request_wf (request d) -> c ∈ Carriers (request d) ->
  attempt_ok (handshakeKey e) (psk e) (nextDial e) x id a.
Proof.
  intros [] Hr [Hp Hcs] Hc. destruct la_state0 as [Hst Hse]. split; rewrite ?Hst, ?Hse, ?la_role0; try done.
  - by rewrite la_dial0.
  - intros ps Hps. rewrite la_packets0 in Hps. injection Hps as <-. rewrite la_hello0. cbn [hello].
    destruct la_encoded0 as (nonce & ts & Hlid & Hln & Hts & He).
    refine (encode_carries _ _ _ _ _ He _ _ _ _); [|done..|].
    + apply helloMessage_wf; [done..|]. by eapply contractTLVs_wf.
    + split; [done|]. rewrite Forall_forall in Hcs. by apply (Hcs c).
Qed.

Lemma startAttempt_ok now d c s err s' :
  startAttempt now d c s = (err, s') -> dials (eng s) !! dial_id d = Some d ->
  running d < Concurrent (request d) -> c ∈ Carriers (request d) -> good None s s'.
Proof.
  intros Hst Hd Hr Hc. apply startAttempt_cases in Hst; [|done]. destruct err as [e|].
  - destruct Hst as [E|(a & s1 & E & ->)]; [by apply good_eng|].
    apply good_trans with (s2 := s1); [by apply good_eng|apply good_disposeAttempt].
  - destruct Hst as (id & a & p & s1 & Hl & Hfree & Hadm & E & ->).
    apply good_trans with (s2 := s1); [|apply good_send; by left].
    apply good_intro; [by rewrite E|]. intros W. rewrite E. pose proof (wf_dials _ _ W _ _ Hd) as Hdok. cbn in Hdok.
    apply wf_start; try done.
    + by rewrite (la_dial _ _ _ _ _ _ _ Hl).
    + unfold live. rewrite (proj1 (la_state _ _ _ _ _ _ _ Hl)). done.
    + eapply launched_ok; [done|apply Hdok..|done].
Qed.

(** ** The filling loop *)

Lemma good_advanceDial id s : good None s (advanceDial id s).
Proof.
  unfold advanceDial. destruct (dials (eng s) !! id) as [d|] eqn:Hd; [|apply good_refl].
  apply good_intro; [by split|]. intros W. pose proof (wf_dials _ _ W _ _ Hd) as Hdok. cbn in Hdok.
  cbn. rewrite (dok_id _ _ _ _ _ Hdok). apply wf_dialmap; [|rewrite map_size_insert_Some by done; apply W|done].
  apply map_Forall_insert_2; [|apply W]. destruct Hdok. by split.
Qed.

Lemma good_fillLoop fuel now id : forall s err s',
  fillLoop fuel now id s = (err, s') -> good None s s'.
Proof.
  induction fuel as [|fuel IH]; intros s err s' Hf; cbn [fillLoop] in Hf; [injection Hf as <- <-; apply good_refl|].
  destruct (dials (eng s) !! id) as [d|] eqn:Hd; [|injection Hf as <- <-; apply good_refl].
  destruct (Carriers (request d) !! next d) as [c|] eqn:Hc; [|injection Hf as <- <-; apply good_refl].
  destruct (Concurrent (request d) <=? running d) eqn:Hr; [injection Hf as <- <-; apply good_refl|].
  intros W. assert (Hid : dial_id d = id) by (by apply (wf_dials _ _ W)).
  assert (Hg : forall err s1, startAttempt now d c s = (err, s1) -> good None s s1).
  { intros err1 s1 Hs. apply (startAttempt_ok now d c s err1); [done|by rewrite Hid|lia|].
    by eapply list_elem_of_lookup_2. }
  destruct (startAttempt now d c s) as [[e|] s1] eqn:Hs.
  - injection Hf as <- <-. by apply (Hg _ _ eq_refl).
  - apply IH in Hf. revert W. eapply good_trans; [by eapply Hg|].
    eapply good_trans; [apply good_advanceDial|done].
Qed.

Lemma good_fillDial now id s err s' : fillDial now id s = (err, s') -> good None s s'.
Proof.
  unfold fillDial. destruct (dials (eng s) !! id) as [d|]; [|intros [= <- <-]; apply good_refl].
  destruct (match Deadline (request d) with Some _ => _ | None => _ end); [intros [= <- <-]; apply good_refl|].
  apply good_fillLoop.
Qed.

(** A dial without attempts is dropped, and its preparation retired. *)
Definition dropped (id : Z) (p : option Ptr) (s : St) : St :=
  match p with Some p => retire p None (dropDial id s) | None => dropDial id s end.

Lemma good_dropped x id p s : good x s (dropped id p s).
Proof.
  unfold dropped. destruct p; [|apply good_dropDial].
  eapply good_trans; [apply good_dropDial|apply good_retire].
Qed.

Lemma good_fillOne now s id : good None s (fillOne now s id).
Proof.
  unfold fillOne. destruct (dials (eng s) !! id) as [d|]; [|apply good_refl].
  destruct (fillDial now id s) as [err s1] eqn:E. apply good_fillDial in E.
  eapply good_trans; [exact E|]. destruct (runningOf id s1 =? 0); [|apply good_refl].
  eapply good_trans; [apply (good_dropped None id (dial_prepared d))|]. by destruct err; apply good_eng.
Qed.

Lemma good_fillDials now s : good None s (fillDials now s).
Proof. apply good_foldl. intros; apply good_fillOne. Qed.

(** Entering a new dial and filling it. *)
Lemma launch_ok now d s r s' :
  launch now d s = (r, s') ->
  dials (eng s) !! dial_id d = None -> 1 <= dial_id d <= nextDial (eng s) -> request_wf (request d) ->
  running d = 0 -> 1 <= Concurrent (request d) ->
  (dial_prepared d <> None -> Concurrent (request d) = 1) ->
  (forall k a, sessions (eng s) !! k = Some a -> setup_DialID (setup a) <> dial_id d) ->
  Z.of_nat (size (dials (eng s))) < MaxPending ->
  good None s s'.
Proof.
  intros Hl Hfree Hid Hreq Hr Hc Hp Hnone Hsize. unfold launch in Hl.
  assert (G : good None s (putDial d s)).
  { apply good_intro; [by split|]. intros W. cbn. apply wf_dialmap; [| |done].
    - apply map_Forall_insert_2; [|apply W]. split; try done; [|lia]. intros _. rewrite Hr. symmetry.
      apply msum_zero. intros k a Ha. unfold mine. rewrite decide_False; [done|]. by eapply Hnone.
    - rewrite map_size_insert_None by done. lia. }
  destruct (fillDial now (dial_id d) (putDial d s)) as [err s1] eqn:E. apply good_fillDial in E.
  eapply good_trans; [exact G|]. eapply good_trans; [exact E|].
  destruct (runningOf (dial_id d) s1 =? 0); injection Hl as <- <-; [|apply good_refl].
  apply (good_dropped None (dial_id d) (dial_prepared d)).
Qed.
End dialling.
