(* ===== verification/HandshakeReceive.v ===== *)
(** * Receiving keeps the engine's invariant

    The handlers of the five messages, of CLOSE and of an expired attempt.  An accepted
    HELLO or CHALLENGE leaves an attempt whose packets determine its transcript, keys
    and contract ([proved]). *)

From S2P Require Import Prelude Sha256 Handshake HandshakeInv HandshakeSteps HandshakeDial.
From S2P Require WireV2 WireV2Handshake WireV2Bundle Transcript Negotiation NegotiationProps Credit.
Import WireV2 (SessionID, Nonce, Digest, Key, zero16, zero32).

(** ** Opened packets *)

Lemma opened_header envelope k e :
  WireV2.Authenticate envelope k = Ok e -> WireV2.envelope e = envelope.
Proof.
  unfold WireV2.Authenticate, WireV2.authenticate. destruct (decide _); [done|]. destruct (_ <? _); [done|].
  destruct (fst (WireV2.verifyEnvelope _ _ _)); [|done]. by intros [= <-].
Qed.

Lemma decoded_header e m :
  WireV2Handshake.DecodeHandshake e = Ok m -> WireV2.Handshake_Header m = WireV2.header (WireV2.envelope e).
Proof.
  unfold WireV2Handshake.DecodeHandshake. intros Hd. go_inv Hd. by subst m.
Qed.

(** The proof of an attempt depends on its HELLO and CHALLENGE only. *)
Lemma prepareTranscript_again k secret ps t keys ps' :
  prepareTranscript k secret ps = Ok (t, keys, ps') ->
  prepareTranscript k secret ps' = Ok (t, keys, ps') /\ hello ps' = hello ps /\ challenge ps' = challenge ps.
Proof.
  unfold prepareTranscript. intros Hp.
  destruct (authenticate (hello ps) k) as [h|] eqn:Hh; [|done]. cbn [result_bind] in Hp.
  destruct (authenticate (challenge ps) k) as [c|] eqn:Hc; [|done]. cbn [result_bind] in Hp.
  go_inv Hp. subst. cbn [hello challenge]. rewrite Hh, Hc. cbn [result_bind].
  by repeat match goal with E : _ = Ok _ |- _ => rewrite E; clear E; cbn [result_bind] end.
Qed.

Section receiving.
Context `{Adapter}.
Implicit Types s : St.

Definition opens (packet : bytes) (k : Key) (id : SessionID) (e : WireV2.AuthenticatedEnvelope) : Prop :=
  WireV2.open packet k = Ok e /\ WireV2.Header_SessionID (WireV2.header (WireV2.envelope e)) = id.

(** A handshake decoded from an opened packet. *)
Lemma opens_decoded packet k id e m :
  opens packet k id e -> WireV2Handshake.DecodeHandshake e = Ok m ->
  result_bind WireV2Handshake.DecodeHandshake (WireV2.open packet k) = Ok m /\
  WireV2.Header_SessionID (WireV2.Handshake_Header m) = id /\ WireV2Handshake.Handshake_wf m.
Proof.
  intros [Ho Hid] Hd. split_and!.
  - by rewrite Ho.
  - by rewrite (decoded_header _ _ Hd).
  - by apply (Transcript.DecodeHandshake_open _ _ _ _ Ho Hd).
Qed.

Lemma makeChallenge_spec m e sel s r s' :
  makeChallenge m e sel s = (r, s') -> eng s' = eng s /\
  forall c, r = Ok c -> WireV2Handshake.Handshake_wf m -> WireV2Handshake.Handshake_wf c /\
    WireV2.Header_SessionID (WireV2.Handshake_Header c) = WireV2.Header_SessionID (WireV2.Handshake_Header m) /\
    WireV2.Header_Type (WireV2.Handshake_Header c) = WireV2.TypeChallenge /\
    Negotiation.contractTLVs sel = Ok (WireV2.TLVs c).
Proof.
  unfold makeChallenge. intros Hm.
  destruct (randomBlock s) as [[nonce|] s1] eqn:E1; apply randomBlock_spec in E1 as [E1 Hn];
    [|by injection Hm as <- <-].
  destruct (randomBlock s1) as [[token|] s2] eqn:E2; apply randomBlock_spec in E2 as [E2 Ht];
    [|injection Hm as <- <-; split; [congruence|done]].
  injection Hm as <- <-. split; [congruence|]. intros c Hc Hwf.
  destruct (wire (Transcript.HandshakeDigest e)) as [dg|] eqn:Hd; [|done]. cbn [result_bind] in Hc.
  destruct (Negotiation.contractTLVs sel) as [ts|] eqn:Hts; [|done]. cbn in Hc. injection Hc as <-.
  split_and!; try done. destruct Hwf as [[Hty Hsid] Hc _ _ _ _]. split; try done.
  - cbn. by apply Hn.
  - unfold wire, Transcript.HandshakeDigest in Hd. cbn.
    destruct (WireV2Handshake.DecodeHandshake e); [|done]. injection Hd as <-. apply length_sha256.
  - cbn. by apply Ht.
  - by eapply contractTLVs_wf.
Qed.

(** ** HELLO *)

Lemma good_acceptHello now b packet e lp id s :
  opens packet (handshakeKey (eng s)) id e -> Listener (config (eng s)) = Some lp ->
  sessions (eng s) !! id = None -> good None s (snd (acceptHello now b packet e lp s)).
Proof.
  intros Ho Hl Hfree. unfold acceptHello.
  destruct (WireV2Handshake.DecodeHandshake e) as [m|] eqn:Hm; cbn [wire]; [|apply good_reject].
  destruct (Negotiation.DecodeHello m) as [adv|] eqn:Hadv; cbn [negotiation]; [|apply good_reject].
  destruct (Negotiation.Select adv _) as [[sel contract]|] eqn:Hsel; cbn [negotiation]; [|apply good_reject].
  destruct (reserve lp s) as [[r|] s1] eqn:Hr; apply reserve_spec in Hr as [E1 Hroom];
    [|eapply good_trans; [by apply good_eng|apply good_reject]].
  specialize (Hroom r eq_refl).
  pose proof (opens_decoded _ _ _ _ _ Ho Hm) as (Hdec & Hid & Hmwf). rewrite Hid.
  destruct (makeChallenge m e sel s1) as [[c|] s2] eqn:Hc; apply makeChallenge_spec in Hc as [E2 Hcwf];
    rewrite E1 in E2; cbn [snd]; [|eapply good_trans; [by apply good_eng|apply good_disposeAttempt]].
  destruct (Hcwf c eq_refl Hmwf) as (Hcw & Hcid & Hcty & Hcts). rewrite E2. clear Hcwf.
  destruct (encode c _) as [encoded|] eqn:He; cbn [result_bind];
    [|eapply good_trans; [by apply good_eng|apply good_disposeAttempt]].
  destruct (prepareTranscript _ _ _) as [[[t keys] ps]|] eqn:Hp;
    [|eapply good_trans; [by apply good_eng|apply good_disposeAttempt]].
  apply prepareTranscript_again in Hp as (Hp & Hph & Hpc). cbn [hello challenge] in Hph, Hpc.
  cbn [snd]. set (a := with_setup _ _).
  set (s3 := on_eng _ s2). apply good_trans with (s2 := s3); [|by apply good_send; right].
  apply good_intro; [by unfold s3; cbn; rewrite E2|]. intros W. unfold s3. cbn [eng on_eng]. rewrite E2.
  pose proof (wf_listener _ _ W _ Hl) as Hlp.
  pose proof (NegotiationProps.Select_agreed adv (pol_Profile lp) sel contract Hlp
    (NegotiationProps.decoded_path _ _ _ Hadv) Hsel) as [Hacc Hselwf].
  apply wf_add; try done.
  - split; try done.
    + by intros [?|?].
    + intros qs Hqs. injection Hqs as <-. rewrite Hph. by exists m.
    + intros qs _ Hqs. injection Hqs as <-. exists t, sel. split_and!; try done.
      rewrite Hpc. cbn. rewrite <- Hid, <- Hcid. by apply encode_carries.
  - intros d Hd. pose proof (dok_range _ _ _ _ _ (wf_dials _ _ W _ _ Hd)). cbn in *. lia.
  - assert (msum unpaid (sessions (eng s)) <= pending (eng s)).
    { rewrite (wf_pending _ _ W). apply msum_le. intros k b' _. apply unpaid_range. }
    change (unpaid a) with 1. lia.
Qed.

Lemma good_receiveHello now b packet e id lp s :
  opens packet (handshakeKey (eng s)) id e -> Listener (config (eng s)) = Some lp ->
  good None s (snd (receiveHello now b packet e id lp s)).
Proof.
  intros Ho Hl. unfold receiveHello. destruct (negb _); [apply good_refl|].
  destruct (sessions (eng s) !! id) as [a|] eqn:Ha; [|by eapply good_acceptHello].
  destruct (_ || _) eqn:Eg; [apply good_refl|].
  destruct (now <? deadline a).
  - destruct (decide _); cbn [snd]; [|apply good_reject]. apply good_send. by right.
  - intros W. pose proof (good_failAttempt None id ErrExpired now true s W) as [F _]. revert W.
    eapply good_trans; [apply good_failAttempt|].
    eapply good_acceptHello; [by rewrite (fr_key _ _ F)|by rewrite (fr_config _ _ F)|].
    rewrite failAttempt_sessions. apply lookup_delete_eq.
Qed.

(** ** CHALLENGE and REJECT *)

(** The attempt of an accepted CHALLENGE. *)
Definition challenged (a : attempt) (c : Negotiation.Contract) (keys : DirectionalKeys) (t : Transcript)
    (ps : packets) : attempt :=
  with_state waitReady (with_setup (with_keys (Some c) keys (setup a)) (with_proof (Some t) (Some ps) a)).

Lemma challenged_ok k secret n x id a packet e m sel c t keys ps :
  attempt_ok k secret n x id a -> state a = waitChallenge -> opens packet k id e ->
  WireV2Handshake.DecodeHandshake e = Ok m -> Negotiation.DecodeChallenge m = Ok sel ->
  Negotiation.Accept (att_hello a) sel = Ok c ->
  prepareTranscript k secret
    {| hello := packetOf a hello; challenge := packet; finish := blank; ready := blank |} = Ok (t, keys, ps) ->
  attempt_ok k secret n x id (challenged a c keys t ps).
Proof.
  intros Ha Hs Ho Hm Hsel Hacc Hp. apply prepareTranscript_again in Hp as (Hp & Hph & Hpc).
  pose proof (opens_decoded _ _ _ _ _ Ho Hm) as (Hdec & Hid & _). pose proof (ok_id _ _ _ _ _ _ Ha) as Hida.
  assert (Hr : setup_Role (setup a) = Negotiation.Initiator) by (apply Ha; by left).
  assert (Hps : is_Some (att_packets a)) by (apply Ha; by rewrite Hs).
  destruct Hps as [ps0 Hps]. pose proof (ok_hello _ _ _ _ _ _ Ha ps0 Hps) as Hhello.
  assert (Hpa : packetOf a hello = hello ps0) by (unfold packetOf; by rewrite Hps).
  destruct Ha. split; try done; cbn [challenged with_state with_setup with_proof with_keys].
  - by intros [?|?].
  - intros qs Hqs. injection Hqs as <-. rewrite Hph. cbn [hello]. by rewrite Hpa.
  - intros qs _ Hqs. injection Hqs as <-. exists t, sel. split_and!; try done.
    cbn. rewrite Hpc, Hida. by exists m.
Qed.

Lemma good_receiveChallenge now id packet e s :
  opens packet (handshakeKey (eng s)) id e -> good None s (snd (receiveChallenge now id packet e s)).
Proof.
  intros Ho. unfold receiveChallenge. destruct (sessions (eng s) !! id) as [a|] eqn:Ha; [|apply good_refl].
  destruct (state a) eqn:Hs; try apply good_refl.
  - destruct (WireV2Handshake.DecodeHandshake e) as [m|] eqn:Hm; cbn [wire result_bind]; [|apply good_refl].
    destruct (Negotiation.DecodeChallenge m) as [sel|] eqn:Hsel; cbn [negotiation result_bind]; [|apply good_refl].
    destruct (Negotiation.Accept _ _) as [c|] eqn:Hacc; cbn [negotiation]; [|apply good_refl].
    destruct (prepareTranscript _ _ _) as [[[t keys] ps]|] eqn:Hp; [|apply good_refl]. cbn [snd].
    apply good_trans with (s2 := put id (challenged a c keys t ps) s).
    + apply good_put with (a := a); try done.
      * unfold live. by rewrite !decide_False by (rewrite ?Hs; done).
      * intros Hok. by eapply challenged_ok.
    + apply good_send. intros b. cbn. rewrite lookup_insert_eq. intros [= <-] [?|?]; done.
  - cbn [snd]. destruct (decide _); [|apply good_refl]. apply good_send. intros b Hb.
    rewrite Ha in Hb. injection Hb as <-. rewrite Hs. by intros [?|?].
Qed.

Lemma good_receiveReject now id e s : good None s (snd (receiveReject now id e s)).
Proof.
  unfold receiveReject. destruct (sessions (eng s) !! id) as [a|]; [|apply good_refl].
  destruct (decide _); [|apply good_refl]. destruct (authenticate _ _) as [h|]; [|apply good_refl].
  destruct (Transcript.ValidateReject _ _); [apply good_refl|apply good_failAttempt].
Qed.

(** ** FINISH and READY *)

Lemma good_receiveFinish now id packet e s : good None s (snd (receiveFinish now id packet e s)).
Proof.
  unfold receiveFinish. destruct (sessions (eng s) !! id) as [a|] eqn:Ha; [|apply good_refl].
  destruct (confirmed _ _ _ _); [apply good_refl|]. destruct (state a) eqn:Hs; try apply good_refl.
  - destruct (install id s) as [[err|] s1] eqn:Hi; cbn [snd].
    + pose proof (install_ok _ _ _ _ Hi a Ha ltac:(by left)) as G.
      eapply good_trans; [exact G|apply good_failAttempt].
    + pose proof (install_ok _ _ _ _ Hi a Ha ltac:(by left)) as G.
      destruct (install_session _ _ _ _ Hi Ha) as (d & dd & Hm & Hd & _).
      set (b := with_state established _) in Hm.
      apply good_trans with (s2 := s1).
      * intros W. destruct (G W) as [F W']. split; [done|].
        assert (Hr : setup_Role (setup a) = Negotiation.Responder) by (by apply (wf_att _ _ W _ _ Ha)).
        pose proof (ok_dial _ _ _ _ _ _ (wf_att _ _ W _ _ Ha)) as H0. rewrite Hr in H0.
        eapply wf_settle; [| |exact W']; rewrite ?Hd, ?Hm.
        -- destruct (dials (eng s) !! setup_DialID (setup a)) as [d0|] eqn:E; [|done].
           pose proof (dok_range _ _ _ _ _ (wf_dials _ _ W _ _ E)). lia.
        -- rewrite lookup_insert_eq. intros b' [= <-] _ Hn. by destruct Hn.
      * apply good_send. rewrite Hm, lookup_insert_eq. intros b' [= <-] [?|?]; done.
  - cbn [snd]. apply good_send. rewrite Ha. intros b [= <-]. rewrite Hs. by intros [?|?].
Qed.

Lemma good_cancelOthers x now d w l s : good x s (cancelOthers now d w l s).
Proof.
  apply good_foldl. intros s1 id. destruct (sessions (eng s1) !! id); [|apply good_refl].
  destruct (_ && _); [apply good_failAttempt|apply good_refl].
Qed.

(** The winner and the absent dials survive the cancelling of the others. *)
Lemma cancelOthers_keeps x now d w l : forall s,
  Wf x (eng s) ->
  sessions (eng (cancelOthers now d w l s)) !! w = sessions (eng s) !! w /\
  (dials (eng s) !! d = None -> dials (eng (cancelOthers now d w l s)) !! d = None).
Proof.
  unfold cancelOthers. induction l as [|id l IH]; intros s W; [done|]. cbn [foldl].
  destruct (sessions (eng s) !! id) as [o|]; [|by apply IH].
  destruct (_ && _) eqn:E; [|by apply IH]. bools.
  destruct (IH (failAttempt id ErrCancelled now true s)) as [Hw Hd].
  { by apply good_failAttempt. }
  split; [|intros Hn; by apply Hd, (failAttempt_dials x)].
  rewrite Hw, failAttempt_sessions. apply lookup_delete_ne. congruence.
Qed.

Lemma good_receiveReady now id packet e s : good None s (snd (receiveReady now id packet e s)).
Proof.
  unfold receiveReady. destruct (sessions (eng s) !! id) as [a|] eqn:Ha; [|apply good_refl].
  destruct (negb _) eqn:Hs; [apply good_refl|]. bools.
  destruct (confirmed _ _ _ _); [apply good_refl|].
  destruct (install id s) as [[err|] s1] eqn:Hi; cbn [snd];
    pose proof (install_ok _ _ _ _ Hi a Ha ltac:(by right)) as G.
  { eapply good_trans; [exact G|apply good_failAttempt]. }
  destruct (install_session _ _ _ _ Hi Ha) as (d & dd & Hm & Hd & _).
  set (b := with_state established _) in Hm. set (k := setup_DialID (setup a)) in *.
  set (s2 := match dials (eng s1) !! k with Some _ => _ | None => s1 end).
  intros W. destruct (G W) as [F1 W1].
  assert (W2 : frame (eng s1) (eng s2) /\ Wf (Some (id, k)) (eng s2) /\
    sessions (eng s2) !! id = Some b /\ dials (eng s2) !! k = None).
  { unfold s2. destruct (dials (eng s1) !! k) as [d0|] eqn:E0.
    - cbv zeta. destruct (good_dropDial (Some (id, k)) k s1 W1) as [Fd Wd].
      destruct (good_cancelOthers _ now k id (orderedIDs (eng (dropDial k s1))) _ Wd) as [Fc Wc].
      destruct (cancelOthers_keeps _ now k id (orderedIDs (eng (dropDial k s1))) _ Wd) as [Hw Hk].
      split_and!; [by eapply frame_trans|done| |apply Hk; apply lookup_delete_eq].
      rewrite Hw. cbn. by rewrite Hm, lookup_insert_eq.
    - split_and!; [apply frame_refl|done|by rewrite Hm, lookup_insert_eq|done]. }
  destruct W2 as (F2 & W2 & Hb & Hk).
  assert (Hest : forall b', sessions (eng s2) !! id = Some b' -> state b' = established).
  { intros b' Hb'. rewrite Hb in Hb'. by injection Hb' as <-. }
  destruct (good_releasePackets _ id s2 Hest W2) as [F3 W3].
  split; [by do 2 (eapply frame_trans; [eassumption|])|].
  revert W3. apply wf_settle; unfold releasePackets; rewrite Hb; cbn; [done|].
  rewrite lookup_insert_eq. by intros b' [= <-].
Qed.

(** ** CLOSE, and the whole of [Receive] *)

Lemma good_receiveClose now id e s : good None s (snd (receiveClose now id e s)).
Proof.
  unfold receiveClose. destruct (sessions (eng s) !! id) as [a|]; [|apply good_refl].
  destruct (wire _) as [m|]; [|apply good_refl]. cbv zeta. do 3 (destruct (_ : bool); [apply good_refl|]).
  eapply good_trans; [apply good_failAttempt|apply good_fillDials].
Qed.

Lemma good_dispatch now id kind packet e s :
  (kind = WireV2.TypeChallenge -> opens packet (handshakeKey (eng s)) id e) ->
  good None s (snd (dispatch now id kind packet e s)).
Proof.
  intros Ho. unfold dispatch. destruct (kind =? WireV2.TypeChallenge) eqn:E; [apply good_receiveChallenge, Ho; lia|].
  destruct (kind =? WireV2.TypeReject); [apply good_receiveReject|].
  destruct (kind =? WireV2.TypeFinish); [apply good_receiveFinish|].
  destruct (kind =? WireV2.TypeReady); [apply good_receiveReady|apply good_refl].
Qed.

Lemma good_receive now b packet s : good None s (snd (receive now b packet s)).
Proof.
  unfold receive. destruct (negb _); [apply good_refl|].
  destruct (WireV2.ParseEnvelope packet) as [envelope|] eqn:Hp; cbn [wire]; [|apply good_refl].
  set (id := WireV2.Header_SessionID _). set (kind := WireV2.Header_Type _).
  assert (Ho : forall k e, WireV2.Authenticate envelope k = Ok e -> opens packet k id e).
  { intros k e He. split; [unfold WireV2.open; by rewrite Hp|]. by rewrite (opened_header _ _ _ He). }
  cbv zeta. destruct (kind =? WireV2.TypeHello).
  - destruct (Listener _) as [lp|] eqn:Hl; [|apply good_refl].
    destruct (WireV2.Authenticate envelope _) as [e|] eqn:He; cbn [wire]; [|apply good_refl].
    apply good_receiveHello; auto.
  - destruct (sessions (eng s) !! id) as [a|] eqn:Ha; [|apply good_refl]. destruct (negb _); [apply good_refl|].
    destruct (expectedKey (eng s) a kind) as [key|] eqn:Hk; [|apply good_refl].
    destruct (WireV2.Authenticate envelope key) as [e|] eqn:He; cbn [wire]; [|apply good_refl].
    destruct (kind =? WireV2.TypeClose); [apply good_receiveClose|].
    destruct (now <? deadline a).
    + pose proof (good_dispatch now id kind packet e s) as G.
      destruct (dispatch now id kind packet e s) as [err s1]. cbn [snd] in *.
      eapply good_trans; [apply G|apply good_fillDials].
      intros E. apply Ho. revert Hk. unfold expectedKey. cbv zeta. rewrite E, Z.eqb_refl. cbn [orb].
      destruct (negb _ || bool_decide (state a = established)); [done|]. by intros [= <-].
    + destruct (decide _) as [Hs|]; cbn [snd].
      * apply good_releasePackets. rewrite Ha. by intros a' [= <-].
      * eapply good_trans; [apply good_failAttempt|apply good_fillDials].
Qed.
End receiving.
