(* ===== verification/HandshakeRun.v ===== *)
(** * Every run of the handshake engine

    [call] is one call of an exported method in any outside world, [reach] the engines
    that calls make from a new one; [engine_reach_inv] is what holds of all of them. *)

From stdpp Require Import sorting.
From S2P Require Import Prelude Sha256 Handshake HandshakeInv HandshakeSteps HandshakeDial HandshakeReceive.
From S2P Require WireV2 WireV2Handshake WireV2Bundle Transcript Negotiation NegotiationProps Credit.
Import WireV2 (SessionID, Nonce, Digest, Key, zero16, zero32).

Section run.
Context `{Adapter}.
Implicit Types s : St.
#[local] Abbreviation World := (Outside Env).

(** ** Time, cancellation *)

Lemma good_advanceOne now s id : good None s (advanceOne now s id).
Proof.
  unfold advanceOne. destruct (sessions (eng s) !! id) as [a|] eqn:Ha; [|apply good_refl].
  destruct (Credit.session_Closed _); [apply good_failAttempt|].
  destruct (negb _).
  { destruct (decide _); [|apply good_failAttempt]. apply good_releasePackets.
    rewrite Ha. by intros b [= <-]. }
  destruct (att_packets a) as [ps|]; [|apply good_refl].
  destruct (state a) eqn:Hs; [| | |destruct (setup_Role _); try apply good_refl];
    (apply good_send; rewrite Ha; intros b [= <-]; rewrite Hs); auto; by intros [?|?].
Qed.

Lemma good_advance now s : good None s (advance now s).
Proof.
  unfold advance. cbv zeta. set (s1 := on_eng _ s).
  apply good_trans with (s2 := s1).
  { apply good_intro; [by split|]. intros []. split; try done. cbn. unfold expireRejections. by rewrite length_fmap. }
  eapply good_trans; [|apply good_fillDials]. apply good_foldl. intros; apply good_advanceOne.
Qed.

Lemma good_cancelDial now id s : good None s (cancelDial now id s).
Proof.
  unfold cancelDial. destruct (dials (eng s) !! id); [|apply good_refl].
  eapply good_trans; [apply good_dropDial|]. apply good_foldl. intros s1 sid.
  destruct (sessions (eng s1) !! sid); [|apply good_refl].
  destruct (_ && _); [apply good_failAttempt|apply good_refl].
Qed.

(** ** Dial identifiers *)

Lemma nextDialID_ok s r s' :
  nextDialID s = (r, s') -> good None s s' /\
  forall id, r = Ok id -> Wf None (eng s) ->
    id = nextDial (eng s') /\ 1 <= id /\ dials (eng s') = dials (eng s) /\ dials (eng s') !! id = None /\
    forall k a, sessions (eng s') !! k = Some a -> setup_DialID (setup a) <> id.
Proof.
  unfold nextDialID. destruct (nextDial (eng s) =? maxUint64) eqn:E; intros [= <- <-].
  { split; [apply good_refl|done]. }
  split.
  - intros W. pose proof (wf_next _ _ W). split; [split; try done; cbn; lia|].
    destruct W. split; try done; cbn.
    + eapply map_Forall_impl; [done|]. intros k a. apply attempt_ok_mono. lia.
    + eapply map_Forall_impl; [done|]. intros k d. apply dial_ok_mono. lia.
    + lia.
  - intros id [= <-] W. pose proof (wf_next _ _ W). cbn. split_and!; [done|lia|done| |].
    + destruct (dials (eng s) !! _) as [d|] eqn:Hd; [|done].
      pose proof (dok_range _ _ _ _ _ (wf_dials _ _ W _ _ Hd)). lia.
    + intros k a Ha. pose proof (ok_dial _ _ _ _ _ _ (wf_att _ _ W _ _ Ha)) as Hd.
      destruct (setup_Role _); lia.
Qed.

(** A dial entered under the next identifier. *)
Lemma dialled_ok now d s r s' id s1 s2 :
  nextDialID s = (Ok id, s1) -> good None s1 s2 ->
  dials (eng s2) = dials (eng s1) /\ sessions (eng s2) = sessions (eng s1) /\ nextDial (eng s2) = nextDial (eng s1) ->
  launch now d s2 = (r, s') -> dial_id d = id -> request_wf (request d) -> running d = 0 ->
  1 <= Concurrent (request d) -> (dial_prepared d <> None -> Concurrent (request d) = 1) ->
  Z.of_nat (size (dials (eng s))) < MaxPending -> good None s s'.
Proof.
  intros Hn G2 (Ed & Es & En) Hl Hid Hreq Hr Hc Hp Hsize. apply nextDialID_ok in Hn as [G Hn]. intros W.
  destruct (Hn id eq_refl W) as (Hid1 & Hpos & Hd & Hfree & Hnone). revert W.
  eapply good_trans; [exact G|]. eapply good_trans; [exact G2|].
  apply (launch_ok _ _ _ _ _ Hl); rewrite ?Ed, ?Es, ?En, ?Hid; try done.
  - lia.
  - by rewrite Hd.
Qed.

(** ** Preparations *)

Lemma good_takePreparation p st s :
  (forall pol, prep_policy st = Some pol -> exists st', prepareds (eng s) !! p = Some st' /\
    prep_policy st' = Some pol) ->
  good None s (takePreparation p st s).
Proof.
  intros Hpol. apply good_intro; [by split|]. intros W. apply wf_prepareds; [| | |done].
  - apply map_Forall_insert_2; [|apply W]. intros pol Hp. destruct (Hpol pol Hp) as (st' & Hs & Hp').
    by apply (wf_prep _ _ W p st').
  - assert (preparations (eng s) ∖ {[p]} ⊆ preparations (eng s)) as Hsub by set_solver.
    apply subseteq_size in Hsub. lia.
  - rewrite dom_insert. pose proof (wf_handles _ _ W). set_solver.
Qed.

(** ** Methods *)

(** What holds of an engine between two methods. *)
Record engine_inv (secret : bytes) (e : Engine) : Prop := {
  ei_wf : Wf None e;
  ei_idle : busy e = false;
  ei_key : eng_closed e = false ->
    psk e = secret /\ Transcript.DeriveHandshakeKey secret = Ok (handshakeKey e);
  ei_closed : eng_closed e = true ->
    sessions e = ∅ /\ dials e = ∅ /\ preparations e = ∅ /\ psk e = [] /\ handshakeKey e = zero32 }.

Lemma wf_clock x now b e : Wf x e -> Wf x (with_clock now b e).
Proof. intros []. by split. Qed.
Lemma wf_leave x e : Wf x e -> Wf x (leave e).
Proof. intros []. by split. Qed.

(** A method whose body keeps the invariant, and does nothing to a closed engine. *)
Lemma method_inv {A} secret now allow (zero : HandshakeError -> A) body e o a r e' o' :
  method now allow zero body e o = (a, r, e', o') -> engine_inv secret e ->
  (forall s, good None s (snd (body s))) ->
  (allow = true -> forall s, preparations (eng s) = ∅ -> eng (snd (body s)) = eng s) ->
  engine_inv secret e'.
Proof.
  intros Hm [W Hi Hk Hc] Hb Hclosed. unfold method, enter in Hm. rewrite Hi in Hm.
  destruct (eng_closed e && negb allow) eqn:E1; [by injection Hm as _ _ <- _|].
  destruct (hasTime e && _); [by injection Hm as _ _ <- _|].
  set (s := {| eng := with_clock now true e; out := o; res := noResult |}) in *.
  destruct (Hb s (wf_clock _ _ _ _ W)) as [F W'].
  destruct (body s) as [a' s'] eqn:E. injection Hm as <- _ <- _. cbn [snd] in *.
  pose proof (fr_closed _ _ F) as Ec. cbn in Ec. split.
  - by apply wf_leave.
  - done.
  - cbn. rewrite Ec, (fr_psk _ _ F), (fr_key _ _ F). auto.
  - cbn. rewrite Ec. intros E2. destruct (Hc E2) as (Hs & Hd & Hp & Hk2). rewrite E2 in E1. cbn in E1.
    destruct allow; [|done]. pose proof (Hclosed eq_refl s Hp) as Heq. rewrite E in Heq. cbn in Heq.
    rewrite Heq. done.
Qed.

Lemma BeginDial_inv secret now r e o a res e' o' :
  BeginDial now r e o = (a, res, e', o') -> request_wf r -> engine_inv secret e -> engine_inv secret e'.
Proof.
  intros Hm Hr I. apply (method_inv secret _ _ _ _ _ _ _ _ _ _ Hm I); [|done]. intros s.
  destruct (validatePolicy _ _); [apply good_refl|]. destruct (negb (checkCarriers _ _)); [apply good_refl|].
  cbv zeta. set (n := if Concurrent r =? 0 then 1 else Concurrent r).
  destruct ((n <? 1) || _) eqn:En; [apply good_refl|].
  destruct (past _ _); [apply good_refl|]. destruct (negb (validCarriers _ _)); [apply good_refl|].
  destruct (MaxPending <=? _) eqn:Es; [apply good_refl|].
  destruct (nextDialID s) as [[id|err] s1] eqn:Hn.
  - destruct (launch _ _ s1) as [r1 s2] eqn:Hl. bools.
    apply (dialled_ok now _ s _ _ _ _ s1 Hn (good_refl _ _) ltac:(done) Hl); try done.
    + destruct Hr. by split.
    + cbn. lia.
    + lia.
  - apply nextDialID_ok in Hn as [G _]. exact G.
Qed.

Lemma PrepareDial_inv secret now p d e o a res e' o' :
  PrepareDial now p d e o = (a, res, e', o') -> NegotiationProps.Profile_wf (pol_Profile p) ->
  engine_inv secret e -> engine_inv secret e'.
Proof.
  intros Hm Hp I. apply (method_inv secret _ _ _ _ _ _ _ _ _ _ Hm I); [|done]. intros s.
  destruct (bool_decide _ || _); [apply good_refl|]. destruct (validatePolicy _ _); [apply good_refl|].
  destruct (reserve p s) as [[r|err] s1] eqn:Hr; apply reserve_spec in Hr as [E1 Hroom];
    [|by apply good_eng].
  specialize (Hroom r eq_refl). destruct (Credit.Reserve _ _ _) as [[l|err] h]; cbn [snd].
  2: { apply good_eng. by destruct (rsv_retirement r). }
  set (s2 := match rsv_retirement r with Some _ => _ | None => _ end).
  assert (E2 : eng s2 = eng s) by (unfold s2; by destruct (rsv_retirement r)).
  set (q := fresh _). set (st := {| prep_phase := _ |}).
  apply good_intro; cbn [eng on_eng]; rewrite E2; [by split|]. intros W.
  assert (Hle : msum unpaid (sessions (eng s)) <= pending (eng s)).
  { rewrite (wf_pending _ _ W). apply msum_le. intros k b _. apply unpaid_range. }
  pose proof (size_union_alt {[q]} (preparations (eng s))) as Hu. rewrite size_singleton in Hu.
  pose proof (subseteq_size (preparations (eng s) ∖ {[q]}) (preparations (eng s)) ltac:(set_solver)) as Hd.
  pose proof (wf_handles _ _ W) as Hh. destruct W. split; try done; cbn; [lia| |rewrite dom_insert; set_solver].
  apply map_Forall_insert_2; [|done]. intros pol [= <-]. done.
Qed.

Lemma BeginPreparedDial_inv secret now h cs dl e o a res e' o' :
  BeginPreparedDial now h cs dl e o = (a, res, e', o') -> Forall (fun c => in_u 16 (car_PathID c)) cs ->
  engine_inv secret e -> engine_inv secret e'.
Proof.
  intros Hm Hcs I. apply (method_inv secret _ _ _ _ _ _ _ _ _ _ Hm I); [|done]. intros s.
  destruct (waitingPreparation h (eng s)) as [[p st]|err] eqn:Hw; [|apply good_refl].
  assert (Hst : prepareds (eng s) !! p = Some st).
  { unfold waitingPreparation in Hw. destruct h as [p'|]; [|done].
    destruct (prepareds (eng s) !! p') as [st'|] eqn:E; [|done]. go_inv Hw. congruence. }
  destruct (prep_policy st) as [pol|] eqn:Hpol; [|apply good_refl].
  destruct (negb (checkCarriers _ _)); [apply good_refl|]. destruct (past _ _); [apply good_refl|].
  destruct (negb (validCarriers _ _)); [apply good_refl|].
  destruct (Credit.session_Closed _); [apply good_refl|].
  destruct (MaxPending <=? _) eqn:Es; [apply good_refl|]. cbv zeta.
  set (s1 := takePreparation p (with_phase preparationAdopted (Some pol) st) s).
  assert (G1 : good None s s1).
  { apply good_takePreparation. intros q [= <-]. by exists st. }
  intros W. pose proof (wf_prep _ _ W _ _ Hst pol Hpol) as Hprof. revert W.
  eapply good_trans; [exact G1|].
  destruct (nextDialID s1) as [[id|err] s2] eqn:Hn.
  - set (s3 := takePreparation p (with_phase preparationAdopted None st) s2).
    destruct (launch _ _ s3) as [r1 s4] eqn:Hl.
    apply (dialled_ok now _ s1 _ _ _ _ s3 Hn) in Hl; try done.
    + apply good_takePreparation. done.
    + change (dials (eng s1)) with (dials (eng s)). lia.
  - apply nextDialID_ok in Hn as [G _]. eapply good_trans; [exact G|apply good_retire].
Qed.

Lemma AbortPreparedDial_inv secret now h e o a res e' o' :
  AbortPreparedDial now h e o = (a, res, e', o') -> engine_inv secret e -> engine_inv secret e'.
Proof.
  intros Hm I. apply (method_inv secret _ _ _ _ _ _ _ _ _ _ Hm I).
  - intros s. destruct h as [p|]; [|apply good_refl].
    destruct (prepareds (eng s) !! p) as [st|] eqn:E; [|apply good_refl].
    destruct (decide _); [apply good_refl|]. do 2 (destruct (negb _); [apply good_refl|]). cbn [snd].
    eapply good_trans; [|apply good_retire]. apply good_takePreparation. intros pol Hp. by exists st.
  - intros _ s Hp. destruct h as [p|]; [|done]. destruct (prepareds (eng s) !! p) as [st|]; [|done].
    destruct (decide _); [done|]. destruct (negb (bool_decide (prep_phase st = _))); [done|]. rewrite Hp.
    by rewrite bool_decide_false by set_solver.
Qed.

(** ** Close *)

Lemma fail_all l now s :
  (forall id, is_Some (sessions (eng s) !! id) -> id ∈ l) ->
  sessions (eng (foldl (fun s id => failAttempt id ErrCancelled now true s) s l)) = ∅.
Proof.
  revert s. induction l as [|id l IH]; intros s Hl; cbn [foldl].
  - apply map_empty. intros id. apply eq_None_not_Some. intros Hid. apply Hl in Hid. by apply elem_of_nil in Hid.
  - apply IH. intros k. rewrite failAttempt_sessions, lookup_delete_is_Some. intros [Hne Hk].
    apply Hl, elem_of_cons in Hk as [->|]; done.
Qed.

Lemma fail_all_rest now l : forall s, Wf None (eng s) -> dials (eng s) = ∅ ->
  let s' := foldl (fun s id => failAttempt id ErrCancelled now true s) s l in
  Wf None (eng s') /\ dials (eng s') = ∅ /\ preparations (eng s') = preparations (eng s) /\
  eng_closed (eng s') = eng_closed (eng s).
Proof.
  induction l as [|id l IH]; intros s W Hd; [done|]. cbn [foldl].
  destruct (good_failAttempt None id ErrCancelled now true s W) as [F W1].
  destruct (IH _ W1) as (W2 & Hd2 & Hp2 & Hc2).
  - apply map_empty. intros k. apply (failAttempt_dials None); [done|by rewrite Hd].
  - split_and!; [done|done|by rewrite Hp2, failAttempt_preparations|by rewrite Hc2, (fr_closed _ _ F)].
Qed.

Definition abortOne (s : St) (p : Ptr) : St :=
  match prepareds (eng s) !! p with
  | None => s
  | Some st => retire p None (takePreparation p (with_phase preparationAborted (prep_policy st) st) s)
  end.

Lemma abort_all l : forall s, Wf None (eng s) ->
  let s' := foldl abortOne s l in
  good None s s' /\ preparations (eng s') ⊆ preparations (eng s) ∖ list_to_set l.
Proof.
  induction l as [|p l IH]; intros s W; cbn [foldl list_to_set]; [split; [apply good_refl|set_solver]|].
  assert (G : good None s (abortOne s p) /\ preparations (eng (abortOne s p)) ⊆ preparations (eng s) ∖ {[p]}).
  { unfold abortOne. destruct (prepareds (eng s) !! p) as [st|] eqn:E.
    - split.
      + eapply good_trans; [|apply good_retire]. apply good_takePreparation. intros pol Hp. by exists st.
      + by rewrite retire_preparations.
    - split; [apply good_refl|]. pose proof (wf_handles _ _ W) as Hh.
      apply not_elem_of_dom in E. set_solver. }
  destruct G as [G Hp]. destruct (G W) as [F W1]. destruct (IH _ W1) as [G2 Hp2].
  split; [by eapply good_trans|set_solver].
Qed.

Lemma orderedIDs_all e id : is_Some (sessions e !! id) -> id ∈ orderedIDs e.
Proof.
  intros Hid. unfold orderedIDs. rewrite merge_sort_Permutation.
  by apply elem_of_elements, elem_of_dom.
Qed.

Lemma wf_wiped e : sessions e = ∅ -> Wf None e -> Wf None (wiped e).
Proof. intros Hs []. split; try done. cbn. rewrite Hs. apply map_Forall_empty. Qed.

(** [Close] leaves nothing: no attempt, dial or preparation, and no key. *)
Lemma closeEngine_empty now s :
  Wf None (eng s) -> eng_closed (eng s) = false ->
  let e := eng (closeEngine now s) in
  Wf None e /\ sessions e = ∅ /\ dials e = ∅ /\ preparations e = ∅ /\ eng_closed e = true /\
  psk e = [] /\ handshakeKey e = zero32 /\ rejections e = replicate MaxRejections None.
Proof.
  intros W Hc. unfold closeEngine. rewrite Hc. cbv zeta. set (s0 := on_eng mark_closed s).
  assert (W0 : Wf None (eng s0)) by (destruct W; by split).
  change (fun s p => match prepareds (eng s) !! p with None => s | Some st => _ end) with abortOne.
  set (s1 := foldl abortOne s0 _). set (s2 := on_eng (with_dials ∅) s1).
  destruct (abort_all (elements (preparations (eng s0))) s0 W0) as [G1 Hp1]. fold s1 in G1, Hp1.
  destruct (G1 W0) as [F1 W1].
  assert (W2 : Wf None (eng s2)) by (apply wf_dialmap; [apply map_Forall_empty|done|done]).
  pose proof (fail_all (orderedIDs (eng s2)) now s2 (orderedIDs_all _)) as Hs.
  destruct (fail_all_rest now (orderedIDs (eng s2)) s2 W2 eq_refl) as (W3 & Hd3 & Hp3 & Hc3).
  set (s3 := foldl _ s2 _) in *.
  assert (Hp : preparations (eng s3) = ∅).
  { rewrite Hp3. cbn. rewrite list_to_set_elements_L in Hp1. set_solver. }
  split_and!; try done.
  - by apply wf_wiped.
  - cbn. rewrite Hc3. change (eng_closed (eng s1) = true). by rewrite (fr_closed _ _ F1).
Qed.

Lemma Close_inv secret now e o a res e' o' :
  Close now e o = (a, res, e', o') -> engine_inv secret e -> engine_inv secret e'.
Proof.
  intros Hm I. pose proof I as [W Hi Hk Hc]. unfold Close, method, enter in Hm. rewrite Hi in Hm.
  cbn [negb] in Hm. rewrite andb_false_r in Hm.
  destruct (hasTime e && _); [by injection Hm as _ _ <- _|].
  set (s := {| eng := with_clock now true e; out := o; res := noResult |}) in *.
  injection Hm as _ _ <- _. destruct (eng_closed e) eqn:Ec.
  - unfold closeEngine. cbn [eng s with_clock eng_closed]. rewrite Ec. cbn [eng].
    split; cbn; try done; [by apply wf_leave, wf_clock|by rewrite Ec|auto].
  - destruct (closeEngine_empty now s (wf_clock _ _ _ _ W) Ec) as (W' & Hs & Hd & Hp & Hc' & Hk' & Hz & _).
    split; cbn; try done; [by apply wf_leave|by rewrite Hc'].
Qed.

(** ** Runs *)

Inductive call : Engine -> World -> Engine -> World -> Prop :=
| call_Receive now b packet e o err r e' o' :
    Receive now b packet e o = (err, r, e', o') -> call e o e' o'
| call_BeginDial now rq e o a r e' o' :
    request_wf rq -> BeginDial now rq e o = (a, r, e', o') -> call e o e' o'
| call_PrepareDial now p d e o a r e' o' :
    NegotiationProps.Profile_wf (pol_Profile p) -> PrepareDial now p d e o = (a, r, e', o') -> call e o e' o'
| call_BeginPreparedDial now h cs dl e o a r e' o' :
    Forall (fun c => in_u 16 (car_PathID c)) cs ->
    BeginPreparedDial now h cs dl e o = (a, r, e', o') -> call e o e' o'
| call_AbortPreparedDial now h e o err r e' o' :
    AbortPreparedDial now h e o = (err, r, e', o') -> call e o e' o'
| call_Advance now e o err r e' o' : Advance now e o = (err, r, e', o') -> call e o e' o'
| call_CancelDial now id e o err r e' o' : CancelDial now id e o = (err, r, e', o') -> call e o e' o'
| call_MarkAccepted now id e o err r e' o' : MarkAccepted now id e o = (err, r, e', o') -> call e o e' o'
| call_CloseSession now id e o err r e' o' : CloseSession now id e o = (err, r, e', o') -> call e o e' o'
| call_Close now e o err r e' o' : Close now e o = (err, r, e', o') -> call e o e' o'.

(** Between two calls the world outside may change in any way. *)
Inductive reach (secret : bytes) : Engine -> Prop :=
| reach_New c h e :
    (forall p, Listener c = Some p -> NegotiationProps.Profile_wf (pol_Profile p)) ->
    New secret c h = Ok e -> reach secret e
| reach_call e o e' o' : reach secret e -> call e o e' o' -> reach secret e'.

Lemma New_inv secret c h e :
  (forall p, Listener c = Some p -> NegotiationProps.Profile_wf (pol_Profile p)) ->
  New secret c h = Ok e -> engine_inv secret e.
Proof.
  intros Hl Hn. unfold New in Hn. go_step Hn; [done|].
  destruct (Transcript.DeriveHandshakeKey secret) as [k|] eqn:Hk; [|done]. cbn [wire result_bind] in Hn.
  destruct (match Listener c with Some _ => _ | None => None end); [done|]. injection Hn as <-.
  by split; try done.
Qed.

Lemma MarkAccepted_body id s : eng (snd (markAccepted id s)) = eng s.
Proof.
  unfold markAccepted. destruct (sessions (eng s) !! id) as [a|]; [|done]. destruct (_ || _); [done|].
  by destruct (Credit.MarkAccepted _ _).
Qed.

Lemma call_inv secret e o e' o' : call e o e' o' -> engine_inv secret e -> engine_inv secret e'.
Proof.
  destruct 1 as [now b packet e o err r e' o' Hm|now rq e o a r e' o' Hw Hm|now p d e o a r e' o' Hw Hm
    |now h cs dl e o a r e' o' Hw Hm|now h e o err r e' o' Hm|now e o err r e' o' Hm|now id e o err r e' o' Hm
    |now id e o err r e' o' Hm|now id e o err r e' o' Hm|now e o err r e' o' Hm]; intros I.
  - apply (method_inv secret _ _ _ _ _ _ _ _ _ _ Hm I); [|done]. intros s. apply good_receive.
  - by eapply BeginDial_inv.
  - by eapply PrepareDial_inv.
  - by eapply BeginPreparedDial_inv.
  - by eapply AbortPreparedDial_inv.
  - apply (method_inv secret _ _ _ _ _ _ _ _ _ _ Hm I); [|done]. intros s. apply good_advance.
  - apply (method_inv secret _ _ _ _ _ _ _ _ _ _ Hm I); [|done]. intros s. apply good_cancelDial.
  - apply (method_inv secret _ _ _ _ _ _ _ _ _ _ Hm I); [|done]. intros s. apply good_eng, MarkAccepted_body.
  - apply (method_inv secret _ _ _ _ _ _ _ _ _ _ Hm I); [|done]. intros s.
    eapply good_trans; [apply good_failAttempt|apply good_fillDials].
  - by eapply Close_inv.
Qed.

Lemma engine_reach_inv secret e : reach secret e -> engine_inv secret e.
Proof. induction 1; [by eapply New_inv|by eapply call_inv]. Qed.

(** An engine that holds an attempt is open, with its own keys. *)
Lemma reach_open secret e id a :
  reach secret e -> sessions e !! id = Some a ->
  eng_closed e = false /\ psk e = secret /\ Transcript.DeriveHandshakeKey secret = Ok (handshakeKey e).
Proof.
  intros [W Hi Hk Hc]%engine_reach_inv Ha. destruct (eng_closed e) eqn:E; [|auto].
  destruct (Hc eq_refl) as [Hs _]. by rewrite Hs, lookup_empty in Ha.
Qed.
End run.
