(* ===== verification/HandshakeTime.v ===== *)
(** * Time in the handshake engine

    What filling the dials adds ([extends], [reports]) and the schedule that [Advance]
    leaves ([timely]). *)

From stdpp Require Import sorting.
From S2P Require Import Prelude Sha256 Handshake HandshakeInv HandshakeSteps HandshakeDial HandshakeReceive HandshakeRun.
From S2P Require WireV2 WireV2Handshake WireV2Bundle Transcript Negotiation NegotiationProps Credit.
Import WireV2 (SessionID, Nonce, Digest, Key, zero16, zero32).

Section time.
Context `{Adapter}.
Implicit Types s : St.
#[local] Abbreviation World := (Outside Env).

(** ** What filling the dials reports *)

(** Sends are only added, and nothing is established. *)
Definition reports (s s' : St) : Prop :=
  Sends (res s) `prefix_of` Sends (res s') /\ Established (res s') = Established (res s).

Lemma reports_res s s' : res s' = res s -> reports s s'.
Proof. intros E. unfold reports. by rewrite E. Qed.
Lemma reports_trans s1 s2 s3 : reports s1 s2 -> reports s2 s3 -> reports s1 s3.
Proof. intros [P1 E1] [P2 E2]. split; [by etrans|congruence]. Qed.
Lemma reports_refl s : reports s s.
Proof. by apply reports_res. Qed.

Lemma reports_send id kind p now tr s : reports s (send id kind p now tr s).
Proof.
  unfold send. destruct (sessions (eng s) !! id) as [a|]; [|apply reports_refl].
  destruct (MaxSends <=? sends a); [apply reports_refl|]. cbn [orb]. destruct (negb tr && _); [apply reports_refl|].
  destruct ((_ || _) && _); [apply reports_refl|]. unfold emit. destruct (Emit _ _ _).
  split; [|done]. cbn. by apply prefix_app_r.
Qed.

Lemma res_randomBlock s : res (snd (randomBlock s)) = res s.
Proof. unfold randomBlock. by destruct (randomLoop 4 (out s)). Qed.

Lemma res_newIDLoop n : forall s, res (snd (newIDLoop n s)) = res s.
Proof.
  induction n as [|n IH]; intros s; [done|]. cbn [newIDLoop].
  pose proof (res_randomBlock s) as E. destruct (randomBlock s) as [[v|e] s1]; cbn [snd] in *; [|done].
  destruct (decide _); [done|]. by rewrite IH.
Qed.

Lemma res_admission d s : res (snd (admission d s)) = res s.
Proof.
  unfold admission. destruct (dial_prepared d) as [p|].
  - destruct (prepareds (eng s) !! p); [|done]. by destruct (_ || _).
  - unfold reserve. destruct (MaxPending <=? _); [done|].
    by destruct (reserveCredits _ _ _) as [[[[[[scope receive] initial] packet] [l|]]|e] h].
Qed.

Lemma res_retire p d s : res (retire p d s) = res s.
Proof.
  unfold retire. destruct (prepareds (eng s) !! p) as [st|]; [|done].
  destruct (prep_storage st); [|done]. by destruct d, (disposePending st).
Qed.

Lemma res_disposeAttempt a s : res (disposeAttempt a s) = res s.
Proof.
  unfold disposeAttempt. destruct (prepared a); [by rewrite res_retire|].
  by destruct (dispose a), (retirement a), (disposeDeferred a).
Qed.

Lemma reports_startAttempt now d c s : reports s (snd (startAttempt now d c s)).
Proof.
  unfold startAttempt, newID. pose proof (res_newIDLoop 4 s) as E1.
  destruct (newIDLoop 4 s) as [[id|e] s1]; cbn [snd] in *; [|by apply reports_res].
  pose proof (res_randomBlock s1) as E2.
  destruct (randomBlock s1) as [[nonce|e] s2]; cbn [snd] in *; [|apply reports_res; congruence].
  destruct (negotiation _) as [ts|e]; [|apply reports_res; cbn; congruence].
  pose proof (res_admission d s2) as E3.
  destruct (admission d s2) as [[[[[[scope initial] receive] packet] storage]|e] s3]; cbn [snd] in *;
    [|apply reports_res; congruence].
  cbv zeta. destruct (encode _ _); cbn [snd]; [|apply reports_res; rewrite res_disposeAttempt; congruence].
  eapply reports_trans; [|apply reports_send]. apply reports_res.
  transitivity (res s3); [|congruence]. unfold startRunning. by destruct (dials _ !! _).
Qed.

Lemma reports_fillLoop fuel now id : forall s, reports s (snd (fillLoop fuel now id s)).
Proof.
  induction fuel as [|fuel IH]; intros s; [apply reports_refl|]. cbn [fillLoop].
  destruct (dials (eng s) !! id) as [d|]; [|apply reports_refl].
  destruct (Carriers (request d) !! next d) as [c|]; [|apply reports_refl].
  destruct (_ <=? _); [apply reports_refl|].
  pose proof (reports_startAttempt now d c s) as E.
  destruct (startAttempt now d c s) as [[e|] s1]; [done|]. cbn [snd] in E.
  eapply reports_trans; [exact E|]. eapply reports_trans; [|apply IH].
  apply reports_res. unfold advanceDial. by destruct (dials _ !! _).
Qed.

Lemma reports_fillDials now s : reports s (fillDials now s).
Proof.
  unfold fillDials. generalize (merge_sort Z.le (elements (dom (dials (eng s))))). intros l.
  revert s. induction l as [|id l IH]; intros s; [apply reports_refl|].
  eapply reports_trans; [|apply IH]. unfold fillOne.
  destruct (dials (eng s) !! id) as [d|]; [|apply reports_refl].
  assert (E : reports s (snd (fillDial now id s))).
  { unfold fillDial. destruct (dials (eng s) !! id) as [d'|]; [|apply reports_refl].
    destruct (match Deadline (request d') with Some _ => _ | None => _ end); [apply reports_refl|].
    apply reports_fillLoop. }
  destruct (fillDial now id s) as [err s1]. cbn [snd] in E.
  eapply reports_trans; [exact E|]. destruct (runningOf id s1 =? 0); [|apply reports_refl].
  assert (E2 : res (match dial_prepared d with Some p => retire p None (dropDial id s1) | None => dropDial id s1 end)
    = res s1) by (destruct (dial_prepared d); [by rewrite res_retire|done]).
  destruct err as [e|]; [|by apply reports_res]. unfold reports. cbn [report res Sends Established].
  by rewrite E2.
Qed.

(** ** What filling the dials adds *)

(** An attempt just launched. *)
Definition launchedAt (now : Z) (a : attempt) : Prop :=
  state a = waitChallenge /\ now < deadline a /\ sends a = 1 /\ nextSend a = Some (now + RetryInterval) /\
  is_Some (att_packets a).

Record extends (now : Z) (s s' : St) : Prop := {
  ex_old : forall k a, sessions (eng s) !! k = Some a -> sessions (eng s') !! k = Some a;
  ex_new : forall k a, sessions (eng s') !! k = Some a ->
    sessions (eng s) !! k = Some a \/ launchedAt now a;
  ex_rejections : rejections (eng s') = rejections (eng s) }.

Lemma extends_same now s s' :
  sessions (eng s') = sessions (eng s) -> rejections (eng s') = rejections (eng s) -> extends now s s'.
Proof. intros E R. split; [by rewrite E|rewrite E; auto|done]. Qed.
Lemma extends_trans now s1 s2 s3 : extends now s1 s2 -> extends now s2 s3 -> extends now s1 s3.
Proof.
  intros [O1 N1 R1] [O2 N2 R2]. split; [auto| |congruence].
  intros k a Hk. destruct (N2 k a Hk) as [H2|H2]; [|by right]. auto.
Qed.

Lemma retire_rejections p d s :
  sessions (eng (retire p d s)) = sessions (eng s) /\ rejections (eng (retire p d s)) = rejections (eng s).
Proof.
  unfold retire. destruct (prepareds _ !! p) as [st|]; [|done].
  destruct (prep_storage st); [|done]. by destruct d, (disposePending st).
Qed.

(** The first send of an attempt always happens. *)
Lemma send_first id kind p now s a :
  sessions (eng s) !! id = Some a -> sends a = 0 ->
  eng (send id kind p now true s) = eng (put id (with_sends 1 (Some (now + RetryInterval)) a) s).
Proof.
  intros Ha Hs. unfold send. rewrite Ha, Hs. cbn [negb andb orb].
  replace (MaxSends <=? 0) with false by done. replace (MaxSends - 1 <=? 0) with false by done.
  rewrite andb_false_r. cbn [orb]. unfold emit. by destruct (Emit _ _ _).
Qed.

(** A dial whose deadline has not passed gives its attempts a future one. *)
Lemma deadlineOf_future now d : past (Deadline (request d)) now = false -> now < deadlineOf now d.
Proof.
  unfold past, deadlineOf. assert (0 < Lifetime) by (unfold Lifetime; lia).
  destruct (Deadline (request d)) as [t|]; [|lia]. destruct (t <? now + Lifetime); lia.
Qed.

Lemma extends_startAttempt now d c s err s' :
  startAttempt now d c s = (err, s') -> dials (eng s) !! dial_id d = Some d ->
  past (Deadline (request d)) now = false ->
  extends now s s' /\ (err = None -> dials (eng s') !! dial_id d = Some (started d)).
Proof.
  intros Hst Hd Hp. apply startAttempt_cases in Hst; [|done]. destruct err as [e|].
  - split; [|done]. destruct Hst as [E|(a & s1 & E & ->)]; [by apply extends_same; rewrite E|].
    apply extends_same; [rewrite disposeAttempt_sessions|rewrite disposeAttempt_rejections]; by rewrite E.
  - destruct Hst as (id & a & p & s1 & Hl & Hfree & _ & E & ->). destruct Hl.
    destruct la_state as [Hs Hz].
    assert (Ha : sessions (eng s1) !! id = Some a) by (rewrite E; apply lookup_insert_eq).
    pose proof (send_first id WireV2.TypeHello p now s1 a Ha Hz) as Es.
    split; [|intros _; rewrite Es; cbn; rewrite E; apply lookup_insert_eq].
    split; rewrite Es; cbn; rewrite E; cbn; try rewrite insert_insert_eq.
    + intros k b Hk. rewrite lookup_insert_ne; [done|congruence].
    + intros k b Hk. destruct (decide (k = id)) as [->|Hne].
      * rewrite lookup_insert_eq in Hk. injection Hk as <-. right. split_and!; try done; cbn.
        rewrite la_deadline. by apply deadlineOf_future.
      * rewrite lookup_insert_ne in Hk by done. by left.
    + done.
Qed.

Lemma extends_fillLoop fuel now id : forall s,
  Wf None (eng s) ->
  (forall d, dials (eng s) !! id = Some d -> past (Deadline (request d)) now = false) ->
  extends now s (snd (fillLoop fuel now id s)).
Proof.
  induction fuel as [|fuel IH]; intros s W Hp; [by apply extends_same|]. cbn [fillLoop].
  destruct (dials (eng s) !! id) as [d|] eqn:Hd; [|by apply extends_same].
  destruct (Carriers (request d) !! next d) as [c|] eqn:Hc; [|by apply extends_same].
  destruct (_ <=? _) eqn:Hr; [by apply extends_same|].
  assert (Hid : dial_id d = id) by (by apply (wf_dials _ _ W)).
  destruct (startAttempt now d c s) as [err s1] eqn:Hs.
  destruct (extends_startAttempt now d c s err s1 Hs ltac:(by rewrite Hid) (Hp d eq_refl)) as [Hx Hd1].
  assert (G : good None s s1).
  { apply (startAttempt_ok _ _ _ _ _ _ Hs); [by rewrite Hid|lia|by eapply list_elem_of_lookup_2]. }
  destruct err as [e|]; [done|]. specialize (Hd1 eq_refl). rewrite Hid in Hd1.
  eapply extends_trans; [exact Hx|].
  assert (Ea : sessions (eng (advanceDial id s1)) = sessions (eng s1) /\
    rejections (eng (advanceDial id s1)) = rejections (eng s1)).
  { unfold advanceDial. rewrite Hd1. done. }
  eapply extends_trans; [by apply extends_same; apply Ea|]. apply IH.
  - apply good_advanceDial. by apply G.
  - unfold advanceDial. rewrite Hd1. cbn. rewrite Hid, lookup_insert_eq. intros d' [= <-]. cbn. auto.
Qed.

Lemma extends_fillOne now s id : Wf None (eng s) -> extends now s (fillOne now s id).
Proof.
  intros W. unfold fillOne. destruct (dials (eng s) !! id) as [d|] eqn:Hd; [|by apply extends_same].
  assert (E : extends now s (snd (fillDial now id s))).
  { unfold fillDial. rewrite Hd. change (match Deadline (request d) with Some _ => _ | None => _ end)
      with (past (Deadline (request d)) now).
    destruct (past _ _) eqn:Hp; [by apply extends_same|].
    apply extends_fillLoop; [done|]. rewrite Hd. by intros d' [= <-]. }
  destruct (fillDial now id s) as [err s1]. cbn [snd] in E.
  eapply extends_trans; [exact E|]. destruct (runningOf id s1 =? 0); [|by apply extends_same].
  set (s2 := match dial_prepared d with Some p => _ | None => _ end).
  assert (E2 : sessions (eng s2) = sessions (eng s1) /\ rejections (eng s2) = rejections (eng s1)).
  { unfold s2. destruct (dial_prepared d) as [p|]; [|done].
    destruct (retire_rejections p None (dropDial id s1)) as [-> ->]. done. }
  by destruct err as [e|]; apply extends_same; apply E2.
Qed.

Lemma extends_fillDials now s : Wf None (eng s) -> extends now s (fillDials now s).
Proof.
  unfold fillDials. generalize (merge_sort Z.le (elements (dom (dials (eng s))))). intros l.
  revert s. induction l as [|id l IH]; intros s W; [by apply extends_same|].
  eapply extends_trans; [by apply extends_fillOne|]. apply IH. by apply good_fillOne.
Qed.

(** ** The schedule [Advance] leaves *)

(** Whatever is scheduled for the attempt lies in the future. *)
Definition timely (now : Z) (a : attempt) : Prop := forall t, attemptDeadline a = Some t -> now < t.

Lemma timely_intro now a :
  now < deadline a ->
  (MaxSends <= sends a \/ ((state a = waitChallenge \/ state a = waitFinish) /\ MaxSends - 1 <= sends a) \/
   exists t, nextSend a = Some t /\ now < t) -> timely now a.
Proof.
  intros Hd Hs t. unfold attemptDeadline. destruct (_ && bool_decide (att_packets a = None)); [done|].
  destruct ((MaxSends <=? sends a) || _) eqn:E.
  - cbn. intros [= <-]. done.
  - apply orb_false_elim in E as [E1 E2].
    destruct Hs as [Hs|[[He Hs]|(u & Hu & Hn)]]; [lia| |].
    + apply andb_false_iff in E2 as [E2|E2]; [|lia]. apply orb_false_elim in E2 as [E2 E3]. bools.
      by destruct He.
    + rewrite Hu. cbn. intros [= <-]. lia.
Qed.

Lemma timely_released now a : state a = established -> att_packets a = None -> timely now a.
Proof. intros Hs Hp t. unfold attemptDeadline. rewrite Hs, Hp. by cbn. Qed.

Lemma launchedAt_timely now a : launchedAt now a -> timely now a.
Proof.
  intros (Hs & Hd & Hn & Ht & _). apply timely_intro; [done|]. right. right.
  exists (now + RetryInterval). split; [done|]. unfold RetryInterval. lia.
Qed.

(** A retransmission that is due happens or has no budget left. *)
Lemma send_timely id kind p now s a :
  sessions (eng s) !! id = Some a -> now < deadline a ->
  (kind = WireV2.TypeHello \/ kind = WireV2.TypeChallenge -> state a = waitChallenge \/ state a = waitFinish) ->
  forall b, sessions (eng (send id kind p now false s)) !! id = Some b -> timely now b.
Proof.
  intros Ha Hd Hk b. unfold send. rewrite Ha. destruct (MaxSends <=? sends a) eqn:E1; cbn [orb].
  { rewrite Ha. intros [= <-]. apply timely_intro; [done|]. left. lia. }
  cbn [negb andb]. destruct (nextSend a) as [t|] eqn:Et; [destruct (now <? t) eqn:E2|].
  { rewrite Ha. intros [= <-]. apply timely_intro; [done|]. right. right. exists t. split; [done|lia]. }
  all: destruct (((kind =? _) || _) && _) eqn:E3.
  1, 3: rewrite Ha; intros [= <-]; apply timely_intro; [done|]; right; left; split; [apply Hk|]; lia.
  all: unfold emit; destruct (Emit _ _ _); cbn; rewrite lookup_insert_eq; intros [= <-];
    apply timely_intro; [done|]; right; right; exists (now + RetryInterval); split; [done|unfold RetryInterval; lia].
Qed.

Lemma send_others id kind p now tr s :
  (forall k, k <> id -> sessions (eng (send id kind p now tr s)) !! k = sessions (eng s) !! k) /\
  rejections (eng (send id kind p now tr s)) = rejections (eng s).
Proof.
  destruct (send_eng id kind p now tr s) as [->|(a & _ & _ & _ & ->)]; [done|]. cbn. split; [|done].
  intros k Hk. by rewrite lookup_insert_ne.
Qed.

Lemma advanceOne_timely now s id :
  Wf None (eng s) ->
  (forall a, sessions (eng (advanceOne now s id)) !! id = Some a -> timely now a) /\
  (forall k, k <> id -> sessions (eng (advanceOne now s id)) !! k = sessions (eng s) !! k) /\
  rejections (eng (advanceOne now s id)) = rejections (eng s).
Proof.
  intros W. unfold advanceOne. destruct (sessions (eng s) !! id) as [a|] eqn:Ha; [|by rewrite Ha].
  assert (Hfail : forall cause notify,
    (forall b, sessions (eng (failAttempt id cause now notify s)) !! id = Some b -> timely now b) /\
    (forall k, k <> id -> sessions (eng (failAttempt id cause now notify s)) !! k = sessions (eng s) !! k) /\
    rejections (eng (failAttempt id cause now notify s)) = rejections (eng s)).
  { intros cause notify. rewrite failAttempt_sessions, failAttempt_rejections. split_and!; [|intros k Hk|done].
    - by rewrite lookup_delete_eq.
    - by rewrite lookup_delete_ne. }
  destruct (Credit.session_Closed _); [apply Hfail|].
  destruct (negb (now <? deadline a)) eqn:Hd.
  { destruct (decide (state a = established)) as [Hs|]; [|apply Hfail].
    unfold releasePackets. rewrite Ha. cbn. split_and!; [|intros k Hk; by rewrite lookup_insert_ne|done].
    rewrite lookup_insert_eq. intros b [= <-]. by apply timely_released. }
  bools. pose proof (wf_att _ _ W _ _ Ha) as Hok. cbn in Hok.
  destruct (att_packets a) as [ps|] eqn:Hps.
  2: { rewrite Ha. split_and!; [|done|done]. intros b [= <-]. destruct (decide (state a = established)) as [Hs|Hs].
       - by apply timely_released.
       - destruct (ok_packets _ _ _ _ _ _ Hok Hs) as [? E]. congruence. }
  assert (Hsend : forall kind p,
    (kind = WireV2.TypeHello \/ kind = WireV2.TypeChallenge -> state a = waitChallenge \/ state a = waitFinish) ->
    (forall b, sessions (eng (send id kind p now false s)) !! id = Some b -> timely now b) /\
    (forall k, k <> id -> sessions (eng (send id kind p now false s)) !! k = sessions (eng s) !! k) /\
    rejections (eng (send id kind p now false s)) = rejections (eng s)).
  { intros kind p Hk. split; [|apply send_others]. apply (send_timely _ _ _ _ _ a); [done|lia|done]. }
  destruct (state a) eqn:Hs; [by apply Hsend; auto..|by apply Hsend; intros [?|?]|].
  destruct (setup_Role (setup a)) eqn:Hr; [|by apply Hsend; intros [?|?]|];
    exfalso; assert (att_packets a = None) by (apply Hok; [done|done|by rewrite Hr]); congruence.
Qed.

Lemma advance_timely l now : forall s,
  Wf None (eng s) ->
  let s' := foldl (advanceOne now) s l in
  Wf None (eng s') /\ rejections (eng s') = rejections (eng s) /\
  forall k a, sessions (eng s') !! k = Some a ->
    (k ∈ l \/ forall b, sessions (eng s) !! k = Some b -> timely now b) -> timely now a.
Proof.
  induction l as [|id l IH]; intros s W; cbn [foldl].
  - split_and!; [done|done|]. intros k a Ha [[]%elem_of_nil|Hk]. auto.
  - destruct (advanceOne_timely now s id W) as (H1 & H2 & H3).
    pose proof (good_advanceOne now s id W) as [_ W1]. destruct (IH _ W1) as (W' & R' & K').
    split_and!; [done|congruence|]. intros k a Ha Hk. apply (K' k a Ha).
    destruct (decide (k = id)) as [->|Hne]; [by right|]. rewrite H2 by done.
    destruct Hk as [[->|Hk]%elem_of_cons|Hk]; [done|by left|by right].
Qed.

Lemma timely_deadline now a :
  timely now a -> state a <> established \/ att_packets a <> None -> now < deadline a.
Proof.
  intros Ht Hs. unfold timely, attemptDeadline in Ht.
  assert (E : bool_decide (state a = established) && bool_decide (att_packets a = None) = false).
  { apply andb_false_iff. destruct Hs; [left|right]; by apply bool_decide_eq_false. }
  rewrite E in Ht. destruct (if _ || _ then _ else _) as [u|]; cbn in Ht.
  - specialize (Ht _ eq_refl). lia.
  - by apply Ht.
Qed.

(** [NextDeadline] is the deadline of some attempt or rejection. *)
Lemma NextDeadline_source e t :
  NextDeadline e = Some t ->
  (exists id a, sessions e !! id = Some a /\ attemptDeadline a = Some t) \/
  (exists x, Some x ∈ rejections e /\ rej_deadline x = t).
Proof.
  unfold NextDeadline. destruct (eng_closed e); [done|].
  assert (Hmin : forall a b u, earlier a b = Some u -> a = Some u \/ b = Some u).
  { intros [x|] [y|] u; cbn; intros [= <-]; auto. destruct (Z.min_spec x y) as [[_ ->]|[_ ->]]; auto. }
  assert (Hm : forall u, map_fold (fun _ a acc => earlier (attemptDeadline a) acc) None (sessions e) = Some u ->
    exists id a, sessions e !! id = Some a /\ attemptDeadline a = Some u).
  { apply (map_fold_weak_ind (fun acc m => forall u, acc = Some u ->
      exists id a, m !! id = Some a /\ attemptDeadline a = Some u)); [done|].
    intros id a m acc Hid IH u Hu. apply Hmin in Hu as [Hu|Hu].
    - exists id, a. by rewrite lookup_insert_eq.
    - destruct (IH u Hu) as (k & b & Hk & Hb). exists k, b. split; [|done].
      rewrite lookup_insert_ne; [done|congruence]. }
  induction (rejections e) as [|[x|] l IH]; cbn [foldr].
  - intros Hu. left. by apply Hm.
  - destruct (bool_decide (rej_id x = zero16)).
    + intros Hu. destruct (IH Hu) as [Hl|(y & Hy & Hd)]; [by left|]. right. exists y. split; [by right|done].
    + intros [Hu|Hu]%Hmin.
      * right. exists x. split; [by left|congruence].
      * destruct (IH Hu) as [Hl|(y & Hy & Hd)]; [by left|]. right. exists y. split; [by right|done].
  - intros Hu. destruct (IH Hu) as [Hl|(y & Hy & Hd)]; [by left|]. right. exists y. split; [by right|done].
Qed.

Lemma expireRejections_future now l x : Some x ∈ expireRejections now l -> now < rej_deadline x.
Proof.
  unfold expireRejections. intros ([y|] & E & _)%list_elem_of_fmap; [|done].
  destruct (now <? rej_deadline y) eqn:Ey; [|done]. injection E as ->. lia.
Qed.

(** After the body of [Advance] everything scheduled lies in the future. *)
Lemma advance_schedule now s :
  Wf None (eng s) ->
  (forall id a, sessions (eng (advance now s)) !! id = Some a -> timely now a) /\
  forall x, Some x ∈ rejections (eng (advance now s)) -> now < rej_deadline x.
Proof.
  intros W. unfold advance. cbv zeta. set (s1 := on_eng _ s).
  assert (W1 : Wf None (eng s1)).
  { destruct W. split; try done. cbn. unfold expireRejections. by rewrite length_fmap. }
  destruct (advance_timely (orderedIDs (eng s1)) now s1 W1) as (W2 & R2 & K2).
  set (s2 := foldl _ s1 _) in *. destruct (extends_fillDials now s2 W2) as [Ho Hn Hr]. split.
  - intros id a Ha. destruct (Hn id a Ha) as [Ha2|Ha2]; [|by apply launchedAt_timely].
    apply (K2 id a Ha2). destruct (sessions (eng s1) !! id) as [b|] eqn:Eb; [|by right].
    left. apply orderedIDs_all. eauto.
  - intros x. rewrite Hr, R2. apply expireRejections_future.
Qed.
End time.
