(* ===== verification/HandshakeFinish.v ===== *)
(** * Completing an exchange

    The FINISH and READY an attempt expects are accepted in time, installed and, for
    FINISH, answered. *)

From S2P Require Import Prelude Sha256 Handshake HandshakeInv HandshakeSteps HandshakeDial HandshakeReceive HandshakeRun.
From S2P Require Import HandshakeTime.
From S2P Require WireV2 WireV2Handshake WireV2Bundle Transcript Negotiation NegotiationProps Credit.
Import WireV2 (SessionID, Nonce, Digest, Key, zero16, zero32).

(** ** The confirmations of a proved attempt open and validate *)

Lemma confirmation_opens k secret ps t keys ty p key :
  prepareTranscript k secret ps = Ok (t, keys, ps) ->
  (ty = WireV2.TypeFinish /\ p = finish ps /\ key = Transcript.ClientToServer keys) \/
  (ty = WireV2.TypeReady /\ p = ready ps /\ key = Transcript.ServerToClient keys) ->
  exists envelope ae, WireV2.ParseEnvelope p = Ok envelope /\ WireV2.Authenticate envelope key = Ok ae /\
    WireV2.header envelope = {| WireV2.Header_Type := ty; WireV2.Header_SessionID := Transcript.sessionID t |} /\
    Transcript.ValidateConfirmation t ae = None.
Proof.
  intros Hp Hcase. unfold prepareTranscript in Hp.
  destruct (authenticate (hello ps) k) as [h|] eqn:Hh; [|done]. cbn [result_bind] in Hp.
  destruct (authenticate (challenge ps) k) as [c|] eqn:Hc; [|done]. cbn [result_bind] in Hp.
  destruct (Transcript.NewTranscript h c) as [t'|] eqn:Ht; [|done]. cbn [wire result_bind] in Hp.
  destruct (Transcript.DeriveDirectionalKeys secret t') as [keys'|]; [|done]. cbn [wire result_bind] in Hp.
  destruct (Transcript.Confirmation t' WireV2.TypeFinish) as [f|] eqn:Hf; [|done]. cbn [wire result_bind] in Hp.
  destruct (Transcript.Confirmation t' WireV2.TypeReady) as [r|] eqn:Hr; [|done]. cbn [wire result_bind] in Hp.
  destruct (encode f _) as [fp|] eqn:Ef; [|done]. cbn [result_bind] in Hp.
  destruct (encode r _) as [rp|] eqn:Er; [|done]. cbn [result_bind] in Hp.
  injection Hp as <- <- Hps. rewrite <- Hps in Hcase. cbn [finish ready] in Hcase.
  apply authenticate_open in Hh, Hc. pose proof (Transcript.NewTranscript_wf _ _ _ _ _ _ _ Hh Hc Ht) as Hwf.
  assert (Hm : exists m, Transcript.Confirmation t' ty = Ok m /\ encode m key = Ok p /\
    (ty = WireV2.TypeFinish \/ ty = WireV2.TypeReady)).
  { destruct Hcase as [(-> & -> & ->)|(-> & -> & ->)]; eauto 6. }
  destruct Hm as (m & Hm & Hen & Hty). apply encode_append in Hen.
  assert (m = Transcript.confirmation t' ty) as ->.
  { unfold Transcript.Confirmation in Hm. go_inv Hm. congruence. }
  pose proof (Transcript.confirmation_wf t' ty Hwf Hty) as Hmwf.
  pose proof (proj2 (WireV2Handshake.DecodeHandshake_iff _ _ _) (conj Hmwf Hen)) as Hd.
  apply result_bind_ok in Hd as (ae & Ho & Hd). unfold WireV2.open in Ho.
  destruct (WireV2.ParseEnvelope p) as [envelope|] eqn:Hpe; [|done]. cbn [result_bind] in Ho.
  exists envelope, ae. split_and!; [done|done| |].
  - rewrite <- (opened_header _ _ _ Ho), <- (decoded_header _ _ Hd). done.
  - by apply (Transcript.ValidateConfirmation_own t' ty).
Qed.

Section finish.
Context `{Adapter}.
Implicit Types s : St.
#[local] Abbreviation World := (Outside Env).

(** The last send of an attempt is not refused. *)
Lemma send_last id kind p now s a :
  sessions (eng s) !! id = Some a -> sends a < MaxSends ->
  kind <> WireV2.TypeHello /\ kind <> WireV2.TypeChallenge ->
  Established (res (send id kind p now true s)) = Established (res s) /\
  (exists err, Sends (res (send id kind p now true s)) = Sends (res s) ++
    [{| send_ID := ID (setup a); send_Type := kind; send_PathID := PathID (setup a); send_Err := err |}]) /\
  sessions (eng (send id kind p now true s)) !! id =
    Some (with_sends (sends a + 1) (Some (now + RetryInterval)) a).
Proof.
  intros Ha Hs [H1 H2]. unfold send. rewrite Ha.
  replace (MaxSends <=? sends a) with false by lia. cbn [negb andb orb].
  replace ((kind =? WireV2.TypeHello) || (kind =? WireV2.TypeChallenge)) with false by lia. cbn [andb].
  unfold emit. destruct (Emit _ _ _) as [err o]. cbn. rewrite lookup_insert_eq. eauto.
Qed.

(** Failing attempts establishes nothing. *)
Lemma established_failAttempt id cause now notify s :
  Established (res (failAttempt id cause now notify s)) = Established (res s).
Proof.
  unfold failAttempt. destruct (sessions (eng s) !! id) as [a0|]; [|done].
  set (s1 := if notify then sendClose id cause s else s).
  assert (E : Established (res s1) = Established (res s)).
  { unfold s1. destruct notify; [|done]. unfold sendClose. destruct (sessions (eng s) !! id) as [a|]; [|done].
    destruct (closeSent a); [done|]. destruct (decide _); [done|].
    destruct (WireV2Bundle.AppendEstablished _ _ _ _ _) as [packet [e|]]; [done|].
    unfold emit. by destruct (Emit _ _ _). }
  cbv zeta. fold s1. destruct (sessions (eng s1) !! id) as [a|]; [|done].
  destruct (recyclable _ _ _); rewrite ?res_disposeAttempt; destruct (decide _); cbn; rewrite <- E; try done;
    unfold stopRunning; by destruct (dials _ !! _).
Qed.

Lemma established_cancelOthers now d w l : forall s,
  Established (res (cancelOthers now d w l s)) = Established (res s).
Proof.
  unfold cancelOthers. induction l as [|id l IH]; intros s; [done|]. cbn [foldl].
  destruct (sessions (eng s) !! id) as [o|]; [|apply IH]. destruct (_ && _); [|apply IH].
  by rewrite IH, established_failAttempt.
Qed.

(** The result of [Receive] for a message an attempt expects. *)
Lemma Receive_expected now b p e o envelope a key ae kind id err s' :
  busy e = false -> eng_closed e = false -> (hasTime e = true -> lastNow e <= now) ->
  validBinding b = true -> WireV2.ParseEnvelope p = Ok envelope ->
  WireV2.header envelope = {| WireV2.Header_Type := kind; WireV2.Header_SessionID := id |} ->
  kind <> WireV2.TypeHello /\ kind <> WireV2.TypeClose ->
  sessions e !! id = Some a -> setup_Binding (setup a) = b -> expectedKey (with_clock now true e) a kind = Some key ->
  WireV2.Authenticate envelope key = Ok ae -> now < deadline a ->
  dispatch now id kind p ae {| eng := with_clock now true e; out := o; res := noResult |} = (err, s') ->
  Receive now b p e o = (err, res (fillDials now s'), leave (eng (fillDials now s')), out (fillDials now s')).
Proof.
  intros Hb Hc Ht Hv Hp Hh [Hk1 Hk2] Ha Hbi Hkey Hau Hd Hdis.
  unfold Receive, method, enter. rewrite Hb, Hc. cbn [negb andb].
  replace (hasTime e && (now <? lastNow e)) with false by (destruct (hasTime e); [specialize (Ht eq_refl); lia|done]).
  set (s := {| eng := with_clock now true e; out := o; res := noResult |}) in *.
  assert (E : receive now b p s = (err, fillDials now s')).
  { unfold receive. rewrite Hv, Hp. cbn [negb wire]. rewrite Hh. cbn [WireV2.Header_Type WireV2.Header_SessionID].
    replace (kind =? WireV2.TypeHello) with false by lia.
    change (sessions (eng s) !! id) with (sessions e !! id). rewrite Ha, Hbi, bool_decide_true by done. cbn [negb].
    change (eng s) with (with_clock now true e). rewrite Hkey, Hau. cbn [wire].
    replace (kind =? WireV2.TypeClose) with false by lia. replace (now <? deadline a) with true by lia.
    by rewrite Hdis. }
  by rewrite E.
Qed.

(** The adapter installs the attempt when [Receive] reaches it. *)
Definition installs (now : Z) (id : SessionID) (e : Engine) (o : World) : Prop :=
  exists s, install id {| eng := with_clock now true e; out := o; res := noResult |} = (None, s).

(** When a datagram for the attempt may arrive. *)
Record arrives (now : Z) (e : Engine) (a : attempt) : Prop := {
  ar_time : hasTime e = true -> lastNow e <= now;
  ar_deadline : now < deadline a;
  ar_binding : validBinding (setup_Binding (setup a)) = true }.

(** The attempt is established: announced once, and installed with what it agreed. *)
Definition completed (id : SessionID) (a : attempt) (r : Result) (e' : Engine) : Prop :=
  Established r = [setup a] /\
  exists b, sessions e' !! id = Some b /\ state b = established /\ setup b = setup a.

(** What filling the dials leaves of it. *)
Lemma completed_filled now id a s :
  Wf None (eng s) -> Established (res s) = [setup a] ->
  (exists b, sessions (eng s) !! id = Some b /\ state b = established /\ setup b = setup a) ->
  completed id a (res (fillDials now s)) (leave (eng (fillDials now s))).
Proof.
  intros W He (b & Hb & Hrest). split.
  - by rewrite (proj2 (reports_fillDials now s)).
  - exists b. split; [|done]. by apply (extends_fillDials now s W).
Qed.

Lemma finish_completes secret n x now e o id a ps t k :
  Wf None e -> busy e = false -> eng_closed e = false -> arrives now e a ->
  sessions e !! id = Some a -> attempt_ok k secret n x id a -> state a = waitFinish ->
  att_packets a = Some ps -> transcript a = Some t ->
  prepareTranscript k secret ps = Ok (t, Keys (setup a), ps) -> Transcript.sessionID t = id ->
  installs now id e o ->
  exists r e' o', Receive now (setup_Binding (setup a)) (finish ps) e o = (None, r, e', o') /\
    completed id a r e' /\
    exists y, y ∈ Sends r /\ send_ID y = id /\ send_Type y = WireV2.TypeReady.
Proof.
  intros W Hb Hc [Ht Hd Hv] Ha Hok Hs Hps Htr Hp Hid [s1 Hi].
  destruct (confirmation_opens _ _ _ _ _ WireV2.TypeFinish (finish ps) _ Hp ltac:(by left))
    as (envelope & ae & Hpe & Hau & Hh & Hvc). rewrite Hid in Hh.
  set (s := {| eng := with_clock now true e; out := o; res := noResult |}) in *.
  assert (Has : sessions (eng s) !! id = Some a) by done.
  destruct (install_session _ _ _ _ Hi Has) as (d & dd & Hm & _ & Hse & Hes & _).
  set (b := with_state established _) in Hm.
  assert (Hb1 : sessions (eng s1) !! id = Some b) by (rewrite Hm; apply lookup_insert_eq).
  assert (Hsb : sends b < MaxSends) by (pose proof (ok_early _ _ _ _ _ _ Hok (or_intror Hs)); cbn; lia).
  set (s2 := send id WireV2.TypeReady (ready ps) now true s1).
  destruct (send_last id WireV2.TypeReady (ready ps) now s1 b Hb1 Hsb ltac:(done)) as (E1 & [err E2] & E3).
  fold s2 in E1, E2, E3.
  assert (Hdis : dispatch now id WireV2.TypeFinish (finish ps) ae s = (None, s2)).
  { unfold dispatch. cbn [Z.eqb Pos.eqb WireV2.TypeFinish WireV2.TypeChallenge WireV2.TypeReject].
    unfold receiveFinish. rewrite Has. unfold confirmed. rewrite Htr, Hvc. unfold packetOf. rewrite Hps. cbn [default].
    rewrite decide_True by done. by rewrite Hs, Hi. }
  assert (Hkey : expectedKey (with_clock now true e) a WireV2.TypeFinish =
    Some (Transcript.ClientToServer (Keys (setup a)))).
  { unfold expectedKey. cbn [Z.eqb Pos.eqb WireV2.TypeFinish WireV2.TypeChallenge WireV2.TypeReject orb].
    rewrite (ok_responder _ _ _ _ _ _ Hok Hs), Hps. done. }
  assert (W2 : Wf None (eng s2)).
  { pose proof (good_dispatch now id WireV2.TypeFinish (finish ps) ae s ltac:(done)) as G. rewrite Hdis in G.
    apply G. by apply wf_clock. }
  pose proof (Receive_expected now _ _ _ _ _ _ _ _ _ _ _ _ Hb Hc Ht Hv Hpe Hh ltac:(done) Ha eq_refl Hkey Hau Hd Hdis)
    as Hrec.
  do 3 eexists. split; [exact Hrec|]. split.
  - apply completed_filled; [done|by rewrite E1, Hes|]. eexists. split; [exact E3|]. done.
  - eexists. split; [|split].
    + eapply elem_of_prefix; [|apply reports_fillDials]. rewrite E2. apply elem_of_app. right. by left.
    + by apply Hok.
    + done.
Qed.

Lemma ready_completes secret n x now e o id a ps t k :
  Wf None e -> busy e = false -> eng_closed e = false -> arrives now e a ->
  sessions e !! id = Some a -> attempt_ok k secret n x id a -> state a = waitReady ->
  att_packets a = Some ps -> transcript a = Some t ->
  prepareTranscript k secret ps = Ok (t, Keys (setup a), ps) -> Transcript.sessionID t = id ->
  installs now id e o ->
  exists r e' o', Receive now (setup_Binding (setup a)) (ready ps) e o = (None, r, e', o') /\
    completed id a r e'.
Proof.
  intros W Hb Hc [Ht Hd Hv] Ha Hok Hs Hps Htr Hp Hid [s1 Hi].
  destruct (confirmation_opens _ _ _ _ _ WireV2.TypeReady (ready ps) _ Hp ltac:(by right))
    as (envelope & ae & Hpe & Hau & Hh & Hvc). rewrite Hid in Hh.
  set (s := {| eng := with_clock now true e; out := o; res := noResult |}) in *.
  assert (Has : sessions (eng s) !! id = Some a) by done.
  destruct (install_session _ _ _ _ Hi Has) as (d & dd & Hm & _ & _ & Hes & _).
  pose proof (install_ok _ _ _ _ Hi a Has ltac:(by right) (wf_clock _ _ _ _ W)) as [_ W1].
  set (b := with_state established _) in Hm. set (k' := setup_DialID (setup a)) in *.
  assert (Hb1 : sessions (eng s1) !! id = Some b) by (rewrite Hm; apply lookup_insert_eq).
  set (s2 := match dials (eng s1) !! k' with
             | Some _ => cancelOthers now k' id (orderedIDs (eng (dropDial k' s1))) (dropDial k' s1)
             | None => s1 end).
  assert (H2 : sessions (eng s2) !! id = Some b /\ Established (res s2) = Established (res s1)).
  { unfold s2. destruct (dials (eng s1) !! k'); [|done]. split; [|by rewrite established_cancelOthers].
    destruct (cancelOthers_keeps _ now k' id (orderedIDs (eng (dropDial k' s1))) (dropDial k' s1)
      (wf_dropDial _ k' _ W1)) as [-> _]. exact Hb1. }
  destruct H2 as [Hb2 He2]. set (s3 := releasePackets id s2).
  assert (Hdis : dispatch now id WireV2.TypeReady (ready ps) ae s = (None, s3)).
  { unfold dispatch. cbn [Z.eqb Pos.eqb WireV2.TypeFinish WireV2.TypeChallenge WireV2.TypeReject WireV2.TypeReady].
    unfold receiveReady. rewrite Has. unfold confirmed. rewrite Htr, Hvc. unfold packetOf. rewrite Hps, Hs. cbn [default].
    rewrite bool_decide_true, decide_True by done. cbn [negb]. by rewrite Hi. }
  assert (Hkey : expectedKey (with_clock now true e) a WireV2.TypeReady =
    Some (Transcript.ServerToClient (Keys (setup a)))).
  { unfold expectedKey. cbn [Z.eqb Pos.eqb WireV2.TypeFinish WireV2.TypeChallenge WireV2.TypeReject WireV2.TypeReady orb].
    rewrite (ok_initiator _ _ _ _ _ _ Hok (or_intror Hs)), Hs. done. }
  assert (W3 : Wf None (eng s3)).
  { pose proof (good_dispatch now id WireV2.TypeReady (ready ps) ae s ltac:(done)) as G. rewrite Hdis in G.
    apply G. by apply wf_clock. }
  pose proof (Receive_expected now _ _ _ _ _ _ _ _ _ _ _ _ Hb Hc Ht Hv Hpe Hh ltac:(done) Ha eq_refl Hkey Hau Hd Hdis)
    as Hrec.
  do 3 eexists. split; [exact Hrec|]. apply completed_filled; [done| |].
  - unfold s3, releasePackets. rewrite Hb2. cbn. by rewrite He2, Hes.
  - exists (withoutPackets b). split; [|done]. unfold s3, releasePackets. rewrite Hb2. apply lookup_insert_eq.
Qed.
End finish.
