(* ===== verification/HandshakeProps.v ===== *)
(** * What the handshake engine promises

    Authentication before any change, agreement of two engines on one exchange,
    bounded state in every run, and a [Close] that erases. *)

From S2P Require Import Prelude Sha256 Handshake HandshakeInv HandshakeSteps HandshakeDial HandshakeReceive HandshakeRun.
From S2P Require Import HandshakeTime HandshakeFinish.
From S2P Require WireV2 WireV2Handshake WireV2Bundle Transcript Negotiation NegotiationProps Credit.
Import WireV2 (SessionID, Nonce, Digest, Key, zero16, zero32).

Section props.
Context `{Adapter}.
Implicit Types s : St.
#[local] Abbreviation World := (Outside Env).

(** ** Authentication *)

(** The keys an engine may authenticate a datagram with. *)
Definition holds (e : Engine) (k : Key) : Prop :=
  k = handshakeKey e \/
  exists id a, sessions e !! id = Some a /\
    (k = Transcript.ClientToServer (Keys (setup a)) \/ k = Transcript.ServerToClient (Keys (setup a))).

Lemma expectedKey_holds e id a kind k :
  sessions e !! id = Some a -> expectedKey e a kind = Some k -> holds e k.
Proof.
  intros Ha Hk. unfold expectedKey in Hk. cbv zeta in Hk. unfold holds.
  destruct (setup_Role (setup a)); repeat match type of Hk with
  | (if ?c then _ else _) = _ => destruct c; try discriminate Hk
  end; injection Hk as <-; (by left) || (right; exists id, a; auto).
Qed.

Lemma receive_unauthenticated now b p s :
  (forall k ae, holds (eng s) k -> WireV2.open p k <> Ok ae) -> snd (receive now b p s) = s.
Proof.
  intros Hno. unfold receive. destruct (negb _); [done|].
  destruct (WireV2.ParseEnvelope p) as [envelope|] eqn:Hp; cbn [wire]; [|done].
  assert (Ho : forall k ae, holds (eng s) k -> WireV2.Authenticate envelope k <> Ok ae).
  { intros k ae Hk Ha. apply (Hno k ae Hk). unfold WireV2.open. by rewrite Hp. }
  cbv zeta. destruct (_ =? WireV2.TypeHello).
  - destruct (Listener _); [|done].
    destruct (WireV2.Authenticate envelope _) as [ae|] eqn:Ha; [|done]. exfalso.
    by apply (Ho (handshakeKey (eng s)) ae (or_introl eq_refl)).
  - destruct (sessions (eng s) !! _) as [a|] eqn:Ha; [|done]. destruct (negb _); [done|].
    destruct (expectedKey (eng s) a _) as [k|] eqn:Hk; [|done].
    destruct (WireV2.Authenticate envelope k) as [ae|] eqn:Hau; [|done]. exfalso.
    by apply (Ho k ae (expectedKey_holds _ _ _ _ _ Ha Hk)).
Qed.

(** C17: Nothing happens for a datagram that does not authenticate.  When no key the
    engine holds opens the datagram - the handshake key, or a directional key of an
    attempt - [Receive] sends nothing, establishes, closes and reports nothing, leaves
    the credit ledger and the adapter alone, and of the engine changes at most the
    clock. *)
Theorem Receive_unauthenticated (now : Z) (b : Binding) (p : bytes) (e : Engine) (o : World)
    (Hno : forall k ae, holds e k -> WireV2.open p k <> Ok ae) :
  let '(_, r, e', o') := Receive now b p e o in
  r = noResult /\ o' = o /\ (e' = e \/ e' = leave (with_clock now true e)).
Proof.
  unfold Receive, method, enter. destruct (busy e); [auto|]. destruct (_ && negb false); [auto|].
  destruct (hasTime e && _); [auto|].
  set (s := {| eng := with_clock now true e; out := o; res := noResult |}).
  pose proof (receive_unauthenticated now b p s Hno) as E.
  destruct (receive now b p s) as [err s']. cbn [snd] in E. subst s'. auto.
Qed.

(** ** Agreement *)

(** Two attempts in the same conversation: the CHALLENGE of the exchange is known to
    both, and both hold the same two packets. *)
Record paired (a1 a2 : attempt) (ps1 ps2 : packets) : Prop := {
  pr_first : att_packets a1 = Some ps1;
  pr_second : att_packets a2 = Some ps2;
  pr_phases : state a1 <> waitChallenge /\ state a2 <> waitChallenge;
  pr_hello : hello ps1 = hello ps2;
  pr_challenge : challenge ps1 = challenge ps2 }.

Lemma paired_agree k secret n1 n2 x1 x2 id1 id2 a1 a2 ps1 ps2 :
  attempt_ok k secret n1 x1 id1 a1 -> attempt_ok k secret n2 x2 id2 a2 -> paired a1 a2 ps1 ps2 ->
  id1 = id2 /\ transcript a1 = transcript a2 /\ Keys (setup a1) = Keys (setup a2) /\
  setup_Contract (setup a1) = setup_Contract (setup a2) /\ att_hello a1 = att_hello a2 /\ ps1 = ps2.
Proof.
  intros H1 H2 [E1 E2 [Hs1 Hs2] Eh Ec].
  destruct (ok_proved _ _ _ _ _ _ H1 _ Hs1 E1) as (t1 & sel1 & T1 & P1 & C1 & A1).
  destruct (ok_proved _ _ _ _ _ _ H2 _ Hs2 E2) as (t2 & sel2 & T2 & P2 & C2 & A2).
  destruct (ok_hello _ _ _ _ _ _ H1 _ E1) as (m1 & D1 & I1 & L1).
  destruct (ok_hello _ _ _ _ _ _ H2 _ E2) as (m2 & D2 & I2 & L2).
  rewrite Eh, D2 in D1. injection D1 as ->.
  assert (Hadv : att_hello a1 = att_hello a2) by congruence.
  assert (Hid : id1 = id2) by congruence.
  rewrite (ok_id _ _ _ _ _ _ H1) in C1. rewrite (ok_id _ _ _ _ _ _ H2), <- Hid in C2. rewrite Ec in C1.
  pose proof (carries_fun _ _ _ _ _ _ C1 C2) as ->.
  assert (P : prepareTranscript k secret ps1 = prepareTranscript k secret ps2).
  { unfold prepareTranscript. by rewrite Eh, Ec. }
  rewrite P1, P2 in P. injection P as -> -> ->.
  destruct (ok_contract _ _ _ _ _ _ H1 Hs1) as [c1 K1], (ok_contract _ _ _ _ _ _ H2 Hs2) as [c2 K2].
  rewrite Hadv, A2, K1, K2 in A1. rewrite K1, K2. split_and!; congruence.
Qed.

(** C15: Both ends of an exchange agree.  Take attempts of two engines in any reachable
    states that share the pre-shared secret; whenever the two attempts hold the same
    HELLO and CHALLENGE packet and are past waiting for the CHALLENGE, they have the
    same SessionID, the same transcript, the same two directional keys, the same
    contract computed from the same advertisement, and byte for byte the same FINISH and
    READY packet. *)
Theorem attempts_agree (secret : bytes) (e1 e2 : Engine) (id1 id2 : SessionID) (a1 a2 : attempt)
    (ps1 ps2 : packets) (H1 : reach secret e1) (H2 : reach secret e2)
    (Ha1 : sessions e1 !! id1 = Some a1) (Ha2 : sessions e2 !! id2 = Some a2)
    (Hp : paired a1 a2 ps1 ps2) :
  id1 = id2 /\ transcript a1 = transcript a2 /\ Keys (setup a1) = Keys (setup a2) /\
  setup_Contract (setup a1) = setup_Contract (setup a2) /\ att_hello a1 = att_hello a2 /\ ps1 = ps2.
Proof.
  destruct (reach_open _ _ _ _ H1 Ha1) as (_ & Hs1 & Hk1).
  destruct (reach_open _ _ _ _ H2 Ha2) as (_ & Hs2 & Hk2).
  apply engine_reach_inv in H1 as [W1 _ _ _], H2 as [W2 _ _ _].
  pose proof (wf_att _ _ W1 _ _ Ha1) as O1. pose proof (wf_att _ _ W2 _ _ Ha2) as O2. cbn beta in O1, O2.
  rewrite Hs1 in O1. rewrite Hs2 in O2. rewrite Hk1 in Hk2. injection Hk2 as Hk2.
  rewrite <- Hk2 in O2.
  by eapply paired_agree.
Qed.

(** C20: Every attempt is well formed in every run.  An attempt of a reachable engine is
    filed under its own identifier; its role fits its phase, and dial identifiers are
    given out; before it is established it owns its four packets, and a finished dialler
    keeps none; its HELLO opens under the handshake key to the advertisement the attempt
    records; and past the first phase its CHALLENGE opens to an advertisement whose
    acceptance is the contract, while transcript, directional keys, FINISH and READY are
    exactly what the two packets derive under the secret. *)
Theorem attempts_well_formed (secret : bytes) (e : Engine) (id : SessionID) (a : attempt)
    (Hr : reach secret e) (Ha : sessions e !! id = Some a) :
  Transcript.DeriveHandshakeKey secret = Ok (handshakeKey e) /\
  attempt_ok (handshakeKey e) secret (nextDial e) None id a.
Proof.
  destruct (reach_open _ _ _ _ Hr Ha) as (_ & Hs & Hk). apply engine_reach_inv in Hr as [W _ _ _].
  split; [done|]. rewrite <- Hs. by apply (wf_att _ _ W).
Qed.

(** ** Completion *)

(** The transcript of a proved attempt is that of its Session. *)
Lemma proved_id k secret ps t keys id adv :
  prepareTranscript k secret ps = Ok (t, keys, ps) -> carries WireV2.TypeHello k id (hello ps) adv ->
  Transcript.sessionID t = id.
Proof.
  intros Hp (m & Hm & Hid & _). unfold prepareTranscript in Hp.
  destruct (authenticate (hello ps) k) as [h|] eqn:Hh; [|done]. cbn [result_bind] in Hp.
  destruct (authenticate (challenge ps) k) as [c|]; [|done]. cbn [result_bind] in Hp.
  destruct (Transcript.NewTranscript h c) as [t'|] eqn:Ht; [|done]. cbn [wire result_bind] in Hp.
  go_inv Hp. subst.
  apply authenticate_open in Hh. rewrite Hh in Hm. cbn [result_bind] in Hm.
  unfold Transcript.NewTranscript in Ht. rewrite Hm in Ht. cbn [result_bind] in Ht.
  destruct (WireV2Handshake.DecodeHandshake c) as [mc|]; [|done]. cbn [result_bind] in Ht.
  destruct (_ || _) in Ht; [done|]. destruct (decide _) in Ht; [|done]. by injection Ht as <-.
Qed.

(** C16: An exchange that both ends hold completes.  When a listener's attempt and a
    dialler's attempt of reachable engines with the same secret hold the same HELLO and
    CHALLENGE, the dialler's FINISH, arriving at the listener before the deadline from
    the bound address, establishes the listener's Session if the adapter installs it,
    and a READY is always sent in answer: the send budget keeps one transmission for
    it.  The listener's READY then establishes the dialler's Session in the same way.
    Each Session is announced once, with the setup it agreed on. *)
Theorem exchange_completes (secret : bytes) (server client : Engine) (id : SessionID) (a1 a2 : attempt)
    (ps1 ps2 : packets) (now : Z)
    (H1 : reach secret server) (H2 : reach secret client)
    (Ha1 : sessions server !! id = Some a1) (Ha2 : sessions client !! id = Some a2)
    (Hp : paired a1 a2 ps1 ps2) (Hs1 : state a1 = waitFinish) (Hs2 : state a2 = waitReady) :
  (forall o, arrives now server a1 -> installs now id server o ->
   exists r e' o', Receive now (setup_Binding (setup a1)) (finish ps2) server o = (None, r, e', o') /\
     completed id a1 r e' /\ exists y, y ∈ Sends r /\ send_ID y = id /\ send_Type y = WireV2.TypeReady) /\
  (forall o, arrives now client a2 -> installs now id client o ->
   exists r e' o', Receive now (setup_Binding (setup a2)) (ready ps1) client o = (None, r, e', o') /\
     completed id a2 r e').
Proof.
  destruct (reach_open _ _ _ _ H1 Ha1) as (C1 & S1 & K1).
  destruct (reach_open _ _ _ _ H2 Ha2) as (C2 & S2 & K2).
  apply engine_reach_inv in H1 as [W1 B1 _ _], H2 as [W2 B2 _ _].
  pose proof (wf_att _ _ W1 _ _ Ha1) as O1. pose proof (wf_att _ _ W2 _ _ Ha2) as O2. cbn beta in O1, O2.
  rewrite S1 in O1. rewrite S2 in O2. rewrite K1 in K2. injection K2 as K2. rewrite <- K2 in O2.
  destruct (paired_agree _ _ _ _ _ _ _ _ _ _ _ _ O1 O2 Hp) as (_ & _ & _ & _ & _ & Eps).
  destruct Hp as [P1 P2 [N1 N2] _ _].
  destruct (ok_proved _ _ _ _ _ _ O1 _ N1 P1) as (t1 & sel1 & T1 & Pt1 & _).
  destruct (ok_proved _ _ _ _ _ _ O2 _ N2 P2) as (t2 & sel2 & T2 & Pt2 & _).
  pose proof (proved_id _ _ _ _ _ _ _ Pt1 (ok_hello _ _ _ _ _ _ O1 _ P1)) as I1.
  pose proof (proved_id _ _ _ _ _ _ _ Pt2 (ok_hello _ _ _ _ _ _ O2 _ P2)) as I2.
  split; intros o Har Hin.
  - rewrite <- Eps. by eapply (finish_completes secret).
  - rewrite Eps. by eapply (ready_completes secret).
Qed.

(** ** Time *)

(** C19: After [Advance] nothing is due.  [Advance] of a reachable engine leaves every
    retry, expiry and cached rejection strictly in the future, so the deadline
    [NextDeadline] then names is later than the time given and the caller's timer never
    spins; every attempt still pending has its deadline ahead, and an established Session
    past its deadline keeps no packets. *)
Theorem Advance_schedules (secret : bytes) (now : Z) (e e' : Engine) (o o' : World) (r : Result)
    (Hr : reach secret e) (Ha : Advance now e o = (None, r, e', o')) :
  (forall t, NextDeadline e' = Some t -> now < t) /\
  (forall id a, sessions e' !! id = Some a -> state a <> established \/ att_packets a <> None -> now < deadline a).
Proof.
  apply engine_reach_inv in Hr as [W Hi _ _]. unfold Advance, method, enter in Ha. rewrite Hi in Ha.
  destruct (_ && negb false); [done|]. destruct (hasTime e && _); [done|].
  set (s := {| eng := with_clock now true e; out := o; res := noResult |}) in *.
  injection Ha as _ <- _. destruct (advance_schedule now s (wf_clock _ _ _ _ W)) as [Hs Hx]. split.
  - intros t [(id & a & Hid & Ht)|(x & Hxin & <-)]%NextDeadline_source; [by apply (Hs id a)|by apply Hx].
  - intros id a Hid. by apply timely_deadline, (Hs id a).
Qed.

(** ** Bounds *)

Definition count {A} (P : A -> Prop) `{forall a, Decision (P a)} (m : gmap SessionID A) : Z :=
  Z.of_nat (size (filter (fun x => P x.2) m)).

Lemma msum_count (P : attempt -> Prop) `{forall a, Decision (P a)} (f : attempt -> Z) (m : gmap SessionID attempt) :
  (forall a, f a = if decide (P a) then 1 else 0) -> msum f m = count P m.
Proof.
  intros Hf. unfold count. induction m as [|k a m Hk IH] using map_ind; [done|].
  rewrite msum_insert, IH, Hf by done. destruct (decide (P a)) as [Ha|Ha].
  - rewrite map_filter_insert_True, map_size_insert_None; [lia| |done].
    apply map_lookup_filter_None. by left.
  - rewrite map_filter_insert_False by done. rewrite delete_id by done. lia.
Qed.

(** C18: The state of an engine is bounded and its counters are exact.  In every
    reachable state [pending] is the number of attempts not established, and each dial
    counts its own attempts and never runs more than it asked for at once; attempts that
    were not prepaid, together with waiting preparations, are at most [MaxPending], and
    so are the dials; an attempt has sent at most [MaxSends] times and, while it waits
    for the first answer, one less. *)
Theorem engine_bounded (secret : bytes) (e : Engine) (Hr : reach secret e) :
  pending e = count (fun a => state a <> established) (sessions e) /\
  (forall d x, dials e !! d = Some x ->
    running x = count (fun a => setup_DialID (setup a) = d /\ state a <> established) (sessions e) /\
    running x <= Concurrent (request x)) /\
  count (fun a => prepared a = None /\ state a <> established) (sessions e)
    + Z.of_nat (size (preparations e)) <= MaxPending /\
  Z.of_nat (size (dials e)) <= MaxPending /\
  (forall id a, sessions e !! id = Some a -> 0 <= sends a <= MaxSends /\
    (state a = waitChallenge \/ state a = waitFinish -> sends a <= MaxSends - 1)) /\
  length (rejections e) = MaxRejections.
Proof.
  apply engine_reach_inv in Hr as [W _ _ _]. split_and!; try apply W.
  - rewrite (wf_pending _ _ W). apply msum_count. intros a. unfold live. repeat case_decide; done.
  - intros d x Hd. destruct (wf_dials _ _ W _ _ Hd). split; [|done]. rewrite dok_running by done.
    apply msum_count. intros a. unfold mine, live. repeat case_decide; tauto.
  - pose proof (wf_unpaid _ _ W) as Hu.
    rewrite (msum_count (fun a => prepared a = None /\ state a <> established)) in Hu; [done|].
    intros a. unfold unpaid, live. destruct (prepared a); repeat case_decide; try done; naive_solver.
  - intros id a Ha. destruct (wf_att _ _ W _ _ Ha). done.
Qed.

(** ** Close *)

(** [Close] erases.  [Close] of a reachable engine that is entered leaves it closed
    with no attempt, dial or preparation, nothing pending, and neither the pre-shared
    secret nor the handshake key; every later [Receive] and [Advance] is refused
    with [ErrClosed] and changes nothing. *)
Theorem Close_erases (secret : bytes) (now : Z) (e e' : Engine) (o o' : World) (r : Result)
    (Hr : reach secret e) (Hc : Close now e o = (None, r, e', o')) :
  (eng_closed e' = true /\ sessions e' = ∅ /\ dials e' = ∅ /\ preparations e' = ∅ /\ pending e' = 0 /\
   psk e' = [] /\ handshakeKey e' = zero32) /\
  forall t b p o1, Receive t b p e' o1 = (Some ErrClosed, noResult, e', o1) /\
    Advance t e' o1 = (Some ErrClosed, noResult, e', o1).
Proof.
  assert (I : engine_inv secret e' /\ eng_closed e' = true).
  { apply engine_reach_inv in Hr. split; [by eapply Close_inv|]. destruct Hr as [W Hi _ _].
    unfold Close, method, enter in Hc. rewrite Hi in Hc. cbn [negb] in Hc. rewrite andb_false_r in Hc.
    destruct (hasTime e && _); [done|]. injection Hc as _ <- _. cbn.
    unfold closeEngine. cbn [eng with_clock eng_closed]. destruct (eng_closed e) eqn:Ec; [by cbn; rewrite Ec|].
    set (s := {| eng := with_clock now true e; out := o; res := noResult |}).
    pose proof (closeEngine_empty now s (wf_clock _ _ _ _ W) Ec) as (_ & _ & _ & _ & E & _).
    unfold closeEngine in E. cbn [s eng with_clock eng_closed] in E. by rewrite Ec in E. }
  destruct I as [[W Hi _ Hcl] Hclosed]. destruct (Hcl Hclosed) as (Hs & Hd & Hp & Hk & Hz). split.
  - split_and!; try done. by rewrite (wf_pending _ _ W), Hs, msum_empty.
  - intros t b p o1. unfold Receive, Advance, method, enter. by rewrite Hi, Hclosed.
Qed.
End props.
