(* ===== verification/HandshakeEngineDemo.v ===== *)
(** * A worked run of two handshake engines

    A dialler and a listener with one secret exchange HELLO, CHALLENGE and FINISH over a
    recorded wire; the theorems of [HandshakeProps] are instantiated along the run. *)

From S2P Require Import Prelude Sha256 Handshake HandshakeInv HandshakeSteps HandshakeDial HandshakeReceive HandshakeRun.
From S2P Require Import HandshakeTime HandshakeFinish HandshakeProps.
From S2P Require WireV2 Transcript Negotiation NegotiationProps Credit HandshakeDemo.
Import WireV2 (SessionID).

(** ** The adapter: counted entropy, a wire that records, an installer that agrees *)

Record demoEnv := { seed : Z; wireLog : list bytes }.

#[local] Instance demoAdapter : Adapter.
Proof.
  refine {| Env := demoEnv;
    Entropy := fun e => (Some (be_put 16 (seed e)), {| seed := seed e + 1; wireLog := wireLog e |});
    Emit := fun _ p o => (false, {| credits := credits o; storages := storages o;
      env := {| seed := seed (env o); wireLog := wireLog (env o) ++ [p] |} |});
    Install := fun _ o => (Some 1%positive, false, o);
    Dispose := fun _ _ o => o |}.
  intros e v e' [= <- _]. apply length_be_put.
Defined.

Definition demoLimits : Credit.Limits := {|
  Credit.MaxPeerBytes := 1000000; Credit.MaxSessionBytes := 100000; Credit.MaxSessions := 8;
  Credit.MaxPendingHandshakes := 8; Credit.MaxPendingAccepts := 8; Credit.MaxStreamsPerSession := 8;
  Credit.MaxPeerStreams := 8; Credit.MaxReservations := 100 |}.

Definition demoHeap : Credit.heap := snd (Credit.New demoLimits Credit.emptyHeap).

Definition demoPolicy (listener : bool) : Policy := {|
  pol_Profile := HandshakeDemo.demoProfile;
  pol_Receive := {| Credit.Claim_Bytes := 1000; Credit.BusinessStream := false; Credit.PendingAccept := listener |};
  pol_Initial := [] |}.

Definition demoConfig (l : option Policy) : Config := {|
  Credits := Some 1%positive; Listener := l; hasEntropy := true; hasEmit := true; hasInstall := true;
  hasInstallDeferred := false |}.

Definition demoSecret : bytes := replicate 32 Byte.x07.

Definition zeroEngine : Engine := {|
  config := demoConfig None; psk := []; handshakeKey := []; sessions := ∅; dials := ∅; prepareds := ∅;
  preparations := ∅; rejections := []; pending := 0; nextDial := 0; lastNow := 0; hasTime := false;
  busy := false; eng_closed := true |}.

Definition freshEngine (l : option Policy) : Engine :=
  match New demoSecret (demoConfig l) demoHeap with Ok e => e | Err _ => zeroEngine end.

Definition demoWorld (n : Z) : Outside Env :=
  {| credits := demoHeap; storages := ∅; env := {| seed := n; wireLog := [] |} |}.

Definition here : AddrPort := {| addr := V4 0x0a000001; port := 4000 |}.
Definition there : AddrPort := {| addr := V4 0x0a000002; port := 5000 |}.
Definition link (n : Z) : Binding := {| SocketID := n; Local := here; Remote := there |}.

Definition demoRequest : DialRequest := {|
  req_Policy := demoPolicy false;
  Carriers := [{| car_PathID := 1; car_Binding := link 1 |}; {| car_PathID := 2; car_Binding := link 2 |}];
  Concurrent := 1; Deadline := None |}.

(** ** The run *)

Definition engineOf {A} (x : A * Result * Engine * Outside Env) : Engine := x.1.2.
Definition worldOf {A} (x : A * Result * Engine * Outside Env) : Outside Env := x.2.
Definition lastPacket {A} (x : A * Result * Engine * Outside Env) : bytes :=
  List.last (wireLog (env (worldOf x))) [].

Definition listener0 : Engine := freshEngine (Some (demoPolicy true)).
Definition dialler0 : Engine := freshEngine None.

Definition dialStep := BeginDial 0 demoRequest dialler0 (demoWorld 1000).
Definition hello1 : bytes := Eval vm_compute in lastPacket dialStep.
Definition listenStep := Receive 0 (link 1) hello1 listener0 (demoWorld 2000).
Definition challenge1 : bytes := Eval vm_compute in lastPacket listenStep.
Definition answerStep := Receive 0 (link 1) challenge1 (engineOf dialStep) (worldOf dialStep).

Definition listener1 : Engine := engineOf listenStep.
Definition dialler1 : Engine := engineOf answerStep.
Definition demoID : SessionID := be_put 16 1000.


(** The datagram of the HELLO with one byte of its tag changed. *)
Definition forged1 : bytes := Eval vm_compute in take 511 hello1 ++ [Byte.x00].

(** What the run computes, in one check. *)
Definition agreed (a1 a2 : attempt) : bool :=
  match att_packets a1, att_packets a2 with
  | Some ps1, Some ps2 => bool_decide (hello ps1 = hello ps2) && bool_decide (challenge ps1 = challenge ps2)
  | _, _ => false
  end.

Definition inTime (now : Z) (e : Engine) (a : attempt) : bool :=
  (lastNow e <=? now) && (now <? deadline a) && validBinding (setup_Binding (setup a)).

Definition installed (now : Z) (e : Engine) (o : Outside Env) : bool :=
  match install demoID {| eng := with_clock now true e; out := o; res := noResult |} with
  | (None, _) => true | _ => false end.

Definition demoCheck : bool :=
  is_ok (New demoSecret (demoConfig (Some (demoPolicy true))) demoHeap)
  && is_ok (New demoSecret (demoConfig None) demoHeap)
  && negb (is_ok (WireV2.open forged1 (handshakeKey listener0)))
  && match sessions listener1 !! demoID, sessions dialler1 !! demoID with
     | Some a1, Some a2 =>
         agreed a1 a2 && bool_decide (state a1 = waitFinish) && bool_decide (state a2 = waitReady)
         && inTime 1 listener1 a1 && inTime 1 dialler1 a2
         && installed 1 listener1 (worldOf listenStep) && installed 1 dialler1 (worldOf answerStep)
     | _, _ => false
     end
  && bool_decide ((Advance (2 * 10 ^ 9) listener1 (worldOf listenStep)).1.1.1 = None)
  && bool_decide ((Close 1 dialler1 (worldOf answerStep)).1.1.1 = None).

Lemma demo_check : demoCheck = true.
Proof. vm_compute. reflexivity. Qed.

(** ** The run is reachable *)

Lemma call_parts {A B C D} (x : A * B * C * D) : x = (x.1.1.1, x.1.1.2, x.1.2, x.2).
Proof. by destruct x as [[[? ?] ?] ?]. Qed.

Lemma demoProfile_policy l : NegotiationProps.Profile_wf (pol_Profile (demoPolicy l)).
Proof. apply HandshakeDemo.demoProfile_wf. Qed.

Lemma fresh_reach l :
  is_ok (New demoSecret (demoConfig l) demoHeap) = true ->
  (forall p, l = Some p -> NegotiationProps.Profile_wf (pol_Profile p)) -> reach demoSecret (freshEngine l).
Proof.
  unfold freshEngine. intros Hok Hl. destruct (New demoSecret _ demoHeap) as [e|] eqn:E; [|done].
  by apply (reach_New demoSecret (demoConfig l) demoHeap).
Qed.

Lemma fresh_empty l :
  is_ok (New demoSecret (demoConfig l) demoHeap) = true -> sessions (freshEngine l) = ∅.
Proof.
  unfold freshEngine. destruct (New demoSecret _ demoHeap) as [e|] eqn:E; [|discriminate]. intros _.
  unfold New in E. go_step E; [discriminate|]. apply result_bind_ok in E as (k & _ & E).
  destruct (match Listener _ with Some _ => _ | None => None end); [discriminate|]. by injection E as <-.
Qed.

Lemma demoRequest_wf : request_wf demoRequest.
Proof. split; [apply demoProfile_policy|]. repeat constructor; vm_compute; congruence. Qed.

Lemma demo_start :
  is_ok (New demoSecret (demoConfig (Some (demoPolicy true))) demoHeap) = true /\
  is_ok (New demoSecret (demoConfig None) demoHeap) = true.
Proof. pose proof demo_check as E. unfold demoCheck in E. bools. split; assumption. Qed.

Lemma listener0_reach : reach demoSecret listener0.
Proof.
  apply fresh_reach; [apply demo_start|]. intros p [= <-]. apply demoProfile_policy.
Qed.

Lemma listener1_reach : reach demoSecret listener1.
Proof.
  exact (reach_call _ _ _ _ _ listener0_reach (call_Receive _ _ _ _ _ _ _ _ _ (call_parts listenStep))).
Qed.

Lemma dialler1_reach : reach demoSecret dialler1.
Proof.
  assert (R0 : reach demoSecret dialler0) by (apply (fresh_reach None); [apply demo_start|discriminate]).
  pose proof (reach_call _ _ _ _ _ R0 (call_BeginDial _ _ _ _ _ _ _ _ demoRequest_wf (call_parts dialStep))) as R1.
  exact (reach_call _ _ _ _ _ R1 (call_Receive _ _ _ _ _ _ _ _ _ (call_parts answerStep))).
Qed.

Lemma some_both {A B} (m1 : option A) (m2 : option B) (f : A -> B -> bool) :
  match m1, m2 with Some a1, Some a2 => f a1 a2 | _, _ => false end = true ->
  exists a1 a2, m1 = Some a1 /\ m2 = Some a2 /\ f a1 a2 = true.
Proof. destruct m1 as [a1|], m2 as [a2|]; try discriminate. eauto. Qed.

Lemma agreed_paired a1 a2 :
  agreed a1 a2 = true -> state a1 = waitFinish -> state a2 = waitReady ->
  exists ps1 ps2, paired a1 a2 ps1 ps2.
Proof.
  intros (ps1 & ps2 & E1 & E2 & E)%some_both S1 S2. bools. exists ps1, ps2. split; try done.
  split; congruence.
Qed.

Lemma inTime_arrives now e a : inTime now e a = true -> arrives now e a.
Proof. unfold inTime. intros E. bools. split; [lia|lia|done]. Qed.

Lemma installed_installs now e o : installed now e o = true -> installs now demoID e o.
Proof.
  unfold installed, installs. destruct (install demoID _) as [[?|] s]; [discriminate|eauto].
Qed.

(** The two attempts of the run, with what the theorems ask of them. *)
Lemma demo_attempts : exists a1 a2 ps1 ps2,
  sessions listener1 !! demoID = Some a1 /\ sessions dialler1 !! demoID = Some a2 /\
  paired a1 a2 ps1 ps2 /\ state a1 = waitFinish /\ state a2 = waitReady /\
  arrives 1 listener1 a1 /\ arrives 1 dialler1 a2 /\
  installs 1 demoID listener1 (worldOf listenStep) /\ installs 1 demoID dialler1 (worldOf answerStep).
Proof.
  pose proof demo_check as E. unfold demoCheck in E.
  apply andb_prop in E as [E _]. apply andb_prop in E as [E _]. apply andb_prop in E as [_ E].
  apply some_both in E as (a1 & a2 & E1 & E2 & E). bools.
  match goal with E : agreed a1 a2 = true |- _ => apply agreed_paired in E as (ps1 & ps2 & Hp); [|assumption..] end.
  exists a1, a2, ps1, ps2. split_and!; try assumption;
    try (apply inTime_arrives; assumption); apply installed_installs; assumption.
Qed.

(** ** The theorems at the run *)

Lemma Receive_unauthenticated_witness :
  (forall k ae, holds listener0 k -> WireV2.open forged1 k <> Ok ae) /\
  let '(_, r, e', o') := Receive 0 (link 1) forged1 listener0 (demoWorld 0) in
  r = noResult /\ o' = demoWorld 0 /\ (e' = listener0 \/ e' = leave (with_clock 0 true listener0)).
Proof.
  assert (Hno : forall k ae, holds listener0 k -> WireV2.open forged1 k <> Ok ae).
  { pose proof demo_check as E. unfold demoCheck in E.
    do 3 apply andb_prop in E as [E _]. apply andb_prop in E as [_ E]. apply negb_true_iff in E.
    assert (Hs : sessions listener0 = ∅).
    { exact (fresh_empty (Some (demoPolicy true)) (proj1 demo_start)). }
    intros k ae [->|(id & a & Ha & _)] Ho; [rewrite Ho in E; discriminate E|].
    rewrite Hs, lookup_empty in Ha. discriminate Ha. }
  split; [exact Hno|]. exact (Receive_unauthenticated 0 (link 1) forged1 listener0 (demoWorld 0) Hno).
Defined.

Lemma attempts_agree_witness :
  exists a1 a2, sessions listener1 !! demoID = Some a1 /\ sessions dialler1 !! demoID = Some a2 /\
    Keys (setup a1) = Keys (setup a2) /\ setup_Contract (setup a1) = setup_Contract (setup a2).
Proof.
  destruct demo_attempts as (a1 & a2 & ps1 & ps2 & E1 & E2 & Hp & _).
  pose proof (attempts_agree demoSecret listener1 dialler1 demoID demoID a1 a2 ps1 ps2
    listener1_reach dialler1_reach E1 E2 Hp) as (_ & _ & Hk & Hc & _).
  exists a1, a2. split_and!; assumption.
Defined.

Lemma attempts_well_formed_witness :
  exists a, sessions listener1 !! demoID = Some a /\
    attempt_ok (handshakeKey listener1) demoSecret (nextDial listener1) None demoID a.
Proof.
  destruct demo_attempts as (a1 & a2 & ps1 & ps2 & E1 & _). exists a1. split; [assumption|].
  exact (proj2 (attempts_well_formed demoSecret listener1 demoID a1 listener1_reach E1)).
Defined.

Lemma exchange_completes_witness :
  exists a1 a2 ps1 ps2 r e' o' r2 e2 o2,
    Receive 1 (setup_Binding (setup a1)) (finish ps2) listener1 (worldOf listenStep) = (None, r, e', o') /\
    completed demoID a1 r e' /\
    Receive 1 (setup_Binding (setup a2)) (ready ps1) dialler1 (worldOf answerStep) = (None, r2, e2, o2) /\
    completed demoID a2 r2 e2.
Proof.
  destruct demo_attempts as (a1 & a2 & ps1 & ps2 & E1 & E2 & Hp & S1 & S2 & A1 & A2 & I1 & I2).
  pose proof (exchange_completes demoSecret listener1 dialler1 demoID a1 a2 ps1 ps2 1
    listener1_reach dialler1_reach E1 E2 Hp S1 S2) as [Hs Hd].
  destruct (Hs _ A1 I1) as (r & e' & o' & Hr & Hc & _). destruct (Hd _ A2 I2) as (r2 & e2 & o2 & Hr2 & Hc2).
  exists a1, a2, ps1, ps2, r, e', o', r2, e2, o2. split_and!; assumption.
Defined.

Lemma call_none {A B C D} (x : option A * B * C * D) :
  bool_decide (x.1.1.1 = None) = true -> x = (None, x.1.1.2, x.1.2, x.2).
Proof. intros E. apply bool_decide_eq_true in E. destruct x as [[[? ?] ?] ?]. cbn in *. by subst. Qed.

Lemma Advance_schedules_witness :
  match NextDeadline (engineOf (Advance (2 * 10 ^ 9) listener1 (worldOf listenStep))) with
  | Some t => 2 * 10 ^ 9 < t
  | None => True
  end.
Proof.
  pose proof demo_check as E. unfold demoCheck in E.
  apply andb_prop in E as [E _]. apply andb_prop in E as [_ E]. apply call_none in E.
  pose proof (proj1 (Advance_schedules demoSecret (2 * 10 ^ 9) listener1 _ _ _ _ listener1_reach E)) as Hd.
  unfold engineOf. destruct (NextDeadline _) as [t|]; [exact (Hd t eq_refl)|exact I].
Defined.

Lemma engine_bounded_witness :
  reach demoSecret dialler1 /\ Z.of_nat (size (dials dialler1)) <= MaxPending.
Proof.
  pose proof (engine_bounded demoSecret dialler1 dialler1_reach) as (_ & _ & _ & Hd & _).
  split; [exact dialler1_reach|exact Hd].
Defined.

Lemma Close_erases_witness :
  let e' := engineOf (Close 1 dialler1 (worldOf answerStep)) in
  eng_closed e' = true /\ sessions e' = ∅ /\ psk e' = [].
Proof.
  pose proof demo_check as E. unfold demoCheck in E. apply andb_prop in E as [_ E]. apply call_none in E.
  destruct (Close_erases demoSecret 1 dialler1 _ _ _ _ dialler1_reach E) as [(Hc & Hs & _ & _ & _ & Hk & _) _].
  cbv zeta. split_and!; assumption.
Defined.
