(* ===== verification/Fec.v ===== *)
(** * Forward error correction: limits and encoder ([internal/fec])

    [DeriveLimits] with its overflow checks, [shardSizeForDatagram], and the
    [Encoder] that numbers blocks and splits a datagram into shards.  The
    Reed-Solomon arithmetic is the third-party package klauspost/reedsolomon: a
    [ReedSolomon] argument of the constructors, with the documented behaviour of
    a codec as the record [Lawful]; [xorCodec] is a concrete lawful codec. *)

From S2P Require Import Prelude.

(** ** Errors, parameters and limits *)

Inductive FecError :=
| ErrInvalidParameters
| ErrInvalidBudget
| ErrInvalidDecoderConfig
| ErrMessageTooLarge
| ErrPacketIDExhausted
| ErrInvalidShard
| ErrInconsistentBlock
| ErrConflictingShard
| ErrDecoderFull
| ErrClosed
| ErrEncode
| ErrDecode.
#[global] Instance FecError_eq_dec : EqDecision FecError.
Proof. solve_decision. Defined.

Definition MaxTotalShards : Z := 256.
Definition maxWireOriginalLength : Z := 2 ^ 32 - 1.

(** Go's [int]: two's complement on 64 bits. *)
Definition goInt (z : Z) : Z := (z + 2 ^ 63) mod 2 ^ 64 - 2 ^ 63.
Definition in_int (z : Z) : Prop := - 2 ^ 63 <= z < 2 ^ 63.

Record Params := { DataShards : Z; ParityShards : Z }.
#[global] Instance Params_eq_dec : EqDecision Params.
Proof. solve_decision. Defined.

Record Budget := { MaxUDPPayload : Z; DataShardWireOverhead : Z; MaxDatagramSize : Z }.

Record Limits := {
  lim_MaxUDPPayload : Z;
  lim_DataShardWireOverhead : Z;
  ShardCapacity : Z;
  FECDerivedDatagramLimit : Z;
  EffectiveDatagramLimit : Z }.

Definition validateParams (params : Params) : result FecError Z :=
  fail DataShards params <=? 0 with ErrInvalidParameters in
  fail ParityShards params <=? 0 with ErrInvalidParameters in
  fail (MaxTotalShards <? ParityShards params)
       || (goInt (MaxTotalShards - ParityShards params) <? DataShards params)
    with ErrInvalidParameters in
  Ok (goInt (DataShards params + ParityShards params)).

Definition DeriveLimits (params : Params) (budget : Budget) : result FecError Limits :=
  let? total := validateParams params in
  fail DataShardWireOverhead budget <? 0 with ErrInvalidBudget in
  fail MaxUDPPayload budget <=? DataShardWireOverhead budget with ErrInvalidBudget in
  fail MaxDatagramSize budget <=? 0 with ErrInvalidBudget in
  fail maxWireOriginalLength <? u64 (MaxDatagramSize budget) with ErrInvalidBudget in
  let capacity := goInt (MaxUDPPayload budget - DataShardWireOverhead budget) in
  fail Z.quot maxInt (DataShards params) <? capacity with ErrInvalidBudget in
  fail Z.quot maxInt total <? capacity with ErrInvalidBudget in
  let fecLimit := goInt (DataShards params * capacity) in
  Ok {| lim_MaxUDPPayload := MaxUDPPayload budget;
        lim_DataShardWireOverhead := DataShardWireOverhead budget;
        ShardCapacity := capacity;
        FECDerivedDatagramLimit := fecLimit;
        EffectiveDatagramLimit := Z.min fecLimit (MaxDatagramSize budget) |}.

Definition shardSizeForDatagram (length dataShards : Z) : Z :=
  if length =? 0 then 1 else
  let result := Z.quot length dataShards in
  if negb (Z.rem length dataShards =? 0) then goInt (result + 1) else result.

(** ** The third-party codec *)

(** [reedsolomon.Encoder]: [Encode] rewrites the parity shards in place,
    [ReconstructData] fills missing ([nil]) data shards, [Reconstruct] all missing
    shards, [Verify] checks the parity; [None] is an error. *)
Record Codec := {
  codec_Encode : list bytes -> option (list bytes);
  codec_ReconstructData : list (option bytes) -> option (list (option bytes));
  codec_Reconstruct : list (option bytes) -> option (list bytes);
  codec_Verify : list bytes -> option bool }.

(** [reedsolomon.New], [None] when it rejects the shard counts. *)
Class ReedSolomon := reedsolomon_New : Z -> Z -> option Codec.

(** How many shards are there, i.e. not [nil]. *)
Definition arrived (shards : list (option bytes)) : nat := length (omap id shards).

(** What the package documents for [k] data and [m] parity shards. *)
Record Lawful (k m : nat) (c : Codec) : Prop := {
  encode_law : forall size data zeros,
    (0 < size)%nat -> length data = k -> length zeros = m ->
    Forall (fun s => length s = size) (data ++ zeros) ->
    exists parity, codec_Encode c (data ++ zeros) = Some (data ++ parity) /\
      length parity = m /\ Forall (fun s => length s = size) parity;
  reconstruct_law : forall size data zeros codeword received,
    (0 < size)%nat -> Forall (fun s => length s = size) codeword ->
    length data = k -> length zeros = m ->
    codec_Encode c (data ++ zeros) = Some codeword ->
    length received = length codeword ->
    (forall i s, received !! i = Some (Some s) -> codeword !! i = Some s) ->
    (k <= arrived received)%nat ->
    exists full, codec_ReconstructData c received = Some full /\
      take k full = Some <$> data;
  reconstruct_all_law : forall size data zeros codeword received,
    (0 < size)%nat -> Forall (fun s => length s = size) codeword ->
    length data = k -> length zeros = m ->
    codec_Encode c (data ++ zeros) = Some codeword ->
    length received = length codeword ->
    (forall i s, received !! i = Some (Some s) -> codeword !! i = Some s) ->
    (k <= arrived received)%nat ->
    codec_Reconstruct c received = Some codeword;
  reconstruct_keeps_law : forall size received full,
    (0 < size)%nat -> length received = (k + m)%nat ->
    (forall i s, received !! i = Some (Some s) -> length s = size) ->
    codec_Reconstruct c received = Some full ->
    length full = (k + m)%nat /\ Forall (fun s => length s = size) full /\
    (forall i s, received !! i = Some (Some s) -> full !! i = Some s);
  verify_law : forall size data parity zeros,
    (0 < size)%nat -> length data = k -> length parity = m -> length zeros = m ->
    Forall (fun s => length s = size) (data ++ parity) ->
    Forall (fun s => length s = size) zeros ->
    codec_Verify c (data ++ parity)
    = Some (bool_decide (codec_Encode c (data ++ zeros) = Some (data ++ parity))) }.

Definition newCodec `{ReedSolomon} (params : Params) : result FecError (Codec * Z) :=
  let? total := validateParams params in
  match reedsolomon_New (DataShards params) (ParityShards params) with
  | None => Err ErrInvalidParameters
  | Some codec => Ok (codec, total)
  end.

(** ** The encoder *)

Record EncodedBlock := {
  PacketID : Z; OriginalLength : Z; BlockParams : Params; Shards : list bytes }.

Record Encoder := {
  params : Params;
  limits : Limits;
  codec : Codec;
  total : Z;
  next : Z;
  exhausted : bool }.

Definition newEncoderAt `{ReedSolomon} (ps : Params) (budget : Budget) (nxt : Z) (exh : bool)
    : result FecError Encoder :=
  let? lims := DeriveLimits ps budget in
  let? ' (cdc, tot) := newCodec ps in
  Ok {| params := ps; limits := lims; codec := cdc; total := tot; next := nxt; exhausted := exh |}.

Definition NewEncoder `{ReedSolomon} (ps : Params) (budget : Budget) : result FecError Encoder :=
  newEncoderAt ps budget 0 false.

(** Go's [copy(dst, src)]. *)
Definition go_copy (dst src : bytes) : bytes :=
  take (length dst) src ++ drop (length src) dst.

(** The [total] adjacent slices of one backing allocation. *)
Definition sliceShards (count size : nat) (backing : bytes) : list bytes :=
  (fun index => slice (index * size) (index * size + size) backing) <$> seq 0 count.

Definition takePacketID (e : Encoder) : Encoder :=
  {| params := params e; limits := limits e; codec := codec e; total := total e;
     next := if next e =? maxUint64 then next e else u64 (next e + 1);
     exhausted := if next e =? maxUint64 then true else exhausted e |}.

Definition Encode (e : Encoder) (payload : bytes) : result FecError EncodedBlock * Encoder :=
  if EffectiveDatagramLimit (limits e) <? len payload then (Err ErrMessageTooLarge, e) else
  if exhausted e then (Err ErrPacketIDExhausted, e) else
  let shardSize := shardSizeForDatagram (len payload) (DataShards (params e)) in
  if ShardCapacity (limits e) <? shardSize then (Err ErrMessageTooLarge, e) else
  if Z.quot maxInt (total e) <? shardSize then (Err ErrEncode, e) else
  let size := Z.to_nat shardSize in
  let front := Z.to_nat (goInt (DataShards (params e) * shardSize)) in
  let backing := replicate (Z.to_nat (goInt (total e * shardSize))) Byte.x00 in
  let filled := go_copy (slice 0 front backing) payload
                ++ slice front (length backing) backing in
  match codec_Encode (codec e) (sliceShards (Z.to_nat (total e)) size filled) with
  | None => (Err ErrEncode, e)
  | Some shards =>
      (Ok {| PacketID := next e; OriginalLength := len payload;
             BlockParams := params e; Shards := shards |}, takePacketID e)
  end.

(** ** Integer facts *)

Lemma goInt_small z : in_int z -> goInt z = z.
Proof. unfold goInt, in_int. intros H. rewrite Z.mod_small by lia. lia. Qed.

Lemma quot_bound a b : 0 < b -> (Z.quot maxInt b <? a) = (maxInt <? a * b).
Proof.
  intros Hb. rewrite Z.quot_div_nonneg by (unfold maxInt; lia).
  destruct (Z.ltb_spec maxInt (a * b)); destruct (Z.ltb_spec (maxInt / b) a); try done; exfalso.
  - assert (a * b <= maxInt / b * b) by nia.
    pose proof (Z.mul_div_le maxInt b Hb). lia.
  - pose proof (Z.div_le_lower_bound maxInt b a Hb). lia.
Qed.

Record params_ok (p : Params) : Prop := {
  pk_data : 1 <= DataShards p;
  pk_parity : 1 <= ParityShards p;
  pk_total : DataShards p + ParityShards p <= MaxTotalShards }.

Lemma validateParams_iff p t :
  validateParams p = Ok t <-> params_ok p /\ t = DataShards p + ParityShards p.
Proof.
  unfold validateParams. split.
  - intros H. go_inv H. apply orb_false_elim in E1 as [E1 E2]. unfold MaxTotalShards in *.
    rewrite goInt_small in E2 by (unfold in_int; lia).
    rewrite goInt_small in H by (unfold in_int; lia).
    split; [split; unfold MaxTotalShards|]; lia.
  - intros [[H1 H2 H3] ->]. unfold MaxTotalShards in *.
    rewrite !goInt_small by (unfold in_int; lia).
    replace (_ <=? 0) with false by lia. replace (_ <=? 0) with false by lia.
    by replace (_ || _) with false by lia.
Qed.

(** ** Limits *)

(** What [DeriveLimits] computes, over unbounded integers. *)
Definition limits_of (p : Params) (b : Budget) : Limits :=
  let capacity := MaxUDPPayload b - DataShardWireOverhead b in
  {| lim_MaxUDPPayload := MaxUDPPayload b;
     lim_DataShardWireOverhead := DataShardWireOverhead b;
     ShardCapacity := capacity;
     FECDerivedDatagramLimit := DataShards p * capacity;
     EffectiveDatagramLimit := Z.min (DataShards p * capacity) (MaxDatagramSize b) |}.

Record budget_ok (p : Params) (b : Budget) : Prop := {
  bk_overhead : 0 <= DataShardWireOverhead b;
  bk_room : DataShardWireOverhead b < MaxUDPPayload b;
  bk_datagram : 1 <= MaxDatagramSize b <= maxWireOriginalLength;
  bk_total : (DataShards p + ParityShards p) * (MaxUDPPayload b - DataShardWireOverhead b) <= maxInt }.

Record budget_typed (b : Budget) : Prop := {
  bt_payload : in_int (MaxUDPPayload b);
  bt_overhead : in_int (DataShardWireOverhead b);
  bt_datagram : in_int (MaxDatagramSize b) }.

Lemma DeriveLimits_iff p b l :
  budget_typed b ->
  DeriveLimits p b = Ok l <-> params_ok p /\ budget_ok p b /\ l = limits_of p b.
Proof.
  intros [T1 T2 T3]. unfold in_int in *. unfold DeriveLimits, limits_of. split.
  - intros H. go_inv H. apply validateParams_iff in E as [P ->]. pose proof P as [P1 P2 P3].
    unfold u64 in E3. rewrite wrap_small in E3 by (unfold in_u; lia).
    rewrite goInt_small in * by (unfold in_int; lia).
    rewrite quot_bound in E4, E5 by lia.
    assert (DataShards p * (MaxUDPPayload b - DataShardWireOverhead b) <= maxInt) by nia.
    rewrite goInt_small in H by (unfold in_int, maxInt in *; nia).
    split; [done|]. split; [split; lia|done].
  - intros (P & [B1 B2 B3 B4] & ->). pose proof P as [P1 P2 P3].
    rewrite (proj2 (validateParams_iff p _)) by done. simpl.
    unfold maxWireOriginalLength, maxInt in *.
    unfold u64. rewrite wrap_small by (unfold in_u; lia).
    rewrite (goInt_small (MaxUDPPayload b - _)) by (unfold in_int; lia).
    fold maxInt. rewrite !quot_bound by lia.
    assert (DataShards p * (MaxUDPPayload b - DataShardWireOverhead b) <= maxInt)
      by (unfold maxInt; nia).
    unfold maxInt in *. rewrite goInt_small by (unfold in_int; nia).
    replace (_ <? 0) with false by lia. replace (_ <=? _) with false by lia.
    replace (_ <=? 0) with false by lia. by repeat replace (_ <? _) with false by nia.
Qed.

(** [DeriveLimits] accepts exactly the parameters and budgets whose
    [(k + m) * capacity] allocation fits Go's [int], and then its limits are those
    of unbounded arithmetic: no addition or multiplication wraps. *)
Theorem DeriveLimits_exact p b l :
  budget_typed b ->
  DeriveLimits p b = Ok l <-> params_ok p /\ budget_ok p b /\ l = limits_of p b.
Proof. apply DeriveLimits_iff. Qed.

(** The least positive shard size whose [k] data shards hold the datagram. *)
Lemma shardSize_spec length k :
  0 <= length < 2 ^ 62 -> 1 <= k ->
  let size := shardSizeForDatagram length k in
  1 <= size <= Z.max 1 length /\ length <= k * size /\
  (forall t, 1 <= t -> length <= k * t -> size <= t).
Proof.
  intros Hl Hk. cbv zeta. unfold shardSizeForDatagram.
  destruct (Z.eqb_spec length 0) as [->|Hne]; [repeat split; try lia; intros; lia|].
  rewrite Z.rem_mod_nonneg, Z.quot_div_nonneg by lia.
  pose proof (Z.div_mod length k ltac:(lia)) as Hd.
  pose proof (Z.mod_pos_bound length k ltac:(lia)) as Hm.
  assert (Hdl : 0 <= length / k <= length) by (split; [apply Z.div_pos; lia|apply Z.div_le_upper_bound; nia]).
  destruct (Z.eqb_spec (length mod k) 0) as [H0|H0]; simpl.
  - split; [nia|]. split; [lia|]. intros t Ht Hlt. nia.
  - rewrite goInt_small by (unfold in_int; lia).
    split; [split; [lia|]; nia|]. split; [lia|]. intros t Ht Hlt. nia.
Qed.

(** ** Shards of one backing array *)

Lemma length_sliceShards n size b : length (sliceShards n size b) = n.
Proof. unfold sliceShards. by rewrite length_fmap, length_seq. Qed.

Lemma sliceShards_sizes n size b :
  (n * size <= length b)%nat -> Forall (fun s => length s = size) (sliceShards n size b).
Proof.
  intros H. apply Forall_fmap, Forall_forall. intros i Hi%elem_of_seq. cbn.
  rewrite length_slice by nia. lia.
Qed.

Lemma sliceShards_S n size b :
  sliceShards (S n) size b = sliceShards n size b ++ [slice (n * size) (n * size + size) b].
Proof. unfold sliceShards. by rewrite seq_S, fmap_app. Qed.

Lemma concat_sliceShards n size b :
  (n * size <= length b)%nat -> concat (sliceShards n size b) = take (n * size) b.
Proof.
  induction n as [|n IH]; intros H; [done|].
  rewrite sliceShards_S, concat_app, IH by lia. cbn [concat]. rewrite app_nil_r.
  rewrite <- slice_0_take, slice_join by lia. rewrite slice_0_take. f_equal. lia.
Qed.

Lemma sliceShards_add n m size b :
  exists rest, sliceShards (n + m) size b = sliceShards n size b ++ rest /\ length rest = m.
Proof.
  unfold sliceShards. rewrite seq_app, fmap_app. eexists. split; [done|].
  by rewrite length_fmap, length_seq.
Qed.

(** ** The encoder *)

Record encoder_ok (e : Encoder) : Prop := {
  eo_params : params_ok (params e);
  eo_total : total e = DataShards (params e) + ParityShards (params e);
  eo_capacity : 1 <= ShardCapacity (limits e);
  eo_derived : FECDerivedDatagramLimit (limits e)
    = DataShards (params e) * ShardCapacity (limits e);
  eo_effective : 1 <= EffectiveDatagramLimit (limits e)
    <= Z.min (FECDerivedDatagramLimit (limits e)) maxWireOriginalLength;
  eo_alloc : total e * ShardCapacity (limits e) <= maxInt;
  eo_next : in_u 64 (next e) }.

Lemma limits_of_facts p b :
  params_ok p -> budget_ok p b ->
  1 <= ShardCapacity (limits_of p b) /\
  1 <= EffectiveDatagramLimit (limits_of p b)
    <= Z.min (FECDerivedDatagramLimit (limits_of p b)) maxWireOriginalLength.
Proof. intros [] []. unfold limits_of. cbn. nia. Qed.

Lemma newEncoderAt_ok `{ReedSolomon} p b nxt exh e :
  budget_typed b -> in_u 64 nxt -> newEncoderAt p b nxt exh = Ok e ->
  encoder_ok e /\ params e = p /\ limits e = limits_of p b /\ next e = nxt /\ exhausted e = exh /\
  reedsolomon_New (DataShards p) (ParityShards p) = Some (codec e).
Proof.
  intros T Hn H0. unfold newEncoderAt in H0. go_inv H0. destruct x0 as [cdc tot].
  apply (DeriveLimits_iff p b x T) in E as (P & B & ->). subst e. cbn.
  unfold newCodec in E0. go_inv E0. apply validateParams_iff in E as [_ E].
  injection E1 as -> ->. subst.
  pose proof (limits_of_facts p b P B) as [F1 F2].
  split; [|done]. split; cbn; try done. apply B.
Qed.

(** The block [Encode] makes of [payload]: [k] data shards whose concatenation is
    the payload padded with zeros, then [m] parity shards. *)
Record encodes (p : Params) (c : Codec) (payload : bytes) (blk : EncodedBlock) : Prop := {
  en_length : OriginalLength blk = len payload;
  en_params : BlockParams blk = p;
  en_shards : exists data zeros parity,
    length data = Z.to_nat (DataShards p) /\ length zeros = Z.to_nat (ParityShards p) /\
    length parity = Z.to_nat (ParityShards p) /\
    codec_Encode c (data ++ zeros) = Some (Shards blk) /\ Shards blk = data ++ parity /\
    take (length payload) (concat data) = payload /\
    Forall (fun s => len s = shardSizeForDatagram (len payload) (DataShards p)) (Shards blk) }.

Lemma go_copy_prefix dst src :
  (length src <= length dst)%nat -> go_copy dst src = src ++ drop (length src) dst.
Proof. intros H. unfold go_copy. by rewrite firstn_all2 by done. Qed.

Lemma length_go_copy dst src : length (go_copy dst src) = length dst.
Proof. unfold go_copy. rewrite length_app, length_take, length_drop. lia. Qed.

Lemma padded_front payload k m size :
  (length payload <= k * size)%nat ->
  let backing := replicate ((k + m) * size) Byte.x00 in
  let filled := go_copy (slice 0 (k * size) backing) payload
                ++ slice (k * size) (length backing) backing in
  length filled = ((k + m) * size)%nat /\
  take (length payload) (take (k * size) filled) = payload.
Proof.
  intros Hp. cbv zeta. rewrite length_replicate.
  assert (Hk : length (slice 0 (k * size) (replicate ((k + m) * size) Byte.x00)) = (k * size)%nat)
    by (rewrite length_slice; [lia|]; rewrite length_replicate; nia).
  split.
  - rewrite length_app, length_go_copy, Hk, length_slice by (rewrite length_replicate; lia). nia.
  - rewrite take_app_length' by (by rewrite length_go_copy).
    rewrite go_copy_prefix by lia. apply take_app_length.
Qed.

Lemma encode_shards c k m size payload :
  Lawful k m c -> (1 <= size)%nat -> (length payload <= k * size)%nat ->
  let backing := replicate ((k + m) * size) Byte.x00 in
  let filled := go_copy (slice 0 (k * size) backing) payload
                ++ slice (k * size) (length backing) backing in
  exists data zeros parity,
    sliceShards (k + m) size filled = data ++ zeros /\
    length data = k /\ length zeros = m /\ length parity = m /\
    codec_Encode c (data ++ zeros) = Some (data ++ parity) /\
    take (length payload) (concat data) = payload /\
    Forall (fun s => length s = size) (data ++ parity).
Proof.
  intros L Hs Hp. cbv zeta.
  destruct (padded_front payload k m size Hp) as [Hf1 Hf2]. cbv zeta in *.
  set (filled := go_copy _ _ ++ _) in *. clearbody filled.
  pose proof (sliceShards_sizes (k + m) size filled ltac:(lia)) as Hsz.
  destruct (sliceShards_add k m size filled) as (zeros & Hz & Hlz).
  rewrite Hz in Hsz.
  destruct (encode_law _ _ _ L size (sliceShards k size filled) zeros) as (parity & He & Hlp & Hpar);
    [lia|by rewrite length_sliceShards|done|done|].
  exists (sliceShards k size filled), zeros, parity.
  split; [done|]. split; [by rewrite length_sliceShards|]. do 2 (split; [done|]).
  split; [done|]. split.
  - rewrite concat_sliceShards by nia. done.
  - apply Forall_app in Hsz as [? _]. by apply Forall_app.
Qed.

(** What [Encode] returns, on every branch: the two rejections consume no
    PacketID, and otherwise it always succeeds, with the next PacketID and a
    systematic encoding of the padded payload.  The later size and overflow checks
    of the code never fire on an encoder that [NewEncoder] built. *)
Theorem Encode_exact e payload :
  encoder_ok e ->
  Lawful (Z.to_nat (DataShards (params e))) (Z.to_nat (ParityShards (params e))) (codec e) ->
  if EffectiveDatagramLimit (limits e) <? len payload
  then Encode e payload = (Err ErrMessageTooLarge, e) else
  if exhausted e then Encode e payload = (Err ErrPacketIDExhausted, e) else
  exists blk, Encode e payload = (Ok blk, takePacketID e) /\
    PacketID blk = next e /\ encodes (params e) (codec e) payload blk.
Proof.
  intros [[P1 P2 P3] Ht Hc Hd He Ha Hn] L. unfold Encode.
  destruct (Z.ltb_spec (EffectiveDatagramLimit (limits e)) (len payload)) as [|Hlen]; [done|].
  destruct (exhausted e); [done|]. pose proof (len_nonneg payload) as Hnn.
  unfold maxWireOriginalLength, MaxTotalShards in *.
  destruct (shardSize_spec (len payload) (DataShards (params e)) ltac:(lia) P1)
    as (S1 & S2 & S3). specialize (S3 (ShardCapacity (limits e)) ltac:(lia) ltac:(lia)).
  set (size := shardSizeForDatagram _ _) in *.
  rewrite quot_bound by lia.
  assert (Hall : total e * size <= maxInt) by nia.
  replace (_ <? size) with false by lia. replace (maxInt <? size * total e) with false by lia.
  assert (Hfront : 0 <= DataShards (params e) * size <= total e * size) by nia.
  unfold maxInt in *. rewrite !goInt_small by (unfold in_int; lia).
  rewrite Ht, !Z2Nat.inj_mul, Z2Nat.inj_add by lia.
  destruct (encode_shards (codec e) _ _ (Z.to_nat size) payload L)
    as (data & zeros & parity & E1 & E2 & E3 & E4 & E5 & E6 & E7); [lia|unfold len in *; nia|].
  rewrite E1, E5. eexists. split; [done|]. cbn. split; [done|]. split; cbn; try done.
  exists data, zeros, parity. repeat (split; [done|]).
  eapply Forall_impl; [apply E7|]. cbn. intros s Hs. change (len s = size).
  unfold len. rewrite Hs. lia.
Qed.

(** A sequence of [Encode] calls; the mutex makes each one atomic. *)
Fixpoint encodeAll (e : Encoder) (payloads : list bytes)
    : list (result FecError EncodedBlock) * Encoder :=
  match payloads with
  | [] => ([], e)
  | p :: rest =>
      let '(r, e') := Encode e p in
      let '(rs, e'') := encodeAll e' rest in (r :: rs, e'')
  end.

(** The PacketIDs of the blocks a run returned, in order. *)
Definition packetIDs (rs : list (result FecError EncodedBlock)) : list Z :=
  omap (fun r => match r with Ok b => Some (PacketID b) | Err _ => None end) rs.

Lemma Encode_state e payload r e' :
  Encode e payload = (r, e') ->
  (e' = e /\ exists err, r = Err err) \/
  (exhausted e = false /\ e' = takePacketID e /\ exists b, r = Ok b /\ PacketID b = next e).
Proof.
  intros H. assert (Herr : forall err, (Err err, e) = (r, e') ->
    e' = e /\ exists err, r = Err err) by (intros err [= <- <-]; eauto).
  unfold Encode in H. destruct (_ <? len payload); [eauto|].
  destruct (exhausted e); [eauto|]. destruct (ShardCapacity _ <? _); [eauto|].
  destruct (Z.quot _ _ <? _); [eauto|]. destruct (codec_Encode _ _); [|eauto].
  injection H as <- <-. right. split; [done|]. split; [done|]. by eexists.
Qed.

(** Every PacketID is used at most once and they are consecutive from the first:
    whatever the payloads and however many calls fail, [n] successful calls of an
    encoder at [next] carry [next], [next+1], ..., and the last one possible is the
    largest uint64, after which every call is refused. *)
Theorem Encode_ids e payloads :
  in_u 64 (next e) ->
  let ids := packetIDs (fst (encodeAll e payloads)) in
  ids = (fun i => next e + Z.of_nat i) <$> seq 0 (length ids) /\
  Forall (fun id => id <= maxUint64) ids /\
  (exhausted e = true -> ids = []).
Proof.
  cbv zeta. revert e. induction payloads as [|p rest IH]; intros e Hn; [done|]. cbn [encodeAll].
  destruct (Encode e p) as [r e'] eqn:E. destruct (encodeAll e' rest) as [rs e''] eqn:R.
  destruct (Encode_state _ _ _ _ E) as [[-> [err ->]]|(Hx & -> & b & -> & Hb)].
  - specialize (IH e Hn). rewrite R in IH. exact IH.
  - specialize (IH (takePacketID e)). rewrite R in IH. cbn in *. unfold in_u, maxUint64 in *.
    rewrite Hb. revert IH. destruct (Z.eqb_spec (next e) (2 ^ 64 - 1)) as [Hm|Hm]; intros IH.
    + destruct (IH Hn) as (_ & _ & H0). rewrite (H0 eq_refl). cbn. rewrite Z.add_0_r.
      split; [done|]. split; [constructor; [lia|constructor]|congruence].
    + unfold u64 in *. rewrite wrap_small in IH by (unfold in_u; lia).
      destruct (IH ltac:(lia)) as (I1 & I2 & _). cbn [length seq fmap list_fmap].
      split; [|split; [constructor; [lia|done]|congruence]].
      f_equal; [lia|]. rewrite <- fmap_S_seq, <- list_fmap_compose. etrans; [apply I1|].
      apply list_fmap_ext. intros i j _. cbn. lia.
Qed.

(** ** A concrete codec: two data shards and their exclusive or *)

Definition xorByte (x y : byte) : byte := byte_of_Z (Z.lxor (Z_of_byte x) (Z_of_byte y)).
Definition xorBytes : bytes -> bytes -> bytes := zip_with xorByte.

Definition xorCodec : Codec := {|
  codec_Encode shards :=
    match shards with [a; b; _] => Some [a; b; xorBytes a b] | _ => None end;
  codec_ReconstructData shards :=
    match shards with
    | [Some a; Some b; p] => Some [Some a; Some b; p]
    | [None; Some b; Some p] => Some [Some (xorBytes p b); Some b; Some p]
    | [Some a; None; Some p] => Some [Some a; Some (xorBytes p a); Some p]
    | _ => None
    end;
  codec_Reconstruct shards :=
    match shards with
    | [Some a; Some b; Some p] => Some [a; b; p]
    | [Some a; Some b; None] => Some [a; b; xorBytes a b]
    | [None; Some b; Some p] => Some [xorBytes p b; b; p]
    | [Some a; None; Some p] => Some [a; xorBytes p a; p]
    | _ => None
    end;
  codec_Verify shards :=
    match shards with [a; b; p] => Some (bool_decide (p = xorBytes a b)) | _ => None end |}.

Lemma xorByte_cancel x y : xorByte (xorByte x y) y = x.
Proof.
  apply Z_of_byte_inj. unfold xorByte. rewrite !Z_of_byte_of_Z.
  rewrite <- (Z.mod_small (Z_of_byte x) 256) at 2 by apply Z_of_byte_range.
  change 256 with (2 ^ 8). apply Z.bits_inj'. intros i Hi.
  destruct (Z.lt_ge_cases i 8).
  - rewrite !Z.mod_pow2_bits_low, Z.lxor_spec, Z.mod_pow2_bits_low, Z.lxor_spec by lia.
    by destruct (Z.testbit _ _), (Z.testbit _ _).
  - by rewrite !Z.mod_pow2_bits_high by lia.
Qed.

Lemma xorByte_comm x y : xorByte x y = xorByte y x.
Proof. unfold xorByte. by rewrite Z.lxor_comm. Qed.

Lemma xorBytes_comm a b : xorBytes a b = xorBytes b a.
Proof.
  unfold xorBytes. revert b. induction a as [|x a IH]; intros [|y b]; try done.
  cbn. by rewrite xorByte_comm, IH.
Qed.

Lemma xorBytes_cancel a b : length a = length b -> xorBytes (xorBytes a b) b = a.
Proof.
  revert b. induction a as [|x a IH]; intros [|y b]; intros H; try done.
  injection H as H. cbn. rewrite xorByte_cancel. f_equal. by apply IH.
Qed.

Lemma xorBytes_cancel_l a b : length a = length b -> xorBytes (xorBytes a b) a = b.
Proof. intros H. rewrite (xorBytes_comm a b). by apply xorBytes_cancel. Qed.

Lemma length_xorBytes a b n : length a = n -> length b = n -> length (xorBytes a b) = n.
Proof. intros Ha Hb. unfold xorBytes. rewrite length_zip_with. lia. Qed.

(** Expose the three shards of a block of [xorCodec]. *)
Ltac three_shards :=
  repeat match goal with
  | H : length ?l = 1%nat |- _ => destruct l as [|? [|]]; try discriminate H; clear H
  | H : length ?l = 2%nat |- _ => destruct l as [|? [|? [|]]]; try discriminate H; clear H
  | H : length ?l = (2 + 1)%nat |- _ => destruct l as [|? [|? [|? [|]]]]; try discriminate H; clear H
  | H : length ?l = length [_; _; _] |- _ =>
      destruct l as [|? [|? [|? [|]]]]; try discriminate H; clear H
  | H : codec_Encode xorCodec _ = Some _ |- _ => injection H as <-
  | H : Forall _ (_ :: _) |- _ => apply Forall_cons in H as [? H]
  | _ => progress cbn [app] in *
  end.

(** The shards that arrived agree with the codeword, position by position. *)
Lemma agree_cons (x : option bytes) l (y : bytes) cw :
  (forall i s, (x :: l) !! i = Some (Some s) -> (y :: cw) !! i = Some s) ->
  (forall s, x = Some s -> y = s) /\ (forall i s, l !! i = Some (Some s) -> cw !! i = Some s).
Proof.
  intros H. split; [|intros i s; apply (H (S i))].
  intros s ->. pose proof (H 0%nat s eq_refl) as E. by injection E.
Qed.

Ltac agreeing H :=
  let H1 := fresh in let H2 := fresh in let H3 := fresh in
  apply agree_cons in H as [H1 H]; apply agree_cons in H as [H2 H]; apply agree_cons in H as [H3 H];
  repeat match goal with
  | o : option bytes |- _ => destruct o
  end;
  try (specialize (H1 _ eq_refl)); try (specialize (H2 _ eq_refl)); try (specialize (H3 _ eq_refl));
  subst.

Lemma xorCodec_lawful : Lawful 2 1 xorCodec.
Proof.
  split.
  - intros size data zeros Hs Hd Hz Hall. three_shards. eexists [xorBytes _ _].
    split; [reflexivity|]. split; [done|]. constructor; [|done]. by apply length_xorBytes.
  - intros size data zeros codeword received Hs Hcw Hd Hz He Hl Hagree Hk. three_shards.
    agreeing Hagree; cbn in Hk; try lia; eexists; (split; [reflexivity|cbn]);
      by rewrite ?xorBytes_cancel, ?xorBytes_cancel_l by congruence.
  - intros size data zeros codeword received Hs Hcw Hd Hz He Hl Hagree Hk. three_shards.
    agreeing Hagree; cbn in Hk; try lia; cbn;
      by rewrite ?xorBytes_cancel, ?xorBytes_cancel_l by congruence.
  - intros size received full Hs Hl Hsz Hr. three_shards.
    pose proof (fun s => Hsz 0%nat s) as Z0. pose proof (fun s => Hsz 1%nat s) as Z1.
    pose proof (fun s => Hsz 2%nat s) as Z2. cbn in Z0, Z1, Z2.
    repeat match goal with o : option bytes |- _ => destruct o end; try discriminate Hr;
      injection Hr as <-;
      repeat match goal with
      | H : forall s, Some (Some ?x) = Some (Some s) -> _ |- _ => specialize (H x eq_refl)
      end;
      (split; [done|]); (split; [repeat (constructor; try done; try by apply length_xorBytes)|]);
      intros [|[|[|i]]] s E; try discriminate E; cbn in *; congruence.
  - intros size data parity zeros Hs Hd Hp Hz Hall Hall'. three_shards. cbn. f_equal.
    apply bool_decide_ext. split; [by intros ->|]. congruence.
Qed.

(** ** Concrete inputs *)

#[export] Instance xorReedSolomon : ReedSolomon :=
  fun k m => if (k =? 2) && (m =? 1) then Some xorCodec else None.

Definition sampleParams : Params := {| DataShards := 2; ParityShards := 1 |}.
Definition sampleBudget : Budget :=
  {| MaxUDPPayload := 103; DataShardWireOverhead := 99; MaxDatagramSize := 7 |}.
Definition sampleEncoder : Encoder := {|
  params := sampleParams; limits := limits_of sampleParams sampleBudget; codec := xorCodec;
  total := 3; next := 0; exhausted := false |}.

Example sampleEncoder_built : NewEncoder sampleParams sampleBudget = Ok sampleEncoder.
Proof. reflexivity. Qed.

Lemma sampleEncoder_ok : encoder_ok sampleEncoder.
Proof. repeat split; cbn; unfold maxInt, maxWireOriginalLength, MaxTotalShards; lia. Qed.

Lemma DeriveLimits_exact_witness :
  DeriveLimits sampleParams sampleBudget = Ok (limits_of sampleParams sampleBudget) /\
  params_ok sampleParams.
Proof.
  assert (T : budget_typed sampleBudget) by (repeat split; unfold in_int; cbn; lia).
  split; [reflexivity|].
  apply (proj1 (DeriveLimits_exact _ _ (limits_of sampleParams sampleBudget) T)). reflexivity.
Defined.

Lemma Encode_exact_witness :
  exists blk, Encode sampleEncoder [Byte.x68; Byte.x69; Byte.x21]
    = (Ok blk, takePacketID sampleEncoder) /\ PacketID blk = 0 /\
    encodes sampleParams xorCodec [Byte.x68; Byte.x69; Byte.x21] blk.
Proof.
  exact (Encode_exact sampleEncoder [Byte.x68; Byte.x69; Byte.x21]
    sampleEncoder_ok xorCodec_lawful).
Defined.

Lemma Encode_ids_witness :
  let ids := packetIDs (fst (encodeAll sampleEncoder [[Byte.x68]; replicate 9 Byte.x00; []])) in
  ids = [0; 1] /\ Forall (fun id => id <= maxUint64) ids.
Proof.
  split; [reflexivity|].
  apply (Encode_ids sampleEncoder [[Byte.x68]; replicate 9 Byte.x00; []]).
  unfold in_u. cbn. lia.
Defined.
