(* ===== verification/FecReplay.v ===== *)
(** * Receive replay window of the FEC decoder ([internal/fec/replay_window.go])

    [replayWindow] is the 65536-position ring bitmap of the source, on the word
    operations of [Bitmap].  [Spec] is its contract: the unbounded set of completed
    PacketIDs and the highest admitted one. *)

From S2P Require Import Prelude Bitmap.

Definition ReplayWindowIDs : Z := 65536.

Record ReplayWindowConfig := { cfg_SessionID : bytes }.

Record replayWindow := {
  sessionID : bytes;
  completed : list Z;
  highest : Z;
  started : bool;
  count : Z }.

(** [&replayWindow{sessionID: id}]. *)
Definition newReplayWindow (id : bytes) : replayWindow :=
  {| sessionID := id; completed := zero_words (Z.to_nat (ReplayWindowIDs / 64));
     highest := 0; started := false; count := 0 |}.

Definition tooOld (w : replayWindow) (id : Z) : bool :=
  started w && (id <? highest w) && (ReplayWindowIDs <=? u64 (highest w - id)).

Definition contains (w : replayWindow) (id : Z) : bool :=
  if negb (started w) || (highest w <? id) || tooOld w id then false else
  test_bit (completed w) (id mod ReplayWindowIDs).

(** One iteration of the clearing loop of [admit]. *)
Definition clear_step (w : replayWindow) (position width : Z) : replayWindow :=
  {| sessionID := sessionID w;
     completed := clear_word (completed w) position width;
     highest := highest w; started := started w;
     count := count w
       - onesCount (Z.land (word_at (completed w) position) (mask position width)) |}.

(** The loop; each iteration clears at least one of the [remaining] positions, so
    [fuel] iterations suffice when [remaining <= fuel]. *)
Fixpoint clear_loop (fuel : nat) (w : replayWindow) (position remaining : Z) : replayWindow :=
  match fuel with
  | O => w
  | S fuel' =>
    if remaining =? 0 then w else
    let width := Z.min remaining (64 - position mod 64) in
    clear_loop fuel' (clear_step w position width)
      ((position + width) mod ReplayWindowIDs) (remaining - width)
  end.

Definition with_highest (w : replayWindow) (id : Z) : replayWindow :=
  {| sessionID := sessionID w; completed := completed w; highest := id; started := true;
     count := count w |}.

Definition admission (w : replayWindow) (id : Z) : replayWindow :=
  if negb (started w) then with_highest w id else
  if id <=? highest w then w else
  let distance := u64 (id - highest w) in
  let w' :=
    if ReplayWindowIDs <=? distance then
      {| sessionID := sessionID w; completed := zero_words (length (completed w));
         highest := highest w; started := started w; count := 0 |}
    else clear_loop (Z.to_nat distance) w (u64 (highest w + 1) mod ReplayWindowIDs) distance in
  with_highest w' id.

Definition complete (w : replayWindow) (id : Z) : replayWindow :=
  if tooOld w id then w else
  let index := id mod ReplayWindowIDs in
  if test_bit (completed w) index then w else
  {| sessionID := sessionID w; completed := set_bit (completed w) index;
     highest := highest w; started := started w; count := count w + 1 |}.

(** ** The contract *)

Module Spec.

Record t := { top : option Z; finished : gset Z }.

Definition new : t := {| top := None; finished := ∅ |}.

(** The oldest PacketID a window with highest [h] still knows about. *)
Definition floor (h : Z) : Z := Z.max 0 (h - ReplayWindowIDs + 1).

Definition tooOld (s : t) (id : Z) : bool :=
  match top s with None => false | Some h => id <? floor h end.

Definition contains (s : t) (id : Z) : bool :=
  match top s with
  | None => false
  | Some h => (floor h <=? id) && (id <=? h) && bool_decide (id ∈ finished s)
  end.

Definition admission (s : t) (id : Z) : t :=
  {| top := Some (match top s with None => id | Some h => Z.max h id end);
     finished := finished s |}.

Definition complete (s : t) (id : Z) : t :=
  {| top := top s; finished := {[id]} ∪ finished s |}.

Definition isFinished (s : t) (id : Z) : bool := bool_decide (id ∈ finished s).

(** How many retained PacketIDs are completed. *)
Definition retained (s : t) : Z :=
  match top s with
  | None => 0
  | Some h => countZ (isFinished s) (floor h) (Z.to_nat (h - floor h + 1))
  end.

End Spec.

(** ** The simulation relation *)

Record rel (w : replayWindow) (s : Spec.t) : Prop := {
  r_top : Spec.top s = if started w then Some (highest w) else None;
  r_u64 : in_u 64 (highest w);
  r_count : count w = total (completed w);
  r_length : length (completed w) = words_for ReplayWindowIDs;
  r_ring : started w = true ->
    ring_ok 0 ReplayWindowIDs (highest w) (Spec.isFinished s) (completed w);
  r_fresh : started w = false -> (forall p, bitAt (completed w) p = false);
  r_finished : forall id, id ∈ Spec.finished s -> started w = true /\ 0 <= id <= highest w }.

Lemma new_rel id : rel (newReplayWindow id) Spec.new.
Proof.
  split; cbn [newReplayWindow started highest count completed]; try done.
  intros _ p. apply bitAt_zero.
Qed.

Lemma tooOld_spec w s id : rel w s -> in_u 64 id -> tooOld w id = Spec.tooOld s id.
Proof.
  intros R Hid. pose proof (r_top _ _ R) as Ht. pose proof (r_u64 _ _ R) as Hu.
  unfold tooOld, Spec.tooOld, Spec.floor, ReplayWindowIDs, in_u in *. rewrite Ht.
  destruct (started w); [|done]. cbn [andb].
  destruct (Z.ltb_spec id (highest w)); cbn [andb].
  - unfold u64. rewrite wrap_small by (unfold in_u; lia). lia.
  - lia.
Qed.

Lemma contains_spec w s id : rel w s -> in_u 64 id -> contains w id = Spec.contains s id.
Proof.
  intros R Hid. unfold contains. rewrite (tooOld_spec _ _ _ R Hid).
  pose proof (r_top _ _ R) as Ht. pose proof (r_ring _ _ R) as Hr.
  unfold Spec.contains, Spec.tooOld. rewrite Ht. destruct (started w); [|done].
  specialize (Hr eq_refl). cbn [negb orb].
  destruct (Z.ltb_spec (highest w) id); cbn [orb].
  { replace (id <=? highest w) with false by lia. by rewrite andb_false_r. }
  destruct (Z.ltb_spec id (Spec.floor (highest w))).
  { by replace (Spec.floor (highest w) <=? id) with false by lia. }
  replace (_ <=? id) with true by lia. replace (id <=? _) with true by lia. cbn [andb].
  rewrite test_bit_spec. apply (ring_bits _ _ _ _ _ Hr).
  unfold lowest, Spec.floor in *. lia.
Qed.

(** ** The clearing loop *)

(** [w'] is [w] with the bits of the positions selected by [cleared] off. *)
Record clears (cleared : Z -> bool) (w w' : replayWindow) : Prop := {
  cl_session : sessionID w' = sessionID w;
  cl_started : started w' = started w;
  cl_count : count w' = total (completed w');
  cl_length : length (completed w') = length (completed w);
  cl_bits : forall p, 0 <= p -> bitAt (completed w') p = bitAt (completed w) p && negb (cleared p) }.

Lemma replay_clear_step w position width :
  count w = total (completed w) -> length (completed w) = words_for ReplayWindowIDs ->
  0 <= position < ReplayWindowIDs -> 1 <= width -> position mod 64 + width <= 64 ->
  clears (fun p => (position <=? p) && (p <? position + width)) w (clear_step w position width).
Proof.
  intros Hc Hl Hpos Hw Hs.
  assert (Hword : (Z.to_nat (position / 64) < length (completed w))%nat)
    by (rewrite Hl; by apply word_in_range).
  split; cbn [clear_step sessionID started count completed]; try done.
  - by rewrite Hc, total_clear_word.
  - unfold clear_word. apply length_set_word.
  - intros p Hp. apply bitAt_clear_word; lia.
Qed.

Lemma replay_clear_loop fuel w position remaining :
  count w = total (completed w) -> length (completed w) = words_for ReplayWindowIDs ->
  0 <= position < ReplayWindowIDs -> 0 <= remaining < ReplayWindowIDs ->
  remaining <= Z.of_nat fuel ->
  clears (fun p => (p <? ReplayWindowIDs) && in_run ReplayWindowIDs position remaining p)
    w (clear_loop fuel w position remaining).
Proof.
  revert w position remaining. induction fuel as [|fuel IH];
    intros w position remaining Hc Hl Hpos Hrem Hfuel; cbn [clear_loop].
  all: destruct (Z.eq_dec remaining 0) as [->|Hne];
    [split; try done; intros; rewrite in_run_empty, andb_false_r, andb_true_r by (done || lia); done|].
  { lia. }
  replace (remaining =? 0) with false by lia.
  pose proof (Z.mod_pos_bound position 64 ltac:(lia)) as Hm.
  assert (Hend : position + (64 - position mod 64) <= ReplayWindowIDs).
  { pose proof (Z.div_mod position 64 ltac:(lia)). unfold ReplayWindowIDs in *. lia. }
  set (width := Z.min remaining (64 - position mod 64)) in *.
  assert (Hw : 1 <= width <= remaining /\ position mod 64 + width <= 64 /\
               position + width <= ReplayWindowIDs) by lia. clearbody width.
  destruct Hw as ([Hw1 Hw2] & Hw3 & Hw4).
  destruct (replay_clear_step w position width) as [S1 S2 S3 S4 S5]; [done..|].
  destruct (IH (clear_step w position width) ((position + width) mod ReplayWindowIDs)
    (remaining - width)) as [T1 T2 T3 T4 T5];
    [done|congruence|apply Z.mod_pos_bound; done|lia|lia|].
  split; [congruence..|].
  intros p Hp. rewrite T5, S5 by done.
  destruct (Z.ltb_spec p ReplayWindowIDs); cbn [andb].
  - rewrite (in_run_split ReplayWindowIDs position remaining width) by lia.
    by rewrite negb_orb, andb_assoc.
  - replace (p <? position + width) with false by lia. by rewrite !andb_false_r, !andb_true_r.
Qed.

(** ** The operations refine the contract *)

Lemma isFinished_above w s z : rel w s -> highest w < z -> Spec.isFinished s z = false.
Proof.
  intros R Hz. apply bool_decide_eq_false. intros H. apply (r_finished _ _ R) in H. lia.
Qed.

Lemma admission_first w s id :
  rel w s -> in_u 64 id -> started w = false -> rel (with_highest w id) (Spec.admission s id).
Proof.
  intros R Hid Hst. pose proof R as [Rt Ru Rc Rl Rr Rf Rd].
  assert (Hempty : forall z, Spec.isFinished s z = false).
  { intros z. apply bool_decide_eq_false. intros [? _]%Rd. congruence. }
  split; cbn; try done.
  - by rewrite Rt, Hst.
  - intros _. split; try done.
    + intros z Hz. rewrite Rf by done. symmetry. apply Hempty.
    + intros p Hp. by apply Rf.
    + intros _ p Hp _. by apply Rf.
  - intros z Hz. apply Rd in Hz. destruct Hz. congruence.
Qed.

Lemma admission_spec w s id :
  rel w s -> in_u 64 id -> rel (admission w id) (Spec.admission s id).
Proof.
  intros R Hid. unfold admission. destruct (started w) eqn:Hst; cbn [negb];
    [|by apply admission_first].
  pose proof R as [Rt Ru Rc Rl Rr Rf Rd]. rewrite Hst in *. specialize (Rr eq_refl).
  assert (Hsame : Spec.admission s id = {| Spec.top := Some (Z.max (highest w) id);
    Spec.finished := Spec.finished s |}) by (unfold Spec.admission; by rewrite Rt).
  rewrite Hsame. destruct (Z.leb_spec id (highest w)).
  { rewrite Z.max_l by lia. rewrite <- Rt. by destruct s. }
  rewrite Z.max_r by lia. unfold in_u in *.
  unfold u64. rewrite !wrap_small by (unfold in_u; lia).
  assert (Hnew : forall z, highest w < z -> Spec.isFinished s z = false)
    by (intros; by apply (isFinished_above w)).
  assert (Hfin : forall z, z ∈ Spec.finished s -> true = true /\ 0 <= z <= id)
    by (intros z Hz%Rd; split; [done|lia]).
  destruct (Z.leb_spec ReplayWindowIDs (id - highest w)) as [Hfar|Hnear].
  - split; cbn [with_highest completed highest started count Spec.top Spec.finished]; try done.
    + by rewrite total_zero.
    + unfold zero_words. by rewrite length_replicate.
    + intros _. apply ring_reset; [done|]. unfold lowest. intros z Hz. apply Hnew. lia.
  - destruct (replay_clear_loop (Z.to_nat (id - highest w)) w ((highest w + 1) mod ReplayWindowIDs)
      (id - highest w)) as [C1 C2 C3 C4 C5]; try done; try lia; [by apply Z.mod_pos_bound|].
    split; cbn [with_highest completed highest started count Spec.top Spec.finished]; try done.
    + congruence.
    + intros _. apply (ring_advance 0 ReplayWindowIDs (highest w) id _ (completed w)); try done;
        try (unfold ReplayWindowIDs; lia); try lia.
      * intros p Hp. rewrite C5 by lia. by replace (p <? _) with true by lia.
      * intros p Hp. rewrite C5 by (unfold ReplayWindowIDs in *; lia).
        replace (p <? _) with false by lia. by rewrite andb_true_r.
Qed.

Lemma complete_spec w s id :
  rel w s -> in_u 64 id -> started w = true -> id <= highest w ->
  rel (complete w id) (Spec.complete s id).
Proof.
  intros R Hid Hst Hle. pose proof R as [Rt Ru Rc Rl Rr Rf Rd]. unfold in_u in *.
  assert (Hfin : forall z, z ∈ Spec.finished (Spec.complete s id) ->
    true = true /\ 0 <= z <= highest w).
  { intros z [->%elem_of_singleton|Hz%Rd]%elem_of_union; [lia|]. split; [done|lia]. }
  assert (Hf : forall z, Spec.isFinished (Spec.complete s id) z
    = Spec.isFinished s z || (z =? id)).
  { intros z. unfold Spec.isFinished. cbn. destruct (Z.eqb_spec z id) as [->|Hne].
    - rewrite orb_true_r. apply bool_decide_eq_true. set_solver.
    - rewrite orb_false_r. apply bool_decide_ext. set_solver. }
  unfold complete. rewrite (tooOld_spec _ _ _ R Hid). unfold Spec.tooOld. rewrite Rt, Hst.
  specialize (Rr Hst). pose proof (Z.mod_pos_bound id ReplayWindowIDs ltac:(done)) as Hm.
  destruct (Z.ltb_spec id (Spec.floor (highest w))) as [Hold|Hin].
  - split; try done; rewrite ?Hst; try done. intros _.
    destruct Rr as [L B T U]. split; try done. intros z Hz. rewrite Hf, B by done.
    unfold lowest, Spec.floor in *. replace (z =? id) with false by lia. by rewrite orb_false_r.
  - assert (Hlow : lowest 0 ReplayWindowIDs (highest w) <= id <= highest w)
      by (unfold lowest, Spec.floor in *; lia).
    rewrite test_bit_spec. destruct (bitAt _ _) eqn:Hb.
    + rewrite (ring_bits _ _ _ _ _ Rr) in Hb by done.
      split; try done; rewrite ?Hst; try done. intros _.
      destruct Rr as [L B T U]. split; try done. intros z Hz. rewrite Hf, B by done.
      destruct (Z.eqb_spec z id) as [->|]; [by rewrite Hb|by rewrite orb_false_r].
    + split; cbn [completed highest started count]; rewrite ?Hst; try done.
      * cbn. by rewrite Rt, Hst.
      * rewrite total_set_bit by (try done; try lia; rewrite Rl; by apply word_in_range). lia.
      * unfold set_bit. by rewrite length_set_word.
      * intros _. pose proof (ring_set 0 ReplayWindowIDs (highest w) _ _ id
          ltac:(done) ltac:(lia) Hlow Rr) as [L B T U].
        split; try done. intros z Hz. by rewrite Hf, B.
Qed.

Lemma count_spec w s : rel w s -> count w = Spec.retained s.
Proof.
  intros R. pose proof R as [Rt Ru Rc Rl Rr Rf Rd]. unfold Spec.retained. rewrite Rt, Rc.
  destruct (started w) eqn:Hst.
  - unfold in_u in *. apply (ring_total 0 ReplayWindowIDs); [done|lia|lia|auto].
  - rewrite total_countZ. apply countZ_zero. auto.
Qed.

Lemma session_kept w id :
  sessionID (complete w id) = sessionID w /\ sessionID (admission w id) = sessionID w.
Proof.
  split; [unfold complete; by repeat case_match|].
  assert (Hloop : forall fuel w p r, sessionID (clear_loop fuel w p r) = sessionID w).
  { induction fuel as [|fuel IH]; intros; [done|]. cbn [clear_loop].
    destruct (_ =? 0); [done|]. by rewrite IH. }
  unfold admission. destruct (negb _); [done|]. destruct (_ <=? _); [done|].
  destruct (_ <=? _); [done|]. apply Hloop.
Qed.

(** ** Sequences of calls *)

Inductive Op := OpTooOld (id : Z) | OpContains (id : Z) | OpAdmit (id : Z) | OpComplete (id : Z).

(** Each call answers a boolean or unit; the count is what [Stats] reports. *)
Definition step (w : replayWindow) (op : Op) : (bool * Z) * replayWindow :=
  match op with
  | OpTooOld id => ((tooOld w id, count w), w)
  | OpContains id => ((contains w id, count w), w)
  | OpAdmit id => let w' := admission w id in ((true, count w'), w')
  | OpComplete id => let w' := complete w id in ((true, count w'), w')
  end.

Definition specStep (s : Spec.t) (op : Op) : (bool * Z) * Spec.t :=
  match op with
  | OpTooOld id => ((Spec.tooOld s id, Spec.retained s), s)
  | OpContains id => ((Spec.contains s id, Spec.retained s), s)
  | OpAdmit id => let s' := Spec.admission s id in ((true, Spec.retained s'), s')
  | OpComplete id => let s' := Spec.complete s id in ((true, Spec.retained s'), s')
  end.

Fixpoint run {S O : Type} (f : S -> Op -> O * S) (s : S) (ops : list Op) : list O :=
  match ops with
  | [] => []
  | op :: ops' => let '(o, s') := f s op in o :: run f s' ops'
  end.

Definition idOf (op : Op) : Z :=
  match op with OpTooOld id | OpContains id | OpAdmit id | OpComplete id => id end.

(** The decoder completes only PacketIDs that are not above the highest admitted one. *)
Fixpoint legal (s : Spec.t) (ops : list Op) : Prop :=
  match ops with
  | [] => True
  | op :: ops' =>
      in_u 64 (idOf op) /\
      (match op with OpComplete id => exists h, Spec.top s = Some h /\ id <= h | _ => True end) /\
      legal (snd (specStep s op)) ops'
  end.

Lemma run_refines ops : forall w s, rel w s -> legal s ops -> run step w ops = run specStep s ops.
Proof.
  induction ops as [|op ops IH]; intros w s R L; [done|]. destruct L as (Hid & Hc & L).
  destruct op as [id|id|id|id]; cbn [step specStep run snd idOf] in *.
  - rewrite (tooOld_spec _ _ _ R Hid), (count_spec _ _ R). f_equal. auto.
  - rewrite (contains_spec _ _ _ R Hid), (count_spec _ _ R). f_equal. auto.
  - pose proof (admission_spec _ _ _ R Hid) as R'. rewrite (count_spec _ _ R'). f_equal. auto.
  - destruct Hc as (h & Hh & Hle). pose proof (r_top _ _ R) as Ht. rewrite Hh in Ht.
    destruct (started w) eqn:Hst; [|done]. injection Ht as ->.
    pose proof (complete_spec _ _ _ R Hid Hst Hle) as R'. rewrite (count_spec _ _ R'). f_equal. auto.
Qed.

(** The ring bitmap behaves as an unbounded set of completed PacketIDs seen
    through a window of 65536 identifiers below the highest admitted one: every
    answer and every count of a sequence of calls agrees with the contract, wrapping
    positions, word masks and far jumps included. *)
Theorem replayWindow_refines_Spec id ops :
  legal Spec.new ops -> run step (newReplayWindow id) ops = run specStep Spec.new ops.
Proof. intros L. apply run_refines; [apply new_rel|done]. Qed.

Definition demoOps : list Op :=
  [OpAdmit 70; OpComplete 70; OpAdmit 65606; OpContains 70; OpComplete 65606; OpTooOld 71].

Lemma replayWindow_refines_Spec_witness :
  legal Spec.new demoOps /\
  run step (newReplayWindow []) demoOps = run specStep Spec.new demoOps.
Proof.
  assert (L : legal Spec.new demoOps).
  { unfold in_u, demoOps; repeat split; cbn [idOf]; try lia;
      eexists; (split; [reflexivity|cbn; lia]). }
  split; [exact L|]. exact (replayWindow_refines_Spec [] demoOps L).
Defined.
