(* ===== verification/FecDecoder.v ===== *)
(** * Bounded FEC decoder ([internal/fec]: decoder.go, expiry_heap.go, statistics.go)

    Each exported method runs under the decoder's mutex and is one function on the
    decoder's state; the clock reading it takes is an argument.  Expiry queues are
    lists in the order successive [heap.Pop]s return (the contract of container/heap
    for the order [Less]); an entry carries the serial number of its allocation, so
    that equality of entries is the pointer comparison of the source. *)

From S2P Require Import Prelude Fec.
From S2P Require FecReplay.

(** ** Data *)

Record BlockKey := { key_SessionID : bytes; key_PacketID : Z }.
#[global] Instance BlockKey_eq_dec : EqDecision BlockKey.
Proof. solve_decision. Defined.
#[global] Instance BlockKey_countable : Countable BlockKey :=
  inj_countable' (fun k => (key_SessionID k, key_PacketID k))
    (fun p => {| key_SessionID := fst p; key_PacketID := snd p |})
    ltac:(by intros []).

Record IncomingShard := {
  Key : BlockKey;
  ShardParams : Params;
  Index : Z;
  DatagramLength : Z;
  Payload : bytes }.

Inductive Outcome := OutcomePending | OutcomeDuplicate | OutcomeComplete | OutcomeTooOld.
#[global] Instance Outcome_eq_dec : EqDecision Outcome.
Proof. solve_decision. Defined.

(** [Datagram] is [None] for a nil slice. *)
Record Result := { outcome : Outcome; Datagram : option bytes }.

Definition plain (o : Outcome) : Result := {| outcome := o; Datagram := None |}.

Record DecoderConfig := {
  cfg_Params : Params;
  cfg_Budget : Budget;
  cfg_DecodeTimeout : Z;
  cfg_CompletionTTL : Z;
  cfg_MaxPendingBlocks : Z;
  cfg_MaxCompletedBlocks : Z;
  cfg_Statistics : bool;
  cfg_ReplayWindow : option FecReplay.ReplayWindowConfig }.

Record Stats := {
  PendingBlocks : Z; PendingShards : Z; PendingBytes : Z; CompletedBlocks : Z }.

Record ExpireStats := { exp_PendingBlocks : Z; exp_CompletedBlocks : Z }.

Record expiryEntry := { e_key : BlockKey; deadline : Z; serial : Z }.
#[global] Instance expiryEntry_eq_dec : EqDecision expiryEntry.
Proof. solve_decision. Defined.

Record pendingBlock := {
  originalLength : Z;
  shardSize : Z;
  shards : list (option bytes);
  present : Z;
  held : Z;
  expiry : expiryEntry }.

(** ** Diagnostics *)

Inductive Counter :=
| CntCompletedBlocks | CntCompletedCapacityEvictions | CntRecoveredBlocks | CntRecoveredShards
| CntExpiredBlocks | CntDecoderFull | CntLateShards | CntTooOldShards | CntDuplicateShards.
#[global] Instance Counter_eq_dec : EqDecision Counter.
Proof. solve_decision. Defined.

(** An [atomic.Int64] and the [atomic.Uint64] that records its high-water mark. *)
Record Gauge := { current : Z; peak : Z }.

(** The cumulative [atomic.Uint64] fields by name, and the three gauges. *)
Record Counters := {
  cumulative : Counter -> Z;
  gaugeBlocks : Gauge;
  gaugeShards : Gauge;
  gaugeBytes : Gauge }.

Definition zeroGauge : Gauge := {| current := 0; peak := 0 |}.
Definition zeroCounters : Counters := {| cumulative := fun _ => 0;
  gaugeBlocks := zeroGauge; gaugeShards := zeroGauge; gaugeBytes := zeroGauge |}.

Definition changeGauge (g : Gauge) (delta : Z) : Gauge :=
  if delta =? 0 then g else
  let now := goInt (current g + delta) in
  if delta <? 0 then {| current := now; peak := peak g |} else
  let value := u64 now in
  {| current := now; peak := if peak g <? value then value else peak g |}.

(** The receiver may be nil. *)
Definition changePending (c : option Counters) (blocks shards bytes : Z) : option Counters :=
  match c with
  | None => None
  | Some c => Some {| cumulative := cumulative c;
      gaugeBlocks := changeGauge (gaugeBlocks c) blocks;
      gaugeShards := changeGauge (gaugeShards c) shards;
      gaugeBytes := changeGauge (gaugeBytes c) bytes |}
  end.

(** [if d.statistics != nil { d.statistics.X.Add(n) }]. *)
Definition addCounter (x : Counter) (n : Z) (c : option Counters) : option Counters :=
  match c with
  | None => None
  | Some c => Some {|
      cumulative := fun y => if bool_decide (y = x) then u64 (cumulative c y + n) else cumulative c y;
      gaugeBlocks := gaugeBlocks c; gaugeShards := gaugeShards c; gaugeBytes := gaugeBytes c |}
  end.

(** ** Expiry queues *)

Fixpoint sessionLess (a b : bytes) (rest : bool) : bool :=
  match a, b with
  | x :: a', y :: b' =>
      if bool_decide (x = y) then sessionLess a' b' rest else Z_of_byte x <? Z_of_byte y
  | _, _ => rest
  end.

Definition keyLess (a b : BlockKey) : bool :=
  sessionLess (key_SessionID a) (key_SessionID b) (key_PacketID a <? key_PacketID b).

Definition Less (a b : expiryEntry) : bool :=
  if negb (deadline a =? deadline b) then deadline a <? deadline b
  else keyLess (e_key a) (e_key b).

Fixpoint heap_Push (h : list expiryEntry) (e : expiryEntry) : list expiryEntry :=
  match h with
  | [] => [e]
  | x :: h' => if Less e x then e :: h else x :: heap_Push h' e
  end.

(** [if entry.index >= 0 { heap.Remove(h, entry.index) }]: the index is -1 exactly
    when the entry is not in the queue. *)
Definition heap_Remove (h : list expiryEntry) (e : expiryEntry) : list expiryEntry :=
  filter (fun x => x <> e) h.

(** ** The decoder *)

Record Decoder := {
  params : Params;
  limits : Limits;
  codec : Codec;
  total : Z;
  decodeTimeout : Z;
  completionTTL : Z;
  maxPendingBlocks : Z;
  maxCompletedBlocks : Z;
  pending : gmap BlockKey pendingBlock;
  pendingExpiry : list expiryEntry;
  completed : gmap BlockKey expiryEntry;
  completedExpiry : list expiryEntry;
  pendingShards : Z;
  pendingBytes : Z;
  closed : bool;
  statistics : option Counters;
  replay : option FecReplay.replayWindow;
  allocated : Z }.

Definition NewDecoder `{ReedSolomon} (config : DecoderConfig) : result FecError Decoder :=
  let? lims := DeriveLimits (cfg_Params config) (cfg_Budget config) in
  fail cfg_DecodeTimeout config <=? 0 with ErrInvalidDecoderConfig in
  fail bool_decide (cfg_ReplayWindow config = None) && (cfg_CompletionTTL config <=? 0)
    with ErrInvalidDecoderConfig in
  fail cfg_MaxPendingBlocks config <=? 0 with ErrInvalidDecoderConfig in
  fail bool_decide (cfg_ReplayWindow config = None) && (cfg_MaxCompletedBlocks config <=? 0)
    with ErrInvalidDecoderConfig in
  let? ' (cdc, tot) := newCodec (cfg_Params config) in
  Ok {| params := cfg_Params config; limits := lims; codec := cdc; total := tot;
        decodeTimeout := cfg_DecodeTimeout config; completionTTL := cfg_CompletionTTL config;
        maxPendingBlocks := cfg_MaxPendingBlocks config;
        maxCompletedBlocks := cfg_MaxCompletedBlocks config;
        pending := ∅; pendingExpiry := []; completed := ∅; completedExpiry := [];
        pendingShards := 0; pendingBytes := 0; closed := false;
        statistics := if cfg_Statistics config then Some zeroCounters else None;
        replay := (fun c => FecReplay.newReplayWindow (FecReplay.cfg_SessionID c))
                  <$> cfg_ReplayWindow config;
        allocated := 0 |}.

(** Field updates. *)
Definition with_pending (d : Decoder) (m : gmap BlockKey pendingBlock) (h : list expiryEntry)
    (nShards nBytes : Z) (st : option Counters) : Decoder :=
  {| params := params d; limits := limits d; codec := codec d; total := total d;
     decodeTimeout := decodeTimeout d; completionTTL := completionTTL d;
     maxPendingBlocks := maxPendingBlocks d; maxCompletedBlocks := maxCompletedBlocks d;
     pending := m; pendingExpiry := h; completed := completed d;
     completedExpiry := completedExpiry d; pendingShards := nShards; pendingBytes := nBytes;
     closed := closed d; statistics := st; replay := replay d; allocated := allocated d |}.

Definition with_history (d : Decoder) (m : gmap BlockKey expiryEntry) (h : list expiryEntry)
    (r : option FecReplay.replayWindow) (st : option Counters) (n : Z) : Decoder :=
  {| params := params d; limits := limits d; codec := codec d; total := total d;
     decodeTimeout := decodeTimeout d; completionTTL := completionTTL d;
     maxPendingBlocks := maxPendingBlocks d; maxCompletedBlocks := maxCompletedBlocks d;
     pending := pending d; pendingExpiry := pendingExpiry d; completed := m;
     completedExpiry := h; pendingShards := pendingShards d; pendingBytes := pendingBytes d;
     closed := closed d; statistics := st; replay := r; allocated := n |}.

Definition with_statistics (d : Decoder) (st : option Counters) : Decoder :=
  with_pending d (pending d) (pendingExpiry d) (pendingShards d) (pendingBytes d) st.

Definition count (x : Counter) (n : Z) (d : Decoder) : Decoder :=
  with_statistics d (addCounter x n (statistics d)).

(** ** Expiry *)

(** Drop a pending block and its accounting; [h] is the queue left. *)
Definition dropPending (d : Decoder) (h : list expiryEntry) (key : BlockKey) (block : pendingBlock)
    : Decoder :=
  with_pending d (delete key (pending d)) h
    (pendingShards d - present block) (pendingBytes d - held block)
    (changePending (statistics d) (-1) (- present block) (- held block)).

(** The first loop of [sweepLocked]; [h] is [d.pendingExpiry]. *)
Fixpoint sweepPending (h : list expiryEntry) (now : Z) (d : Decoder) (n : Z) : Z * Decoder :=
  match h with
  | [] => (n, with_pending d (pending d) [] (pendingShards d) (pendingBytes d) (statistics d))
  | entry :: rest =>
      if now <? deadline entry
      then (n, with_pending d (pending d) h (pendingShards d) (pendingBytes d) (statistics d)) else
      match pending d !! e_key entry with
      | Some block =>
          if bool_decide (expiry block = entry)
          then sweepPending rest now
                 (count CntExpiredBlocks 1 (dropPending d rest (e_key entry) block)) (n + 1)
          else sweepPending rest now d n
      | None => sweepPending rest now d n
      end
  end.

(** The second loop; [h] is [d.completedExpiry]. *)
Fixpoint sweepCompleted (h : list expiryEntry) (now : Z) (d : Decoder) (n : Z) : Z * Decoder :=
  match h with
  | [] => (n, with_history d (completed d) [] (replay d) (statistics d) (allocated d))
  | entry :: rest =>
      if now <? deadline entry
      then (n, with_history d (completed d) h (replay d) (statistics d) (allocated d)) else
      if bool_decide (completed d !! e_key entry = Some entry)
      then sweepCompleted rest now
             (with_history d (delete (e_key entry) (completed d)) rest (replay d) (statistics d)
                (allocated d)) (n + 1)
      else sweepCompleted rest now d n
  end.

Definition sweepLocked (d : Decoder) (now : Z) : ExpireStats * Decoder :=
  let '(n, d1) := sweepPending (pendingExpiry d) now d 0 in
  let '(m, d2) := sweepCompleted (completedExpiry d1) now d1 0 in
  ({| exp_PendingBlocks := n; exp_CompletedBlocks := m |}, d2).

Definition Sweep (d : Decoder) (now : Z) : ExpireStats * Decoder :=
  if closed d then ({| exp_PendingBlocks := 0; exp_CompletedBlocks := 0 |}, d)
  else sweepLocked d now.

Definition removePendingLocked (d : Decoder) (key : BlockKey) (block : pendingBlock) : Decoder :=
  dropPending d (heap_Remove (pendingExpiry d) (expiry block)) key block.

(** [heap.Pop] panics on an empty queue; [decoder_ok] excludes it. *)
Definition evictOldest (d : Decoder) : Decoder :=
  match completedExpiry d with
  | [] => d
  | oldest :: rest =>
      count CntCompletedCapacityEvictions 1
        (with_history d (delete (e_key oldest) (completed d)) rest (replay d) (statistics d)
           (allocated d))
  end.

Definition rememberCompletedLocked (d : Decoder) (key : BlockKey) (now : Z) : Decoder :=
  match replay d with
  | Some w =>
      with_history d (completed d) (completedExpiry d)
        (Some (FecReplay.complete w (key_PacketID key))) (statistics d) (allocated d)
  | None =>
      let d1 := if maxCompletedBlocks d <=? Z.of_nat (size (completed d)) then evictOldest d else d in
      let entry := {| e_key := key; deadline := now + completionTTL d1; serial := allocated d1 |} in
      with_history d1 (<[key := entry]> (completed d1)) (heap_Push (completedExpiry d1) entry)
        (replay d1) (statistics d1) (allocated d1 + 1)
  end.

(** ** Adding a shard *)

Definition validateShard (d : Decoder) (input : IncomingShard) : result FecError Z :=
  fail match replay d with
       | Some w => negb (bool_decide (key_SessionID (Key input) = FecReplay.sessionID w))
       | None => false end with ErrInvalidShard in
  fail negb (bool_decide (ShardParams input = params d)) with ErrInvalidShard in
  fail (Index input <? 0) || (total d <=? Index input) with ErrInvalidShard in
  fail (DatagramLength input <? 0)
       || (EffectiveDatagramLimit (limits d) <? DatagramLength input) with ErrInvalidShard in
  let size := shardSizeForDatagram (DatagramLength input) (DataShards (params d)) in
  fail (ShardCapacity (limits d) <? size) || negb (len (Payload input) =? size)
    with ErrInvalidShard in
  Ok size.

(** [copy(datagram[written:], shard)] over the data shards, [room] bytes left. *)
Fixpoint assemble (room : nat) (working : list (option bytes)) : bytes :=
  match working with
  | [] => []
  | shard :: rest =>
      if (room =? 0)%nat then [] else
      let copied := take room (default [] shard) in
      copied ++ assemble (room - length copied) rest
  end.

Definition missing (working : list (option bytes)) : Z :=
  len (filter (fun s => s = None) working).

(** The part of [AddVerifiedShard] from the k-th shard on. *)
Definition finishBlock (d : Decoder) (now : Z) (input : IncomingShard) (block : pendingBlock)
    : result FecError Result * Decoder :=
  let k := Z.to_nat (DataShards (params d)) in
  let missingData := missing (take k (shards block)) in
  match codec_ReconstructData (codec d) (shards block) with
  | None => (Err ErrDecode, removePendingLocked d (Key input) block)
  | Some working =>
      let datagram := assemble (Z.to_nat (DatagramLength input)) (take k working) in
      if negb (len datagram =? DatagramLength input)
      then (Err ErrDecode, removePendingLocked d (Key input) block) else
      let d1 := removePendingLocked d (Key input) block in
      let d2 := count CntCompletedBlocks 1 (rememberCompletedLocked d1 (Key input) now) in
      let d3 := if missingData =? 0 then d2
                else count CntRecoveredShards missingData (count CntRecoveredBlocks 1 d2) in
      (Ok {| outcome := OutcomeComplete; Datagram := Some datagram |}, d3)
  end.

(** The part that retains a distinct shard of [block]. *)
Definition storeShard (d : Decoder) (now : Z) (input : IncomingShard) (block : pendingBlock)
    : result FecError Result * Decoder :=
  let index := Z.to_nat (Index input) in
  match default None (shards block !! index) with
  | Some existing =>
      if bool_decide (existing = Payload input)
      then (Ok (plain OutcomeDuplicate), count CntDuplicateShards 1 d)
      else (Err ErrConflictingShard, d)
  | None =>
      let owned := Payload input in
      let block' := {| originalLength := originalLength block; shardSize := shardSize block;
                       shards := <[index := Some owned]> (shards block);
                       present := present block + 1; held := held block + len owned;
                       expiry := expiry block |} in
      let d1 := with_pending d (<[Key input := block']> (pending d)) (pendingExpiry d)
                  (pendingShards d + 1) (pendingBytes d + len owned)
                  (changePending (statistics d) 0 1 (len owned)) in
      if present block' <? DataShards (params d1) then (Ok (plain OutcomePending), d1)
      else finishBlock d1 now input block'
  end.

(** The admission of a new block. *)
Definition newBlock (d : Decoder) (now : Z) (input : IncomingShard) (size : Z)
    : pendingBlock * Decoder :=
  let entry := {| e_key := Key input; deadline := now + decodeTimeout d; serial := allocated d |} in
  let block := {| originalLength := DatagramLength input; shardSize := size;
                  shards := replicate (Z.to_nat (total d)) None; present := 0; held := 0;
                  expiry := entry |} in
  let d1 := with_pending d (<[Key input := block]> (pending d)) (heap_Push (pendingExpiry d) entry)
              (pendingShards d) (pendingBytes d) (changePending (statistics d) 1 0 0) in
  (block, with_history d1 (completed d1) (completedExpiry d1)
            ((fun w => FecReplay.admission w (key_PacketID (Key input))) <$> replay d1)
            (statistics d1) (allocated d1 + 1)).

(** [d.replay != nil && f]. *)
Definition inReplay (d : Decoder) (f : FecReplay.replayWindow -> bool) : bool :=
  match replay d with Some w => f w | None => false end.

Definition AddVerifiedShard (d : Decoder) (now : Z) (input : IncomingShard)
    : result FecError Result * Decoder :=
  if closed d then (Err ErrClosed, d) else
  match validateShard d input with
  | Err e => (Err e, d)
  | Ok size =>
      let d1 := snd (sweepLocked d now) in
      let id := key_PacketID (Key input) in
      match pending d1 !! Key input with
      | None =>
          if inReplay d1 (fun w => FecReplay.tooOld w id)
          then (Ok (plain OutcomeTooOld), count CntTooOldShards 1 d1) else
          if bool_decide (is_Some (completed d1 !! Key input))
             || inReplay d1 (fun w => FecReplay.contains w id)
          then (Ok (plain OutcomeDuplicate), count CntLateShards 1 d1) else
          if maxPendingBlocks d1 <=? Z.of_nat (base.size (pending d1))
          then (Err ErrDecoderFull, count CntDecoderFull 1 d1) else
          let '(block, d2) := newBlock d1 now input size in
          storeShard d2 now input block
      | Some block =>
          if negb (originalLength block =? DatagramLength input)
             || negb (shardSize block =? size)
          then (Err ErrInconsistentBlock, d1)
          else storeShard d1 now input block
      end
  end.

(** ** Statistics and shutdown *)

Definition stats (d : Decoder) : Stats :=
  {| PendingBlocks := Z.of_nat (base.size (pending d));
     PendingShards := pendingShards d; PendingBytes := pendingBytes d;
     CompletedBlocks := match replay d with
                        | Some w => FecReplay.count w
                        | None => Z.of_nat (base.size (completed d)) end |}.

Definition Close (d : Decoder) : Decoder :=
  if closed d then d else
  {| params := params d; limits := limits d; codec := codec d; total := total d;
     decodeTimeout := decodeTimeout d; completionTTL := completionTTL d;
     maxPendingBlocks := maxPendingBlocks d; maxCompletedBlocks := maxCompletedBlocks d;
     pending := ∅; pendingExpiry := []; completed := ∅; completedExpiry := [];
     pendingShards := 0; pendingBytes := 0; closed := true;
     statistics := changePending (statistics d) (- Z.of_nat (base.size (pending d)))
                     (- pendingShards d) (- pendingBytes d);
     replay := None; allocated := allocated d |}.
