(* ===== verification/FecDecoderProps.v ===== *)
(** * The FEC decoder keeps its bounds and delivers at most once

    The representation invariant [decoder_ok] of [FecDecoder.Decoder]: the pending
    table and its expiry queue agree, the retained totals are exact sums, the
    completed cache or replay window is consistent with the pending keys.  Every
    operation preserves it; bounds, statistics and at-most-once delivery follow. *)

From Stdlib Require Import Sorted.
From S2P Require Import Prelude Fec FecDecoder.
From S2P Require FecReplay.

(** ** Present shards *)

Lemma arrived_replicate n : arrived (replicate n None) = 0%nat.
Proof. by induction n. Qed.

Lemma arrived_cons x l : arrived (x :: l) = ((if x is Some _ then 1 else 0) + arrived l)%nat.
Proof. by destruct x. Qed.

Lemma arrived_insert l i s :
  l !! i = Some None -> arrived (<[i := Some s]> l) = S (arrived l).
Proof.
  revert i. induction l as [|x l IH]; intros [|i] H; try done.
  - by injection H as ->.
  - change (arrived (x :: <[i := Some s]> l) = S (arrived (x :: l))).
    rewrite !arrived_cons, IH by done. destruct x; lia.
Qed.

Lemma arrived_le l : (arrived l <= length l)%nat.
Proof. induction l as [|[]]; cbn in *; unfold arrived in *; lia. Qed.

(** ** Expiry queues *)

Definition sooner (a b : expiryEntry) : Prop := deadline a <= deadline b.
Abbreviation queue_sorted := (StronglySorted sooner).

Lemma elem_of_heap_Push h e x : x ∈ heap_Push h e <-> x = e \/ x ∈ h.
Proof.
  induction h as [|y h IH]; cbn [heap_Push].
  - set_solver.
  - destruct (Less e y); rewrite !elem_of_cons; [done|]. rewrite IH. tauto.
Qed.

Lemma Less_sooner a b : if Less a b then sooner a b else sooner b a.
Proof.
  unfold Less, sooner. destruct (Z.eqb_spec (deadline a) (deadline b)) as [->|]; cbn.
  - by destruct (keyLess _ _).
  - destruct (Z.ltb_spec (deadline a) (deadline b)); lia.
Qed.

Lemma heap_Push_sorted h e : queue_sorted h -> queue_sorted (heap_Push h e).
Proof.
  induction h as [|y h IH]; intros H; cbn [heap_Push]; [by repeat constructor|].
  apply StronglySorted_inv in H as [H1 H2]. pose proof (Less_sooner e y) as HL.
  destruct (Less e y).
  - constructor; [by constructor|]. constructor; [done|]. eapply Forall_impl; [done|].
    unfold sooner in *. intros x Hx. cbn in Hx. lia.
  - constructor; [auto|]. apply Forall_forall. intros x [->|Hx]%elem_of_heap_Push; [done|].
    by eapply Forall_forall in H2.
Qed.

Lemma heap_Push_nodup h e : e ∉ h -> NoDup h -> NoDup (heap_Push h e).
Proof.
  induction h as [|y h IH]; intros He H; cbn [heap_Push]; [by repeat constructor|].
  destruct (Less e y); [by constructor|]. apply NoDup_cons in H as [H1 H2].
  constructor; [|apply IH; set_solver]. rewrite elem_of_heap_Push. set_solver.
Qed.

Lemma heap_Remove_sorted h e : queue_sorted h -> queue_sorted (heap_Remove h e).
Proof.
  induction 1 as [|x h H IH Hx]; [constructor|]. unfold heap_Remove in *.
  rewrite filter_cons. case_decide; [|done]. constructor; [done|].
  apply Forall_forall. intros y [_ Hy]%list_elem_of_filter. by eapply Forall_forall in Hx.
Qed.

Lemma heap_Remove_head h e : NoDup (e :: h) -> heap_Remove (e :: h) e = h.
Proof.
  intros [H1 H2]%NoDup_cons. unfold heap_Remove. rewrite filter_cons_False by tauto.
  clear H2. induction h as [|x h IH]; [done|].
  rewrite filter_cons_True by set_solver. f_equal. set_solver.
Qed.

(** ** The pending table *)

Record block_ok (p : Params) (tot : Z) (lim : Limits) (key : BlockKey) (b : pendingBlock) : Prop := {
  bo_key : e_key (expiry b) = key;
  bo_length : len (shards b) = tot;
  bo_original : 0 <= originalLength b <= EffectiveDatagramLimit lim;
  bo_size : shardSize b = shardSizeForDatagram (originalLength b) (DataShards p);
  bo_shards : forall i s, shards b !! i = Some (Some s) -> len s = shardSize b;
  bo_present : present b = Z.of_nat (arrived (shards b));
  bo_held : held b = present b * shardSize b }.

Section table.
Context (p : Params) (tot : Z) (lim : Limits).

Record table_ok (m : gmap BlockKey pendingBlock) (h : list expiryEntry) (ns nb : Z) : Prop := {
  to_blocks : forall key b, m !! key = Some b -> block_ok p tot lim key b;
  to_queue : forall e, e ∈ h <-> exists b, m !! e_key e = Some b /\ expiry b = e;
  to_sorted : queue_sorted h;
  to_nodup : NoDup h;
  to_shards : ns = msum present m;
  to_bytes : nb = msum held m }.

Lemma table_remove m h ns nb key b :
  table_ok m h ns nb -> m !! key = Some b ->
  table_ok (delete key m) (heap_Remove h (expiry b)) (ns - present b) (nb - held b).
Proof.
  intros [T1 T2 T3 T4 T5 T6] Hb. pose proof (T1 _ _ Hb) as [Hk _ _ _ _ _ _]. split.
  - intros k' b' [_ Hb']%lookup_delete_Some. auto.
  - intros e. unfold heap_Remove. rewrite list_elem_of_filter, T2.
    split.
    + intros (Hne & b' & Hb' & He). exists b'. split; [|done].
      rewrite lookup_delete_ne; [done|]. intros E. rewrite <- E, Hb in Hb'. congruence.
    + intros (b' & [Hne Hb']%lookup_delete_Some & He). split; [|eauto].
      intros ->. rewrite Hk in Hne. done.
  - by apply heap_Remove_sorted.
  - by apply NoDup_filter.
  - rewrite (msum_delete _ _ _ b) by done. lia.
  - rewrite (msum_delete _ _ _ b) by done. lia.
Qed.

Lemma table_new m h ns nb key b :
  table_ok m h ns nb -> m !! key = None -> block_ok p tot lim key b ->
  table_ok (<[key := b]> m) (heap_Push h (expiry b)) (ns + present b) (nb + held b).
Proof.
  intros [T1 T2 T3 T4 T5 T6] Hn Hb. pose proof Hb as [Hk _ _ _ _ _ _].
  assert (Hfresh : expiry b ∉ h).
  { intros (b' & Hb' & _)%T2. rewrite Hk in Hb'. congruence. }
  split.
  - intros k' b' [[<- <-]|[_ Hb']]%lookup_insert_Some; auto.
  - intros e. rewrite elem_of_heap_Push, T2. split.
    + intros [->|(b' & Hb' & He)].
      * exists b. by rewrite Hk, lookup_insert_eq.
      * exists b'. rewrite lookup_insert_ne; [done|]. intros E. rewrite <- E in Hb'. congruence.
    + intros (b' & [[E <-]|[_ Hb']]%lookup_insert_Some & He); [by left|right; eauto].
  - by apply heap_Push_sorted.
  - by apply heap_Push_nodup.
  - rewrite msum_insert by done. lia.
  - rewrite msum_insert by done. lia.
Qed.

Lemma table_update m h ns nb key b b' :
  table_ok m h ns nb -> m !! key = Some b -> block_ok p tot lim key b' ->
  expiry b' = expiry b ->
  table_ok (<[key := b']> m) h (ns + (present b' - present b)) (nb + (held b' - held b)).
Proof.
  intros [T1 T2 T3 T4 T5 T6] Hb Hb' He. pose proof Hb' as [Hk _ _ _ _ _ _]. split; try done.
  - intros k0 b0 [[<- <-]|[_ Hb0]]%lookup_insert_Some; auto.
  - intros e. rewrite T2. split.
    + intros (b0 & Hb0 & He0). destruct (decide (e_key e = key)) as [E|Hne].
      * exists b'. rewrite E, lookup_insert_eq. split; [done|]. rewrite E in Hb0. congruence.
      * exists b0. by rewrite lookup_insert_ne.
    + intros (b0 & [[E <-]|[_ Hb0]]%lookup_insert_Some & He0); [|eauto].
      exists b. rewrite <- E. split; [done|congruence].
  - rewrite (msum_update _ _ _ b) by done. lia.
  - rewrite (msum_update _ _ _ b) by done. lia.
Qed.

Lemma table_empty : table_ok ∅ [] 0 0.
Proof.
  split; try constructor; try done.
  - intros H. by apply elem_of_nil in H.
  - by intros (b & ? & _).
Qed.
End table.

(** ** Completed blocks *)

Record history_ok (c : gmap BlockKey expiryEntry) (h : list expiryEntry) (limit : Z)
    (r : option FecReplay.replayWindow) : Prop := {
  ho_keys : forall key e, c !! key = Some e -> e_key e = key;
  ho_queue : forall e, e ∈ h <-> c !! e_key e = Some e;
  ho_sorted : queue_sorted h;
  ho_nodup : NoDup h;
  ho_bound : r = None -> Z.of_nat (size c) <= limit;
  ho_replay : r <> None -> c = ∅ }.

Lemma history_remove c h limit r e :
  history_ok c (e :: h) limit r -> history_ok (delete (e_key e) c) h limit r.
Proof.
  intros [H1 H2 H3 H4 H5 H6].
  apply StronglySorted_inv in H3 as [H3 _]. apply NoDup_cons in H4 as [H4 H4'].
  assert (He : c !! e_key e = Some e) by (apply H2; set_solver).
  split; try done.
  - intros key e' [_ ?]%lookup_delete_Some. auto.
  - intros e'. rewrite lookup_delete_Some. split.
    + intros He'. assert (c !! e_key e' = Some e') by (apply H2; set_solver).
      split; [|done]. intros E. rewrite E in He. assert (e = e') by congruence. by subst.
    + intros [Hne He'%H2]. set_solver.
  - intros Hr. specialize (H5 Hr). rewrite map_size_delete_Some by eauto. lia.
  - intros Hr. rewrite H6 by done. apply delete_empty.
Qed.

Lemma history_head c h limit r e :
  history_ok c (e :: h) limit r -> size c = S (size (delete (e_key e) c)).
Proof.
  intros H. assert (He : c !! e_key e = Some e) by (apply (ho_queue _ _ _ _ H); set_solver).
  symmetry. rewrite map_size_delete_Some by eauto. destruct (size c) eqn:E; [|done].
  apply map_size_empty_inv in E. subst. by rewrite lookup_empty in He.
Qed.

Lemma history_insert c h limit e :
  history_ok c h limit None -> c !! e_key e = None -> Z.of_nat (size c) < limit ->
  history_ok (<[e_key e := e]> c) (heap_Push h e) limit None.
Proof.
  intros [H1 H2 H3 H4 H5 H6] He Hlt.
  assert (Hfresh : e ∉ h) by (rewrite H2; congruence).
  split.
  - intros key e' [[<- <-]|[_ ?]]%lookup_insert_Some; auto.
  - intros e'. rewrite elem_of_heap_Push, H2, lookup_insert_Some. split.
    + intros [->|He']; [by left|]. right. split; [|done]. intros E. rewrite E in He. congruence.
    + intros [[_ ->]|[_ ?]]; auto.
  - by apply heap_Push_sorted.
  - by apply heap_Push_nodup.
  - intros _. rewrite map_size_insert_None by done. lia.
  - done.
Qed.

(** A nonempty cache has a nonempty queue. *)
Lemma history_nonempty c limit r : history_ok c [] limit r -> c = ∅.
Proof.
  intros [H1 H2 _ _ _ _]. apply map_eq. intros k. rewrite lookup_empty.
  destruct (c !! k) as [e|] eqn:E; [|done]. pose proof (H1 _ _ E) as <-.
  apply H2 in E. by apply elem_of_nil in E.
Qed.

(** ** Pending keys against completed ones *)

Record link_ok (m : gmap BlockKey pendingBlock) (c : gmap BlockKey expiryEntry)
    (r : option FecReplay.replayWindow) (s : FecReplay.Spec.t) : Prop := {
  lo_apart : forall key, is_Some (c !! key) -> m !! key = None;
  lo_replay : forall w, r = Some w -> FecReplay.rel w s /\ forall key b, m !! key = Some b ->
    key_SessionID key = FecReplay.sessionID w /\ in_u 64 (key_PacketID key) /\
    FecReplay.started w = true /\ key_PacketID key <= FecReplay.highest w /\
    key_PacketID key ∉ FecReplay.Spec.finished s }.

Lemma link_mono m m' c c' r s :
  link_ok m c r s -> (forall k b, m' !! k = Some b -> exists b', m !! k = Some b') ->
  (forall k, is_Some (c' !! k) -> is_Some (c !! k)) -> link_ok m' c' r s.
Proof.
  intros [L1 L2] Hm Hc. split.
  - intros key Hk%Hc%L1. destruct (m' !! key) eqn:E; [|done].
    apply Hm in E as [? ?]. congruence.
  - intros w Hw. destruct (L2 w Hw) as [R Hp]. split; [done|].
    intros key b [b' Hb']%Hm. eauto.
Qed.

(** Admitting the block of a key that is neither pending nor completed. *)
Lemma link_new m c r s key b :
  link_ok m c r s -> c !! key = None -> in_u 64 (key_PacketID key) ->
  (forall w, r = Some w -> key_SessionID key = FecReplay.sessionID w /\
     FecReplay.tooOld w (key_PacketID key) = false /\
     FecReplay.contains w (key_PacketID key) = false) ->
  exists s', FecReplay.Spec.finished s' = FecReplay.Spec.finished s /\
    link_ok (<[key := b]> m) c
      ((fun w => FecReplay.admission w (key_PacketID key)) <$> r) s'.
Proof.
  intros [L1 L2] Hc Hid Hr. set (id := key_PacketID key) in *.
  exists (FecReplay.Spec.admission s id). split; [done|]. split.
  - intros key' Hk'. rewrite lookup_insert_ne; [auto|]. intros ->. destruct Hk'. congruence.
  - intros w' Hw'. destruct r as [w|]; [|done]. injection Hw' as <-.
    destruct (L2 w eq_refl) as [R Hp]. destruct (Hr w eq_refl) as (Hs & Ht & Hn).
    pose proof (FecReplay.admission_spec _ _ _ R Hid) as R'. split; [done|].
    destruct (FecReplay.session_kept w id) as [_ ->].
    pose proof (FecReplay.r_top _ _ R') as Htop. pose proof (FecReplay.r_top _ _ R) as Htop0.
    cbn [FecReplay.Spec.admission FecReplay.Spec.top] in Htop.
    destruct (FecReplay.started (FecReplay.admission w id)); [|done].
    injection Htop as Htop. rewrite <- Htop.
    intros k0 b0 [[<- <-]|[_ Hb0]]%lookup_insert_Some.
    + split; [done|]. split; [done|]. split; [done|].
      rewrite (FecReplay.tooOld_spec _ _ _ R Hid) in Ht.
      rewrite (FecReplay.contains_spec _ _ _ R Hid) in Hn.
      unfold FecReplay.Spec.tooOld, FecReplay.Spec.contains in *. split.
      { rewrite Htop0. destruct (FecReplay.started w); fold id; lia. }
      intros Hin. cbn in Hin. pose proof (FecReplay.r_finished _ _ R _ Hin) as [Hst Hle].
      rewrite Htop0, Hst in *. fold id in Hle, Hin.
      rewrite (bool_decide_eq_true_2 _ Hin) in Hn. lia.
    + destruct (Hp _ _ Hb0) as (P1 & P2 & P3 & P4 & P5). rewrite Htop0, P3 in *.
      repeat (split; [done|]). split; [lia|done].
Qed.

(** Completing a key that has just left the pending table. *)
Lemma link_complete m c r s key w :
  link_ok m c r s -> r = Some w -> is_Some (m !! key) ->
  link_ok (delete key m) c (Some (FecReplay.complete w (key_PacketID key)))
    (FecReplay.Spec.complete s (key_PacketID key)).
Proof.
  intros [L1 L2] Hw [b Hb]. destruct (L2 w Hw) as [R Hp].
  destruct (Hp _ _ Hb) as (P1 & P2 & P3 & P4 & P5).
  pose proof (FecReplay.complete_spec _ _ _ R P2 P3 P4) as R'.
  assert (Hkeep : FecReplay.started (FecReplay.complete w (key_PacketID key)) = true /\
    FecReplay.highest (FecReplay.complete w (key_PacketID key)) = FecReplay.highest w)
    by (unfold FecReplay.complete; by repeat case_match).
  destruct Hkeep as [K1 K2]. split.
  - intros key' Hk'. apply lookup_delete_None. auto.
  - intros w' [= <-]. split; [done|]. rewrite K1, K2.
    destruct (FecReplay.session_kept w (key_PacketID key)) as [-> _].
    intros k0 b0 [Hne Hb0]%lookup_delete_Some. destruct (Hp _ _ Hb0) as (Q1 & Q2 & Q3 & Q4 & Q5).
    repeat (split; [done|]). cbn. intros [E%elem_of_singleton|?]%elem_of_union; [|done].
    apply Hne. destruct key, k0. cbn in *. congruence.
Qed.

(** ** The invariant *)

Record config_ok (p : Params) (tot : Z) (lim : Limits) (maxPending maxCompleted timeout : Z)
    (r : option FecReplay.replayWindow) : Prop := {
  co_params : params_ok p;
  co_total : tot = DataShards p + ParityShards p;
  co_capacity : 1 <= ShardCapacity lim;
  co_effective : EffectiveDatagramLimit lim
    <= Z.min (DataShards p * ShardCapacity lim) maxWireOriginalLength;
  co_pending : 1 <= maxPending;
  co_completed : r = None -> 1 <= maxCompleted;
  co_timeout : 0 < timeout }.

(** The gauges of a decoder with its own collector. *)
Definition gauges_ok (st : option Counters) (blocks nShards nBytes : Z) : Prop :=
  forall c, st = Some c -> current (gaugeBlocks c) = goInt blocks /\
    current (gaugeShards c) = goInt nShards /\ current (gaugeBytes c) = goInt nBytes.

(** Between two calls: [s] is the history of completed PacketIDs of the replay window. *)
Definition decoder_ok (d : Decoder) (s : FecReplay.Spec.t) : Prop :=
  config_ok (params d) (total d) (limits d) (maxPendingBlocks d) (maxCompletedBlocks d)
    (decodeTimeout d) (replay d) /\
  table_ok (params d) (total d) (limits d) (pending d) (pendingExpiry d)
    (pendingShards d) (pendingBytes d) /\
  history_ok (completed d) (completedExpiry d) (maxCompletedBlocks d) (replay d) /\
  link_ok (pending d) (completed d) (replay d) s /\
  gauges_ok (statistics d) (Z.of_nat (size (pending d))) (pendingShards d) (pendingBytes d) /\
  Z.of_nat (size (pending d)) <= maxPendingBlocks d.

(** Every pending block still waits for shards; holds between calls. *)
Definition partial (d : Decoder) : Prop :=
  forall key b, pending d !! key = Some b -> 1 <= present b < DataShards (params d).

Lemma goInt_add a b : goInt (goInt a + b) = goInt (a + b).
Proof.
  unfold goInt. f_equal.
  replace ((a + 2 ^ 63) mod 2 ^ 64 - 2 ^ 63 + b + 2 ^ 63)
    with ((a + 2 ^ 63) mod 2 ^ 64 + b) by lia.
  rewrite Zplus_mod_idemp_l. f_equal. lia.
Qed.

Lemma changeGauge_current g v delta :
  current g = goInt v -> current (changeGauge g delta) = goInt (v + delta).
Proof.
  intros H. unfold changeGauge. destruct (Z.eqb_spec delta 0) as [->|]; [by rewrite Z.add_0_r|].
  by destruct (delta <? 0); cbn; rewrite H, goInt_add.
Qed.

Lemma changePending_gauges st b0 s0 y0 db ds dy b1 s1 y1 :
  gauges_ok st b0 s0 y0 -> b1 = b0 + db -> s1 = s0 + ds -> y1 = y0 + dy ->
  gauges_ok (changePending st db ds dy) b1 s1 y1.
Proof.
  intros H -> -> -> c Hc. destruct st as [c0|]; [|done]. injection Hc as <-.
  destruct (H c0 eq_refl) as (? & ? & ?). cbn. auto using changeGauge_current.
Qed.

Lemma addCounter_gauges st b s y x n : gauges_ok st b s y -> gauges_ok (addCounter x n st) b s y.
Proof.
  intros H c Hc. destruct st as [c0|]; [|done]. injection Hc as <-. exact (H c0 eq_refl).
Qed.

(** [decoder_ok] does not look at the cumulative counters. *)
Lemma count_ok d s x n : decoder_ok d s -> decoder_ok (count x n d) s.
Proof.
  intros (H1 & H2 & H3 & H4 & H5 & H6). repeat (split; [assumption|]).
  split; [apply addCounter_gauges, H5|exact H6].
Qed.

(** ** Sweeping *)

(** What is left of a table at [now]. *)
Definition alive (now : Z) (m : gmap BlockKey pendingBlock) (key : BlockKey) : option pendingBlock :=
  match m !! key with
  | Some b => if deadline (expiry b) <=? now then None else Some b
  | None => None
  end.

Lemma table_alive p tot lim m e h ns nb now :
  table_ok p tot lim m (e :: h) ns nb -> now < deadline e ->
  forall key, m !! key = alive now m key.
Proof.
  intros T Hnow key. unfold alive. destruct (m !! key) as [b|] eqn:E; [|done].
  pose proof (bo_key _ _ _ _ _ (to_blocks _ _ _ _ _ _ _ T _ _ E)) as Hk.
  assert (Hin : expiry b ∈ e :: h)
    by (apply (to_queue _ _ _ _ _ _ _ T); exists b; by rewrite Hk).
  pose proof (to_sorted _ _ _ _ _ _ _ T) as [_ Hs]%StronglySorted_inv.
  replace (_ <=? now) with false; [done|]. symmetry. apply Z.leb_gt.
  apply elem_of_cons in Hin as [->|Hin]; [done|].
  eapply Forall_forall in Hs; [|done]. unfold sooner in Hs. lia.
Qed.

Lemma table_alive_nil p tot lim m ns nb now :
  table_ok p tot lim m [] ns nb -> forall key, m !! key = alive now m key.
Proof.
  intros T key. unfold alive. destruct (m !! key) as [b|] eqn:E; [|done].
  pose proof (bo_key _ _ _ _ _ (to_blocks _ _ _ _ _ _ _ T _ _ E)) as Hk.
  assert (Hin : expiry b ∈ []) by (apply (to_queue _ _ _ _ _ _ _ T); exists b; by rewrite Hk).
  by apply elem_of_nil in Hin.
Qed.

Record swept (now : Z) (d d' : Decoder) (n : Z) : Prop := {
  sw_frame : d' = with_pending d (pending d') (pendingExpiry d') (pendingShards d')
    (pendingBytes d') (statistics d');
  sw_table : table_ok (params d) (total d) (limits d) (pending d') (pendingExpiry d')
    (pendingShards d') (pendingBytes d');
  sw_gauges : gauges_ok (statistics d') (Z.of_nat (size (pending d'))) (pendingShards d')
    (pendingBytes d');
  sw_pending : forall key, pending d' !! key = alive now (pending d) key;
  sw_count : n = Z.of_nat (size (pending d)) - Z.of_nat (size (pending d')) }.

Lemma sweepPending_spec h now : forall d n n' d',
  table_ok (params d) (total d) (limits d) (pending d) h (pendingShards d) (pendingBytes d) ->
  gauges_ok (statistics d) (Z.of_nat (size (pending d))) (pendingShards d) (pendingBytes d) ->
  sweepPending h now d n = (n', d') -> swept now d d' (n' - n).
Proof.
  induction h as [|e h IH]; intros d n n' d' T G H; cbn [sweepPending] in H.
  - injection H as <- <-. split; try done; [by apply (table_alive_nil _ _ _ _ _ _ _ T)|cbn; lia].
  - destruct (Z.ltb_spec now (deadline e)) as [Hlt|Hge].
    { injection H as <- <-. split; try done; [by apply (table_alive _ _ _ _ _ _ _ _ _ T)|cbn; lia]. }
    assert (Hin : e ∈ e :: h) by set_solver.
    apply (to_queue _ _ _ _ _ _ _ T) in Hin as (b & Hb & He).
    rewrite Hb, bool_decide_eq_true_2 in H by done.
    pose proof (table_remove _ _ _ _ _ _ _ _ _ T Hb) as T'.
    rewrite He, heap_Remove_head in T' by apply T.
    assert (Hsz : Z.of_nat (size (pending d))
      = 1 + Z.of_nat (size (delete (e_key e) (pending d)))).
    { rewrite map_size_delete_Some by eauto. destruct (size (pending d)) eqn:E; [|lia].
      apply map_size_empty_inv in E. rewrite E in Hb. by rewrite lookup_empty in Hb. }
    assert (G' : gauges_ok (changePending (statistics d) (-1) (- present b) (- held b))
      (Z.of_nat (size (delete (e_key e) (pending d)))) (pendingShards d - present b)
      (pendingBytes d - held b)) by (eapply changePending_gauges; [exact G|lia..]).
    apply IH in H as [F T'' G'' A C]; [|exact T'|by apply addCounter_gauges].
    split; [by rewrite F|exact T''|exact G''| |cbn in C; lia].
    intros key. rewrite A. unfold alive. cbn. destruct (decide (e_key e = key)) as [<-|Hne].
    + rewrite lookup_delete_eq, Hb, He. by replace (_ <=? now) with true by lia.
    + by rewrite lookup_delete_ne.
Qed.

Lemma sweepCompleted_spec h now : forall d n n' d' limit,
  history_ok (completed d) h limit (replay d) -> sweepCompleted h now d n = (n', d') ->
  d' = with_history d (completed d') (completedExpiry d') (replay d) (statistics d) (allocated d) /\
  history_ok (completed d') (completedExpiry d') limit (replay d) /\
  (forall key, completed d' !! key =
     match completed d !! key with
     | Some e => if deadline e <=? now then None else Some e
     | None => None end) /\
  n' = n + (Z.of_nat (size (completed d)) - Z.of_nat (size (completed d'))).
Proof.
  induction h as [|e h IH]; intros d n n' d' limit Ho H; cbn [sweepCompleted] in H.
  - injection H as <- <-. split; [done|]. split; [done|]. split; [|cbn; lia].
    intros key. cbn. rewrite (history_nonempty _ _ _ Ho). by rewrite !lookup_empty.
  - destruct (Z.ltb_spec now (deadline e)) as [Hlt|Hge].
    { injection H as <- <-. split; [done|]. split; [done|]. split; [|cbn; lia].
      intros key. cbn. destruct (completed d !! key) as [e'|] eqn:E; [|done].
      pose proof (ho_keys _ _ _ _ Ho _ _ E) as <-. apply (ho_queue _ _ _ _ Ho) in E.
      pose proof (ho_sorted _ _ _ _ Ho) as [_ Hs]%StronglySorted_inv.
      replace (_ <=? now) with false; [done|]. symmetry. apply Z.leb_gt.
      apply elem_of_cons in E as [->|E]; [done|].
      eapply Forall_forall in Hs; [|done]. unfold sooner in Hs. lia. }
    assert (He : completed d !! e_key e = Some e) by (apply (ho_queue _ _ _ _ Ho); set_solver).
    rewrite bool_decide_eq_true_2 in H by done. pose proof (history_head _ _ _ _ _ Ho) as Hsz.
    apply (IH _ _ _ _ limit) in H as (F & H1 & H2 & H3); [|by apply history_remove].
    split; [by rewrite F|]. split; [exact H1|]. split; [|cbn in H3; lia].
    intros key. rewrite H2. cbn. destruct (decide (e_key e = key)) as [<-|Hne].
    + rewrite lookup_delete_eq, He. by replace (_ <=? now) with true by lia.
    + by rewrite lookup_delete_ne.
Qed.

(** After a sweep exactly the expired entries are gone and are counted. *)
Record sweep_post (now : Z) (d d' : Decoder) (x : ExpireStats) : Prop := {
  sp_pending : forall key, pending d' !! key = alive now (pending d) key;
  sp_completed : forall key, completed d' !! key =
     match completed d !! key with
     | Some e => if deadline e <=? now then None else Some e
     | None => None end;
  sp_counts : exp_PendingBlocks x = Z.of_nat (size (pending d)) - Z.of_nat (size (pending d')) /\
    exp_CompletedBlocks x = Z.of_nat (size (completed d)) - Z.of_nat (size (completed d'));
  sp_frame : params d' = params d /\ limits d' = limits d /\ codec d' = codec d /\
    total d' = total d /\ maxPendingBlocks d' = maxPendingBlocks d /\ replay d' = replay d /\
    closed d' = closed d /\ decodeTimeout d' = decodeTimeout d /\ allocated d' = allocated d }.

Lemma sweepLocked_spec d s now x d' :
  decoder_ok d s -> sweepLocked d now = (x, d') -> decoder_ok d' s /\ sweep_post now d d' x.
Proof.
  intros (K & T & Ho & L & G & B) H. unfold sweepLocked in H.
  destruct (sweepPending _ _ _ _) as [n d1] eqn:E1. cbv zeta in H.
  destruct (sweepCompleted _ _ _ _) as [m d2] eqn:E2. injection H as <- <-.
  apply sweepPending_spec in E1 as [F T1 G1 A1 C1]; [|done..]. rewrite Z.sub_0_r in C1.
  assert (Ho1 : history_ok (completed d1) (completedExpiry d1) (maxCompletedBlocks d) (replay d1))
    by (rewrite F; exact Ho).
  eapply sweepCompleted_spec in E2 as (F2 & H1 & H2 & H3); [|exact Ho1].
  assert (Hsub : forall k b, pending d1 !! k = Some b -> exists b', pending d !! k = Some b').
  { intros k b. rewrite A1. unfold alive. destruct (pending d !! k); [eauto|done]. }
  split.
  - rewrite F2. split; [by rewrite F|]. split; [rewrite F; exact T1|].
    split; [rewrite F in H1 |- *; exact H1|].
    split; [|split].
    + eapply link_mono; [rewrite F; exact L|exact Hsub|]. intros k. cbn. rewrite H2, F.
      cbn. destruct (completed d !! k); [eauto|done].
    + exact G1.
    + assert (Hle : (size (pending d1) <= size (pending d))%nat).
      { apply map_subseteq_size, map_subseteq_spec. intros k b. rewrite A1. unfold alive.
        destruct (pending d !! k); [|done]. by destruct (_ <=? now). }
      change (Z.of_nat (size (pending d1)) <= maxPendingBlocks d1).
      replace (maxPendingBlocks d1) with (maxPendingBlocks d) by (by rewrite F). lia.
  - split.
    + intros key. rewrite F2. apply A1.
    + intros key. rewrite H2, F. done.
    + rewrite F2. cbn. rewrite F in H3. cbn in H3. lia.
    + rewrite F2, F. done.
Qed.

(** ** Leaving the pending table *)

Lemma size_delete_member {A} (m : gmap BlockKey A) key b :
  m !! key = Some b -> Z.of_nat (size m) = 1 + Z.of_nat (size (delete key m)).
Proof.
  intros Hb. rewrite map_size_delete_Some by eauto. destruct (size m) eqn:E; [|lia].
  apply map_size_empty_inv in E. subst. by rewrite lookup_empty in Hb.
Qed.

Lemma removePending_ok d s key b :
  decoder_ok d s -> pending d !! key = Some b -> decoder_ok (removePendingLocked d key b) s.
Proof.
  intros (K & T & Ho & L & G & B) Hb. pose proof (size_delete_member _ _ _ Hb) as Hsz.
  split; [exact K|]. split; [by apply table_remove|]. split; [exact Ho|].
  split; [|split].
  - eapply link_mono; [exact L| |done]. cbn. intros k b' [_ ?]%lookup_delete_Some. eauto.
  - eapply changePending_gauges; [exact G|cbn; lia..].
  - cbn. lia.
Qed.

Lemma evictOldest_ok d s :
  decoder_ok d s -> replay d = None -> maxCompletedBlocks d <= Z.of_nat (size (completed d)) ->
  decoder_ok (evictOldest d) s /\
  Z.of_nat (size (completed (evictOldest d))) < maxCompletedBlocks d /\
  exists st m h, evictOldest d = with_history d m h (replay d) st (allocated d) /\
    (forall k, is_Some (m !! k) -> is_Some (completed d !! k)).
Proof.
  intros (K & T & Ho & L & G & B) Hr Hfull. pose proof (co_completed _ _ _ _ _ _ _ K Hr) as Hm.
  pose proof (ho_bound _ _ _ _ Ho Hr) as Hle. unfold evictOldest.
  destruct (completedExpiry d) as [|e h] eqn:E.
  { rewrite (history_nonempty _ _ _ Ho), map_size_empty in Hfull. lia. }
  pose proof (history_head _ _ _ _ _ Ho) as Hsz. cbn. split; [|split].
  - apply count_ok. split; [exact K|]. split; [exact T|]. split; [by apply history_remove|].
    split; [|by split]. eapply link_mono; [exact L|eauto|].
    intros k [e' He']. cbn in He'. apply lookup_delete_Some in He' as [_ ?]. eauto.
  - lia.
  - do 3 eexists. split; [reflexivity|].
    intros k [e' He']. cbn in He'. apply lookup_delete_Some in He' as [_ ?]. eauto.
Qed.

(** [rememberCompletedLocked] after the block has left the table. *)
Lemma remember_ok d s key b now :
  decoder_ok d s -> pending d !! key = Some b ->
  exists s', decoder_ok (rememberCompletedLocked (removePendingLocked d key b) key now) s' /\
    (replay d <> None -> (key_PacketID key ∉ FecReplay.Spec.finished s) /\
       (FecReplay.Spec.finished s' = {[key_PacketID key]} ∪ FecReplay.Spec.finished s)).
Proof.
  intros D Hb. pose proof (removePending_ok _ _ _ _ D Hb) as D1.
  pose proof D as (_ & _ & _ & L & _ & _). unfold rememberCompletedLocked.
  change (replay (removePendingLocked d key b)) with (replay d).
  destruct (replay d) as [w|] eqn:Hr.
  - exists (FecReplay.Spec.complete s (key_PacketID key)).
    destruct D1 as (K & T & Ho & _ & G & B). split.
    + split; [cbn in *; destruct K; by split|]. split; [exact T|].
      split; [destruct Ho; split; try assumption; [discriminate|cbn in *; rewrite Hr in *; auto]|].
      split; [|by split]. by apply (link_complete (pending d) _ (Some w)).
    + intros _. split; [|done]. by apply (proj2 (lo_replay _ _ _ _ L w eq_refl) key b).
  - exists s. split; [|done]. set (d1 := removePendingLocked d key b) in *.
    assert (Hr1 : replay d1 = None) by exact Hr.
    assert (Hnone : completed d1 !! key = None).
    { destruct (completed d !! key) eqn:E; [|exact E].
      rewrite (lo_apart _ _ _ _ L key) in Hb by eauto. done. }
    set (d2 := if maxCompletedBlocks d1 <=? _ then evictOldest d1 else d1).
    assert (H2 : decoder_ok d2 s /\ Z.of_nat (size (completed d2)) < maxCompletedBlocks d2 /\
      replay d2 = None /\ completed d2 !! key = None /\ pending d2 = pending d1).
    { unfold d2. destruct (Z.leb_spec (maxCompletedBlocks d1) (Z.of_nat (size (completed d1)))).
      - destruct (evictOldest_ok d1 s D1 Hr1) as (E1 & E2 & st & m & h & E3 & E4); [done|].
        rewrite E3 in E1, E2 |- *. cbn in E2 |- *. split; [done|]. split; [done|].
        split; [done|]. split; [|done]. destruct (m !! key) eqn:E; [|done].
        destruct (E4 key); [eauto|congruence].
      - done. }
    clearbody d2. destruct H2 as ((K & T & Ho & L2 & G & B) & Hlt & Hr2 & Hk2 & Hp2).
    split; [exact K|]. split; [exact T|]. split; [|split; [|by split]].
    + cbn. rewrite Hr2 in Ho |- *. by apply (history_insert _ _ _
        {| e_key := key; deadline := _; serial := _ |}).
    + split; cbn.
      * intros k [<-|[_ Hk]]%lookup_insert_is_Some.
        -- rewrite Hp2. apply lookup_delete_eq.
        -- by apply (lo_apart _ _ _ _ L2).
      * rewrite Hr2. done.
Qed.

(** ** Adding a shard *)

(** What [validateShard] establishes. *)
Record valid_shard (d : Decoder) (input : IncomingShard) (size : Z) : Prop := {
  vs_session : forall w, replay d = Some w ->
    key_SessionID (Key input) = FecReplay.sessionID w;
  vs_params : ShardParams input = params d;
  vs_index : 0 <= Index input < total d;
  vs_length : 0 <= DatagramLength input <= EffectiveDatagramLimit (limits d);
  vs_size : size = shardSizeForDatagram (DatagramLength input) (DataShards (params d));
  vs_capacity : size <= ShardCapacity (limits d);
  vs_payload : len (Payload input) = size }.

Lemma validateShard_iff d input size :
  validateShard d input = Ok size <-> valid_shard d input size.
Proof.
  unfold validateShard. split.
  - intros H. go_inv H; bools; subst; (split; try done; try lia).
    intros w Hw. rewrite Hw in E. by bools.
  - intros [V1 V2 V3 V4 -> V6 V7]. rewrite V2, bool_decide_eq_true_2 by done. cbn [negb].
    replace (_ || _) with false by lia. replace (_ || _) with false by lia.
    rewrite V7, Z.eqb_refl. replace (_ || _) with false by lia.
    destruct (replay d) as [w|]; [|done]. by rewrite bool_decide_eq_true_2 by auto.
Qed.

Definition isComplete (r : result FecError Result) : bool :=
  match r with Ok res => bool_decide (outcome res = OutcomeComplete) | Err _ => false end.

(** What a call that ends in [r] did to the history [s] and delivered. *)
Record delivery (d : Decoder) (input : IncomingShard) (s s' : FecReplay.Spec.t)
    (r : result FecError Result) : Prop := {
  dl_fresh : isComplete r = true -> replay d <> None ->
    (key_PacketID (Key input) ∉ FecReplay.Spec.finished s) /\
    FecReplay.Spec.finished s'
      = {[key_PacketID (Key input)]} ∪ FecReplay.Spec.finished s;
  dl_none : isComplete r = false -> FecReplay.Spec.finished s' = FecReplay.Spec.finished s;
  dl_length : forall res, r = Ok res ->
    match Datagram res with
    | Some dg => outcome res = OutcomeComplete /\ len dg = DatagramLength input
    | None => outcome res <> OutcomeComplete end }.

Lemma delivery_none d input s s' r :
  (match r with Ok res => outcome res <> OutcomeComplete /\ Datagram res = None | Err _ => True end) ->
  FecReplay.Spec.finished s' = FecReplay.Spec.finished s -> delivery d input s s' r.
Proof.
  intros Hr Hs. assert (Hf : isComplete r = false).
  { destruct r as [res|]; [|done]. apply bool_decide_eq_false. apply Hr. }
  split; [rewrite Hf; done|done|]. intros res ->. by destruct Hr as [? ->].
Qed.

(** The block with one more shard. *)
Definition stored (input : IncomingShard) (b : pendingBlock) : pendingBlock :=
  {| originalLength := originalLength b; shardSize := shardSize b;
     shards := <[Z.to_nat (Index input) := Some (Payload input)]> (shards b);
     present := present b + 1; held := held b + len (Payload input); expiry := expiry b |}.

Definition storing (d : Decoder) (input : IncomingShard) (b : pendingBlock) : Decoder :=
  with_pending d (<[Key input := stored input b]> (pending d)) (pendingExpiry d)
    (pendingShards d + 1) (pendingBytes d + len (Payload input))
    (changePending (statistics d) 0 1 (len (Payload input))).

Lemma stored_ok p tot lim input b :
  block_ok p tot lim (Key input) b -> len (Payload input) = shardSize b ->
  shards b !! Z.to_nat (Index input) = Some None ->
  block_ok p tot lim (Key input) (stored input b).
Proof.
  intros [B1 B2 B3 B4 B5 B6 B7] Hl Hn.
  split; cbn [stored shards present held expiry originalLength shardSize]; try done.
  - unfold len. by rewrite length_insert.
  - intros i s [(_ & [= <-] & _)|[_ Hs]]%list_lookup_insert_Some; eauto.
  - rewrite arrived_insert by done. lia.
  - rewrite Hl, B7. lia.
Qed.

Lemma storing_ok d s input b :
  decoder_ok d s -> pending d !! Key input = Some b -> len (Payload input) = shardSize b ->
  shards b !! Z.to_nat (Index input) = Some None -> decoder_ok (storing d input b) s.
Proof.
  intros (K & T & Ho & L & G & B) Hb Hl Hn. split; [exact K|].
  assert (Hs : size (<[Key input := stored input b]> (pending d)) = size (pending d))
    by (rewrite map_size_insert_Some; eauto).
  pose proof (stored_ok _ _ _ _ _ (to_blocks _ _ _ _ _ _ _ T _ _ Hb) Hl Hn) as Hst. split.
  - pose proof (table_update _ _ _ _ _ _ _ _ _ _ T Hb Hst eq_refl) as T'. cbn in T' |- *.
    by rewrite !Z.add_simpl_l in T'.
  - split; [exact Ho|]. split; [|split].
    + eapply link_mono; [exact L| |done]. cbn.
      intros k b' [[<- _]|[_ ?]]%lookup_insert_Some; eauto.
    + cbn. rewrite Hs. eapply changePending_gauges; [exact G|lia..].
    + cbn. by rewrite Hs.
Qed.

Lemma len_assemble room working : len (assemble room working) <= Z.of_nat room.
Proof.
  revert room. induction working as [|x l IH]; intros room; cbn [assemble]; [rewrite len_nil; lia|].
  destruct (Nat.eqb_spec room 0); [rewrite len_nil; lia|]. rewrite len_app.
  set (c := take room _). assert (length c <= room)%nat by (unfold c; rewrite length_take; lia).
  specialize (IH (room - length c)%nat). unfold len in *. lia.
Qed.

Lemma finishBlock_ok d s now input b r d' :
  decoder_ok d s -> pending d !! Key input = Some b -> 0 <= DatagramLength input ->
  finishBlock d now input b = (r, d') ->
  exists s', decoder_ok d' s' /\ delivery d input s s' r /\
    pending d' = delete (Key input) (pending d) /\ params d' = params d.
Proof.
  intros D Hb Hlen H. unfold finishBlock in H.
  pose proof (removePending_ok _ _ _ _ D Hb) as D1.
  assert (Hfail : forall e, (Err e, removePendingLocked d (Key input) b) = (r, d') ->
    exists s', decoder_ok d' s' /\ delivery d input s s' r /\
      pending d' = delete (Key input) (pending d) /\ params d' = params d).
  { intros e [= <- <-]. exists s. split; [done|]. split; [by apply delivery_none|done]. }
  destruct (codec_ReconstructData _ _) as [working|]; [|eauto].
  cbv zeta in H. destruct (negb _) eqn:E; [eauto|]. bools. apply Z.eqb_eq in E.
  destruct (remember_ok d s (Key input) b now D Hb) as (s' & D2 & Hs).
  set (d2 := rememberCompletedLocked _ _ _) in *.
  assert (Hkeep : pending d2 = delete (Key input) (pending d) /\ params d2 = params d).
  { unfold d2, rememberCompletedLocked, evictOldest. by repeat case_match. }
  clearbody d2. destruct (missing _ =? 0); injection H as <- <-; exists s';
    (split; [by repeat apply count_ok|]); (split; [|exact Hkeep]);
    (split; cbn; [auto|by rewrite bool_decide_eq_true_2|intros res [= <-]; done]).
Qed.

Lemma storeShard_ok d s now input b r d' :
  decoder_ok d s -> pending d !! Key input = Some b ->
  0 <= present b < DataShards (params d) ->
  (forall key b', key <> Key input -> pending d !! key = Some b' ->
     1 <= present b' < DataShards (params d)) ->
  0 <= Index input < total d -> len (Payload input) = shardSize b ->
  0 <= DatagramLength input ->
  storeShard d now input b = (r, d') ->
  exists s', decoder_ok d' s' /\ partial d' /\ delivery d input s s' r.
Proof.
  intros D Hb Hpres Hpart Hidx Hl Hlen H. unfold storeShard in H.
  pose proof (to_blocks _ _ _ _ _ _ _ (proj1 (proj2 D)) _ _ Hb) as Bk.
  destruct (lookup_lt_is_Some_2 (shards b) (Z.to_nat (Index input))) as [x Hx].
  { pose proof (bo_length _ _ _ _ _ Bk). unfold len in *. lia. }
  rewrite Hx in H. cbn [default from_option id] in H.
  assert (Hstay : forall x0, x = Some x0 -> partial d).
  { intros x0 -> key b' Hb'. destruct (decide (key = Key input)) as [->|Hne]; [|by eauto].
    rewrite Hb in Hb'. injection Hb' as <-. split; [|lia].
    rewrite (bo_present _ _ _ _ _ Bk). destruct (arrived (shards b)) eqn:E; [|lia].
    exfalso. clear -Hx E. revert E Hx. generalize (Z.to_nat (Index input)).
    induction (shards b) as [|y l IH]; intros [|i]; cbn; try done.
    - intros E [= ->]. done.
    - destruct y; [done|]. apply IH. }
  destruct x as [existing|].
  - specialize (Hstay _ eq_refl).
    destruct (bool_decide _); injection H as <- <-; exists s.
    + split; [by apply count_ok|]. split; [exact Hstay|]. by apply delivery_none.
    + split; [done|]. split; [exact Hstay|]. by apply delivery_none.
  - fold (stored input b) in H. fold (storing d input b) in H. cbv zeta in H.
    pose proof (storing_ok _ _ _ _ D Hb Hl Hx) as D1.
    assert (Hb1 : pending (storing d input b) !! Key input = Some (stored input b))
      by apply lookup_insert_eq.
    destruct (Z.ltb_spec (present (stored input b)) (DataShards (params (storing d input b))))
      as [Hlt|Hge].
    + injection H as <- <-. exists s. split; [done|]. split; [|by apply delivery_none].
      intros key b' Hb'. cbn in Hb'.
      apply lookup_insert_Some in Hb' as [[<- <-]|[Hne Hb']]; cbn in *; [lia|].
      apply (Hpart key); [by intros ->|done].
    + destruct (finishBlock_ok _ _ _ _ _ _ _ D1 Hb1 Hlen H) as (s' & D' & Dl & Hp & Hpp).
      exists s'. split; [done|]. split.
      * intros key b' Hb'. rewrite Hp in Hb'. apply lookup_delete_Some in Hb' as [Hne Hb'].
        cbn in Hb'. rewrite lookup_insert_ne in Hb' by done. rewrite Hpp. cbn. eauto.
      * destruct Dl. by split.
Qed.

Lemma newBlock_ok d s now input size b d' :
  decoder_ok d s -> valid_shard d input size -> in_u 64 (key_PacketID (Key input)) ->
  pending d !! Key input = None -> completed d !! Key input = None ->
  inReplay d (fun w => FecReplay.tooOld w (key_PacketID (Key input))) = false ->
  inReplay d (fun w => FecReplay.contains w (key_PacketID (Key input))) = false ->
  Z.of_nat (base.size (pending d)) < maxPendingBlocks d ->
  newBlock d now input size = (b, d') ->
  exists s', decoder_ok d' s' /\ FecReplay.Spec.finished s' = FecReplay.Spec.finished s /\
    pending d' = <[Key input := b]> (pending d) /\ present b = 0 /\ shardSize b = size /\
    params d' = params d /\ total d' = total d /\ (replay d' <> None <-> replay d <> None).
Proof.
  intros (K & T & Ho & L & G & B) V Hid Hn Hc Hold Hcon Hroom H.
  unfold newBlock in H. injection H as <- <-.
  set (e := {| e_key := Key input; deadline := _; serial := _ |}).
  set (b := {| originalLength := _; shardSize := _; shards := _; present := _; held := _; expiry := e |}).
  assert (Bk : block_ok (params d) (total d) (limits d) (Key input) b).
  { destruct V. pose proof (pk_data _ (co_params _ _ _ _ _ _ _ K)).
    split; unfold b, e; cbn [shards present held expiry originalLength shardSize e_key]; try done; try lia.
    - rewrite len_replicate. lia.
    - intros i x [E _]%lookup_replicate. done.
    - by rewrite arrived_replicate. }
  destruct (link_new _ _ _ _ (Key input) b L Hc Hid) as (s' & Hfin & L').
  { intros w Hw. unfold inReplay in *. rewrite Hw in *. destruct V. eauto. }
  exists s'. split; [|split; [done|split; [done|split; [done|split; [done|split; [done|split; [done|]]]]]]].
  - split; [destruct K; split; try assumption; cbn; destruct (replay d); done||discriminate||auto|].
    split; [|split; [|split; [exact L'|split]]].
    + pose proof (table_new _ _ _ _ _ _ _ _ _ T Hn Bk) as T'. cbn in T' |- *.
      by rewrite !Z.add_0_r in T'.
    + cbn. destruct Ho. split; try assumption; destruct (replay d); try done; auto.
    + cbn. rewrite map_size_insert_None by done. eapply changePending_gauges; [exact G|lia..].
    + cbn. rewrite map_size_insert_None by done. lia.
  - cbn. by destruct (replay d).
Qed.

(** ** What never changes *)

(** The configuration of a decoder, whether it is closed, and the session its
    replay window is bound to. *)
Definition static (d : Decoder) :=
  (params d, limits d, codec d, total d, (decodeTimeout d, completionTTL d, maxPendingBlocks d,
   maxCompletedBlocks d), closed d, FecReplay.sessionID <$> replay d).

Lemma sweepPending_static h now : forall d n, static (snd (sweepPending h now d n)) = static d.
Proof.
  induction h as [|e h IH]; intros d n; cbn [sweepPending]; [done|].
  destruct (now <? deadline e); [done|]. destruct (pending d !! e_key e) as [b|]; [|apply IH].
  destruct (bool_decide _); [|apply IH]. by rewrite IH.
Qed.

Lemma sweepCompleted_static h now : forall d n, static (snd (sweepCompleted h now d n)) = static d.
Proof.
  induction h as [|e h IH]; intros d n; cbn [sweepCompleted]; [done|].
  destruct (now <? deadline e); [done|]. destruct (bool_decide _); [|apply IH]. by rewrite IH.
Qed.

Lemma sweepLocked_static d now : static (snd (sweepLocked d now)) = static d.
Proof.
  unfold sweepLocked. pose proof (sweepPending_static (pendingExpiry d) now d 0) as H.
  destruct (sweepPending _ _ _ _) as [n d1]. cbn in H.
  pose proof (sweepCompleted_static (completedExpiry d1) now d1 0) as H'.
  destruct (sweepCompleted _ _ _ _) as [m d2]. cbn in *. congruence.
Qed.

Lemma remember_static d key now : static (rememberCompletedLocked d key now) = static d.
Proof.
  unfold rememberCompletedLocked, evictOldest. destruct (replay d) as [w|] eqn:E.
  - unfold static. cbn. rewrite E. cbn. by rewrite (proj1 (FecReplay.session_kept w _)).
  - repeat case_match; unfold static; cbn; by rewrite ?E.
Qed.

Lemma finishBlock_static d now input b : static (snd (finishBlock d now input b)) = static d.
Proof.
  unfold finishBlock. destruct (codec_ReconstructData _ _); [|done]. cbv zeta.
  destruct (negb _); [done|]. destruct (missing _ =? 0); cbn [snd];
    (etrans; [apply (remember_static (removePendingLocked d (Key input) b) (Key input) now)|done]).
Qed.

Lemma storeShard_static d now input b : static (snd (storeShard d now input b)) = static d.
Proof.
  unfold storeShard. destruct (default None _) as [x|]; [by destruct (bool_decide _)|].
  cbv zeta. destruct (_ <? _); [done|]. by rewrite finishBlock_static.
Qed.

Lemma AddVerifiedShard_static d now input :
  static (snd (AddVerifiedShard d now input)) = static d.
Proof.
  unfold AddVerifiedShard. destruct (closed d); [done|].
  destruct (validateShard d input) as [size|e]; [|done].
  rewrite <- (sweepLocked_static d now). destruct (sweepLocked d now) as [x d1]. cbn [snd].
  destruct (pending d1 !! Key input) as [b|].
  - destruct (_ || _); [done|]. apply storeShard_static.
  - destruct (inReplay d1 _); [done|]. destruct (_ || _); [done|].
    destruct (maxPendingBlocks d1 <=? _); [done|]. destruct (newBlock _ _ _ _) as [b d2] eqn:E.
    rewrite storeShard_static. unfold newBlock in E. injection E as <- <-.
    unfold static. cbn. destruct (replay d1) as [w|]; [|done]. cbn.
    by rewrite (proj2 (FecReplay.session_kept w _)).
Qed.

Lemma static_replay d d' : static d = static d' -> replay d <> None <-> replay d' <> None.
Proof.
  unfold static. intros [= _ _ _ _ _ _ _ _ _ H].
  destruct (replay d), (replay d'); cbn in *; naive_solver.
Qed.

Lemma valid_shard_static d d' input size :
  static d = static d' -> valid_shard d input size -> valid_shard d' input size.
Proof.
  unfold static. intros [= Hp Hl _ Ht _ _ _ _ _ Hr] [V1 V2 V3 V4 V5 V6 V7].
  rewrite Hp, Hl, Ht in *. split; try done.
  intros w Hw. rewrite Hw in Hr. destruct (replay d) as [w0|]; [|done]. cbn in Hr.
  injection Hr as <-. auto.
Qed.

Lemma sweep_partial d s now x d' :
  sweep_post now d d' x -> decoder_ok d s -> partial d -> partial d'.
Proof.
  intros [Hp _ _ F] _ Hpart key b Hb. rewrite Hp in Hb. unfold alive in Hb.
  destruct (pending d !! key) as [b'|] eqn:E; [|done]. destruct (_ <=? now); [done|].
  injection Hb as <-. destruct F as (-> & _). eauto.
Qed.

(** Every call on an open decoder keeps the invariant; its result says what it did
    to the history of completed blocks. *)
Lemma AddVerifiedShard_ok d s now input r d' :
  decoder_ok d s -> partial d -> closed d = false -> in_u 64 (key_PacketID (Key input)) ->
  AddVerifiedShard d now input = (r, d') ->
  exists s', decoder_ok d' s' /\ partial d' /\ delivery d input s s' r.
Proof.
  intros D Hpart Hc Hid H. unfold AddVerifiedShard in H. rewrite Hc in H.
  destruct (validateShard d input) as [size|e] eqn:V.
  2: { injection H as <- <-. exists s. split; [done|]. split; [done|]. by apply delivery_none. }
  apply validateShard_iff in V. destruct (sweepLocked d now) as [x d1] eqn:S. cbn [snd] in H.
  pose proof (sweepLocked_static d now) as St. rewrite S in St. cbn [snd] in St.
  destruct (sweepLocked_spec _ _ _ _ _ D S) as [D1 P].
  pose proof (sweep_partial _ _ _ _ _ P D Hpart) as Hpart1.
  apply (valid_shard_static _ d1 _ _ (eq_sym St)) in V. pose proof (static_replay _ _ St) as Hrr.
  assert (Hmove : forall s' r, delivery d1 input s s' r -> delivery d input s s' r)
    by (intros s' r' [A1 A2 A3]; split; naive_solver).
  assert (Hstop : forall r0 c, (r0, count c 1 d1) = (r, d') -> (match r0 with
      Ok res => outcome res <> OutcomeComplete /\ Datagram res = None | Err _ => True end) ->
    exists s', decoder_ok d' s' /\ partial d' /\ delivery d input s s' r).
  { intros r0 c [= <- <-] Hr0. exists s. split; [by apply count_ok|]. split; [exact Hpart1|].
    by apply delivery_none. }
  destruct (pending d1 !! Key input) as [b|] eqn:E.
  - destruct (_ || _) eqn:Ec; bools.
    { injection H as <- <-. exists s. split; [done|]. split; [done|]. by apply delivery_none. }
    apply Z.eqb_eq in H0, H1. pose proof (vs_payload _ _ _ V).
    eapply storeShard_ok in H as (s' & ? & ? & ?); eauto.
    + pose proof (Hpart1 _ _ E). lia.
    + apply V.
    + lia.
    + apply V.
  - destruct (inReplay d1 (fun w => FecReplay.tooOld _ _)) eqn:Eold; [by eapply Hstop|].
    destruct (_ || _) eqn:Edup; [by eapply Hstop|].
    destruct (Z.leb_spec (maxPendingBlocks d1) (Z.of_nat (base.size (pending d1))));
      [by eapply Hstop|].
    bools. destruct (newBlock d1 now input size) as [b d2] eqn:N.
    assert (Hc1 : completed d1 !! Key input = None) by (by apply eq_None_not_Some).
    destruct (newBlock_ok _ _ _ _ _ _ _ D1 V Hid E Hc1 Eold ltac:(done) ltac:(done) N) as
      (s1 & D2 & Hf & Hp2 & Hb0 & Hbs & Hpp & Htt & Hrep).
    eapply storeShard_ok in H as (s' & D' & Hpart' & [A1 A2 A3]); try done.
    + exists s'. split; [done|]. split; [done|]. rewrite Hf in A1, A2.
      split; [|done|done]. intros Hr Hrd. apply A1; [done|]. by apply Hrep, Hrr.
    + by rewrite Hp2, lookup_insert_eq.
    + pose proof (pk_data _ (co_params _ _ _ _ _ _ _ (proj1 D2))). lia.
    + intros key b' Hne Hb'. rewrite Hp2, lookup_insert_ne in Hb' by done. rewrite Hpp. eauto.
    + rewrite Htt. apply V.
    + rewrite Hbs. apply V.
    + apply V.
Qed.
