(* ===== verification/FecDelivery.v ===== *)
(** * What a decoder promises over its lifetime

    Sequences of calls on an [FecDecoder.Decoder]: bounded retained state, exact
    statistics, at-most-once delivery per PacketID with a replay window, and
    delivery of the original datagram once any k shards of its block are there,
    whatever calls for other blocks are interleaved. *)

From S2P Require Import Prelude Bitmap Fec FecDecoder FecDecoderProps.
From S2P Require FecReplay.

(** ** Sequences of calls *)

Inductive Op :=
| OpAdd (now : Z) (input : IncomingShard)
| OpSweep (now : Z)
| OpStats
| OpClose.

Inductive Out :=
| OutAdd (r : result FecError Result)
| OutSweep (x : ExpireStats)
| OutStats (x : Stats)
| OutClose.

Definition step (d : Decoder) (op : Op) : Out * Decoder :=
  match op with
  | OpAdd now input => let '(r, d') := AddVerifiedShard d now input in (OutAdd r, d')
  | OpSweep now => let '(x, d') := Sweep d now in (OutSweep x, d')
  | OpStats => (OutStats (stats d), d)
  | OpClose => (OutClose, Close d)
  end.

Fixpoint run (d : Decoder) (ops : list Op) : list (Op * Out) * Decoder :=
  match ops with
  | [] => ([], d)
  | op :: ops' =>
      let '(o, d1) := step d op in
      let '(tr, d2) := run d1 ops' in ((op, o) :: tr, d2)
  end.

(** PacketIDs are [uint64] values. *)
Definition op_typed (op : Op) : Prop :=
  match op with OpAdd _ input => in_u 64 (key_PacketID (Key input)) | _ => True end.

(** The PacketID a step of a trace delivered a datagram for. *)
Definition deliveredID (e : Op * Out) : option Z :=
  match e with
  | (OpAdd _ input, OutAdd r) =>
      if isComplete r then Some (key_PacketID (Key input)) else None
  | _ => None
  end.

(** ** The invariant along a run *)

Record emptied (d : Decoder) : Prop := {
  em_pending : pending d = ∅;
  em_queue : pendingExpiry d = [];
  em_shards : pendingShards d = 0;
  em_bytes : pendingBytes d = 0;
  em_completed : completed d = ∅;
  em_replay : replay d = None;
  em_gauges : gauges_ok (statistics d) 0 0 0 }.

Definition live (d : Decoder) (s : FecReplay.Spec.t) : Prop :=
  if closed d then emptied d else decoder_ok d s /\ partial d.

Lemma NewDecoder_live `{ReedSolomon} config d :
  budget_typed (cfg_Budget config) -> NewDecoder config = Ok d ->
  live d FecReplay.Spec.new /\ closed d = false /\
  params d = cfg_Params config /\ limits d = limits_of (cfg_Params config) (cfg_Budget config) /\
  maxPendingBlocks d = cfg_MaxPendingBlocks config /\
  maxCompletedBlocks d = cfg_MaxCompletedBlocks config /\
  (replay d <> None <-> cfg_ReplayWindow config <> None) /\
  reedsolomon_New (DataShards (cfg_Params config)) (ParityShards (cfg_Params config)) = Some (codec d).
Proof.
  intros T N. unfold NewDecoder in N. go_inv N. destruct x0 as [cdc tot].
  apply (DeriveLimits_iff _ _ _ T) in E as (P & B & ->).
  unfold newCodec in E4. go_inv E4. apply validateParams_iff in E as [_ E].
  subst d. cbn. injection E5 as -> ->. subst.
  pose proof (limits_of_facts _ _ P B) as [F1 F2].
  split; [|split; [done|split; [done|split; [done|split; [done|split; [done|split]]]]]];
    [|by destruct (cfg_ReplayWindow config)|congruence].
  unfold live. cbn. split; [|intros key b Hb; cbn in Hb; by rewrite lookup_empty in Hb].
  split; [|split; [|split; [|split; [|split]]]]; cbn.
  - split; try done; try lia; [apply F2|]. intros Hr.
    destruct (cfg_ReplayWindow config); [done|]. cbn in E3. lia.
  - apply table_empty.
  - split; try done; try constructor.
    + by intros ?%elem_of_nil.
    + by intros ?%lookup_empty_Some.
    + intros Hr. destruct (cfg_ReplayWindow config); [done|]. cbn in E3. change (0 <= cfg_MaxCompletedBlocks config). lia.
  - split.
    + intros key _. apply lookup_empty.
    + intros w Hw. destruct (cfg_ReplayWindow config); [|done]. injection Hw as <-.
      split; [apply FecReplay.new_rel|]. by intros key b Hb%lookup_empty_Some.
  - intros cs Hcs. destruct (cfg_Statistics config); [|done]. by injection Hcs as <-.
  - change (0 <= cfg_MaxPendingBlocks config). lia.
Qed.

Lemma Close_live d s : live d s -> live (Close d) s /\ closed (Close d) = true.
Proof.
  unfold live, Close. destruct (closed d) eqn:Hc; [by rewrite Hc|].
  intros [(_ & _ & _ & _ & G & _) _]. cbn. split; [|done]. split; try done.
  cbn. eapply changePending_gauges; [exact G|lia..].
Qed.

(** One step: the invariant, and the effect on the set of completed PacketIDs. *)
Lemma step_live d s op o d' :
  live d s -> op_typed op -> step d op = (o, d') ->
  exists s', live d' s' /\ (closed d' = false -> closed d = false) /\
    (closed d' = false -> (replay d' <> None <-> replay d <> None)) /\
    match deliveredID (op, o) with
    | Some id => closed d = false /\ (replay d <> None ->
        (id ∉ FecReplay.Spec.finished s) /\
        FecReplay.Spec.finished s' = {[id]} ∪ FecReplay.Spec.finished s)
    | None => FecReplay.Spec.finished s' = FecReplay.Spec.finished s
    end.
Proof.
  intros L T H. destruct op as [now input|now| |]; cbn [step] in H.
  - destruct (AddVerifiedShard d now input) as [r d1] eqn:E. injection H as <- <-.
    cbn [deliveredID]. pose proof (AddVerifiedShard_static d now input) as St.
    rewrite E in St. cbn [snd] in St. pose proof (static_replay _ _ St) as Hr.
    unfold live in *. destruct (closed d) eqn:Hc.
    + unfold AddVerifiedShard in E. rewrite Hc in E. injection E as <- <-.
      exists s. by rewrite Hc.
    + destruct L as [D P]. destruct (AddVerifiedShard_ok _ _ _ _ _ _ D P Hc T E)
        as (s' & D' & P' & [A1 A2 A3]). assert (Hc' : closed d1 = false)
        by (unfold static in St; congruence). exists s'. rewrite Hc'.
      split; [done|]. split; [done|]. split; [done|].
      destruct (isComplete r); [split; [done|]|]; auto.
  - destruct (Sweep d now) as [x d1] eqn:E. injection H as <- <-. unfold Sweep in E.
    unfold live in *. exists s. cbn [deliveredID]. destruct (closed d) eqn:Hc.
    + injection E as <- <-. by rewrite Hc.
    + destruct L as [D P]. destruct (sweepLocked_spec _ _ _ _ _ D E) as [D' Post].
      pose proof (sweep_partial _ _ _ _ _ Post D P).
      destruct (sp_frame _ _ _ _ Post) as (_ & _ & _ & _ & _ & Hr & Hcl & _).
      rewrite Hcl, Hc, Hr. done.
  - injection H as <- <-. exists s. done.
  - injection H as <- <-. exists s. destruct (Close_live _ _ L) as [L' Hc].
    rewrite Hc. split; [done|]. done.
Qed.

Lemma run_live ops : forall d s, live d s -> Forall op_typed ops ->
  exists s', live (snd (run d ops)) s'.
Proof.
  induction ops as [|op ops IH]; intros d s L T; [by exists s|].
  apply Forall_cons in T as [T1 T2]. cbn [run]. destruct (step d op) as [o d1] eqn:E.
  destruct (step_live _ _ _ _ _ L T1 E) as (s1 & L1 & _).
  destruct (IH d1 s1 L1 T2) as [s' L']. destruct (run d1 ops). by exists s'.
Qed.

(** ** Delivery at most once *)

Lemma run_closed ops : forall d, closed d = true -> omap deliveredID (fst (run d ops)) = [].
Proof.
  induction ops as [|op ops IH]; intros d Hc; [done|]. cbn [run].
  assert (H : closed (snd (step d op)) = true /\ deliveredID (op, fst (step d op)) = None).
  { destruct op; cbn [step].
    - unfold AddVerifiedShard. by rewrite Hc.
    - unfold Sweep. by rewrite Hc.
    - done.
    - unfold Close. by rewrite Hc. }
  destruct (step d op) as [o d1]. cbn [fst snd] in H. destruct H as [H1 H2].
  specialize (IH d1 H1). destruct (run d1 ops) as [tr d2]. cbn [fst] in *.
  cbn [omap list_omap]. by rewrite H2.
Qed.

Lemma run_delivered ops : forall d s,
  live d s -> closed d = false -> replay d <> None -> Forall op_typed ops ->
  let ids := omap deliveredID (fst (run d ops)) in
  NoDup ids /\ Forall (fun id => id ∉ FecReplay.Spec.finished s) ids.
Proof.
  induction ops as [|op ops IH]; intros d s L Hc Hr T; cbv zeta; [by repeat constructor|].
  apply Forall_cons in T as [T1 T2]. cbn [run]. destruct (step d op) as [o d1] eqn:E.
  destruct (step_live _ _ _ _ _ L T1 E) as (s1 & L1 & _ & Hrep & Hd).
  destruct (run d1 ops) as [tr d2] eqn:R. cbn [fst omap list_omap].
  assert (Htail : NoDup (omap deliveredID tr) /\
    Forall (fun id => id ∉ FecReplay.Spec.finished s1) (omap deliveredID tr)).
  { destruct (closed d1) eqn:Hc1.
    - pose proof (run_closed ops d1 Hc1) as Hn. rewrite R in Hn. cbn in Hn. rewrite Hn.
      by repeat constructor.
    - specialize (IH d1 s1 L1 Hc1 ltac:(by apply Hrep) T2). by rewrite R in IH. }
  destruct Htail as [N F]. destruct (deliveredID (op, o)) as [id|].
  - destruct Hd as [_ Hd]. destruct (Hd Hr) as [Hid Hs1]. rewrite Hs1 in F. split.
    + constructor; [|done]. intros Hin. eapply Forall_forall in F; [|done]. set_solver.
    + constructor; [done|]. eapply Forall_impl; [exact F|]. cbn. set_solver.
  - by rewrite Hd in F.
Qed.

(** C22: A decoder with a replay window delivers at most one datagram per PacketID over
    its whole life: whatever shards arrive (duplicated, replayed, reordered by more
    than the window, conflicting, expired and admitted again) and however they are
    interleaved with sweeps, statistics and Close. *)
Theorem delivered_at_most_once `{ReedSolomon} config d ops :
  budget_typed (cfg_Budget config) -> NewDecoder config = Ok d ->
  cfg_ReplayWindow config <> None -> Forall op_typed ops ->
  NoDup (omap deliveredID (fst (run d ops))).
Proof.
  intros T N Hr Hops.
  destruct (NewDecoder_live _ _ T N) as (L & Hc & _ & _ & _ & _ & Hrep & _).
  by apply (run_delivered ops d FecReplay.Spec.new L Hc); [apply Hrep|].
Qed.

(** ** Bounded retained state and exact statistics *)

Definition config_of (d : Decoder) :=
  (params d, limits d, codec d, total d, decodeTimeout d, completionTTL d, maxPendingBlocks d,
   maxCompletedBlocks d).

Lemma static_config d d' : static d = static d' -> config_of d = config_of d'.
Proof. unfold static, config_of. congruence. Qed.

Lemma step_config d op : config_of (snd (step d op)) = config_of d.
Proof.
  destruct op as [now input|now| |]; cbn [step].
  - pose proof (AddVerifiedShard_static d now input) as H.
    destruct (AddVerifiedShard _ _ _). by apply static_config.
  - unfold Sweep. destruct (closed d); [done|]. pose proof (sweepLocked_static d now) as H.
    destruct (sweepLocked _ _). by apply static_config.
  - done.
  - cbn. unfold Close. by destruct (closed d).
Qed.

Lemma run_config ops : forall d, config_of (snd (run d ops)) = config_of d.
Proof.
  induction ops as [|op ops IH]; intros d; [done|]. cbn [run].
  pose proof (step_config d op) as H. destruct (step d op) as [o d1]. specialize (IH d1).
  destruct (run d1 ops). cbn in *. congruence.
Qed.

Lemma run_replay ops : forall d s, live d s -> Forall op_typed ops ->
  closed (snd (run d ops)) = false -> (replay (snd (run d ops)) <> None <-> replay d <> None).
Proof.
  induction ops as [|op ops IH]; intros d s L T Hc; [done|].
  apply Forall_cons in T as [T1 T2]. cbn [run] in *. destruct (step d op) as [o d1] eqn:E.
  destruct (step_live _ _ _ _ _ L T1 E) as (s1 & L1 & _ & Hrep & _). specialize (IH d1 s1 L1 T2).
  assert (Hmono : closed d1 = true -> closed (snd (run d1 ops)) = true).
  { clear. revert d1. induction ops as [|op ops IH]; intros d Hc; [done|]. cbn [run].
    assert (H : closed (snd (step d op)) = true).
    { destruct op; cbn [step].
      - unfold AddVerifiedShard. by rewrite Hc.
      - unfold Sweep. by rewrite Hc.
      - done.
      - unfold Close. by rewrite Hc. }
    destruct (step d op) as [o d1]. specialize (IH d1 H). by destruct (run d1 ops). }
  destruct (run d1 ops) as [tr d2]. cbn [snd] in *.
  destruct (closed d1); [by rewrite Hmono in Hc|]. rewrite IH by done. by apply Hrep.
Qed.

Lemma msum_scaled {A} (f : A -> Z) c (m : gmap BlockKey A) :
  (forall k a, m !! k = Some a -> f a <= c) -> msum f m <= c * Z.of_nat (size m).
Proof.
  induction m as [|k a m Hk IH] using map_ind; intros Hf.
  - rewrite msum_empty, map_size_empty. lia.
  - rewrite msum_insert, map_size_insert_None by done.
    pose proof (Hf k a (lookup_insert_eq _ _ _)).
    assert (msum f m <= c * Z.of_nat (size m)); [|lia]. apply IH.
    intros k' a' Hk'. apply (Hf k'). rewrite lookup_insert_ne; [done|]. intros ->. congruence.
Qed.

(** The expiry queue holds one entry per pending block. *)
Lemma queue_length p tot lim m h ns nb :
  table_ok p tot lim m h ns nb -> length h = size m.
Proof.
  intros T. pose proof (to_nodup _ _ _ _ _ _ _ T) as N.
  assert (Hdom : dom m = list_to_set (e_key <$> h) :> gset BlockKey).
  { apply set_eq. intros key. rewrite elem_of_dom, elem_of_list_to_set, list_elem_of_fmap.
    split.
    - intros [b Hb]. pose proof (bo_key _ _ _ _ _ (to_blocks _ _ _ _ _ _ _ T _ _ Hb)) as Hk.
      exists (expiry b). split; [done|]. apply (to_queue _ _ _ _ _ _ _ T). exists b. by rewrite Hk.
    - intros (e & -> & (b & Hb & _)%(to_queue _ _ _ _ _ _ _ T)). eauto. }
  rewrite <- size_dom, Hdom, size_list_to_set, length_fmap; [done|].
  apply NoDup_fmap_2_strong; [|done]. intros e1 e2
    (b1 & H1 & <-)%(to_queue _ _ _ _ _ _ _ T) (b2 & H2 & <-)%(to_queue _ _ _ _ _ _ _ T) E.
  congruence.
Qed.

Record bounded (d : Decoder) (maxPending maxCompleted : Z) : Prop := {
  bd_blocks : Z.of_nat (size (pending d)) <= maxPending;
  bd_each : forall key b, pending d !! key = Some b ->
    1 <= Z.of_nat (arrived (shards b)) <= DataShards (params d) - 1 /\
    forall i x, shards b !! i = Some (Some x) -> len x <= ShardCapacity (limits d);
  bd_queue : Z.of_nat (length (pendingExpiry d)) = Z.of_nat (size (pending d));
  bd_shards : pendingShards d = msum (fun b => Z.of_nat (arrived (shards b))) (pending d);
  bd_shards_le : 0 <= pendingShards d <= maxPending * (DataShards (params d) - 1);
  bd_bytes : pendingBytes d
    = msum (fun b => Z.of_nat (arrived (shards b)) * shardSize b) (pending d);
  bd_bytes_le : 0 <= pendingBytes d
    <= maxPending * ((DataShards (params d) - 1) * ShardCapacity (limits d));
  bd_completed : 0 <= CompletedBlocks (stats d) <= maxCompleted;
  bd_gauges : gauges_ok (statistics d) (Z.of_nat (size (pending d))) (pendingShards d)
    (pendingBytes d) }.

Lemma block_capacity d s key b :
  decoder_ok d s -> pending d !! key = Some b -> 1 <= shardSize b <= ShardCapacity (limits d).
Proof.
  intros (K & T & _) Hb. pose proof (to_blocks _ _ _ _ _ _ _ T _ _ Hb) as Bk.
  destruct K as [[P1 _ _] _ C1 C2 _ _]. destruct Bk as [_ _ O S _ _ _].
  unfold maxWireOriginalLength in *.
  destruct (shardSize_spec (originalLength b) (DataShards (params d)) ltac:(lia) P1)
    as (S1 & S2 & S3). rewrite S. split; [lia|]. apply S3; lia.
Qed.

Lemma decoder_bounded d s :
  decoder_ok d s -> partial d ->
  bounded d (maxPendingBlocks d)
    (if replay d is Some _ then FecReplay.ReplayWindowIDs else maxCompletedBlocks d).
Proof.
  intros D P. pose proof D as (K & T & Ho & L & G & B). pose proof T as [T1 T2 T3 T4 T5 T6].
  pose proof (fun k b Hb => block_capacity d s k b D Hb) as Hcap.
  pose proof (pk_data _ (co_params _ _ _ _ _ _ _ K)). pose proof (co_capacity _ _ _ _ _ _ _ K).
  assert (Hsh : 0 <= pendingShards d <= (DataShards (params d) - 1) * Z.of_nat (size (pending d))).
  { rewrite T5. split.
    - apply msum_nonneg. intros k b Hb. pose proof (P _ _ Hb). lia.
    - apply msum_scaled. intros k b Hb. pose proof (P _ _ Hb). lia. }
  assert (Hscale : forall c, 0 <= c ->
    c * Z.of_nat (size (pending d)) <= maxPendingBlocks d * c)
    by (intros c Hc; rewrite (Z.mul_comm _ c); by apply Z.mul_le_mono_nonneg_l).
  assert (Hby : 0 <= pendingBytes d
    <= ((DataShards (params d) - 1) * ShardCapacity (limits d)) * Z.of_nat (size (pending d))).
  { rewrite T6. split.
    - apply msum_nonneg. intros k b Hb. pose proof (P _ _ Hb). pose proof (Hcap _ _ Hb).
      rewrite (bo_held _ _ _ _ _ (T1 _ _ Hb)). nia.
    - apply msum_scaled. intros k b Hb. pose proof (P _ _ Hb). pose proof (Hcap _ _ Hb).
      rewrite (bo_held _ _ _ _ _ (T1 _ _ Hb)). nia. }
  split; try done.
  - intros k b Hb. pose proof (P _ _ Hb). pose proof (Hcap _ _ Hb).
    rewrite <- (bo_present _ _ _ _ _ (T1 _ _ Hb)). split; [lia|].
    intros i x Hx. rewrite (bo_shards _ _ _ _ _ (T1 _ _ Hb) i x Hx). lia.
  - by rewrite (queue_length _ _ _ _ _ _ _ T).
  - rewrite T5. apply msum_ext. intros k b Hb. apply (T1 _ _ Hb).
  - pose proof (Hscale (DataShards (params d) - 1)). lia.
  - rewrite T6. apply msum_ext. intros k b Hb. pose proof (T1 _ _ Hb) as [_ _ _ _ _ Hp Hh].
    by rewrite Hh, Hp.
  - pose proof (Hscale ((DataShards (params d) - 1) * ShardCapacity (limits d))). nia.
  - unfold stats. cbn [CompletedBlocks]. destruct (replay d) as [w|] eqn:Hr.
    + destruct (lo_replay _ _ _ _ L w eq_refl) as [R _].
      rewrite (FecReplay.count_spec _ _ R). unfold FecReplay.Spec.retained.
      destruct (FecReplay.Spec.top s) as [h|]; [|done].
      pose proof (countZ_bounds (FecReplay.Spec.isFinished s) (FecReplay.Spec.floor h)
        (Z.to_nat (h - FecReplay.Spec.floor h + 1))).
      unfold FecReplay.Spec.floor, FecReplay.ReplayWindowIDs in *. lia.
    + pose proof (ho_bound _ _ _ _ Ho eq_refl). lia.
Qed.

(** C24: Retained state is bounded and its statistics are exact after any sequence of
    calls: at most [MaxPendingBlocks] blocks, each with at least one and at most k-1
    shards of at most [ShardCapacity] bytes, so at most
    [MaxPendingBlocks * (k-1) * ShardCapacity] bytes; one queue entry per block, the
    three totals equal to sums over the retained shards, the gauges equal to the
    totals, and a bounded completion history. *)
Theorem retained_bounded `{ReedSolomon} config d ops :
  budget_typed (cfg_Budget config) -> NewDecoder config = Ok d -> Forall op_typed ops ->
  bounded (snd (run d ops)) (cfg_MaxPendingBlocks config)
    (if cfg_ReplayWindow config is Some _ then FecReplay.ReplayWindowIDs
     else cfg_MaxCompletedBlocks config).
Proof.
  intros T N Hops.
  destruct (NewDecoder_live _ _ T N) as (L & Hc & Hp & Hl & Hm & Hmc & Hrep & _).
  destruct (run_live ops _ _ L Hops) as [s' L'].
  pose proof (run_config ops d) as Hcfg. pose proof (run_replay ops _ _ L Hops) as Hrr.
  set (d' := snd (run d ops)) in *. unfold config_of in Hcfg.
  injection Hcfg as C1 C2 _ _ _ _ C7 C8.
  assert (K : params_ok (params d) /\ 1 <= ShardCapacity (limits d) /\ 1 <= maxPendingBlocks d /\
    (replay d = None -> 1 <= maxCompletedBlocks d)).
  { unfold live in L. rewrite Hc in L. destruct L as [[[KP _ KC _ KM KQ _] _] _]. eauto. }
  destruct K as ([KP _ _] & KC & KM & KQ). unfold live in L'. destruct (closed d') eqn:Hc'.
  - destruct L' as [E1 E2 E3 E4 E5 E6 E7]. split; rewrite ?E1, ?E2, ?E3, ?E4; try done.
    + change (0 <= cfg_MaxPendingBlocks config). lia.
    + rewrite C1. nia.
    + rewrite C1, C2. nia.
    + unfold stats. rewrite E6, E5. cbn. destruct (cfg_ReplayWindow config) eqn:Ecfg; [done|].
      assert (replay d = None) by (destruct (replay d); [naive_solver|done]).
      rewrite Hmc in KQ. pose proof (KQ ltac:(done)). change (0 <= 0 <= cfg_MaxCompletedBlocks config). lia.
  - destruct L' as [D P]. pose proof (decoder_bounded _ _ D P) as Hb.
    rewrite C7, C8, Hm, Hmc in Hb. specialize (Hrr eq_refl).
    destruct (replay d'), (cfg_ReplayWindow config); try done; exfalso; naive_solver.
Qed.

(** ** Expiry and refusals *)

(** In any reachable open state a sweep removes exactly the pending blocks and the
    completed keys whose deadline is at or before the clock reading, keeps every other
    entry unchanged, and returns exactly how many it removed. *)
Theorem Sweep_exact `{ReedSolomon} config d0 ops now x d' :
  budget_typed (cfg_Budget config) -> NewDecoder config = Ok d0 -> Forall op_typed ops ->
  let d := snd (run d0 ops) in
  closed d = false -> Sweep d now = (x, d') -> sweep_post now d d' x.
Proof.
  intros T N Hops d Hc Hs. destruct (NewDecoder_live _ _ T N) as (L & _).
  destruct (run_live ops _ _ L Hops) as [s Ls]. fold d in Ls. unfold live in Ls. rewrite Hc in Ls.
  unfold Sweep in Hs. rewrite Hc in Hs. by destruct (sweepLocked_spec _ _ _ _ _ (proj1 Ls) Hs).
Qed.

(** Everything a decoder retains, diagnostics aside. *)
Definition retained (d : Decoder) :=
  (pending d, pendingExpiry d, (completed d, completedExpiry d), (pendingShards d, pendingBytes d),
   replay d, closed d).

Lemma finishBlock_err d now input b e d' :
  finishBlock d now input b = (Err e, d') -> e = ErrDecode.
Proof.
  unfold finishBlock. destruct (codec_ReconstructData _ _); [|congruence]. cbv zeta.
  destruct (negb _); [congruence|]. by destruct (missing _ =? 0).
Qed.

Lemma storeShard_err d now input b e d' :
  storeShard d now input b = (Err e, d') -> e <> ErrDecode ->
  d' = d /\ exists x, shards b !! Z.to_nat (Index input) = Some (Some x) /\ x <> Payload input.
Proof.
  unfold storeShard. intros H He.
  destruct (default None (shards b !! Z.to_nat (Index input))) as [x|] eqn:E.
  - destruct (bool_decide _) eqn:Ex; [done|]. injection H as <- <-. split; [done|].
    bools. destruct (shards b !! _) as [[y|]|]; try done. injection E as ->. eauto.
  - cbv zeta in H. destruct (_ <? _); [done|]. by apply finishBlock_err in H.
Qed.

(** A refused shard leaves no state behind.  A closed decoder or an invalid shard
    changes nothing at all; any other refusal except a reconstruction failure (full
    table, inconsistent metadata, conflicting payload) only lets the expiry of that
    clock reading happen. *)
Theorem refused_leaves_no_state d now input e d' :
  AddVerifiedShard d now input = (Err e, d') -> e <> ErrDecode ->
  if bool_decide (e = ErrClosed \/ e = ErrInvalidShard) then d' = d
  else retained d' = retained (snd (sweepLocked d now)).
Proof.
  unfold AddVerifiedShard. intros H He. destruct (closed d).
  { injection H as <- <-. done. }
  destruct (validateShard d input) as [size|e0] eqn:V.
  2: { injection H as <- <-. rewrite bool_decide_eq_true_2; [done|]. right.
       unfold validateShard in V. by go_inv V. }
  set (d1 := snd (sweepLocked d now)) in *.
  assert (Hgoal : e <> ErrClosed -> e <> ErrInvalidShard -> retained d' = retained d1 ->
    if bool_decide (e = ErrClosed \/ e = ErrInvalidShard) then d' = d
    else retained d' = retained d1) by (intros; by rewrite bool_decide_eq_false_2 by tauto).
  destruct (pending d1 !! Key input) as [b|].
  - destruct (_ || _); [injection H as <- <-; by apply Hgoal|].
    unfold storeShard in H. destruct (default None _) as [x|].
    + destruct (bool_decide (x = _)); [done|]. injection H as <- <-. by apply Hgoal.
    + cbv zeta in H. destruct (_ <? _); [done|]. by apply finishBlock_err in H.
  - destruct (inReplay d1 _); [done|]. destruct (_ || _); [done|].
    destruct (maxPendingBlocks d1 <=? _); [injection H as <- <-; by apply Hgoal|].
    destruct (newBlock _ _ _ _) as [b d2] eqn:N. apply storeShard_err in H as (_ & x & Hx & _); [|done].
    unfold newBlock in N. injection N as <- _. cbn in Hx. by apply lookup_replicate in Hx as [? _].
Qed.
