(* ===== verification/FecRecovery.v ===== *)
(** * Any k shards deliver the datagram

    Encoder and decoder together: once the decoder has admitted a block, any k
    distinct shards of it that arrive before its deadline deliver exactly the
    datagram that was encoded, whatever calls for other blocks, duplicates, sweeps
    and invalid shards are interleaved. *)

From S2P Require Import Prelude Fec FecDecoder FecDecoderProps FecDelivery.
From S2P Require FecReplay.

(** Shard [i] of an encoded block, as the receiver hands it to the decoder. *)
Definition shardOf (sid : bytes) (blk : EncodedBlock) (i : nat) : IncomingShard :=
  {| Key := {| key_SessionID := sid; key_PacketID := PacketID blk |};
     ShardParams := BlockParams blk; Index := Z.of_nat i; DatagramLength := OriginalLength blk;
     Payload := nth i (Shards blk) [] |}.

Definition keyOf (sid : bytes) (blk : EncodedBlock) : BlockKey :=
  {| key_SessionID := sid; key_PacketID := PacketID blk |}.

(** ** Reassembly *)

Lemma assemble_take room l : assemble room l = take room (concat (default [] <$> l)).
Proof.
  revert room. induction l as [|x l IH]; intros room; cbn [assemble]; [by destruct room|].
  destruct (Nat.eqb_spec room 0) as [->|]; [done|]. rewrite IH, fmap_cons. cbn [concat].
  rewrite length_take. destruct (le_lt_dec room (length (default [] x))).
  - rewrite take_app_le by lia. replace (room - _)%nat with 0%nat by lia. apply app_nil_r.
  - rewrite (take_app_ge (default [] x)) by lia. rewrite firstn_all2 by lia. do 2 f_equal. lia.
Qed.

Lemma default_Some (l : list bytes) : default [] <$> (Some <$> l) = l.
Proof. rewrite <- list_fmap_compose. apply list_fmap_id. Qed.

(** ** Frame: calls for other blocks *)

Lemma finishBlock_other d now input b key :
  key <> Key input ->
  pending (snd (finishBlock d now input b)) !! key = pending d !! key.
Proof.
  intros Hne. unfold finishBlock. destruct (codec_ReconstructData _ _) as [w|].
  2: { cbn. by rewrite lookup_delete_ne. }
  cbv zeta. destruct (negb _); [cbn; by rewrite lookup_delete_ne|].
  assert (H : forall d k now', pending (rememberCompletedLocked d k now') = pending d).
  { intros. unfold rememberCompletedLocked, evictOldest. by repeat case_match. }
  destruct (missing _ =? 0); cbn [snd count with_statistics with_pending pending];
    rewrite H; cbn; by rewrite lookup_delete_ne.
Qed.

Lemma storeShard_other d now input b key :
  key <> Key input -> pending (snd (storeShard d now input b)) !! key = pending d !! key.
Proof.
  intros Hne. unfold storeShard. destruct (default None _); [by destruct (bool_decide _)|].
  cbv zeta. destruct (_ <? _); cbn [snd]; rewrite ?finishBlock_other by done; cbn;
    by rewrite lookup_insert_ne.
Qed.

Lemma AddVerifiedShard_other d s now input key b :
  decoder_ok d s -> key <> Key input -> pending d !! key = Some b -> now < deadline (expiry b) ->
  pending (snd (AddVerifiedShard d now input)) !! key = Some b.
Proof.
  intros D Hne Hb Hnow. unfold AddVerifiedShard. destruct (closed d); [done|].
  destruct (validateShard d input) as [size|]; [|done].
  destruct (sweepLocked d now) as [x d1] eqn:E.
  destruct (sweepLocked_spec _ _ _ _ _ D E) as [_ P].
  assert (Hb1 : pending d1 !! key = Some b).
  { rewrite (sp_pending _ _ _ _ P). unfold alive. rewrite Hb.
    by replace (_ <=? now) with false by lia. }
  cbn [snd]. destruct (pending d1 !! Key input) as [b'|].
  - destruct (_ || _); [done|]. by rewrite storeShard_other.
  - destruct (inReplay d1 _); [done|]. destruct (_ || _); [done|].
    destruct (maxPendingBlocks d1 <=? _); [done|].
    destruct (newBlock _ _ _ _) as [nb d2] eqn:N. rewrite storeShard_other by done.
    unfold newBlock in N. injection N as <- <-. cbn. by rewrite lookup_insert_ne.
Qed.

(** ** Collecting the shards of one block *)

Section block.
Context (sid : bytes) (payload : bytes) (blk : EncodedBlock) (dl : Z).

Abbreviation key := (keyOf sid blk).

(** The pending block of [key] holds shards of [blk] only, those in [seen] among them. *)
Record collecting (d : Decoder) (seen : list nat) : Prop := {
  cl_block : exists b, pending d !! key = Some b /\ originalLength b = OriginalLength blk /\
    deadline (expiry b) = dl /\
    (forall i s, shards b !! i = Some (Some s) -> Shards blk !! i = Some s) /\
    (forall i, i ∈ seen -> exists s, shards b !! i = Some (Some s)) }.

(** The datagram has been handed over. *)
Definition delivers (e : Op * Out) : Prop :=
  match e with
  | (OpAdd _ input, OutAdd r) => Key input = key /\
      r = Ok {| outcome := OutcomeComplete; Datagram := Some payload |}
  | _ => False
  end.

(** Calls that may be interleaved: anything for other blocks, shards of [blk], sweeps. *)
Definition allowed (op : Op) : Prop :=
  op_typed op /\
  match op with
  | OpAdd now input => now < dl /\
      (Key input = key -> exists i, (i < length (Shards blk))%nat /\ input = shardOf sid blk i)
  | OpSweep now => now < dl
  | OpStats => True
  | OpClose => False
  end.

(** The shard of [blk] an operation carries. *)
Definition carried (op : Op) : list nat :=
  match op with
  | OpAdd _ input => if decide (Key input = key) then [Z.to_nat (Index input)] else []
  | _ => []
  end.

Lemma distinct_arrived (l : list (option bytes)) (seen : list nat) :
  NoDup seen -> (forall i, i ∈ seen -> exists s, l !! i = Some (Some s)) ->
  (length seen <= arrived l)%nat.
Proof.
  intros Hnd H. set (idx := fst <$> filter (fun p => is_Some p.2) (zip (seq 0 (length l)) l)).
  assert (Hin : forall i, i ∈ idx <-> exists s, l !! i = Some (Some s)).
  { intros i. unfold idx. rewrite list_elem_of_fmap. setoid_rewrite list_elem_of_filter.
    setoid_rewrite list_elem_of_lookup. setoid_rewrite lookup_zip_with_Some. split.
    - intros ([j x] & -> & [s Hs] & n & j' & y & [= -> ->] & [-> _]%lookup_seq & Hl).
      cbn in *. subst. eauto.
    - intros [s Hs]. exists (i, Some s). split; [done|]. split; [eauto|].
      exists i, i, (Some s). split; [done|]. split; [|done].
      apply lookup_seq. split; [done|]. by apply lookup_lt_Some in Hs. }
  assert (Hlen : length idx = arrived l).
  { unfold idx. rewrite length_fmap. clear. generalize 0%nat.
    induction l as [|x l IH]; intros n; [done|]. cbn [length seq zip zip_with].
    rewrite filter_cons, arrived_cons. destruct x as [x|]; cbn [snd].
    - rewrite decide_True by eauto. cbn [length]. by rewrite <- (IH (S n)).
    - rewrite decide_False by (intros [? ?]; done). by rewrite <- (IH (S n)). }
  rewrite <- Hlen. apply submseteq_length, NoDup_submseteq; [done|].
  intros i Hi. by apply Hin, H.
Qed.

Context (d0 : Decoder) (Henc : encodes (params d0) (codec d0) payload blk)
  (Hlaw : Lawful (Z.to_nat (DataShards (params d0))) (Z.to_nat (ParityShards (params d0))) (codec d0)).

Lemma shards_length : length (Shards blk)
  = (Z.to_nat (DataShards (params d0)) + Z.to_nat (ParityShards (params d0)))%nat.
Proof.
  destruct (en_shards _ _ _ _ Henc) as (data & zeros & parity & H1 & H2 & H3 & _ & -> & _).
  rewrite length_app. lia.
Qed.

Lemma shard_size i s : Shards blk !! i = Some s ->
  len s = shardSizeForDatagram (OriginalLength blk) (DataShards (params d0)).
Proof.
  intros Hs. destruct (en_shards _ _ _ _ Henc) as (data & zeros & parity & _ & _ & _ & _ & _ & _ & H).
  rewrite (en_length _ _ _ _ Henc). by eapply Forall_lookup_1 in H.
Qed.

(** Reconstruction from k shards of [blk] gives the payload back. *)
Lemma reconstruct_payload received :
  length received = length (Shards blk) ->
  (forall i s, received !! i = Some (Some s) -> Shards blk !! i = Some s) ->
  (Z.to_nat (DataShards (params d0)) <= arrived received)%nat -> 1 <= DataShards (params d0) ->
  OriginalLength blk < 2 ^ 62 ->
  exists full, codec_ReconstructData (codec d0) received = Some full /\
    assemble (Z.to_nat (OriginalLength blk)) (take (Z.to_nat (DataShards (params d0))) full)
      = payload.
Proof.
  intros Hl Hagree Hk Hk1 Hbig.
  destruct (en_shards _ _ _ _ Henc) as (data & zeros & parity & H1 & H2 & H3 & H4 & H5 & H6 & H7).
  pose proof (len_nonneg payload) as Hnn. pose proof (en_length _ _ _ _ Henc) as Hol.
  destruct (shardSize_spec (len payload) (DataShards (params d0)) ltac:(lia) Hk1) as (S1 & _ & _).
  destruct (reconstruct_law _ _ _ Hlaw
    (Z.to_nat (shardSizeForDatagram (len payload) (DataShards (params d0))))
    data zeros (Shards blk) received) as (full & Hr & Hf); try done; [lia| |].
  { eapply Forall_impl; [exact H7|]. cbn. intros s Hs. unfold len in Hs at 1. lia. }
  exists full. split; [done|]. rewrite Hf, assemble_take, default_Some, Hol.
  unfold len. by rewrite Nat2Z.id.
Qed.

(** What [collecting] says of the block. *)
Record holds (b : pendingBlock) (seen : list nat) : Prop := {
  hd_length : originalLength b = OriginalLength blk;
  hd_deadline : deadline (expiry b) = dl;
  hd_agree : forall i s, shards b !! i = Some (Some s) -> Shards blk !! i = Some s;
  hd_seen : forall i, i ∈ seen -> exists s, shards b !! i = Some (Some s) }.

Lemma collecting_holds d seen :
  collecting d seen <-> exists b, pending d !! key = Some b /\ holds b seen.
Proof.
  split.
  - intros [(b & H1 & H2 & H3 & H4 & H5)]. eauto using holds.
  - intros (b & H1 & []). split. eauto 10.
Qed.

Lemma finish_genuine d now b i :
  params d = params d0 -> codec d = codec d0 -> 1 <= DataShards (params d0) ->
  OriginalLength blk < 2 ^ 62 -> length (shards b) = length (Shards blk) ->
  (forall j s, shards b !! j = Some (Some s) -> Shards blk !! j = Some s) ->
  (Z.to_nat (DataShards (params d0)) <= arrived (shards b))%nat ->
  fst (finishBlock d now (shardOf sid blk i) b)
  = Ok {| outcome := OutcomeComplete; Datagram := Some payload |}.
Proof.
  intros Hp Hc Hk Hbig Hl Hagree Harr. unfold finishBlock. rewrite Hp, Hc.
  destruct (reconstruct_payload (shards b)) as (full & Hr & Ha); [done..|].
  rewrite Hr. cbv zeta. cbn [shardOf DatagramLength]. rewrite Ha, (en_length _ _ _ _ Henc).
  rewrite Z.eqb_refl. cbn [negb]. by destruct (missing _ =? 0).
Qed.

(** Storing a shard of [blk] either completes the block or adds the shard. *)
Lemma store_genuine d s now b i seen r d' :
  decoder_ok d s -> params d = params d0 -> codec d = codec d0 ->
  pending d !! key = Some b -> holds b seen -> (i < length (Shards blk))%nat ->
  storeShard d now (shardOf sid blk i) b = (r, d') ->
  r = Ok {| outcome := OutcomeComplete; Datagram := Some payload |} \/
  exists b', pending d' !! key = Some b' /\ holds b' (i :: seen).
Proof.
  intros D Hp Hc Hb [L1 L2 L3 L4] Hi H.
  pose proof (to_blocks _ _ _ _ _ _ _ (proj1 (proj2 D)) _ _ Hb) as Bk.
  pose proof (proj1 D) as K. pose proof (co_params _ _ _ _ _ _ _ K) as [K1 K2 _].
  destruct (lookup_lt_is_Some_2 (Shards blk) i Hi) as [si Hsi].
  assert (Hnth : nth i (Shards blk) [] = si) by (by apply nth_lookup_Some).
  assert (Hlen : length (shards b) = length (Shards blk)).
  { rewrite shards_length. pose proof (bo_length _ _ _ _ _ Bk) as Hbl.
    rewrite (co_total _ _ _ _ _ _ _ K), Hp in Hbl. rewrite Hp in K1, K2. unfold len in Hbl. lia. }
  destruct (lookup_lt_is_Some_2 (shards b) i ltac:(lia)) as [x Hx].
  unfold storeShard in H. cbn [shardOf Index Payload Key] in H.
  rewrite Nat2Z.id, Hx in H. cbn [default from_option id] in H. rewrite Hnth in H.
  destruct x as [existing|].
  - pose proof (L3 _ _ Hx) as He. assert (existing = si) as -> by congruence.
    rewrite bool_decide_eq_true_2 in H by done. injection H as <- <-. right. exists b.
    split; [exact Hb|]. split; try done. intros j [->|Hj]%elem_of_cons; eauto.
  - cbv zeta in H. set (b' := {| originalLength := _ |}) in H.
    assert (Hag : forall j s, shards b' !! j = Some (Some s) -> Shards blk !! j = Some s).
    { cbn. intros j s' [(<- & [= <-] & _)|[_ Hs]]%list_lookup_insert_Some; eauto. }
    destruct (Z.ltb_spec (present b') (DataShards (params (storing d (shardOf sid blk i) b))))
      as [Hlt|Hge].
    + right. exists b'. change (params (storing d (shardOf sid blk i) b)) with (params d) in Hlt.
      cbn [params with_pending] in H. replace (_ <? _) with true in H by lia.
      injection H as <- <-. split; [apply lookup_insert_eq|]. split; try done. cbn.
      intros j [->|Hj]%elem_of_cons; [exists si; apply list_lookup_insert_eq; lia|].
      destruct (L4 _ Hj) as [sj Hsj]. exists sj. rewrite list_lookup_insert_ne; [done|].
      intros ->. congruence.
    + left. change (params (storing d (shardOf sid blk i) b)) with (params d) in Hge.
      cbn [params with_pending] in H. replace (_ <? _) with false in H by lia.
      apply (f_equal fst) in H. cbn [fst] in H. rewrite <- H.
      apply finish_genuine; try done.
      * by rewrite <- Hp.
      * pose proof (bo_original _ _ _ _ _ Bk). pose proof (co_effective _ _ _ _ _ _ _ K).
        unfold maxWireOriginalLength in *. lia.
      * cbn. by rewrite length_insert.
      * cbn [b' shards]. rewrite arrived_insert by done.
        pose proof (bo_present _ _ _ _ _ Bk). cbn [b' present] in Hge. rewrite <- Hp. lia.
Qed.

Lemma genuine_valid d s i :
  decoder_ok d s -> params d = params d0 -> (i < length (Shards blk))%nat ->
  0 <= OriginalLength blk <= EffectiveDatagramLimit (limits d) ->
  (forall w, replay d = Some w -> sid = FecReplay.sessionID w) ->
  valid_shard d (shardOf sid blk i)
    (shardSizeForDatagram (OriginalLength blk) (DataShards (params d))).
Proof.
  intros D Hp Hi Hlen Hsid. pose proof (proj1 D) as [[K1 K2 _] Ktot Kc Ke _ _ _].
  destruct (lookup_lt_is_Some_2 (Shards blk) i Hi) as [si Hsi].
  unfold maxWireOriginalLength in *.
  destruct (shardSize_spec (OriginalLength blk) (DataShards (params d)) ltac:(lia) K1)
    as (S1 & S2 & S3).
  split; cbn [shardOf Key key_SessionID ShardParams Index DatagramLength Payload]; try done.
  - rewrite (en_params _ _ _ _ Henc). congruence.
  - rewrite shards_length, <- Hp in Hi. lia.
  - apply S3; lia.
  - rewrite (nth_lookup_Some _ _ _ _ Hsi), (shard_size _ _ Hsi). by rewrite Hp.
Qed.

Lemma add_genuine d s now i seen r d' :
  decoder_ok d s -> closed d = false -> params d = params d0 -> codec d = codec d0 ->
  collecting d seen -> now < dl -> (i < length (Shards blk))%nat ->
  AddVerifiedShard d now (shardOf sid blk i) = (r, d') ->
  r = Ok {| outcome := OutcomeComplete; Datagram := Some payload |} \/
  collecting d' (i :: seen).
Proof.
  intros D Hcl Hp Hc (b & Hb & Hh)%collecting_holds Hnow Hi H.
  pose proof (to_blocks _ _ _ _ _ _ _ (proj1 (proj2 D)) _ _ Hb) as Bk.
  pose proof D as (_ & _ & _ & L & _ & _).
  assert (V : valid_shard d (shardOf sid blk i)
    (shardSizeForDatagram (OriginalLength blk) (DataShards (params d)))).
  { apply (genuine_valid d s); try done.
    - rewrite <- (hd_length _ _ Hh). apply Bk.
    - intros w Hw. by destruct (proj2 (lo_replay _ _ _ _ L w Hw) _ _ Hb) as [? _]. }
  unfold AddVerifiedShard in H. rewrite Hcl, (proj2 (validateShard_iff _ _ _) V) in H.
  destruct (sweepLocked d now) as [x d1] eqn:E. cbn [snd] in H.
  destruct (sweepLocked_spec _ _ _ _ _ D E) as [D1 P].
  destruct (sp_frame _ _ _ _ P) as (F1 & _ & F3 & _).
  assert (Hb1 : pending d1 !! key = Some b).
  { rewrite (sp_pending _ _ _ _ P). unfold alive. rewrite Hb.
    pose proof (hd_deadline _ _ Hh). by replace (_ <=? now) with false by lia. }
  change (Key (shardOf sid blk i)) with key in H. rewrite Hb1 in H.
  cbn [shardOf DatagramLength] in H.
  rewrite (bo_size _ _ _ _ _ Bk), (hd_length _ _ Hh), !Z.eqb_refl in H. cbn [negb orb] in H.
  destruct (store_genuine d1 s now b i seen r d' D1) as [?|?]; try done; try congruence; [by left|].
  right. by apply collecting_holds.
Qed.

(** The first shard of a block, when the decoder admits it. *)
Lemma add_first d s now i r d' :
  decoder_ok d s -> closed d = false -> params d = params d0 -> codec d = codec d0 ->
  in_u 64 (PacketID blk) -> pending d !! key = None -> completed d !! key = None ->
  inReplay d (fun w => FecReplay.tooOld w (PacketID blk)) = false ->
  inReplay d (fun w => FecReplay.contains w (PacketID blk)) = false ->
  (forall w, replay d = Some w -> sid = FecReplay.sessionID w) ->
  Z.of_nat (base.size (pending d)) < maxPendingBlocks d ->
  OriginalLength blk <= EffectiveDatagramLimit (limits d) ->
  dl = now + decodeTimeout d -> (i < length (Shards blk))%nat ->
  AddVerifiedShard d now (shardOf sid blk i) = (r, d') ->
  r = Ok {| outcome := OutcomeComplete; Datagram := Some payload |} \/ collecting d' [i].
Proof.
  intros D Hcl Hp Hc Hid Hnone Hcomp Hold Hcon Hsid Hroom Hlen Hdl Hi H.
  pose proof (len_nonneg payload) as Hnn. pose proof (en_length _ _ _ _ Henc) as Hol.
  pose proof (genuine_valid d s i D Hp Hi ltac:(lia) Hsid) as V.
  unfold AddVerifiedShard in H. rewrite Hcl, (proj2 (validateShard_iff _ _ _) V) in H.
  pose proof (sweepLocked_static d now) as St.
  destruct (sweepLocked d now) as [x d1] eqn:E. cbn [snd] in H, St.
  destruct (sweepLocked_spec _ _ _ _ _ D E) as [D1 P].
  apply (valid_shard_static _ d1 _ _ (eq_sym St)) in V.
  destruct (sp_frame _ _ _ _ P) as (F1 & F2 & F3 & F4 & F5 & F6 & F7 & F8 & F9).
  assert (Hn1 : pending d1 !! key = None)
    by (rewrite (sp_pending _ _ _ _ P); unfold alive; by rewrite Hnone).
  assert (Hc1 : completed d1 !! key = None)
    by (rewrite (sp_completed _ _ _ _ P); by rewrite Hcomp).
  assert (Hsz : (size (pending d1) <= size (pending d))%nat).
  { apply map_subseteq_size, map_subseteq_spec. intros k b. rewrite (sp_pending _ _ _ _ P).
    unfold alive. destruct (pending d !! k); [|done]. by destruct (_ <=? now). }
  cbv zeta in H. change (Key (shardOf sid blk i)) with key in H. rewrite Hn1, Hc1 in H.
  change (key_PacketID key) with (PacketID blk) in H.
  assert (Hir : forall f, inReplay d1 f = inReplay d f) by (intros; unfold inReplay; by rewrite F6).
  rewrite !Hir, Hold, Hcon in H. rewrite bool_decide_eq_false_2 in H by (intros [? ?]; done).
  cbn [orb] in H. replace (maxPendingBlocks d1 <=? _) with false in H by lia.
  destruct (newBlock d1 now (shardOf sid blk i) _) as [b d2] eqn:N.
  destruct (newBlock_ok _ _ _ _ _ _ _ D1 V Hid Hn1 Hc1
    ltac:(by rewrite Hir) ltac:(by rewrite Hir) ltac:(lia) N)
    as (s2 & D2 & _ & Hp2 & _ & _ & Hpp & _ & _).
  assert (Hb : holds b [] /\ codec d2 = codec d1).
  { unfold newBlock in N. injection N as <- <-. split; [|done].
    split; cbn; [done|lia| |by intros ? ?%elem_of_nil].
    intros j s' [Hs _]%lookup_replicate. done. }
  destruct Hb as [Hb Hcd].
  destruct (store_genuine d2 s2 now b i [] r d' D2) as [?|?]; try done; try congruence;
    [by rewrite Hp2, lookup_insert_eq|by left|]. right. by apply collecting_holds.
Qed.

Lemma step_collecting d s op o d' seen :
  decoder_ok d s -> partial d -> closed d = false -> params d = params d0 -> codec d = codec d0 ->
  collecting d seen -> allowed op -> step d op = (o, d') ->
  delivers (op, o) \/
  (collecting d' (carried op ++ seen) /\
   exists s', decoder_ok d' s' /\ partial d' /\ closed d' = false /\
     params d' = params d0 /\ codec d' = codec d0).
Proof.
  intros D P Hcl Hp Hc Hcol [T A] H. destruct op as [now input|now| |]; cbn [step carried] in *.
  - destruct (AddVerifiedShard d now input) as [r d1] eqn:E. injection H as <- <-.
    destruct A as [Hnow Hgen]. pose proof (AddVerifiedShard_static d now input) as St.
    rewrite E in St. cbn [snd] in St. unfold static in St. injection St as S1 _ S3 _ _ _ _ _ S9 _.
    destruct (AddVerifiedShard_ok _ _ _ _ _ _ D P Hcl T E) as (s' & D' & P' & _).
    assert (Hrest : exists s', decoder_ok d1 s' /\ partial d1 /\ closed d1 = false /\
      params d1 = params d0 /\ codec d1 = codec d0).
    { exists s'. do 2 (split; [done|]). split; [congruence|]. split; congruence. }
    destruct (decide (Key input = key)) as [Hk|Hk].
    + destruct (Hgen Hk) as (i & Hi & ->).
      destruct (add_genuine _ _ _ _ _ _ _ D Hcl Hp Hc Hcol Hnow Hi E) as [->|Hcol'].
      * left. done.
      * right. cbn [shardOf Index]. by rewrite Nat2Z.id.
    + right. split; [|exact Hrest]. apply collecting_holds in Hcol as (b & Hb & Hh).
      apply collecting_holds. exists b. split; [|done].
      pose proof (AddVerifiedShard_other d s now input key b D ltac:(done) Hb) as Ho.
      rewrite E in Ho. apply Ho. by rewrite (hd_deadline _ _ Hh).
  - unfold Sweep in H. rewrite Hcl in H. destruct (sweepLocked d now) as [x d1] eqn:E.
    injection H as <- <-. right. destruct (sweepLocked_spec _ _ _ _ _ D E) as [D1 Post].
    destruct (sp_frame _ _ _ _ Post) as (F1 & _ & F3 & _ & _ & _ & F7 & _). split.
    + apply collecting_holds in Hcol as (b & Hb & Hh). apply collecting_holds. exists b.
      split; [|done]. rewrite (sp_pending _ _ _ _ Post). unfold alive. rewrite Hb.
      rewrite (hd_deadline _ _ Hh). by replace (_ <=? now) with false by lia.
    + exists s. split; [done|]. split; [by eapply sweep_partial|]. split; [congruence|].
      split; congruence.
  - injection H as <- <-. right. split; [done|]. by exists s.
  - done.
Qed.

Lemma run_collecting idxs ops : forall d s seen,
  decoder_ok d s -> partial d -> closed d = false -> params d = params d0 -> codec d = codec d0 ->
  collecting d seen -> Forall allowed ops ->
  NoDup idxs -> DataShards (params d0) <= len idxs ->
  (forall i, i ∈ idxs -> i ∈ seen \/ exists op, op ∈ ops /\ i ∈ carried op) ->
  Exists delivers (fst (run d ops)).
Proof.
  induction ops as [|op ops IH]; intros d s seen D P Hcl Hp Hc Hcol A Hnd Hk Hin.
  - exfalso. apply collecting_holds in Hcol as (b & Hb & Hh).
    pose proof (P _ _ Hb) as [_ Hlt]. rewrite Hp in Hlt.
    pose proof (to_blocks _ _ _ _ _ _ _ (proj1 (proj2 D)) _ _ Hb) as Bk.
    rewrite (bo_present _ _ _ _ _ Bk) in Hlt.
    assert (length idxs <= arrived (shards b))%nat; [|unfold len in Hk; lia].
    apply distinct_arrived; [done|]. intros i Hi. apply (hd_seen _ _ Hh).
    destruct (Hin i Hi) as [|(op & Hop & _)]; [done|by apply elem_of_nil in Hop].
  - apply Forall_cons in A as [A1 A2]. cbn [run]. destruct (step d op) as [o d1] eqn:E.
    destruct (step_collecting _ _ _ _ _ _ D P Hcl Hp Hc Hcol A1 E)
      as [Hdel|(Hcol' & s' & D' & P' & Hcl' & Hp' & Hc')].
    + destruct (run d1 ops). by left.
    + specialize (IH d1 s' _ D' P' Hcl' Hp' Hc' Hcol' A2 Hnd Hk).
      destruct (run d1 ops) as [tr d2]. right. apply IH. intros i Hi.
      destruct (Hin i Hi) as [|(op' & [->|Hop']%elem_of_cons & Hi')]; set_solver.
Qed.
End block.

(** ** End to end *)

(** When a decoder admits a new block: it is open, has not seen the key, the PacketID
    is neither below the replay window nor completed in it, and there is room. *)
Record admits (d : Decoder) (sid : bytes) (blk : EncodedBlock) : Prop := {
  ad_open : closed d = false;
  ad_pending : pending d !! keyOf sid blk = None;
  ad_completed : completed d !! keyOf sid blk = None;
  ad_window : inReplay d (fun w => FecReplay.tooOld w (PacketID blk)
    || FecReplay.contains w (PacketID blk)) = false;
  ad_session : forall w, replay d = Some w -> sid = FecReplay.sessionID w;
  ad_room : Z.of_nat (base.size (pending d)) < maxPendingBlocks d;
  ad_length : OriginalLength blk <= EffectiveDatagramLimit (limits d) }.

Lemma shards_collected `{ReedSolomon} config budget nxt exh e payload blk e' d0 pre sid t0 i0 ops idxs :
  (forall c, reedsolomon_New (DataShards (cfg_Params config)) (ParityShards (cfg_Params config))
     = Some c ->
   Lawful (Z.to_nat (DataShards (cfg_Params config)))
     (Z.to_nat (ParityShards (cfg_Params config))) c) ->
  budget_typed budget -> budget_typed (cfg_Budget config) -> in_u 64 nxt ->
  newEncoderAt (cfg_Params config) budget nxt exh = Ok e ->
  Encode e payload = (Ok blk, e') ->
  NewDecoder config = Ok d0 -> Forall op_typed pre ->
  let d := snd (run d0 pre) in
  admits d sid blk -> (i0 < length (Shards blk))%nat ->
  Forall (allowed sid blk (t0 + decodeTimeout d)) ops ->
  NoDup idxs -> DataShards (cfg_Params config) <= len idxs ->
  (forall i, i ∈ idxs -> i = i0 \/ exists op, op ∈ ops /\ i ∈ carried sid blk op) ->
  Exists (delivers sid payload blk) (fst (run d (OpAdd t0 (shardOf sid blk i0) :: ops))).
Proof.
  intros Hlaw Tb Tc Hn HE Henc HD Hpre d [A1 A2 A3 A4 A5 A6 A7] Hi0 Hops Hnd Hk Hin.
  destruct (newEncoderAt_ok _ _ _ _ _ Tb Hn HE) as (Eok & Ep & _ & _ & _ & Ec).
  destruct (NewDecoder_live _ _ Tc HD) as (L0 & _ & Dp & _ & _ & _ & _ & Dc).
  destruct (run_live pre _ _ L0 Hpre) as [s L]. fold d in L. unfold live in L. rewrite A1 in L.
  destruct L as [D P]. pose proof (run_config pre d0) as Hcfg. fold d in Hcfg.
  unfold config_of in Hcfg. injection Hcfg as C1 _ C3 _ _ _ _ _.
  assert (Hdc : codec d = Fec.codec e) by congruence.
  assert (Hdp : params d = Fec.params e) by congruence.
  specialize (Hlaw _ Dc). rewrite <- C3, <- Dp, <- C1 in Hlaw.
  assert (Henc' : encodes (params d) (codec d) payload blk /\ PacketID blk = next e).
  { pose proof (Encode_exact e payload Eok) as Hex. rewrite <- Hdc, <- Hdp in Hex.
    specialize (Hex Hlaw). destruct (_ <? _); [congruence|]. destruct (exhausted e); [congruence|].
    destruct Hex as (blk' & Hb & Hid & Hen). assert (blk' = blk) as -> by congruence. done. }
  destruct Henc' as [Henc' Hid]. unfold inReplay in A4.
  assert (Hid64 : in_u 64 (PacketID blk)) by (rewrite Hid; apply Eok).
  set (dl := t0 + decodeTimeout d) in *. cbn [run step].
  destruct (AddVerifiedShard d t0 (shardOf sid blk i0)) as [r d1] eqn:E.
  destruct (AddVerifiedShard_ok d s t0 (shardOf sid blk i0) r d1 D P A1 Hid64 E) as (s1 & D1 & P1 & _).
  pose proof (AddVerifiedShard_static d t0 (shardOf sid blk i0)) as St.
  rewrite E in St. cbn [snd] in St. unfold static in St. injection St as S1 _ S3 _ _ _ _ _ S9 _.
  destruct (add_first sid payload blk dl d Henc' Hlaw d s t0 i0 r d1) as [Hr|Hcol]; try done.
  - unfold inReplay. destruct (replay d); [|done]. by bools.
  - unfold inReplay. destruct (replay d); [|done]. by bools.
  - destruct (run d1 ops). left. by rewrite Hr.
  - pose proof (run_collecting sid payload blk dl d Henc' Hlaw idxs ops d1 s1 [i0] D1 P1
      ltac:(congruence) ltac:(congruence) ltac:(congruence) Hcol Hops Hnd) as Hrun.
    destruct (run d1 ops) as [tr d2]. right. apply Hrun.
    + by rewrite C1, Dp.
    + intros i Hi. destruct (Hin i Hi) as [->|]; [left; set_solver|by right].
Qed.

(** C21: Encoding then decoding is the identity through loss, reordering, duplication and
    interleaving, for a lawful Reed-Solomon codec: a datagram encoded by any encoder with
    the same parameters is delivered unchanged by a decoder in any reachable state that
    admits the block, as soon as k distinct shards of it have arrived before the block's
    deadline.  In between come any shards of other blocks, repetitions of this block's,
    sweeps before the deadline and readings of the statistics; but the decoder is not
    closed, and under the block's key only its own shards come. *)
Theorem any_k_shards_deliver `{ReedSolomon} config budget nxt exh e payload blk e' d0 pre sid t0 i0 ops idxs :
  (forall c, reedsolomon_New (DataShards (cfg_Params config)) (ParityShards (cfg_Params config))
     = Some c ->
   Lawful (Z.to_nat (DataShards (cfg_Params config)))
     (Z.to_nat (ParityShards (cfg_Params config))) c) ->
  budget_typed budget -> budget_typed (cfg_Budget config) -> in_u 64 nxt ->
  newEncoderAt (cfg_Params config) budget nxt exh = Ok e ->
  Encode e payload = (Ok blk, e') ->
  NewDecoder config = Ok d0 -> Forall op_typed pre ->
  let d := snd (run d0 pre) in
  admits d sid blk -> (i0 < length (Shards blk))%nat ->
  Forall (allowed sid blk (t0 + decodeTimeout d)) ops ->
  NoDup idxs -> DataShards (cfg_Params config) <= len idxs ->
  (forall i, i ∈ idxs -> i = i0 \/ exists op, op ∈ ops /\ i ∈ carried sid blk op) ->
  Exists (delivers sid payload blk) (fst (run d (OpAdd t0 (shardOf sid blk i0) :: ops))).
Proof. apply shards_collected. Qed.

(** ** A concrete run: the first data shard is lost *)

Definition sampleSession : bytes := replicate 16 Byte.x01.
Definition samplePayload : bytes := [Byte.x68; Byte.x69; Byte.x21].
Definition sampleBlock : EncodedBlock := {|
  PacketID := 0; OriginalLength := 3; BlockParams := sampleParams;
  Shards := [[Byte.x68; Byte.x69]; [Byte.x21; Byte.x00]; [Byte.x49; Byte.x69]] |}.
Definition sampleConfig : DecoderConfig := {|
  cfg_Params := sampleParams; cfg_Budget := sampleBudget; cfg_DecodeTimeout := 100;
  cfg_CompletionTTL := 0; cfg_MaxPendingBlocks := 2; cfg_MaxCompletedBlocks := 0;
  cfg_Statistics := true;
  cfg_ReplayWindow := Some {| FecReplay.cfg_SessionID := sampleSession |} |}.
Definition sampleDecoder : Decoder :=
  match NewDecoder sampleConfig with
  | Ok d => d
  | Err _ => {| params := sampleParams; limits := limits_of sampleParams sampleBudget;
      codec := xorCodec; total := 0; decodeTimeout := 0; completionTTL := 0;
      maxPendingBlocks := 0; maxCompletedBlocks := 0; pending := ∅; pendingExpiry := [];
      completed := ∅; completedExpiry := []; pendingShards := 0; pendingBytes := 0;
      closed := true; statistics := None; replay := None; allocated := 0 |}
  end.

Definition otherShard : IncomingShard :=
  {| Key := {| key_SessionID := sampleSession; key_PacketID := 7 |}; ShardParams := sampleParams;
     Index := 0; DatagramLength := 1; Payload := [Byte.x00] |}.

Definition sampleOps : list Op :=
  [OpAdd 10 (shardOf sampleSession sampleBlock 2); OpAdd 20 otherShard; OpSweep 50; OpStats;
   OpAdd 60 (shardOf sampleSession sampleBlock 1)].

Lemma sampleBudget_typed : budget_typed sampleBudget.
Proof. repeat split; unfold in_int; cbn; lia. Qed.

Lemma sampleDecoder_built : NewDecoder sampleConfig = Ok sampleDecoder.
Proof. reflexivity. Qed.

Lemma sampleOps_typed : Forall op_typed sampleOps.
Proof. repeat constructor; unfold in_u; cbn; lia. Qed.

Lemma any_k_shards_deliver_witness :
  Exists (delivers sampleSession samplePayload sampleBlock)
    (fst (run sampleDecoder
       (OpAdd 0 (shardOf sampleSession sampleBlock 2) :: sampleOps))).
Proof.
  refine (any_k_shards_deliver sampleConfig sampleBudget 0 false sampleEncoder samplePayload
    sampleBlock (takePacketID sampleEncoder) sampleDecoder [] sampleSession 0 2%nat sampleOps
    [2%nat; 1%nat] _ sampleBudget_typed sampleBudget_typed _ sampleEncoder_built _
    sampleDecoder_built _ _ _ _ _ _ _).
  - intros c [= <-]. exact xorCodec_lawful.
  - unfold in_u. lia.
  - vm_compute. reflexivity.
  - constructor.
  - split; try reflexivity; try (vm_compute; reflexivity || discriminate).
    intros w [= <-]. reflexivity.
  - cbn. lia.
  - change (decodeTimeout (snd (run sampleDecoder []))) with 100.
    repeat constructor; unfold in_u; cbn; try lia; try discriminate.
    + intros _. exists 2%nat. split; [lia|reflexivity].
    + intros _. exists 1%nat. split; [lia|reflexivity].
  - apply NoDup_cons. split; [set_solver|apply NoDup_singleton].
  - vm_compute. discriminate.
  - intros i Hi. apply elem_of_cons in Hi as [->|Hi]; [by left|].
    apply list_elem_of_singleton in Hi as ->. right.
    exists (OpAdd 60 (shardOf sampleSession sampleBlock 1)). split; [|vm_compute; by left].
    unfold sampleOps. set_solver.
Defined.

Lemma delivered_at_most_once_witness :
  omap deliveredID (fst (run sampleDecoder
    (OpAdd 0 (shardOf sampleSession sampleBlock 2) :: sampleOps ++ sampleOps))) = [0] /\
  NoDup (omap deliveredID (fst (run sampleDecoder (sampleOps ++ sampleOps)))).
Proof.
  split; [vm_compute; reflexivity|].
  apply (delivered_at_most_once sampleConfig sampleDecoder (sampleOps ++ sampleOps)
    sampleBudget_typed sampleDecoder_built); [discriminate|].
  apply Forall_app. split; exact sampleOps_typed.
Defined.

Lemma retained_bounded_witness :
  bounded (snd (run sampleDecoder sampleOps)) 2 FecReplay.ReplayWindowIDs.
Proof.
  exact (retained_bounded sampleConfig sampleDecoder sampleOps sampleBudget_typed
    sampleDecoder_built sampleOps_typed).
Defined.

Lemma Sweep_exact_witness :
  sweep_post 150 (snd (run sampleDecoder sampleOps))
    (snd (Sweep (snd (run sampleDecoder sampleOps)) 150))
    {| exp_PendingBlocks := 1; exp_CompletedBlocks := 0 |}.
Proof.
  apply (Sweep_exact sampleConfig sampleDecoder sampleOps 150 _ _ sampleBudget_typed
    sampleDecoder_built sampleOps_typed); [vm_compute; reflexivity|].
  assert (H : fst (Sweep (snd (run sampleDecoder sampleOps)) 150)
    = {| exp_PendingBlocks := 1; exp_CompletedBlocks := 0 |}) by (vm_compute; reflexivity).
  rewrite <- H. apply surjective_pairing.
Defined.

(** A shard of the delivered block with another payload length is refused. *)
Lemma refused_leaves_no_state_witness :
  let bad := {| Key := keyOf sampleSession sampleBlock; ShardParams := sampleParams; Index := 0;
                DatagramLength := 3; Payload := [Byte.x00] |} in
  AddVerifiedShard sampleDecoder 5 bad = (Err ErrInvalidShard, sampleDecoder) /\
  snd (AddVerifiedShard sampleDecoder 5 bad) = sampleDecoder.
Proof.
  intros bad. assert (H : AddVerifiedShard sampleDecoder 5 bad = (Err ErrInvalidShard, sampleDecoder))
    by reflexivity.
  split; [exact H|].
  exact (refused_leaves_no_state sampleDecoder 5 bad ErrInvalidShard _ H ltac:(discriminate)).
Defined.
