(* ===== verification/Transport.v ===== *)
(** * Paths, block sends and path counters ([internal/transport], [internal/metrics])

    A [Path] is the identity a socket generation or a learned endpoint shows to the
    session layer; whether it is available, and what a send does, is the class
    [Sockets], implemented by the socket code.  [SendBlock] spreads one encoded block over
    the available paths.  The counters are the anonymous slots a listener keeps for
    its endpoints; the atomics of the source are plain fields. *)

From S2P Require Import Prelude Sha256.
From S2P Require Scheduler.

(** ** Metrics *)

Record Latency := { count : Z; totalNS : Z; maxNS : Z; latencies : list Z }.
Definition zeroLatency : Latency :=
  {| count := 0; totalNS := 0; maxNS := 0; latencies := replicate 24 0 |}.

Definition microsecond : Z := 1000.

(** The loop that finds the bucket, from [bucket] with its bound [upper]; [left]
    buckets follow it. *)
Fixpoint latencyBucket (left bucket : nat) (upper ns : Z) : nat :=
  match left with
  | O => bucket
  | S left' => if upper <? ns then latencyBucket left' (S bucket) (u64 (upper * 2)) ns else bucket
  end.

Definition bump (l : list Z) (i : nat) : list Z := alter (fun n => u64 (n + 1)) i l.

Definition Latency_Observe (l : Latency) (duration : Z) : Latency :=
  let ns := if duration <? 0 then 0 else duration in
  {| count := u64 (count l + 1); totalNS := u64 (totalNS l + ns); maxNS := Z.max (maxNS l) ns;
     latencies := bump (latencies l) (latencyBucket 23 0 microsecond ns) |}.

Definition PacketSizeBounds : list Z :=
  [64; 128; 256; 512; 768; 1024; 1200; 1280; 1400; 1472; 1500; 2048; 4096; 8192; 16384; 65535].

Fixpoint sizeBucket (bounds : list Z) (i : nat) (size : Z) : option nat :=
  match bounds with
  | [] => None
  | upper :: rest => if u64 size <=? upper then Some i else sizeBucket rest (S i) size
  end.

Definition PacketSizes_Observe (sizes : list Z) (size : Z) : list Z :=
  match sizeBucket PacketSizeBounds 0 size with Some i => bump sizes i | None => sizes end.

(** ** Counters *)

Record Counters := {
  SentPackets : Z; SentBytes : Z; SendErrors : Z;
  ReceivedPackets : Z; ReceivedBytes : Z; ReceiveOversizeDrops : Z;
  WriteQueue : Latency; SocketWrite : Latency;
  SentPacketSizes : list Z; ReceivedPacketSizes : list Z }.

Definition newCounters : Counters := {|
  SentPackets := 0; SentBytes := 0; SendErrors := 0; ReceivedPackets := 0; ReceivedBytes := 0;
  ReceiveOversizeDrops := 0; WriteQueue := zeroLatency; SocketWrite := zeroLatency;
  SentPacketSizes := replicate 16 0; ReceivedPacketSizes := replicate 16 0 |}.

(** [receive] of a non-nil collector; [diagnostics] is the reading of
    [DiagnosticsEnabled]. *)
Definition receive (diagnostics : bool) (size limit : Z) (c : Counters) : Counters := {|
  SentPackets := SentPackets c; SentBytes := SentBytes c; SendErrors := SendErrors c;
  ReceivedPackets := u64 (ReceivedPackets c + 1);
  ReceivedBytes := u64 (ReceivedBytes c + u64 size);
  ReceiveOversizeDrops :=
    if limit <? size then u64 (ReceiveOversizeDrops c + 1) else ReceiveOversizeDrops c;
  WriteQueue := WriteQueue c; SocketWrite := SocketWrite c;
  SentPacketSizes := SentPacketSizes c;
  ReceivedPacketSizes :=
    if diagnostics then PacketSizes_Observe (ReceivedPacketSizes c) size
    else ReceivedPacketSizes c |}.

Definition ReceiveAccepted (diagnostics : bool) (size : Z) (c : Counters) : Counters :=
  receive diagnostics size size c.

(** [failed] is [err != nil]. *)
Definition wroteElapsed (size : Z) (complete failed timed : bool) (elapsed : Z) (c : Counters)
    : Counters := {|
  SentPackets := if complete then u64 (SentPackets c + 1) else SentPackets c;
  SentBytes := if 0 <? size then u64 (SentBytes c + size) else SentBytes c;
  SendErrors := if failed || negb complete then u64 (SendErrors c + 1) else SendErrors c;
  ReceivedPackets := ReceivedPackets c; ReceivedBytes := ReceivedBytes c;
  ReceiveOversizeDrops := ReceiveOversizeDrops c;
  WriteQueue := WriteQueue c;
  SocketWrite := if timed then Latency_Observe (SocketWrite c) elapsed else SocketWrite c;
  SentPacketSizes :=
    if complete && timed then PacketSizes_Observe (SentPacketSizes c) size else SentPacketSizes c;
  ReceivedPacketSizes := ReceivedPacketSizes c |}.

(** ** The counters of a listener's paths

    A [*Counters] is a reference to a slot of the registry that allocated it. *)

Definition MaxListenerStatisticsPaths : Z := 256.

Inductive CountersRef := Slot (i : nat) | Overflow.
#[global] Instance CountersRef_eq_dec : EqDecision CountersRef.
Proof. solve_decision. Defined.

Record ListenerPathCounters := {
  enabled : bool;
  byKey : gmap bytes nat;
  paths : list Counters;
  overflow : option Counters }.

Definition NewListenerPathCounters (enabled : bool) : ListenerPathCounters :=
  {| enabled := enabled; byKey := ∅; paths := []; overflow := None |}.

Definition Learn (key : bytes) (c : ListenerPathCounters) : CountersRef * ListenerPathCounters :=
  let digest := sha256 key in
  match byKey c !! digest with
  | Some i => (Slot i, c)
  | None =>
      if len (paths c) =? MaxListenerStatisticsPaths then
        (Overflow, {| enabled := enabled c; byKey := byKey c; paths := paths c;
                      overflow := Some (default newCounters (overflow c)) |})
      else
        (Slot (length (paths c)),
         {| enabled := enabled c; byKey := <[digest := length (paths c)]> (byKey c);
            paths := paths c ++ [newCounters]; overflow := overflow c |})
  end.

(** An update through a [*Counters] of the registry. *)
Definition count_at (r : CountersRef) (f : Counters -> Counters) (c : ListenerPathCounters)
    : ListenerPathCounters :=
  {| enabled := enabled c; byKey := byKey c;
     paths := match r with Slot i => alter f i (paths c) | Overflow => paths c end;
     overflow := match r with Slot _ => overflow c | Overflow => f <$> overflow c end |}.

Definition Snapshot (c : option ListenerPathCounters) : list Counters * option Counters :=
  match c with None => ([], None) | Some c => (paths c, overflow c) end.

(** ** Paths *)

Record Addr := { Network : bytes; String : bytes }.
#[global] Instance Addr_eq_dec : EqDecision Addr.
Proof. solve_decision. Defined.

Inductive PathKind := CarrierPath | CarrierReplyPath | ListenerReplyPath | CustomPath.
#[global] Instance PathKind_eq_dec : EqDecision PathKind.
Proof. solve_decision. Defined.

(** [LocalAddr] and [RemoteAddr] are [None] for a nil address. *)
Record Path := {
  PathID : bytes;
  Generation : Z;
  LocalAddr : option Addr;
  RemoteAddr : option Addr;
  kind : PathKind;
  path_statistics : option CountersRef }.
#[global] Instance Path_eq_dec : EqDecision Path.
Proof. solve_decision. Defined.

Definition WithReplyStatistics (path : Path) (counters : option CountersRef) : Path :=
  match counters, kind path with
  | Some _, ListenerReplyPath =>
      {| PathID := PathID path; Generation := Generation path; LocalAddr := LocalAddr path;
         RemoteAddr := RemoteAddr path; kind := kind path; path_statistics := counters |}
  | _, _ => path
  end.

(** A non-nil error of [Path.Send], by what [errors.Is] and [errors.As] find in it. *)
Record SendError := {
  Is_Canceled : bool;
  Is_DeadlineExceeded : bool;
  As_PathError : bool;
  Is_ErrPathUnavailable : bool;
  Is_ErrPathMTUExceeded : bool }.
#[global] Instance SendError_eq_dec : EqDecision SendError.
Proof. solve_decision. Defined.

(** A caller's context: [context.Background], or one with cancellation or values. *)
Inductive Context := Background | Derived (identity : Z).
#[global] Instance Context_eq_dec : EqDecision Context.
Proof. solve_decision. Defined.

(** The context a send runs under: the caller's unless it is [Background], and the
    session's lifetime with its cancellation unless the send does without. *)
Record OperationContext := { caller : Context; lifetime : option bool }.

(** The sockets and the clock, as the session layer sees them. *)
Class Sockets (Env : Type) := {
  Now : Env -> Z * Env;
  ctxErr : Env -> Context -> option SendError;
  Available : Env -> Path -> bool;
  Send : Env -> OperationContext -> Path -> bytes -> option SendError * Env }.

(** ** Block sends *)

Inductive TransportError :=
| ErrNoAvailablePaths | ErrPartialSend | ErrAllSendsFailed
| CountErr (e : Scheduler.CountError).

Record ShardAttempt := {
  ShardIndex : Z; PathIndex : Z; att_PathID : bytes; att_Err : option SendError }.

Record BlockSendResult := {
  PacketID : Z; PathsAvailable : Z; Attempted : Z; Succeeded : Z; Attempts : list ShardAttempt }.

Section SendBlock.
Context {Env : Type} `{Sockets Env}.

(** The available paths with their position in the argument of [SendBlock]. *)
Definition available (w : Env) (ps : list Path) : list (nat * Path) :=
  filter (fun ip => Available w ip.2 = true) (imap pair ps).

(** The loop over the assignments; it panics on an index outside [avail] or [shards]
    ([None]). *)
Fixpoint sendShards (ctx : OperationContext) (shards : list bytes) (avail : list (nat * Path))
    (assignments : list Z) (shardIndex : nat) (r : BlockSendResult) (w : Env)
    : option (BlockSendResult * Env) :=
  match assignments with
  | [] => Some (r, w)
  | availableIndex :: rest =>
      match avail !! Z.to_nat availableIndex, shards !! shardIndex with
      | Some (inputIndex, path), Some shard =>
          let '(sendErr, w1) := Send w ctx path shard in
          let attempt := {| ShardIndex := Z.of_nat shardIndex; PathIndex := Z.of_nat inputIndex;
                            att_PathID := PathID path; att_Err := sendErr |} in
          sendShards ctx shards avail rest (S shardIndex)
            {| PacketID := PacketID r; PathsAvailable := PathsAvailable r;
               Attempted := Attempted r + 1;
               Succeeded := match sendErr with None => Succeeded r + 1 | Some _ => Succeeded r end;
               Attempts := Attempts r ++ [attempt] |} w1
      | _, _ => None
      end
  end.

Definition SendBlock (ctx : OperationContext) (packetID : Z) (shards : list bytes)
    (ps : list Path) (w : Env) : option ((BlockSendResult * option TransportError) * Env) :=
  let avail := available w ps in
  let r := {| PacketID := packetID; PathsAvailable := len avail; Attempted := 0; Succeeded := 0;
              Attempts := [] |} in
  if len avail =? 0 then
    if len shards =? 0 then
      match Scheduler.Assign packetID 0 0 with
      | Err e => Some ((r, Some (CountErr e)), w)
      | Ok _ => Some ((r, None), w)
      end
    else Some ((r, Some ErrNoAvailablePaths), w)
  else
    match Scheduler.Assign packetID (len shards) (len avail) with
    | Err e => Some ((r, Some (CountErr e)), w)
    | Ok assignments =>
        match sendShards ctx shards avail assignments 0 r w with
        | None => None
        | Some (r', w') =>
            if Succeeded r' =? Attempted r' then Some ((r', None), w') else
            Some ((r', Some (if Succeeded r' =? 0 then ErrAllSendsFailed else ErrPartialSend)), w')
        end
    end.
End SendBlock.
