(* ===== verification/Config.v ===== *)
(** * Configuration limits ([config/defaults.go]) *)

From S2P Require Import Prelude.

Definition second : Z := 10 ^ 9.
Definition millisecond : Z := 10 ^ 6.
Definition minute : Z := 60 * second.
Definition hour : Z := 60 * minute.

Definition MaxTotalShards : Z := 256.
Definition MaxCarriers : Z := 256.
Definition MaxPSKBytes : Z := 4096.

Definition DefaultMaxUDPPayload : Z := 1200.
Definition MinMaxUDPPayload : Z := 72.
Definition MinV2MaxUDPPayload : Z := 512.
Definition MaxMaxUDPPayload : Z := 65507.

Definition DefaultMaxDatagramSize : Z := 64 * 1024.
Definition MinMaxDatagramSize : Z := 1.
Definition MaxMaxDatagramSize : Z := 16 * 1024 * 1024.

Definition MinMaxPendingFECBlocks : Z := 1.
Definition MaxMaxPendingFECBlocks : Z := 65536.

Definition MinDecodeTimeout : Z := 100 * millisecond.
Definition MaxDecodeTimeout : Z := minute.
Definition MinEndpointTTL : Z := 5 * second.
Definition MaxEndpointTTL : Z := 24 * hour.
Definition MinKeepaliveInterval : Z := second.
Definition MaxKeepaliveInterval : Z := 5 * minute.
Definition MinHandshakeRetryInterval : Z := 100 * millisecond.
Definition MaxHandshakeRetryInterval : Z := minute.
