(* ===== verification/Session.v ===== *)
(** * Sessions of protocol version 1 ([internal/session])

    A [Session] is the authenticated state machine of one peer: the handshake over its
    carriers, the learned endpoints, the keepalive probes and the two FEC codecs.  Each
    method runs one section under the Session's mutex, a function on [Session] here,
    and then performs the sends it planned outside it ([execute]).

    Carriers are a list with an index by path; the source holds the same pointers in a
    slice and a map.  The cached [wire.Authenticator] is its key, for it computes the
    stateless codec ([Wire.Authenticator_equivalent]).  [None] is the zero time, a nil
    pointer or a nil interface.  [reg] is the registry of path counters that the
    Sessions of a listener share; a shared FEC collector is kept per decoder.  Of the
    lifetime context the model keeps whether it is cancelled. *)

From stdpp Require Import sorting.
From S2P Require Import Prelude Sha256 Transport.
From S2P Require Wire Fec FecReplay FecDecoder Config.
Import Wire (SessionID, zeroSessionID).

(** ** Types *)

Inductive Role := RoleInitiator | RoleListener.
#[global] Instance Role_eq_dec : EqDecision Role.
Proof. solve_decision. Defined.

Inductive State := StateHandshaking | StateEstablished | StateHandshakeFailed | StateClosed.
#[global] Instance State_eq_dec : EqDecision State.
Proof. solve_decision. Defined.

Inductive SessionError :=
| ErrInvalidConfig | ErrClosed | ErrNotEstablished | ErrHandshakeFailed | ErrHandshakeIncompatible
| ErrUnexpectedPacket | ErrUnknownSession | ErrUnknownPath | ErrInvalidReplyPath
| ErrEndpointLimit | ErrSessionLimit | ErrProbeMismatch | ErrPacketOverBudget
| WireErr (e : Wire.WireError) | FecErr (e : Fec.FecError)
| SendErr (e : SendError) | TransportErr (e : TransportError).

Record Config := {
  PSK : bytes;
  FEC : Fec.Params;
  LocalMaxUDPPayload : Z;
  MaxDatagramSize : Z;
  MaxEndpoints : Z;
  MaxHandshakeAttempts : Z;
  MaxPendingFECBlocks : Z;
  MaxCompletedFECBlocks : Z;
  DecodeTimeout : Z;
  CompletionTTL : Z;
  EndpointTTL : Z;
  KeepaliveInterval : Z;
  HandshakeRetryInterval : Z;
  HandshakeRetryJitterLimit : Z;
  FECStatistics : bool }.

Record settings := {
  psk : bytes;
  params : Fec.Params;
  localMaxUDPPayload : Z;
  maxDatagramSize : Z;
  maxEndpoints : Z;
  maxHandshakeAttempts : Z;
  maxPendingFECBlocks : Z;
  maxCompletedFECBlocks : Z;
  decodeTimeout : Z;
  completionTTL : Z;
  endpointTTL : Z;
  keepaliveInterval : Z;
  handshakeRetryInterval : Z;
  handshakeJitterLimit : Z;
  fecStatistics : bool }.

Definition maxPaths : Z := 256.

Definition outside (lo hi z : Z) : bool := (z <? lo) || (hi <? z).

Definition normalizeConfig (config : Config) : result SessionError settings :=
  fail (len (PSK config) =? 0) || (Config.MaxPSKBytes <? len (PSK config)) with ErrInvalidConfig in
  let k := Fec.DataShards (FEC config) in
  let m := Fec.ParityShards (FEC config) in
  fail (k <=? 0) || (255 <? k) || (m <=? 0) || (255 <? m) || (Fec.MaxTotalShards - m <? k)
    with ErrInvalidConfig in
  fail outside Wire.MinUDPPayload Wire.MaxUDPPayload (LocalMaxUDPPayload config)
    with ErrInvalidConfig in
  fail outside Config.MinMaxDatagramSize Config.MaxMaxDatagramSize (MaxDatagramSize config)
    with ErrInvalidConfig in
  fail (MaxEndpoints config <=? 0) || (maxPaths <? MaxEndpoints config) with ErrInvalidConfig in
  fail (MaxHandshakeAttempts config <=? 0) || (64 <? MaxHandshakeAttempts config)
    with ErrInvalidConfig in
  fail outside Config.MinMaxPendingFECBlocks Config.MaxMaxPendingFECBlocks (MaxPendingFECBlocks config)
       || outside Config.MinMaxPendingFECBlocks Config.MaxMaxPendingFECBlocks (MaxCompletedFECBlocks config)
    with ErrInvalidConfig in
  fail outside Config.MinDecodeTimeout Config.MaxDecodeTimeout (DecodeTimeout config)
       || (CompletionTTL config <=? 0)
       || outside Config.MinEndpointTTL Config.MaxEndpointTTL (EndpointTTL config)
       || outside Config.MinKeepaliveInterval Config.MaxKeepaliveInterval (KeepaliveInterval config)
       || outside Config.MinHandshakeRetryInterval Config.MaxHandshakeRetryInterval
            (HandshakeRetryInterval config)
    with ErrInvalidConfig in
  let jitter := if HandshakeRetryJitterLimit config =? 0
                then Z.quot (HandshakeRetryInterval config) 4 else HandshakeRetryJitterLimit config in
  fail (jitter <? 0) || (HandshakeRetryInterval config <? jitter) with ErrInvalidConfig in
  match Wire.NewAuthenticator (PSK config) with
  | Err e => Err (WireErr e)
  | Ok a =>
      Ok {| psk := Wire.key a; params := FEC config; localMaxUDPPayload := LocalMaxUDPPayload config;
            maxDatagramSize := MaxDatagramSize config; maxEndpoints := MaxEndpoints config;
            maxHandshakeAttempts := MaxHandshakeAttempts config;
            maxPendingFECBlocks := MaxPendingFECBlocks config;
            maxCompletedFECBlocks := MaxCompletedFECBlocks config;
            decodeTimeout := DecodeTimeout config; completionTTL := CompletionTTL config;
            endpointTTL := EndpointTTL config; keepaliveInterval := KeepaliveInterval config;
            handshakeRetryInterval := HandshakeRetryInterval config; handshakeJitterLimit := jitter;
            fecStatistics := FECStatistics config |}
  end.

(** ** State *)

Record carrierState := {
  car_path : Path;
  attempts : Z;
  acked : bool;
  exhausted : bool;
  nextRetry : option Z;
  car_healthy : bool }.

Record endpointState := {
  ep_key : bytes;
  ep_path : Path;
  lastActivity : Z;
  rtt : Z;
  hasRTT : bool;
  healthy : bool;
  statistics : option CountersRef }.

Record outstandingProbe := { token : Z; timestamp : Z; sentAt : Z }.

(** [probeKey] is [None] for the empty key of a plan that is not a probe. *)
Record sendPlan := {
  message : Wire.Message; plan_path : Path; budget : Z;
  probeKey : option bytes; probe : outstandingProbe }.

Definition noProbe : outstandingProbe := {| token := 0; timestamp := 0; sentAt := 0 |}.

Definition reply (m : Wire.Message) (p : Path) (b : Z) : sendPlan :=
  {| message := m; plan_path := p; budget := b; probeKey := None; probe := noProbe |}.

Record Session := mkSession {
  id : SessionID;
  role : Role;
  conf : settings;
  state : State;
  started : bool;
  carriers : list carrierState;
  carrierByID : gmap bytes nat;
  endpoints : gmap bytes endpointState;
  outstanding : gmap bytes outstandingProbe;
  nextToken : Z;
  peerMaxUDPPayload : Z;
  sendMaxUDPPayload : Z;
  receiveMaxUDPPayload : Z;
  encoder : option Fec.Encoder;
  decoder : option FecDecoder.Decoder;
  nextKeepalive : option Z;
  nextDecodeSweep : option Z;
  canceled : bool;
  closeDone : bool;
  closeErr : list SessionError }.

(** Field updates. *)
Definition set_state x (s : Session) : Session :=
  mkSession (id s) (role s) (conf s) x (started s) (carriers s) (carrierByID s) (endpoints s)
    (outstanding s) (nextToken s) (peerMaxUDPPayload s) (sendMaxUDPPayload s)
    (receiveMaxUDPPayload s) (encoder s) (decoder s) (nextKeepalive s) (nextDecodeSweep s)
    (canceled s) (closeDone s) (closeErr s).
Definition set_started x (s : Session) : Session :=
  mkSession (id s) (role s) (conf s) (state s) x (carriers s) (carrierByID s) (endpoints s)
    (outstanding s) (nextToken s) (peerMaxUDPPayload s) (sendMaxUDPPayload s)
    (receiveMaxUDPPayload s) (encoder s) (decoder s) (nextKeepalive s) (nextDecodeSweep s)
    (canceled s) (closeDone s) (closeErr s).
Definition set_carriers x (s : Session) : Session :=
  mkSession (id s) (role s) (conf s) (state s) (started s) x (carrierByID s) (endpoints s)
    (outstanding s) (nextToken s) (peerMaxUDPPayload s) (sendMaxUDPPayload s)
    (receiveMaxUDPPayload s) (encoder s) (decoder s) (nextKeepalive s) (nextDecodeSweep s)
    (canceled s) (closeDone s) (closeErr s).
Definition set_endpoints x (s : Session) : Session :=
  mkSession (id s) (role s) (conf s) (state s) (started s) (carriers s) (carrierByID s) x
    (outstanding s) (nextToken s) (peerMaxUDPPayload s) (sendMaxUDPPayload s)
    (receiveMaxUDPPayload s) (encoder s) (decoder s) (nextKeepalive s) (nextDecodeSweep s)
    (canceled s) (closeDone s) (closeErr s).
Definition set_outstanding x (s : Session) : Session :=
  mkSession (id s) (role s) (conf s) (state s) (started s) (carriers s) (carrierByID s)
    (endpoints s) x (nextToken s) (peerMaxUDPPayload s) (sendMaxUDPPayload s)
    (receiveMaxUDPPayload s) (encoder s) (decoder s) (nextKeepalive s) (nextDecodeSweep s)
    (canceled s) (closeDone s) (closeErr s).
Definition set_nextToken x (s : Session) : Session :=
  mkSession (id s) (role s) (conf s) (state s) (started s) (carriers s) (carrierByID s)
    (endpoints s) (outstanding s) x (peerMaxUDPPayload s) (sendMaxUDPPayload s)
    (receiveMaxUDPPayload s) (encoder s) (decoder s) (nextKeepalive s) (nextDecodeSweep s)
    (canceled s) (closeDone s) (closeErr s).
Definition set_encoder x (s : Session) : Session :=
  mkSession (id s) (role s) (conf s) (state s) (started s) (carriers s) (carrierByID s)
    (endpoints s) (outstanding s) (nextToken s) (peerMaxUDPPayload s) (sendMaxUDPPayload s)
    (receiveMaxUDPPayload s) x (decoder s) (nextKeepalive s) (nextDecodeSweep s) (canceled s)
    (closeDone s) (closeErr s).
Definition set_decoder x (s : Session) : Session :=
  mkSession (id s) (role s) (conf s) (state s) (started s) (carriers s) (carrierByID s)
    (endpoints s) (outstanding s) (nextToken s) (peerMaxUDPPayload s) (sendMaxUDPPayload s)
    (receiveMaxUDPPayload s) (encoder s) x (nextKeepalive s) (nextDecodeSweep s) (canceled s)
    (closeDone s) (closeErr s).
Definition set_nextKeepalive x (s : Session) : Session :=
  mkSession (id s) (role s) (conf s) (state s) (started s) (carriers s) (carrierByID s)
    (endpoints s) (outstanding s) (nextToken s) (peerMaxUDPPayload s) (sendMaxUDPPayload s)
    (receiveMaxUDPPayload s) (encoder s) (decoder s) x (nextDecodeSweep s) (canceled s)
    (closeDone s) (closeErr s).
Definition set_nextDecodeSweep x (s : Session) : Session :=
  mkSession (id s) (role s) (conf s) (state s) (started s) (carriers s) (carrierByID s)
    (endpoints s) (outstanding s) (nextToken s) (peerMaxUDPPayload s) (sendMaxUDPPayload s)
    (receiveMaxUDPPayload s) (encoder s) (decoder s) (nextKeepalive s) x (canceled s)
    (closeDone s) (closeErr s).

(** [carrier := s.carrierByID[pathID]; carrier != nil]. *)
Definition carrierAt (pathID : bytes) (s : Session) : option carrierState :=
  match carrierByID s !! pathID with Some i => carriers s !! i | None => None end.

(** An update through the pointer [s.carrierByID[pathID]], nothing when it is nil. *)
Definition update_carrier (pathID : bytes) (f : carrierState -> carrierState) (s : Session) : Session :=
  match carrierByID s !! pathID with
  | Some i => set_carriers (alter f i (carriers s)) s
  | None => s
  end.

Definition car_set_healthy (b : bool) (c : carrierState) : carrierState :=
  {| car_path := car_path c; attempts := attempts c; acked := acked c; exhausted := exhausted c;
     nextRetry := nextRetry c; car_healthy := b |}.

Definition car_acknowledge (c : carrierState) : carrierState :=
  {| car_path := car_path c; attempts := attempts c; acked := true; exhausted := false;
     nextRetry := None; car_healthy := true |}.

Definition car_exhaust (c : carrierState) : carrierState :=
  {| car_path := car_path c; attempts := attempts c; acked := acked c; exhausted := true;
     nextRetry := None; car_healthy := false |}.

Definition car_retry (n : Z) (at_ : option Z) (c : carrierState) : carrierState :=
  {| car_path := car_path c; attempts := n; acked := acked c; exhausted := exhausted c;
     nextRetry := at_; car_healthy := car_healthy c |}.

Definition ep_set_healthy (b : bool) (e : endpointState) : endpointState :=
  {| ep_key := ep_key e; ep_path := ep_path e; lastActivity := lastActivity e; rtt := rtt e;
     hasRTT := hasRTT e; healthy := b; statistics := statistics e |}.

Definition ep_refresh (path : Path) (counters : option CountersRef) (now : Z) (e : endpointState)
    : endpointState :=
  {| ep_key := ep_key e; ep_path := path; lastActivity := now; rtt := rtt e;
     hasRTT := hasRTT e; healthy := true; statistics := counters |}.

Definition ep_set_rtt (d : Z) (e : endpointState) : endpointState :=
  {| ep_key := ep_key e; ep_path := ep_path e; lastActivity := lastActivity e; rtt := d;
     hasRTT := true; healthy := healthy e; statistics := statistics e |}.

(** ** Identities *)

(** [strconv.FormatUint(n, 10)]: the decimal digits, the least significant last. *)
Fixpoint formatUint (fuel : nat) (n : Z) : bytes :=
  let d := byte_of_Z (48 + n mod 10) in
  match fuel with
  | O => [d]
  | S fuel' => if n <? 10 then [d] else formatUint fuel' (n / 10) ++ [d]
  end.

(** A [uint64] has at most twenty digits. *)
Definition FormatUint (n : Z) : bytes := formatUint 19 n.

Definition NUL : byte := Byte.x00.

(** [strings.Join(parts, sep)] for a separator of one byte. *)
Fixpoint join (sep : byte) (parts : list bytes) : bytes :=
  match parts with
  | [] => []
  | [p] => p
  | p :: rest => p ++ sep :: join sep rest
  end.

Definition replyIdentityUnchecked (path : option Path) : result SessionError bytes :=
  match path with
  | None => Err ErrInvalidReplyPath
  | Some p =>
      if len (PathID p) =? 0 then Err ErrInvalidReplyPath else
      match LocalAddr p, RemoteAddr p with
      | Some local, Some remote =>
          Ok (join NUL [PathID p; FormatUint (Generation p); Network local; String local;
                        Network remote; String remote])
      | _, _ => Err ErrInvalidReplyPath
      end
  end.

Definition initialToken (id : SessionID) : Z :=
  let t := be_get (take 8 (sha256 id)) in if t =? 0 then 1 else t.

Definition retryJitter (pathID : bytes) (attempt : Z) (s : Session) : Z :=
  let limit := handshakeJitterLimit (conf s) in
  if limit <=? 0 then 0 else
  be_get (take 8 (sha256 (id s ++ pathID ++ be_put 8 (u64 attempt)))) mod (limit + 1).

(** The order of Go strings. *)
Fixpoint bytes_leb (a b : bytes) : bool :=
  match a, b with
  | [], _ => true
  | _, [] => false
  | x :: a', y :: b' =>
      (Z_of_byte x <? Z_of_byte y) || ((Z_of_byte x =? Z_of_byte y) && bytes_leb a' b')
  end.

Definition bytes_le (a b : bytes) : Prop := bytes_leb a b = true.
#[global] Instance bytes_le_dec : RelDecision bytes_le.
Proof. intros a b. unfold bytes_le. apply _. Defined.

(** [sort.Strings]. *)
Definition sortStrings (keys : list bytes) : list bytes := merge_sort bytes_le keys.

(** ** Construction *)

(** The loop of [NewInitiator] over the carriers, [None] for a nil path. *)
Fixpoint addCarriers (paths : list (option Path)) (states : list carrierState)
    (byID : gmap bytes nat) : result SessionError (list carrierState * gmap bytes nat) :=
  match paths with
  | [] => Ok (states, byID)
  | None :: _ => Err ErrInvalidConfig
  | Some path :: rest =>
      if len (PathID path) =? 0 then Err ErrInvalidConfig else
      match byID !! PathID path with
      | Some _ => Err ErrInvalidConfig
      | None =>
          let c := {| car_path := path; attempts := 0; acked := false; exhausted := false;
                      nextRetry := None; car_healthy := true |} in
          addCarriers rest (states ++ [c]) (<[PathID path := length states]> byID)
      end
  end.

Definition newSession (id : SessionID) (role : Role) (conf : settings) (started : bool)
    (carriers : list carrierState) (byID : gmap bytes nat) : Session := {|
  id := id; role := role; conf := conf; state := StateHandshaking; started := started;
  carriers := carriers; carrierByID := byID; endpoints := ∅; outstanding := ∅;
  nextToken := initialToken id; peerMaxUDPPayload := 0; sendMaxUDPPayload := 0;
  receiveMaxUDPPayload := 0; encoder := None; decoder := None; nextKeepalive := None;
  nextDecodeSweep := None; canceled := false; closeDone := false; closeErr := [] |}.

Definition NewInitiator (id : SessionID) (config : Config) (paths : list (option Path))
    : result SessionError Session :=
  let? conf := normalizeConfig config in
  fail bool_decide (id = zeroSessionID) with ErrInvalidConfig in
  fail (len paths =? 0) || (maxPaths <? len paths) with ErrInvalidConfig in
  let? ' (states, byID) := addCarriers paths [] ∅ in
  Ok (newSession id RoleInitiator conf false states byID).

(** ** Endpoints *)

Definition expired (now : Z) (s : Session) (e : endpointState) : bool :=
  negb (now <? lastActivity e + endpointTTL (conf s)).

(** One round of the loop of [sweepEndpointsLocked]. *)
Definition sweepEndpoint (now : Z) (entry : bytes * endpointState) (acc : Z * Session) : Z * Session :=
  let '(key, endpoint) := entry in
  let '(n, s) := acc in
  if negb (expired now s endpoint) then (n, s) else
  let s1 := set_endpoints (delete key (endpoints s)) s in
  (n + 1,
   match role s1 with
   | RoleListener => set_outstanding (delete key (outstanding s1)) s1
   | RoleInitiator => update_carrier (PathID (ep_path endpoint)) (car_set_healthy false) s1
   end).

Definition sweepEndpointsLocked (now : Z) (s : Session) : Z * Session :=
  foldr (sweepEndpoint now) (0, s) (map_to_list (endpoints s)).

Definition markClosedLocked (s : Session) : Session :=
  mkSession (id s) (role s) (conf s) StateClosed (started s)
    ((fun c => car_retry (attempts c) None c) <$> carriers s) (carrierByID s) ∅ ∅ (nextToken s)
    (peerMaxUDPPayload s) (sendMaxUDPPayload s) (receiveMaxUDPPayload s) (encoder s) (decoder s)
    None None true (closeDone s) (closeErr s).

Definition receiveEndpointLocked (key : bytes) (size : Z) (s : Session)
    (reg : option ListenerPathCounters) : option ListenerPathCounters :=
  match endpoints s !! key with
  | Some e =>
      match statistics e, reg with
      | Some r, Some c => Some (count_at r (ReceiveAccepted (enabled c) size) c)
      | _, _ => reg
      end
  | None => reg
  end.

(** ** Handshake *)

Definition validateHandshake (h : Wire.Handshake) (s : Session) : option SessionError :=
  if negb (Wire.Handshake_DataShards h =? Fec.DataShards (params (conf s)))
     || negb (Wire.Handshake_ParityShards h =? Fec.ParityShards (params (conf s)))
  then Some ErrHandshakeIncompatible else
  if (Wire.Handshake_MaxUDPPayload h <? Wire.MinUDPPayload)
     || (Wire.MaxUDPPayload <? Wire.Handshake_MaxUDPPayload h)
  then Some ErrHandshakeIncompatible else None.

Definition validateFrozenHandshakeLocked (h : Wire.Handshake) (s : Session) : option SessionError :=
  match validateHandshake h s with
  | Some e => Some e
  | None => if negb (Wire.Handshake_MaxUDPPayload h =? peerMaxUDPPayload s)
            then Some ErrHandshakeIncompatible else None
  end.

Definition negotiatedBudget (conf : settings) (h : Wire.Handshake) : Fec.Budget := {|
  Fec.MaxUDPPayload := Z.min (localMaxUDPPayload conf) (Wire.Handshake_MaxUDPPayload h);
  Fec.DataShardWireOverhead := Wire.DataShardOverhead;
  Fec.MaxDatagramSize := maxDatagramSize conf |}.

Definition establishLocked `{Fec.ReedSolomon} (h : Wire.Handshake) (now : Z) (s : Session)
    : option SessionError * Session :=
  match validateHandshake h s with
  | Some e => (Some e, s)
  | None =>
      let negotiated := Z.min (localMaxUDPPayload (conf s)) (Wire.Handshake_MaxUDPPayload h) in
      let budget := negotiatedBudget (conf s) h in
      match Fec.NewEncoder (params (conf s)) budget with
      | Err _ => (Some ErrHandshakeIncompatible, s)
      | Ok enc =>
          match FecDecoder.NewDecoder {|
            FecDecoder.cfg_Params := params (conf s); FecDecoder.cfg_Budget := budget;
            FecDecoder.cfg_DecodeTimeout := decodeTimeout (conf s);
            FecDecoder.cfg_CompletionTTL := completionTTL (conf s);
            FecDecoder.cfg_MaxPendingBlocks := maxPendingFECBlocks (conf s);
            FecDecoder.cfg_MaxCompletedBlocks := maxCompletedFECBlocks (conf s);
            FecDecoder.cfg_Statistics := fecStatistics (conf s);
            FecDecoder.cfg_ReplayWindow := Some {| FecReplay.cfg_SessionID := id s |} |} with
          | Err _ => (Some ErrHandshakeIncompatible, s)
          | Ok dec =>
              (None, mkSession (id s) (role s) (conf s) StateEstablished (started s) (carriers s)
                 (carrierByID s) (endpoints s) (outstanding s) (nextToken s)
                 (Wire.Handshake_MaxUDPPayload h) negotiated negotiated (Some enc) (Some dec)
                 (Some (now + keepaliveInterval (conf s))) (Some (now + decodeTimeout (conf s)))
                 (canceled s) (closeDone s) (closeErr s))
          end
      end
  end.

Definition planHello (now : Z) (s : Session) (c : carrierState)
    : result Wire.WireError (sendPlan * carrierState) :=
  let? m := Wire.NewHello (id s) (u8 (Fec.DataShards (params (conf s))))
              (u8 (Fec.ParityShards (params (conf s)))) (u16 (localMaxUDPPayload (conf s))) in
  let n := attempts c + 1 in
  Ok (reply m (car_path c) (localMaxUDPPayload (conf s)),
      car_retry n (Some (now + (handshakeRetryInterval (conf s) + retryJitter (PathID (car_path c)) n s))) c).

Definition allCarriersExhaustedLocked (s : Session) : bool :=
  forallb (fun c => negb (acked c) && exhausted c) (carriers s).

Definition helloAck (s : Session) : result Wire.WireError Wire.Message :=
  Wire.NewHelloAck (id s) (u8 (Fec.DataShards (params (conf s))))
    (u8 (Fec.ParityShards (params (conf s)))) (u16 (localMaxUDPPayload (conf s))).

(** ** Sections that read the network *)

Section Methods.
Context {Env : Type} `{Sockets Env} `{Fec.ReedSolomon}.
Implicit Types (w : Env) (s : Session).

Definition canLearnEndpointLocked (w : Env) (key : bytes) (path : Path) (now : Z) (s : Session)
    : option SessionError * Session :=
  let s1 := snd (sweepEndpointsLocked now s) in
  match endpoints s1 !! key with
  | Some _ => (None, s1)
  | None =>
      let s2 := match role s1 with
                | RoleInitiator =>
                    set_endpoints (filter (fun '(_, e) => ~ (PathID (ep_path e) = PathID path
                                             /\ Available w (ep_path e) = false)) (endpoints s1)) s1
                | RoleListener => s1
                end in
      if maxEndpoints (conf s2) <=? Z.of_nat (size (endpoints s2))
      then (Some ErrEndpointLimit, s2) else (None, s2)
  end.

(** What [learnEndpointLocked] returns and the state it leaves. *)
Record Learned := {
  added : bool; refreshed : bool; learn_err : option SessionError;
  learned_s : Session; learned_reg : option ListenerPathCounters }.

Definition learnEndpointLocked (w : Env) (key : bytes) (path : Path) (now : Z) (s : Session)
    (reg : option ListenerPathCounters) : Learned :=
  match canLearnEndpointLocked w key path now s with
  | (Some e, s1) =>
      {| added := false; refreshed := false; learn_err := Some e; learned_s := s1; learned_reg := reg |}
  | (None, s1) =>
      let '(counters, reg1) :=
        match role s1 with
        | RoleInitiator => (None, reg)
        | RoleListener =>
            match endpoints s1 !! key, reg with
            | Some e, _ => (statistics e, reg)
            | None, Some c => let '(r, c') := Learn key c in (Some r, Some c')
            | None, None => (None, None)
            end
        end in
      let path1 := match role s1 with
                   | RoleListener => WithReplyStatistics path counters
                   | RoleInitiator => path
                   end in
      let '(isNew, endpoint) :=
        match endpoints s1 !! key with
        | Some e => (false, ep_refresh path1 counters now e)
        | None => (true, {| ep_key := key; ep_path := path1; lastActivity := now; rtt := 0;
                            hasRTT := false; healthy := true; statistics := counters |})
        end in
      {| added := isNew; refreshed := negb isNew; learn_err := None;
         learned_s := update_carrier (PathID path1) (car_set_healthy true)
                        (set_endpoints (<[key := endpoint]> (endpoints s1)) s1);
         learned_reg := reg1 |}
  end.

(** [replyIdentity]: the identity of a path that is available. *)
Definition replyIdentity (w : Env) (path : option Path) : result SessionError bytes :=
  let? key := replyIdentityUnchecked path in
  fail negb (match path with Some p => Available w p | None => false end) with ErrInvalidReplyPath in
  Ok key.

(** The carriers, or the unexpired endpoints in key order, that [usable] admits. *)
Definition carrierPaths (w : Env) (usable : carrierState -> bool) (s : Session) : list Path :=
  car_path <$> filter (fun c => usable c && Available w (car_path c) = true) (carriers s).

Definition endpointPaths (w : Env) (now : Z) (usable : endpointState -> bool) (s : Session) : list Path :=
  let keys := (map_to_list (filter (fun '(_, e) =>
                 negb (expired now s e) && usable e && Available w (ep_path e) = true) (endpoints s))).*1 in
  omap (fun key => ep_path <$> endpoints s !! key) (sortStrings keys).

Definition keepalivePathsLocked (w : Env) (now : Z) (s : Session) : list Path :=
  match role s with
  | RoleInitiator => carrierPaths w (fun _ => true) s
  | RoleListener => endpointPaths w now (fun _ => true) s
  end.

Definition sendPathsLocked (w : Env) (now : Z) (s : Session) : list Path :=
  if negb (bool_decide (state s = StateEstablished)) then [] else
  match role s with
  | RoleInitiator => carrierPaths w car_healthy s
  | RoleListener => endpointPaths w now healthy s
  end.

Definition closePathsLocked (w : Env) (now : Z) (s : Session) : list Path :=
  match role s with
  | RoleInitiator => carrierPaths w (fun _ => true) s
  | RoleListener => endpointPaths w now (fun _ => true) s
  end.

(** ** Probes *)

Definition probeKeyLocked (path : Path) (endpointKey : bytes) (s : Session) : bytes :=
  match role s with RoleInitiator => PathID path | RoleListener => endpointKey end.

(** The paths a listener probes are those of its endpoints, all of them reply paths. *)
Definition probePathKeyLocked (w : Env) (path : Path) (s : Session) : bytes :=
  match role s with
  | RoleInitiator => PathID path
  | RoleListener => match replyIdentity w (Some path) with Ok key => key | Err _ => PathID path end
  end.

(** The token is taken even when no plan results. *)
Definition planPingLocked (w : Env) (path : Path) (now : Z) (s : Session)
    : result Wire.WireError sendPlan * Session :=
  let tk := nextToken s in
  let nxt := u64 (tk + 1) in
  let s1 := set_nextToken (if nxt =? 0 then 1 else nxt) s in
  let ts := u64 now in
  match Wire.NewPing (id s) tk ts with
  | Err e => (Err e, s1)
  | Ok m =>
      let key := probePathKeyLocked w path s1 in
      let p := {| token := tk; timestamp := ts; sentAt := now |} in
      (Ok {| message := m; plan_path := path; budget := sendMaxUDPPayload s1;
             probeKey := Some key; probe := p |},
       set_outstanding (<[key := p]> (outstanding s1)) s1)
  end.

(** ** Sending *)

Record SendAttempt := { Type_ : Z; at_PathID : bytes; Err_ : option SessionError }.

(** [isPathHealthFailure]; the wire codec's errors are none of the transport's. *)
Definition isPathHealthFailure (err : option SessionError) : bool :=
  match err with
  | Some (SendErr e) =>
      negb (Is_Canceled e || Is_DeadlineExceeded e)
      && (As_PathError e || Is_ErrPathUnavailable e || Is_ErrPathMTUExceeded e)
  | _ => false
  end.

Definition setPathHealthForPath (path : Path) (b : bool) (s : Session) : Session :=
  match role s with
  | RoleInitiator => update_carrier (PathID path) (car_set_healthy b) s
  | RoleListener =>
      match replyIdentityUnchecked (Some path) with
      | Err _ => s
      | Ok key => set_endpoints (alter (ep_set_healthy b) key (endpoints s)) s
      end
  end.

(** The state after one plan was tried with the result [err]. *)
Definition afterSend (plan : sendPlan) (err : option SessionError) (cleanFailedProbes : bool)
    (s : Session) : Session :=
  let s1 :=
    match probeKey plan, err with
    | Some key, Some _ =>
        if cleanFailedProbes then
          match outstanding s !! key with
          | Some current =>
              if token current =? token (probe plan)
              then set_outstanding (delete key (outstanding s)) s else s
          | None => s
          end
        else s
    | _, _ => s
    end in
  if isPathHealthFailure err then setPathHealthForPath (plan_path plan) false s1 else s1.

Definition sendOne (ctx : Context) (withLifetime : bool) (plan : sendPlan) (s : Session) (w : Env)
    : option SessionError * Env :=
  match Wire.AppendAuthenticated [] (message plan) (psk (conf s)) (budget plan) with
  | (_, Some e) => (Some (WireErr e), w)
  | (packet, None) =>
      let ops := {| caller := ctx; lifetime := if withLifetime then Some (canceled s) else None |} in
      let '(err, w1) := Send w ops (plan_path plan) packet in
      (SendErr <$> err, w1)
  end.

Fixpoint execute (ctx : Context) (withLifetime : bool) (plans : list sendPlan) (s : Session) (w : Env)
    : list SendAttempt * Session * Env :=
  match plans with
  | [] => ([], s, w)
  | plan :: rest =>
      let '(err, w1) := sendOne ctx withLifetime plan s w in
      let attempt := {| Type_ := Wire.Header_Type (Wire.Message_Header (message plan));
                        at_PathID := PathID (plan_path plan); Err_ := err |} in
      let '(attempts, s1, w2) := execute ctx withLifetime rest (afterSend plan err withLifetime s) w1 in
      (attempt :: attempts, s1, w2)
  end.

Definition executePlans (ctx : Context) := execute ctx true.
Definition executePlansWithoutLifetime (ctx : Context) := execute ctx false.

(** [if ctx == nil { return invalidConfig }; if err := ctx.Err(); err != nil { return err }]. *)
Definition checkContext (ctx : option Context) (w : Env) : result SessionError Context :=
  match ctx with
  | None => Err ErrInvalidConfig
  | Some c => match ctxErr w c with Some e => Err (SendErr e) | None => Ok c end
  end.

(** ** Start *)

(** The loop of [Start]; an error stops it with the carriers already planned. *)
Fixpoint planHellos (now : Z) (s : Session) (cs : list carrierState)
    : result Wire.WireError (list sendPlan) * list carrierState :=
  match cs with
  | [] => (Ok [], [])
  | c :: rest =>
      match planHello now s c with
      | Err e => (Err e, cs)
      | Ok (plan, c') =>
          let '(r, rest') := planHellos now s rest in
          (let? plans := r in Ok (plan :: plans), c' :: rest')
      end
  end.

Definition Start (ctx : option Context) (s : Session) (w : Env)
    : result SessionError (list SendAttempt) * Session * Env :=
  match checkContext ctx w with
  | Err e => (Err e, s, w)
  | Ok c =>
      let '(now, w1) := Now w in
      match state s with
      | StateClosed => (Err ErrClosed, s, w1)
      | StateHandshaking =>
          if bool_decide (role s = RoleListener) then (Err ErrUnexpectedPacket, s, w1) else
          if started s then (Ok [], s, w1) else
          let s1 := set_started true s in
          let '(r, cs) := planHellos now s1 (carriers s1) in
          let s2 := set_carriers cs s1 in
          match r with
          | Err e => (Err (WireErr e), s2, w1)
          | Ok plans => let '(attempts, s3, w2) := executePlans c plans s2 w1 in (Ok attempts, s3, w2)
          end
      | _ => (Err ErrUnexpectedPacket, s, w1)
      end
  end.

(** ** Receiving *)

Record HandleResult := {
  Message : Wire.Message;
  Created : bool;
  Established : bool;
  EndpointAdded : bool;
  EndpointRefreshed : bool;
  RTTUpdated : bool;
  RTT : Z;
  Datagram : option bytes;
  Response : option SendAttempt }.

Definition received (m : Wire.Message) : HandleResult := {|
  Message := m; Created := false; Established := false; EndpointAdded := false;
  EndpointRefreshed := false; RTTUpdated := false; RTT := 0; Datagram := None; Response := None |}.

Definition res_established (r : HandleResult) : HandleResult := {|
  Message := Message r; Created := Created r; Established := true; EndpointAdded := EndpointAdded r;
  EndpointRefreshed := EndpointRefreshed r; RTTUpdated := RTTUpdated r; RTT := RTT r;
  Datagram := Datagram r; Response := Response r |}.
Definition res_learned (l : Learned) (r : HandleResult) : HandleResult := {|
  Message := Message r; Created := Created r; Established := Established r; EndpointAdded := added l;
  EndpointRefreshed := refreshed l; RTTUpdated := RTTUpdated r; RTT := RTT r;
  Datagram := Datagram r; Response := Response r |}.
Definition res_datagram (d : option bytes) (r : HandleResult) : HandleResult := {|
  Message := Message r; Created := Created r; Established := Established r;
  EndpointAdded := EndpointAdded r; EndpointRefreshed := EndpointRefreshed r;
  RTTUpdated := RTTUpdated r; RTT := RTT r; Datagram := d; Response := Response r |}.
Definition res_rtt (d : Z) (r : HandleResult) : HandleResult := {|
  Message := Message r; Created := Created r; Established := Established r;
  EndpointAdded := EndpointAdded r; EndpointRefreshed := EndpointRefreshed r;
  RTTUpdated := true; RTT := d; Datagram := Datagram r; Response := Response r |}.
Definition res_response (a : option SendAttempt) (r : HandleResult) : HandleResult := {|
  Message := Message r; Created := Created r; Established := Established r;
  EndpointAdded := EndpointAdded r; EndpointRefreshed := EndpointRefreshed r;
  RTTUpdated := RTTUpdated r; RTT := RTT r; Datagram := Datagram r; Response := a |}.

Record ReceivedPacket := { Payload : bytes; Reply : option Path }.

(** What a branch of the switch leaves: [br_done] is a branch that returns by itself,
    [br_notify] one that ends the Session. *)
Record Branch := {
  br_s : Session; br_reg : option ListenerPathCounters; br_w : Env; br_result : HandleResult;
  br_err : option SessionError; br_response : option sendPlan; br_notify : bool; br_done : bool }.

Definition br (s : Session) (reg : option ListenerPathCounters) (w : Env) (r : HandleResult)
    (err : option SessionError) : Branch := {|
  br_s := s; br_reg := reg; br_w := w; br_result := r; br_err := err; br_response := None;
  br_notify := false; br_done := false |}.

Definition with_response (p : option sendPlan) (b : Branch) : Branch := {|
  br_s := br_s b; br_reg := br_reg b; br_w := br_w b; br_result := br_result b; br_err := br_err b;
  br_response := p; br_notify := br_notify b; br_done := br_done b |}.

Section branches.
Variables (key : bytes) (path : Path) (now : Z) (r0 : HandleResult).
Variables (s : Session) (reg : option ListenerPathCounters) (w : Env).

(** The path an answer takes: that of the endpoint just learned. *)
Definition learnedPath (s : Session) : Path :=
  match endpoints s !! key with Some e => ep_path e | None => path end.

Definition handleHello (h : Wire.Handshake) : Branch :=
  if negb (bool_decide (role s = RoleListener)) || negb (bool_decide (state s = StateEstablished))
  then br s reg w r0 (Some ErrUnexpectedPacket) else
  match validateFrozenHandshakeLocked h s with
  | Some e => br s reg w r0 (Some e)
  | None =>
      let l := learnEndpointLocked w key path now s reg in
      let r1 := res_learned l r0 in
      match learn_err l with
      | Some e => br (learned_s l) (learned_reg l) w r1 (Some e)
      | None =>
          match helloAck (learned_s l) with
          | Err e => br (learned_s l) (learned_reg l) w r1 (Some (WireErr e))
          | Ok ack =>
              with_response (Some (reply ack (learnedPath (learned_s l)) (sendMaxUDPPayload (learned_s l))))
                (br (learned_s l) (learned_reg l) w r1 None)
          end
      end
  end.

Definition handleHelloAck (h : Wire.Handshake) : Branch :=
  if negb (bool_decide (role s = RoleInitiator))
     || (negb (bool_decide (state s = StateHandshaking)) && negb (bool_decide (state s = StateEstablished)))
  then br s reg w r0 (Some ErrUnexpectedPacket) else
  let '(err, r1, s1) :=
    if bool_decide (state s = StateHandshaking) then
      match establishLocked h now s with
      | (Some e, s1) => (Some e, r0, s1)
      | (None, s1) => (None, res_established r0, s1)
      end
    else (validateFrozenHandshakeLocked h s, r0, s) in
  match err with
  | Some e => br s1 reg w r1 (Some e)
  | None =>
      let l := learnEndpointLocked w key path now s1 reg in
      let r2 := res_learned l r1 in
      match learn_err l with
      | Some e => br (learned_s l) (learned_reg l) w r2 (Some e)
      | None => br (update_carrier (PathID path) car_acknowledge (learned_s l)) (learned_reg l) w r2 None
      end
  end.

Definition incoming (d : Wire.DataShard) : FecDecoder.IncomingShard := {|
  FecDecoder.Key := {| FecDecoder.key_SessionID := id s; FecDecoder.key_PacketID := Wire.PacketID d |};
  FecDecoder.ShardParams := params (conf s);
  FecDecoder.Index := Wire.ShardIndex d;
  FecDecoder.DatagramLength := Wire.OriginalLength d;
  FecDecoder.Payload := Wire.Payload d |}.

(** The decoder reads its own clock; a nil decoder panics, which [Established] excludes. *)
Definition handleDataShard (d : Wire.DataShard) : Branch :=
  if negb (bool_decide (state s = StateEstablished)) then br s reg w r0 (Some ErrNotEstablished) else
  if negb (Wire.DataShards d =? Fec.DataShards (params (conf s)))
     || negb (Wire.ParityShards d =? Fec.ParityShards (params (conf s)))
  then br s reg w r0 (Some ErrHandshakeIncompatible) else
  match canLearnEndpointLocked w key path now s with
  | (Some e, s1) => br s1 reg w r0 (Some e)
  | (None, s1) =>
      match decoder s1 with
      | None => br s1 reg w r0 (Some ErrClosed)
      | Some dec =>
          let '(at_, w1) := Now w in
          let '(decoded, dec') := FecDecoder.AddVerifiedShard dec at_ (incoming d) in
          let s2 := set_decoder (Some dec') s1 in
          match decoded with
          | Err e => br s2 reg w1 r0 (Some (FecErr e))
          | Ok res =>
              if bool_decide (FecDecoder.outcome res = FecDecoder.OutcomeTooOld)
              then {| br_s := s2; br_reg := reg; br_w := w1; br_result := r0; br_err := None;
                      br_response := None; br_notify := false; br_done := true |}
              else
              let l := learnEndpointLocked w1 key path now s2 reg in
              let r1 := res_learned l r0 in
              br (learned_s l) (learned_reg l) w1
                (if negb (bool_decide (is_Some (learn_err l)))
                    && bool_decide (FecDecoder.outcome res = FecDecoder.OutcomeComplete)
                 then res_datagram (FecDecoder.Datagram res) r1 else r1)
                (learn_err l)
          end
      end
  end.

Definition handlePing (p : Wire.Probe) : Branch :=
  if negb (bool_decide (state s = StateEstablished)) then br s reg w r0 (Some ErrNotEstablished) else
  let l := learnEndpointLocked w key path now s reg in
  let r1 := res_learned l r0 in
  match learn_err l with
  | Some e => br (learned_s l) (learned_reg l) w r1 (Some e)
  | None =>
      match Wire.NewPong (id s) (Wire.Token p) (Wire.Timestamp p) with
      | Err e => br (learned_s l) (learned_reg l) w r1 (Some (WireErr e))
      | Ok pong =>
          with_response (Some (reply pong (learnedPath (learned_s l)) (sendMaxUDPPayload (learned_s l))))
            (br (learned_s l) (learned_reg l) w r1 None)
      end
  end.

Definition handlePong (p : Wire.Probe) : Branch :=
  if negb (bool_decide (state s = StateEstablished)) then br s reg w r0 (Some ErrNotEstablished) else
  let pkey := probeKeyLocked path key s in
  match outstanding s !! pkey with
  | None => br s reg w r0 (Some ErrProbeMismatch)
  | Some pr =>
      if negb (token pr =? Wire.Token p) || negb (timestamp pr =? Wire.Timestamp p) || (now <? sentAt pr)
      then br s reg w r0 (Some ErrProbeMismatch) else
      match canLearnEndpointLocked w key path now s with
      | (Some e, s1) => br s1 reg w r0 (Some e)
      | (None, s1) =>
          let s2 := set_outstanding (delete pkey (outstanding s1)) s1 in
          let l := learnEndpointLocked w key path now s2 reg in
          let r1 := res_learned l r0 in
          match learn_err l with
          | Some e => br (learned_s l) (learned_reg l) w r1 (Some e)
          | None =>
              let d := now - sentAt pr in
              br (set_endpoints (alter (ep_set_rtt d) key (endpoints (learned_s l))) (learned_s l))
                (learned_reg l) w (res_rtt d r1) None
          end
      end
  end.

Definition handleClose (size : Z) : Branch :=
  let reg1 := receiveEndpointLocked key size s reg in
  let s1 := markClosedLocked (set_encoder None (set_decoder None s)) in
  {| br_s := s1; br_reg := reg1; br_w := w; br_result := r0; br_err := None; br_response := None;
     br_notify := true; br_done := false |}.
End branches.

(** The switch on the type of the packet. *)
Definition dispatch (key : bytes) (path : Path) (now : Z) (size : Z) (m : Wire.Message)
    (s : Session) (reg : option ListenerPathCounters) (w : Env) : Branch :=
  let r0 := received m in
  let t := Wire.Header_Type (Wire.Message_Header m) in
  if t =? Wire.TypeHello then handleHello key path now r0 s reg w (Wire.Message_Handshake m)
  else if t =? Wire.TypeHelloAck then handleHelloAck key path now r0 s reg w (Wire.Message_Handshake m)
  else if t =? Wire.TypeDataShard then handleDataShard key path now r0 s reg w (Wire.Message_DataShard m)
  else if t =? Wire.TypePing then handlePing key path now r0 s reg w (Wire.Message_Probe m)
  else if t =? Wire.TypePong then handlePong key path now r0 s reg w (Wire.Message_Probe m)
  else if t =? Wire.TypeClose then handleClose key r0 s reg w size
  else br s reg w r0 (Some ErrUnexpectedPacket).

(** What a received packet does: the result and the error returned, the state, and
    whether [notifyClosed] ran. *)
Record Handled := {
  hd_result : HandleResult; hd_err : option SessionError; hd_s : Session;
  hd_reg : option ListenerPathCounters; hd_w : Env; hd_notify : bool }.

Definition refused (r : HandleResult) (e : SessionError) (s : Session)
    (reg : option ListenerPathCounters) (w : Env) : Handled :=
  {| hd_result := r; hd_err := Some e; hd_s := s; hd_reg := reg; hd_w := w; hd_notify := false |}.

(** The section under the mutex, before the response is sent. *)
Definition handleLocked (key : bytes) (path : Path) (now : Z) (packet : ReceivedPacket)
    (m : Wire.Message) (s : Session) (reg : option ListenerPathCounters) (w : Env) : Branch :=
  let r0 := received m in
  match state s with
  | StateClosed => br s reg w r0 (Some ErrClosed)
  | _ =>
      if bool_decide (role s = RoleInitiator) && bool_decide (carrierByID s !! PathID path = None)
      then br s reg w r0 (Some ErrUnknownPath) else
      if bool_decide (state s = StateEstablished) && (receiveMaxUDPPayload s <? len (Payload packet))
      then br s reg w r0 (Some ErrPacketOverBudget) else
      let b := dispatch key path now (len (Payload packet)) m s reg w in
      match br_err b with
      | Some _ => b
      | None =>
          if br_done b then b else
          {| br_s := br_s b;
             br_reg := receiveEndpointLocked key (len (Payload packet)) (br_s b) (br_reg b);
             br_w := br_w b; br_result := br_result b; br_err := None;
             br_response := br_response b; br_notify := br_notify b; br_done := false |}
      end
  end.

(** [known] is the identity a Listener computed for the packet, [None] for the empty one. *)
Definition handleAuthenticatedWithIdentity (ctx : Context) (packet : ReceivedPacket)
    (m : Wire.Message) (known : option bytes) (s : Session) (reg : option ListenerPathCounters)
    (w : Env) : Handled :=
  let r0 := received m in
  if negb (bool_decide (Wire.Header_SessionID (Wire.Message_Header m) = id s))
  then refused r0 ErrUnknownSession s reg w else
  match match known with Some key => Ok key | None => replyIdentityUnchecked (Reply packet) end,
        Reply packet with
  | Ok key, Some path =>
      if negb (Available w path) then refused r0 ErrInvalidReplyPath s reg w else
      let '(now, w1) := Now w in
      let b := handleLocked key path now packet m s reg w1 in
      match br_err b, br_response b with
      | None, Some plan =>
          let '(attempts, s', w') := executePlans ctx [plan] (br_s b) (br_w b) in
          {| hd_result := res_response (head attempts) (br_result b); hd_err := None; hd_s := s';
             hd_reg := br_reg b; hd_w := w'; hd_notify := br_notify b |}
      | err, _ =>
          {| hd_result := br_result b; hd_err := err; hd_s := br_s b; hd_reg := br_reg b;
             hd_w := br_w b; hd_notify := br_notify b |}
      end
  | _, _ => refused r0 ErrInvalidReplyPath s reg w
  end.

(** The zero [HandleResult] of a packet that was not decoded has no message. *)
Definition HandlePacket (ctx : option Context) (packet : ReceivedPacket) (s : Session)
    (reg : option ListenerPathCounters) (w : Env) : Handled :=
  let r0 := received (Wire.mkMessage 0 zeroSessionID) in
  match checkContext ctx w with
  | Err e => refused r0 e s reg w
  | Ok c =>
      match Wire.DecodeAuthenticated (Payload packet) (psk (conf s)) (localMaxUDPPayload (conf s)) with
      | Err e => refused r0 (WireErr e) s reg w
      | Ok m => handleAuthenticatedWithIdentity c packet m None s reg w
      end
  end.

(** ** Deadlines *)

Record AdvanceResult := {
  Sends : list SendAttempt; ExpiredEndpoints : Z; ExpiredFEC : FecDecoder.ExpireStats;
  HandshakeFailed : bool }.

Definition noExpiry : FecDecoder.ExpireStats :=
  {| FecDecoder.exp_PendingBlocks := 0; FecDecoder.exp_CompletedBlocks := 0 |}.

(** [!t.IsZero() && !now.Before(t)]. *)
Definition due (t : option Z) (now : Z) : bool :=
  match t with Some d => negb (now <? d) | None => false end.

(** The loop over the carriers. *)
Fixpoint retryHellos (now : Z) (s : Session) (cs : list carrierState)
    : result Wire.WireError (list sendPlan) * list carrierState :=
  match cs with
  | [] => (Ok [], [])
  | c :: rest =>
      if acked c || exhausted c || negb (due (nextRetry c) now) then
        let '(r, rest') := retryHellos now s rest in (r, c :: rest')
      else if maxHandshakeAttempts (conf s) <=? attempts c then
        let '(r, rest') := retryHellos now s rest in (r, car_exhaust c :: rest')
      else
        match planHello now s c with
        | Err e => (Err e, cs)
        | Ok (plan, c') =>
            let '(r, rest') := retryHellos now s rest in
            (let? plans := r in Ok (plan :: plans), c' :: rest')
        end
  end.

(** The loop over the paths to probe. *)
Fixpoint planPings (w : Env) (paths : list Path) (now : Z) (s : Session)
    : result Wire.WireError (list sendPlan) * Session :=
  match paths with
  | [] => (Ok [], s)
  | path :: rest =>
      match planPingLocked w path now s with
      | (Err e, s1) => (Err e, s1)
      | (Ok plan, s1) =>
          let '(r, s2) := planPings w rest now s1 in (let? plans := r in Ok (plan :: plans), s2)
      end
  end.

(** The expiry at the start of [Advance]. *)
Definition sweepDecoder (now : Z) (s : Session) (w : Env) : FecDecoder.ExpireStats * Session * Env :=
  match decoder s with
  | Some dec =>
      if due (nextDecodeSweep s) now then
        let '(at_, w1) := Now w in
        let '(stats, dec') := FecDecoder.Sweep dec at_ in
        (stats, set_nextDecodeSweep (Some (now + decodeTimeout (conf s))) (set_decoder (Some dec') s), w1)
      else (noExpiry, s, w)
  | None => (noExpiry, s, w)
  end.

(** The retries, and the failure of the handshake when every carrier is exhausted. *)
Definition advanceHandshake (now : Z) (s : Session)
    : result Wire.WireError (list sendPlan * bool) * Session :=
  if bool_decide (role s = RoleInitiator) && started s then
    let '(r, cs) := retryHellos now s (carriers s) in
    let s1 := set_carriers cs s in
    match r with
    | Err e => (Err e, s1)
    | Ok plans =>
        if bool_decide (state s1 = StateHandshaking) && allCarriersExhaustedLocked s1
        then (Ok (plans, true), set_state StateHandshakeFailed s1)
        else (Ok (plans, false), s1)
    end
  else (Ok ([], false), s).

Definition advanceKeepalive (w : Env) (now : Z) (s : Session)
    : result Wire.WireError (list sendPlan) * Session :=
  if bool_decide (state s = StateEstablished) && due (nextKeepalive s) now then
    let '(r, s1) := planPings w (keepalivePathsLocked w now s) now s in
    match r with
    | Err e => (Err e, s1)
    | Ok plans => (Ok plans, set_nextKeepalive (Some (now + keepaliveInterval (conf s1))) s1)
    end
  else (Ok [], s).

(** The section under the mutex: the plans and the result so far. *)
Definition advanceLocked (now : Z) (s : Session) (w : Env)
    : list sendPlan * AdvanceResult * option SessionError * Session * Env :=
  let '(n, s1) := sweepEndpointsLocked now s in
  let '(stats, s2, w1) := sweepDecoder now s1 w in
  let '(r1, s3) := advanceHandshake now s2 in
  match r1 with
  | Err e => ([], {| Sends := []; ExpiredEndpoints := n; ExpiredFEC := stats;
                     HandshakeFailed := false |}, Some (WireErr e), s3, w1)
  | Ok (hellos, failed) =>
      let res := {| Sends := []; ExpiredEndpoints := n; ExpiredFEC := stats; HandshakeFailed := failed |} in
      let '(r2, s4) := advanceKeepalive w1 now s3 in
      match r2 with
      | Err e => ([], res, Some (WireErr e), s4, w1)
      | Ok pings => (hellos ++ pings, res, None, s4, w1)
      end
  end.

Definition noAdvance : AdvanceResult :=
  {| Sends := []; ExpiredEndpoints := 0; ExpiredFEC := noExpiry; HandshakeFailed := false |}.

Definition Advance (ctx : option Context) (s : Session) (w : Env)
    : AdvanceResult * option SessionError * Session * Env :=
  match checkContext ctx w with
  | Err e => (noAdvance, Some e, s, w)
  | Ok c =>
      let '(now, w1) := Now w in
      match state s with
      | StateClosed => (noAdvance, Some ErrClosed, s, w1)
      | _ =>
          let '(plans, res, err, s1, w2) := advanceLocked now s w1 in
          match err with
          | Some e => (res, Some e, s1, w2)
          | None =>
              let '(attempts, s2, w3) := executePlans c plans s1 w2 in
              ({| Sends := attempts; ExpiredEndpoints := ExpiredEndpoints res;
                  ExpiredFEC := ExpiredFEC res; HandshakeFailed := HandshakeFailed res |},
               if HandshakeFailed res then Some ErrHandshakeFailed else None, s2, w3)
          end
      end
  end.

(** ** Writing *)

Record WriteResult := { wr_PacketID : Z; wr_Send : option BlockSendResult }.

(** The packets of a block, the first error of the wire codec ending the loop. *)
Fixpoint shardPackets (s : Session) (bdg : Z) (block : Fec.EncodedBlock) (index : nat)
    (shards : list bytes) : result Wire.WireError (list bytes) :=
  match shards with
  | [] => Ok []
  | shard :: rest =>
      let? m := Wire.NewDataShard (id s) (Fec.PacketID block)
                  (u8 (Fec.DataShards (Fec.BlockParams block)))
                  (u8 (Fec.ParityShards (Fec.BlockParams block)))
                  (u8 (Z.of_nat index)) (u32 (Fec.OriginalLength block)) shard in
      match Wire.AppendAuthenticated [] m (psk (conf s)) bdg with
      | (_, Some e) => Err e
      | (packet, None) => let? packets := shardPackets s bdg block (S index) rest in Ok (packet :: packets)
      end
  end.

Definition recordBlockPathFailures (r : BlockSendResult) (ps : list Path) (s : Session) : Session :=
  foldl (fun s a =>
    if isPathHealthFailure (SendErr <$> att_Err a) && (0 <=? PathIndex a) && (PathIndex a <? len ps)
    then match ps !! Z.to_nat (PathIndex a) with
         | Some p => setPathHealthForPath p false s
         | None => s
         end
    else s) s (Attempts r).

(** [None] is a panic of [SendBlock].  The encoder has its own mutex; its call is
    placed in the section that takes it. *)
Definition WritePacket (ctx : option Context) (payload : bytes) (s : Session) (w : Env)
    : option (WriteResult * option SessionError * Session * Env) :=
  let none := {| wr_PacketID := 0; wr_Send := None |} in
  match checkContext ctx w with
  | Err e => Some (none, Some e, s, w)
  | Ok c =>
      let '(now, w1) := Now w in
      if bool_decide (state s = StateClosed) then Some (none, Some ErrClosed, s, w1) else
      match bool_decide (state s = StateEstablished), encoder s with
      | true, Some enc =>
          let s1 := snd (sweepEndpointsLocked now s) in
          let ps := sendPathsLocked w1 now s1 in
          let bdg := sendMaxUDPPayload s1 in
          let '(r, enc') := Fec.Encode enc payload in
          let s2 := set_encoder (Some enc') s1 in
          match r with
          | Err e => Some (none, Some (FecErr e), s2, w1)
          | Ok block =>
              match shardPackets s2 bdg block 0 (Fec.Shards block) with
              | Err e => Some ({| wr_PacketID := Fec.PacketID block; wr_Send := None |},
                               Some (WireErr e), s2, w1)
              | Ok packets =>
                  let ops := {| caller := c; lifetime := Some (canceled s2) |} in
                  match SendBlock ops (Fec.PacketID block) packets ps w1 with
                  | None => None
                  | Some ((send, err), w2) =>
                      Some ({| wr_PacketID := Fec.PacketID block; wr_Send := Some send |},
                            TransportErr <$> err, recordBlockPathFailures send ps s2, w2)
                  end
              end
          end
      | _, _ => Some (none, Some ErrNotEstablished, s, w1)
      end
  end.

(** ** Close *)

Definition close_done (errs : list SessionError) (s : Session) : Session :=
  mkSession (id s) (role s) (conf s) (state s) (started s) (carriers s) (carrierByID s)
    (endpoints s) (outstanding s) (nextToken s) (peerMaxUDPPayload s) (sendMaxUDPPayload s)
    (receiveMaxUDPPayload s) (encoder s) (decoder s) (nextKeepalive s) (nextDecodeSweep s)
    (canceled s) true errs.

(** The body of [closeOnce.Do]: [true] when [notifyClosed] ran.  [s.active.Wait] waits
    for sends in progress and changes nothing of the state. *)
Definition Close (ctx : option Context) (s : Session) (w : Env)
    : list SessionError * Session * Env * bool :=
  match ctx with
  | None => ([ErrInvalidConfig], s, w, false)
  | Some c =>
      if closeDone s then (closeErr s, s, w, false) else
      let '(now, w1) := Now w in
      let wasEstablished := bool_decide (state s = StateEstablished) in
      let bdg := sendMaxUDPPayload s in
      let ps := closePathsLocked w1 now s in
      let s1 := markClosedLocked (set_encoder None (set_decoder None s)) in
      if wasEstablished then
        match Wire.NewClose (id s1) with
        | Err e => ([WireErr e], close_done [WireErr e] s1, w1, true)
        | Ok m =>
            let '(attempts, s2, w2) :=
              executePlansWithoutLifetime c ((fun p => reply m p bdg) <$> ps) s1 w1 in
            let errs := omap Err_ attempts in
            (errs, close_done errs s2, w2, true)
        end
      else ([], close_done [] s1, w1, true)
  end.

(** ** Inspection *)

Definition consider (next candidate : option Z) : option Z :=
  match candidate, next with
  | None, _ => next
  | Some c, None => Some c
  | Some c, Some n => if c <? n then Some c else Some n
  end.

(** The minimum does not depend on the order of the endpoints. *)
Definition nextDeadlineLocked (s : Session) : option Z :=
  let n1 := foldl consider None (nextRetry <$> carriers s) in
  let n2 := consider (consider n1 (nextKeepalive s)) (nextDecodeSweep s) in
  foldl consider n2
    ((fun '(_, e) => Some (lastActivity e + endpointTTL (conf s))) <$> map_to_list (endpoints s)).

Definition NextDeadline (s : Session) : option Z := nextDeadlineLocked s.

Record SessionSnapshot := {
  sn_ID : SessionID; sn_Role : Role; sn_State : State;
  PeerMaxUDPPayload : Z; SendMaxUDPPayload : Z; ReceiveMaxUDPPayload : Z;
  HandshakeAttempts : Z; AcknowledgedCarriers : Z; Endpoints_ : Z; OutstandingProbes : Z;
  HasRetryDeadline : bool; HasKeepaliveDeadline : bool; HasDecodeSweepDeadline : bool;
  sn_NextDeadline : option Z }.

Definition is_set (t : option Z) : bool := match t with Some _ => true | None => false end.

Definition hasRetryDeadlineLocked (s : Session) : bool :=
  existsb (fun c => is_set (nextRetry c)) (carriers s).

Definition sumZ (l : list Z) : Z := foldr Z.add 0 l.

Definition Snapshot (s : Session) : SessionSnapshot := {|
  sn_ID := id s; sn_Role := role s; sn_State := state s;
  PeerMaxUDPPayload := peerMaxUDPPayload s; SendMaxUDPPayload := sendMaxUDPPayload s;
  ReceiveMaxUDPPayload := receiveMaxUDPPayload s;
  HandshakeAttempts := sumZ (attempts <$> carriers s);
  AcknowledgedCarriers := len (filter (fun c => acked c = true) (carriers s));
  Endpoints_ := Z.of_nat (size (endpoints s));
  OutstandingProbes := Z.of_nat (size (outstanding s));
  HasRetryDeadline := hasRetryDeadlineLocked s;
  HasKeepaliveDeadline := is_set (nextKeepalive s);
  HasDecodeSweepDeadline := is_set (nextDecodeSweep s);
  sn_NextDeadline := nextDeadlineLocked s |}.

Record EndpointSnapshot := {
  es_Key : bytes; es_PathID : bytes; es_Generation : Z; es_LocalAddr : bytes; es_RemoteAddr : bytes;
  es_LastActivity : Z; es_RTT : Z; es_HasRTT : bool; es_Available : bool }.

(** A learned endpoint has both addresses; a nil one would panic. *)
Definition addrString (a : option Addr) : bytes := match a with Some a => String a | None => [] end.

Definition Endpoints (w : Env) (s : Session) : list EndpointSnapshot :=
  omap (fun key =>
    (fun e => {| es_Key := key; es_PathID := PathID (ep_path e); es_Generation := Generation (ep_path e);
       es_LocalAddr := addrString (LocalAddr (ep_path e));
       es_RemoteAddr := addrString (RemoteAddr (ep_path e));
       es_LastActivity := lastActivity e; es_RTT := rtt e; es_HasRTT := hasRTT e;
       es_Available := healthy e && Available w (ep_path e) |}) <$> endpoints s !! key)
    (sortStrings (map_to_list (endpoints s)).*1).

Definition SendPaths (s : Session) (w : Env) : list Path * Session * Env :=
  let '(now, w1) := Now w in
  let s1 := snd (sweepEndpointsLocked now s) in
  (sendPathsLocked w1 now s1, s1, w1).

Definition SetPathHealthy (pathID : bytes) (b : bool) (s : Session) : option SessionError * Session :=
  if len pathID =? 0 then (Some ErrUnknownPath, s) else
  if bool_decide (state s = StateClosed) then (Some ErrClosed, s) else
  let matches (ke : bytes * endpointState) :=
    bool_decide (PathID (ep_path ke.2) = pathID) || bool_decide (ep_key ke.2 = pathID) in
  let found := bool_decide (is_Some (carrierAt pathID s)) || existsb matches (map_to_list (endpoints s)) in
  let s1 := update_carrier pathID (car_set_healthy b) s in
  let s2 := set_endpoints (map_imap (fun key e =>
              Some (if matches (key, e) then ep_set_healthy b e else e)) (endpoints s1)) s1 in
  (if found then None else Some ErrUnknownPath, s2).
End Methods.
