(* ===== verification/SessionListener.v ===== *)
(** * The registry of Sessions of a listener ([internal/session/listener.go])

    Sessions are objects of a heap: the registry maps SessionIDs to references, so that
    [removeSession] compares pointers and a Session that left the registry lives on.
    Where the source ranges over the registry the model takes the order of
    [map_to_list]. *)

From S2P Require Import Prelude Sha256 Transport Session.
From S2P Require Wire Fec.
Import Wire (SessionID).

Record Listener := {
  l_settings : settings;
  maxSessions : Z;
  sessions : gmap SessionID nat;
  l_closed : bool;
  l_closeDone : bool;
  l_closeErr : list SessionError;
  objects : gmap nat Session;
  nextObject : nat;
  l_reg : option ListenerPathCounters }.

Record ListenerConfig := { lc_Session : Config; lc_MaxSessions : Z }.

Definition NewListener (config : ListenerConfig) (reg : option ListenerPathCounters)
    : result SessionError Listener :=
  let? conf := normalizeConfig (lc_Session config) in
  fail (lc_MaxSessions config <=? 0) || (65536 <? lc_MaxSessions config) with ErrInvalidConfig in
  Ok {| l_settings := conf; maxSessions := lc_MaxSessions config; sessions := ∅; l_closed := false;
        l_closeDone := false; l_closeErr := []; objects := ∅; nextObject := 0; l_reg := reg |}.

(** Field updates. *)
Definition with_registry (m : gmap SessionID nat) (l : Listener) : Listener := {|
  l_settings := l_settings l; maxSessions := maxSessions l; sessions := m; l_closed := l_closed l;
  l_closeDone := l_closeDone l; l_closeErr := l_closeErr l; objects := objects l;
  nextObject := nextObject l; l_reg := l_reg l |}.

Definition put (ref : nat) (s : Session) (reg : option ListenerPathCounters) (l : Listener) : Listener := {|
  l_settings := l_settings l; maxSessions := maxSessions l; sessions := sessions l;
  l_closed := l_closed l; l_closeDone := l_closeDone l; l_closeErr := l_closeErr l;
  objects := <[ref := s]> (objects l); nextObject := nextObject l; l_reg := reg |}.

Definition allocate (s : Session) (reg : option ListenerPathCounters) (l : Listener) : nat * Listener :=
  (nextObject l,
   {| l_settings := l_settings l; maxSessions := maxSessions l;
      sessions := <[id s := nextObject l]> (sessions l);
      l_closed := l_closed l; l_closeDone := l_closeDone l; l_closeErr := l_closeErr l;
      objects := <[nextObject l := s]> (objects l); nextObject := S (nextObject l); l_reg := reg |}).

Definition close_listener (l : Listener) : Listener := {|
  l_settings := l_settings l; maxSessions := maxSessions l; sessions := ∅; l_closed := true;
  l_closeDone := l_closeDone l; l_closeErr := l_closeErr l; objects := objects l;
  nextObject := nextObject l; l_reg := l_reg l |}.

Definition listener_close_done (errs : list SessionError) (l : Listener) : Listener := {|
  l_settings := l_settings l; maxSessions := maxSessions l; sessions := sessions l;
  l_closed := l_closed l; l_closeDone := true; l_closeErr := errs; objects := objects l;
  nextObject := nextObject l; l_reg := l_reg l |}.

(** The [onClose] of a registered Session. *)
Definition removeSession (sid : SessionID) (ref : nat) (l : Listener) : Listener :=
  if bool_decide (sessions l !! sid = Some ref) then with_registry (delete sid (sessions l)) l else l.

Definition validateHandshakeSettings (conf : settings) (h : Wire.Handshake) : option SessionError :=
  if negb (Wire.Handshake_DataShards h =? Fec.DataShards (params conf))
     || negb (Wire.Handshake_ParityShards h =? Fec.ParityShards (params conf))
  then Some ErrHandshakeIncompatible else
  if (Wire.Handshake_MaxUDPPayload h <? Wire.MinUDPPayload)
     || (Wire.MaxUDPPayload <? Wire.Handshake_MaxUDPPayload h)
  then Some ErrHandshakeIncompatible else
  match Fec.DeriveLimits (params conf) (negotiatedBudget conf h) with
  | Err _ => Some ErrHandshakeIncompatible
  | Ok _ => None
  end.

Section Methods.
Context {Env : Type} `{Sockets Env} `{Fec.ReedSolomon}.
Implicit Types (w : Env).

Definition newListenerSession (sid : SessionID) (conf : settings) (h : Wire.Handshake)
    (endpointKey : bytes) (path : Path) (reg : option ListenerPathCounters) (w : Env)
    : result SessionError Session * option ListenerPathCounters * Env :=
  let s := newSession sid RoleListener conf true [] ∅ in
  let '(now, w1) := Now w in
  match establishLocked h now s with
  | (Some e, _) => (Err e, reg, w1)
  | (None, s1) =>
      let l := learnEndpointLocked w1 endpointKey path now s1 reg in
      match learn_err l with
      | Some e => (Err e, learned_reg l, w1)
      | None => (Ok (learned_s l), learned_reg l, w1)
      end
  end.

(** What [HandlePacket] returns: the Session, the result and the error. *)
Record LHandled := {
  lh_session : option nat; lh_result : HandleResult; lh_err : option SessionError;
  lh_l : Listener; lh_w : Env }.

Definition l_refused (r : HandleResult) (e : SessionError) (l : Listener) (w : Env) : LHandled :=
  {| lh_session := None; lh_result := r; lh_err := Some e; lh_l := l; lh_w := w |}.

Definition res_created (r : HandleResult) : HandleResult := {|
  Message := Message r; Created := true; Established := true; EndpointAdded := true;
  EndpointRefreshed := EndpointRefreshed r; RTTUpdated := RTTUpdated r; RTT := RTT r;
  Datagram := Datagram r; Response := Response r |}.

(** The answer to the HELLO that created the Session [ref]. *)
Definition answerHello (ctx : Context) (ref : nat) (s : Session) (path : Path) (r : HandleResult)
    (l : Listener) (w : Env) : LHandled :=
  match helloAck s with
  | Err e => {| lh_session := Some ref; lh_result := r; lh_err := Some (WireErr e); lh_l := l; lh_w := w |}
  | Ok ack =>
      if bool_decide (state s = StateClosed)
      then {| lh_session := Some ref; lh_result := r; lh_err := Some ErrClosed; lh_l := l; lh_w := w |} else
      let '(attempts, s', w') := executePlans ctx [reply ack path (sendMaxUDPPayload s)] s w in
      {| lh_session := Some ref; lh_result := res_response (head attempts) r; lh_err := None;
         lh_l := put ref s' (l_reg l) l; lh_w := w' |}
  end.

(** A packet for a Session of the registry. *)
Definition forward (ctx : Context) (packet : ReceivedPacket) (m : Wire.Message) (key : bytes)
    (ref : nat) (s : Session) (l : Listener) (w : Env) : LHandled :=
  let h := handleAuthenticatedWithIdentity ctx packet m (Some key) s (l_reg l) w in
  let l1 := put ref (hd_s h) (hd_reg h) l in
  {| lh_session := Some ref; lh_result := hd_result h; lh_err := hd_err h;
     lh_l := if hd_notify h then removeSession (id s) ref l1 else l1; lh_w := hd_w h |}.

(** A HELLO for an unknown SessionID. *)
Definition create (ctx : Context) (packet : ReceivedPacket) (path : Path) (m : Wire.Message)
    (key : bytes) (l : Listener) (w : Env) : LHandled :=
  let r0 := received m in
  let h := Wire.Message_Handshake m in
  match validateHandshakeSettings (l_settings l) h with
  | Some e => l_refused r0 e l w
  | None =>
      if maxSessions l <=? Z.of_nat (size (sessions l)) then l_refused r0 ErrSessionLimit l w else
      match newListenerSession (Wire.Header_SessionID (Wire.Message_Header m)) (l_settings l) h key
              path (l_reg l) w with
      | (Err e, reg1, w1) =>
          {| lh_session := None; lh_result := r0; lh_err := Some e;
             lh_l := {| l_settings := l_settings l; maxSessions := maxSessions l;
                        sessions := sessions l; l_closed := l_closed l; l_closeDone := l_closeDone l;
                        l_closeErr := l_closeErr l; objects := objects l;
                        nextObject := nextObject l; l_reg := reg1 |}; lh_w := w1 |}
      | (Ok s, reg1, w1) =>
          let reg2 := receiveEndpointLocked key (len (Payload packet)) s reg1 in
          let '(ref, l1) := allocate s reg2 l in
          answerHello ctx ref s (learnedPath key path s) (res_created r0) l1 w1
      end
  end.

Definition ListenerHandlePacket (ctx : option Context) (packet : ReceivedPacket) (l : Listener)
    (w : Env) : LHandled :=
  match checkContext ctx w with
  | Err e => l_refused (received (Wire.mkMessage 0 Wire.zeroSessionID)) e l w
  | Ok c =>
      match Wire.DecodeAuthenticated (Payload packet) (psk (l_settings l))
              (localMaxUDPPayload (l_settings l)) with
      | Err e => l_refused (received (Wire.mkMessage 0 Wire.zeroSessionID)) (WireErr e) l w
      | Ok m =>
          let r0 := received m in
          match replyIdentity w (Reply packet), Reply packet with
          | Ok key, Some path =>
              if l_closed l then l_refused r0 ErrClosed l w else
              match sessions l !! Wire.Header_SessionID (Wire.Message_Header m) with
              | Some ref =>
                  match objects l !! ref with
                  | Some s => forward c packet m key ref s l w
                  | None => l_refused r0 ErrUnknownSession l w
                  end
              | None =>
                  if negb (Wire.Header_Type (Wire.Message_Header m) =? Wire.TypeHello)
                  then l_refused r0 ErrUnknownSession l w
                  else create c packet path m key l w
              end
          | _, _ => l_refused r0 ErrInvalidReplyPath l w
          end
      end
  end.

(** [l.Session]. *)
Definition SessionOf (sid : SessionID) (l : Listener) : option nat := sessions l !! sid.

(** ** Advance, Stats and Close *)

Record SessionAdvance := {
  sa_SessionID : option SessionID; sa_Result : AdvanceResult; sa_Err : option SessionError }.

Fixpoint advanceAll (ctx : Context) (refs : list (SessionID * nat)) (l : Listener) (w : Env)
    : list SessionAdvance * Listener * Env :=
  match refs with
  | [] => ([], l, w)
  | (sid, ref) :: rest =>
      match objects l !! ref with
      | None => advanceAll ctx rest l w
      | Some s =>
          let '(r, err, s1, w1) := Advance (Some ctx) s w in
          let '(rs, l2, w2) := advanceAll ctx rest (put ref s1 (l_reg l) l) w1 in
          ({| sa_SessionID := Some sid; sa_Result := r; sa_Err := err |} :: rs, l2, w2)
      end
  end.

Definition ListenerAdvance (ctx : option Context) (l : Listener) (w : Env)
    : list SessionAdvance * Listener * Env :=
  match ctx with
  | None => ([{| sa_SessionID := None; sa_Result := noAdvance; sa_Err := Some ErrInvalidConfig |}], l, w)
  | Some c =>
      advanceAll c (omap (fun sid => pair sid <$> sessions l !! sid)
                      (sortStrings (map_to_list (sessions l)).*1)) l w
  end.

Record ListenerStats := {
  ls_Sessions : Z; ls_Endpoints : Z; ls_OutstandingProbes : Z; ls_LogicalDeadlines : Z }.

Definition Stats (l : Listener) : ListenerStats :=
  let ss := omap (fun '(_, ref) => objects l !! ref) (map_to_list (sessions l)) in
  {| ls_Sessions := Z.of_nat (size (sessions l));
     ls_Endpoints := sumZ ((fun s => Endpoints_ (Session.Snapshot s)) <$> ss);
     ls_OutstandingProbes := sumZ ((fun s => OutstandingProbes (Session.Snapshot s)) <$> ss);
     ls_LogicalDeadlines := len (filter (fun s => is_set (NextDeadline s) = true) ss) |}.

(** [Session.Close] of a Session of the heap, with its [onClose]. *)
Definition closeSession (ctx : option Context) (ref : nat) (l : Listener) (w : Env)
    : list SessionError * Listener * Env :=
  match objects l !! ref with
  | None => ([], l, w)
  | Some s =>
      let '(errs, s1, w1, notify) := Close ctx s w in
      let l1 := put ref s1 (l_reg l) l in
      (errs, if notify then removeSession (id s) ref l1 else l1, w1)
  end.

Fixpoint closeAll (ctx : option Context) (refs : list nat) (l : Listener) (w : Env)
    : list SessionError * Listener * Env :=
  match refs with
  | [] => ([], l, w)
  | ref :: rest =>
      let '(errs, l1, w1) := closeSession ctx ref l w in
      let '(more, l2, w2) := closeAll ctx rest l1 w1 in
      (errs ++ more, l2, w2)
  end.

Definition ListenerClose (ctx : option Context) (l : Listener) (w : Env)
    : list SessionError * Listener * Env :=
  match ctx with
  | None => ([ErrInvalidConfig], l, w)
  | Some c =>
      if l_closeDone l then (l_closeErr l, l, w) else
      let refs := (map_to_list (sessions l)).*2 in
      let '(errs, l1, w1) := closeAll ctx refs (close_listener l) w in
      (errs, listener_close_done errs l1, w1)
  end.
End Methods.
