(* ===== verification/SessionInv.v ===== *)
(** * The invariant of a Session

    [Inv] is the representation invariant of [Session]; [touch] relates states that
    differ only in the health of carriers and in the tables of endpoints and probes,
    which is what the helpers that run under the mutex change. *)

From S2P Require Import Prelude Sha256 Transport Session.
From S2P Require Wire Fec FecDecoder FecDelivery.
Import Wire (SessionID).

(** ** Updates that only touch health, endpoints and probes *)

Definition core (s : Session) :=
  (id s, role s, conf s, state s, started s, carrierByID s, nextToken s,
   (peerMaxUDPPayload s, sendMaxUDPPayload s, receiveMaxUDPPayload s), (encoder s, decoder s),
   (nextKeepalive s, nextDecodeSweep s), (canceled s, closeDone s, closeErr s)).

(** Equal up to health. *)
Definition car_sim (c c' : carrierState) : Prop := c' = car_set_healthy (car_healthy c') c.

Definition touch (s s' : Session) : Prop :=
  core s' = core s /\ Forall2 car_sim (carriers s) (carriers s').

Lemma car_sim_refl c : car_sim c c.
Proof. by destruct c. Qed.
Lemma car_sim_healthy b c : car_sim c (car_set_healthy b c).
Proof. by destruct c. Qed.
Lemma car_sim_trans c1 c2 c3 : car_sim c1 c2 -> car_sim c2 c3 -> car_sim c1 c3.
Proof. unfold car_sim. intros -> ->. by destruct c1. Qed.

Lemma cars_refl cs : Forall2 car_sim cs cs.
Proof. induction cs; constructor; auto using car_sim_refl. Qed.

Lemma Forall2_compose {A} (R : A -> A -> Prop) l1 l2 l3 :
  (forall x y z, R x y -> R y z -> R x z) -> Forall2 R l1 l2 -> Forall2 R l2 l3 -> Forall2 R l1 l3.
Proof.
  intros HR H1. revert l3. induction H1; intros l3 H2; inversion_clear H2; constructor; eauto.
Qed.

Lemma touch_refl s : touch s s.
Proof. split; [done|apply cars_refl]. Qed.

Lemma touch_trans s1 s2 s3 : touch s1 s2 -> touch s2 s3 -> touch s1 s3.
Proof.
  intros [E1 F1] [E2 F2]. split; [congruence|].
  eapply Forall2_compose; [|exact F1|exact F2]. intros ???. apply car_sim_trans.
Qed.

#[export] Instance touch_preorder : PreOrder touch.
Proof. split; red; [apply touch_refl|apply touch_trans]. Qed.

Lemma alter_Forall2 {A} (R : A -> A -> Prop) (f : A -> A) i l :
  (forall x, R x x) -> (forall x, R x (f x)) -> Forall2 R l (alter f i l).
Proof.
  intros H1 H2. revert i. induction l as [|x l IH]; intros [|i]; constructor; auto.
  clear IH. induction l; constructor; auto.
Qed.

Lemma update_carrier_touch pathID b s : touch s (update_carrier pathID (car_set_healthy b) s).
Proof.
  unfold update_carrier. destruct (carrierByID s !! pathID); [|reflexivity]. split; [done|].
  apply alter_Forall2; intros; [apply car_sim_refl|apply car_sim_healthy].
Qed.

Lemma update_carrier_tables pathID f s :
  endpoints (update_carrier pathID f s) = endpoints s /\
  outstanding (update_carrier pathID f s) = outstanding s.
Proof. unfold update_carrier. by destruct (carrierByID s !! pathID). Qed.

Lemma set_endpoints_touch m s : touch s (set_endpoints m s).
Proof. split; [done|apply cars_refl]. Qed.
Lemma set_outstanding_touch m s : touch s (set_outstanding m s).
Proof. split; [done|apply cars_refl]. Qed.

(** ** The sweep *)

(** The endpoints of [l] that a sweep at [now] drops. *)
Definition dropped (now : Z) (s : Session) (l : list (bytes * endpointState)) (key : bytes) : Prop :=
  exists e, (key, e) ∈ l /\ expired now s e = true.

Record swept (now : Z) (l : list (bytes * endpointState)) (s : Session) (r : Z * Session) : Prop := {
  sw_touch : touch s (snd r);
  sw_gone : forall key, dropped now s l key -> endpoints (snd r) !! key = None;
  sw_kept : forall key, ~ dropped now s l key -> endpoints (snd r) !! key = endpoints s !! key;
  sw_probes : match role s with
    | RoleInitiator => outstanding (snd r) = outstanding s
    | RoleListener => forall key, outstanding (snd r) !! key =
        if bool_decide (key ∈ (filter (fun ke => expired now s ke.2 = true) l).*1)
        then None else outstanding s !! key
    end;
  sw_count : fst r = len (filter (fun ke => expired now s ke.2 = true) l) }.

Lemma dropped_keys now s l key :
  dropped now s l key <-> key ∈ (filter (fun ke => expired now s ke.2 = true) l).*1.
Proof.
  unfold dropped. rewrite list_elem_of_fmap. split.
  - intros (e & Hin & He). exists (key, e). rewrite list_elem_of_filter. done.
  - intros ([k e] & -> & [He Hin]%list_elem_of_filter). eauto.
Qed.

Lemma touch_expired now s s' e : touch s s' -> expired now s' e = expired now s e.
Proof. intros [E _]. unfold core in E. unfold expired. by replace (conf s') with (conf s) by congruence. Qed.

Lemma touch_role s s' : touch s s' -> role s' = role s.
Proof. intros [E _]. unfold core in E. congruence. Qed.

Lemma sweep_loop now s l : swept now l s (foldr (sweepEndpoint now) (0, s) l).
Proof.
  induction l as [|[k e] l IH].
  { split; cbn; try done; [by intros key (e & []%not_elem_of_nil & _)|]. by destruct (role s). }
  cbn [foldr sweepEndpoint]. destruct (foldr _ _ l) as [n s1]. destruct IH as [T G K P C]. cbn in *.
  rewrite (touch_expired now s s1 e T). unfold sweepEndpoint.
  destruct (expired now s e) eqn:Ee; cbn [negb].
  - assert (Hd : forall key, dropped now s ((k, e) :: l) key <-> key = k \/ dropped now s l key).
    { intros key. rewrite !dropped_keys. rewrite filter_cons_True by done. cbn. by rewrite elem_of_cons. }
    assert (HT : touch s (match role s1 with
      | RoleInitiator => update_carrier (PathID (ep_path e)) (car_set_healthy false)
                           (set_endpoints (delete k (endpoints s1)) s1)
      | RoleListener => set_outstanding (delete k (outstanding s1))
                          (set_endpoints (delete k (endpoints s1)) s1) end)).
    { etrans; [exact T|]. destruct (role s1).
      - etrans; [apply set_endpoints_touch|apply update_carrier_touch].
      - etrans; [apply set_endpoints_touch|apply set_outstanding_touch]. }
    assert (HE : endpoints (match role s1 with
      | RoleInitiator => update_carrier (PathID (ep_path e)) (car_set_healthy false)
                           (set_endpoints (delete k (endpoints s1)) s1)
      | RoleListener => set_outstanding (delete k (outstanding s1))
                          (set_endpoints (delete k (endpoints s1)) s1) end) = delete k (endpoints s1)).
    { destruct (role s1); [|done]. by rewrite (proj1 (update_carrier_tables _ _ _)). }
    split; cbn [fst snd]; cbn [role set_endpoints].
    + exact HT.
    + intros key Hk. rewrite HE. apply Hd in Hk as [->|Hk]; [apply lookup_delete_eq|].
      destruct (decide (k = key)) as [->|Hne]; [apply lookup_delete_eq|].
      rewrite lookup_delete_ne by done. by apply G.
    + intros key Hk. rewrite HE. rewrite lookup_delete_ne; [|intros ->; apply Hk, Hd; auto].
      apply K. intros Hk'. apply Hk, Hd. auto.
    + rewrite (touch_role _ _ T) in *. destruct (role s).
      * rewrite (proj2 (update_carrier_tables _ _ _)). done.
      * intros key. cbn [outstanding set_outstanding]. rewrite filter_cons_True by done. cbn [fmap list_fmap fst].
        destruct (decide (k = key)) as [->|Hne].
        -- rewrite bool_decide_eq_true_2 by constructor. apply lookup_delete_eq.
        -- rewrite lookup_delete_ne, P by done. do 2 case_bool_decide ; try done; rewrite elem_of_cons in *; naive_solver.
    + rewrite filter_cons_True by done. rewrite len_cons. lia.
  - assert (Hf : filter (fun ke => expired now s ke.2 = true) ((k, e) :: l)
                 = filter (fun ke => expired now s ke.2 = true) l) by (apply filter_cons_False; cbn; congruence).
    assert (Hd : forall key, dropped now s ((k, e) :: l) key <-> dropped now s l key)
      by (intros key; by rewrite !dropped_keys, Hf).
    split; cbn [fst snd]; rewrite ?Hf; try done.
    + intros key Hk%Hd. by apply G.
    + intros key Hk. apply K. by rewrite <- Hd.
Qed.

Definition alive (now : Z) (s : Session) : gmap bytes endpointState :=
  filter (fun ke => expired now s ke.2 = false) (endpoints s).

(** What a sweep leaves. *)
Record sweep_post (now : Z) (s : Session) (n : Z) (s' : Session) : Prop := {
  sp_touch : touch s s';
  sp_endpoints : endpoints s' = alive now s;
  sp_probes : forall key, outstanding s' !! key =
    match role s, endpoints s !! key with
    | RoleListener, Some e => if expired now s e then None else outstanding s !! key
    | _, _ => outstanding s !! key
    end;
  sp_count : n = Z.of_nat (size (endpoints s)) - Z.of_nat (size (endpoints s')) }.

Lemma map_to_list_key {A} (m : gmap bytes A) P `{!forall x, Decision (P x)} key :
  key ∈ (filter P (map_to_list m)).*1 <-> exists e, m !! key = Some e /\ P (key, e).
Proof.
  rewrite list_elem_of_fmap. split.
  - intros ([k e] & -> & [He Hin%elem_of_map_to_list]%list_elem_of_filter). eauto.
  - intros (e & He & Hp). exists (key, e). rewrite list_elem_of_filter, elem_of_map_to_list. done.
Qed.

Lemma filter_size_split {A} (m : gmap bytes A) (P : bytes * A -> bool) :
  Z.of_nat (size m) = Z.of_nat (size (filter (fun ke => P ke = false) m))
    + len (filter (fun ke => P ke = true) (map_to_list m)).
Proof.
  induction m as [|k a m Hk IH] using map_ind; [done|].
  rewrite map_size_insert_None by done.
  assert (Hl : len (filter (fun ke => P ke = true) (map_to_list (<[k:=a]> m)))
    = len (filter (fun ke => P ke = true) ((k, a) :: map_to_list m))).
  { unfold len. f_equal. apply Permutation_length, filter_Permutation, map_to_list_insert; done. }
  rewrite Hl. destruct (P (k, a)) eqn:E.
  - rewrite filter_cons_True by done. rewrite len_cons, map_filter_insert_False by congruence.
    rewrite delete_id by done. lia.
  - rewrite filter_cons_False by congruence. rewrite map_filter_insert_True by done.
    rewrite map_size_insert_None; [lia|]. apply map_lookup_filter_None. auto.
Qed.

Lemma sweep_spec now s :
  sweep_post now s (fst (sweepEndpointsLocked now s)) (snd (sweepEndpointsLocked now s)).
Proof.
  unfold sweepEndpointsLocked. destruct (sweep_loop now s (map_to_list (endpoints s))) as [T G K P C].
  set (r := foldr _ _ _) in *.
  assert (HE : endpoints (snd r) = alive now s).
  { apply map_eq. intros key. unfold alive. rewrite map_lookup_filter.
    destruct (endpoints s !! key) as [e|] eqn:E; cbn.
    - destruct (expired now s e) eqn:X; cbn.
      + apply G. exists e. by rewrite elem_of_map_to_list.
      + rewrite K; [by rewrite E|]. intros (e' & He'%elem_of_map_to_list & X'). congruence.
    - rewrite K; [done|]. intros (e' & He'%elem_of_map_to_list & X'). congruence. }
  split; [done..| |].
  - intros key. destruct (role s); [by rewrite P|]. rewrite P.
    destruct (endpoints s !! key) as [e|] eqn:E.
    + destruct (expired now s e) eqn:X.
      * rewrite bool_decide_eq_true_2; [done|]. apply map_to_list_key. eauto.
      * rewrite bool_decide_eq_false_2; [done|]. rewrite map_to_list_key. intros (e' & He' & X'); cbn in X'; congruence.
    + rewrite bool_decide_eq_false_2; [done|]. rewrite map_to_list_key. intros (e' & He' & X'); cbn in X'; congruence.
  - rewrite HE, C. rewrite (filter_size_split (endpoints s) (fun ke => expired now s ke.2)). fold (alive now s). lia.
Qed.

(** ** The invariant *)

(** What [normalizeConfig] accepts. *)
Record settings_ok (c : settings) : Prop := {
  so_psk : 1 <= len (psk c) <= Config.MaxPSKBytes;
  so_data : 1 <= Fec.DataShards (params c) <= 255;
  so_parity : 1 <= Fec.ParityShards (params c) <= 255;
  so_total : Fec.DataShards (params c) + Fec.ParityShards (params c) <= 256;
  so_local : Wire.MinUDPPayload <= localMaxUDPPayload c <= Wire.MaxUDPPayload;
  so_datagram : Config.MinMaxDatagramSize <= maxDatagramSize c <= Config.MaxMaxDatagramSize;
  so_endpoints : 1 <= maxEndpoints c <= maxPaths;
  so_attempts : 1 <= maxHandshakeAttempts c <= 64;
  so_pending : 1 <= maxPendingFECBlocks c <= Config.MaxMaxPendingFECBlocks;
  so_completed : 1 <= maxCompletedFECBlocks c <= Config.MaxMaxPendingFECBlocks;
  so_decode : Config.MinDecodeTimeout <= decodeTimeout c <= Config.MaxDecodeTimeout;
  so_completion : 0 < completionTTL c;
  so_ttl : Config.MinEndpointTTL <= endpointTTL c <= Config.MaxEndpointTTL;
  so_keepalive : Config.MinKeepaliveInterval <= keepaliveInterval c <= Config.MaxKeepaliveInterval;
  so_retry : Config.MinHandshakeRetryInterval <= handshakeRetryInterval c
    <= Config.MaxHandshakeRetryInterval;
  so_jitter : 0 <= handshakeJitterLimit c <= handshakeRetryInterval c }.

Definition decoderConfig (s : Session) : FecDecoder.DecoderConfig := {|
  FecDecoder.cfg_Params := params (conf s);
  FecDecoder.cfg_Budget := {|
    Fec.MaxUDPPayload := Z.min (localMaxUDPPayload (conf s)) (peerMaxUDPPayload s);
    Fec.DataShardWireOverhead := Wire.DataShardOverhead;
    Fec.MaxDatagramSize := maxDatagramSize (conf s) |};
  FecDecoder.cfg_DecodeTimeout := decodeTimeout (conf s);
  FecDecoder.cfg_CompletionTTL := completionTTL (conf s);
  FecDecoder.cfg_MaxPendingBlocks := maxPendingFECBlocks (conf s);
  FecDecoder.cfg_MaxCompletedBlocks := maxCompletedFECBlocks (conf s);
  FecDecoder.cfg_Statistics := fecStatistics (conf s);
  FecDecoder.cfg_ReplayWindow := Some {| FecReplay.cfg_SessionID := id s |} |}.

Section Inv.
Context `{Fec.ReedSolomon}.

(** The codecs of an established Session: an encoder at some PacketID, and a decoder
    in a state that some sequence of its calls reaches. *)
Definition encoder_reachable (s : Session) (enc : Fec.Encoder) : Prop :=
  exists nxt exh, in_u 64 nxt /\
    Fec.newEncoderAt (params (conf s)) (FecDecoder.cfg_Budget (decoderConfig s)) nxt exh = Ok enc.

Definition decoder_reachable (s : Session) (dec : FecDecoder.Decoder) : Prop :=
  exists d0 pre, FecDecoder.NewDecoder (decoderConfig s) = Ok d0 /\
    Forall FecDelivery.op_typed pre /\ dec = snd (FecDelivery.run d0 pre) /\
    FecDecoder.closed dec = false.

Record carrier_ok (c : settings) (started : bool) (car : carrierState) : Prop := {
  ca_attempts : 0 <= attempts car <= maxHandshakeAttempts c;
  ca_fresh : started = false -> attempts car = 0 /\ exhausted car = false;
  ca_exhausted : exhausted car = true ->
    attempts car = maxHandshakeAttempts c /\ acked car = false /\ nextRetry car = None;
  ca_acked : acked car = true -> nextRetry car = None }.

Record carriers_ok (s : Session) : Prop := {
  co_index : forall p i, carrierByID s !! p = Some i <->
    exists c, carriers s !! i = Some c /\ PathID (car_path c) = p;
  co_bound : len (carriers s) <= maxPaths;
  co_listener : role s = RoleListener -> carriers s = [];
  co_each : Forall (carrier_ok (conf s) (started s)) (carriers s);
  co_live : started s = true -> state s <> StateClosed ->
    Forall (fun c => acked c = true \/ exhausted c = true \/ nextRetry c <> None) (carriers s) }.

Definition knownCarrier (s : Session) (p : bytes) : Prop := is_Some (carrierByID s !! p).

Record endpoints_ok (s : Session) : Prop := {
  eo_bound : Z.of_nat (size (endpoints s)) <= maxEndpoints (conf s);
  eo_key : forall k e, endpoints s !! k = Some e ->
    ep_key e = k /\ replyIdentityUnchecked (Some (ep_path e)) = Ok k;
  eo_carrier : role s = RoleInitiator -> forall k e, endpoints s !! k = Some e ->
    knownCarrier s (PathID (ep_path e)) }.

(** Every probe belongs to a carrier, or to an endpoint the listener still keeps. *)
Definition probes_ok (s : Session) : Prop :=
  forall k, is_Some (outstanding s !! k) ->
    match role s with RoleInitiator => knownCarrier s k | RoleListener => is_Some (endpoints s !! k) end.

Record unestablished (s : Session) : Prop := {
  un_endpoints : endpoints s = ∅;
  un_outstanding : outstanding s = ∅;
  un_codecs : encoder s = None /\ decoder s = None;
  un_times : nextKeepalive s = None /\ nextDecodeSweep s = None }.

Record establishedOk (s : Session) : Prop := {
  es_encoder : exists enc, encoder s = Some enc /\ encoder_reachable s enc;
  es_decoder : exists dec, decoder s = Some dec /\ decoder_reachable s dec;
  es_peer : Wire.MinUDPPayload <= peerMaxUDPPayload s <= Wire.MaxUDPPayload;
  es_budget : sendMaxUDPPayload s = Z.min (localMaxUDPPayload (conf s)) (peerMaxUDPPayload s) /\
    receiveMaxUDPPayload s = sendMaxUDPPayload s;
  es_times : nextKeepalive s <> None /\ nextDecodeSweep s <> None }.

Definition phase_ok (s : Session) : Prop :=
  match state s with
  | StateHandshaking =>
      unestablished s /\ canceled s = false /\ Forall (fun c => acked c = false) (carriers s)
  | StateHandshakeFailed =>
      unestablished s /\ canceled s = false /\ role s = RoleInitiator /\ started s = true /\
      Forall (fun c => exhausted c = true) (carriers s)
  | StateEstablished => establishedOk s /\ canceled s = false
  | StateClosed =>
      unestablished s /\ canceled s = true /\ Forall (fun c => nextRetry c = None) (carriers s)
  end.

Record Inv (s : Session) : Prop := {
  in_id : length (id s) = 16%nat /\ id s <> Wire.zeroSessionID;
  in_conf : settings_ok (conf s);
  in_carriers : carriers_ok s;
  in_endpoints : endpoints_ok s;
  in_probes : probes_ok s;
  in_token : 1 <= nextToken s < 2 ^ 64;
  in_listener : role s = RoleListener -> started s = true;
  in_phase : phase_ok s }.

(** ** Preservation by [touch] *)

Lemma car_sim_ok c b x y : car_sim x y -> carrier_ok c b x -> carrier_ok c b y.
Proof. intros ->. by destruct x; intros [? ? ? ?]; split. Qed.

Lemma Forall_car_sim (P : carrierState -> Prop) l l' :
  (forall x y, car_sim x y -> P x -> P y) -> Forall2 car_sim l l' -> Forall P l -> Forall P l'.
Proof. intros HP F. induction F; intros Hl; inversion_clear Hl; constructor; eauto. Qed.

Lemma touch_carriers_ok s s' : touch s s' -> carriers_ok s -> carriers_ok s'.
Proof.
  intros [E F] [I B L C V]. unfold core in E.
  assert (E1 : carrierByID s' = carrierByID s) by congruence.
  assert (E2 : role s' = role s) by congruence. assert (E3 : conf s' = conf s) by congruence.
  assert (E4 : started s' = started s) by congruence. assert (E5 : state s' = state s) by congruence.
  split; rewrite ?E1, ?E2, ?E3, ?E4, ?E5.
  - intros p i. rewrite I. split; intros (c & Hc & Hp).
    + destruct (Forall2_lookup_l _ _ _ _ _ F Hc) as (c' & Hc' & S). exists c'. split; [done|].
      by rewrite S.
    + destruct (Forall2_lookup_r _ _ _ _ _ F Hc) as (c' & Hc' & S). exists c'. split; [done|].
      by rewrite S in Hp.
  - unfold len in *. by rewrite <- (Forall2_length _ _ _ F).
  - intros R. specialize (L R). rewrite L in F. by inversion F.
  - eapply Forall_car_sim; [|exact F|exact C]. intros ???. eapply car_sim_ok; eauto.
  - intros S1 S2. eapply Forall_car_sim; [|exact F|auto]. cbn. by intros x y ->; destruct x.
Qed.

Lemma touch_reachable s s' : core s' = core s ->
  (forall enc, encoder_reachable s enc -> encoder_reachable s' enc) /\
  (forall dec, decoder_reachable s dec -> decoder_reachable s' dec).
Proof.
  intros E. unfold core in E. unfold encoder_reachable, decoder_reachable, decoderConfig.
  assert (E1 : conf s' = conf s) by congruence. assert (E2 : id s' = id s) by congruence.
  assert (E3 : peerMaxUDPPayload s' = peerMaxUDPPayload s) by congruence.
  by rewrite E1, E2, E3.
Qed.

Lemma touch_established s s' : core s' = core s -> establishedOk s -> establishedOk s'.
Proof.
  intros E [(enc & A1 & A2) (dec & B1 & B2) C D T]. destruct (touch_reachable s s' E) as [R1 R2].
  unfold core in E. split.
  - exists enc. split; [congruence|auto].
  - exists dec. split; [congruence|auto].
  - by replace (peerMaxUDPPayload s') with (peerMaxUDPPayload s) by congruence.
  - replace (peerMaxUDPPayload s') with (peerMaxUDPPayload s) by congruence.
    replace (conf s') with (conf s) by congruence. destruct D. split; congruence.
  - destruct T. split; congruence.
Qed.

(** The tables of a Session without endpoints stay empty. *)
Definition within (s s' : Session) : Prop :=
  (state s <> StateEstablished -> endpoints s' = ∅ /\ outstanding s' = ∅).

Lemma touch_phase s s' : touch s s' -> within s s' -> phase_ok s -> phase_ok s'.
Proof.
  intros [E F] W P. unfold phase_ok in *. pose proof (touch_established s s' E) as TE.
  unfold core in E. assert (E1 : state s' = state s) by congruence.
  assert (U : state s <> StateEstablished -> unestablished s -> unestablished s').
  { intros N [_ _ [U3 U4] [U5 U6]]. destruct (W N). split; try done; split; congruence. }
  rewrite E1. destruct (state s) eqn:Es.
  - destruct P as (P1 & P2 & P3). split_and!; [by apply U|congruence|].
    eapply Forall_car_sim; [|exact F|exact P3]. cbn. by intros x y ->; destruct x.
  - destruct P. split; [auto|congruence].
  - destruct P as (P1 & P2 & P3 & P4 & P5). split_and!; [by apply U|congruence..|].
    eapply Forall_car_sim; [|exact F|exact P5]. cbn. by intros x y ->; destruct x.
  - destruct P as (P1 & P2 & P3). split_and!; [by apply U|congruence|].
    eapply Forall_car_sim; [|exact F|exact P3]. cbn. by intros x y ->; destruct x.
Qed.

Lemma touch_inv s s' : touch s s' -> within s s' -> endpoints_ok s' -> probes_ok s' -> Inv s -> Inv s'.
Proof.
  intros T W HE HP [I1 I2 I3 I4 I5 I6 I7 I8]. pose proof (touch_phase s s' T W I8) as P8.
  pose proof (touch_carriers_ok s s' T I3) as P3. destruct T as [E F]. unfold core in E.
  split; try done.
  - by replace (id s') with (id s) by congruence.
  - by replace (conf s') with (conf s) by congruence.
  - by replace (nextToken s') with (nextToken s) by congruence.
  - replace (role s') with (role s) by congruence. by replace (started s') with (started s) by congruence.
Qed.
End Inv.
