(* ===== verification/SessionWire.v ===== *)
(** * The control packets of a Session are always encodable

    Under the invariant the constructors of [wire] never refuse a message of the state
    machine, so the error branches that follow them in the source are dead; and every
    packet it sends decodes at the other side to that message. *)

From S2P Require Import Prelude Sha256 Transport Session SessionInv.
From S2P Require Wire Fec.
Import Wire (SessionID).

Section Wire.
Context `{Fec.ReedSolomon}.

(** What these lemmas need of a Session. *)
Definition named (s : Session) : Prop :=
  (length (id s) = 16%nat /\ id s <> Wire.zeroSessionID) /\ settings_ok (conf s).

Lemma Inv_named s : Inv s -> named s.
Proof. intros I. split; [apply (in_id s I)|apply (in_conf s I)]. Qed.

(** A message as the state machine builds it: valid, of Go's types, within a budget. *)
Record sendable (m : Wire.Message) (n : Z) : Prop := {
  se_wf : Wire.Message_wf m;
  se_valid : Wire.validateMessage m = None;
  se_length : 56 + len (Wire.encodeBody m) = n;
  se_body : len (Wire.encodeBody m) <= 65535 }.

Definition handshakeMessage (t : Z) (s : Session) : Wire.Message := {|
  Wire.Message_Header := {| Wire.Header_Type := t; Wire.Header_SessionID := id s |};
  Wire.Message_Handshake := {|
    Wire.Handshake_DataShards := Fec.DataShards (params (conf s));
    Wire.Handshake_ParityShards := Fec.ParityShards (params (conf s));
    Wire.Handshake_MaxUDPPayload := localMaxUDPPayload (conf s) |};
  Wire.Message_DataShard := Wire.emptyDataShard;
  Wire.Message_Probe := Wire.zeroProbe |}.

Definition probeMessage (t : Z) (sid : SessionID) (tk ts : Z) : Wire.Message := {|
  Wire.Message_Header := {| Wire.Header_Type := t; Wire.Header_SessionID := sid |};
  Wire.Message_Handshake := Wire.zeroHandshake;
  Wire.Message_DataShard := Wire.emptyDataShard;
  Wire.Message_Probe := {| Wire.Token := tk; Wire.Timestamp := ts |} |}.

Lemma handshake_sendable t s :
  t = Wire.TypeHello \/ t = Wire.TypeHelloAck -> named s -> sendable (handshakeMessage t s) 60.
Proof.
  intros Ht [[L N] [_ C1 C2 C3 C4 _ _ _ _ _ _ _ _ _ _ _]].
  unfold Wire.MinUDPPayload, Wire.MaxUDPPayload in *.
  assert (V : Wire.validateMessage (handshakeMessage t s) = None).
  { assert (F : Wire.validateFEC (Fec.DataShards (params (conf s))) (Fec.ParityShards (params (conf s))) = None)
      by (unfold Wire.validateFEC; by replace (_ || _) with false by lia).
    assert (B : Wire.validateBudget (localMaxUDPPayload (conf s)) = None) by (by apply Wire.validateBudget_ok).
    unfold Wire.validateMessage, handshakeMessage. cbn [Wire.Message_Header Wire.Header_SessionID Wire.Header_Type].
    rewrite decide_False by done. unfold Wire.validateHandshakeBody. cbn [Wire.Message_Handshake
      Wire.Handshake_DataShards Wire.Handshake_ParityShards Wire.Handshake_MaxUDPPayload
      Wire.Message_DataShard Wire.Message_Probe]. rewrite F, B. by destruct Ht as [-> | ->]. }
  split; [|done| |].
  - split; cbn; try done; unfold in_u; try lia. destruct Ht as [-> | ->]; done.
  - unfold Wire.encodeBody. destruct Ht as [-> | ->]; cbn; by rewrite ?len_app, ?len_be_put.
  - unfold Wire.encodeBody. destruct Ht as [-> | ->]; cbn; by rewrite ?len_app, ?len_be_put.
Qed.

Lemma probe_sendable t sid tk ts :
  t = Wire.TypePing \/ t = Wire.TypePong -> length sid = 16%nat -> sid <> Wire.zeroSessionID ->
  1 <= tk < 2 ^ 64 -> in_u 64 ts -> sendable (probeMessage t sid tk ts) 72.
Proof.
  intros Ht L N K T. split.
  - split; cbn; try done; unfold in_u in *; try lia. destruct Ht as [-> | ->]; done.
  - unfold Wire.validateMessage, probeMessage. cbn [Wire.Message_Header Wire.Header_SessionID Wire.Header_Type].
    rewrite decide_False by done. cbn [Wire.Message_Handshake Wire.Message_DataShard Wire.Message_Probe Wire.Token].
    replace (tk =? 0) with false by lia. by destruct Ht as [-> | ->].
  - unfold Wire.encodeBody. destruct Ht as [-> | ->]; cbn; by rewrite ?len_app, ?len_be_put.
  - unfold Wire.encodeBody. destruct Ht as [-> | ->]; cbn; by rewrite ?len_app, ?len_be_put.
Qed.

Lemma close_sendable sid :
  length sid = 16%nat -> sid <> Wire.zeroSessionID -> sendable (Wire.mkMessage Wire.TypeClose sid) 56.
Proof.
  intros L N. split; [|unfold Wire.validateMessage; cbn|done|done].
  - by split.
  - by rewrite decide_False.
Qed.

Lemma sendable_encoded m n : sendable m n -> n <= Wire.MaxUDPPayload -> Wire.EncodedLen m = Ok n.
Proof. intros [W V <- B] M. by apply Wire.EncodedLen_ok. Qed.

Lemma sendable_validated m n : sendable m n -> n <= Wire.MaxUDPPayload -> Wire.validated m = Ok m.
Proof. intros S M. unfold Wire.validated. by rewrite (sendable_encoded _ _ S M). Qed.

Lemma sendable_append m n psk b :
  sendable m n -> psk <> [] -> Wire.MinUDPPayload <= b <= Wire.MaxUDPPayload -> n <= b ->
  Wire.AppendAuthenticated [] m psk b = (Wire.sealed psk m, None).
Proof.
  intros S P B N. apply Wire.AppendAuthenticated_ok. split_and!; [done|by apply Wire.validateBudget_ok| |done].
  exists n. split; [|done]. apply sendable_encoded; [done|lia].
Qed.

Lemma sendable_sealed_len m n psk : sendable m n -> len (Wire.sealed psk m) = n.
Proof. intros [W V <- B]. apply Wire.length_sealed, W. Qed.

Lemma sendable_decode m n psk limit :
  sendable m n -> psk <> [] -> Wire.MinUDPPayload <= limit <= Wire.MaxUDPPayload -> n <= limit ->
  Wire.DecodeAuthenticated (Wire.sealed psk m) psk limit = Ok m.
Proof.
  intros S P B N. pose proof (sendable_sealed_len m n psk S). destruct S as [W V E D].
  apply Wire.decode_sealed; try done; [lia|by apply Wire.validateBudget_ok].
Qed.

Lemma u_small w z : in_u w z -> wrap w z = z.
Proof. apply wrap_small. Qed.

Lemma handshake_total t s :
  t = Wire.TypeHello \/ t = Wire.TypeHelloAck -> named s ->
  Wire.newHandshake t (id s) (u8 (Fec.DataShards (params (conf s))))
    (u8 (Fec.ParityShards (params (conf s)))) (u16 (localMaxUDPPayload (conf s)))
  = Ok (handshakeMessage t s).
Proof.
  intros Ht I. pose proof (proj2 I) as [_ C1 C2 C3 C4 _ _ _ _ _ _ _ _ _ _ _].
  unfold Wire.MinUDPPayload, Wire.MaxUDPPayload in *. unfold Wire.newHandshake, u8, u16.
  rewrite !wrap_small by (unfold in_u; lia).
  eapply sendable_validated; [by apply handshake_sendable|unfold Wire.MaxUDPPayload; lia].
Qed.

Lemma NewHello_total s : named s ->
  Wire.NewHello (id s) (u8 (Fec.DataShards (params (conf s)))) (u8 (Fec.ParityShards (params (conf s))))
    (u16 (localMaxUDPPayload (conf s))) = Ok (handshakeMessage Wire.TypeHello s).
Proof. intros I. apply handshake_total; auto. Qed.

Lemma helloAck_total s : named s -> helloAck s = Ok (handshakeMessage Wire.TypeHelloAck s).
Proof. intros I. apply handshake_total; auto. Qed.

Lemma newProbe_total t sid tk ts :
  t = Wire.TypePing \/ t = Wire.TypePong -> length sid = 16%nat -> sid <> Wire.zeroSessionID ->
  1 <= tk < 2 ^ 64 -> in_u 64 ts -> Wire.newProbe t sid tk ts = Ok (probeMessage t sid tk ts).
Proof.
  intros. eapply sendable_validated; [by apply probe_sendable|unfold Wire.MaxUDPPayload; lia].
Qed.

Lemma NewClose_total sid : length sid = 16%nat -> sid <> Wire.zeroSessionID ->
  Wire.NewClose sid = Ok (Wire.mkMessage Wire.TypeClose sid).
Proof.
  intros. unfold Wire.NewClose. eapply sendable_validated; [by apply close_sendable|unfold Wire.MaxUDPPayload; lia].
Qed.

(** The token of a probe that was decoded is not zero. *)
Lemma decoded_token m :
  Wire.validateMessage m = None ->
  Wire.Header_Type (Wire.Message_Header m) = Wire.TypePing \/
  Wire.Header_Type (Wire.Message_Header m) = Wire.TypePong -> Wire.Token (Wire.Message_Probe m) <> 0.
Proof.
  unfold Wire.validateMessage. destruct (decide _); [done|]. intros V [E|E]; rewrite E in V; cbn in V;
    (destruct (_ || _); [done|]); destruct (_ =? 0) eqn:X; [done|lia|done|lia].
Qed.
End Wire.
