(* ===== verification/SessionSteps.v ===== *)
(** * The helpers of a Session preserve its invariant *)

From S2P Require Import Prelude Sha256 Transport Session SessionInv.
From S2P Require Wire Fec FecDecoder FecDelivery.
Import Wire (SessionID).

Section Steps.
Context {Env : Type} `{Sockets Env} `{Fec.ReedSolomon}.
Implicit Types (w : Env) (s : Session).

Lemma touch_known s s' p : touch s s' -> knownCarrier s p -> knownCarrier s' p.
Proof. intros [E _]. unfold core in E. unfold knownCarrier. by replace (carrierByID s') with (carrierByID s) by congruence. Qed.

Lemma touch_state s s' : touch s s' -> state s' = state s.
Proof. intros [E _]. unfold core in E. congruence. Qed.
Lemma touch_conf s s' : touch s s' -> conf s' = conf s.
Proof. intros [E _]. unfold core in E. congruence. Qed.

(** A state with fewer endpoints, and probes that still have an owner. *)
Record shrinks s s' : Prop := {
  sh_touch : touch s s';
  sh_endpoints : forall k e, endpoints s' !! k = Some e ->
    exists e', endpoints s !! k = Some e' /\ ep_key e = ep_key e' /\ ep_path e = ep_path e' /\
      lastActivity e = lastActivity e';
  sh_size : (size (endpoints s') <= size (endpoints s))%nat;
  sh_probes : forall k, is_Some (outstanding s' !! k) -> is_Some (outstanding s !! k) /\
    (role s = RoleListener -> is_Some (endpoints s !! k) -> is_Some (endpoints s' !! k)) }.

Lemma shrinks_refl s : shrinks s s.
Proof. split; [reflexivity|eauto..]. Qed.

Lemma shrinks_trans s1 s2 s3 : shrinks s1 s2 -> shrinks s2 s3 -> shrinks s1 s3.
Proof.
  intros [T1 E1 S1 P1] [T2 E2 S2 P2]. split; [by etrans|..].
  - intros k e Hk. destruct (E2 k e Hk) as (e' & Hk' & -> & -> & ->). eauto.
  - lia.
  - intros k Hk. destruct (P2 k Hk) as [Hk' G2]. destruct (P1 k Hk') as [Hk'' G1].
    rewrite (touch_role _ _ T1) in G2. split; [done|]. eauto.
Qed.

Lemma shrinks_within s s' : Inv s -> shrinks s s' -> within s s'.
Proof.
  intros I [T E _ P] Hs. pose proof (in_phase s I) as Ph.
  assert (U : unestablished s) by (unfold phase_ok in Ph; destruct (state s); naive_solver).
  destruct U as [U1 U2 _ _]. split; apply map_empty; intros k.
  - destruct (endpoints s' !! k) as [e|] eqn:Ek; [|done]. destruct (E k e Ek) as (e' & Hk & _).
    by rewrite U1, lookup_empty in Hk.
  - destruct (outstanding s' !! k) as [e|] eqn:Ek; [|done]. destruct (P k ltac:(eauto)) as [[x Hk] _].
    by rewrite U2, lookup_empty in Hk.
Qed.

Lemma shrinks_inv s s' : shrinks s s' -> Inv s -> Inv s'.
Proof.
  intros Sh I. pose proof (shrinks_within s s' I Sh) as W. destruct Sh as [T E Z P].
  apply (touch_inv s s' T W); [| |done]; destruct (in_endpoints s I) as [B K C].
  - split.
    + rewrite (touch_conf _ _ T). lia.
    + intros k e (e' & Hk & -> & -> & _)%E. eauto.
    + rewrite (touch_role _ _ T). intros R k e (e' & Hk & _ & -> & _)%E.
      eapply touch_known; eauto.
  - intros k [Hk G]%P. pose proof (in_probes s I k Hk) as O. rewrite (touch_role _ _ T).
    destruct (role s); [by eapply touch_known|auto].
Qed.

Lemma sweep_shrinks now s : shrinks s (snd (sweepEndpointsLocked now s)).
Proof.
  destruct (sweep_spec now s) as [T E P C]. split; [done|..].
  - intros k e. rewrite E. unfold alive. intros [Hk _]%map_lookup_filter_Some. eauto.
  - rewrite E. apply map_size_filter.
  - intros k [p Hp]. rewrite P in Hp. split.
    + destruct (role s), (endpoints s !! k) as [e|]; try destruct (expired now s e); eauto; done.
    + intros R [e He]. rewrite R, He in Hp. destruct (expired now s e) eqn:X; [done|].
      rewrite E. exists e. unfold alive. apply map_lookup_filter_Some. done.
Qed.

(** ** Learning an endpoint *)

Lemma canLearn_spec w key path now s err s' :
  canLearnEndpointLocked w key path now s = (err, s') ->
  shrinks s s' /\ (err = None -> is_Some (endpoints s' !! key) \/
    Z.of_nat (size (endpoints s')) < maxEndpoints (conf s')) /\
  (err = None \/ err = Some ErrEndpointLimit).
Proof.
  unfold canLearnEndpointLocked. cbv zeta. pose proof (sweep_shrinks now s) as Sh.
  set (s1 := snd (sweepEndpointsLocked now s)) in *.
  destruct (endpoints s1 !! key) eqn:Ek.
  { intros [= <- <-]. split_and!; eauto. }
  set (s2 := match role s1 with RoleInitiator => _ | RoleListener => s1 end).
  assert (Sh2 : shrinks s1 s2).
  { subst s2. destruct (role s1) eqn:R; [|apply shrinks_refl]. split.
    - apply set_endpoints_touch.
    - intros k e. cbn. intros [Hk _]%map_lookup_filter_Some. eauto.
    - cbn. apply map_size_filter.
    - intros k Hk. split; [done|]. congruence. }
  pose proof (shrinks_trans _ _ _ Sh Sh2) as Sh3.
  destruct (_ <=? _) eqn:Hm; intros [= <- <-]; split_and!; auto; [done|]. intros _. right. lia.
Qed.

(** Learning cannot fail once [canLearnEndpointLocked] succeeded, whatever happened to
    the rest of the Session. *)
Lemma canLearn_again w w' key path now s s' t :
  canLearnEndpointLocked w key path now s = (None, s') ->
  endpoints t = endpoints s' -> conf t = conf s' -> role t = role s' ->
  exists s'', canLearnEndpointLocked w' key path now t = (None, s'').
Proof.
  intros E He Ht Hr. destruct (canLearn_spec _ _ _ _ _ _ _ E) as (_ & Hok & _).
  specialize (Hok eq_refl). destruct (canLearnEndpointLocked w' key path now t) as [err s''] eqn:E'.
  destruct err as [err|]; [exfalso|eauto]. revert E'. unfold canLearnEndpointLocked. cbv zeta.
  assert (Hsw : endpoints (snd (sweepEndpointsLocked now t)) = endpoints t).
  { pose proof (sweep_spec now t) as [_ Hs _ _]. rewrite Hs. unfold alive.
    apply map_filter_id. intros k e Hk. cbn. rewrite He in Hk.
    revert E. unfold canLearnEndpointLocked. cbv zeta.
    pose proof (sweep_spec now s) as [T1 E1 _ _]. set (s1 := snd (sweepEndpointsLocked now s)) in *.
    intros E. assert (Hk1 : endpoints s1 !! k = Some e /\ conf s' = conf s).
    { destruct (endpoints s1 !! key); [injection E as <-; split; [done|by apply touch_conf]|].
      destruct (_ <=? _); [done|]. injection E as <-.
      destruct (role s1); [|split; [done|by apply touch_conf]]. cbn in *.
      apply map_lookup_filter_Some in Hk as [Hk _]. split; [done|by apply (touch_conf _ _ T1)]. }
    destruct Hk1 as [Hk1 Hc]. rewrite E1 in Hk1. apply map_lookup_filter_Some in Hk1 as [_ Hx].
    cbn in Hx. unfold expired in *. by rewrite Ht, Hc. }
  rewrite Hsw, He. destruct (endpoints s' !! key) eqn:Ek; [done|].
  destruct Hok as [[x Hx]|Hlt]; [congruence|].
  pose proof (sweep_shrinks now t) as [T2 _ Z2 _]. rewrite (touch_role _ _ T2), Hr.
  destruct (role s').
  - cbn [endpoints conf set_endpoints]. rewrite (touch_conf _ _ T2), Ht.
    destruct (_ <=? _) eqn:Hm; [|done]. exfalso.
    pose proof (map_size_filter (λ '(_, e), ~ (PathID (ep_path e) = PathID path
      /\ Available w' (ep_path e) = false)) (endpoints s')). lia.
  - rewrite (touch_conf _ _ T2), Ht, Hsw, He. destruct (_ <=? _) eqn:Hm; [lia|done].
Qed.

Lemma with_statistics_identity p c :
  PathID (WithReplyStatistics p c) = PathID p /\
  replyIdentityUnchecked (Some (WithReplyStatistics p c)) = replyIdentityUnchecked (Some p).
Proof. unfold WithReplyStatistics. destruct c, (kind p); done. Qed.

(** The endpoint a packet that was accepted leaves. *)
Record fresh_endpoint (key : bytes) (path : Path) (now : Z) (e : endpointState) : Prop := {
  fe_key : ep_key e = key;
  fe_path : PathID (ep_path e) = PathID path;
  fe_identity : replyIdentityUnchecked (Some (ep_path e)) = replyIdentityUnchecked (Some path);
  fe_activity : lastActivity e = now;
  fe_healthy : healthy e = true }.

Record learned (key : bytes) (path : Path) (now : Z) (s s1 : Session) (l : Learned) : Prop := {
  le_touch : touch s1 (learned_s l);
  le_outstanding : outstanding (learned_s l) = outstanding s1;
  le_endpoint : exists e, endpoints (learned_s l) = <[key := e]> (endpoints s1) /\
    (Inv s -> fresh_endpoint key path now e);
  le_flags : added l = negb (refreshed l) }.

Lemma learn_spec w key path now s reg :
  let l := learnEndpointLocked w key path now s reg in
  match canLearnEndpointLocked w key path now s with
  | (Some e, s1) => learn_err l = Some e /\ learned_s l = s1 /\ learned_reg l = reg /\
                    added l = false /\ refreshed l = false
  | (None, s1) => learn_err l = None /\ learned key path now s s1 l
  end.
Proof.
  cbv zeta. unfold learnEndpointLocked. destruct (canLearnEndpointLocked w key path now s) as [[e|] s1] eqn:E;
    [done|]. destruct (canLearn_spec _ _ _ _ _ _ _ E) as (Sh & _ & _).
  destruct (match role s1 with RoleInitiator => _ | RoleListener => _ end) as [counters reg1].
  set (path1 := match role s1 with RoleInitiator => path | RoleListener => _ end).
  assert (Hid : PathID path1 = PathID path /\
    replyIdentityUnchecked (Some path1) = replyIdentityUnchecked (Some path)).
  { subst path1. destruct (role s1); [done|apply with_statistics_identity]. }
  assert (Hk : forall e, endpoints s1 !! key = Some e -> Inv s -> ep_key e = key).
  { intros e He I. apply (shrinks_inv _ _ Sh) in I. by destruct (eo_key _ (in_endpoints _ I) _ _ He). }
  destruct (endpoints s1 !! key) as [e|] eqn:Ek; cbn [learn_err learned_s added refreshed negb]; (split; [done|]).
  - split; cbn [learned_s added refreshed]; [|by rewrite (proj2 (update_carrier_tables _ _ _))| |done].
    + etrans; [apply set_endpoints_touch|apply update_carrier_touch].
    + eexists. rewrite (proj1 (update_carrier_tables _ _ _)). split; [reflexivity|].
      intros I. destruct Hid. split; cbn; try done. by apply Hk.
  - split; cbn [learned_s added refreshed]; [|by rewrite (proj2 (update_carrier_tables _ _ _))| |done].
    + etrans; [apply set_endpoints_touch|apply update_carrier_touch].
    + eexists. rewrite (proj1 (update_carrier_tables _ _ _)). split; [reflexivity|].
      intros I. destruct Hid. split; cbn; done.
Qed.

Lemma size_insert_bound {A} (m : gmap bytes A) k x n :
  is_Some (m !! k) \/ Z.of_nat (size m) < n -> Z.of_nat (size m) <= n ->
  Z.of_nat (size (<[k := x]> m)) <= n.
Proof.
  intros Hk Hn. destruct (m !! k) as [y|] eqn:E.
  - rewrite map_size_insert_Some by done. lia.
  - rewrite map_size_insert_None by done. destruct Hk as [[? ?]|]; [congruence|lia].
Qed.

(** Inserting the endpoint of an accepted packet. *)
Lemma learned_inv w key path now s s1 l :
  Inv s -> state s = StateEstablished -> replyIdentityUnchecked (Some path) = Ok key ->
  (role s = RoleInitiator -> knownCarrier s (PathID path)) ->
  canLearnEndpointLocked w key path now s = (None, s1) -> learned key path now s s1 l ->
  Inv (learned_s l) /\ touch s (learned_s l).
Proof.
  intros I S Hk Hc E [T O (e & HE & Hf) _]. specialize (Hf I).
  destruct (canLearn_spec _ _ _ _ _ _ _ E) as (Sh & Hroom & _). specialize (Hroom eq_refl).
  pose proof (shrinks_inv _ _ Sh I) as I1. pose proof (sh_touch _ _ Sh) as T1.
  split; [|by etrans]. apply (touch_inv s1 _ T); [|split| |done].
  - intros N. rewrite (touch_state _ _ T1) in N. done.
  - rewrite (touch_conf _ _ T), HE. apply size_insert_bound; [done|]. apply (in_endpoints _ I1).
  - intros k x. rewrite HE. destruct (decide (key = k)) as [<-|Hne].
    + rewrite lookup_insert_eq. intros [= <-]. destruct Hf. split; congruence.
    + rewrite lookup_insert_ne by done. apply (in_endpoints _ I1).
  - rewrite (touch_role _ _ T). intros R k x. rewrite HE. destruct (decide (key = k)) as [<-|Hne].
    + rewrite lookup_insert_eq. intros [= <-]. rewrite (fe_path _ _ _ _ Hf).
      eapply touch_known; [exact T|]. eapply touch_known; [exact T1|]. apply Hc.
      by rewrite <- (touch_role _ _ T1).
    + rewrite lookup_insert_ne by done. intros Hx. eapply touch_known; [exact T|].
      by apply (eo_carrier _ (in_endpoints _ I1) R k).
  - intros k. rewrite O, (touch_role _ _ T). intros Hx. pose proof (in_probes _ I1 k Hx) as P.
    destruct (role s1); [by eapply touch_known|]. rewrite HE. apply lookup_insert_is_Some'. auto.
Qed.

(** All of it: learning keeps the invariant whether it succeeds or not. *)
Lemma learn_inv w key path now s reg :
  let l := learnEndpointLocked w key path now s reg in
  Inv s -> state s = StateEstablished -> replyIdentityUnchecked (Some path) = Ok key ->
  (role s = RoleInitiator -> knownCarrier s (PathID path)) ->
  Inv (learned_s l) /\ touch s (learned_s l).
Proof.
  cbv zeta. intros I S Hk Hc. pose proof (learn_spec w key path now s reg) as L. cbv zeta in L.
  destruct (canLearnEndpointLocked w key path now s) as [[e|] s1] eqn:E.
  - destruct L as (_ & -> & _). destruct (canLearn_spec _ _ _ _ _ _ _ E) as (Sh & _ & _).
    split; [by eapply shrinks_inv|apply Sh].
  - destruct L as [_ L]. by eapply learned_inv.
Qed.

(** ** Health *)

Lemma alter_shrinks f k s :
  (forall e, ep_key (f e) = ep_key e /\ ep_path (f e) = ep_path e /\ lastActivity (f e) = lastActivity e) ->
  shrinks s (set_endpoints (alter f k (endpoints s)) s).
Proof.
  intros Hf. split.
  - apply set_endpoints_touch.
  - intros k' e. cbn. rewrite lookup_alter_Some.
    intros [(<- & e' & He & ->)|[Hne He]]; [|eauto]. destruct (Hf e') as (? & ? & ?). eauto.
  - cbn. by rewrite <- !(size_dom (D := gset bytes)), dom_alter_L.
  - intros k' Hk. split; [done|]. intros _ He. cbn.
    by rewrite <- (elem_of_dom (D := gset bytes)), dom_alter_L, elem_of_dom.
Qed.

Lemma update_carrier_shrinks p b s : shrinks s (update_carrier p (car_set_healthy b) s).
Proof.
  destruct (update_carrier_tables p (car_set_healthy b) s) as [E O]. split.
  - apply update_carrier_touch.
  - rewrite E. eauto.
  - by rewrite E.
  - rewrite O, E. auto.
Qed.

Lemma setPathHealth_shrinks p b s : shrinks s (setPathHealthForPath p b s).
Proof.
  unfold setPathHealthForPath. destruct (role s); [apply update_carrier_shrinks|].
  destruct (replyIdentityUnchecked _); [|apply shrinks_refl]. by apply alter_shrinks.
Qed.

Lemma drop_probe_shrinks k s : shrinks s (set_outstanding (delete k (outstanding s)) s).
Proof.
  split; [apply set_outstanding_touch|eauto|done|]. cbn. intros k' [x [_ Hx]%lookup_delete_Some]. eauto.
Qed.

Lemma afterSend_shrinks plan err b s : shrinks s (afterSend plan err b s).
Proof.
  unfold afterSend. set (s1 := match probeKey plan with Some _ => _ | None => s end).
  assert (shrinks s s1).
  { subst s1. destruct (probeKey plan), err; try apply shrinks_refl.
    destruct b; [|apply shrinks_refl]. destruct (outstanding s !! _); [|apply shrinks_refl].
    destruct (_ =? _); [apply drop_probe_shrinks|apply shrinks_refl]. }
  destruct (isPathHealthFailure err); [|done].
  eapply shrinks_trans; [done|apply setPathHealth_shrinks].
Qed.

Lemma execute_shrinks ctx b plans : forall s w attempts s' w',
  execute ctx b plans s w = (attempts, s', w') -> shrinks s s' /\ length attempts = length plans.
Proof.
  induction plans as [|plan plans IH]; intros s w attempts s' w'; cbn [execute].
  { intros [= <- <- <-]. split; [apply shrinks_refl|done]. }
  destruct (sendOne ctx b plan s w) as [err w1].
  destruct (execute ctx b plans (afterSend plan err b s) w1) as [[rest s1] w2] eqn:E.
  intros [= <- <- <-]. apply IH in E as [Sh L]. split; [|cbn; by f_equal].
  eapply shrinks_trans; [apply afterSend_shrinks|done].
Qed.

Lemma recordFailures_shrinks r ps s : shrinks s (recordBlockPathFailures r ps s).
Proof.
  unfold recordBlockPathFailures. revert s. induction (Attempts r) as [|a l IH]; intros s; [apply shrinks_refl|].
  cbn [foldl]. eapply shrinks_trans; [|apply IH].
  destruct (_ && _); [|apply shrinks_refl]. destruct (ps !! _); [apply setPathHealth_shrinks|apply shrinks_refl].
Qed.
End Steps.
