(* ===== verification/SessionRun.v ===== *)
(** * The methods of a Session: invariant and life cycle

    [evolves] is what never goes back: the identity and the configuration of a Session
    are fixed, its state only moves forward, and what was negotiated is frozen.  Every
    method keeps the invariant and evolves the Session; [step] lets the sends of one
    method interleave with the other methods. *)

From S2P Require Import Prelude Sha256 Transport Session SessionInv SessionWire SessionSteps.
From S2P Require Wire Fec FecDecoder FecDecoderProps FecDelivery.
Import Wire (SessionID).

(** ** Evolution *)

Definition may_follow (a b : State) : Prop := a = b \/ a = StateHandshaking \/ b = StateClosed.

Definition car_evolves (c c' : carrierState) : Prop :=
  car_path c' = car_path c /\ attempts c <= attempts c' /\ (acked c = true -> acked c' = true).

Record evolves (s s' : Session) : Prop := {
  ev_static : (id s', role s', conf s', carrierByID s') = (id s, role s, conf s, carrierByID s);
  ev_carriers : Forall2 car_evolves (carriers s) (carriers s');
  ev_started : started s = true -> started s' = true;
  ev_state : may_follow (state s) (state s');
  ev_frozen : state s <> StateHandshaking ->
    (peerMaxUDPPayload s', sendMaxUDPPayload s', receiveMaxUDPPayload s')
      = (peerMaxUDPPayload s, sendMaxUDPPayload s, receiveMaxUDPPayload s) }.

Lemma car_evolves_refl c : car_evolves c c.
Proof. split_and!; (done || lia). Qed.

Lemma cars_evolve_refl l : Forall2 car_evolves l l.
Proof. induction l; constructor; auto using car_evolves_refl. Qed.

Lemma evolves_refl s : evolves s s.
Proof. split; try done; [apply cars_evolve_refl|by left]. Qed.

Lemma evolves_trans s1 s2 s3 : evolves s1 s2 -> evolves s2 s3 -> evolves s1 s3.
Proof.
  intros [A1 A2 A3 A4 A5] [B1 B2 B3 B4 B5]. split.
  - congruence.
  - eapply Forall2_compose; [|exact A2|exact B2].
    intros x y z (P1 & P2 & P3) (Q1 & Q2 & Q3). split_and!; [congruence|lia|auto].
  - auto.
  - unfold may_follow in *. destruct A4 as [->|[->| E]]; [done|by right; left|].
    rewrite E in *. destruct B4 as [<-|[|]]; [by right; right|done|by right; right].
  - intros N. rewrite B5, A5; [done|done|]. intros E. destruct A4 as [A4|[A4|A4]]; congruence.
Qed.

#[export] Instance evolves_preorder : PreOrder evolves.
Proof. split; red; [apply evolves_refl|apply evolves_trans]. Qed.

Lemma touch_evolves s s' : touch s s' -> evolves s s'.
Proof.
  intros [E F]. unfold core in E. split.
  - congruence.
  - eapply Forall2_impl; [exact F|]. intros x y ->. destruct x. split_and!; cbn; auto; lia.
  - congruence.
  - left. congruence.
  - congruence.
Qed.

Section Methods.
Context {Env : Type} `{Sockets Env} `{Fec.ReedSolomon}.
Implicit Types (w : Env) (s : Session).

(** What a method does to a Session. *)
Definition good s s' : Prop := Inv s -> Inv s' /\ evolves s s'.

Lemma keeps_refl s : good s s.
Proof. intros I. split; [done|reflexivity]. Qed.

Lemma keeps_trans s1 s2 s3 : good s1 s2 -> good s2 s3 -> good s1 s3.
Proof.
  intros G1 G2 I1. destruct (G1 I1) as [I2 E1]. destruct (G2 I2) as [I3 E2].
  split; [done|by etrans].
Qed.

Lemma shrinks_good s s' : shrinks s s' -> good s s'.
Proof. intros Sh I. split; [by eapply shrinks_inv|apply touch_evolves, Sh]. Qed.

(** ** Construction *)

Lemma normalizeConfig_ok c conf : normalizeConfig c = Ok conf -> settings_ok conf.
Proof.
  unfold normalizeConfig, outside, Wire.NewAuthenticator, Config.MinMaxPendingFECBlocks,
    Fec.MaxTotalShards. intros N. go_inv N. go_inv E8. subst.
  pose proof (len_nonneg (PSK c)). bools. split; cbn; lia.
Qed.

Definition indexed (cs : list carrierState) (m : gmap bytes nat) : Prop :=
  forall p i, m !! p = Some i <-> exists c, cs !! i = Some c /\ PathID (car_path c) = p.

Lemma addCarriers_ok paths : forall states m out m',
  addCarriers paths states m = Ok (out, m') -> indexed states m ->
  Forall (fun c => attempts c = 0 /\ acked c = false /\ exhausted c = false /\ nextRetry c = None) states ->
  indexed out m' /\ length out = (length states + length paths)%nat /\
  Forall (fun c => attempts c = 0 /\ acked c = false /\ exhausted c = false /\ nextRetry c = None) out.
Proof.
  induction paths as [|[p|] paths IH]; intros states m out m' E I F; cbn in E; [|go_inv E|done].
  { injection E as <- <-. cbn. split_and!; [done|lia|done]. }
  apply IH in E as (I' & L & F'); [split_and!; [done|rewrite L, length_app; cbn; lia|done]| |].
  - intros q i. destruct (decide (PathID p = q)) as [<-|Hne].
    + rewrite lookup_insert_eq. split.
      * intros [= <-]. eexists. rewrite list_lookup_middle by done. done.
      * intros (c & [Hc|[Hi Hc]]%lookup_app_Some & Hp).
        -- assert (m !! PathID p = Some i) by (apply I; eauto). congruence.
        -- destruct (i - length states)%nat eqn:X; [f_equal; lia|done].
    + rewrite lookup_insert_ne by done. rewrite (I q i). split; intros (c & Hc & Hp).
      * exists c. split; [|done]. by apply lookup_app_l_Some.
      * apply lookup_app_Some in Hc as [Hc|[Hi Hc]]; [eauto|].
        destruct (i - length states)%nat; [|done]. cbn in Hc. injection Hc as <-. done.
  - apply Forall_app. split; [done|]. by repeat constructor.
Qed.

Lemma newSession_inv sid r c b cs m :
  length sid = 16%nat -> sid <> Wire.zeroSessionID -> settings_ok c -> indexed cs m ->
  len cs <= maxPaths -> (r = RoleListener -> cs = [] /\ b = true) ->
  (cs = [] \/ b = false) ->
  Forall (fun c => attempts c = 0 /\ acked c = false /\ exhausted c = false /\ nextRetry c = None) cs ->
  Inv (newSession sid r c b cs m).
Proof.
  intros L N C I B R D F. pose proof C as [_ _ _ _ _ _ C7 C8 _ _ _ _ _ _ _ _].
  split; cbn; try done.
  - split; cbn; try done.
    + intros Hr. by destruct (R Hr).
    + eapply Forall_impl; [exact F|]. intros x (X1 & X2 & X3 & X4). split; rewrite ?X1, ?X2, ?X3; try done; lia.
    + intros Hb _. destruct D as [->|]; [constructor|congruence].
  - split; cbn; [|by intros k e Hk|by intros _ k e Hk]. rewrite map_size_empty. lia.
  - intros k [x Hk]. cbn in Hk. by rewrite lookup_empty in Hk.
  - unfold initialToken. pose proof (be_get_range (take 8 (sha256 sid))) as Hr.
    assert (8 * len (take 8 (sha256 sid)) <= 64) by (unfold len; rewrite length_take; lia).
    assert (2 ^ (8 * len (take 8 (sha256 sid))) <= 2 ^ 64) by (apply Z.pow_le_mono_r; lia).
    destruct (_ =? 0) eqn:X; lia.
  - intros Hr. by destruct (R Hr).
  - split_and!; cbn; try done. eapply Forall_impl; [exact F|]. naive_solver.
Qed.

Lemma NewInitiator_inv sid config paths s :
  length sid = 16%nat -> NewInitiator sid config paths = Ok s ->
  Inv s /\ role s = RoleInitiator /\ state s = StateHandshaking /\ id s = sid.
Proof.
  intros L E. unfold NewInitiator in E. go_inv E. destruct x0 as [cs m]. subst s.
  apply addCarriers_ok in E3 as (I & Hl & F); [|by intros ? ?; rewrite lookup_empty; naive_solver|by constructor].
  split; [|done]. bools. apply newSession_inv; auto.
  - by eapply normalizeConfig_ok.
  - unfold len in *. rewrite Hl. cbn. lia.
  - done.
Qed.

(** ** Establishing *)

Lemma validateHandshake_ok h s :
  validateHandshake h s = None -> Wire.MinUDPPayload <= Wire.Handshake_MaxUDPPayload h <= Wire.MaxUDPPayload.
Proof. unfold validateHandshake. destruct (_ || _); [done|]. destruct (_ || _) eqn:E; [done|]. intros _. lia. Qed.

Lemma negotiated_typed c h :
  settings_ok c -> Wire.MinUDPPayload <= Wire.Handshake_MaxUDPPayload h <= Wire.MaxUDPPayload ->
  Fec.budget_typed (negotiatedBudget c h).
Proof.
  intros [_ _ _ _ L D _ _ _ _ _ _ _ _ _ _]. unfold Wire.MinUDPPayload, Wire.MaxUDPPayload,
    Config.MinMaxDatagramSize, Config.MaxMaxDatagramSize in *. intros B.
  split; unfold Fec.in_int, negotiatedBudget, Wire.DataShardOverhead, Wire.PrefixSize,
    Wire.DataShardMetadataSize, Wire.AuthenticationTagSize; cbn; lia.
Qed.

Lemma establish_spec h now s err s' :
  Inv s -> state s = StateHandshaking -> establishLocked h now s = (err, s') ->
  match err with
  | Some e => s' = s /\ e = ErrHandshakeIncompatible
  | None => Inv s' /\ evolves s s' /\ state s' = StateEstablished /\
      carriers s' = carriers s /\ id s' = id s /\ conf s' = conf s /\ role s' = role s /\
      peerMaxUDPPayload s' = Wire.Handshake_MaxUDPPayload h /\
      sendMaxUDPPayload s' = Z.min (localMaxUDPPayload (conf s)) (Wire.Handshake_MaxUDPPayload h)
  end.
Proof.
  intros I S. unfold establishLocked.
  destruct (validateHandshake h s) as [e|] eqn:V.
  { intros [= <- <-]. split; [done|]. revert V. unfold validateHandshake.
    destruct (_ || _); [congruence|]. destruct (_ || _); congruence. }
  apply validateHandshake_ok in V as R.
  destruct (Fec.NewEncoder _ _) as [enc|] eqn:E1; [|intros [= <- <-]; done].
  destruct (FecDecoder.NewDecoder _) as [dec|] eqn:E2; [|intros [= <- <-]; done].
  intros [= <- <-]. pose proof I as [I1 I2 I3 I4 I5 I6 I7 I8].
  unfold phase_ok in I8. rewrite S in I8. destruct I8 as ([U1 U2 _ _] & Hc & Ha).
  pose proof (negotiated_typed (conf s) h I2 R) as T.
  split_and!; try done.
  - split; cbn; try done.
    + destruct I3 as [J1 J2 J3 J4 J5]. split; cbn; try done. intros A _. apply J5; [done|congruence].
    + destruct I4. by split.
    + unfold phase_ok. cbn. split; [|done]. split; cbn; try done.
      * exists enc. split; [done|]. exists 0, false. split; [unfold in_u; lia|]. exact E1.
      * exists dec. split; [done|]. exists dec, []. split_and!; [exact E2|constructor|done|].
        apply FecDelivery.NewDecoder_live in E2; [|exact T]. apply E2.
  - split; cbn; try done; [apply cars_evolve_refl|right; by left].
Qed.

(** Replacing the carriers of a Session by evolved ones. *)
Lemma set_carriers_good s cs :
  Forall2 car_evolves (carriers s) cs ->
  (Inv s -> Forall (carrier_ok (conf s) (started s)) cs) ->
  (Inv s -> started s = true -> state s <> StateClosed ->
     Forall (fun c => acked c = true \/ exhausted c = true \/ nextRetry c <> None) cs) ->
  (state s = StateHandshaking -> Forall2 (fun c c' => acked c' = acked c) (carriers s) cs) ->
  state s <> StateHandshakeFailed -> state s <> StateClosed ->
  good s (set_carriers cs s).
Proof.
  intros F K L A N1 N2 I. pose proof I as [I1 I2 I3 I4 I5 I6 I7 I8]. specialize (K I). split.
  - split; cbn; try done.
    + destruct I3 as [J1 J2 J3 J4 J5]. split; cbn; try done; [| | |by intros; apply L].
      * intros p i. rewrite J1. split; intros (c & Hc & Hp).
        -- destruct (Forall2_lookup_l _ _ _ _ _ F Hc) as (c' & Hc' & P & _). exists c'. split; [done|congruence].
        -- destruct (Forall2_lookup_r _ _ _ _ _ F Hc) as (c' & Hc' & P & _). exists c'. split; [done|congruence].
      * unfold len in *. by rewrite <- (Forall2_length _ _ _ F).
      * intros R. specialize (J3 R). rewrite J3 in F. by inversion F.
    + destruct I4. by split.
    + unfold phase_ok in *. cbn. destruct (state s) eqn:S; try done.
      * destruct I8 as ([] & C & Ha). split_and!; [by split|done|].
        specialize (A eq_refl). revert Ha. clear -A. induction A; intros Ha; inversion_clear Ha; constructor; auto.
        congruence.
      * destruct I8 as ([] & C). split; [by split|done].
  - split; cbn; try done; by left.
Qed.

(** The carrier after one more HELLO. *)
Definition retried (now : Z) s (c : carrierState) : carrierState :=
  car_retry (attempts c + 1)
    (Some (now + (handshakeRetryInterval (conf s) + retryJitter (PathID (car_path c)) (attempts c + 1) s))) c.

Definition helloPlan s (c : carrierState) : sendPlan :=
  reply (handshakeMessage Wire.TypeHello s) (car_path c) (localMaxUDPPayload (conf s)).

Lemma planHello_total now s c : named s -> planHello now s c = Ok (helloPlan s c, retried now s c).
Proof. intros N. unfold planHello. by rewrite NewHello_total. Qed.

Lemma planHellos_total now s cs : named s ->
  planHellos now s cs = (Ok (helloPlan s <$> cs), retried now s <$> cs).
Proof. intros N. induction cs as [|c cs IH]; [done|]. cbn [planHellos]. by rewrite planHello_total, IH. Qed.

Lemma retried_evolves now s c : car_evolves c (retried now s c).
Proof. split_and!; cbn; (done || lia). Qed.

Lemma Forall_and_2 {A} (P Q : A -> Prop) l : Forall P l -> Forall Q l -> Forall (fun x => P x /\ Q x) l.
Proof. intros HP HQ. apply Forall_and. done. Qed.

Lemma Forall2_fmap_self {A} (R : A -> A -> Prop) (f : A -> A) l :
  (forall x, R x (f x)) -> Forall2 R l (f <$> l).
Proof. intros HR. induction l; constructor; auto. Qed.

(** ** Start *)

Lemma started_good s :
  state s = StateHandshaking -> role s = RoleInitiator -> started s = false -> forall now,
  good s (set_carriers (retried now (set_started true s) <$> carriers s) (set_started true s)).
Proof.
  intros S R St now I. pose proof I as [I1 I2 I3 I4 I5 I6 I7 I8].
  unfold phase_ok in I8. rewrite S in I8. destruct I8 as ([] & C & Ha).
  destruct I3 as [J1 J2 J3 J4 J5]. rewrite St in J4. split.
  - split; cbn; try done.
    + split; cbn; try done.
      * intros p i. rewrite J1, list_lookup_fmap. destruct (carriers s !! i); cbn; naive_solver.
      * unfold len in *. by rewrite length_fmap.
      * intros L. by rewrite J3.
      * apply Forall_fmap. eapply Forall_impl; [exact (Forall_and_2 _ _ _ J4 Ha)|].
        intros c [[C1 C2 C3 C4] Hc]. destruct (C2 eq_refl) as [Ca Ce]. pose proof (so_attempts _ I2).
        split; cbn; try done; [lia|congruence..].
      * intros _ _. apply Forall_fmap, Forall_true. intros c. by right; right.
    + destruct I4. by split.
    + unfold phase_ok. cbn. rewrite S. split_and!; [by split|done|]. by apply Forall_fmap.
  - split; cbn; try done; [|by left]. apply Forall2_fmap_self. intros c. apply retried_evolves.
Qed.

Lemma Start_good ctx s w : good s (snd (fst (Start ctx s w))).
Proof.
  unfold Start. destruct (checkContext ctx w) as [c|e]; [|apply keeps_refl].
  destruct (Now w) as [now w1]. destruct (state s) eqn:S; try apply keeps_refl.
  destruct (bool_decide (role s = RoleListener)) eqn:R; [apply keeps_refl|].
  destruct (started s) eqn:St; [apply keeps_refl|]. cbv zeta. intros I.
  rewrite planHellos_total by (destruct (Inv_named s I); done). cbn [carriers set_started].
  destruct (executePlans _ _ _ _) as [[attempts s3] w2] eqn:E. cbn [fst snd].
  apply execute_shrinks in E as [Sh _]. revert I. eapply keeps_trans; [|apply shrinks_good, Sh].
  apply started_good; [done| |done]. bools. by destruct (role s).
Qed.

(** ** Codecs *)

Lemma run_snoc ops op : forall d,
  snd (FecDelivery.run d (ops ++ [op])) = snd (FecDelivery.step (snd (FecDelivery.run d ops)) op).
Proof.
  induction ops as [|o ops IH]; intros d; cbn [app FecDelivery.run].
  { cbn. destruct (FecDelivery.step d op) as [o d1]. done. }
  destruct (FecDelivery.step d o) as [out d1]. specialize (IH d1).
  destruct (FecDelivery.run d1 (ops ++ [op])), (FecDelivery.run d1 ops). exact IH.
Qed.

Lemma decoder_step s dec op :
  decoder_reachable s dec -> FecDelivery.op_typed op ->
  FecDecoder.closed (snd (FecDelivery.step dec op)) = false ->
  decoder_reachable s (snd (FecDelivery.step dec op)).
Proof.
  intros (d0 & pre & N & T & -> & _) To C. exists d0, (pre ++ [op]).
  split_and!; [done| |by rewrite run_snoc|done]. apply Forall_app. by repeat constructor.
Qed.

Lemma AddVerifiedShard_open d now input :
  FecDecoder.closed (snd (FecDecoder.AddVerifiedShard d now input)) = FecDecoder.closed d.
Proof.
  pose proof (FecDecoderProps.AddVerifiedShard_static d now input) as E.
  unfold FecDecoderProps.static in E. congruence.
Qed.

Lemma Sweep_open d now : FecDecoder.closed (snd (FecDecoder.Sweep d now)) = FecDecoder.closed d.
Proof.
  unfold FecDecoder.Sweep. destruct (FecDecoder.closed d) eqn:C; [done|].
  pose proof (FecDecoderProps.sweepLocked_static d now) as E. unfold FecDecoderProps.static in E. congruence.
Qed.

(** Changing the codecs and the deadlines of an established Session. *)
Lemma set_decoder_good s dec :
  state s = StateEstablished -> (Inv s -> decoder_reachable s dec) -> good s (set_decoder (Some dec) s).
Proof.
  intros S R I. specialize (R I). pose proof I as [I1 I2 I3 I4 I5 I6 I7 I8].
  unfold phase_ok in I8. rewrite S in I8. destruct I8 as ([E1 _ E3 E4 E5] & C). split.
  - split; try done; [by destruct I3|by destruct I4|]. unfold phase_ok. cbn. rewrite S.
    split; [|done]. split; try done. by exists dec.
  - split; try done; [apply cars_evolve_refl|by left].
Qed.

Lemma set_encoder_good s enc :
  state s = StateEstablished -> (Inv s -> encoder_reachable s enc) -> good s (set_encoder (Some enc) s).
Proof.
  intros S R I. specialize (R I). pose proof I as [I1 I2 I3 I4 I5 I6 I7 I8].
  unfold phase_ok in I8. rewrite S in I8. destruct I8 as ([_ E2 E3 E4 E5] & C). split.
  - split; try done; [by destruct I3|by destruct I4|]. unfold phase_ok. cbn. rewrite S.
    split; [|done]. split; try done. by exists enc.
  - split; try done; [apply cars_evolve_refl|by left].
Qed.

Lemma set_times_good s t : state s = StateEstablished ->
  good s (set_nextKeepalive (Some t) s) /\ good s (set_nextDecodeSweep (Some t) s).
Proof.
  intros S. split; intros I; pose proof I as [I1 I2 I3 I4 I5 I6 I7 I8];
    unfold phase_ok in I8; rewrite S in I8; destruct I8 as ([E1 E2 E3 E4 [E5 E6]] & C); split.
  - split; try done; [by destruct I3|by destruct I4|]. unfold phase_ok. cbn. rewrite S. split; [|done]. by split.
  - split; try done; [apply cars_evolve_refl|by left].
  - split; try done; [by destruct I3|by destruct I4|]. unfold phase_ok. cbn. rewrite S. split; [|done]. by split.
  - split; try done; [apply cars_evolve_refl|by left].
Qed.

Lemma markClosed_good s : good s (markClosedLocked (set_encoder None (set_decoder None s))).
Proof.
  intros I. pose proof I as [I1 I2 I3 I4 I5 I6 I7 I8]. destruct I3 as [J1 J2 J3 J4 J5]. split.
  - split; cbn; try done.
    + split; cbn; try done.
      * intros p i. rewrite J1, list_lookup_fmap. destruct (carriers s !! i); cbn; naive_solver.
      * unfold len in *. by rewrite length_fmap.
      * intros R. by rewrite J3.
      * apply Forall_fmap. eapply Forall_impl; [exact J4|]. intros c [C1 C2 C3 C4]. split; cbn; try done. naive_solver.
    + split; cbn; [rewrite map_size_empty; pose proof (so_endpoints _ I2); lia|by intros ? ? ?|by intros _ ? ? ?].
    + intros k [x Hk]. cbn in Hk. by rewrite lookup_empty in Hk.
    + unfold phase_ok. cbn. split_and!; [by split|done|]. by apply Forall_fmap, Forall_true.
  - split; cbn; try done; [|by right; right].
    apply Forall2_fmap_self. intros c. split_and!; cbn; (done || lia).
Qed.

Lemma acknowledge_good s p :
  state s = StateEstablished -> good s (update_carrier p car_acknowledge s).
Proof.
  intros S. unfold update_carrier. destruct (carrierByID s !! p) as [i|]; [|apply keeps_refl].
  apply set_carriers_good; [| | | |congruence|congruence].
  - apply alter_Forall2; [apply car_evolves_refl|]. intros c. split_and!; cbn; (done || lia).
  - intros I. apply Forall_alter; [apply (in_carriers s I)|]. intros c _ [C1 C2 C3 C4]. split; cbn; try done. naive_solver.
  - intros I St N. apply Forall_alter; [by apply (in_carriers s I)|]. intros c _ _. by left.
  - congruence.
Qed.

(** ** Received packets *)

Section packet.
Variables (key : bytes) (path : Path) (now : Z) (r0 : HandleResult).
Variables (s : Session) (reg : option ListenerPathCounters) (w : Env).
Hypothesis (Hkey : replyIdentityUnchecked (Some path) = Ok key).
Hypothesis (Hpath : role s = RoleInitiator -> knownCarrier s (PathID path)).

Lemma learn_good s1 : evolves s s1 -> state s1 = StateEstablished ->
  good s1 (learned_s (learnEndpointLocked w key path now s1 reg)).
Proof.
  intros E S I. destruct (learn_inv w key path now s1 reg I S Hkey) as [I' T].
  - intros R. destruct E as [E _ _ _ _]. unfold knownCarrier in *. injection E as _ E2 _ ->. apply Hpath. congruence.
  - split; [done|by apply touch_evolves].
Qed.

Lemma learned_state s1 : state (learned_s (learnEndpointLocked w key path now s1 reg)) = state s1.
Proof.
  pose proof (learn_spec w key path now s1 reg) as L. cbv zeta in L.
  destruct (canLearnEndpointLocked w key path now s1) as [[e|] s2] eqn:E;
    destruct (canLearn_spec _ _ _ _ _ _ _ E) as ([T _ _ _] & _ & _).
  - destruct L as (_ & -> & _). by apply touch_state.
  - destruct L as (_ & L). rewrite (touch_state _ _ (le_touch _ _ _ _ _ _ L)). by apply touch_state.
Qed.

Lemma handleHello_good h : good s (br_s (handleHello key path now r0 s reg w h)).
Proof.
  unfold handleHello. destruct (negb _ || _) eqn:C; [apply keeps_refl|]. bools.
  destruct (validateFrozenHandshakeLocked h s); [apply keeps_refl|]. cbv zeta.
  pose proof (learn_good s (evolves_refl s) ltac:(done)) as G.
  destruct (learn_err _); [exact G|]. by destruct (helloAck _).
Qed.

Lemma handleHelloAck_good h : good s (br_s (handleHelloAck key path now r0 s reg w h)).
Proof.
  unfold handleHelloAck. destruct (negb _ || _) eqn:C; [apply keeps_refl|].
  assert (Hst : state s = StateHandshaking \/ state s = StateEstablished).
  { apply orb_false_elim in C as [_ C]. apply andb_false_elim in C as [C|C]; bools; auto. }
  clear C. intros I.
  assert (Hend : forall s1 (r : HandleResult), evolves s s1 -> Inv s1 -> state s1 = StateEstablished ->
    let l := learnEndpointLocked w key path now s1 reg in
    let b := match learn_err l with
      | Some e => br (learned_s l) (learned_reg l) w (res_learned l r) (Some e)
      | None => br (update_carrier (PathID path) car_acknowledge (learned_s l)) (learned_reg l) w
                  (res_learned l r) None
      end in Inv (br_s b) /\ evolves s (br_s b)).
  { intros s1 r E I1 S. cbv zeta. destruct (learn_good s1 E S I1) as [I2 E2].
    destruct (learn_err _); cbn [br_s br].
    - split; [done|by etrans].
    - destruct (acknowledge_good _ (PathID path) ltac:(rewrite learned_state; exact S) I2) as [I3 E3].
      split; [done|]. etrans; [exact E|]. by etrans. }
  destruct (bool_decide (state s = StateHandshaking)) eqn:Hs; bools.
  - destruct (establishLocked h now s) as [[e|] s1] eqn:E.
    + apply (establish_spec _ _ _ _ _ I Hs) in E as [-> _]. by apply keeps_refl.
    + apply (establish_spec _ _ _ _ _ I Hs) in E as (I1 & E1 & S1 & _). by apply Hend.
  - destruct Hst; [done|]. destruct (validateFrozenHandshakeLocked h s); [by apply keeps_refl|].
    apply Hend; [reflexivity|done..].
Qed.

Lemma handlePing_good p : good s (br_s (handlePing key path now r0 s reg w p)).
Proof.
  unfold handlePing. destruct (negb _) eqn:C; [apply keeps_refl|]. bools. cbv zeta.
  pose proof (learn_good s (evolves_refl s) ltac:(done)) as G.
  destruct (learn_err _); [exact G|]. by destruct (Wire.NewPong _ _ _).
Qed.

Lemma canLearn_good err s1 :
  canLearnEndpointLocked w key path now s = (err, s1) -> good s s1 /\ state s1 = state s /\ role s1 = role s.
Proof.
  intros E. destruct (canLearn_spec _ _ _ _ _ _ _ E) as (Sh & _ & _).
  split_and!; [by apply shrinks_good|by apply touch_state, Sh|by apply touch_role, Sh].
Qed.

Lemma handlePong_good p : good s (br_s (handlePong key path now r0 s reg w p)).
Proof.
  unfold handlePong. destruct (negb _) eqn:C; [apply keeps_refl|]. bools. cbv zeta.
  destruct (outstanding s !! _) as [pr|]; [|apply keeps_refl].
  destruct (_ || _); [apply keeps_refl|].
  destruct (canLearnEndpointLocked w key path now s) as [[e|] s1] eqn:E;
    destruct (canLearn_good _ _ E) as (G & S1 & R1); [exact G|].
  set (s2 := set_outstanding _ s1).
  assert (G2 : good s s2) by (eapply keeps_trans; [exact G|apply shrinks_good, drop_probe_shrinks]).
  intros I. destruct (G2 I) as [I2 E2].
  destruct (learn_good s2 E2 ltac:(cbn; congruence) I2) as [I3 E3].
  destruct (learn_err _); cbn [br_s br]; [split; [done|by etrans]|].
  destruct (shrinks_good _ _ (alter_shrinks (ep_set_rtt (now - sentAt pr)) key
    (learned_s (learnEndpointLocked w key path now s2 reg)) ltac:(done)) I3) as [I4 E4].
  split; [done|]. etrans; [exact E2|]. by etrans.
Qed.

Lemma handleDataShard_good d : in_u 64 (Wire.PacketID d) ->
  good s (br_s (handleDataShard key path now r0 s reg w d)).
Proof.
  intros Hd. unfold handleDataShard. destruct (negb _) eqn:C; [apply keeps_refl|]. bools.
  destruct (_ || _); [apply keeps_refl|].
  destruct (canLearnEndpointLocked w key path now s) as [[e|] s1] eqn:E;
    destruct (canLearn_good _ _ E) as (G & S1 & R1); [exact G|].
  destruct (decoder s1) as [dec|] eqn:D; [|exact G].
  destruct (Now w) as [at_ w1].
  destruct (FecDecoder.AddVerifiedShard dec at_ (incoming s d)) as [res dec'] eqn:A.
  assert (G2 : good s (set_decoder (Some dec') s1)).
  { eapply keeps_trans; [exact G|]. apply set_decoder_good; [congruence|]. intros I1.
    pose proof (in_phase _ I1) as P. unfold phase_ok in P. rewrite S1, C in P.
    destruct P as ([_ (dec1 & D1 & R) _ _ _] & _). assert (dec1 = dec) as -> by congruence.
    pose proof (AddVerifiedShard_open dec at_ (incoming s d)) as O. rewrite A in O. cbn in O.
    pose proof (decoder_step s1 dec (FecDelivery.OpAdd at_ (incoming s d)) R Hd) as St.
    cbn [FecDelivery.step] in St. rewrite A in St. cbn in St. apply St. rewrite O.
    by destruct R as (? & ? & _ & _ & _ & ?). }
  destruct res as [res|e]; [|exact G2].
  destruct (bool_decide _); [exact G2|]. cbv zeta. cbn [br_s br].
  intros I. destruct (G2 I) as [I2 E2].
  destruct (learn_inv w1 key path now (set_decoder (Some dec') s1) reg I2 ltac:(cbn; congruence) Hkey) as [I3 T3].
  - intros R. destruct E2 as [E2 _ _ _ _]. unfold knownCarrier in *. injection E2 as _ E2 _ E3.
    cbn in *. rewrite E3. apply Hpath. congruence.
  - split; [done|]. etrans; [exact E2|by apply touch_evolves].
Qed.

End packet.

Lemma dispatch_good key path now size m s reg w :
  replyIdentityUnchecked (Some path) = Ok key ->
  (role s = RoleInitiator -> knownCarrier s (PathID path)) -> Wire.Message_wf m ->
  good s (br_s (dispatch key path now size m s reg w)).
Proof.
  intros Hk Hp M. unfold dispatch. cbv zeta.
  repeat (match goal with |- context [if ?c then _ else _] => destruct c end);
    [by apply handleHello_good|by apply handleHelloAck_good|apply handleDataShard_good; [done..|apply M]
    |by apply handlePing_good|by apply handlePong_good|apply markClosed_good|apply keeps_refl].
Qed.

(** The section under the mutex refuses the packet, or runs the switch. *)
Lemma handleLocked_cases key path now packet m s reg w :
  let b := handleLocked key path now packet m s reg w in
  (br_s b = s /\ br_w b = w /\ br_reg b = reg /\ br_result b = received m /\ is_Some (br_err b)) \/
  (state s <> StateClosed /\ (role s = RoleInitiator -> knownCarrier s (PathID path)) /\
   (state s = StateEstablished -> len (Payload packet) <= receiveMaxUDPPayload s) /\
   let d := dispatch key path now (len (Payload packet)) m s reg w in
   br_s b = br_s d /\ br_w b = br_w d /\ br_result b = br_result d /\ br_err b = br_err d /\
   br_response b = br_response d).
Proof.
  cbv zeta. unfold handleLocked.
  destruct (bool_decide (role s = RoleInitiator) && bool_decide (carrierByID s !! PathID path = None)) eqn:R.
  { left. destruct (state s); cbn; eauto. }
  destruct (decide (state s = StateClosed)) as [->|N]; [left; cbn; eauto|].
  destruct (bool_decide (state s = StateEstablished) && (receiveMaxUDPPayload s <? len (Payload packet))) eqn:B.
  { left. destruct (state s); cbn; eauto. }
  right. split; [done|]. split; [|split].
  - intros Hr. apply andb_false_elim in R as [R|R]; bools; [done|]. unfold knownCarrier.
    destruct (carrierByID s !! PathID path); [eauto|done].
  - intros He. apply andb_false_elim in B as [B|B]; bools; [done|lia].
  - destruct (state s); try done; cbv zeta; destruct (br_err (dispatch _ _ _ _ _ _ _ _)) eqn:X;
      try (destruct (br_done (dispatch _ _ _ _ _ _ _ _))); cbn; rewrite ?X; done.
Qed.

Lemma handleLocked_good key path now packet m s reg w :
  replyIdentityUnchecked (Some path) = Ok key -> Wire.Message_wf m ->
  good s (br_s (handleLocked key path now packet m s reg w)).
Proof.
  intros Hk M. destruct (handleLocked_cases key path now packet m s reg w) as [(-> & _)|(_ & R & _ & -> & _)];
    [apply keeps_refl|by apply dispatch_good].
Qed.

Lemma handleIdentified_good ctx packet m known s reg w :
  Wire.Message_wf m ->
  (forall key path, known = Some key -> Reply packet = Some path -> replyIdentityUnchecked (Some path) = Ok key) ->
  good s (hd_s (handleAuthenticatedWithIdentity ctx packet m known s reg w)).
Proof.
  intros M K. unfold handleAuthenticatedWithIdentity. cbv zeta. destruct (negb _); [apply keeps_refl|].
  destruct (match known with Some key => Ok key | None => _ end) as [key|e] eqn:E; [|apply keeps_refl].
  destruct (Reply packet) as [path|] eqn:R; [|apply keeps_refl].
  assert (Hk : replyIdentityUnchecked (Some path) = Ok key).
  { destruct known; [injection E as ->; by apply K|done]. }
  destruct (negb (Available w path)); [apply keeps_refl|]. destruct (Now w) as [now w1].
  pose proof (handleLocked_good key path now packet m s reg w1 Hk M) as G.
  destruct (br_err _); [exact G|]. destruct (br_response _) as [plan|]; [|exact G].
  destruct (executePlans _ _ _ _) as [[at_ s'] w'] eqn:X. cbn [hd_s].
  apply execute_shrinks in X as [Sh _]. eapply keeps_trans; [exact G|by apply shrinks_good].
Qed.

Lemma HandlePacket_good ctx packet s reg w : good s (hd_s (HandlePacket ctx packet s reg w)).
Proof.
  unfold HandlePacket. cbv zeta. destruct (checkContext ctx w); [|apply keeps_refl].
  destruct (Wire.DecodeAuthenticated _ _ _) as [m|] eqn:D; [|apply keeps_refl].
  apply Wire.DecodeAuthenticated_sealed in D as (M & _). by apply handleIdentified_good.
Qed.

(** ** Advance *)

(** What the loop over the carriers does to each of them. *)
Definition retries now s (c : carrierState) : bool :=
  negb (acked c || exhausted c || negb (due (nextRetry c) now)).

Definition retryCarrier now s (c : carrierState) : carrierState :=
  if negb (retries now s c) then c else
  if maxHandshakeAttempts (conf s) <=? attempts c then car_exhaust c else retried now s c.

Definition retryPlan now s (c : carrierState) : option sendPlan :=
  if retries now s c && (attempts c <? maxHandshakeAttempts (conf s)) then Some (helloPlan s c) else None.

Lemma retryHellos_total now s cs : named s ->
  retryHellos now s cs = (Ok (omap (retryPlan now s) cs), retryCarrier now s <$> cs).
Proof.
  intros N. induction cs as [|c cs IH]; [done|]. cbn [retryHellos omap list_omap fmap list_fmap].
  unfold retryPlan at 1, retryCarrier at 1, retries. rewrite negb_involutive.
  destruct (acked c || exhausted c || _) eqn:R; cbn [negb andb].
  { unfold retryPlan in IH. unfold retries in *. by rewrite IH. }
  destruct (maxHandshakeAttempts (conf s) <=? attempts c) eqn:A.
  - replace (attempts c <? _) with false by lia. by rewrite IH.
  - replace (attempts c <? _) with true by lia. by rewrite planHello_total, IH.
Qed.

Lemma retryCarrier_evolves now s c : car_evolves c (retryCarrier now s c).
Proof.
  unfold retryCarrier. destruct (negb _); [apply car_evolves_refl|].
  destruct (_ <=? _); [|apply retried_evolves]. split_and!; cbn; (done || lia).
Qed.

Lemma retryCarrier_ok now s c :
  started s = true -> carrier_ok (conf s) true c -> carrier_ok (conf s) true (retryCarrier now s c).
Proof.
  intros St [C1 C2 C3 C4]. unfold retryCarrier, retries.
  destruct (acked c || exhausted c || _) eqn:R; cbn [negb]; [done|].
  apply orb_false_elim in R as [[Ra Re]%orb_false_elim _].
  destruct (_ <=? _) eqn:A; split; cbn; try done; [intros _; split_and!; (done || lia)|lia|congruence..].
Qed.

Lemma retryCarrier_acked now s c : acked (retryCarrier now s c) = acked c.
Proof. unfold retryCarrier. destruct (negb _); [done|]. by destruct (_ <=? _). Qed.

Lemma retryCarrier_live now s c :
  acked c = true \/ exhausted c = true \/ nextRetry c <> None ->
  let c' := retryCarrier now s c in acked c' = true \/ exhausted c' = true \/ nextRetry c' <> None.
Proof.
  intros L. cbv zeta. unfold retryCarrier. destruct (negb _); [done|].
  destruct (_ <=? _); cbn; [by right; left|by right; right].
Qed.

Lemma retryCarrier_exhausted now s c : exhausted c = true -> retryCarrier now s c = c.
Proof. intros E. unfold retryCarrier, retries. by rewrite E, orb_true_r. Qed.

Lemma retryCarriers_exhausted now s cs :
  Forall (fun c => exhausted c = true) cs -> retryCarrier now s <$> cs = cs.
Proof. intros P. induction P as [|c l Hc P IH]; [done|]. cbn. by rewrite retryCarrier_exhausted, IH. Qed.

Lemma set_carriers_same s : set_carriers (carriers s) s = s.
Proof. by destruct s. Qed.

Lemma advanceHandshake_good now s :
  state s <> StateClosed -> good s (snd (advanceHandshake now s)).
Proof.
  intros N. unfold advanceHandshake. destruct (bool_decide _ && started s) eqn:B; [|apply keeps_refl].
  apply andb_prop in B as [R St]. bools. intros I. rewrite (retryHellos_total now s _ (Inv_named s I)). cbv zeta.
  set (s1 := set_carriers _ s).
  assert (G : Inv s1 /\ evolves s s1).
  { destruct (decide (state s = StateHandshakeFailed)) as [F|F].
    - assert (s1 = s) as ->; [|by apply keeps_refl]. subst s1.
      pose proof (in_phase s I) as P. unfold phase_ok in P. rewrite F in P. destruct P as (_ & _ & _ & _ & P).
      rewrite retryCarriers_exhausted by done. apply set_carriers_same.
    - revert I. apply set_carriers_good; try done.
      + apply Forall2_fmap_self, retryCarrier_evolves.
      + intros I. rewrite St. apply Forall_fmap. pose proof (co_each _ (in_carriers s I)) as K. rewrite St in K.
        eapply Forall_impl; [exact K|]. intros c Hc. by apply retryCarrier_ok.
      + intros I _ _. apply Forall_fmap. eapply Forall_impl; [by apply (co_live _ (in_carriers s I))|].
        intros c Hc. by apply retryCarrier_live.
      + intros _. apply Forall2_fmap_self. intros c. apply retryCarrier_acked. }
  destruct (bool_decide (state s1 = StateHandshaking) && _) eqn:B; cbn [snd]; [|exact G].
  apply andb_prop in B as [S1 X]. bools. destruct G as [I1 E1]. split.
  - pose proof I1 as [K1 K2 [J1 J2 J3 J4 J5] [K4 K5 K6] K7 K8 K9 P]. unfold phase_ok in P. rewrite S1 in P.
    destruct P as ([] & C & _). split; try done.
    + split; try done. intros A _. apply J5; [done|congruence].
    + unfold phase_ok. cbn [state set_state]. split_and!; try done.
      apply Forall_forall. intros c Hc%list_elem_of_In.
      unfold allCarriersExhaustedLocked in X. rewrite forallb_forall in X. apply X in Hc. by bools.
  - etrans; [exact E1|]. split; try done; [apply cars_evolve_refl|right; by left].
Qed.
End Methods.
