(* ===== verification/SessionMethods.v ===== *)
(** * Keepalives, writing and closing; every sequence of calls

    The rest of the methods, and [reach]: the states any interleaving of method calls
    and of the sends they planned can produce. *)

From stdpp Require Import sorting.
From S2P Require Import Prelude Sha256 Transport Session SessionInv SessionWire SessionSteps SessionRun.
From S2P Require Wire Fec FecDecoder FecDelivery.
Import Wire (SessionID).

Section Methods.
Context {Env : Type} `{Sockets Env} `{Fec.ReedSolomon}.
Implicit Types (w : Env) (s : Session).

Lemma sweepDecoder_good now s w :
  good s (snd (fst (sweepDecoder now s w))) /\ state (snd (fst (sweepDecoder now s w))) = state s.
Proof.
  unfold sweepDecoder. destruct (decoder s) as [dec|] eqn:D; [|split; [apply keeps_refl|done]].
  destruct (due _ _); [|split; [apply keeps_refl|done]]. destruct (Now w) as [at_ w1].
  destruct (FecDecoder.Sweep dec at_) as [stats dec'] eqn:E. cbn [fst snd]. split; [|done].
  intros I. assert (S : state s = StateEstablished).
  { pose proof (in_phase s I) as P. unfold phase_ok in P.
    destruct (state s); [destruct P as ([_ _ [_ ?] _] & _)|done|destruct P as ([_ _ [_ ?] _] & _)
      |destruct P as ([_ _ [_ ?] _] & _)]; congruence. }
  revert I. eapply (keeps_trans s (set_decoder (Some dec') s)).
  - apply set_decoder_good; [done|]. intros I. pose proof (in_phase s I) as P. unfold phase_ok in P.
    rewrite S in P. destruct P as ([_ (dec1 & D1 & R) _ _ _] & _). assert (dec1 = dec) as -> by congruence.
    pose proof (Sweep_open dec at_) as O. rewrite E in O. cbn in O.
    pose proof (decoder_step s dec (FecDelivery.OpSweep at_) R Logic.I) as St.
    cbn [FecDelivery.step] in St. rewrite E in St. cbn in St. apply St. rewrite O.
    by destruct R as (? & ? & _ & _ & _ & ?).
  - apply (proj2 (set_times_good (set_decoder (Some dec') s) _ S)).
Qed.

(** ** Probes *)

(** A path that a keepalive may probe: a carrier's, or that of a kept endpoint. *)
Definition probeable w s (path : Path) : Prop :=
  match role s with
  | RoleInitiator => knownCarrier s (PathID path)
  | RoleListener => exists key, replyIdentity w (Some path) = Ok key /\ is_Some (endpoints s !! key)
  end.

Lemma sortStrings_elem k l : k ∈ sortStrings l <-> k ∈ l.
Proof. unfold sortStrings. by rewrite (merge_sort_Permutation bytes_le l). Qed.

Lemma endpointPaths_elem w now usable s p :
  p ∈ endpointPaths w now usable s <->
  exists key e, endpoints s !! key = Some e /\ ep_path e = p /\ expired now s e = false /\
    usable e = true /\ Available w p = true.
Proof.
  unfold endpointPaths. rewrite list_elem_of_omap. split.
  - intros (key & Hk & He). rewrite sortStrings_elem, list_elem_of_fmap in Hk.
    destruct Hk as ([k e] & -> & Hk%elem_of_map_to_list). apply map_lookup_filter_Some in Hk as [Hk Hu].
    cbn in He. rewrite Hk in He. injection He as <-. exists k, e.
    apply andb_prop in Hu as [[Hx Hu]%andb_prop Ha]. bools. done.
  - intros (key & e & He & <- & Hx & Hu & Ha). exists key. rewrite He. split; [|done].
    rewrite sortStrings_elem, list_elem_of_fmap. exists (key, e). split; [done|].
    apply elem_of_map_to_list, map_lookup_filter_Some. split; [done|]. by rewrite Hx, Hu, Ha.
Qed.

Lemma carrierPaths_elem w usable s p :
  p ∈ carrierPaths w usable s <->
  exists c, c ∈ carriers s /\ car_path c = p /\ usable c = true /\ Available w p = true.
Proof.
  unfold carrierPaths. rewrite list_elem_of_fmap. split.
  - intros (c & -> & [Hu Hc]%list_elem_of_filter). apply andb_prop in Hu as [? ?]. eauto.
  - intros (c & Hc & <- & Hu & Ha). exists c. rewrite list_elem_of_filter, Hu, Ha. done.
Qed.

Lemma carrier_known s c : Inv s -> c ∈ carriers s -> knownCarrier s (PathID (car_path c)).
Proof.
  intros I [i Hi]%list_elem_of_lookup. exists i. apply (co_index _ (in_carriers s I)). eauto.
Qed.

Lemma replyIdentity_available w p key :
  replyIdentityUnchecked (Some p) = Ok key -> Available w p = true -> replyIdentity w (Some p) = Ok key.
Proof. intros K A. unfold replyIdentity. rewrite K. cbn. by rewrite A. Qed.

Lemma keepalive_probeable w now s : Inv s -> Forall (probeable w s) (keepalivePathsLocked w now s).
Proof.
  intros I. unfold keepalivePathsLocked, probeable. apply Forall_forall. intros p.
  destruct (role s) eqn:R; rewrite ?R.
  - intros (c & Hc & <- & _)%carrierPaths_elem. by apply carrier_known.
  - intros (key & e & He & <- & _ & _ & Ha)%endpointPaths_elem. exists key. split; [|eauto].
    apply replyIdentity_available; [|done]. by apply (eo_key _ (in_endpoints s I)).
Qed.

Lemma next_token_range t : 1 <= t < 2 ^ 64 -> 1 <= (if u64 (t + 1) =? 0 then 1 else u64 (t + 1)) < 2 ^ 64.
Proof.
  intros T. pose proof (wrap_range 64 (t + 1)) as R. unfold u64, in_u in *.
  destruct (_ =? 0) eqn:E; lia.
Qed.

Lemma probe_key w s path : probeable w s path -> 
  match role s with
  | RoleInitiator => knownCarrier s (probePathKeyLocked w path s)
  | RoleListener => is_Some (endpoints s !! probePathKeyLocked w path s)
  end.
Proof.
  unfold probeable, probePathKeyLocked. destruct (role s) eqn:R; [done|]. intros (key & -> & Hk). done.
Qed.

(** One probe: always encodable, and recorded under a key that has an owner. *)
Lemma planPing_spec w path now s :
  Inv s -> state s = StateEstablished -> probeable w s path ->
  exists plan s', planPingLocked w path now s = (Ok plan, s') /\ Inv s' /\ evolves s s' /\
    state s' = StateEstablished /\ endpoints s' = endpoints s /\ plan_path plan = path /\
    (forall p, probeable w s p -> probeable w s' p) /\ message plan = probeMessage Wire.TypePing (id s) (nextToken s) (u64 now) /\
    budget plan = sendMaxUDPPayload s.
Proof.
  intros I S P. unfold planPingLocked. cbv zeta. destruct (in_id s I) as [L N]. pose proof (in_token s I) as T.
  unfold Wire.NewPing. rewrite newProbe_total; [|by left|done..|apply wrap_range; lia].
  pose proof (probe_key w s path P) as K.
  do 2 eexists. split; [reflexivity|]. cbn [plan_path message]. split_and!; try done.
  - pose proof I as [I1 I2 I3 I4 I5 I6 I7 I8]. split; try done; [by destruct I3|by destruct I4| |by apply next_token_range|].
    + intros k. cbn. destruct (decide (probePathKeyLocked w path
        (set_nextToken (if u64 (nextToken s + 1) =? 0 then 1 else u64 (nextToken s + 1)) s) = k)) as [<-|Hne].
      * intros _. exact K.
      * rewrite lookup_insert_ne by done. apply I5.
    + unfold phase_ok in *. cbn. rewrite S in *. destruct I8 as ([E1 E2 E3 E4 E5] & C). split; [|done]. by split.
  - split; try done; [apply cars_evolve_refl|by left].
Qed.

Lemma planPings_spec w now paths : forall s,
  Inv s -> state s = StateEstablished -> Forall (probeable w s) paths ->
  exists plans s', planPings w paths now s = (Ok plans, s') /\ Inv s' /\ evolves s s' /\
    state s' = StateEstablished /\ plan_path <$> plans = paths.
Proof.
  induction paths as [|p paths IH]; intros s I S F; cbn [planPings].
  { exists [], s. split_and!; done. }
  inversion_clear F as [|? ? P F'].
  destruct (planPing_spec w p now s I S P) as (plan & s1 & -> & I1 & E1 & S1 & _ & Pp & Hp & _ & _).
  destruct (IH s1 I1 S1) as (plans & s2 & -> & I2 & E2 & S2 & Hps); [by eapply Forall_impl|].
  exists (plan :: plans), s2. split_and!; try done; [by etrans|]. cbn. by rewrite Pp, Hps.
Qed.

Lemma advanceKeepalive_spec w now s :
  Inv s -> exists plans s', advanceKeepalive w now s = (Ok plans, s') /\ Inv s' /\ evolves s s' /\
    plan_path <$> plans = (if bool_decide (state s = StateEstablished) && due (nextKeepalive s) now
                           then keepalivePathsLocked w now s else []).
Proof.
  intros I. unfold advanceKeepalive. destruct (_ && _) eqn:B.
  - apply andb_prop in B as [S _]. bools.
    destruct (planPings_spec w now _ s I S (keepalive_probeable w now s I)) as (plans & s1 & -> & I1 & E1 & S1 & P).
    do 2 eexists. split; [reflexivity|].
    destruct (proj1 (set_times_good s1 (now + keepaliveInterval (conf s1)) S1) I1) as [I2 E2].
    split_and!; [done|by etrans|done].
  - exists [], s. split_and!; done.
Qed.

(** ** Advance *)

(** The section of [Advance] under the mutex never fails. *)
Lemma advanceLocked_spec now s w :
  Inv s -> state s <> StateClosed ->
  exists plans res s' w', advanceLocked now s w = (plans, res, None, s', w') /\ Inv s' /\ evolves s s'.
Proof.
  intros I N. unfold advanceLocked. pose proof (sweep_shrinks now s) as Sh.
  destruct (sweepEndpointsLocked now s) as [n s1]. cbn [snd] in Sh.
  destruct (shrinks_good _ _ Sh I) as [I1 E1].
  destruct (sweepDecoder_good now s1 w) as [G2 S2].
  destruct (sweepDecoder now s1 w) as [[stats s2] w1]. cbn [fst snd] in G2, S2.
  destruct (G2 I1) as [I2 E2].
  assert (N2 : state s2 <> StateClosed) by (rewrite S2, (touch_state _ _ (sh_touch _ _ Sh)); done).
  pose proof (advanceHandshake_good now s2 N2 I2) as [I3 E3].
  assert (R : exists hellos failed, fst (advanceHandshake now s2) = Ok (hellos, failed)).
  { unfold advanceHandshake. destruct (_ && _); [|cbn; eauto].
    rewrite (retryHellos_total now s2 _ (Inv_named s2 I2)). cbv zeta. destruct (_ && _); cbn; eauto. }
  destruct (advanceHandshake now s2) as [r s3]. cbn [fst snd] in *. destruct R as (hellos & failed & ->).
  destruct (advanceKeepalive_spec w1 now s3 I3) as (pings & s4 & -> & I4 & E4 & _).
  do 4 eexists. split; [reflexivity|]. split; [done|].
  etrans; [exact E1|]. etrans; [exact E2|]. by etrans.
Qed.

Lemma Advance_good ctx s w : good s (snd (fst (Advance ctx s w))).
Proof.
  intros I. unfold Advance. destruct (checkContext ctx w) as [c|e]; [|by apply keeps_refl].
  destruct (Now w) as [now w1]. destruct (decide (state s = StateClosed)) as [->|N]; [by apply keeps_refl|].
  destruct (advanceLocked_spec now s w1 I N) as (plans & res & s1 & w2 & E & I1 & E1). rewrite E.
  destruct (executePlans c plans s1 w2) as [[attempts s2] w3] eqn:X. apply execute_shrinks in X as [Sh _].
  destruct (shrinks_good _ _ Sh I1) as [I2 E2].
  destruct (state s); try done; cbn [fst snd]; (split; [done|by etrans]).
Qed.

(** ** WritePacket *)

Lemma Encode_reachable s enc payload r enc' :
  encoder_reachable s enc -> Fec.Encode enc payload = (r, enc') -> encoder_reachable s enc'.
Proof.
  intros (nxt & exh & U & N) E.
  assert (En : enc' = enc \/ enc' = Fec.takePacketID enc).
  { unfold Fec.Encode in E. repeat (cbv zeta in E; match type of E with (if ?c then _ else _) = _ => destruct c end);
      try (injection E; auto). destruct (Fec.codec_Encode _ _); injection E; auto. }
  destruct En as [->| ->]; [by exists nxt, exh|].
  unfold Fec.newEncoderAt in N. go_inv N. destruct x0 as [cdc tot].
  exists (Fec.next (Fec.takePacketID enc)), (Fec.exhausted (Fec.takePacketID enc)). split.
  - subst enc. cbn. destruct (_ =? _); [done|]. apply wrap_range. lia.
  - unfold Fec.newEncoderAt. rewrite E0, E1. subst enc. done.
Qed.

Lemma WritePacket_good ctx payload s w r :
  WritePacket ctx payload s w = Some r -> good s (snd (fst r)).
Proof.
  unfold WritePacket. cbv zeta. destruct (checkContext ctx w) as [c|e]; [|intros [= <-]; apply keeps_refl].
  destruct (Now w) as [now w1]. destruct (bool_decide (state s = StateClosed)); [intros [= <-]; apply keeps_refl|].
  destruct (bool_decide (state s = StateEstablished)) eqn:S; [|intros [= <-]; apply keeps_refl].
  destruct (encoder s) as [enc|] eqn:En; [|intros [= <-]; apply keeps_refl]. bools.
  pose proof (sweep_shrinks now s) as Sh. set (s1 := snd (sweepEndpointsLocked now s)) in *.
  destruct (Fec.Encode enc payload) as [er enc'] eqn:E.
  assert (G : good s (set_encoder (Some enc') s1)).
  { intros I. destruct (shrinks_good _ _ Sh I) as [I1 E1].
    pose proof (touch_state _ _ (sh_touch _ _ Sh)) as S1. rewrite S in S1.
    assert (R : encoder_reachable s1 enc').
    { pose proof (in_phase _ I1) as P. unfold phase_ok in P. rewrite S1 in P.
      destruct P as ([(enc1 & En1 & R) _ _ _ _] & _).
      assert (encoder s1 = encoder s) as En' by (destruct Sh as [[C _] _ _ _]; unfold core in C; congruence).
      assert (enc1 = enc) as -> by congruence. by eapply Encode_reachable. }
    destruct (set_encoder_good s1 enc' S1 (fun _ => R) I1) as [I2 E2]. split; [done|by etrans]. }
  destruct er as [block|e]; [|intros [= <-]; exact G].
  destruct (shardPackets _ _ _ _ _) as [packets|e]; [|intros [= <-]; exact G].
  destruct (SendBlock _ _ _ _ _) as [[[send err] w2]|]; [|done]. intros [= <-]. cbn [fst snd].
  eapply keeps_trans; [exact G|apply shrinks_good, recordFailures_shrinks].
Qed.

(** ** Close and the rest *)

Lemma close_done_good errs s : good s (close_done errs s).
Proof.
  intros I. pose proof I as [I1 I2 I3 I4 I5 I6 I7 I8]. split.
  - split; try done; [by destruct I3|by destruct I4|]. unfold phase_ok in *. cbn.
    destruct (state s); [destruct I8 as ([] & ?)|destruct I8 as ([] & ?)|destruct I8 as ([] & ?)|destruct I8 as ([] & ?)];
      (split; [by split|done]).
  - split; try done; [apply cars_evolve_refl|by left].
Qed.

Lemma Close_good ctx s w : good s (snd (fst (fst (Close ctx s w)))).
Proof.
  unfold Close. destruct ctx as [c|]; [|apply keeps_refl]. destruct (closeDone s); [apply keeps_refl|].
  destruct (Now w) as [now w1]. cbv zeta. pose proof (markClosed_good s) as G.
  set (s1 := markClosedLocked _) in *.
  destruct (bool_decide _); [|eapply keeps_trans; [exact G|apply close_done_good]].
  destruct (Wire.NewClose (id s1)); [|eapply keeps_trans; [exact G|apply close_done_good]].
  destruct (executePlansWithoutLifetime _ _ _ _) as [[at_ s2] w2] eqn:X. cbn [fst snd].
  apply execute_shrinks in X as [Sh _].
  eapply keeps_trans; [exact G|]. eapply keeps_trans; [apply shrinks_good, Sh|apply close_done_good].
Qed.

Lemma SendPaths_good s w : good s (snd (fst (SendPaths s w))).
Proof. unfold SendPaths. destruct (Now w). cbn. apply shrinks_good, sweep_shrinks. Qed.

Lemma SetPathHealthy_good p b s : good s (snd (SetPathHealthy p b s)).
Proof.
  unfold SetPathHealthy. destruct (_ =? 0); [apply keeps_refl|]. destruct (bool_decide _); [apply keeps_refl|].
  cbv zeta. cbn [snd]. eapply keeps_trans; [apply shrinks_good, (update_carrier_shrinks p b)|].
  set (s1 := update_carrier _ _ _). apply shrinks_good.
  set (f := fun _ _ => _). assert (Hl : forall k, map_imap f (endpoints s1) !! k = endpoints s1 !! k ≫= f k)
    by apply map_lookup_imap.
  assert (Hk : forall k, is_Some (map_imap f (endpoints s1) !! k) <-> is_Some (endpoints s1 !! k)).
  { intros k. rewrite Hl. destruct (endpoints s1 !! k); cbn; [|done]. split; eauto. }
  split.
  - apply set_endpoints_touch.
  - intros k e. cbn. rewrite Hl. destruct (endpoints s1 !! k) as [e'|]; [|done]. cbn.
    intros [= <-]. exists e'. split; [done|]. by destruct (_ || _).
  - cbn. apply Nat.eq_le_incl. rewrite <- !(size_dom (D := gset bytes)). f_equal.
    apply set_eq. intros k. by rewrite !elem_of_dom.
  - intros k Hx. split; [done|]. intros _ He. cbn. by apply Hk.
Qed.
End Methods.
