(* ===== verification/SessionReach.v ===== *)
(** * Every interleaving of a Session's methods and sends

    A method of the source runs one section under the mutex and performs the sends it
    planned afterwards, while other methods may run.  [step] is that system: a section
    adds its plans to those in flight, and any plan in flight may finish, with any
    outcome, in any order.  The network is arbitrary at every step.  The sequential
    methods of [Session] are runs of it. *)

From stdpp Require Import relations.
From S2P Require Import Prelude Transport Session SessionInv SessionWire SessionSteps SessionRun SessionMethods.
From S2P Require Wire Fec FecDecoder.
Import Wire (SessionID).

Section Reach.
Context {Env : Type} `{Sockets Env} `{Fec.ReedSolomon}.
Implicit Types (w : Env) (s : Session).

(** A plan in flight, and whether its send runs under the Session's lifetime. *)
Abbreviation Flight := (list (bool * sendPlan)).

Definition bound (plans : list sendPlan) : Flight := pair true <$> plans.
Definition unbound (plans : list sendPlan) : Flight := pair false <$> plans.

(** What a call hands to the application: the PacketID and the datagram. *)
Definition delivery : Type := Z * bytes.

Definition handed (m : Wire.Message) (b : @Branch Env) : list delivery :=
  match br_err b, Datagram (br_result b) with
  | None, Some d => [(Wire.PacketID (Wire.Message_DataShard m), d)]
  | _, _ => []
  end.

(** One section under the mutex: the state before, the plans it makes, what it delivers
    and the state after. *)
Inductive section : Session -> Flight -> list delivery -> Session -> Prop :=
| sec_start s now plans cs :
    state s = StateHandshaking -> role s = RoleInitiator -> started s = false ->
    planHellos now (set_started true s) (carriers s) = (Ok plans, cs) ->
    section s (bound plans) [] (set_carriers cs (set_started true s))
| sec_receive w s key path now packet m reg :
    replyIdentityUnchecked (Some path) = Ok key -> Wire.Message_wf m ->
    let b := handleLocked key path now packet m s reg w in
    section s (match br_err b, br_response b with None, Some plan => bound [plan] | _, _ => [] end)
      (handed m b) (br_s b)
| sec_advance w s now plans res s' w' :
    state s <> StateClosed -> advanceLocked now s w = (plans, res, None, s', w') ->
    section s (bound plans) [] s'
| sec_write s now enc payload r enc' :
    state s = StateEstablished -> encoder s = Some enc -> Fec.Encode enc payload = (r, enc') ->
    section s [] [] (set_encoder (Some enc') (snd (sweepEndpointsLocked now s)))
| sec_path_failed s path :
    section s [] [] (setPathHealthForPath path false s)
| sec_close w s now m :
    section s (if bool_decide (state s = StateEstablished)
               then unbound ((fun p => reply m p (sendMaxUDPPayload s)) <$> closePathsLocked w now s) else []) []
      (markClosedLocked (set_encoder None (set_decoder None s)))
| sec_closed s errs : section s [] [] (close_done errs s)
| sec_sweep s now : section s [] [] (snd (sweepEndpointsLocked now s))
| sec_health s p b : section s [] [] (snd (SetPathHealthy p b s)).

Inductive step : Session * Flight -> list delivery -> Session * Flight -> Prop :=
| step_section s fl new out s' : section s new out s' -> step (s, fl) out (s', fl ++ new)
| step_sent s fl1 b plan fl2 err :
    step (s, fl1 ++ (b, plan) :: fl2) [] (afterSend plan err b s, fl1 ++ fl2).

(** A run and the deliveries of its steps, in order. *)
Inductive steps : Session * Flight -> list delivery -> Session * Flight -> Prop :=
| steps_refl x : steps x [] x
| steps_l x y z out rest : step x out y -> steps y rest z -> steps x (out ++ rest) z.

Definition reach (s : Session) (out : list delivery) (s' : Session) : Prop :=
  exists fl', steps (s, []) out (s', fl').

Lemma steps_trans x y z o1 o2 : steps x o1 y -> steps y o2 z -> steps x (o1 ++ o2) z.
Proof. intros X Y. induction X; [done|]. rewrite <- app_assoc. by eapply steps_l; auto. Qed.

Lemma steps_once x out y : step x out y -> steps x out y.
Proof. intros X. rewrite <- (app_nil_r out). eapply steps_l; [done|constructor]. Qed.

Lemma section_good s new out s' : section s new out s' -> good s s'.
Proof.
  intros X. destruct X as [s now plans cs S R St P|w s key path now packet m reg K M b
    |w s now plans res s' w' N A|s now enc payload r enc' S En E|s path|w s now m|s errs|s now|s p b].
  - intros I. rewrite planHellos_total in P by (destruct (Inv_named s I); done). injection P as _ <-.
    by apply started_good.
  - by apply handleLocked_good.
  - intros I. destruct (advanceLocked_spec now s w I N) as (? & ? & ? & ? & E & G). rewrite A in E.
    injection E as -> -> -> ->. exact G.
  - pose proof (sweep_shrinks now s) as Sh. intros I.
    destruct (shrinks_good _ _ Sh I) as [I1 E1]. pose proof (touch_state _ _ (sh_touch _ _ Sh)) as S1.
    rewrite S in S1. set (s1 := snd _) in *.
    assert (R : encoder_reachable s1 enc').
    { pose proof (in_phase _ I1) as P. unfold phase_ok in P. rewrite S1 in P.
      destruct P as ([(enc1 & En1 & R) _ _ _ _] & _).
      assert (encoder s1 = encoder s) as En' by (destruct Sh as [[C _] _ _ _]; unfold core in C; congruence).
      assert (enc1 = enc) as -> by congruence. by eapply Encode_reachable. }
    destruct (set_encoder_good s1 enc' S1 (fun _ => R) I1) as [I2 E2]. split; [done|by etrans].
  - apply shrinks_good, setPathHealth_shrinks.
  - apply markClosed_good.
  - apply close_done_good.
  - apply shrinks_good, sweep_shrinks.
  - apply SetPathHealthy_good.
Qed.

Lemma step_good x out y : step x out y -> good (fst x) (fst y).
Proof.
  intros [s fl new out' s' X|s fl1 b plan fl2 err]; cbn [fst]; [by eapply section_good|].
  apply shrinks_good, afterSend_shrinks.
Qed.

Lemma steps_good x out y : steps x out y -> good (fst x) (fst y).
Proof.
  induction 1 as [|x y z out rest X _ IH]; [apply keeps_refl|]. eapply keeps_trans; [by eapply step_good|exact IH].
Qed.

Lemma reach_good s out s' : reach s out s' -> good s s'.
Proof. intros (fl' & X). by apply steps_good in X. Qed.

(** ** The sequential methods are runs *)

Lemma execute_steps ctx b plans : forall s w attempts s' w' fl,
  execute ctx b plans s w = (attempts, s', w') ->
  steps (s, (pair b <$> plans) ++ fl) [] (s', fl).
Proof.
  induction plans as [|plan plans IH]; intros s w attempts s' w' fl; cbn [execute].
  { intros [= <- <- <-]. constructor. }
  destruct (sendOne ctx b plan s w) as [err w1].
  destruct (execute ctx b plans (afterSend plan err b s) w1) as [[rest s1] w2] eqn:E.
  intros [= <- <- <-]. apply (steps_l _ _ _ [] [] (step_sent s [] b plan _ err)). by eapply IH.
Qed.

(** A section and then its sends, with nothing else in flight. *)
Lemma method_steps ctx b plans s s1 w attempts s' w' out :
  section s (pair b <$> plans) out s1 -> execute ctx b plans s1 w = (attempts, s', w') ->
  steps (s, []) out (s', []).
Proof.
  intros X E. rewrite <- (app_nil_r out). eapply steps_l; [apply step_section, X|]. apply (execute_steps _ _ _ _ _ _ _ _ []) in E.
  by rewrite app_nil_r in E.
Qed.

Lemma section_step s out s1 : section s [] out s1 -> steps (s, []) out (s1, []).
Proof. intros X. apply steps_once. apply (step_section s [] [] out s1 X). Qed.

(** The message of a result is the packet's. *)
Lemma handleLocked_message key path now packet m s reg w :
  Message (br_result (handleLocked key path now packet m s reg w)) = m.
Proof.
  assert (D : Message (br_result (dispatch key path now (len (Payload packet)) m s reg w)) = m).
  { unfold dispatch; cbv zeta.
    repeat match goal with |- context [if ?c then _ else _] => destruct c end; try done;
      unfold handleHello, handleHelloAck, handleDataShard, handlePing, handlePong; cbv zeta;
      repeat (match goal with |- context [match ?c with _ => _ end] =>
        lazymatch c with context [match _ with _ => _ end] => fail | _ => destruct c end end; try done). }
  destruct (handleLocked_cases key path now packet m s reg w) as [(_ & _ & _ & -> & _)|(_ & _ & _ & _ & _ & -> & _)];
    [done|exact D].
Qed.

(** What a call of [HandlePacket] delivers. *)
Definition handedBy (h : @Handled Env) : list delivery :=
  match hd_err h, Datagram (hd_result h) with
  | None, Some d => [(Wire.PacketID (Wire.Message_DataShard (Message (hd_result h))), d)]
  | _, _ => []
  end.

Lemma HandlePacket_steps ctx packet s reg w :
  let h := HandlePacket ctx packet s reg w in steps (s, []) (handedBy h) (hd_s h, []).
Proof.
  cbv zeta. unfold HandlePacket. cbv zeta. destruct (checkContext ctx w) as [c|]; [|constructor].
  destruct (Wire.DecodeAuthenticated _ _ _) as [m|] eqn:D; [|constructor].
  apply Wire.DecodeAuthenticated_sealed in D as (M & _).
  unfold handleAuthenticatedWithIdentity. cbv zeta. destruct (negb _); [constructor|].
  destruct (replyIdentityUnchecked (Reply packet)) as [key|] eqn:K; [|constructor].
  destruct (Reply packet) as [path|] eqn:R; [|constructor].
  destruct (negb _); [constructor|]. destruct (Now w) as [now w1].
  pose proof (sec_receive w1 s key path now packet m reg K M) as X. cbv zeta in X.
  unfold handed in X. pose proof (handleLocked_message key path now packet m s reg w1) as Y.
  destruct (br_err _) eqn:E1; [by apply section_step|].
  destruct (br_response _) as [plan|].
  - destruct (executePlans _ _ _ _) as [[at_ s'] w'] eqn:E. unfold handedBy. cbn.
    rewrite Y. by eapply (method_steps c true [plan]).
  - apply section_step. unfold handedBy. cbn. by rewrite Y.
Qed.

Lemma Advance_steps ctx s w : Inv s -> steps (s, []) [] (snd (fst (Advance ctx s w)), []).
Proof.
  intros I. unfold Advance. destruct (checkContext ctx w) as [c|]; [|constructor].
  destruct (Now w) as [now w1]. destruct (decide (state s = StateClosed)) as [->|N]; [constructor|].
  destruct (advanceLocked_spec now s w1 I N) as (plans & res & s1 & w2 & E & _). rewrite E.
  destruct (executePlans c plans s1 w2) as [[attempts s2] w3] eqn:X.
  pose proof (sec_advance w1 s now plans res s1 w2 N E) as Y.
  pose proof (method_steps c true plans _ _ _ _ _ _ _ Y X) as Z. by destruct (state s).
Qed.

Lemma Close_steps ctx s w : Inv s -> steps (s, []) [] (snd (fst (fst (Close ctx s w))), []).
Proof.
  intros I. unfold Close. destruct ctx as [c|]; [|constructor]. destruct (closeDone s); [constructor|].
  destruct (Now w) as [now w1]. cbv zeta. set (s1 := markClosedLocked _).
  assert (Hn : Wire.NewClose (id s1) = Ok (Wire.mkMessage Wire.TypeClose (id s1))) by (apply NewClose_total; apply (in_id s I)).
  rewrite Hn. pose proof (sec_close w1 s now (Wire.mkMessage Wire.TypeClose (id s1))) as X. fold s1 in X.
  destruct (bool_decide _) eqn:S.
  - destruct (executePlansWithoutLifetime _ _ _ _) as [[at_ s2] w2] eqn:E. cbn [fst snd].
    apply (steps_trans _ (s2, []) _ [] []); [by eapply (method_steps c false)|]. apply section_step, sec_closed.
  - apply (steps_trans _ (s1, []) _ [] []); [by apply section_step|]. apply section_step, sec_closed.
Qed.

Lemma Start_steps ctx s w : Inv s -> steps (s, []) [] (snd (fst (Start ctx s w)), []).
Proof.
  intros I. unfold Start. destruct (checkContext ctx w) as [c|]; [|constructor].
  destruct (Now w) as [now w1]. destruct (state s) eqn:S; try constructor.
  destruct (bool_decide (role s = RoleListener)) eqn:R; [constructor|].
  destruct (started s) eqn:St; [constructor|]. cbv zeta.
  destruct (planHellos now (set_started true s) (carriers (set_started true s))) as [r cs] eqn:P.
  pose proof P as P'. rewrite planHellos_total in P' by (destruct (Inv_named s I); done). injection P' as <- _.
  destruct (executePlans _ _ _ _) as [[attempts s3] w2] eqn:E. cbn [fst snd]. bools.
  eapply (method_steps c true); [|exact E]. apply (sec_start s now); try done. by destruct (role s).
Qed.

Lemma recordFailures_steps r ps s : steps (s, []) [] (recordBlockPathFailures r ps s, []).
Proof.
  unfold recordBlockPathFailures. revert s. induction (Attempts r) as [|a l IH]; intros s; [constructor|].
  cbn [foldl]. destruct (_ && _); [|apply IH]. destruct (ps !! _) as [p|]; [|apply IH].
  apply (steps_trans _ (setPathHealthForPath p false s, []) _ [] []); [|apply IH].
  apply section_step, sec_path_failed.
Qed.

Lemma WritePacket_steps ctx payload s w r : 
  WritePacket ctx payload s w = Some r -> steps (s, []) [] (snd (fst r), []).
Proof.
  unfold WritePacket. cbv zeta. destruct (checkContext ctx w) as [c|e]; [|intros [= <-]; constructor].
  destruct (Now w) as [now w1]. destruct (bool_decide (state s = StateClosed)); [intros [= <-]; constructor|].
  destruct (bool_decide (state s = StateEstablished)) eqn:S; [|intros [= <-]; constructor].
  destruct (encoder s) as [enc|] eqn:En; [|intros [= <-]; constructor]. bools.
  destruct (Fec.Encode enc payload) as [er enc'] eqn:E.
  pose proof (section_step _ _ _ (sec_write s now enc payload er enc' S En E)) as X.
  destruct er as [block|e]; [|intros [= <-]; exact X].
  destruct (shardPackets _ _ _ _ _) as [packets|e]; [|intros [= <-]; exact X].
  destruct (SendBlock _ _ _ _ _) as [[[send err] w2]|]; [|done]. intros [= <-]. cbn [fst snd].
  eapply (steps_trans _ _ _ [] []); [exact X|apply recordFailures_steps].
Qed.
End Reach.
