(* ===== verification/SessionBirth.v ===== *)
(** * How Sessions come to be

    An initiator is made by [NewInitiator]; a Session of a listener by the HELLO that
    [ListenerHandlePacket] accepts, with the HELLO_ACK already on its way.  [life] is
    every run of a Session from its creation, for both roles. *)

From S2P Require Import Prelude Transport Session SessionListener SessionInv SessionSteps SessionRun.
From S2P Require Import SessionMethods SessionReach.
From S2P Require Wire Fec.
Import Wire (SessionID).

Section Birth.
Context {Env : Type} `{Sockets Env} `{Fec.ReedSolomon}.
Implicit Types (w : Env) (s : Session).

(** A new Session and the plans in flight at its creation. *)
Inductive born : Session -> list (bool * sendPlan) -> Prop :=
| born_initiator sid config paths s :
    length sid = 16%nat -> NewInitiator sid config paths = Ok s -> born s []
| born_listener config c packet m key path reg w s reg' w' ack :
    normalizeConfig config = Ok c ->
    Wire.DecodeAuthenticated packet (psk c) (localMaxUDPPayload c) = Ok m ->
    replyIdentityUnchecked (Some path) = Ok key ->
    newListenerSession (Wire.Header_SessionID (Wire.Message_Header m)) c (Wire.Message_Handshake m) key path reg w
      = (Ok s, reg', w') ->
    helloAck s = Ok ack ->
    born s (bound [reply ack (learnedPath key path s) (sendMaxUDPPayload s)]).

(** [life s0 out s]: the Session created as [s0] has become [s] and delivered [out]. *)
Definition life (s0 : Session) (out : list delivery) (s : Session) : Prop :=
  exists fl0 fl, born s0 fl0 /\ steps (s0, fl0) out (s, fl).

(** ** The invariant *)

Lemma newListenerSession_born sid c h key path reg w s reg' w' :
  length sid = 16%nat -> sid <> Wire.zeroSessionID -> settings_ok c -> replyIdentityUnchecked (Some path) = Ok key ->
  newListenerSession sid c h key path reg w = (Ok s, reg', w') ->
  exists now w1 s1, let s00 := newSession sid RoleListener c true [] ∅ in
    Inv s00 /\ establishLocked h now s00 = (None, s1) /\ Inv s1 /\
    s = learned_s (learnEndpointLocked w1 key path now s1 reg) /\ Inv s /\ touch s1 s /\
    state s = StateEstablished /\ role s = RoleListener.
Proof.
  intros L N C K E. unfold newListenerSession in E. destruct (Now w) as [now w1].
  set (s00 := newSession sid RoleListener c true [] ∅) in *.
  assert (I0 : Inv s00).
  { subst s00. apply newSession_inv; try done; try by left.
    intros p i. rewrite lookup_empty. split; [done|]. by intros (x & ? & _). }
  destruct (establishLocked h now s00) as [[e|] s1] eqn:Es; [done|].
  destruct (establish_spec _ _ _ _ _ I0 eq_refl Es) as (I1 & _ & S1 & _ & _ & _ & R1 & _).
  cbv zeta in E. destruct (learn_err _); [done|]. injection E as <- _ _.
  change (role s00) with RoleListener in R1.
  destruct (learn_inv w1 key path now s1 reg I1 S1 K) as [I2 T2]; [by rewrite R1|].
  exists now, w1, s1. cbv zeta. split_and!; try done.
  - destruct T2 as [T2 _]. unfold core in T2. congruence.
  - by rewrite (touch_role _ _ T2).
Qed.

Lemma decoded_session packet key limit m :
  Wire.DecodeAuthenticated packet key limit = Ok m ->
  length (Wire.Header_SessionID (Wire.Message_Header m)) = 16%nat /\
  Wire.Header_SessionID (Wire.Message_Header m) <> Wire.zeroSessionID.
Proof.
  intros D. apply Wire.DecodeAuthenticated_sealed in D as (M & V & _). split; [apply M|].
  unfold Wire.validateMessage in V. by destruct (decide _).
Qed.

Lemma born_inv s fl : born s fl -> Inv s.
Proof.
  intros [sid config paths s' L E|config c packet m key path reg w s' reg' w' ack Nc D K E Ha].
  - by apply NewInitiator_inv in E as [? _].
  - apply normalizeConfig_ok in Nc. destruct (decoded_session _ _ _ _ D) as [L N].
    destruct (newListenerSession_born _ _ _ _ _ _ _ _ _ _ L N Nc K E) as (? & ? & ? & _ & _ & _ & _ & I & _). exact I.
Qed.

Lemma life_good s0 out s : life s0 out s -> Inv s0 /\ good s0 s.
Proof. intros (fl0 & fl & B & X). split; [by eapply born_inv|]. exact (steps_good _ _ _ X). Qed.

(** ** The Sessions of a listener *)

Lemma lookup_put ref s reg l : objects (put ref s reg l) !! ref = Some s.
Proof. apply lookup_insert_eq. Qed.

(** Every Session that a listener creates has been born, and only its HELLO_ACK was sent. *)
Lemma create_born ctx packet path m key l w config ref s :
  normalizeConfig config = Ok (l_settings l) ->
  Wire.DecodeAuthenticated (Payload packet) (psk (l_settings l)) (localMaxUDPPayload (l_settings l)) = Ok m ->
  replyIdentityUnchecked (Some path) = Ok key ->
  let h := create ctx packet path m key l w in
  lh_err h = None -> lh_session h = Some ref -> objects (lh_l h) !! ref = Some s -> exists s0, life s0 [] s.
Proof.
  intros Nc D K. cbv zeta. unfold create. cbv zeta.
  destruct (validateHandshakeSettings _ _); [done|]. destruct (_ <=? _); [done|].
  destruct (newListenerSession _ _ _ _ _ _ _) as [[[s1|e] reg1] w1] eqn:E; [|done].
  unfold allocate, answerHello. destruct (helloAck s1) as [ack|] eqn:Ha; [|done].
  destruct (bool_decide _); [done|]. destruct (executePlans ctx _ s1 w1) as [[attempts s2] w2] eqn:Ex.
  cbn [lh_result lh_session lh_l lh_err]. intros _ [= <-] Ho. rewrite lookup_put in Ho. injection Ho as <-.
  exists s1, (bound [reply ack (learnedPath key path s1) (sendMaxUDPPayload s1)]), []. split.
  - eapply born_listener; eauto.
  - exact (execute_steps ctx true _ _ _ _ _ _ [] Ex).
Qed.
End Birth.
