(* ===== verification/SessionProps.v ===== *)
(** * What a Session guarantees

    The claims about one Session: its bounds, its life cycle, and what a packet may do
    to it. *)

From S2P Require Import Prelude Sha256 Transport Session SessionInv SessionWire SessionSteps SessionRun.
From S2P Require Import SessionMethods SessionReach SessionBirth.
From S2P Require Wire Fec FecDecoder FecDelivery.
Import Wire (SessionID).

Section Props.
Context {Env : Type} `{Sockets Env} `{Fec.ReedSolomon}.
Implicit Types (w : Env) (s : Session).

(** ** Bounds *)

Lemma size_keys_le {A} (m : gmap bytes A) (l : list bytes) :
  (forall k, is_Some (m !! k) -> k ∈ l) -> (size m <= length l)%nat.
Proof.
  intros Hl. rewrite <- length_map_to_list, <- (length_fmap fst). apply submseteq_length, NoDup_submseteq.
  - apply NoDup_fst_map_to_list.
  - intros k ([k' a] & -> & Hk%elem_of_map_to_list)%list_elem_of_fmap. eauto.
Qed.

Lemma index_size s : Inv s -> (size (carrierByID s) <= length (carriers s))%nat.
Proof.
  intros I. rewrite <- (length_fmap (fun c => PathID (car_path c))). apply size_keys_le.
  intros p [i Hi]. apply (co_index _ (in_carriers s I)) in Hi as (c & Hc & <-).
  apply list_elem_of_fmap. exists c. split; [done|]. by eapply list_elem_of_lookup_2.
Qed.

Lemma outstanding_bound s : Inv s -> Z.of_nat (size (outstanding s)) <= maxPaths.
Proof.
  intros I. pose proof (in_probes s I) as P. pose proof (index_size s I) as Z1.
  pose proof (co_bound _ (in_carriers s I)) as B. pose proof (eo_bound _ (in_endpoints s I)) as E.
  pose proof (so_endpoints _ (in_conf s I)) as M. unfold len in B. unfold probes_ok, knownCarrier in P.
  assert (T : forall A (m : gmap bytes A), (forall k, is_Some (outstanding s !! k) -> is_Some (m !! k)) ->
    (size (outstanding s) <= size m)%nat).
  { intros A m Hm. rewrite <- (length_map_to_list m), <- (length_fmap fst). apply size_keys_le.
    intros k [a Ha]%Hm. apply list_elem_of_fmap. exists (k, a). by rewrite elem_of_map_to_list. }
  destruct (role s); [specialize (T _ _ P); lia|specialize (T _ _ P); lia].
Qed.

(** What a Session retains. *)
Record retained (s : Session) : Prop := {
  re_endpoints : Z.of_nat (size (endpoints s)) <= maxEndpoints (conf s) <= maxPaths;
  re_probes : Z.of_nat (size (outstanding s)) <= maxPaths;
  re_owners : forall k, is_Some (outstanding s !! k) ->
    match role s with RoleInitiator => knownCarrier s k | RoleListener => is_Some (endpoints s !! k) end;
  re_carriers : len (carriers s) <= maxPaths;
  re_attempts : forall c, c ∈ carriers s -> 0 <= attempts c <= maxHandshakeAttempts (conf s);
  re_token : nextToken s <> 0;
  re_budget : state s = StateEstablished ->
    Wire.MinUDPPayload <= sendMaxUDPPayload s <= localMaxUDPPayload (conf s) /\
    receiveMaxUDPPayload s = sendMaxUDPPayload s;
  re_decoder : forall dec, decoder s = Some dec ->
    FecDelivery.bounded dec (maxPendingFECBlocks (conf s)) FecReplay.ReplayWindowIDs;
  re_closed : state s = StateClosed ->
    endpoints s = ∅ /\ outstanding s = ∅ /\ encoder s = None /\ decoder s = None /\
    NextDeadline s = None /\ canceled s = true }.

Lemma decoderConfig_typed s : Inv s -> state s = StateEstablished ->
  Fec.budget_typed (FecDecoder.cfg_Budget (decoderConfig s)).
Proof.
  intros I S. pose proof (in_phase s I) as P. unfold phase_ok in P. rewrite S in P.
  destruct P as ([_ _ E3 _ _] & _).
  apply (negotiated_typed (conf s) {| Wire.Handshake_DataShards := 0; Wire.Handshake_ParityShards := 0;
    Wire.Handshake_MaxUDPPayload := peerMaxUDPPayload s |} (in_conf s I) E3).
Qed.

Lemma decoder_established s dec : Inv s -> decoder s = Some dec ->
  state s = StateEstablished /\ decoder_reachable s dec.
Proof.
  intros I D. pose proof (in_phase s I) as P. unfold phase_ok in P.
  destruct (state s); [destruct P as ([_ _ [_ ?] _] & _); congruence| |destruct P as ([_ _ [_ ?] _] & _); congruence
    |destruct P as ([_ _ [_ ?] _] & _); congruence].
  destruct P as ([_ (dec1 & D1 & R) _ _ _] & _). split; [done|]. congruence.
Qed.

Lemma decoder_bounds config d0 pre :
  Fec.budget_typed (FecDecoder.cfg_Budget config) -> FecDecoder.NewDecoder config = Ok d0 ->
  Forall FecDelivery.op_typed pre -> FecDecoder.cfg_ReplayWindow config <> None ->
  FecDecoder.closed (snd (FecDelivery.run d0 pre)) = false ->
  FecDelivery.bounded (snd (FecDelivery.run d0 pre)) (FecDecoder.cfg_MaxPendingBlocks config)
    FecReplay.ReplayWindowIDs.
Proof.
  intros T N F R C. destruct (FecDelivery.NewDecoder_live _ _ T N) as (L & _ & _ & _ & M & _ & W & _).
  destruct (FecDelivery.run_live pre _ _ L F) as [s' L'].
  pose proof (FecDelivery.run_config pre d0) as K. unfold FecDelivery.config_of in K.
  pose proof (proj2 (FecDelivery.run_replay pre d0 _ L F C)) as RR.
  unfold FecDelivery.live in L'. rewrite C in L'. destruct L' as [D P].
  pose proof (FecDelivery.decoder_bounded _ _ D P) as B.
  destruct (FecDecoder.replay (snd (FecDelivery.run d0 pre))) eqn:X; [|exfalso; apply RR; [by apply W|done]].
  injection K as _ _ _ _ _ _ K _. by rewrite K, M in B.
Qed.

Lemma Inv_retained s : Inv s -> retained s.
Proof.
  intros I. pose proof (in_conf s I) as [_ _ _ _ C4 _ C6 _ _ _ _ _ _ _ _ _]. split.
  - split; [apply (in_endpoints s I)|lia].
  - by apply outstanding_bound.
  - apply (in_probes s I).
  - apply (in_carriers s I).
  - intros c Hc. pose proof (co_each _ (in_carriers s I)) as F. rewrite Forall_forall in F. by apply F.
  - pose proof (in_token s I). lia.
  - intros S. pose proof (in_phase s I) as P. unfold phase_ok in P. rewrite S in P.
    destruct P as ([_ _ E3 [E4 E5] _] & _). rewrite E5, E4. split; [lia|done].
  - intros dec D. destruct (decoder_established s dec I D) as (S & d0 & pre & N & F & -> & C).
    by apply (decoder_bounds (decoderConfig s) d0 pre (decoderConfig_typed s I S) N F).
  - intros S. pose proof (in_phase s I) as P. unfold phase_ok in P. rewrite S in P.
    destruct P as ([U1 U2 [U3 U4] [U5 U6]] & C & R). split_and!; try done.
    unfold NextDeadline, nextDeadlineLocked. rewrite U1, U5, U6. cbn.
    clear -R. induction R as [|c l E R IH]; [done|]. cbn. by rewrite E.
Qed.

(** C9: However the methods of a Session and its sends interleave from its creation, with
    whatever packets, clocks and network, its representation invariant holds and what it
    retains is bounded, for a Session that [NewInitiator] made and for one that a
    listener made for a HELLO: at most [MaxEndpoints] endpoints and 256 probes, each
    probe owned by a carrier (initiator) or a kept endpoint (listener), at most
    [MaxHandshakeAttempts] HELLOs per carrier, FEC state within the decoder's limits, a
    send budget within the negotiated one; and a closed Session retains nothing and has
    no deadline. *)
Theorem session_retained s0 out s : life s0 out s -> Inv s /\ retained s.
Proof.
  intros R. destruct (life_good s0 out s R) as [I0 G]. destruct (G I0) as [I _].
  split; [done|by apply Inv_retained].
Qed.

(** C11: The life of a Session only goes forward.  Its identity, role and configuration
    never change; from HANDSHAKING it becomes established, failed or closed, from there
    it can only close; once it left HANDSHAKING the negotiated budgets are frozen, and
    no carrier loses its acknowledgement or its count of HELLOs. *)
Theorem session_forward s0 out s : Inv s0 -> reach s0 out s -> evolves s0 s.
Proof. intros I R. by destruct (reach_good s0 out s R I). Qed.

(** ** What a packet may do *)

(** An authentic packet of this Session, from a path it accepts. *)
Record authentic (s : Session) (packet : ReceivedPacket) (w : Env) (m : Wire.Message) (path : Path)
    (key : bytes) : Prop := {
  au_wf : Wire.Message_wf m;
  au_valid : Wire.validateMessage m = None;
  au_sealed : Payload packet = Wire.sealed (psk (conf s)) m;
  au_session : Wire.Header_SessionID (Wire.Message_Header m) = id s;
  au_path : Reply packet = Some path /\ replyIdentityUnchecked (Some path) = Ok key /\ Available w path = true;
  au_open : state s <> StateClosed;
  au_carrier : role s = RoleInitiator -> knownCarrier s (PathID path);
  au_budget : state s = StateEstablished -> len (Payload packet) <= receiveMaxUDPPayload s }.

(** The outcome of a packet that changed nothing. *)
Record ignored (s : Session) (reg : option ListenerPathCounters) (h : @Handled Env) : Prop := {
  ig_state : hd_s h = s;
  ig_reg : hd_reg h = reg;
  ig_err : is_Some (hd_err h);
  ig_none : Datagram (hd_result h) = None /\ Response (hd_result h) = None /\
            Established (hd_result h) = false /\ hd_notify h = false }.

Lemma handleLocked_notify key path now packet m s reg w :
  br_notify (handleLocked key path now packet m s reg w) = true ->
  br_err (handleLocked key path now packet m s reg w) = None.
Proof.
  unfold handleLocked. destruct (state s); try done;
    (destruct (_ && _); [done|]); (destruct (_ && _); [done|]); cbv zeta; set (d := dispatch _ _ _ _ _ _ _ _).
  all: assert (X : br_notify d = true -> br_err d = None)
    by (subst d; unfold dispatch; cbv zeta;
        repeat match goal with |- context [if ?c then _ else _] => destruct c end; try done;
        unfold handleHello, handleHelloAck, handleDataShard, handlePing, handlePong; cbv zeta;
        repeat (match goal with |- context [match ?c with _ => _ end] => destruct c end; try done)).
  all: destruct (br_err d) eqn:E; [intros N; exfalso; by apply X in N|]; by destruct (br_done d).
Qed.

(** C10: A Session reads nothing from and changes nothing for a packet it does not
    accept: either the packet is the sealed packet of a well-formed message of this
    Session, from an available path (of a configured carrier, for an initiator), within
    the negotiated budget, and the Session is open; or the Session and the counters are
    exactly as before, nothing is delivered or answered, and an error is returned. *)
Theorem HandlePacket_authentic ctx packet s reg w :
  let h := HandlePacket ctx packet s reg w in
  ignored s reg h \/ exists m path key, authentic s packet w m path key.
Proof.
  cbv zeta. unfold HandlePacket. cbv zeta.
  assert (Hr : forall r e, Datagram r = None -> Response r = None -> Established r = false ->
    ignored s reg (refused r e s reg w)) by (intros; split; cbn; eauto).
  destruct (checkContext ctx w) as [c|]; [|left; by apply Hr].
  destruct (Wire.DecodeAuthenticated _ _ _) as [m|] eqn:D; [|left; by apply Hr].
  apply Wire.DecodeAuthenticated_sealed in D as (M & V & _ & _ & _ & _ & D).
  unfold handleAuthenticatedWithIdentity. cbv zeta. destruct (negb _) eqn:Sid; [left; by apply Hr|]. bools.
  destruct (replyIdentityUnchecked (Reply packet)) as [key|] eqn:K; [|left; by apply Hr].
  destruct (Reply packet) as [path|] eqn:R; [|left; by apply Hr].
  destruct (negb (Available w path)) eqn:A; [left; by apply Hr|]. bools. destruct (Now w) as [now w1].
  pose proof (handleLocked_notify key path now packet m s reg w1) as N.
  destruct (handleLocked_cases key path now packet m s reg w1) as [(X1 & X2 & X3 & X4 & X5 & X6)|(S & P & B & _)].
  - left. destruct (br_err _) as [e|] eqn:E; [|done]. split; cbn; try done.
    rewrite X4. split_and!; try done. destruct (br_notify _); [|done]. by specialize (N eq_refl).
  - right. exists m, path, key. by split.
Qed.
End Props.
