(* ===== verification/SessionDeliver.v ===== *)
(** * A Session's decoder: what every run delivers

    [decoder_move] is what one step does to the FEC decoder.  A run of a Session is thus
    a run of its decoder, and the decoder's guarantees become the Session's. *)

From S2P Require Import Prelude Transport Session SessionInv SessionWire SessionSteps SessionRun.
From S2P Require Import SessionMethods SessionReach SessionBirth.
From S2P Require Wire Fec FecReplay FecDecoder FecDecoderProps FecDelivery SessionProps.
Import Wire (SessionID).

Section Deliver.
Context {Env : Type} `{Sockets Env} `{Fec.ReedSolomon}.
Implicit Types (w : Env) (s : Session).

(** One step of the decoder: none, its creation, its end, or one call. *)
Inductive decoder_move (s : Session) (out : list delivery) (s' : Session) : Prop :=
| dm_same : out = [] -> decoder s' = decoder s -> decoder_move s out s'
| dm_new d : out = [] -> state s = StateHandshaking -> state s' = StateEstablished ->
    FecDecoder.NewDecoder (decoderConfig s') = Ok d -> decoder s' = Some d -> decoder_move s out s'
| dm_drop : out = [] -> decoder s' = None -> decoder_move s out s'
| dm_call dec op o dec' : decoder s = Some dec -> decoder s' = Some dec' ->
    FecDelivery.step dec op = (o, dec') -> FecDelivery.op_typed op ->
    (out = [] \/ exists id d, out = [(id, d)] /\ FecDelivery.deliveredID (op, o) = Some id) ->
    decoder_move s out s'.

Lemma touch_decoder s s' : touch s s' -> decoder s' = decoder s.
Proof. intros [E _]. unfold core in E. congruence. Qed.

Lemma shrinks_move s s' : shrinks s s' -> decoder_move s [] s'.
Proof. intros Sh. apply dm_same; [done|]. apply touch_decoder, Sh. Qed.

Lemma learned_decoder w key path now s reg :
  decoder (learned_s (learnEndpointLocked w key path now s reg)) = decoder s.
Proof.
  pose proof (learn_spec w key path now s reg) as L. cbv zeta in L.
  destruct (canLearnEndpointLocked w key path now s) as [[e|] s2] eqn:E;
    destruct (canLearn_spec _ _ _ _ _ _ _ E) as ([T _ _ _] & _ & _).
  - destruct L as (_ & -> & _). by apply touch_decoder.
  - destruct L as (_ & L). rewrite (touch_decoder _ _ (le_touch _ _ _ _ _ _ L)). by apply touch_decoder.
Qed.

Lemma update_carrier_decoder p f s : decoder (update_carrier p f s) = decoder s.
Proof. unfold update_carrier. by destruct (carrierByID s !! p). Qed.

Lemma establish_decoder h now s s' :
  establishLocked h now s = (None, s') ->
  exists d, FecDecoder.NewDecoder (decoderConfig s') = Ok d /\ decoder s' = Some d /\ state s' = StateEstablished.
Proof.
  unfold establishLocked. destruct (validateHandshake h s); [done|].
  destruct (Fec.NewEncoder _ _); [|done]. destruct (FecDecoder.NewDecoder _) as [d|] eqn:E; [|done].
  intros [= <-]. exists d. split_and!; [exact E|done..].
Qed.

Section packet.
Variables (key : bytes) (path : Path) (now : Z) (m : Wire.Message).
Variables (s : Session) (reg : option ListenerPathCounters) (w : Env).

Lemma hello_move h : let b := handleHello key path now (received m) s reg w h in
  decoder (br_s b) = decoder s /\ Datagram (br_result b) = None.
Proof.
  cbv zeta. unfold handleHello. destruct (negb _ || _); [done|].
  destruct (validateFrozenHandshakeLocked h s); [done|]. cbv zeta.
  destruct (learn_err _); [by rewrite <- (learned_decoder w key path now s reg)|].
  destruct (helloAck _); by rewrite <- (learned_decoder w key path now s reg).
Qed.

Lemma ping_move p : let b := handlePing key path now (received m) s reg w p in
  decoder (br_s b) = decoder s /\ Datagram (br_result b) = None.
Proof.
  cbv zeta. unfold handlePing. destruct (negb _); [done|]. cbv zeta.
  destruct (learn_err _); [by rewrite <- (learned_decoder w key path now s reg)|].
  destruct (Wire.NewPong _ _ _); by rewrite <- (learned_decoder w key path now s reg).
Qed.

Lemma pong_move p : let b := handlePong key path now (received m) s reg w p in
  decoder (br_s b) = decoder s /\ Datagram (br_result b) = None.
Proof.
  cbv zeta. unfold handlePong. destruct (negb _); [done|]. cbv zeta.
  destruct (outstanding s !! _); [|done]. destruct (_ || _); [done|].
  destruct (canLearnEndpointLocked w key path now s) as [[e|] s1] eqn:E;
    destruct (canLearn_spec _ _ _ _ _ _ _ E) as ([T _ _ _] & _ & _); apply touch_decoder in T; [done|].
  destruct (learn_err _); cbn [br_s br br_result set_endpoints decoder]; by rewrite learned_decoder.
Qed.

Lemma ack_move h : let b := handleHelloAck key path now (received m) s reg w h in
  Datagram (br_result b) = None /\ (Inv s -> decoder_move s [] (br_s b)).
Proof.
  cbv zeta. unfold handleHelloAck. destruct (negb _ || _) eqn:C; [by split; [|intros; apply dm_same]|].
  destruct (bool_decide (state s = StateHandshaking)) eqn:S; bools.
  - destruct (establishLocked h now s) as [[e|] s1] eqn:E.
    + split; [done|]. intros I. apply (establish_spec _ _ _ _ _ I S) in E as [-> _]. by apply dm_same.
    + destruct (establish_decoder _ _ _ _ E) as (d & N & D & S1). split.
      { cbv zeta. by destruct (learn_err _). }
      intros I. apply (establish_spec _ _ _ _ _ I S) in E as (I1 & _ & _ & _ & _).
      assert (X : forall s2, decoder s2 = decoder s1 -> state s2 = state s1 -> decoderConfig s2 = decoderConfig s1 ->
        decoder_move s [] s2).
      { intros s2 D2 S2 C2. apply (dm_new s [] s2 d); congruence. }
      assert (T : core (learned_s (learnEndpointLocked w key path now s1 reg)) = core s1).
      { pose proof (learn_spec w key path now s1 reg) as L. cbv zeta in L.
        destruct (canLearnEndpointLocked w key path now s1) as [[e|] s2] eqn:E2;
          destruct (canLearn_spec _ _ _ _ _ _ _ E2) as ([[T _] _ _ _] & _ & _).
        - by destruct L as (_ & -> & _).
        - destruct L as (_ & [[T' _] _ _ _]). congruence. }
      unfold core in T. set (l := learned_s _) in *.
      assert (Tc : decoderConfig l = decoderConfig s1).
      { unfold decoderConfig. replace (conf l) with (conf s1) by congruence.
        replace (id l) with (id s1) by congruence. by replace (peerMaxUDPPayload l) with (peerMaxUDPPayload s1) by congruence. }
      cbv zeta. destruct (learn_err _); cbn [br_s br]; apply X; try congruence.
      * rewrite update_carrier_decoder. fold l. congruence.
      * unfold update_carrier. fold l. destruct (carrierByID l !! _); cbn; congruence.
      * unfold update_carrier. fold l. destruct (carrierByID l !! _); cbn; done.
  - destruct (validateFrozenHandshakeLocked h s); [by split; [|intros; apply dm_same]|].
    cbv zeta. destruct (learn_err _); (split; [done|]); intros _; apply dm_same; cbn; try done;
      rewrite ?update_carrier_decoder; apply learned_decoder.
Qed.

Lemma data_move d : let b := handleDataShard key path now (received m) s reg w d in
  in_u 64 (Wire.PacketID d) -> Wire.PacketID (Wire.Message_DataShard m) = Wire.PacketID d ->
  decoder_move s (handed m b) (br_s b).
Proof.
  cbv zeta. intros U Hm. unfold handleDataShard, handed. rewrite Hm.
  destruct (negb _); [by apply dm_same|]. destruct (_ || _); [by apply dm_same|].
  destruct (canLearnEndpointLocked w key path now s) as [[e|] s1] eqn:E;
    destruct (canLearn_spec _ _ _ _ _ _ _ E) as ([T _ _ _] & _ & _); apply touch_decoder in T; [by apply dm_same|].
  destruct (decoder s1) as [dec|] eqn:D; [|apply dm_same; [done|cbn; congruence]].
  destruct (Now w) as [at_ w1]. destruct (FecDecoder.AddVerifiedShard dec at_ (incoming s d)) as [r dec'] eqn:A.
  set (op := FecDelivery.OpAdd at_ (incoming s d)).
  assert (St : FecDelivery.step dec op = (FecDelivery.OutAdd r, dec')) by (subst op; cbn [FecDelivery.step]; by rewrite A).
  destruct r as [res|e].
  2: { eapply (dm_call _ _ _ dec op); [congruence|reflexivity|exact St|exact U|by left]. }
  destruct (bool_decide (FecDecoder.outcome res = FecDecoder.OutcomeTooOld)); cbv zeta.
  { cbn [br_err br_result br_s]. eapply (dm_call _ _ _ dec op); [congruence|reflexivity|exact St|exact U|by left]. }
  cbn [br_err br_result br_s br].
  eapply (dm_call _ _ _ dec op); [congruence|by rewrite learned_decoder|exact St|exact U|].
  destruct (learn_err _) as [e|] eqn:L; [by left|]. cbn [negb].
  destruct (bool_decide (FecDecoder.outcome res = FecDecoder.OutcomeComplete)) eqn:C.
  - replace (negb (bool_decide (is_Some (@None SessionError)))) with true
      by (symmetry; apply negb_true_iff, bool_decide_eq_false; by intros [? ?]).
    cbn. destruct (FecDecoder.Datagram res) as [x|]; [|by left]. right. exists (Wire.PacketID d), x.
    split; [done|]. cbn. by rewrite C.
  - rewrite andb_false_r. by left.
Qed.

Lemma dispatch_move size : Wire.Message_wf m -> Inv s ->
  let b := dispatch key path now size m s reg w in decoder_move s (handed m b) (br_s b).
Proof.
  cbv zeta. intros M I. unfold dispatch, handed. cbv zeta.
  destruct (_ =? Wire.TypeHello).
  { destruct (hello_move (Wire.Message_Handshake m)) as [D N]. apply dm_same; [|exact D].
    rewrite N. by destruct (br_err _). }
  destruct (_ =? Wire.TypeHelloAck).
  { destruct (ack_move (Wire.Message_Handshake m)) as [N D]. rewrite N.
    destruct (br_err _); by apply D. }
  destruct (_ =? Wire.TypeDataShard); [apply data_move; [apply M|done]|].
  destruct (_ =? Wire.TypePing).
  { destruct (ping_move (Wire.Message_Probe m)) as [D N]. apply dm_same; [|exact D].
    rewrite N. by destruct (br_err _). }
  destruct (_ =? Wire.TypePong).
  { destruct (pong_move (Wire.Message_Probe m)) as [D N]. apply dm_same; [|exact D].
    rewrite N. by destruct (br_err _). }
  destruct (_ =? Wire.TypeClose); [by apply dm_drop|by apply dm_same].
Qed.
End packet.

Lemma handleLocked_move key path now packet m s reg w : Wire.Message_wf m -> Inv s ->
  let b := handleLocked key path now packet m s reg w in decoder_move s (handed m b) (br_s b).
Proof.
  cbv zeta. intros M I. unfold handed.
  destruct (handleLocked_cases key path now packet m s reg w) as [(-> & _ & _ & _ & X)|(_ & _ & _ & -> & _ & -> & -> & _)].
  - destruct X as [e ->]. by apply dm_same.
  - by apply dispatch_move.
Qed.

(** ** The other sections *)

Lemma planPings_decoder w now paths : forall s, decoder (snd (planPings w paths now s)) = decoder s.
Proof.
  induction paths as [|p paths IH]; intros s; [done|]. cbn [planPings]. unfold planPingLocked. cbv zeta.
  destruct (Wire.NewPing _ _ _); [|done]. set (s1 := set_outstanding _ _). specialize (IH s1).
  destruct (planPings w paths now s1). exact IH.
Qed.

Lemma advance_rest_decoder now s w plans res err s' w' :
  advanceLocked now s w = (plans, res, err, s', w') ->
  decoder s' = decoder (snd (fst (sweepDecoder now (snd (sweepEndpointsLocked now s)) w))).
Proof.
  unfold advanceLocked. destruct (sweepEndpointsLocked now s) as [n s1]. cbn [snd].
  destruct (sweepDecoder now s1 w) as [[stats s2] w1]. cbn [fst snd].
  assert (X : decoder (snd (advanceHandshake now s2)) = decoder s2).
  { unfold advanceHandshake. destruct (_ && _); [|done]. destruct (retryHellos _ _ _) as [[plans'|] cs]; [|done].
    cbv zeta. by destruct (_ && _). }
  destruct (advanceHandshake now s2) as [[[hellos failed]|] s3]; cbn [snd] in X; [|by intros [= _ _ _ <- _]].
  assert (Y : decoder (snd (advanceKeepalive w1 now s3)) = decoder s3).
  { unfold advanceKeepalive. destruct (_ && _); [|done].
    pose proof (planPings_decoder w1 now (keepalivePathsLocked w1 now s3) s3) as P.
    destruct (planPings _ _ _ _) as [[plans'|] s4]; exact P. }
  destruct (advanceKeepalive w1 now s3) as [[pings|] s4]; cbn [snd] in Y; intros [= _ _ _ <- _]; congruence.
Qed.

Lemma advance_move now s w plans res err s' w' :
  advanceLocked now s w = (plans, res, err, s', w') -> decoder_move s [] s'.
Proof.
  intros E. apply advance_rest_decoder in E. revert E.
  pose proof (touch_decoder _ _ (sh_touch _ _ (sweep_shrinks now s))) as T.
  set (s1 := snd (sweepEndpointsLocked now s)) in *. unfold sweepDecoder.
  destruct (decoder s1) as [dec|] eqn:D; [|intros E; apply dm_same; cbn in *; congruence].
  destruct (due _ _); [|intros E; apply dm_same; cbn in *; congruence]. destruct (Now w) as [at_ w1].
  destruct (FecDecoder.Sweep dec at_) as [st dec'] eqn:S. cbn [fst snd]. intros E.
  eapply (dm_call _ _ _ dec (FecDelivery.OpSweep at_)); [congruence|exact E| |done|by left].
  cbn [FecDelivery.step]. by rewrite S.
Qed.

Lemma section_move s new out s' : Inv s -> section s new out s' -> decoder_move s out s'.
Proof.
  intros I X. destruct X as [s now plans cs S R St P|w s key path now packet m reg K M b
    |w s now plans res s' w' N A|s now enc payload r enc' S En E|s path|w s now m|s errs|s now|s p b].
  - by apply dm_same.
  - by apply handleLocked_move.
  - by eapply advance_move.
  - apply dm_same; [done|]. apply (touch_decoder _ _ (sh_touch _ _ (sweep_shrinks now s))).
  - apply shrinks_move, setPathHealth_shrinks.
  - by apply dm_drop.
  - by apply dm_same.
  - apply shrinks_move, sweep_shrinks.
  - apply dm_same; [done|]. unfold SetPathHealthy. destruct (_ =? 0); [done|]. destruct (bool_decide _); [done|].
    cbn. apply update_carrier_decoder.
Qed.

Lemma step_move x out y : Inv (fst x) -> step x out y -> decoder_move (fst x) out (fst y).
Proof.
  intros I X. destruct X as [s fl new out' s' X|s fl1 b plan fl2 err]; cbn [fst] in *; [by eapply section_move|].
  apply shrinks_move, afterSend_shrinks.
Qed.

(** ** Delivery at most once *)

(** The PacketIDs delivered so far are among those the decoder has completed. *)
Definition accounted (ids : list Z) (s : Session) : Prop :=
  NoDup ids /\ (ids <> [] -> state s <> StateHandshaking) /\
  match decoder s with
  | Some dec => exists sp, FecDelivery.live dec sp /\ FecDecoder.closed dec = false /\
      FecDecoder.replay dec <> None /\ Forall (fun id => id ∈ FecReplay.Spec.finished sp) ids
  | None => True
  end.

Lemma accounted_move ids s out s' :
  Inv s -> Inv s' -> (state s <> StateHandshaking -> state s' <> StateHandshaking) ->
  decoder_move s out s' -> accounted ids s -> accounted (ids ++ (fst <$> out)) s'.
Proof.
  intros I I' F X (N & Hh & D).
  destruct X as [-> X|d -> X1 X2 X3 X4| -> X|dec op o dec' X1 X2 X3 X4 X5]; unfold accounted; cbn; rewrite ?app_nil_r.
  - split_and!; [done|auto|by rewrite X].
  - rewrite X4. assert (ids = []) as -> by (destruct ids; [done|exfalso; by apply Hh]).
    split_and!; [done|congruence|]. exists FecReplay.Spec.new.
    destruct (FecDelivery.NewDecoder_live _ _ (SessionProps.decoderConfig_typed s' I' X2) X3)
      as (L & C & _ & _ & _ & _ & W & _). split_and!; [done|done|by apply W|constructor].
  - split_and!; [done|auto|by rewrite X].
  - rewrite X1 in D. destruct D as (sp & L & C & R & Hin). rewrite X2.
    destruct (SessionProps.decoder_established s dec I X1) as [S _].
    destruct (SessionProps.decoder_established s' dec' I' X2) as [S' (d0 & pre & _ & _ & -> & C')].
    set (dec' := snd (FecDelivery.run d0 pre)) in *.
    destruct (FecDelivery.step_live dec sp op o dec' L X4 X3) as (sp' & L' & _ & W & Hd).
    destruct X5 as [->|(id & d & -> & Hid)].
    + cbn. rewrite app_nil_r. split_and!; [done|congruence|]. exists sp'. split_and!; [done|done|by apply W|].
      destruct (FecDelivery.deliveredID (op, o)) as [id|].
      * destruct Hd as [_ Hd]. destruct (Hd R) as [_ E]. eapply Forall_impl; [exact Hin|].
        intros x Hx. rewrite E. set_solver.
      * eapply Forall_impl; [exact Hin|]. intros x Hx. by rewrite Hd.
    + rewrite Hid in Hd. destruct Hd as [_ Hd]. destruct (Hd R) as [Hnew E]. cbn. split_and!.
      * apply NoDup_app. split_and!; [done| |apply NoDup_singleton].
        intros x Hx ->%list_elem_of_singleton. rewrite Forall_forall in Hin. by apply Hnew, Hin.
      * congruence.
      * exists sp'. split_and!; [done|done|by apply W|]. apply Forall_app. split.
        -- eapply Forall_impl; [exact Hin|]. intros x Hx. rewrite E. set_solver.
        -- repeat constructor. rewrite E. set_solver.
Qed.

Lemma steps_accounted x out y : steps x out y -> forall ids,
  Inv (fst x) -> accounted ids (fst x) -> accounted (ids ++ (fst <$> out)) (fst y).
Proof.
  induction 1 as [x|x y z out rest X _ IH]; intros ids I A; [by rewrite app_nil_r|].
  destruct (step_good _ _ _ X I) as [I1 E1]. rewrite fmap_app, app_assoc. apply IH; [done|].
  eapply accounted_move; [exact I|done| |by apply step_move|done].
  intros N S. destruct (ev_state _ _ E1) as [E|[E|E]]; congruence.
Qed.

(** A new Session has delivered nothing. *)
Lemma born_accounted s fl : born s fl -> accounted [] s.
Proof.
  intros B. pose proof (born_inv s fl B) as I.
  destruct B as [sid config paths s L E|config c packet m key path reg w s reg' w' ack Nc D K E Ha].
  - apply NewInitiator_inv in E as (_ & _ & S & _); [|done]. split_and!; [constructor|done|].
    destruct (decoder s) as [d|] eqn:Dc; [|done].
    destruct (SessionProps.decoder_established s d I Dc). congruence.
  - apply normalizeConfig_ok in Nc. destruct (decoded_session _ _ _ _ D) as [L N].
    destruct (newListenerSession_born _ _ _ _ _ _ _ _ _ _ L N Nc K E)
      as (now & w1 & s1 & I0 & Es & I1 & -> & _ & T & S & _).
    destruct (establish_decoder _ _ _ _ Es) as (d & Nd & Dc & S1).
    assert (A1 : accounted [] s1).
    { eapply (accounted_move [] _ [] s1 I0 I1); [done|by eapply dm_new|by split_and!; [constructor|..]]. }
    destruct A1 as (A1 & A2 & A3). split_and!; [done|done|]. by rewrite learned_decoder.
Qed.

(** C1: A Session hands each datagram to its caller at most once: from its creation, by
    [NewInitiator] or by a listener for a HELLO, and in any interleaving of calls and
    sends, whatever packets arrive in whatever order and however often, no two
    deliveries carry the same PacketID. *)
Theorem session_delivers_once s0 out s : life s0 out s -> NoDup (fst <$> out).
Proof.
  intros (fl0 & fl & B & X).
  by apply (steps_accounted _ _ _ X [] (born_inv _ _ B) (born_accounted _ _ B)).
Qed.
End Deliver.
