(* ===== verification/SessionChannel.v ===== *)
(** * A datagram crosses from one Session to another

    [writes] is what [WritePacket] puts on the paths for a datagram; [perform] runs the
    calls of the receiving Session on any network.  Every call is at most one call of
    its decoder ([call_move]), so the guarantee of the decoder becomes one between two
    Sessions. *)

From S2P Require Import Prelude Transport Session SessionInv SessionWire SessionSteps SessionRun.
From S2P Require Import SessionMethods SessionReach SessionDeliver.
From S2P Require Wire Fec FecReplay FecDecoder FecDecoderProps FecDelivery FecRecovery SessionProps.
Import Wire (SessionID).

(** ** What the writer sends *)

Definition shardMessage (sid : SessionID) (blk : Fec.EncodedBlock) (i : nat) : Wire.Message := {|
  Wire.Message_Header := {| Wire.Header_Type := Wire.TypeDataShard; Wire.Header_SessionID := sid |};
  Wire.Message_Handshake := Wire.zeroHandshake;
  Wire.Message_DataShard := {|
    Wire.PacketID := Fec.PacketID blk;
    Wire.DataShards := Fec.DataShards (Fec.BlockParams blk);
    Wire.ParityShards := Fec.ParityShards (Fec.BlockParams blk);
    Wire.ShardIndex := Z.of_nat i;
    Wire.OriginalLength := Fec.OriginalLength blk;
    Wire.Payload := nth i (Fec.Shards blk) [] |};
  Wire.Message_Probe := Wire.zeroProbe |}.

(** The packets of a datagram written by [s]. *)
Definition writes `{Fec.ReedSolomon} (s : Session) (payload : bytes) (blk : Fec.EncodedBlock)
    (packets : list bytes) : Prop :=
  exists enc enc', encoder s = Some enc /\ Fec.Encode enc payload = (Ok blk, enc') /\
    shardPackets s (sendMaxUDPPayload s) blk 0 (Fec.Shards blk) = Ok packets.

(** Values that survive the conversions to the field widths of a data shard. *)
Record block_fits (blk : Fec.EncodedBlock) : Prop := {
  bf_id : in_u 64 (Fec.PacketID blk);
  bf_data : 0 <= Fec.DataShards (Fec.BlockParams blk) < 256;
  bf_parity : 0 <= Fec.ParityShards (Fec.BlockParams blk) < 256;
  bf_length : 0 <= Fec.OriginalLength blk < 2 ^ 32;
  bf_shards : len (Fec.Shards blk) <= 256 }.

Lemma shardPackets_at s bdg blk : block_fits blk -> forall shards n packets,
  drop n (Fec.Shards blk) = shards -> (n + length shards <= length (Fec.Shards blk))%nat ->
  shardPackets s bdg blk n shards = Ok packets ->
  length packets = length shards /\
  forall i, (i < length shards)%nat ->
    packets !! i = Some (Wire.sealed (psk (conf s)) (shardMessage (id s) blk (n + i))) /\
    exists l, Wire.EncodedLen (shardMessage (id s) blk (n + i)) = Ok l /\ l <= bdg.
Proof.
  intros [B1 B2 B3 B4 B5]. unfold len in B5.
  induction shards as [|shard shards IH]; intros n packets Hd Hn; cbn [shardPackets].
  { intros [= <-]. split; [done|]. intros i Hi. cbn in Hi. lia. }
  cbn [length] in Hn.
  assert (Hs : nth n (Fec.Shards blk) [] = shard).
  { apply nth_lookup_Some. by rewrite <- (Nat.add_0_r n), <- lookup_drop, Hd. }
  unfold u8, u32. rewrite !wrap_small by (unfold in_u; cbn; lia).
  replace (Wire.NewDataShard (id s) (Fec.PacketID blk) (Fec.DataShards (Fec.BlockParams blk))
    (Fec.ParityShards (Fec.BlockParams blk)) (Z.of_nat n) (Fec.OriginalLength blk) shard)
    with (Wire.validated (shardMessage (id s) blk n))
    by (unfold Wire.NewDataShard, shardMessage; by rewrite Hs).
  unfold Wire.validated. destruct (Wire.EncodedLen (shardMessage (id s) blk n)) as [l|] eqn:L; [|done].
  cbn [result_bind]. destruct (Wire.AppendAuthenticated _ _ _ _) as [packet [e|]] eqn:A; [done|].
  apply Wire.AppendAuthenticated_ok in A as (_ & _ & (l' & L' & Hl) & ->).
  destruct (shardPackets s bdg blk (S n) shards) as [rest|] eqn:R; [|done]. intros [= <-].
  assert (Hd' : drop (S n) (Fec.Shards blk) = shards).
  { replace (S n) with (n + 1)%nat by lia. by rewrite <- drop_drop, Hd. }
  destruct (IH (S n) rest Hd' ltac:(lia) R) as [IL IP]. split; [cbn; lia|].
  intros [|i] Hi; cbn [lookup list_lookup].
  - rewrite Nat.add_0_r. split; [done|eauto].
  - replace (n + S i)%nat with (S n + i)%nat by lia. apply IP. cbn in Hi. lia.
Qed.

Section Channel.
Context {Env : Type} `{Sockets Env} `{Fec.ReedSolomon}.
Implicit Types (w : Env) (s : Session).

Definition lawful (p : Fec.Params) : Prop :=
  forall c, Fec.reedsolomon_New (Fec.DataShards p) (Fec.ParityShards p) = Some c ->
    Fec.Lawful (Z.to_nat (Fec.DataShards p)) (Z.to_nat (Fec.ParityShards p)) c.

(** The encoder of an established Session. *)
Lemma established_encoder s : Inv s -> state s = StateEstablished -> lawful (params (conf s)) ->
  exists enc, encoder s = Some enc /\ encoder_reachable s enc /\ Fec.encoder_ok enc /\
    Fec.params enc = params (conf s) /\
    Fec.limits enc = Fec.limits_of (params (conf s)) (FecDecoder.cfg_Budget (decoderConfig s)) /\
    Fec.Lawful (Z.to_nat (Fec.DataShards (Fec.params enc))) (Z.to_nat (Fec.ParityShards (Fec.params enc)))
      (Fec.codec enc).
Proof.
  intros I S L. pose proof (SessionProps.decoderConfig_typed s I S) as T.
  pose proof (in_phase s I) as P. unfold phase_ok in P. rewrite S in P.
  destruct P as ([(enc & E & R) _ _ _ _] & _). exists enc. split; [done|]. split; [done|].
  destruct R as (nxt & exh & U & N). destruct (Fec.newEncoderAt_ok _ _ _ _ _ T U N) as (O & E1 & E2 & _ & _ & C).
  rewrite E1. auto.
Qed.

Record written (s : Session) (payload : bytes) (blk : Fec.EncodedBlock) : Prop := {
  wn_fits : block_fits blk;
  wn_params : Fec.BlockParams blk = params (conf s);
  wn_length : Fec.OriginalLength blk = len payload;
  wn_count : length (Fec.Shards blk) =
    (Z.to_nat (Fec.DataShards (params (conf s))) + Z.to_nat (Fec.ParityShards (params (conf s))))%nat;
  wn_size : Forall (fun d => len d = Fec.shardSizeForDatagram (len payload) (Fec.DataShards (params (conf s))))
    (Fec.Shards blk) }.

Lemma encode_written s enc payload blk enc' :
  Inv s -> state s = StateEstablished -> lawful (params (conf s)) -> encoder s = Some enc ->
  Fec.Encode enc payload = (Ok blk, enc') -> written s payload blk.
Proof.
  intros I S L E X. destruct (established_encoder s I S L) as (enc1 & E1 & _ & O & P & _ & Lw).
  assert (enc1 = enc) as -> by congruence. pose proof (in_conf s I) as [_ C1 C2 C3 _ _ _ _ _ _ _ _ _ _ _ _].
  pose proof (Fec.Encode_exact enc payload O Lw) as Ex. pose proof (Fec.eo_effective _ O) as Ef.
  pose proof (Fec.eo_next _ O) as Nx. pose proof (len_nonneg payload) as Ln.
  destruct (_ <? _) eqn:Q; [congruence|]. destruct (Fec.exhausted enc); [congruence|].
  destruct Ex as (blk1 & X1 & Id & [N1 N2 (data & zeros & parity & D1 & D2 & D3 & _ & D5 & _ & D7)]).
  assert (blk1 = blk) as -> by congruence. rewrite P in *. unfold Fec.maxWireOriginalLength in *.
  assert (Hc : length (Fec.Shards blk) = (Z.to_nat (Fec.DataShards (params (conf s)))
    + Z.to_nat (Fec.ParityShards (params (conf s))))%nat) by (rewrite D5, length_app; lia).
  split; try done. split; rewrite ?N2, ?N1, ?Id; try done; try lia. unfold len. lia.
Qed.

(** The packets of a written datagram are its shards, sealed. *)
Lemma writes_spec s payload blk packets :
  Inv s -> state s = StateEstablished -> lawful (params (conf s)) -> writes s payload blk packets ->
  written s payload blk /\ length packets = length (Fec.Shards blk) /\
  forall i, (i < length (Fec.Shards blk))%nat ->
    packets !! i = Some (Wire.sealed (psk (conf s)) (shardMessage (id s) blk i)) /\
    exists l, Wire.EncodedLen (shardMessage (id s) blk i) = Ok l /\ l <= sendMaxUDPPayload s.
Proof.
  intros I S L (enc & enc' & E & X & P). pose proof (encode_written _ _ _ _ _ I S L E X) as W.
  split; [done|]. apply (shardPackets_at s _ blk (wn_fits _ _ _ W) _ 0 packets); [done|lia|done].
Qed.

(** ** Writing does not fail for want of room *)

Lemma shardSize_expected l k : 1 <= l -> 1 <= k <= 255 -> l <= 2 ^ 32 ->
  Fec.shardSizeForDatagram l k = 1 + (l - 1) / k.
Proof.
  intros Hl Hk Hm. unfold Fec.shardSizeForDatagram. rewrite (proj2 (Z.eqb_neq l 0)) by lia.
  rewrite Z.quot_div_nonneg, Z.rem_mod_nonneg by lia.
  pose proof (Z.div_mod l k ltac:(lia)) as D. pose proof (Z.mod_pos_bound l k ltac:(lia)) as M.
  destruct (l mod k =? 0) eqn:Z0; cbn [negb].
  - replace (l - 1) with ((l / k - 1) * k + (k - 1)) by nia.
    rewrite Z.div_add_l, (Z.div_small (k - 1)) by lia. lia.
  - assert (0 <= l / k <= l) by (split; [apply Z.div_pos; lia|apply Z.div_le_upper_bound; nia]).
    rewrite Fec.goInt_small by (unfold Fec.in_int; lia).
    replace (l - 1) with (l / k * k + (l mod k - 1)) by lia.
    rewrite Z.div_add_l, (Z.div_small (_ - 1)) by lia. lia.
Qed.

Lemma shardMessage_sendable s payload blk i :
  Inv s -> written s payload blk -> payload <> [] -> len payload <= 2 ^ 32 ->
  (i < length (Fec.Shards blk))%nat ->
  Fec.shardSizeForDatagram (len payload) (Fec.DataShards (params (conf s))) <= 65436 ->
  sendable (shardMessage (id s) blk i)
    (71 + Fec.shardSizeForDatagram (len payload) (Fec.DataShards (params (conf s)))).
Proof.
  intros I [[F1 F2 F3 F4 F5] W2 W3 W4 W5] Hp Hm Hi Hs. destruct (in_id s I) as [L N].
  pose proof (in_conf s I) as [_ C1 C2 C3 _ _ _ _ _ _ _ _ _ _ _ _]. set (size := Fec.shardSizeForDatagram _ _) in *.
  assert (Hl : len (nth i (Fec.Shards blk) []) = size).
  { rewrite Forall_forall in W5. apply W5, list_elem_of_In, nth_In. lia. }
  assert (Hp1 : 1 <= len payload) by (destruct payload; [done|rewrite len_cons; pose proof (len_nonneg payload); lia]).
  assert (Hexp : size = 1 + (len payload - 1) / Fec.DataShards (params (conf s))) by (apply shardSize_expected; lia).
  unfold len in F5. rewrite W4 in F5, Hi.
  assert (B : len (Wire.encodeBody (shardMessage (id s) blk i)) = 15 + size).
  { unfold Wire.encodeBody, shardMessage. cbn [Wire.Message_Header Wire.Header_Type].
    cbn. rewrite !len_app, !len_be_put. cbn. rewrite ?len_cons, ?len_app, ?len_be_put, Hl. cbn. lia. }
  split; [| |lia|lia].
  - split; cbn; unfold in_u; try done; try lia; rewrite ?W2; lia.
  - unfold Wire.validateMessage, shardMessage. cbn [Wire.Message_Header Wire.Header_SessionID Wire.Header_Type].
    rewrite decide_False by done. cbn.
    unfold Wire.validateDataShardBody. cbn [Wire.Message_Handshake Wire.Message_Probe Wire.Message_DataShard
      Wire.DataShards Wire.ParityShards Wire.ShardIndex Wire.OriginalLength Wire.Payload].
    rewrite !bool_decide_eq_true_2 by done. cbn [negb orb].
    assert (V : Wire.validateFEC (Fec.DataShards (Fec.BlockParams blk)) (Fec.ParityShards (Fec.BlockParams blk)) = None)
      by (unfold Wire.validateFEC; rewrite W2; by replace (_ || _) with false by lia).
    rewrite V, W2, W3, Hl, Hexp. replace (_ <=? Z.of_nat i) with false by lia.
    replace (len payload =? 0) with false by lia. by rewrite Z.eqb_refl.
Qed.

Lemma shardPackets_total s bdg blk size : block_fits blk -> psk (conf s) <> [] ->
  Wire.MinUDPPayload <= bdg <= Wire.MaxUDPPayload -> size <= bdg ->
  (forall i, (i < length (Fec.Shards blk))%nat -> sendable (shardMessage (id s) blk i) size) ->
  forall shards n, drop n (Fec.Shards blk) = shards -> (n + length shards <= length (Fec.Shards blk))%nat ->
  exists packets, shardPackets s bdg blk n shards = Ok packets.
Proof.
  intros [B1 B2 B3 B4 B5] K Hb Hs M. unfold len in B5.
  induction shards as [|shard shards IH]; intros n Hd Hn; cbn [shardPackets]; [eauto|]. cbn [length] in Hn.
  assert (Hsh : nth n (Fec.Shards blk) [] = shard)
    by (apply nth_lookup_Some; by rewrite <- (Nat.add_0_r n), <- lookup_drop, Hd).
  unfold u8, u32. rewrite !wrap_small by (unfold in_u; cbn; lia).
  replace (Wire.NewDataShard _ _ _ _ _ _ _) with (Wire.validated (shardMessage (id s) blk n))
    by (unfold Wire.NewDataShard, shardMessage; by rewrite Hsh).
  rewrite (sendable_validated _ size) by (auto with lia). cbn [result_bind].
  rewrite (sendable_append _ size) by auto with lia.
  destruct (IH (S n)) as [rest ->]; [|lia|eauto].
  replace (S n) with (n + 1)%nat by lia. by rewrite <- drop_drop, Hd.
Qed.

(** An established Session turns every nonempty datagram within the encoder's limit
    into packets within the negotiated budget. *)
Lemma writes_total s payload enc :
  Inv s -> state s = StateEstablished -> lawful (params (conf s)) -> encoder s = Some enc ->
  payload <> [] -> len payload <= Fec.EffectiveDatagramLimit (Fec.limits enc) ->
  Fec.exhausted enc = false ->
  exists blk packets, writes s payload blk packets.
Proof.
  intros I S L E Hp Hl Hx. destruct (established_encoder s I S L) as (enc1 & E1 & _ & O & P & Lim & Lw).
  assert (enc1 = enc) as -> by congruence. pose proof (Fec.Encode_exact enc payload O Lw) as Ex.
  pose proof (Fec.eo_effective _ O) as Ef. unfold Fec.maxWireOriginalLength in Ef.
  replace (_ <? _) with false in Ex by lia. rewrite Hx in Ex. destruct Ex as (blk & X & _ & _).
  pose proof (encode_written _ _ _ _ _ I S L E X) as W. exists blk.
  pose proof (in_conf s I) as [C0 C1 C2 C3 C4 _ _ _ _ _ _ _ _ _ _ _].
  pose proof (in_phase s I) as Ph. unfold phase_ok in Ph. rewrite S in Ph. destruct Ph as ([_ _ Pe [Pb _] _] & _).
  assert (Hs : 71 + Fec.shardSizeForDatagram (len payload) (Fec.DataShards (params (conf s))) <= sendMaxUDPPayload s).
  { assert (1 <= len payload) by (destruct payload; [done|rewrite len_cons; pose proof (len_nonneg payload); lia]).
    rewrite shardSize_expected by lia. rewrite Lim in Hl, Ef. cbn in Hl, Ef. rewrite Pb.
    change Wire.DataShardOverhead with 71 in Hl. clear Ef.
    assert ((len payload - 1) / Fec.DataShards (params (conf s)) <
      Z.min (localMaxUDPPayload (conf s)) (peerMaxUDPPayload s) - 71); [|lia].
    apply Z.div_lt_upper_bound; lia. }
  unfold Wire.MaxUDPPayload, Wire.MinUDPPayload in *.
  destruct (shardPackets_total s (sendMaxUDPPayload s) blk
    (71 + Fec.shardSizeForDatagram (len payload) (Fec.DataShards (params (conf s)))) (wn_fits _ _ _ W))
    with (shards := Fec.Shards blk) (n := 0%nat) as [packets Pk]; try done; try lia.
  - intros K. rewrite K in C0. rewrite len_nil in C0. lia.
  - unfold Wire.MaxUDPPayload, Wire.MinUDPPayload. lia.
  - intros i Hi. apply (shardMessage_sendable s payload); try done; lia.
  - exists packets, enc, (Fec.takePacketID enc). split; [done|]. split; [|done].
    pose proof (Fec.Encode_exact enc payload O Lw) as Ex. replace (_ <? _) with false in Ex by lia.
    rewrite Hx in Ex. destruct Ex as (blk1 & X1 & _). congruence.
Qed.
End Channel.
