(* ===== verification/SessionTransit.v ===== *)
(** * What the receiving Session does with the packets of a datagram

    [perform] runs one call of a Session on an arbitrary network; [call_spec] is what it
    does to the decoder when the Session is established, and [session_transit] the
    guarantee between two Sessions. *)

From S2P Require Import Prelude Transport Session SessionInv SessionWire SessionSteps SessionRun.
From S2P Require Import SessionMethods SessionReach SessionDeliver SessionChannel.
From S2P Require Wire Fec FecReplay FecDecoder FecDecoderProps FecDelivery FecRecovery SessionProps.
Import Wire (SessionID).

Section Transit.
Context {Env : Type} `{Sockets Env} `{Fec.ReedSolomon}.
Implicit Types (w : Env) (s : Session).

(** The calls the owner of a Session interleaves, each on a network of its own; all its
    methods but [Close].  [WritePacket] has no result when [SendBlock] panics. *)
Inductive call :=
| Begin (ctx : option Context) (w : Env)
| Write (ctx : option Context) (payload : bytes) (w : Env)
| Recv (ctx : option Context) (packet : ReceivedPacket) (reg : option ListenerPathCounters) (w : Env)
| Tick (ctx : option Context) (w : Env)
| Paths (w : Env)
| Health (pathID : bytes) (b : bool).

Definition perform (c : call) (s : Session) : list delivery * Session :=
  match c with
  | Begin ctx w => ([], snd (fst (Start ctx s w)))
  | Write ctx payload w =>
      ([], match WritePacket ctx payload s w with Some r => snd (fst r) | None => s end)
  | Recv ctx packet reg w => let h := HandlePacket ctx packet s reg w in (handedBy h, hd_s h)
  | Tick ctx w => ([], snd (fst (Advance ctx s w)))
  | Paths w => ([], snd (fst (SendPaths s w)))
  | Health p b => ([], snd (SetPathHealthy p b s))
  end.

Fixpoint performAll (cs : list call) (s : Session) : list delivery * Session :=
  match cs with
  | [] => ([], s)
  | c :: rest =>
      let '(out, s1) := perform c s in
      let '(out', s2) := performAll rest s1 in (out ++ out', s2)
  end.

(** The second reading of the clock in a call: the decoder's. *)
Definition readAt (w : Env) : Z := fst (Now (snd (Now w))).

Definition callTime (c : call) : option Z :=
  match c with Recv _ _ _ w | Tick _ w => Some (readAt w) | _ => None end.

Section datagram.
Variables (sid : SessionID) (key : bytes) (limit : Z) (blk : Fec.EncodedBlock) (packets : list bytes).

(** The packets a call may bring: anything but a CLOSE of this Session, and for this
    PacketID only the packets that were written. *)
Definition honest (c : call) : Prop :=
  match c with
  | Recv _ packet _ _ => forall m, Wire.DecodeAuthenticated (Payload packet) key limit = Ok m ->
      Wire.Header_SessionID (Wire.Message_Header m) = sid ->
      Wire.Header_Type (Wire.Message_Header m) <> Wire.TypeClose /\
      (Wire.Header_Type (Wire.Message_Header m) = Wire.TypeDataShard ->
       Wire.PacketID (Wire.Message_DataShard m) = Fec.PacketID blk ->
       exists i, packets !! i = Some (Payload packet))
  | _ => True
  end.

Definition before (dl : Z) (c : call) : Prop :=
  match callTime c with Some t => t < dl | None => True end.

(** The call hands over packet [i] and the Session accepts it. *)
Definition takes (s : Session) (c : call) (i : nat) : Prop :=
  match c with
  | Recv ctx packet reg w =>
      packets !! i = Some (Payload packet) /\ hd_err (HandlePacket ctx packet s reg w) = None
  | _ => False
  end.

Fixpoint accepted (s : Session) (cs : list call) (i : nat) : Prop :=
  match cs with
  | [] => False
  | c :: rest => takes s c i \/ accepted (snd (perform c s)) rest i
  end.
End datagram.

(** ** One call *)

(** What a call does to the decoder: nothing, or one call of it; [dm_out] relates what
    the decoder completes and what the Session hands over. *)
Record decoder_call (s : Session) (dec : FecDecoder.Decoder) (ops : list FecDelivery.Op)
    (out : list delivery) (s' : Session) : Prop := {
  dl_decoder : decoder s' = Some (snd (FecDelivery.run dec ops));
  dl_one : (length ops <= 1)%nat;
  dl_typed : Forall FecDelivery.op_typed ops;
  dl_out : forall op o id d, (op, o) ∈ fst (FecDelivery.run dec ops) ->
    FecDelivery.deliveredID (op, o) = Some id ->
    (forall now input, op = FecDelivery.OpAdd now input ->
       o = FecDelivery.OutAdd (Ok {| FecDecoder.outcome := FecDecoder.OutcomeComplete;
                                     FecDecoder.Datagram := Some d |})) ->
    (id, d) ∈ out }.

Lemma silent_call s dec out s' : decoder s' = Some dec -> decoder_call s dec [] out s'.
Proof.
  intros D. split; [done|cbn; lia|constructor|]. intros op o id d []%not_elem_of_nil.
Qed.

Definition shardInput (s : Session) (m : Wire.Message) : FecDecoder.IncomingShard :=
  incoming s (Wire.Message_DataShard m).

(** A data shard that the Session accepts is given to the decoder. *)
Lemma data_call key path now m s reg w dec :
  state s = StateEstablished -> decoder s = Some dec -> Wire.Message_wf m ->
  let b := handleDataShard key path now (received m) s reg w (Wire.Message_DataShard m) in
  exists ops, decoder_call s dec ops (handed m b) (br_s b) /\
    (ops = [] \/ ops = [FecDelivery.OpAdd (fst (Now w)) (shardInput s m)]) /\
    (br_err b = None -> ops = [FecDelivery.OpAdd (fst (Now w)) (shardInput s m)]) /\
    (ops <> [] -> Fec.DataShards (params (conf s)) = Wire.DataShards (Wire.Message_DataShard m) /\
      Fec.ParityShards (params (conf s)) = Wire.ParityShards (Wire.Message_DataShard m)).
Proof.
  intros S D M. cbv zeta. unfold handleDataShard. rewrite bool_decide_eq_true_2 by done. cbn [negb].
  destruct (negb (_ =? _) || _) eqn:Par; [exists []; split_and!; [by apply silent_call|by left|done|done]|].
  destruct (canLearnEndpointLocked w key path now s) as [[e|] s1] eqn:E;
    destruct (canLearn_spec _ _ _ _ _ _ _ E) as ([T _ _ _] & _ & _); pose proof (touch_decoder _ _ T) as T1.
  { exists []. split_and!; [apply silent_call; cbn; congruence|by left|done|done]. }
  rewrite T1, D. destruct (Now w) as [at_ w1] eqn:Nw. cbn [fst]. fold (shardInput s m).
  destruct (FecDecoder.AddVerifiedShard dec at_ (shardInput s m)) as [r dec'] eqn:A.
  set (ops := [FecDelivery.OpAdd at_ (shardInput s m)]).
  assert (R : FecDelivery.run dec ops = ([(FecDelivery.OpAdd at_ (shardInput s m), FecDelivery.OutAdd r)], dec')).
  { subst ops. cbn [FecDelivery.run FecDelivery.step]. by rewrite A. }
  assert (Ty : Forall FecDelivery.op_typed ops) by (repeat constructor; apply M).
  assert (Ps : ops <> [] -> Fec.DataShards (params (conf s)) = Wire.DataShards (Wire.Message_DataShard m) /\
      Fec.ParityShards (params (conf s)) = Wire.ParityShards (Wire.Message_DataShard m)) by (intros _; bools; lia).
  assert (Bad : forall out s2 r2, r = r2 -> decoder s2 = Some dec' ->
    (forall d, r2 <> Ok {| FecDecoder.outcome := FecDecoder.OutcomeComplete; FecDecoder.Datagram := Some d |}) ->
    decoder_call s dec ops out s2).
  { intros out s2 r2 <- D2 Hr. split; [by rewrite R|subst ops; cbn; lia|done|]. rewrite R. cbn [fst].
    intros op o id d [= -> ->]%list_elem_of_singleton _ Ho. specialize (Ho _ _ eq_refl). injection Ho as Ho.
    by apply Hr in Ho. }
  destruct r as [res|e].
  2: { exists ops. split_and!; [by eapply Bad|by right|done|done]. }
  destruct (bool_decide (FecDecoder.outcome res = FecDecoder.OutcomeTooOld)) eqn:Old; cbv zeta.
  { bools. exists ops. split_and!; [|by right|done|done]. eapply Bad; [done|done|]. intros d [= ->]. done. }
  exists ops. split_and!; [|by right|done|done].
  set (s2 := set_decoder (Some dec') s1).
  assert (LE : learn_err (learnEndpointLocked w1 key path now s2 reg) = None).
  { destruct (canLearn_again w w1 key path now s s1 s2 E) as (s3 & E3); [done..|].
    pose proof (learn_spec w1 key path now s2 reg) as L. cbv zeta in L. rewrite E3 in L. apply L. }
  split; [by rewrite R; cbn; rewrite learned_decoder|subst ops; cbn; lia|done|].
  rewrite R. cbn [fst]. intros op o id d [= -> ->]%list_elem_of_singleton Hid Ho.
  specialize (Ho _ _ eq_refl). injection Ho as ->. cbn in Hid. injection Hid as <-.
  unfold handed. cbn [br_err br br_result]. rewrite LE. cbn. apply list_elem_of_singleton. done.
Qed.

Definition isShard (m : Wire.Message) : Prop := Wire.Header_Type (Wire.Message_Header m) = Wire.TypeDataShard.

(** The same for the switch, and for a packet of any type but CLOSE. *)
Lemma dispatch_call key path now size m s reg w dec :
  state s = StateEstablished -> decoder s = Some dec -> Wire.Message_wf m ->
  Wire.Header_Type (Wire.Message_Header m) <> Wire.TypeClose ->
  let b := dispatch key path now size m s reg w in
  exists ops, decoder_call s dec ops (handed m b) (br_s b) /\
    (ops = [] \/ isShard m /\ ops = [FecDelivery.OpAdd (fst (Now w)) (shardInput s m)] /\
      Fec.DataShards (params (conf s)) = Wire.DataShards (Wire.Message_DataShard m) /\
      Fec.ParityShards (params (conf s)) = Wire.ParityShards (Wire.Message_DataShard m)) /\
    (isShard m -> br_err b = None -> ops <> []).
Proof.
  intros S D M C. cbv zeta. unfold dispatch, isShard. cbv zeta.
  destruct (_ =? Wire.TypeHello) eqn:T1.
  { destruct (hello_move key path now m s reg w (Wire.Message_Handshake m)) as [Q _].
    exists []. split_and!; [apply silent_call; congruence|by left|]. intros X. rewrite X in T1. done. }
  destruct (_ =? Wire.TypeHelloAck) eqn:T2.
  { exists []. split_and!; [|by left|intros X; rewrite X in T2; done]. apply silent_call.
    unfold handleHelloAck. destruct (_ || _); [done|]. rewrite bool_decide_eq_false_2 by congruence.
    destruct (validateFrozenHandshakeLocked _ s); [done|]. cbv zeta.
    destruct (learn_err _); cbn [br_s br]; rewrite ?update_carrier_decoder, learned_decoder; done. }
  destruct (_ =? Wire.TypeDataShard) eqn:T3.
  { destruct (data_call key path now m s reg w dec S D M) as (ops & X1 & X2 & X3 & X4).
    exists ops. split_and!; [done| |intros _ E; by rewrite X3].
    destruct X2 as [->| ->]; [by left|]. right. apply Z.eqb_eq in T3.
    destruct X4 as [? ?]; [done|]. done. }
  assert (N : Wire.Header_Type (Wire.Message_Header m) <> Wire.TypeDataShard) by lia.
  exists []. split_and!; [|by left|done]. apply silent_call.
  destruct (_ =? Wire.TypePing).
  { by destruct (ping_move key path now m s reg w (Wire.Message_Probe m)) as [-> _]. }
  destruct (_ =? Wire.TypePong).
  { by destruct (pong_move key path now m s reg w (Wire.Message_Probe m)) as [-> _]. }
  destruct (_ =? Wire.TypeClose) eqn:T; [lia|done].
Qed.

Lemma decoder_call_after s dec ops out s1 s' :
  decoder s' = decoder s1 -> decoder_call s dec ops out s1 -> decoder_call s dec ops out s'.
Proof. intros E [A1 A2 A3 A4]. split; [congruence|done..]. Qed.

Lemma executed_decoder ctx b plans s w attempts s' w' :
  execute ctx b plans s w = (attempts, s', w') -> decoder s' = decoder s.
Proof. intros X. apply execute_shrinks in X as [Sh _]. apply touch_decoder, Sh. Qed.

(** One packet. *)
Lemma recv_call ctx packet s reg w dec :
  state s = StateEstablished -> decoder s = Some dec ->
  (forall m, Wire.DecodeAuthenticated (Payload packet) (psk (conf s)) (localMaxUDPPayload (conf s)) = Ok m ->
    Wire.Header_SessionID (Wire.Message_Header m) = id s ->
    Wire.Header_Type (Wire.Message_Header m) <> Wire.TypeClose) ->
  let h := HandlePacket ctx packet s reg w in
  exists ops, decoder_call s dec ops (handedBy h) (hd_s h) /\
    (ops = [] \/ exists m,
      Wire.DecodeAuthenticated (Payload packet) (psk (conf s)) (localMaxUDPPayload (conf s)) = Ok m /\
      Wire.Header_SessionID (Wire.Message_Header m) = id s /\ isShard m /\
      ops = [FecDelivery.OpAdd (readAt w) (shardInput s m)] /\
      Fec.DataShards (params (conf s)) = Wire.DataShards (Wire.Message_DataShard m) /\
      Fec.ParityShards (params (conf s)) = Wire.ParityShards (Wire.Message_DataShard m)) /\
    (forall m, Wire.DecodeAuthenticated (Payload packet) (psk (conf s)) (localMaxUDPPayload (conf s)) = Ok m ->
      isShard m -> hd_err h = None -> ops <> []).
Proof.
  intros S D C. cbv zeta. unfold HandlePacket, readAt. cbv zeta.
  assert (Hr : forall r e (Q : list FecDelivery.Op -> Prop) (P : Wire.Message -> Prop),
    exists ops, decoder_call s dec ops (handedBy (refused r e s reg w)) (hd_s (refused r e s reg w)) /\
    (ops = [] \/ Q ops) /\ (forall m, P m -> isShard m -> hd_err (refused r e s reg w) = None -> ops <> [])).
  { intros r e Q P. exists []. split_and!; [by apply silent_call|by left|done]. }
  destruct (checkContext ctx w) as [c|]; [|apply Hr].
  destruct (Wire.DecodeAuthenticated _ _ _) as [m|] eqn:Dec; [|apply (Hr _ _ (fun _ => _) (fun _ => _))]. specialize (C m eq_refl).
  pose proof Dec as Dec'. apply Wire.DecodeAuthenticated_sealed in Dec' as (M & _).
  unfold handleAuthenticatedWithIdentity. cbv zeta. destruct (negb _) eqn:Sid; [apply Hr|]. bools.
  destruct (replyIdentityUnchecked (Reply packet)) as [key|] eqn:K; [|apply Hr].
  destruct (Reply packet) as [path|] eqn:R; [|apply Hr].
  destruct (negb (Available w path)); [apply Hr|]. clear Hr. destruct (Now w) as [now w1] eqn:Nw. cbn [snd].
  destruct (handleLocked_cases key path now packet m s reg w1) as [(X1 & _ & _ & X4 & [e X5])|(_ & _ & _ & X1 & _ & X3 & X4 & X5)].
  - rewrite X5. exists []. split_and!; [apply silent_call; cbn; congruence|by left|]. cbn. by intros.
  - destruct (dispatch_call key path now (len (Payload packet)) m s reg w1 dec S D M (C Sid)) as (ops & Y1 & Y2 & Y3).
    exists ops. set (b := handleLocked key path now packet m s reg w1) in *.
    set (d := dispatch key path now (len (Payload packet)) m s reg w1) in *.
    pose proof (handleLocked_message key path now packet m s reg w1) as Ms. fold b in Ms.
    assert (Hh : handed m b = handed m d) by (unfold handed; by rewrite X3, X4).
    assert (Q2 : ops = [] \/ exists m0, Ok (E := Wire.WireError) m = Ok m0 /\
      Wire.Header_SessionID (Wire.Message_Header m0) = id s /\ isShard m0 /\
      ops = [FecDelivery.OpAdd (fst (Now w1)) (shardInput s m0)] /\
      Fec.DataShards (params (conf s)) = Wire.DataShards (Wire.Message_DataShard m0) /\
      Fec.ParityShards (params (conf s)) = Wire.ParityShards (Wire.Message_DataShard m0))
      by (destruct Y2 as [?|(? & ? & ? & ?)]; [by left|right; exists m; done]).
    assert (Q3 : br_err b = None -> forall m0, Ok (E := Wire.WireError) m = Ok m0 -> isShard m0 -> ops <> [])
      by (intros E m0 [= <-] Sh; apply Y3; congruence).
    assert (Q1 : decoder_call s dec ops (handed m b) (br_s b)) by (by rewrite Hh, X1).
    destruct (br_err b) as [e|] eqn:Eb.
    { split_and!; [|done|by intros]. unfold handedBy. cbn. unfold handed in Q1. by rewrite Eb in Q1. }
    unfold handed in Q1. rewrite Eb in Q1.
    destruct (br_response b) as [plan|].
    + destruct (executePlans c [plan] (br_s b) (br_w b)) as [[at_ s'] w'] eqn:Ex. cbn [hd_s hd_err].
      split_and!; [|done|intros; eapply Q3; done]. apply executed_decoder in Ex.
      eapply decoder_call_after; [exact Ex|]. unfold handedBy. cbn. by rewrite Ms.
    + cbn [hd_s hd_err]. split_and!; [|done|intros; eapply Q3; done]. unfold handedBy. cbn. by rewrite Ms.
Qed.

(** ** Between two Sessions *)

(** Two ends of one Session: same identity, key and parameters, and the receiver takes
    what the writer's budget allows. *)
Record matched (a b : Session) : Prop := {
  ma_id : id b = id a;
  ma_psk : psk (conf b) = psk (conf a);
  ma_params : params (conf b) = params (conf a);
  ma_budget : sendMaxUDPPayload a <= receiveMaxUDPPayload b }.

Lemma shardMessage_wf s blk i : Inv s -> block_fits blk -> Z.of_nat i < 256 ->
  Wire.Message_wf (shardMessage (id s) blk i).
Proof.
  intros I [F1 F2 F3 F4 F5] Hi. destruct (in_id s I) as [L N].
  split; cbn; unfold in_u; try done; lia.
Qed.

Lemma sealed_shard_decodes a b payload blk packets i p :
  Inv a -> Inv b -> state a = StateEstablished -> state b = StateEstablished -> matched a b ->
  lawful (params (conf a)) -> writes a payload blk packets -> packets !! i = Some p ->
  (i < length (Fec.Shards blk))%nat /\
  Wire.DecodeAuthenticated p (psk (conf b)) (localMaxUDPPayload (conf b)) = Ok (shardMessage (id b) blk i).
Proof.
  intros Ia Ib Sa Sb [M1 M2 M3 M4] L W Hp.
  destruct (writes_spec a payload blk packets Ia Sa L W) as (Wn & Len & At).
  assert (Hi : (i < length (Fec.Shards blk))%nat) by (rewrite <- Len; by eapply lookup_lt_Some).
  split; [done|]. destruct (At i Hi) as (Hp' & l & El & Hl). assert (p = Wire.sealed (psk (conf a)) (shardMessage (id a) blk i)) as -> by congruence.
  rewrite M1, M2. apply Wire.EncodedLen_ok in El as (V & -> & B & _).
  assert (Hw : Wire.Message_wf (shardMessage (id a) blk i)).
  { pose proof (bf_shards _ (wn_fits _ _ _ Wn)). unfold len in *. apply shardMessage_wf; [done|apply Wn|lia]. }
  pose proof (in_phase b Ib) as P. unfold phase_ok in P. rewrite Sb in P. destruct P as ([_ _ _ [B1 B2] _] & _).
  pose proof (in_conf b Ib) as [C0 _ _ _ C4 _ _ _ _ _ _ _ _ _ _ _].
  apply Wire.decode_sealed; try done.
  - intros K. rewrite <- M2 in K. rewrite K, len_nil in C0. lia.
  - rewrite Wire.length_sealed by apply Hw. lia.
  - by apply Wire.validateBudget_ok.
Qed.

Lemma run_app d ops1 ops2 :
  FecDelivery.run d (ops1 ++ ops2) =
  (fst (FecDelivery.run d ops1) ++ fst (FecDelivery.run (snd (FecDelivery.run d ops1)) ops2),
   snd (FecDelivery.run (snd (FecDelivery.run d ops1)) ops2)).
Proof.
  revert d. induction ops1 as [|op ops1 IH]; intros d; cbn [FecDelivery.run app].
  { cbn. apply surjective_pairing. }
  destruct (FecDelivery.step d op) as [o d1]. rewrite IH. destruct (FecDelivery.run d1 ops1) as [tr d2]. done.
Qed.

Lemma NewDecoder_timeout config d :
  FecDecoder.NewDecoder config = Ok d -> FecDecoder.decodeTimeout d = FecDecoder.cfg_DecodeTimeout config.
Proof. intros N. unfold FecDecoder.NewDecoder in N. go_inv N. destruct x0. by subst. Qed.

Section run.
Variables (sid : SessionID) (cf : settings) (payload : bytes) (blk : Fec.EncodedBlock) (packets : list bytes) (dl : Z).
Hypothesis Hparams : Fec.BlockParams blk = params cf.
Hypothesis Hpackets : forall i p, packets !! i = Some p -> (i < length (Fec.Shards blk))%nat /\
  Wire.DecodeAuthenticated p (psk cf) (localMaxUDPPayload cf) = Ok (shardMessage sid blk i).

Abbreviation fit := (honest sid (psk cf) (localMaxUDPPayload cf) blk packets).

Lemma shardInput_of s i : id s = sid -> conf s = cf ->
  shardInput s (shardMessage sid blk i) = FecRecovery.shardOf sid blk i.
Proof. intros <- E. unfold shardInput, incoming, FecRecovery.shardOf. cbn. by rewrite E, Hparams. Qed.

Definition holds (s : Session) (dec : FecDecoder.Decoder) : Prop :=
  Inv s /\ state s = StateEstablished /\ id s = sid /\ conf s = cf /\ decoder s = Some dec.

Lemma Start_established ctx s w : state s = StateEstablished -> snd (fst (Start ctx s w)) = s.
Proof. intros S. unfold Start. destruct (checkContext ctx w); [|done]. destruct (Now w). by rewrite S. Qed.

Lemma WritePacket_decoder ctx data s w r : WritePacket ctx data s w = Some r -> decoder (snd (fst r)) = decoder s.
Proof.
  unfold WritePacket. cbv zeta. destruct (checkContext ctx w) as [c|e]; [|by intros [= <-]].
  destruct (Now w) as [now w1]. destruct (bool_decide (state s = StateClosed)); [by intros [= <-]|].
  destruct (bool_decide (state s = StateEstablished)); [|by intros [= <-]].
  destruct (encoder s) as [enc|]; [|by intros [= <-]].
  pose proof (touch_decoder _ _ (sh_touch _ _ (sweep_shrinks now s))) as T.
  destruct (Fec.Encode enc data) as [[block|e] enc']; [|by intros [= <-]].
  destruct (shardPackets _ _ _ _ _) as [ps|e]; [|by intros [= <-]].
  destruct (SendBlock _ _ _ _ _) as [[[send err] w2]|]; [|done]. intros [= <-]. cbn [fst snd].
  by rewrite (touch_decoder _ _ (sh_touch _ _ (recordFailures_shrinks _ _ _))).
Qed.

(** What one call contributes. *)
Lemma call_spec c s dec : holds s dec -> fit c -> before dl c ->
  exists ops, decoder_call s dec ops (fst (perform c s)) (snd (perform c s)) /\
    Forall (FecRecovery.allowed sid blk dl) ops /\
    (forall i, takes packets s c i -> exists t, callTime c = Some t /\
       ops = [FecDelivery.OpAdd t (FecRecovery.shardOf sid blk i)]).
Proof.
  intros (I & S & Hid & Hc & D) F B.
  destruct c as [ctx w|ctx data w|ctx packet reg w|ctx w|w|p b]; cbn [perform fst snd].
  - exists []. split; [|split; [constructor|done]]. apply silent_call. by rewrite Start_established.
  - exists []. split; [|split; [constructor|done]]. apply silent_call.
    destruct (WritePacket ctx data s w) eqn:W; [|done]. by rewrite (WritePacket_decoder _ _ _ _ _ W).
  - cbn [honest] in F. destruct (recv_call ctx packet s reg w dec S D) as (ops & X1 & X2 & X3).
    { rewrite Hc, Hid. intros m Dm Hm. by apply (F m). }
    rewrite Hc in X2, X3. exists ops. split; [done|]. split.
    + destruct X2 as [->|(m & Dm & Hm & Sh & -> & P1 & P2)]; [constructor|]. rewrite Hid in Hm.
      constructor; [|constructor]. split.
      { cbn. pose proof Dm as Dm'. apply Wire.DecodeAuthenticated_sealed in Dm' as (M & _). apply M. }
      split; [exact B|]. intros Hk. cbn in Hk. injection Hk as _ Hk.
      destruct (F m Dm Hm) as [_ G]. destruct (G Sh Hk) as [i Hi]. destruct (Hpackets _ _ Hi) as [Hlt Di].
      exists i. split; [done|]. assert (m = shardMessage sid blk i) as -> by congruence. by apply shardInput_of.
    + intros i [Hi He]. destruct (Hpackets _ _ Hi) as [Hlt Di]. exists (readAt w). split; [done|].
      assert (N : ops <> []) by (by eapply X3).
      destruct X2 as [->|(m & Dm & _ & _ & -> & _)]; [done|].
      assert (m = shardMessage sid blk i) as -> by congruence. by rewrite shardInput_of.
  - assert (G : exists ops, decoder_call s dec ops [] (snd (fst (Advance ctx s w))) /\
      Forall (FecRecovery.allowed sid blk dl) ops); [|destruct G as (ops & ? & ?); exists ops; done].
    unfold before, callTime, readAt in B.
    unfold Advance. destruct (checkContext ctx w) as [c|e]; [|exists []; split; [by apply silent_call|constructor]].
    destruct (Now w) as [now w1]. cbn [snd] in B. rewrite S.
    destruct (advanceLocked now s w1) as [[[[plans res] err] s1] w2] eqn:A.
    pose proof (advance_rest_decoder _ _ _ _ _ _ _ _ A) as E.
    pose proof (touch_decoder _ _ (sh_touch _ _ (sweep_shrinks now s))) as T.
    set (s0 := snd (sweepEndpointsLocked now s)) in *.
    assert (X : exists ops, decoder_call s dec ops [] s1 /\ Forall (FecRecovery.allowed sid blk dl) ops).
    { revert E. unfold sweepDecoder. rewrite T, D. destruct (due _ _).
      2: { cbn. intros E. exists []. split; [apply silent_call; cbn in *; congruence|constructor]. }
      destruct (Now w1) as [at_ w3]. destruct (FecDecoder.Sweep dec at_) as [st dec'] eqn:Sw. cbn. intros E.
      exists [FecDelivery.OpSweep at_]. split; [|repeat constructor; exact B].
      split; [cbn [FecDelivery.run FecDelivery.step]; by rewrite Sw|cbn; lia|repeat constructor|].
      cbn [FecDelivery.run FecDelivery.step]. rewrite Sw. cbn.
      by intros op o id d [= -> ->]%list_elem_of_singleton. }
    destruct X as (ops & X & Al). exists ops. split; [|done]. destruct err as [e|]; [exact X|].
    destruct (executePlans c plans s1 w2) as [[attempts s2] w3] eqn:Ex. cbn [fst snd].
    apply executed_decoder in Ex. by eapply decoder_call_after.
  - exists []. split; [|split; [constructor|done]]. apply silent_call. unfold SendPaths. destruct (Now w) as [now w1].
    cbn. rewrite (touch_decoder _ _ (sh_touch _ _ (sweep_shrinks now s))). done.
  - exists []. split; [|split; [constructor|done]]. apply silent_call. unfold SetPathHealthy.
    destruct (_ =? 0); [done|]. destruct (bool_decide _); [done|]. cbn. by rewrite update_carrier_decoder.
Qed.
Lemma perform_good c s : good s (snd (perform c s)).
Proof.
  destruct c as [ctx w|ctx data w|ctx packet reg w|ctx w|w|p b]; cbn [perform snd];
    [apply Start_good|destruct (WritePacket ctx data s w) eqn:W; [by eapply WritePacket_good|apply keeps_refl]
    |apply HandlePacket_good|apply Advance_good|apply SendPaths_good|apply SetPathHealthy_good].
Qed.

Lemma holds_next c s dec ops :
  holds s dec -> decoder_call s dec ops (fst (perform c s)) (snd (perform c s)) ->
  holds (snd (perform c s)) (snd (FecDelivery.run dec ops)).
Proof.
  intros (I & S & Hid & Hc & D) X. destruct (perform_good c s I) as [I' [E _ _ _ _]].
  pose proof (dl_decoder _ _ _ _ _ X) as D'. destruct (SessionProps.decoder_established _ _ I' D') as [S' _].
  injection E as E1 _ E3 _. split_and!; [done|done|congruence|congruence|done].
Qed.

Lemma delivers_out s dec ops out s' :
  decoder_call s dec ops out s' ->
  Exists (FecRecovery.delivers sid payload blk) (fst (FecDelivery.run dec ops)) ->
  (Fec.PacketID blk, payload) ∈ out.
Proof.
  intros X Ex. apply Exists_exists in Ex as ([op o] & Hin & Hd).
  destruct op as [now input| | |], o as [r| | |]; cbn in Hd; try done. destruct Hd as [Hk ->].
  eapply (dl_out _ _ _ _ _ X); [exact Hin|cbn; by rewrite Hk|]. intros now' input' [= <- <-]. done.
Qed.

(** The calls of the Session, as calls of its decoder. *)
Lemma performAll_spec cs : forall s dec, holds s dec -> Forall fit cs -> Forall (before dl) cs ->
  exists ops, Forall (FecRecovery.allowed sid blk dl) ops /\
    (Exists (FecRecovery.delivers sid payload blk) (fst (FecDelivery.run dec ops)) ->
     (Fec.PacketID blk, payload) ∈ fst (performAll cs s)) /\
    (forall i, accepted packets s cs i -> exists op, op ∈ ops /\ i ∈ FecRecovery.carried sid blk op).
Proof.
  induction cs as [|c cs IH]; intros s dec Hs F B.
  { exists []. split_and!; [constructor|by intros ?%Exists_nil|done]. }
  apply Forall_cons in F as [F1 F2]. apply Forall_cons in B as [B1 B2].
  destruct (call_spec c s dec Hs F1 B1) as (ops & X & A & Tk).
  pose proof (holds_next c s dec ops Hs X) as Hs'. destruct (IH _ _ Hs' F2 B2) as (ops' & A' & D' & Tk').
  exists (ops ++ ops'). split; [by apply Forall_app|]. cbn [performAll accepted].
  rewrite run_app. cbn [fst]. destruct (perform c s) as [out s1]. cbn [fst snd] in *.
  destruct (performAll cs s1) as [out' s2]. cbn [fst] in *. split.
  - intros Ex. apply elem_of_app. apply Exists_app in Ex as [Ex|Ex]; [left; by eapply delivers_out|auto].
  - intros i [T|T].
    + destruct (Tk i T) as (t & _ & ->). exists (FecDelivery.OpAdd t (FecRecovery.shardOf sid blk i)).
      split; [set_solver|]. cbn. rewrite decide_True by done. rewrite Nat2Z.id. set_solver.
    + destruct (Tk' i T) as (op & ? & ?). exists op. set_solver.
Qed.
End run.

(** The written packets themselves are honest. *)
Lemma written_honest a b payload blk packets ctx packet reg w i :
  Inv a -> Inv b -> state a = StateEstablished -> state b = StateEstablished -> matched a b ->
  lawful (params (conf a)) -> writes a payload blk packets -> packets !! i = Some (Payload packet) ->
  honest (id b) (psk (conf b)) (localMaxUDPPayload (conf b)) blk packets (Recv ctx packet reg w).
Proof.
  intros Ia Ib Sa Sb M L W P m D _.
  destruct (sealed_shard_decodes a b payload blk packets i _ Ia Ib Sa Sb M L W P) as [_ D'].
  assert (m = shardMessage (id b) blk i) as -> by congruence. split; [done|eauto].
Qed.

(** The receiver is ready for a new datagram. *)
Definition ready_for (s : Session) (blk : Fec.EncodedBlock) : Prop :=
  exists dec, decoder s = Some dec /\ FecRecovery.admits dec (id s) blk.

(** C2: From Session to Session.  Let an established Session write a datagram, with a
    lawful Reed-Solomon codec, for the other end: same identity, key and FEC parameters,
    and a budget that the receiver takes.  If the receiver is ready for the datagram, and
    in whatever sequence of its calls other than [Close], on whatever network, it accepts
    k distinct ones of the written packets, the first of them in the first call and every
    later call before the decode timeout that this one starts, then it hands exactly that
    datagram to its owner.  Other packets may come in between, forged, repeated or of any
    other datagram; of those that authenticate for this Session, none is a CLOSE and none
    is a data shard that carries the PacketID of the datagram without being one of the
    written packets. *)
Theorem session_transit a b payload blk packets c cs t idxs i0 :
  Inv a -> Inv b -> state a = StateEstablished -> state b = StateEstablished -> matched a b ->
  lawful (params (conf a)) -> writes a payload blk packets -> ready_for b blk ->
  takes packets b c i0 -> callTime c = Some t ->
  Forall (honest (id b) (psk (conf b)) (localMaxUDPPayload (conf b)) blk packets) (c :: cs) ->
  Forall (before (t + decodeTimeout (conf b))) cs ->
  NoDup idxs -> Fec.DataShards (params (conf a)) <= len idxs ->
  (forall i, i ∈ idxs -> accepted packets b (c :: cs) i) ->
  (Fec.PacketID blk, payload) ∈ fst (performAll (c :: cs) b).
Proof.
  intros Ia Ib Sa Sb M L W (dec & D & Ad) T0 Ct F B Nd Hk Hin.
  set (dl := t + decodeTimeout (conf b)) in *.
  destruct (writes_spec a payload blk packets Ia Sa L W) as (Wn & _ & _).
  assert (Hp : forall i p, packets !! i = Some p -> (i < length (Fec.Shards blk))%nat /\
    Wire.DecodeAuthenticated p (psk (conf b)) (localMaxUDPPayload (conf b)) = Ok (shardMessage (id b) blk i))
    by (intros i p; by apply (sealed_shard_decodes a b payload)).
  assert (Hpar : Fec.BlockParams blk = params (conf b)) by (rewrite (wn_params _ _ _ Wn); symmetry; apply M).
  assert (Hs : holds (id b) (conf b) b dec) by done.
  assert (Dt : 0 < decodeTimeout (conf b)).
  { pose proof (in_conf b Ib) as [_ _ _ _ _ _ _ _ _ _ Q _ _ _ _ _]. unfold Config.MinDecodeTimeout, Config.millisecond in Q. lia. }
  apply Forall_cons in F as [F1 F2].
  destruct (call_spec (id b) (conf b) blk packets dl Hpar Hp c b dec Hs F1) as (ops & X & _ & Tk).
  { unfold before. rewrite Ct. lia. }
  destruct (Tk i0 T0) as (t' & Ct' & ->). assert (t' = t) as -> by congruence.
  pose proof (holds_next (id b) (conf b) c b dec _ Hs X) as Hs'.
  destruct (performAll_spec (id b) (conf b) payload blk packets dl Hpar Hp cs _ _ Hs' F2 B) as (ops' & A' & D' & Tk').
  destruct (SessionProps.decoder_established b dec Ib D) as [_ (d0 & pre & N & Py & -> & Cl)].
  destruct W as (enc & enc' & E & En & _). destruct (established_encoder a Ia Sa L) as (enc1 & E1 & R & _).
  assert (enc1 = enc) as -> by congruence. destruct R as (nxt & exh & Un & Ne).
  assert (Cfg : FecDelivery.config_of (snd (FecDelivery.run d0 pre)) = FecDelivery.config_of d0) by apply FecDelivery.run_config.
  assert (Hdt : FecDecoder.decodeTimeout (snd (FecDelivery.run d0 pre)) = decodeTimeout (conf b)).
  { unfold FecDelivery.config_of in Cfg. injection Cfg as _ _ _ _ -> _ _ _. by rewrite (NewDecoder_timeout _ _ N). }
  assert (Cp : FecDecoder.cfg_Params (decoderConfig b) = params (conf a)) by (apply M).
  pose proof (FecRecovery.shards_collected (decoderConfig b) (FecDecoder.cfg_Budget (decoderConfig a)) nxt exh enc
    payload blk enc' d0 pre (id b) t i0 ops' idxs) as Q. cbv zeta in Q. rewrite Hdt, Cp in Q.
  assert (Hi0 : (i0 < length (Fec.Shards blk))%nat).
  { destruct c; try done. destruct T0 as [T0 _]. by apply (Hp _ _ T0). }
  specialize (Q L (SessionProps.decoderConfig_typed a Ia Sa) (SessionProps.decoderConfig_typed b Ib Sb) Un Ne En N Py
    Ad Hi0 A' Nd Hk).
  assert (Ex : Exists (FecRecovery.delivers (id b) payload blk)
    (fst (FecDelivery.run (snd (FecDelivery.run d0 pre))
      ([FecDelivery.OpAdd t (FecRecovery.shardOf (id b) blk i0)] ++ ops')))).
  { apply Q. intros i Hi. destruct (Hin i Hi) as [Ti|Ti]; [left|right; by apply Tk'].
    destruct (Tk i Ti) as (t1 & _ & Eq). injection Eq as _ Eq _. lia. }
  rewrite run_app in Ex. cbn [performAll]. destruct (perform c b) as [out s1]. cbn [fst snd] in *.
  destruct (performAll cs s1) as [out' s2]. cbn [fst] in *. apply elem_of_app.
  apply Exists_app in Ex as [Ex|Ex]; [left; by eapply delivers_out|auto].
Qed.
End Transit.
