(* ===== verification/SessionHandshake.v ===== *)
(** * The handshake of two Sessions

    A HELLO of an initiator creates a Session at a listener, whose HELLO_ACK
    establishes the initiator; both ends then agree ([SessionChannel.matched] in
    [SessionTransit]) on everything the data path needs. *)

From S2P Require Import Prelude Transport Session SessionListener SessionInv SessionWire SessionSteps SessionRun.
From S2P Require Import SessionMethods SessionChannel SessionTransit.
From S2P Require Wire Fec FecReplay FecDecoder FecDecoderProps.
Import Wire (SessionID).

Section Handshake.
Context {Env : Type} `{Sockets Env} `{Fec.ReedSolomon}.
Implicit Types (w : Env) (s : Session).

(** ** Establishing succeeds *)

(** Settings of the two ends that are meant to talk. *)
Record compatible (c1 c2 : settings) : Prop := {
  cp_psk : psk c2 = psk c1;
  cp_params : params c2 = params c1;
  cp_codec : is_Some (Fec.reedsolomon_New (Fec.DataShards (params c1)) (Fec.ParityShards (params c1))) }.

Definition offered (c : settings) (h : Wire.Handshake) : Prop :=
  Wire.Handshake_DataShards h = Fec.DataShards (params c) /\
  Wire.Handshake_ParityShards h = Fec.ParityShards (params c) /\
  Wire.MinUDPPayload <= Wire.Handshake_MaxUDPPayload h <= Wire.MaxUDPPayload.

Lemma limits_total c h : settings_ok c -> offered c h ->
  Fec.DeriveLimits (params c) (negotiatedBudget c h) = Ok (Fec.limits_of (params c) (negotiatedBudget c h)).
Proof.
  intros C (_ & _ & O). pose proof (negotiated_typed c h C O) as T.
  destruct C as [_ C1 C2 C3 C4 C5 _ _ _ _ _ _ _ _ _ _].
  unfold Wire.MinUDPPayload, Wire.MaxUDPPayload, Config.MinMaxDatagramSize, Config.MaxMaxDatagramSize in *.
  apply (Fec.DeriveLimits_iff _ _ _ T). split; [|split; [|done]].
  - split; unfold Fec.MaxTotalShards; lia.
  - unfold negotiatedBudget. change Wire.DataShardOverhead with 71.
    split; cbn; unfold Fec.maxWireOriginalLength, maxInt; try lia. nia.
Qed.

Lemma codec_total c : settings_ok c ->
  is_Some (Fec.reedsolomon_New (Fec.DataShards (params c)) (Fec.ParityShards (params c))) ->
  exists cdc, Fec.newCodec (params c) = Ok cdc.
Proof.
  intros [_ C1 C2 C3 _ _ _ _ _ _ _ _ _ _ _ _] [r R]. unfold Fec.newCodec.
  assert (V : Fec.validateParams (params c) = Ok (Fec.DataShards (params c) + Fec.ParityShards (params c))).
  { apply Fec.validateParams_iff. split; [|done]. split; unfold Fec.MaxTotalShards; lia. }
  rewrite V. cbn. rewrite R. eauto.
Qed.

Lemma establish_total h now s : Inv s -> state s = StateHandshaking -> offered (conf s) h ->
  is_Some (Fec.reedsolomon_New (Fec.DataShards (params (conf s))) (Fec.ParityShards (params (conf s)))) ->
  exists s', establishLocked h now s = (None, s').
Proof.
  intros I S O R. pose proof O as (O1 & O2 & O3). pose proof (in_conf s I) as C. unfold establishLocked.
  assert (V : validateHandshake h s = None).
  { unfold validateHandshake. rewrite O1, O2, !Z.eqb_refl. cbn [negb orb]. by replace (_ || _) with false by lia. }
  rewrite V. cbv zeta. unfold Fec.NewEncoder, Fec.newEncoderAt. rewrite (limits_total _ _ C O).
  destruct (codec_total _ C R) as [[cdc tot] Q]. rewrite Q. cbn [result_bind].
  unfold FecDecoder.NewDecoder. cbn [FecDecoder.cfg_Params FecDecoder.cfg_Budget].
  rewrite (limits_total _ _ C O), Q. cbn [result_bind FecDecoder.cfg_DecodeTimeout FecDecoder.cfg_ReplayWindow
    FecDecoder.cfg_MaxPendingBlocks].
  destruct C as [_ _ _ _ _ _ _ _ C8 _ C10 _ _ _ _ _]. unfold Config.MinDecodeTimeout, Config.millisecond in *.
  rewrite bool_decide_eq_false_2 by done.
  replace (decodeTimeout (conf s) <=? 0) with false by lia.
  replace (maxPendingFECBlocks (conf s) <=? 0) with false by lia. cbn. eauto.
Qed.

Lemma learn_first w key path now s reg : Inv s -> endpoints s = ∅ ->
  learn_err (learnEndpointLocked w key path now s reg) = None.
Proof.
  intros I E. pose proof (learn_spec w key path now s reg) as L. cbv zeta in L.
  destruct (canLearnEndpointLocked w key path now s) as [err s1] eqn:X.
  destruct err as [e|]; [exfalso|by apply L].
  pose proof (sweep_shrinks now s) as [T _ Z2 _]. revert X. unfold canLearnEndpointLocked. cbv zeta.
  set (s2 := snd (sweepEndpointsLocked now s)) in *.
  assert (E2 : endpoints s2 = ∅).
  { apply map_size_empty_inv. rewrite E, map_size_empty in Z2. lia. }
  rewrite E2, lookup_empty.
  pose proof (so_endpoints _ (in_conf s I)) as M. pose proof (touch_conf _ _ T) as C.
  destruct (role s2); cbn [endpoints conf set_endpoints]; rewrite ?map_filter_empty, ?E2, map_size_empty, C;
    rewrite (proj2 (Z.leb_gt _ _)) by (change (Z.of_nat 0) with 0; lia); done.
Qed.

(** ** The listener *)

Lemma newListenerSession_spec sid c h key path reg w :
  length sid = 16%nat -> sid <> Wire.zeroSessionID -> settings_ok c -> offered c h ->
  is_Some (Fec.reedsolomon_New (Fec.DataShards (params c)) (Fec.ParityShards (params c))) ->
  replyIdentityUnchecked (Some path) = Ok key ->
  exists s reg' w', newListenerSession sid c h key path reg w = (Ok s, reg', w') /\
    Inv s /\ state s = StateEstablished /\ role s = RoleListener /\ id s = sid /\ conf s = c /\
    sendMaxUDPPayload s = Z.min (localMaxUDPPayload c) (Wire.Handshake_MaxUDPPayload h).
Proof.
  intros L N C O R K. unfold newListenerSession. destruct (Now w) as [now w1].
  set (s0 := newSession sid RoleListener c true [] ∅).
  assert (I0 : Inv s0).
  { subst s0. apply newSession_inv; try done; try by left.
    intros p i. rewrite lookup_empty. split; [done|]. by intros (x & ? & _). }
  destruct (establish_total h now s0 I0 eq_refl O R) as [s1 E]. rewrite E.
  destruct (establish_spec _ _ _ _ _ I0 eq_refl E) as (I1 & _ & S1 & _ & Id & Cf & Rl & _ & Bd).
  assert (E1 : endpoints s1 = ∅).
  { revert E. unfold establishLocked. destruct (validateHandshake h s0); [done|].
    destruct (Fec.NewEncoder _ _); [|done]. destruct (FecDecoder.NewDecoder _); [|done]. by intros [= <-]. }
  cbv zeta. rewrite (learn_first w1 key path now s1 reg I1 E1).
  destruct (learn_inv w1 key path now s1 reg I1 S1 K) as [I2 T2]; [rewrite Rl; done|].
  eexists _, _, _. split; [reflexivity|]. split; [exact I2|]. destruct T2 as [T2 _]. unfold core in T2.
  change (conf s0) with c in *. change (id s0) with sid in Id. change (role s0) with RoleListener in Rl.
  split_and!; congruence.
Qed.

Lemma validateSettings_total c h : settings_ok c -> offered c h -> validateHandshakeSettings c h = None.
Proof.
  intros C O. pose proof O as (O1 & O2 & O3). unfold validateHandshakeSettings. rewrite O1, O2, !Z.eqb_refl.
  cbn [negb orb]. replace (_ || _) with false by lia. by rewrite (limits_total _ _ C O).
Qed.

Definition HELLO s : bytes := Wire.sealed (psk (conf s)) (handshakeMessage Wire.TypeHello s).
Definition HELLO_ACK s : bytes := Wire.sealed (psk (conf s)) (handshakeMessage Wire.TypeHelloAck s).

Lemma handshake_offered t s c : settings_ok (conf s) -> compatible (conf s) c ->
  offered c (Wire.Message_Handshake (handshakeMessage t s)).
Proof. intros C [_ P _]. split_and!; cbn; rewrite ?P; try done; apply C. Qed.

Lemma handshake_decodes t s c : t = Wire.TypeHello \/ t = Wire.TypeHelloAck -> Inv s -> settings_ok c ->
  psk c = psk (conf s) ->
  Wire.DecodeAuthenticated (Wire.sealed (psk (conf s)) (handshakeMessage t s)) (psk c) (localMaxUDPPayload c)
    = Ok (handshakeMessage t s).
Proof.
  intros Ht I C ->. pose proof (so_psk _ (in_conf s I)) as P. pose proof (so_local _ C) as L.
  apply (sendable_decode _ 60); [apply handshake_sendable; [done|by apply Inv_named]| |done|
    unfold Wire.MinUDPPayload in L; lia].
  intros K. rewrite K, len_nil in P. lia.
Qed.

(** A listener that has room. *)
Record open_for (l : Listener) (sid : SessionID) : Prop := {
  of_settings : settings_ok (l_settings l);
  of_open : l_closed l = false;
  of_unknown : sessions l !! sid = None;
  of_room : Z.of_nat (size (sessions l)) < maxSessions l }.

(** The Session [b] that the registry holds at [ref], created for [a]. *)
Record registered (l : Listener) (ref : nat) (a b : Session) : Prop := {
  rg_ref : sessions l !! id a = Some ref;
  rg_object : objects l !! ref = Some b;
  rg_inv : Inv b;
  rg_state : state b = StateEstablished;
  rg_role : role b = RoleListener;
  rg_id : id b = id a;
  rg_budget : sendMaxUDPPayload b = Z.min (localMaxUDPPayload (conf b)) (localMaxUDPPayload (conf a)) }.

Lemma listener_accepts ctx packet path key l w a :
  Inv a -> open_for l (id a) -> compatible (conf a) (l_settings l) -> ctxErr w ctx = None ->
  Payload packet = HELLO a -> Reply packet = Some path -> replyIdentity w (Some path) = Ok key ->
  let h := ListenerHandlePacket (Some ctx) packet l w in
  exists ref b, lh_err h = None /\ lh_session h = Some ref /\ Created (lh_result h) = true /\
    registered (lh_l h) ref a b /\ conf b = l_settings l /\
    exists w1 ops path', lh_w h = snd (Send w1 ops path' (HELLO_ACK b)).
Proof.
  intros I [C O U R] Cp Cx Pk Rp Ri. cbv zeta. unfold ListenerHandlePacket, checkContext. rewrite Cx, Pk.
  pose proof (handshake_decodes _ _ _ (or_introl eq_refl) I C (cp_psk _ _ Cp)) as Dec. fold (HELLO a) in Dec.
  rewrite Dec. cbv zeta.
  rewrite Rp, Ri, O. cbn [Wire.Message_Header handshakeMessage Wire.Header_SessionID Wire.Header_Type].
  rewrite U. change (negb (Wire.TypeHello =? Wire.TypeHello)) with false. cbn iota.
  pose proof (handshake_offered Wire.TypeHello a _ (in_conf a I) Cp) as Of. unfold create. cbv zeta.
  rewrite (validateSettings_total _ _ C Of). replace (maxSessions l <=? _) with false by lia.
  assert (Cd : is_Some (Fec.reedsolomon_New (Fec.DataShards (params (l_settings l)))
    (Fec.ParityShards (params (l_settings l))))) by (rewrite (cp_params _ _ Cp); apply Cp).
  assert (Ru : replyIdentityUnchecked (Some path) = Ok key).
  { revert Ri. unfold replyIdentity. destruct (replyIdentityUnchecked (Some path)); [|done]. cbn [result_bind].
    by destruct (negb _). }
  destruct (in_id a I) as [Li Ni]. cbn [Wire.Message_Header handshakeMessage Wire.Header_SessionID].
  destruct (newListenerSession_spec (id a) (l_settings l) _ key path (l_reg l) w Li Ni C Of Cd Ru)
    as (b & reg1 & w1 & E & Ib & Sb & Rb & Idb & Cb & Bb).
  rewrite E. cbv zeta. unfold allocate, answerHello.
  rewrite (helloAck_total b (Inv_named b Ib)), Sb. rewrite bool_decide_eq_false_2 by done.
  unfold executePlans. cbn [execute]. unfold sendOne. cbn [reply message budget plan_path].
  pose proof (so_local _ (in_conf a I)) as La. pose proof (so_local _ C) as Lb.
  pose proof (so_psk _ (in_conf b Ib)) as Pb. cbn [Wire.Message_Handshake handshakeMessage Wire.Handshake_MaxUDPPayload] in Bb.
  unfold Wire.MinUDPPayload, Wire.MaxUDPPayload in La, Lb.
  rewrite (sendable_append _ 60).
  2: { apply handshake_sendable; [by right|by apply Inv_named]. }
  2: { intros K. rewrite K, len_nil in Pb. lia. }
  2: { unfold Wire.MinUDPPayload, Wire.MaxUDPPayload. lia. }
  2: lia.
  fold (HELLO_ACK b).
  destruct (Send w1 _ _ (HELLO_ACK b)) as [err w2] eqn:Sd.
  set (b' := afterSend _ (SendErr <$> err) true b).
  pose proof (afterSend_shrinks (reply (handshakeMessage Wire.TypeHelloAck b) (learnedPath key path b)
    (sendMaxUDPPayload b)) (SendErr <$> err) true b) as Sh. fold b' in Sh.
  destruct (shrinks_good _ _ Sh Ib) as [Ib' _]. destruct Sh as [[T _] _ _ _]. unfold core in T.
  assert (HELLO_ACK b' = HELLO_ACK b) as Ha.
  { unfold HELLO_ACK, handshakeMessage. by replace (id b') with (id b) by congruence; replace (conf b') with (conf b) by congruence. }
  exists (nextObject l), b'.
  cbn [lh_err lh_session lh_l lh_w lh_result Created res_response res_created].
  split_and!; try done.
  - split; cbn [sessions objects put].
    + rewrite Idb. apply lookup_insert_eq.
    + apply lookup_insert_eq.
    + done.
    + congruence.
    + congruence.
    + congruence.
    + replace (sendMaxUDPPayload b') with (sendMaxUDPPayload b) by congruence.
      replace (conf b') with (conf b) by congruence. by rewrite Cb.
  - congruence.
  - eexists _, _, _. rewrite Ha. symmetry. exact (f_equal snd Sd).
Qed.

(** ** The initiator *)

Lemma initiator_established ctx packet path key a b reg w :
  Inv a -> state a = StateHandshaking -> role a = RoleInitiator ->
  Inv b -> id b = id a -> compatible (conf b) (conf a) -> ctxErr w ctx = None ->
  Payload packet = HELLO_ACK b -> Reply packet = Some path ->
  replyIdentityUnchecked (Some path) = Ok key -> Available w path = true -> knownCarrier a (PathID path) ->
  let h := HandlePacket (Some ctx) packet a reg w in
  hd_err h = None /\ Established (hd_result h) = true /\ Inv (hd_s h) /\
  state (hd_s h) = StateEstablished /\ id (hd_s h) = id a /\ conf (hd_s h) = conf a /\
  sendMaxUDPPayload (hd_s h) = Z.min (localMaxUDPPayload (conf a)) (localMaxUDPPayload (conf b)).
Proof.
  intros I S R Ib Idb Cp Cx Pk Rp Ru Av Kn. cbv zeta. unfold HandlePacket, checkContext. rewrite Cx, Pk.
  pose proof (handshake_decodes _ b (conf a) (or_intror eq_refl) Ib (in_conf a I) (cp_psk _ _ Cp)) as Dec.
  fold (HELLO_ACK b) in Dec. rewrite Dec. cbv zeta. clear Dec.
  unfold handleAuthenticatedWithIdentity. cbv zeta.
  cbn [Wire.Message_Header handshakeMessage Wire.Header_SessionID]. rewrite bool_decide_eq_true_2 by done.
  cbn [negb]. rewrite Rp, Ru, Av. cbn [negb]. destruct (Now w) as [now w1].
  unfold handleLocked. rewrite S, R. rewrite bool_decide_eq_true_2 by done.
  destruct Kn as [i Kn]. rewrite Kn. rewrite (bool_decide_eq_false_2 (Some i = None)) by done.
  rewrite (bool_decide_eq_false_2 (StateHandshaking = StateEstablished)) by done. cbn [andb]. cbv zeta.
  unfold dispatch. cbv zeta. cbn [Wire.Message_Header handshakeMessage Wire.Header_Type].
  change (Wire.TypeHelloAck =? Wire.TypeHello) with false. change (Wire.TypeHelloAck =? Wire.TypeHelloAck) with true.
  cbn iota. unfold handleHelloAck. rewrite S, R. rewrite !bool_decide_eq_true_2 by done. cbn [negb orb andb].
  pose proof (handshake_offered Wire.TypeHelloAck b _ (in_conf b Ib) Cp) as Of.
  assert (Cd : is_Some (Fec.reedsolomon_New (Fec.DataShards (params (conf a)))
    (Fec.ParityShards (params (conf a))))) by (rewrite (cp_params _ _ Cp); apply Cp).
  destruct (establish_total _ now a I S Of Cd) as [s1 E]. fold (handshakeMessage Wire.TypeHelloAck b).
  rewrite E. cbv zeta.
  destruct (establish_spec _ _ _ _ _ I S E) as (I1 & _ & S1 & _ & Id1 & C1 & R1 & _ & B1).
  assert (E1 : endpoints s1 = ∅).
  { pose proof (in_phase a I) as P. unfold phase_ok in P. rewrite S in P. destruct P as ([U _ _ _] & _).
    revert E. unfold establishLocked. destruct (validateHandshake _ a); [done|].
    destruct (Fec.NewEncoder _ _); [|done]. destruct (FecDecoder.NewDecoder _); [|done]. by intros [= <-]. }
  rewrite (learn_first w1 key path now s1 reg I1 E1). cbn [br_err br br_done br_response hd_err hd_result hd_s br_s br_result].
  destruct (learn_inv w1 key path now s1 reg I1 S1 Ru) as [I2 [T2 _]].
  { intros _. unfold knownCarrier. revert E. unfold establishLocked. destruct (validateHandshake _ a); [done|].
    destruct (Fec.NewEncoder _ _); [|done]. destruct (FecDecoder.NewDecoder _); [|done]. intros [= <-]. cbn. eauto. }
  unfold core in T2. set (l := learned_s _) in *.
  assert (S2 : state l = StateEstablished) by congruence.
  destruct (acknowledge_good l (PathID path) S2 I2) as [I3 [E3 _ _ _ F3]].
  set (u := update_carrier _ car_acknowledge l) in *.
  injection E3 as E3 _ E4 _. specialize (F3 ltac:(congruence)). injection F3 as _ F3 _.
  assert (S3 : state u = StateEstablished) by (subst u; unfold update_carrier; by destruct (carrierByID l !! _)).
  cbn [Established res_learned res_established]. split_and!; try done; try congruence.
  rewrite F3. replace (sendMaxUDPPayload l) with (sendMaxUDPPayload s1) by congruence. exact B1.
Qed.

(** C3: The handshake completes and the ends agree.  A HELLO of a handshaking initiator
    that reaches an open listener with room, compatible settings and no Session of that
    identity creates an established Session there, whose HELLO_ACK goes out; and when that packet reaches the
    initiator over one of its carriers, the initiator is established.  The two Sessions
    then have the same identity, key and FEC parameters and the same budget, the smaller
    of the two local limits: each accepts what the other may send. *)
Theorem handshake_agrees ctx packet path key l w a :
  Inv a -> open_for l (id a) -> compatible (conf a) (l_settings l) -> ctxErr w ctx = None ->
  Payload packet = HELLO a -> Reply packet = Some path -> replyIdentity w (Some path) = Ok key ->
  let h := ListenerHandlePacket (Some ctx) packet l w in
  exists ref b, lh_err h = None /\ lh_session h = Some ref /\ registered (lh_l h) ref a b /\
    (exists w1 ops path', lh_w h = snd (Send w1 ops path' (HELLO_ACK b))) /\
    forall ctx2 packet2 path2 key2 a2 reg2 w2,
      Inv a2 -> state a2 = StateHandshaking -> role a2 = RoleInitiator -> id a2 = id a -> conf a2 = conf a ->
      ctxErr w2 ctx2 = None -> Payload packet2 = HELLO_ACK b -> Reply packet2 = Some path2 ->
      replyIdentityUnchecked (Some path2) = Ok key2 -> Available w2 path2 = true ->
      knownCarrier a2 (PathID path2) ->
      let h2 := HandlePacket (Some ctx2) packet2 a2 reg2 w2 in
      hd_err h2 = None /\ Established (hd_result h2) = true /\ Inv (hd_s h2) /\
      state (hd_s h2) = StateEstablished /\ matched (hd_s h2) b /\ matched b (hd_s h2).
Proof.
  intros I O Cp Cx Pk Rp Ri. cbv zeta.
  destruct (listener_accepts ctx packet path key l w a I O Cp Cx Pk Rp Ri) as (ref & b & E1 & E2 & _ & Rg & Cb & Sn).
  exists ref, b. split_and!; try done. intros ctx2 packet2 path2 key2 a2 reg2 w2 I2 S2 R2 Id2 C2 Cx2 Pk2 Rp2 Ru2 Av2 Kn2.
  destruct Rg as [_ _ Ib Sb _ Idb Bb].
  assert (Cp2 : compatible (conf b) (conf a2)).
  { destruct Cp as [P1 P2 P3]. rewrite Cb, C2. split; [done|done|by rewrite P2]. }
  destruct (initiator_established ctx2 packet2 path2 key2 a2 b reg2 w2 I2 S2 R2 Ib ltac:(congruence) Cp2 Cx2 Pk2 Rp2 Ru2
    Av2 Kn2) as (H1 & H2 & H3 & H4 & H5 & H6 & H7).
  pose proof (in_phase _ Ib) as Pb. pose proof (in_phase _ H3) as P3. unfold phase_ok in Pb, P3. rewrite Sb in Pb.
  rewrite H4 in P3. destruct Pb as ([_ _ _ [_ Rb] _] & _). destruct P3 as ([_ _ _ [_ R3] _] & _).
  destruct Cp as [P1 P2 _]. rewrite C2 in H6, H7.
  split_and!; try done; split; rewrite ?H5, ?H6, ?Cb; try congruence; lia.
Qed.
End Handshake.
