(* ===== verification/SessionDemo.v ===== *)
(** * A session on a small network

    A concrete clock and log of packets, the codec of two data shards and one parity
    shard, and an initiator with one carrier that talks to a listener.  The witnesses
    of the claims on sessions are stated on it. *)

From S2P Require Import Prelude Sha256 Transport Session SessionListener SessionInv SessionSteps SessionRun.
From S2P Require Import SessionMethods SessionReach SessionBirth SessionProps SessionDeliver.
From S2P Require Import SessionChannel SessionTransit SessionHandshake.
From S2P Require Wire Fec FecDecoder FecReplay FecRecovery.
Import Fec (sampleParams).
#[local] Existing Instance Fec.xorReedSolomon.
Import Wire (sampleSession).

(** ** The network *)

Record Net := { clock : Z; log : list (bytes * bytes) }.

#[global] Instance demoSockets : Sockets Net := {
  Now w := (clock w, w);
  ctxErr _ _ := None;
  Available _ _ := true;
  Send w _ path packet := (None, {| clock := clock w; log := log w ++ [(PathID path, packet)] |}) }.

Definition at_ (t : Z) : Net := {| clock := t; log := [] |}.

Definition demoAddr (b : byte) : Addr := {| Network := [Byte.x75]; String := [b] |}.

Definition carrierPath : Path := {|
  PathID := [Byte.x61]; Generation := 1; LocalAddr := Some (demoAddr Byte.x31);
  RemoteAddr := Some (demoAddr Byte.x32); kind := CarrierPath; path_statistics := None |}.

Definition replyPath : Path := {|
  PathID := [Byte.x6c]; Generation := 1; LocalAddr := Some (demoAddr Byte.x32);
  RemoteAddr := Some (demoAddr Byte.x31); kind := ListenerReplyPath; path_statistics := None |}.

Definition demoConfig : Config := {|
  PSK := [Byte.x6b]; FEC := sampleParams; LocalMaxUDPPayload := 1200; MaxDatagramSize := 1000;
  MaxEndpoints := 4; MaxHandshakeAttempts := 3; MaxPendingFECBlocks := 8;
  MaxCompletedFECBlocks := 8; DecodeTimeout := 1000000000; CompletionTTL := 1000000000;
  EndpointTTL := 60000000000; KeepaliveInterval := 2000000000;
  HandshakeRetryInterval := 1000000000; HandshakeRetryJitterLimit := 0; FECStatistics := false |}.

Definition demoInitiator : Session :=
  match NewInitiator sampleSession demoConfig [Some carrierPath] with
  | Ok s => s
  | Err _ => newSession sampleSession RoleInitiator
               {| psk := []; params := sampleParams; localMaxUDPPayload := 0; maxDatagramSize := 0;
                  maxEndpoints := 0; maxHandshakeAttempts := 0; maxPendingFECBlocks := 0;
                  maxCompletedFECBlocks := 0; decodeTimeout := 0; completionTTL := 0; endpointTTL := 0;
                  keepaliveInterval := 0; handshakeRetryInterval := 0; handshakeJitterLimit := 0;
                  fecStatistics := false |} false [] ∅
  end.

(** The packets a run put on the network. *)
Definition packets (w : Net) : list bytes := (log w).*2.

(** ** A handshake and a datagram from the listener *)

Definition startedRun := Start (Some Background) demoInitiator (at_ 0).
Definition startedInitiator : Session := snd (fst startedRun).

Definition demoListener : Listener := {|
  l_settings := conf demoInitiator; maxSessions := 2; sessions := ∅; l_closed := false;
  l_closeDone := false; l_closeErr := []; objects := ∅; nextObject := 0;
  l_reg := Some (NewListenerPathCounters true) |}.

Definition received_by (path : Path) (packet : bytes) : ReceivedPacket :=
  {| Payload := packet; Reply := Some path |}.

Definition nth_packet (i : nat) (w : Net) : bytes := default [] (packets w !! i).

(** The packets are literals: what the runs put on the network. *)
Definition helloPacket : bytes := Eval vm_compute in nth_packet 0 (snd startedRun).

Definition helloRun :=
  ListenerHandlePacket (Some Background) (received_by replyPath helloPacket) demoListener (at_ 10).

Definition createdSession : Session := default demoInitiator (objects (lh_l helloRun) !! 0%nat).
Definition ackPacket : bytes := Eval vm_compute in nth_packet 0 (lh_w helloRun).

Definition ackRun :=
  HandlePacket (Some Background) (received_by carrierPath ackPacket) startedInitiator None (at_ 20).
Definition establishedInitiator : Session := hd_s ackRun.

Definition demoPayload : bytes := [Byte.x68; Byte.x69; Byte.x21].
Definition writtenRun := WritePacket (Some Background) demoPayload createdSession (at_ 30).
Definition sentBy {A} (i : nat) (run : option (A * Net)) : bytes :=
  match run with Some r => nth_packet i (snd r) | None => [] end.
Definition shard1 : bytes := Eval vm_compute in sentBy 1 writtenRun.
Definition shard2 : bytes := Eval vm_compute in sentBy 2 writtenRun.

Definition firstRun :=
  HandlePacket (Some Background) (received_by carrierPath shard2) establishedInitiator None (at_ 40).
Definition secondRun :=
  HandlePacket (Some Background) (received_by carrierPath shard1) (hd_s firstRun) None (at_ 50).
Definition receiver : Session := hd_s secondRun.

(** ** Witnesses *)

Lemma demo_built : NewInitiator sampleSession demoConfig [Some carrierPath] = Ok demoInitiator.
Proof. vm_compute. reflexivity. Qed.

Lemma demoInitiator_inv : Inv demoInitiator.
Proof. exact (proj1 (NewInitiator_inv sampleSession demoConfig [Some carrierPath] demoInitiator eq_refl demo_built)). Qed.

(** A packet that delivers [out] is a run. *)
Lemma packet_run packet s w out :
  handedBy (HandlePacket (Some Background) packet s None w) = out ->
  forall rest z, steps (hd_s (HandlePacket (Some Background) packet s None w), []) rest z ->
  steps (s, []) (out ++ rest) z.
Proof. intros <- rest z. apply steps_trans, HandlePacket_steps. Qed.

(** The run of the initiator and what it delivered. *)
Lemma demo_reach : reach demoInitiator [(0, demoPayload)] receiver.
Proof.
  assert (E1 : handedBy ackRun = []) by (vm_compute; reflexivity).
  assert (E2 : handedBy firstRun = []) by (vm_compute; reflexivity).
  assert (E3 : handedBy secondRun = [(0, demoPayload)]) by (vm_compute; reflexivity).
  exists []. eapply (steps_trans _ (startedInitiator, []) _ [] _).
  { exact (Start_steps (Some Background) demoInitiator (at_ 0) demoInitiator_inv). }
  refine (packet_run _ _ _ [] E1 _ _ _). refine (packet_run _ _ _ [] E2 _ _ _).
  refine (packet_run _ _ _ _ E3 [] _ _). constructor.
Qed.

Lemma session_forward_witness : evolves demoInitiator receiver.
Proof. exact (session_forward demoInitiator _ receiver demoInitiator_inv demo_reach). Defined.

Lemma demo_life : life demoInitiator [(0, demoPayload)] receiver.
Proof.
  destruct demo_reach as [fl X]. exists [], fl. split; [|exact X].
  exact (born_initiator sampleSession demoConfig [Some carrierPath] demoInitiator eq_refl demo_built).
Qed.

Lemma session_retained_witness : Inv receiver /\ retained receiver.
Proof. exact (session_retained demoInitiator _ receiver demo_life). Defined.

(** ** The Session of the listener, from its creation *)

Definition helloMessage : Wire.Message := Eval vm_compute in
  match Wire.DecodeAuthenticated helloPacket (psk (conf demoInitiator)) 1200 with
  | Ok m => m | Err _ => Wire.mkMessage 0 sampleSession end.
Definition demoKey : bytes := Eval vm_compute in
  match replyIdentityUnchecked (Some replyPath) with Ok k => k | Err _ => [] end.

Definition birth := newListenerSession sampleSession (conf demoInitiator) (Wire.Message_Handshake helloMessage)
  demoKey replyPath None (at_ 10).
Definition newborn : Session := match fst (fst birth) with Ok s => s | Err _ => demoInitiator end.
Definition newbornAck : Wire.Message :=
  match helloAck newborn with Ok m => m | Err _ => helloMessage end.
Definition ackPlan : sendPlan := reply newbornAck (learnedPath demoKey replyPath newborn) (sendMaxUDPPayload newborn).
Definition answered : Session := afterSend ackPlan None true newborn.

(** The other end writes. *)
Definition writtenBack := WritePacket (Some Background) demoPayload establishedInitiator (at_ 30).
Definition back1 : bytes := Eval vm_compute in sentBy 1 writtenBack.
Definition back2 : bytes := Eval vm_compute in sentBy 2 writtenBack.
Definition onceRun := HandlePacket (Some Background) (received_by replyPath back2) answered None (at_ 40).
Definition twiceRun := HandlePacket (Some Background) (received_by replyPath back1) (hd_s onceRun) None (at_ 50).
Definition againRun := HandlePacket (Some Background) (received_by replyPath back2) (hd_s twiceRun) None (at_ 60).

Lemma birth_facts :
  (is_ok (fst (fst birth)), is_ok (helloAck newborn), handedBy onceRun, handedBy twiceRun, handedBy againRun)
  = (true, true, [], [(0, demoPayload)], []).
Proof. vm_compute. reflexivity. Qed.

Lemma demo_born : born newborn (bound [ackPlan]).
Proof.
  pose proof birth_facts as E. do 3 apply pair_equal_spec in E as [E _]. apply pair_equal_spec in E as [E1 E2].
  assert (B : exists reg' w', birth = (Ok newborn, reg', w')).
  { unfold newborn in *. destruct birth as [[[s|e] r] w]; [by exists r, w|discriminate E1]. }
  destruct B as (reg' & w' & B). unfold ackPlan, newbornAck in *.
  destruct (helloAck newborn) as [ack|] eqn:Ha; [|discriminate E2].
  refine (born_listener demoConfig (conf demoInitiator) helloPacket helloMessage demoKey replyPath None (at_ 10)
    newborn reg' w' ack _ _ _ B Ha); vm_compute; reflexivity.
Qed.

Lemma demo_listener_life : life newborn [(0, demoPayload)] (hd_s againRun).
Proof.
  exists (bound [ackPlan]), []. split; [exact demo_born|].
  pose proof birth_facts as E. apply pair_equal_spec in E as [E E3]. apply pair_equal_spec in E as [E E2].
  apply pair_equal_spec in E as [E E1]. clear E.
  apply (steps_l _ (answered, []) _ [] [(0, demoPayload)]).
  { exact (step_sent newborn [] true ackPlan [] None). }
  refine (packet_run _ _ _ [] E1 _ _ _). refine (packet_run _ _ _ [(0, demoPayload)] E2 [] _ _).
  refine (packet_run _ _ _ [] E3 [] _ _). constructor.
Qed.

Lemma session_delivers_once_witness : NoDup (fst <$> [(0, demoPayload)]).
Proof. exact (session_delivers_once newborn _ (hd_s againRun) demo_listener_life). Defined.

(** ** The two ends *)

Lemma demo_open : open_for demoListener (id demoInitiator).
Proof. split; [exact (in_conf _ demoInitiator_inv)|vm_compute; reflexivity..]. Qed.

Lemma demo_compatible : compatible (conf demoInitiator) (l_settings demoListener).
Proof. split; [reflexivity..|]. exists Fec.xorCodec. reflexivity. Qed.

Definition carrierKey : bytes :=
  match replyIdentityUnchecked (Some carrierPath) with Ok k => k | Err _ => [] end.

Lemma startedInitiator_spec : Inv startedInitiator /\ state startedInitiator = StateHandshaking /\
  role startedInitiator = RoleInitiator /\ id startedInitiator = id demoInitiator /\
  conf startedInitiator = conf demoInitiator /\ knownCarrier startedInitiator (PathID carrierPath).
Proof.
  split; [exact (proj1 (Start_good (Some Background) demoInitiator (at_ 0) demoInitiator_inv))|].
  split_and!; [vm_compute; reflexivity..|]. exists 0%nat. vm_compute. reflexivity.
Qed.

Lemma handshake_agrees_witness :
  exists ref b, lh_err helloRun = None /\ registered (lh_l helloRun) ref demoInitiator b /\
    exists a2, state a2 = StateEstablished /\ matched a2 b /\ matched b a2.
Proof.
  destruct (handshake_agrees Background (received_by replyPath helloPacket) replyPath demoKey demoListener (at_ 10)
    demoInitiator demoInitiator_inv demo_open demo_compatible) as (ref & b & E1 & _ & R & _ & F);
    [reflexivity|vm_compute; reflexivity|reflexivity|vm_compute; reflexivity|].
  exists ref, b. split; [exact E1|]. split; [exact R|].
  destruct startedInitiator_spec as (I & S & Rl & Hid & Hc & K).
  destruct (F Background (received_by carrierPath (HELLO_ACK b)) carrierPath carrierKey startedInitiator None (at_ 20)
    I S Rl Hid Hc) as (_ & _ & _ & S2 & M1 & M2); [reflexivity..|vm_compute; reflexivity|reflexivity|exact K|].
  eexists. split; [exact S2|]. split; [exact M1|exact M2].
Defined.

Lemma established_reach : Inv establishedInitiator /\ Inv createdSession.
Proof.
  split; [exact (proj1 (HandlePacket_good (Some Background) (received_by carrierPath ackPacket) startedInitiator None (at_ 20)
    (proj1 startedInitiator_spec)))|].
  destruct (listener_accepts Background (received_by replyPath helloPacket) replyPath demoKey demoListener (at_ 10)
    demoInitiator demoInitiator_inv demo_open demo_compatible) as (ref & b & _ & E2 & _ & R & _);
    [reflexivity|vm_compute; reflexivity|reflexivity|vm_compute; reflexivity|].
  fold helloRun in E2, R. assert (E : lh_session helloRun = Some 0%nat) by (vm_compute; reflexivity).
  rewrite E in E2. injection E2 as <-. unfold createdSession. rewrite (rg_object _ _ _ _ R). exact (rg_inv _ _ _ _ R).
Qed.

Definition encodedBy (s : Session) (payload : bytes) : option (Fec.EncodedBlock * list bytes) :=
  match encoder s with
  | Some enc =>
      match fst (Fec.Encode enc payload) with
      | Ok blk => match shardPackets s (sendMaxUDPPayload s) blk 0 (Fec.Shards blk) with
                  | Ok ps => Some (blk, ps) | Err _ => None end
      | Err _ => None
      end
  | None => None
  end.

Definition demoEncoded : Fec.EncodedBlock * list bytes := Eval vm_compute in
  default (Fec.Build_EncodedBlock 0 0 sampleParams [], []) (encodedBy createdSession demoPayload).
Definition demoBlock : Fec.EncodedBlock := Eval cbv in fst demoEncoded.
Definition demoPackets : list bytes := Eval cbv in snd demoEncoded.

Lemma demo_written : encodedBy createdSession demoPayload = Some (demoBlock, demoPackets).
Proof. vm_compute. reflexivity. Qed.

Lemma demo_writes : writes createdSession demoPayload demoBlock demoPackets.
Proof.
  pose proof demo_written as E. unfold encodedBy in E.
  destruct (encoder createdSession) as [enc|] eqn:E1; [|discriminate E].
  destruct (Fec.Encode enc demoPayload) as [r enc'] eqn:E2. cbn [fst] in E. destruct r as [blk|]; [|discriminate E].
  destruct (shardPackets createdSession _ blk 0 (Fec.Shards blk)) as [ps|] eqn:E3; [|discriminate E].
  injection E as <- <-. exists enc, enc'. auto.
Qed.

(** What the witness needs of the two ends, computed once for each. *)
Definition decoderFacts (s : Session) :=
  match decoder s with
  | Some d => Some (FecDecoder.closed d, map_to_list (FecDecoder.pending d), map_to_list (FecDecoder.completed d),
      FecDecoder.inReplay d (fun w => FecReplay.tooOld w (Fec.PacketID demoBlock)
        || FecReplay.contains w (Fec.PacketID demoBlock)),
      FecReplay.sessionID <$> FecDecoder.replay d, FecDecoder.maxPendingBlocks d,
      Fec.EffectiveDatagramLimit (FecDecoder.limits d))
  | None => None
  end.

Definition facts (s : Session) :=
  (state s, id s, conf s, sendMaxUDPPayload s, receiveMaxUDPPayload s).

Lemma created_facts : facts createdSession = (StateEstablished, sampleSession, conf demoInitiator, 1200, 1200).
Proof. vm_compute. reflexivity. Qed.

Lemma established_facts : (facts establishedInitiator, decoderFacts establishedInitiator) =
  ((StateEstablished, sampleSession, conf demoInitiator, 1200, 1200),
   Some (false, [], [], false, Some sampleSession, 8, 1000)).
Proof. vm_compute. reflexivity. Qed.

Ltac parts H := repeat apply pair_equal_spec in H as [H ?].

Lemma demo_matched : state createdSession = StateEstablished /\ state establishedInitiator = StateEstablished /\
  conf createdSession = conf demoInitiator /\ conf establishedInitiator = conf demoInitiator /\
  matched createdSession establishedInitiator.
Proof.
  pose proof created_facts as E. unfold facts in E. parts E.
  pose proof established_facts as [F _]%pair_equal_spec. unfold facts in F. parts F.
  split_and!; try assumption. split; try congruence.
  replace (sendMaxUDPPayload createdSession) with 1200 by congruence.
  replace (receiveMaxUDPPayload establishedInitiator) with 1200 by congruence. discriminate.
Qed.

Lemma demo_ready : ready_for establishedInitiator demoBlock.
Proof.
  pose proof established_facts as [F E]%pair_equal_spec. unfold facts in F. parts F. unfold decoderFacts in E.
  destruct (decoder establishedInitiator) as [d|] eqn:D; [|discriminate E].
  apply (inj Some) in E. apply pair_equal_spec in E as [E E6]. apply pair_equal_spec in E as [E E5].
  apply pair_equal_spec in E as [E E4]. apply pair_equal_spec in E as [E Er].
  apply pair_equal_spec in E as [E E3]. apply pair_equal_spec in E as [E1 E2].
  apply map_to_list_empty_iff in E2, E3. exists d. split; [exact D|].
  split.
  - exact E1.
  - rewrite E2. apply lookup_empty.
  - rewrite E3. apply lookup_empty.
  - exact Er.
  - intros w Hw. rewrite Hw in E4. apply (inj Some) in E4. congruence.
  - rewrite E2, E5. reflexivity.
  - rewrite E6. vm_compute. discriminate.
Qed.

Definition firstCall : call := Recv (Some Background) (received_by carrierPath shard2) None (at_ 40).
Definition secondCall : call := Recv (Some Background) (received_by carrierPath shard1) None (at_ 50).

(** The parity shard and one data shard, in this order, are enough. *)
Lemma session_transit_witness :
  (Fec.PacketID demoBlock, demoPayload) ∈ fst (performAll [firstCall; secondCall] establishedInitiator).
Proof.
  destruct established_reach as [Ib Ia]. destruct demo_matched as (Sa & Sb & Ca & Cb & M).
  assert (L : lawful (params (conf createdSession))).
  { rewrite Ca. assert (params (conf demoInitiator) = sampleParams) as -> by (vm_compute; reflexivity). intros c [= <-]. exact Fec.xorCodec_lawful. }
  assert (T1 : takes demoPackets establishedInitiator firstCall 2) by (split; vm_compute; reflexivity).
  assert (T2 : takes demoPackets (snd (perform firstCall establishedInitiator)) secondCall 1)
    by (split; vm_compute; reflexivity).
  assert (Ho : Forall (honest (id establishedInitiator) (psk (conf establishedInitiator))
    (localMaxUDPPayload (conf establishedInitiator)) demoBlock demoPackets) [firstCall; secondCall]).
  { apply Forall_cons; split; [|apply Forall_singleton]; refine (written_honest _ _ demoPayload _ _ _ _ _ _ _ Ia Ib Sa Sb M L demo_writes _);
      [exact (proj1 T1)|exact (proj1 T2)]. }
  apply (session_transit createdSession establishedInitiator demoPayload demoBlock demoPackets firstCall [secondCall]
    40 [2%nat; 1%nat] 2 Ia Ib Sa Sb M L demo_writes demo_ready T1 eq_refl Ho).
  - apply Forall_singleton. rewrite Cb. vm_compute. reflexivity.
  - apply NoDup_cons. split; [by intros [?|[]%not_elem_of_nil]%elem_of_cons|apply NoDup_singleton].
  - rewrite Ca. vm_compute. discriminate.
  - intros i [->|[->|[]%not_elem_of_nil]%elem_of_cons]%elem_of_cons; cbn [accepted]; [left; exact T1|right; left; exact T2].
Defined.
