(* ===== verification/FecV2.v ===== *)
(** * FEC groups of protocol version 2 ([internal/fecv2])

    A group protects a manifest (descriptors of datagram fragments) and the fragment
    payloads together.  [Encode] writes them into one buffer, slice by slice as the
    source does, and encodes it; [Decode] reconstructs, verifies parity, padding and
    the whole manifest.  [EncodePrefix] packs greedily.  The Reed-Solomon codec is
    the third-party one of [Fec]. *)

From S2P Require Import Prelude.
From S2P Require Fec.

Definition ManifestVersion : Z := 1.
Definition ManifestBytes : nat := 4.
Definition DescriptorBytes : nat := 20.
Definition MaxDescriptors : Z := 256.
Definition MaxLogicalBytes : Z := 16 * 1024 * 1024.
Definition MaxDatagramBytes : Z := 16 * 1024 * 1024.
Definition MaxShardBytes : Z := 65507 - 94.

Inductive GroupError := ErrInvalid | ErrInsufficientShards | ErrNoPayloadCapacity.
#[global] Instance GroupError_eq_dec : EqDecision GroupError.
Proof. solve_decision. Defined.

Record Parameters := {
  DataShards : Z;
  ParityShards : Z;
  ShardBytes : Z;
  par_MaxDescriptors : Z;
  par_MaxLogicalBytes : Z;
  par_MaxDatagramBytes : Z }.

Definition overhead (n : Z) : Z := Z.of_nat ManifestBytes + Z.of_nat DescriptorBytes * n.

Definition validate (p : Parameters) : option GroupError :=
  if (DataShards p <? 1) || (255 <? DataShards p) || (ParityShards p <? 1)
     || (255 <? ParityShards p) || (256 <? DataShards p + ParityShards p)
  then Some ErrInvalid else
  if (ShardBytes p <? 1) || (MaxShardBytes <? ShardBytes p) then Some ErrInvalid else
  if (par_MaxDescriptors p <? 1) || (MaxDescriptors <? par_MaxDescriptors p)
     || (par_MaxLogicalBytes p <? overhead 1) || (MaxLogicalBytes <? par_MaxLogicalBytes p)
     || (DataShards p * ShardBytes p <? par_MaxLogicalBytes p)
  then Some ErrInvalid else
  if (par_MaxDatagramBytes p <? 1) || (MaxDatagramBytes <? par_MaxDatagramBytes p)
  then Some ErrInvalid else None.

Record Fragment := {
  DatagramID : Z;
  TotalBytes : Z;
  Offset : Z;
  Payload : bytes }.
#[global] Instance Fragment_eq_dec : EqDecision Fragment.
Proof. solve_decision. Defined.

Record Group := { LogicalBytes : Z; Shards : list bytes }.

Record Codec := { params : Parameters; rs : Fec.Codec }.

Definition New `{Fec.ReedSolomon} (p : Parameters) : result GroupError Codec :=
  check validate p in
  match Fec.reedsolomon_New (DataShards p) (ParityShards p) with
  | None => Err ErrInvalid
  | Some r => Ok {| params := p; rs := r |}
  end.

(** ** Fragments *)

Definition validateFragment (c : Codec) (f : Fragment) (previous : Z) : option GroupError :=
  if (DatagramID f =? 0) || (DatagramID f <=? previous) then Some ErrInvalid else
  if (u32 (par_MaxDatagramBytes (params c)) <? TotalBytes f) || (TotalBytes f <? Offset f)
     || (u32 (TotalBytes f - Offset f) <? len (Payload f)) then Some ErrInvalid else
  if (len (Payload f) =? 0) && negb (TotalBytes f =? 0) then Some ErrInvalid else None.

Fixpoint logicalSize_loop (c : Codec) (fs : list Fragment) (previous size : Z)
    : result GroupError Z :=
  match fs with
  | [] => Ok size
  | f :: rest =>
      check validateFragment c f previous in
      fail par_MaxLogicalBytes (params c) - size <? len (Payload f) with ErrInvalid in
      logicalSize_loop c rest (DatagramID f) (size + len (Payload f))
  end.

Definition logicalSize (c : Codec) (fs : list Fragment) : result GroupError Z :=
  fail (len fs <? 1) || (par_MaxDescriptors (params c) <? len fs) with ErrInvalid in
  let size := overhead (len fs) in
  fail par_MaxLogicalBytes (params c) <? size with ErrInvalid in
  logicalSize_loop c fs 0 size.

(** ** Encoding *)

(** [copy(buf[at:], data)]. *)
Definition write (pos : nat) (data buf : bytes) : bytes :=
  take pos buf ++ Fec.go_copy (drop pos buf) data.

(** The loop of [Encode]: [i] descriptors are written, payloads up to [dataAt]. *)
Fixpoint encodeFragments (i : nat) (fs : list Fragment) (dataAt : nat) (backing : bytes) : bytes :=
  match fs with
  | [] => backing
  | f :: rest =>
      let d := (ManifestBytes + i * DescriptorBytes)%nat in
      let backing := write d (be_put 8 (DatagramID f)) backing in
      let backing := write (d + 8) (be_put 4 (TotalBytes f)) backing in
      let backing := write (d + 12) (be_put 4 (Offset f)) backing in
      let backing := write (d + 16) (be_put 4 (u32 (len (Payload f)))) backing in
      let copied := Nat.min (length (Payload f)) (length backing - dataAt) in
      encodeFragments (S i) rest (dataAt + copied) (write dataAt (Payload f) backing)
  end.

Definition shardSlices (backing : bytes) (size : nat) : list bytes :=
  (fun i => slice (i * size) (S i * size) backing) <$> seq 0 (length backing / size).

Definition Encode (c : Codec) (fs : list Fragment) : result GroupError Group :=
  let? size := logicalSize c fs in
  let p := params c in
  let backing := replicate (Z.to_nat ((DataShards p + ParityShards p) * ShardBytes p)) Byte.x00 in
  let backing := write 0 (be_put 2 ManifestVersion) backing in
  let backing := write 2 (be_put 2 (u16 (len fs))) backing in
  let dataAt := (ManifestBytes + DescriptorBytes * length fs)%nat in
  let backing := encodeFragments 0 fs dataAt backing in
  match Fec.codec_Encode (rs c) (shardSlices backing (Z.to_nat (ShardBytes p))) with
  | None => Err ErrInvalid
  | Some shards => Ok {| LogicalBytes := u32 size; Shards := shards |}
  end.

(** ** Decoding *)

(** Copy the data shards into [logical], shard [i] first; [None] when the padding
    after the logical bytes is not zero. *)
Fixpoint gatherData (i : nat) (shards : list bytes) (size : nat) (logical : bytes) : option bytes :=
  match shards with
  | [] => Some logical
  | shard :: rest =>
      let start := (i * size)%nat in
      let used := Nat.min (length logical - start) size in
      let logical := if (0 <? used)%nat then write start (take used shard) logical else logical in
      if negb (allZero (drop used shard)) then None else gatherData (S i) rest size logical
  end.

(** Descriptor [i] and its payload at [dataAt]. *)
Definition fragmentAt (logical : bytes) (i dataAt : nat) : Fragment :=
  let d := drop (ManifestBytes + i * DescriptorBytes) logical in
  {| DatagramID := be_get (slice 0 8 d); TotalBytes := be_get (slice 8 12 d);
     Offset := be_get (slice 12 16 d);
     Payload := slice dataAt (dataAt + Z.to_nat (be_get (slice 16 20 d))) logical |}.

(** The validating loop; the result is the final [dataAt]. *)
Fixpoint checkDescriptors (c : Codec) (logical : bytes) (n i dataAt : nat) (previous : Z)
    : result GroupError nat :=
  match n with
  | O => Ok dataAt
  | S n' =>
      let size := be_get (slice 16 20 (drop (ManifestBytes + i * DescriptorBytes) logical)) in
      fail len logical - Z.of_nat dataAt <? size with ErrInvalid in
      let f := fragmentAt logical i dataAt in
      check validateFragment c f previous in
      checkDescriptors c logical n' (S i) (dataAt + Z.to_nat size) (DatagramID f)
  end.

(** The loop that fills the returned slice. *)
Fixpoint buildFragments (logical : bytes) (n i dataAt : nat) : list Fragment :=
  match n with
  | O => []
  | S n' =>
      let size := be_get (slice 16 20 (drop (ManifestBytes + i * DescriptorBytes) logical)) in
      fragmentAt logical i dataAt :: buildFragments logical n' (S i) (dataAt + Z.to_nat size)
  end.

Definition parseManifest (c : Codec) (logical : bytes) : result GroupError (list Fragment) :=
  fail (len logical <? Z.of_nat ManifestBytes)
       || negb (be_get (slice 0 2 logical) =? ManifestVersion) with ErrInvalid in
  let count := be_get (slice 2 4 logical) in
  let dataAt := overhead count in
  fail (count <? 1) || (par_MaxDescriptors (params c) <? count) || (len logical <? dataAt)
    with ErrInvalid in
  let? last := checkDescriptors c logical (Z.to_nat count) 0 (Z.to_nat dataAt) 0 in
  fail negb (last =? length logical)%nat with ErrInvalid in
  Ok (buildFragments logical (Z.to_nat count) 0 (Z.to_nat dataAt)).

Definition sizesMatch (size : Z) (input : list (option bytes)) : bool :=
  forallb (fun shard => match shard with None => true | Some s => len s =? size end) input.

Definition Decode (c : Codec) (logicalBytes : Z) (input : list (option bytes))
    : result GroupError (list Fragment) :=
  let p := params c in
  fail (logicalBytes <? overhead 1) || (u32 (par_MaxLogicalBytes p) <? logicalBytes)
       || negb (len input =? DataShards p + ParityShards p) with ErrInvalid in
  fail negb (sizesMatch (ShardBytes p) input) with ErrInvalid in
  fail Z.of_nat (Fec.arrived input) <? DataShards p with ErrInsufficientShards in
  let zeros := replicate (Z.to_nat (ShardBytes p)) Byte.x00 in
  let shards := map (option_map (Fec.go_copy zeros)) input in
  match Fec.codec_Reconstruct (rs c) shards with
  | None => Err ErrInvalid
  | Some full =>
      match Fec.codec_Verify (rs c) full with
      | None => Err ErrInvalid
      | Some valid =>
          fail negb valid with ErrInvalid in
          match gatherData 0 (take (Z.to_nat (DataShards p)) full) (Z.to_nat (ShardBytes p))
                  (replicate (Z.to_nat logicalBytes) Byte.x00) with
          | None => Err ErrInvalid
          | Some logical => parseManifest c logical
          end
      end
  end.

(** ** Packing *)

Record Cursor := { Next : nat; Bytes : nat }.
#[global] Instance Cursor_eq_dec : EqDecision Cursor.
Proof. solve_decision. Defined.

Fixpoint validateInput (c : Codec) (input : list Fragment) (previous : Z) : option GroupError :=
  match input with
  | [] => None
  | f :: rest =>
      match validateFragment c f previous with
      | Some e => Some e
      | None => validateInput c rest (DatagramID f)
      end
  end.

Definition truncated (f : Fragment) (consumed : nat) : Fragment :=
  {| DatagramID := DatagramID f; TotalBytes := TotalBytes f; Offset := Offset f;
     Payload := take consumed (Payload f) |}.

(** The packing loop: [i] fragments are done, [planned] holds their prefixes. *)
Fixpoint pack (c : Codec) (input : list Fragment) (i : nat) (planned : list Fragment) (used : Z)
    (cursor : Cursor) : list Fragment * Cursor :=
  match input with
  | [] => (planned, cursor)
  | f :: rest =>
      let room := par_MaxLogicalBytes (params c) - used - Z.of_nat DescriptorBytes in
      if (len planned =? par_MaxDescriptors (params c)) || (room <? 0)
         || ((room =? 0) && (0 <? len (Payload f)))
      then (planned, cursor) else
      let consumed := Z.min room (len (Payload f)) in
      let planned := planned ++ [truncated f (Z.to_nat consumed)] in
      let used := used + Z.of_nat DescriptorBytes + consumed in
      if consumed <? len (Payload f)
      then (planned, {| Next := i; Bytes := Z.to_nat consumed |})
      else pack c rest (S i) planned used {| Next := S i; Bytes := 0 |}
  end.

Definition zeroCursor : Cursor := {| Next := 0; Bytes := 0 |}.

Definition EncodePrefix (c : Codec) (input : list Fragment) : result GroupError (Group * Cursor) :=
  fail (len input =? 0) || (MaxDescriptors <? len input) with ErrInvalid in
  check validateInput c input 0 in
  let '(planned, cursor) := pack c input 0 [] (Z.of_nat ManifestBytes) zeroCursor in
  fail len planned =? 0 with ErrNoPayloadCapacity in
  let? group := Encode c planned in
  Ok (group, cursor).
