(* ===== verification/FecV2Props.v ===== *)
(** * Canonical FEC groups

    The closed form of the buffer [FecV2.Encode] writes, and the theorem that
    [Decode] accepts exactly the shards of the group that [Encode] makes: the format
    is canonical, padding and manifest included. *)

From S2P Require Import Prelude FecV2.
From S2P Require Fec.

(** ** The manifest as a byte string *)

Definition descriptor (f : Fragment) : bytes :=
  be_put 8 (DatagramID f) ++ be_put 4 (TotalBytes f) ++ be_put 4 (Offset f)
  ++ be_put 4 (len (Payload f)).

Definition descriptors (fs : list Fragment) : bytes := concat (descriptor <$> fs).
Definition payloads (fs : list Fragment) : bytes := concat (Payload <$> fs).

Definition manifest (fs : list Fragment) : bytes :=
  be_put 2 ManifestVersion ++ be_put 2 (len fs) ++ descriptors fs ++ payloads fs.

(** Go's types: a uint64 identifier and two uint32 fields. *)
Record frag_typed (f : Fragment) : Prop := {
  ft_id : in_u 64 (DatagramID f);
  ft_total : in_u 32 (TotalBytes f);
  ft_offset : in_u 32 (Offset f) }.

Lemma length_descriptor f : length (descriptor f) = DescriptorBytes.
Proof. unfold descriptor. rewrite !length_app, !length_be_put. done. Qed.

Lemma length_descriptors fs : length (descriptors fs) = (DescriptorBytes * length fs)%nat.
Proof.
  induction fs as [|f fs IH]; [done|]. unfold descriptors in *. cbn [fmap list_fmap concat].
  rewrite length_app, length_descriptor, IH. cbn [length]. lia.
Qed.

Lemma descriptors_cons f fs : descriptors (f :: fs) = descriptor f ++ descriptors fs.
Proof. done. Qed.
Lemma payloads_cons f fs : payloads (f :: fs) = Payload f ++ payloads fs.
Proof. done. Qed.

Lemma length_manifest fs :
  length (manifest fs)
  = (ManifestBytes + DescriptorBytes * length fs + length (payloads fs))%nat.
Proof.
  unfold manifest. rewrite !length_app, !length_be_put, length_descriptors.
  unfold ManifestBytes. lia.
Qed.

Lemma len_manifest fs : len (manifest fs) = overhead (len fs) + len (payloads fs).
Proof. unfold overhead, len. rewrite length_manifest. lia. Qed.

(** ** Sizes *)

Record params_ok (p : Parameters) : Prop := {
  pk_data : 1 <= DataShards p;
  pk_parity : 1 <= ParityShards p;
  pk_total : DataShards p + ParityShards p <= 256;
  pk_shard : 1 <= ShardBytes p <= MaxShardBytes;
  pk_descriptors : 1 <= par_MaxDescriptors p <= MaxDescriptors;
  pk_logical : overhead 1 <= par_MaxLogicalBytes p <= MaxLogicalBytes;
  pk_fits : par_MaxLogicalBytes p <= DataShards p * ShardBytes p;
  pk_datagram : 1 <= par_MaxDatagramBytes p <= MaxDatagramBytes }.

Lemma validate_iff p : validate p = None <-> params_ok p.
Proof.
  unfold validate. split.
  - intros H. go_inv H; bools; split; lia.
  - intros [H1 H2 H3 H4 H5 H6 H7 H8]. unfold MaxShardBytes, MaxDescriptors, MaxLogicalBytes,
      MaxDatagramBytes in *.
    by repeat replace (_ || _) with false by lia.
Qed.

(** What [validateFragment] checks, without machine arithmetic. *)
Record fragment_ok (c : Codec) (previous : Z) (f : Fragment) : Prop := {
  fo_id : 0 < DatagramID f /\ previous < DatagramID f;
  fo_total : TotalBytes f <= par_MaxDatagramBytes (params c);
  fo_fits : 0 <= Offset f /\ Offset f + len (Payload f) <= TotalBytes f;
  fo_empty : Payload f = [] -> TotalBytes f = 0 }.

Lemma validateFragment_iff c f previous :
  params_ok (params c) -> frag_typed f ->
  validateFragment c f previous = None <-> fragment_ok c previous f.
Proof.
  intros P [T1 T2 T3]. pose proof (pk_datagram _ P) as Hd.
  unfold MaxDatagramBytes, in_u in *. unfold validateFragment, u32.
  rewrite (wrap_small 32 (par_MaxDatagramBytes _)) by (unfold in_u; lia).
  pose proof (len_nonneg (Payload f)) as Hl. split.
  - intros H. go_inv H; bools. rewrite wrap_small in * by (unfold in_u; lia).
    split; try lia. intros Hp. rewrite Hp, len_nil in E1. cbn in E1.
    bools. lia.
  - intros [F1 F2 F3 F4]. rewrite wrap_small by (unfold in_u; lia).
    replace ((DatagramID f =? 0) || (DatagramID f <=? previous)) with false by lia.
    replace (_ || _) with false by lia.
    destruct (Z.eqb_spec (len (Payload f)) 0) as [E|E]; [|done].
    apply len_zero in E. rewrite F4 by done. done.
Qed.

Lemma payload_small c previous f :
  params_ok (params c) -> fragment_ok c previous f -> in_u 32 (len (Payload f)).
Proof.
  intros P [_ F2 F3 _]. pose proof (pk_datagram _ P). pose proof (len_nonneg (Payload f)).
  unfold MaxDatagramBytes, in_u in *. lia.
Qed.

Lemma logicalSize_loop_iff c fs : forall previous size r,
  size <= par_MaxLogicalBytes (params c) ->
  logicalSize_loop c fs previous size = Ok r <->
  validateInput c fs previous = None /\ r = size + len (payloads fs) /\
  r <= par_MaxLogicalBytes (params c).
Proof.
  induction fs as [|f fs IH]; intros previous size r Hsz; cbn [logicalSize_loop validateInput].
  - change (len (payloads [])) with 0. split; [intros [= <-]; split; [done|lia]|].
    intros (_ & -> & _). f_equal. lia.
  - rewrite payloads_cons, len_app. pose proof (len_nonneg (payloads fs)).
    destruct (validateFragment c f previous); [naive_solver|].
    destruct (Z.ltb_spec (par_MaxLogicalBytes (params c) - size) (len (Payload f))).
    + split; [done|]. intros (_ & -> & ?). lia.
    + rewrite IH by lia. rewrite Z.add_assoc. done.
Qed.

Lemma logicalSize_iff c fs r :
  logicalSize c fs = Ok r <->
  1 <= len fs <= par_MaxDescriptors (params c) /\ validateInput c fs 0 = None /\
  r = len (manifest fs) /\ r <= par_MaxLogicalBytes (params c).
Proof.
  unfold logicalSize. rewrite len_manifest. pose proof (len_nonneg (payloads fs)). split.
  - intros H1. go_inv H1; bools. apply logicalSize_loop_iff in H1; [|lia].
    destruct H1 as (? & ? & ?). repeat split; (done || lia).
  - intros (Hn & Hv & -> & Hr). replace (_ || _) with false by lia.
    replace (_ <? _) with false by lia. apply logicalSize_loop_iff; [lia|]. done.
Qed.

(** ** The buffer that [Encode] writes *)

Lemma write_at n a b c data :
  length a = n -> length b = length data -> write n data (a ++ b ++ c) = a ++ data ++ c.
Proof.
  intros <- Hb. unfold write. rewrite take_app_length, drop_app_length.
  rewrite Fec.go_copy_prefix by (rewrite length_app; lia).
  by rewrite <- Hb, drop_app_length.
Qed.

Lemma length_write n data buf : (n <= length buf)%nat -> length (write n data buf) = length buf.
Proof.
  intros H. unfold write. rewrite length_app, length_take, Fec.length_go_copy, length_drop. lia.
Qed.

(** Four adjacent writes fill one descriptor. *)
Lemma write_descriptor hd gap rest d8 d4 d4' d4'' n :
  length hd = n -> length gap = DescriptorBytes ->
  length d8 = 8%nat -> length d4 = 4%nat -> length d4' = 4%nat -> length d4'' = 4%nat ->
  write (n + 16) d4'' (write (n + 12) d4' (write (n + 8) d4 (write n d8 (hd ++ gap ++ rest))))
  = hd ++ (d8 ++ d4 ++ d4' ++ d4'') ++ rest.
Proof.
  intros Hn Hg L1 L2 L3 L4. unfold DescriptorBytes in *.
  rewrite <- (take_drop 8 gap), <- (take_drop 4 (drop 8 gap)), !drop_drop.
  rewrite <- (take_drop 4 (drop (8 + 4) gap)), !drop_drop, <- !app_assoc.
  rewrite write_at by (rewrite ?length_take; lia).
  rewrite (app_assoc hd d8), write_at by (rewrite ?length_app, ?length_take, ?length_drop; lia).
  rewrite <- (app_assoc hd d8), (app_assoc d8), (app_assoc hd), write_at
    by (rewrite ?length_app, ?length_take, ?length_drop; lia).
  rewrite (app_assoc _ d4'), write_at
    by (rewrite ?length_app, ?length_take, ?length_drop; lia).
  by rewrite <- !app_assoc.
Qed.

Lemma encodeFragments_spec fs : forall i hd gap mid tail dataAt,
  length hd = (ManifestBytes + i * DescriptorBytes)%nat ->
  length gap = (DescriptorBytes * length fs)%nat ->
  dataAt = (length hd + length gap + length mid)%nat ->
  (length (payloads fs) <= length tail)%nat ->
  Forall (fun f => in_u 32 (len (Payload f))) fs ->
  encodeFragments i fs dataAt (hd ++ gap ++ mid ++ tail)
  = hd ++ descriptors fs ++ mid ++ payloads fs ++ drop (length (payloads fs)) tail.
Proof.
  induction fs as [|f fs IH]; intros i hd gap mid tail dataAt Hh Hg Hat Ht Hs;
    cbn [encodeFragments].
  - cbn in Hg. apply nil_length_inv in Hg as ->. by rewrite drop_0.
  - apply Forall_cons in Hs as [Hf Hs]. rewrite payloads_cons, length_app in Ht.
    cbn [length] in Hg. assert (Hgap : exists g1 g2, gap = g1 ++ g2 /\
      length g1 = DescriptorBytes /\ length g2 = (DescriptorBytes * length fs)%nat).
    { exists (take DescriptorBytes gap), (drop DescriptorBytes gap).
      rewrite take_drop, length_take, length_drop. split; [done|lia]. }
    destruct Hgap as (g1 & g2 & -> & Hg1 & Hg2). rewrite length_app in Hat.
    assert (Htail : exists t1 t2, tail = t1 ++ t2 /\ length t1 = length (Payload f)).
    { exists (take (length (Payload f)) tail), (drop (length (Payload f)) tail).
      rewrite take_drop, length_take. split; [done|lia]. }
    destruct Htail as (t1 & t2 & -> & Ht1). rewrite length_app in Ht.
    unfold u32. rewrite wrap_small by done. rewrite <- app_assoc, <- Hh.
    rewrite write_descriptor by (rewrite ?length_be_put; done). fold (descriptor f).
    cbv zeta. rewrite Nat.min_l
      by (rewrite !length_app, length_descriptor; unfold DescriptorBytes in *; lia).
    assert (Hassoc : hd ++ descriptor f ++ g2 ++ mid ++ t1 ++ t2
      = (hd ++ descriptor f ++ g2 ++ mid) ++ t1 ++ t2) by (by rewrite <- !app_assoc).
    rewrite Hassoc, write_at; [|rewrite !length_app, length_descriptor; lia|done].
    assert (Hassoc' : (hd ++ descriptor f ++ g2 ++ mid) ++ Payload f ++ t2
      = (hd ++ descriptor f) ++ g2 ++ (mid ++ Payload f) ++ t2) by (by rewrite <- !app_assoc).
    rewrite Hassoc', (IH (S i)); try done.
    + rewrite descriptors_cons, payloads_cons, length_app, <- Ht1, drop_app_add, <- !app_assoc.
      done.
    + rewrite length_app, length_descriptor. lia.
    + rewrite !length_app, length_descriptor. lia.
    + lia.
Qed.

(** The whole buffer: manifest, then zeros. *)
Definition layout (fs : list Fragment) (n : nat) : bytes :=
  manifest fs ++ replicate (n - length (manifest fs)) Byte.x00.

Lemma encode_buffer fs n :
  (length (manifest fs) <= n)%nat -> in_u 16 (len fs) ->
  Forall (fun f => in_u 32 (len (Payload f))) fs ->
  let backing := write 0 (be_put 2 ManifestVersion) (replicate n Byte.x00) in
  let backing := write 2 (be_put 2 (u16 (len fs))) backing in
  encodeFragments 0 fs (ManifestBytes + DescriptorBytes * length fs) backing = layout fs n.
Proof.
  intros Hn Hc Hs. cbv zeta. unfold u16. rewrite wrap_small by done.
  rewrite length_manifest in Hn. unfold ManifestBytes in *.
  set (k := (DescriptorBytes * length fs)%nat) in *.
  set (z := fun m => replicate m Byte.x00).
  change (replicate n Byte.x00) with (z n).
  assert (Hz : z n = [] ++ z 2%nat ++ z 2%nat ++ z k ++ [] ++ z (n - 4 - k)%nat).
  { unfold z. cbn [app]. rewrite <- !replicate_add. f_equal. lia. }
  rewrite Hz, write_at by done. rewrite (app_nil_l (_ ++ _)).
  rewrite write_at by done. rewrite app_assoc, (encodeFragments_spec fs 0); try done.
  - unfold layout, manifest. rewrite <- !app_assoc. cbn [app]. do 4 f_equal.
    unfold z. rewrite drop_replicate. f_equal.
    rewrite !length_app, !length_be_put, length_descriptors. fold k. lia.
  - unfold z. by rewrite length_replicate.
  - unfold z. rewrite length_replicate, length_app, !length_be_put. cbn [length]. fold k. lia.
  - unfold z. rewrite length_replicate. lia.
Qed.

Lemma length_layout fs n : (length (manifest fs) <= n)%nat -> length (layout fs n) = n.
Proof. intros H. unfold layout. rewrite length_app, length_replicate. lia. Qed.

Lemma shardSlices_eq n size b :
  (0 < size)%nat -> length b = (n * size)%nat -> shardSlices b size = Fec.sliceShards n size b.
Proof.
  intros Hs Hb. unfold shardSlices, Fec.sliceShards. rewrite Hb, Nat.div_mul by lia.
  apply list_fmap_ext. intros i j _. f_equal. lia.
Qed.

(** ** Shards of a buffer *)

Lemma sliceShards_concat l size rest :
  Forall (fun s => length s = size) l ->
  Fec.sliceShards (length l) size (concat l ++ rest) = l.
Proof.
  revert rest. induction l as [|x l IH] using rev_ind; intros rest H; [done|].
  apply Forall_app in H as [Hl Hx]. apply Forall_cons in Hx as [Hx _]. cbn in Hx.
  rewrite length_app. cbn [length]. rewrite Nat.add_1_r, Fec.sliceShards_S, concat_app.
  cbn [concat]. rewrite app_nil_r, <- app_assoc, IH by done. f_equal. f_equal.
  assert (Hc : length (concat l) = (length l * size)%nat).
  { clear -Hl. induction Hl as [|y l Hy Hl IH]; [done|]. cbn. rewrite length_app. lia. }
  rewrite slice_app_r by lia. rewrite Hc, Nat.sub_diag, Nat.add_comm, Nat.add_sub.
  rewrite <- Hx. apply slice_app_l.
Qed.

Lemma length_concat_sized (l : list bytes) size :
  Forall (fun s => length s = size) l -> length (concat l) = (length l * size)%nat.
Proof. induction 1 as [|x l Hx Hl IH]; [done|]. cbn. rewrite length_app. lia. Qed.

Lemma concat_replicate m size (x : byte) :
  concat (replicate m (replicate size x)) = replicate (m * size) x.
Proof. induction m as [|m IH]; [done|]. cbn. by rewrite IH, <- replicate_add. Qed.

Section codec.
Context (c : Codec) (Hp : params_ok (params c)).

Abbreviation k := (Z.to_nat (DataShards (params c))).
Abbreviation m := (Z.to_nat (ParityShards (params c))).
Abbreviation sb := (Z.to_nat (ShardBytes (params c))).

(** The data shards of a group, and the parity buffers before encoding. *)
Definition dataOf (fs : list Fragment) : list bytes := Fec.sliceShards k sb (layout fs (k * sb)).
Definition zeroParity : list bytes := replicate m (replicate sb Byte.x00).

Lemma sb_pos : (0 < sb)%nat.
Proof using Hp. destruct Hp. lia. Qed.

Lemma logical_fits fs r :
  logicalSize c fs = Ok r -> (length (manifest fs) <= k * sb)%nat /\ in_u 16 (len fs) /\ in_u 32 r.
Proof using Hp.
  intros (Hn & _ & -> & Hr)%logicalSize_iff. destruct Hp.
  unfold MaxDescriptors, MaxLogicalBytes, MaxShardBytes, in_u, len in *.
  split; [|lia]. rewrite <- Z2Nat.inj_mul by lia. lia.
Qed.

Lemma dataOf_sizes fs : (length (manifest fs) <= k * sb)%nat ->
  Forall (fun s => length s = sb) (dataOf fs) /\ length (dataOf fs) = k /\
  concat (dataOf fs) = layout fs (k * sb).
Proof using.
  intros H. unfold dataOf. pose proof (length_layout fs _ H) as Hl.
  split; [apply Fec.sliceShards_sizes; lia|]. split; [apply Fec.length_sliceShards|].
  rewrite Fec.concat_sliceShards by lia. apply firstn_all2. lia.
Qed.

Lemma group_shards fs : (length (manifest fs) <= k * sb)%nat ->
  shardSlices (layout fs ((k + m) * sb)) sb = dataOf fs ++ zeroParity.
Proof using Hp.
  intros H. destruct (dataOf_sizes fs H) as (D1 & D2 & D3). pose proof sb_pos.
  rewrite (shardSlices_eq (k + m)) by (rewrite ?length_layout; nia).
  assert (Hall : Forall (fun s => length s = sb) (dataOf fs ++ zeroParity)).
  { apply Forall_app. split; [done|]. apply Forall_replicate. apply length_replicate. }
  rewrite <- (sliceShards_concat (dataOf fs ++ zeroParity) sb [] Hall), app_nil_r.
  rewrite length_app, D2. unfold zeroParity at 1. rewrite length_replicate. f_equal.
  rewrite concat_app, D3. unfold zeroParity. rewrite concat_replicate. unfold layout.
  rewrite <- app_assoc, <- replicate_add. do 2 f_equal. nia.
Qed.

Lemma validateInput_small fs : forall previous, Forall frag_typed fs ->
  validateInput c fs previous = None -> Forall (fun f => in_u 32 (len (Payload f))) fs.
Proof using Hp.
  induction fs as [|f fs IH]; intros previous T H; [done|]. cbn [validateInput] in H.
  apply Forall_cons in T as [T1 T2].
  destruct (validateFragment c f previous) eqn:E; [done|].
  apply validateFragment_iff in E; [|done..]. constructor; [by eapply payload_small|eauto].
Qed.

Lemma Encode_iff fs g : Forall frag_typed fs ->
  Encode c fs = Ok g <->
  logicalSize c fs = Ok (LogicalBytes g) /\
  Fec.codec_Encode (rs c) (dataOf fs ++ zeroParity) = Some (Shards g).
Proof using Hp.
  intros T. unfold Encode. destruct (logicalSize c fs) as [r|e] eqn:E; cbn [result_bind].
  2: { split; [done|]. by intros [? _]. }
  destruct (logical_fits _ _ E) as (Hfit & Hc & Hr).
  pose proof E as (Hn & Hv & _ & _)%logicalSize_iff. cbv zeta.
  assert (Hnat : Z.to_nat ((DataShards (params c) + ParityShards (params c))
    * ShardBytes (params c)) = ((k + m) * sb)%nat) by (destruct Hp; nia).
  rewrite Hnat, encode_buffer; [|nia|done|by eapply validateInput_small].
  rewrite group_shards by done. unfold u32. rewrite wrap_small by done.
  destruct (Fec.codec_Encode _ _) as [shards|]; [|naive_solver].
  destruct g as [L S]. cbn. naive_solver.
Qed.
End codec.

(** ** Collecting the logical bytes *)

Lemma allZero_app a b : allZero (a ++ b) = allZero a && allZero b.
Proof. apply forallb_app. Qed.

Lemma gatherData_spec shards size : (0 < size)%nat -> Forall (fun s => length s = size) shards ->
  forall i A B,
  (length A = i * size \/ (B = [] /\ length A <= i * size))%nat ->
  (length B <= length (concat shards))%nat ->
  gatherData i shards size (A ++ B)
  = if allZero (drop (length B) (concat shards))
    then Some (A ++ take (length B) (concat shards)) else None.
Proof.
  intros Hs Hall. induction Hall as [|s shards Hl Hall IH]; intros i A B HA HB; cbn [gatherData concat].
  - cbn in HB. destruct B; [|cbn in HB; lia]. done.
  - cbn [concat] in HB. rewrite length_app in HB |- *.
    replace (length A + length B - i * size)%nat with (length B)
      by (destruct HA as [HA|[-> HA]]; cbn; lia).
    destruct (le_lt_dec size (length B)) as [Hge|Hlt].
    + assert (HA' : length A = (i * size)%nat) by (destruct HA as [|[-> _]]; [done|cbn in Hge; lia]).
      rewrite Nat.min_r by done. replace (0 <? size)%nat with true by (symmetry; by apply Nat.ltb_lt).
      rewrite (firstn_all2 s), (skipn_all2 s) by lia. cbn [allZero forallb negb].
      assert (Hw : write (i * size) s (A ++ B) = (A ++ s) ++ drop size B).
      { rewrite <- (take_drop size B) at 1. rewrite write_at, <- app_assoc;
          [done|done|rewrite length_take; lia]. }
      change (negb (allZero [])) with false. cbv iota.
      rewrite Hw, (IH (S i)) by (rewrite ?length_app, ?length_drop; lia).
      rewrite length_drop, <- app_assoc, (drop_app_ge s), (take_app_ge s) by lia.
      by rewrite Hl.
    + rewrite Nat.min_l by lia.
      assert (Hw : (if (0 <? length B)%nat then write (i * size) (take (length B) s) (A ++ B) else A ++ B)
        = (A ++ take (length B) s) ++ []).
      { destruct (Nat.ltb_spec 0 (length B)) as [Hpos|Hz].
        - assert (HA' : length A = (i * size)%nat) by (destruct HA as [|[-> _]]; [done|cbn in Hpos; lia]).
          rewrite <- (app_nil_r B) at 2. rewrite write_at; [by rewrite <- app_assoc|done|].
          rewrite length_take. lia.
        - destruct B; [|cbn in Hz; lia]. by rewrite !app_nil_r. }
      rewrite Hw, (drop_app_le s), (take_app_le s), allZero_app by lia.
      destruct (allZero (drop (length B) s)); cbn [negb andb]; [|done].
      rewrite (IH (S i)); [cbn [length]; by rewrite drop_0, take_0, app_nil_r| |cbn; lia].
      right. split; [done|]. rewrite length_app, length_take. lia.
Qed.

Lemma gather_all shards size n :
  (0 < size)%nat -> Forall (fun s => length s = size) shards ->
  (n <= length (concat shards))%nat ->
  gatherData 0 shards size (replicate n Byte.x00)
  = if allZero (drop n (concat shards)) then Some (take n (concat shards)) else None.
Proof.
  intros Hs Hall Hn. pose proof (gatherData_spec shards size Hs Hall 0 [] (replicate n Byte.x00)) as H.
  cbn [app] in H. rewrite length_replicate in H. rewrite H by (done || (left; done)). done.
Qed.

(** ** Parsing the manifest *)

#[local] Transparent slice.
Lemma slice_le {A} i j (l : list A) : (length (slice i j l) <= j - i)%nat.
Proof. unfold slice. rewrite length_take. lia. Qed.

Lemma slice_drop {A} i j a (l : list A) : slice i j (drop a l) = slice (a + i) (a + j) l.
Proof. unfold slice. rewrite drop_drop. f_equal. lia. Qed.
#[local] Opaque slice.

Section parse.
Context (c : Codec) (Hp : params_ok (params c)).

Lemma be_get_slice_typed i n (l : bytes) j :
  (j - i)%nat = n -> 0 <= be_get (slice i j l) < 2 ^ (8 * Z.of_nat n).
Proof using.
  intros <-. pose proof (be_get_range (slice i j l)) as H.
  assert (len (slice i j l) <= Z.of_nat (j - i)) by (unfold len; pose proof (slice_le i j l); lia).
  assert (2 ^ (8 * len (slice i j l)) <= 2 ^ (8 * Z.of_nat (j - i)))
    by (apply Z.pow_le_mono_r; lia). lia.
Qed.

Lemma fragmentAt_typed logical i dataAt : frag_typed (fragmentAt logical i dataAt).
Proof using.
  split; cbn; unfold in_u.
  - by apply (be_get_slice_typed 0 8).
  - by apply (be_get_slice_typed 8 4).
  - by apply (be_get_slice_typed 12 4).
Qed.

(** Soundness of the two loops: the logical bytes are the descriptors and payloads of
    the fragments they build. *)
Lemma loops_sound logical n : forall i dataAt previous last,
  (ManifestBytes + (i + n) * DescriptorBytes <= length logical)%nat ->
  (dataAt <= length logical)%nat ->
  checkDescriptors c logical n i dataAt previous = Ok last ->
  let fs := buildFragments logical n i dataAt in
  validateInput c fs previous = None /\ Forall frag_typed fs /\ length fs = n /\
  (dataAt <= last <= length logical)%nat /\
  slice (ManifestBytes + i * DescriptorBytes) (ManifestBytes + (i + n) * DescriptorBytes) logical
    = descriptors fs /\
  slice dataAt last logical = payloads fs.
Proof using Hp.
  induction n as [|n IH]; intros i dataAt previous last Hd Hat H; cbv zeta;
    cbn [checkDescriptors buildFragments] in *.
  { injection H as <-. repeat (split; [done || lia|]).
    rewrite Nat.add_0_r. split; apply nil_length_inv.
    - pose proof (slice_le (ManifestBytes + i * DescriptorBytes)
        (ManifestBytes + i * DescriptorBytes) logical). lia.
    - pose proof (slice_le dataAt dataAt logical). lia. }
  set (d := (ManifestBytes + i * DescriptorBytes)%nat) in *.
  set (size := be_get (slice 16 20 (drop d logical))) in *.
  assert (Hsize : 0 <= size) by (pose proof (be_get_slice_typed 16 4 (drop d logical) 20 eq_refl);
    unfold size; lia).
  destruct (Z.ltb_spec (len logical - Z.of_nat dataAt) size) as [|Hroom]; [discriminate H|].
  pose proof (fragmentAt_typed logical i dataAt) as Ht.
  assert (Hdesc : descriptor (fragmentAt logical i dataAt) = slice d (d + DescriptorBytes) logical).
  { unfold descriptor, fragmentAt. cbn [DatagramID TotalBytes Offset Payload]. fold d size.
    assert (Hl : len (slice dataAt (dataAt + Z.to_nat size) logical) = size).
    { unfold len. rewrite length_slice by (unfold len in Hroom; lia). lia. }
    rewrite Hl. unfold size, DescriptorBytes in *.
    rewrite !be_put_slice by (rewrite ?length_drop; lia).
    rewrite !slice_join by lia. rewrite slice_drop. f_equal; lia. }
  assert (Hpay : Payload (fragmentAt logical i dataAt)
    = slice dataAt (dataAt + Z.to_nat size) logical) by done.
  set (f := fragmentAt logical i dataAt) in *. clearbody f.
  destruct (validateFragment c f previous) eqn:V; [discriminate H|].
  unfold len in Hroom.
  destruct (IH (S i) (dataAt + Z.to_nat size)%nat (DatagramID f) last) as
    (I1 & I2 & I3 & I4 & I5 & I6); [lia|lia|done|].
  cbn [validateInput length]. rewrite V, descriptors_cons, payloads_cons, <- I5, <- I6, Hdesc, Hpay.
  split; [done|]. split; [by constructor|]. split; [by rewrite I3|]. split; [lia|].
  rewrite slice_join by lia. split; [|done].
  replace (ManifestBytes + S i * DescriptorBytes)%nat with (d + DescriptorBytes)%nat by lia.
  rewrite slice_join by lia. f_equal. lia.
Qed.

(** Completeness: the loops read back what was written. *)
Lemma loops_complete logical fs : forall i A mid tail previous,
  length A = (ManifestBytes + i * DescriptorBytes)%nat ->
  logical = A ++ descriptors fs ++ mid ++ payloads fs ++ tail ->
  Forall frag_typed fs -> validateInput c fs previous = None ->
  let dataAt := (length A + length (descriptors fs) + length mid)%nat in
  checkDescriptors c logical (length fs) i dataAt previous
    = Ok (dataAt + length (payloads fs))%nat /\
  buildFragments logical (length fs) i dataAt = fs.
Proof using Hp.
  induction fs as [|f fs IH]; intros i A mid tail previous HA Hl T V; cbv zeta;
    cbn [checkDescriptors buildFragments length validateInput] in *.
  { split; [|done]. f_equal. change (length (payloads [])) with 0%nat. lia. }
  apply Forall_cons in T as [T1 T2].
  destruct (validateFragment c f previous) eqn:Vf; [done|].
  assert (Hsmall : in_u 32 (len (Payload f)))
    by (apply validateFragment_iff in Vf; [by eapply payload_small|done..]).
  rewrite descriptors_cons, payloads_cons in Hl.
  assert (Hdrop : drop (ManifestBytes + i * DescriptorBytes) logical
    = descriptor f ++ descriptors fs ++ mid ++ (Payload f ++ payloads fs) ++ tail).
  { rewrite Hl, <- HA, drop_app_length, <- !app_assoc. done. }
  set (dataAt := (length A + length (descriptors (f :: fs)) + length mid)%nat).
  assert (Hat : logical = (A ++ descriptor f ++ descriptors fs ++ mid) ++ Payload f
    ++ payloads fs ++ tail) by (rewrite Hl, <- !app_assoc; done).
  assert (HlenAt : length (A ++ descriptor f ++ descriptors fs ++ mid) = dataAt).
  { unfold dataAt. rewrite descriptors_cons, !length_app. lia. }
  assert (Hsz : be_get (slice 16 20 (drop (ManifestBytes + i * DescriptorBytes) logical))
    = len (Payload f)).
  { rewrite Hdrop. unfold descriptor. rewrite <- !app_assoc. slices.
    rewrite be_get_put_small; [done|exact Hsmall]. }
  assert (Hf : fragmentAt logical i dataAt = f).
  { unfold fragmentAt. rewrite Hsz, Hdrop. unfold descriptor. rewrite <- !app_assoc. slices.
    destruct T1. rewrite !be_get_put_small by done.
    unfold len. rewrite Nat2Z.id, Hat, slice_app_r, HlenAt, Nat.sub_diag, Nat.add_comm, Nat.add_sub
      by lia. rewrite slice_app_l. by destruct f. }
  rewrite Hsz, Hf, Vf. unfold len at 1.
  assert (Hroom : (dataAt + length (Payload f) <= length logical)%nat).
  { rewrite Hat, !length_app, <- HlenAt, !length_app. lia. }
  replace (_ <? _) with false by (unfold len; lia).
  unfold len. rewrite Nat2Z.id.
  destruct (IH (S i) (A ++ descriptor f) (mid ++ Payload f) tail (DatagramID f)) as [I1 I2];
    [rewrite length_app, length_descriptor; lia|rewrite Hl, <- !app_assoc; done|done|done|].
  assert (Hnext : (length (A ++ descriptor f) + length (descriptors fs)
    + length (mid ++ Payload f))%nat = (dataAt + length (Payload f))%nat).
  { rewrite <- HlenAt, !length_app. lia. }
  rewrite Hnext in I1, I2. rewrite I1, I2, payloads_cons, length_app.
  split; [|done]. f_equal. lia.
Qed.

Lemma parseManifest_iff logical fs :
  len logical <= par_MaxLogicalBytes (params c) ->
  parseManifest c logical = Ok fs <->
  Forall frag_typed fs /\ logical = manifest fs /\ logicalSize c fs = Ok (len logical).
Proof using Hp.
  intros Hmax. rewrite logicalSize_iff. pose proof (pk_descriptors _ Hp) as Hd.
  unfold MaxDescriptors in Hd. unfold parseManifest. split.
  - intros H. go_inv H; bools. apply Nat.eqb_eq in E2. subst x.
    match goal with E : (be_get (slice 0 2 logical) =? _) = true |- _ =>
      apply Z.eqb_eq in E as Hver end. unfold overhead, ManifestBytes, DescriptorBytes, len in *.
    change (Z.of_nat 4) with 4 in *. change (Z.of_nat 20) with 20 in *.
    set (n := be_get (slice 2 4 logical)) in *.
    destruct (loops_sound logical (Z.to_nat n) 0 (Z.to_nat (4 + 20 * n)) 0 _ ltac:(unfold ManifestBytes, DescriptorBytes; lia)
      ltac:(lia) E1) as (I1 & I2 & I3 & _ & I5 & I6). rewrite H in I1, I2, I3, I5, I6.
    assert (Hman : logical = manifest fs).
    { unfold ManifestBytes, DescriptorBytes in I5, I6.
      change (4 + 0 * 20)%nat with 4%nat in I5.
      replace (Z.to_nat (4 + 20 * n)) with (4 + (0 + Z.to_nat n) * 20)%nat in I6 by lia.
      set (e := (4 + (0 + Z.to_nat n) * 20)%nat) in *.
      unfold manifest. rewrite <- I5, <- I6, <- Hver. unfold len. rewrite I3, Z2Nat.id by lia.
      unfold n. rewrite !be_put_slice by lia.
      rewrite (slice_join 4 e), (slice_join 2 4), (slice_join 0 2) by lia. by rewrite slice_all. }
    split; [done|]. split; [done|]. rewrite <- Hman. repeat split; (done || lia).
  - intros (T & -> & Hn & V & _ & Hr).
    assert (Hv : be_get (slice 0 2 (manifest fs)) = ManifestVersion).
    { unfold manifest. slices. by rewrite be_get_put_small. }
    assert (Hc : be_get (slice 2 4 (manifest fs)) = len fs).
    { unfold manifest. slices. rewrite be_get_put_small; [done|]. unfold in_u. cbn. lia. }
    rewrite Hv, Hc, Z.eqb_refl. pose proof (len_manifest fs) as Hlm.
    pose proof (len_nonneg (payloads fs)). cbn [negb].
    unfold overhead, ManifestBytes, DescriptorBytes in *.
    change (Z.of_nat 4) with 4 in *. change (Z.of_nat 20) with 20 in *.
    replace (_ || _) with false by lia. replace (_ || _) with false by lia.
    destruct (loops_complete (manifest fs) fs 0 (be_put 2 ManifestVersion ++ be_put 2 (len fs))
      [] [] 0) as [C1 C2]; [done| |done|done|].
    { unfold manifest. by rewrite app_nil_r, <- !app_assoc. }
    rewrite length_descriptors in C1, C2. cbn [length app] in C1, C2.
    rewrite length_app, !length_be_put in C1, C2. unfold DescriptorBytes in C1, C2.
    replace (Z.to_nat (4 + 20 * len fs)) with (2 + 2 + 20 * length fs + 0)%nat by (unfold len; lia).
    replace (Z.to_nat (len fs)) with (length fs) by (unfold len; lia).
    rewrite C1. cbn [result_bind]. rewrite C2.
    replace (_ =? _)%nat with true; [done|]. symmetry. apply Nat.eqb_eq.
    unfold len in Hlm. lia.
Qed.
End parse.

(** ** Decoding accepts exactly the encoded groups *)

Lemma sizesMatch_iff size input :
  sizesMatch size input = true <-> forall i s, input !! i = Some (Some s) -> len s = size.
Proof.
  unfold sizesMatch. rewrite forallb_forall. setoid_rewrite <- list_elem_of_In. split.
  - intros H i s Hi. apply list_elem_of_lookup_2, H in Hi. lia.
  - intros H [s|] Hin; [|done]. apply list_elem_of_lookup_1 in Hin as [i Hi].
    specialize (H _ _ Hi). lia.
Qed.

Lemma copied_input n input :
  (forall i s, input !! i = Some (Some s) -> length s = n) ->
  map (option_map (Fec.go_copy (replicate n Byte.x00))) input = input.
Proof.
  induction input as [|x input IH]; intros H; [done|]. cbn [map].
  rewrite IH by (intros i s; apply (H (S i))). f_equal. destruct x as [s|]; [|done]. cbn. f_equal.
  pose proof (H 0%nat s eq_refl) as Hs.
  rewrite Fec.go_copy_prefix by (rewrite length_replicate; lia).
  rewrite skipn_all2 by (rewrite length_replicate; lia). apply app_nil_r.
Qed.

Section decode.
Context (c : Codec) (Hp : params_ok (params c))
  (Hlaw : Fec.Lawful (Z.to_nat (DataShards (params c))) (Z.to_nat (ParityShards (params c))) (rs c)).

Abbreviation k := (Z.to_nat (DataShards (params c))).
Abbreviation m := (Z.to_nat (ParityShards (params c))).
Abbreviation sb := (Z.to_nat (ShardBytes (params c))).

Lemma zeroParity_sizes : Forall (fun s => length s = sb) (zeroParity c).
Proof using. apply Forall_replicate. apply length_replicate. Qed.

Lemma length_zeroParity : length (zeroParity c) = m.
Proof using. apply length_replicate. Qed.

(** The logical bytes determine the data shards. *)
Lemma data_of_logical fs data :
  Forall (fun s => length s = sb) data -> length data = k ->
  (length (manifest fs) <= length (concat data))%nat ->
  take (length (manifest fs)) (concat data) = manifest fs ->
  allZero (drop (length (manifest fs)) (concat data)) = true -> data = dataOf c fs.
Proof using Hp.
  intros Hsz Hl Hle Ht Hz. unfold dataOf.
  rewrite <- (sliceShards_concat data sb [] Hsz) at 1. rewrite app_nil_r, Hl. f_equal.
  rewrite <- (take_drop (length (manifest fs)) (concat data)), Ht.
  apply allZero_eq in Hz. rewrite Hz. unfold layout. f_equal. f_equal.
  rewrite length_drop, (length_concat_sized _ _ Hsz), Hl. done.
Qed.

Lemma Decode_sound L input fs :
  in_u 32 L -> Decode c L input = Ok fs ->
  len input = DataShards (params c) + ParityShards (params c) /\
  DataShards (params c) <= Z.of_nat (Fec.arrived input) /\ Forall frag_typed fs /\
  exists g, Encode c fs = Ok g /\ LogicalBytes g = L /\
    (forall i s, input !! i = Some (Some s) -> Shards g !! i = Some s).
Proof using Hp Hlaw.
  intros HL H. unfold Decode in H. pose proof Hp as [P1 P2 P3 P4 P5 P6 P7 P8].
  unfold MaxLogicalBytes, MaxShardBytes, u32 in *.
  rewrite (wrap_small 32 (par_MaxLogicalBytes _)) in H by (unfold in_u; unfold overhead in *; lia).
  go_inv H; bools.
  match goal with E : sizesMatch _ _ = true |- _ => pose proof (proj1 (sizesMatch_iff _ _) E) as Hsz end.
  match goal with E : (len input =? _) = true |- _ => apply Z.eqb_eq in E as Hlen end.
  assert (Hsz' : forall i s, input !! i = Some (Some s) -> length s = sb)
    by (intros i s Hi; apply Hsz in Hi; unfold len in Hi; lia).
  match goal with E : Fec.codec_Reconstruct _ _ = Some ?l |- _ =>
    rename l into full; rewrite (copied_input _ _ Hsz') in E; rename E into Hrec end.
  match goal with E : Fec.codec_Verify _ _ = Some _ |- _ => rename E into Hver end.
  match goal with E : gatherData _ _ _ _ = Some ?l |- _ => rename l into logical; rename E into Hgat end.
  assert (Hn : length input = (k + m)%nat) by (unfold len in Hlen; lia).
  destruct (Fec.reconstruct_keeps_law _ _ _ Hlaw sb input full ltac:(lia) Hn Hsz' Hrec)
    as (Kl & Ks & Ka).
  rewrite <- (take_drop k full) in Ks. apply Forall_app in Ks as [Ks1 Ks2].
  assert (Hd : length (take k full) = k) by (rewrite length_take; lia).
  assert (Hpar : length (drop k full) = m) by (rewrite length_drop; lia).
  rewrite <- (take_drop k full) in Hver.
  rewrite (Fec.verify_law _ _ _ Hlaw sb _ _ (zeroParity c) ltac:(lia) Hd Hpar length_zeroParity)
    in Hver; [|by apply Forall_app|apply zeroParity_sizes].
  injection Hver as Hver. match goal with E : ?b = true, Hver : _ = ?b |- _ => rewrite E in Hver end.
  apply bool_decide_eq_true in Hver.
  pose proof (length_concat_sized _ _ Ks1) as Hcl. rewrite Hd in Hcl.
  assert (HLk : (Z.to_nat L <= k * sb)%nat) by (rewrite <- Z2Nat.inj_mul by lia; lia).
  rewrite gather_all in Hgat by (lia || done).
  destruct (allZero _) eqn:Hz; [|done]. injection Hgat as Hgat.
  assert (HlenL : length logical = Z.to_nat L) by (rewrite <- Hgat, length_take; lia).
  pose proof (proj1 HL) as HL0. apply (parseManifest_iff c Hp) in H; [|unfold len; rewrite HlenL; lia].
  destruct H as (T & Hman & Hsize). split; [done|]. split; [lia|]. split; [done|].
  assert (Hdata : take k full = dataOf c fs).
  { apply data_of_logical; rewrite <- ?Hman, ?HlenL; try done. rewrite Hcl. done. }
  rewrite (take_drop k full), Hdata in Hver. unfold len in Hsize. rewrite HlenL in Hsize.
  unfold in_u in HL. rewrite Z2Nat.id in Hsize by lia.
  exists {| LogicalBytes := L; Shards := full |}. split; [|done]. by apply Encode_iff.
Qed.

Lemma Decode_complete g input fs :
  Forall frag_typed fs -> Encode c fs = Ok g ->
  len input = DataShards (params c) + ParityShards (params c) ->
  DataShards (params c) <= Z.of_nat (Fec.arrived input) ->
  (forall i s, input !! i = Some (Some s) -> Shards g !! i = Some s) ->
  Decode c (LogicalBytes g) input = Ok fs.
Proof using Hp Hlaw.
  intros T Henc Hlen Hk Hagree. apply (Encode_iff c Hp) in Henc as [Hsize Henc]; [|done].
  pose proof (logical_fits c Hp _ _ Hsize) as (Hfit & _ & Hg).
  destruct (dataOf_sizes c fs Hfit) as (D1 & D2 & D3).
  pose proof Hsize as (Hn & _ & HgL & HgM)%logicalSize_iff.
  pose proof Hp as [P1 P2 P3 P4 P5 P6 P7 P8].
  unfold MaxLogicalBytes, MaxShardBytes, in_u in *.
  destruct (Fec.encode_law _ _ _ Hlaw sb (dataOf c fs) (zeroParity c) ltac:(lia) D2 length_zeroParity)
    as (parity & He & Hlp & Hps).
  { apply Forall_app. split; [done|apply zeroParity_sizes]. }
  assert (Hshards : Shards g = dataOf c fs ++ parity) by congruence.
  assert (Hall : Forall (fun s => length s = sb) (Shards g))
    by (rewrite Hshards; by apply Forall_app).
  assert (Hsz : forall i s, input !! i = Some (Some s) -> length s = sb)
    by (intros i s Hi%Hagree; by eapply Forall_lookup_1 in Hall).
  unfold Decode. rewrite (proj2 (sizesMatch_iff _ _)).
  2: { intros i s Hi%Hsz. unfold len. lia. }
  unfold u32. rewrite (wrap_small 32 (par_MaxLogicalBytes _)) by (unfold in_u; unfold overhead in *; lia).
  pose proof (len_manifest fs) as Hlm. pose proof (len_nonneg (payloads fs)).
  unfold overhead, ManifestBytes, DescriptorBytes in Hlm, P6 |- *.
  change (Z.of_nat 4) with 4 in *. change (Z.of_nat 20) with 20 in *.
  rewrite Hlen, Z.eqb_refl. cbn [negb].
  replace (_ || _) with false by lia. replace (_ <? _) with false by lia.
  rewrite (copied_input _ _ Hsz).
  rewrite (Fec.reconstruct_all_law _ _ _ Hlaw sb (dataOf c fs) (zeroParity c) (Shards g) input);
    try done; [|lia|exact length_zeroParity|rewrite Hshards, length_app; unfold len in Hlen; lia|lia].
  rewrite Hshards at 1.
  rewrite (Fec.verify_law _ _ _ Hlaw sb _ _ (zeroParity c) ltac:(lia) D2 Hlp length_zeroParity);
    [|by rewrite <- Hshards|apply zeroParity_sizes].
  rewrite bool_decide_eq_true_2 by congruence. cbn [negb].
  rewrite Hshards, take_app_length' by done.
  rewrite gather_all; [|lia|done|rewrite D3, length_layout by done; unfold len in HgL; lia].
  rewrite D3. unfold layout.
  rewrite HgL. unfold len at 1 2. rewrite Nat2Z.id, take_app_length, drop_app_length, allZero_replicate.
  apply (parseManifest_iff c Hp); [lia|]. by rewrite <- HgL.
Qed.

End decode.

(** C35: A group is decoded exactly when it was encoded: [Decode] returns the fragments
    [fs] from a set of shards if and only if [Encode] makes of [fs] a group with
    that logical size whose shards agree with every supplied one, at least k being
    supplied.  So padding, parity and manifest are canonical, and losing up to m
    shards loses nothing. *)
Theorem DecodeGroup_iff_Encode c L input fs :
  params_ok (params c) ->
  Fec.Lawful (Z.to_nat (DataShards (params c))) (Z.to_nat (ParityShards (params c))) (rs c) ->
  in_u 32 L ->
  Decode c L input = Ok fs <->
  len input = DataShards (params c) + ParityShards (params c) /\
  DataShards (params c) <= Z.of_nat (Fec.arrived input) /\ Forall frag_typed fs /\
  exists g, Encode c fs = Ok g /\ LogicalBytes g = L /\
    (forall i s, input !! i = Some (Some s) -> Shards g !! i = Some s).
Proof.
  intros Hp Hlaw HL. split; [by apply Decode_sound|].
  intros (Hlen & Hk & T & g & He & <- & Hag). by apply Decode_complete.
Qed.

(** ** A concrete context *)

Definition sampleParams : Parameters :=
  {| DataShards := 2; ParityShards := 1; ShardBytes := 64; par_MaxDescriptors := 4;
     par_MaxLogicalBytes := 100; par_MaxDatagramBytes := 1000 |}.

Definition sampleCodec : Codec := {| params := sampleParams; rs := Fec.xorCodec |}.

Lemma sample_ok : params_ok (params sampleCodec).
Proof. by apply validate_iff. Qed.

Lemma sample_lawful :
  Fec.Lawful (Z.to_nat (DataShards (params sampleCodec)))
    (Z.to_nat (ParityShards (params sampleCodec))) (rs sampleCodec).
Proof. apply Fec.xorCodec_lawful. Qed.

Definition sampleFragments : list Fragment :=
  [{| DatagramID := 7; TotalBytes := 5; Offset := 2; Payload := [Byte.x61; Byte.x62; Byte.x63] |};
   {| DatagramID := 9; TotalBytes := 0; Offset := 0; Payload := [] |}].

Lemma sample_typed : Forall frag_typed sampleFragments.
Proof. repeat (constructor; [split; cbv; split; congruence|]). constructor. Qed.

Definition sampleGroup : Group :=
  match Encode sampleCodec sampleFragments with Ok g => g | Err _ => {| LogicalBytes := 0; Shards := [] |} end.

(** Shard 0 lost. *)
Definition sampleReceived : list (option bytes) := None :: (Some <$> drop 1 (Shards sampleGroup)).

Example DecodeGroup_iff_Encode_witness :
  Decode sampleCodec (LogicalBytes sampleGroup) sampleReceived = Ok sampleFragments.
Proof.
  apply (DecodeGroup_iff_Encode sampleCodec (LogicalBytes sampleGroup) sampleReceived sampleFragments
    sample_ok sample_lawful).
  - vm_compute. split; congruence.
  - split; [vm_compute; reflexivity|]. split; [vm_compute; congruence|]. split; [apply sample_typed|].
    exists sampleGroup. split; [vm_compute; reflexivity|]. split; [reflexivity|].
    intros [|i] s H; [discriminate H|].
    change ((Some <$> drop 1 (Shards sampleGroup)) !! i = Some (Some s)) in H.
    rewrite list_lookup_fmap, lookup_drop in H. cbn [Nat.add] in H.
    by destruct (Shards sampleGroup !! S i); [injection H as <-|].
Defined.
