(* ===== verification/FecV2Packing.v ===== *)
(** * Packing fragments into groups

    What [FecV2.EncodePrefix] consumes, that it always makes progress, and that a
    caller that follows the contract of [Cursor] (advance the partial fragment, keep
    its identity) drains its input into groups from which the input comes back. *)

From S2P Require Import Prelude FecV2 FecV2Props.
From S2P Require Fec.

(** ** The contract of the cursor *)

Definition advanced (f : Fragment) (consumed : nat) : Fragment :=
  {| DatagramID := DatagramID f; TotalBytes := TotalBytes f;
     Offset := u32 (Offset f + Z.of_nat consumed); Payload := drop consumed (Payload f) |}.

Definition remainder (input : list Fragment) (cursor : Cursor) : list Fragment :=
  match drop (Next cursor) input with
  | f :: rest => if (0 <? Bytes cursor)%nat then advanced f (Bytes cursor) :: rest else f :: rest
  | [] => []
  end.

(** The caller's loop. *)
Fixpoint drain (fuel : nat) (c : Codec) (input : list Fragment) : result GroupError (list Group) :=
  match input, fuel with
  | [], _ => Ok []
  | _, O => Err ErrInvalid
  | _, S fuel =>
      match EncodePrefix c input with
      | Err e => Err e
      | Ok (group, cursor) =>
          match drain fuel c (remainder input cursor) with
          | Err e => Err e
          | Ok groups => Ok (group :: groups)
          end
      end
  end.

(** [g] is the piece that follows [f] in its datagram. *)
Definition continues (f g : Fragment) : bool :=
  (DatagramID f =? DatagramID g) && (TotalBytes f =? TotalBytes g)
  && (Offset g =? Offset f + len (Payload f)).

(** Join adjacent pieces of one datagram. *)
Fixpoint rejoin (fs : list Fragment) : list Fragment :=
  match fs with
  | [] => []
  | f :: rest =>
      match rejoin rest with
      | g :: more =>
          if continues f g
          then {| DatagramID := DatagramID f; TotalBytes := TotalBytes f; Offset := Offset f;
                  Payload := Payload f ++ Payload g |} :: more
          else f :: g :: more
      | [] => [f]
      end
  end.

(** The pieces a cursor stands for. *)
Inductive prefix_of (input : list Fragment) : list Fragment -> Cursor -> Prop :=
  | prefix_whole n : (n <= length input)%nat ->
      prefix_of input (take n input) {| Next := n; Bytes := 0 |}
  | prefix_split n f b : input !! n = Some f -> (0 < b < length (Payload f))%nat ->
      prefix_of input (take n input ++ [truncated f b]) {| Next := n; Bytes := b |}.

Definition spent (fs : list Fragment) : Z := overhead (len fs) + len (payloads fs).

(** Not even one more payload byte fits. *)
Definition full (c : Codec) (planned : list Fragment) (f : Fragment) : Prop :=
  len planned = par_MaxDescriptors (params c) \/
  par_MaxLogicalBytes (params c) < spent planned + Z.of_nat DescriptorBytes \/
  par_MaxLogicalBytes (params c) = spent planned + Z.of_nat DescriptorBytes /\ Payload f <> [].

Lemma payloads_app a b : payloads (a ++ b) = payloads a ++ payloads b.
Proof. unfold payloads. by rewrite fmap_app, concat_app. Qed.

Lemma spent_snoc fs f : spent (fs ++ [f]) = spent fs + Z.of_nat DescriptorBytes + len (Payload f).
Proof.
  unfold spent, overhead. rewrite payloads_app, !len_app. unfold payloads at 2.
  cbn [fmap list_fmap concat]. rewrite app_nil_r. change (len [f]) with 1. lia.
Qed.

(** The packing loop, from any intermediate state. *)
Lemma pack_spec c input : forall i planned cursor,
  len planned <= par_MaxDescriptors (params c) -> spent planned <= par_MaxLogicalBytes (params c) ->
  exists extra n b,
    pack c input i planned (spent planned) cursor
      = (planned ++ extra, if (length extra =? 0)%nat then cursor else {| Next := i + n; Bytes := b |})
    /\ prefix_of input extra {| Next := n; Bytes := b |}
    /\ len (planned ++ extra) <= par_MaxDescriptors (params c)
    /\ spent (planned ++ extra) <= par_MaxLogicalBytes (params c)
    /\ (forall f, input !! n = Some f -> b = 0%nat -> full c (planned ++ extra) f)
    /\ (b <> 0%nat -> spent (planned ++ extra) = par_MaxLogicalBytes (params c)).
Proof.
  induction input as [|f input IH]; intros i planned cursor Hn Hs; cbn [pack].
  { exists [], 0%nat, 0%nat. rewrite app_nil_r. split; [done|]. split; [by apply (prefix_whole [] 0)|].
    repeat split; try done. }
  pose proof (len_nonneg (Payload f)) as Hf.
  destruct (_ || _) eqn:Hfull.
  { exists [], 0%nat, 0%nat. rewrite app_nil_r. split; [done|].
    split; [apply (prefix_whole (f :: input) 0); cbn; lia|]. repeat split; try done.
    intros f' [= <-] _. unfold full. apply orb_true_iff in Hfull as [[H|H]%orb_true_iff|H].
    - left. lia.
    - right. left. lia.
    - apply andb_true_iff in H as [H1 H2]. right. right. split; [lia|]. intros E.
      unfold len in H2. rewrite E in H2. done. }
  apply orb_false_iff in Hfull as [[Hd Hroom]%orb_false_iff Hzero].
  set (room := par_MaxLogicalBytes (params c) - spent planned - Z.of_nat DescriptorBytes) in *.
  set (consumed := Z.min room (len (Payload f))) in *.
  assert (Hlen : len (planned ++ [truncated f (Z.to_nat consumed)])
    <= par_MaxDescriptors (params c)).
  { rewrite len_app. change (len [truncated f (Z.to_nat consumed)]) with 1. lia. }
  assert (Htr : len (Payload (truncated f (Z.to_nat consumed))) = consumed).
  { cbn [truncated Payload]. unfold len in *. rewrite length_take. lia. }
  assert (Hsp : spent (planned ++ [truncated f (Z.to_nat consumed)])
    = spent planned + Z.of_nat DescriptorBytes + consumed) by (rewrite spent_snoc; lia).
  destruct (Z.ltb_spec consumed (len (Payload f))) as [Hlt|Hge].
  - exists [truncated f (Z.to_nat consumed)], 0%nat, (Z.to_nat consumed).
    assert (0 < consumed).
    { unfold consumed in *. destruct (Z.eqb_spec room 0); cbn [andb] in Hzero; lia. }
    split; [by rewrite Nat.add_0_r|]. split.
    { apply (prefix_split _ 0 f); [done|]. unfold len in *. lia. }
    repeat split; [done|lia|lia|]. intros _. lia.
  - assert (Hall : truncated f (Z.to_nat consumed) = f).
    { destruct f as [a b d p]. unfold truncated. cbn in *. f_equal. apply take_ge.
      unfold len in *. lia. }
    rewrite Hall in *. rewrite <- Hsp.
    destruct (IH (S i) (planned ++ [f]) {| Next := S i; Bytes := 0 |}) as
      (extra & n & b & E & Hpre & H1 & H2 & H3 & H4); [done|lia|].
    exists (f :: extra), (S n), b. rewrite <- app_assoc in *. cbn [app] in *. split.
    { rewrite E. f_equal. cbn [length]. destruct (Nat.eqb_spec (length extra) 0) as [Z0|];
        cbn [Nat.eqb].
      - inversion Hpre; subst.
        + rewrite length_take in Z0. f_equal. lia.
        + rewrite length_app in Z0. cbn in Z0. lia.
      - f_equal. lia. }
    split.
    { inversion Hpre; subst.
      - apply (prefix_whole (f :: input) (S n)). cbn [length]. lia.
      - by apply (prefix_split (f :: input) (S n)). }
    repeat split; done.
Qed.

(** ** Progress, and validity of what is left *)

Section drain.
Context (c : Codec) (Hp : params_ok (params c))
  (Hlaw : Fec.Lawful (Z.to_nat (DataShards (params c))) (Z.to_nat (ParityShards (params c))) (rs c)).

(** Fragments that fit are encodable. *)
Lemma encodable fs :
  Forall frag_typed fs -> 1 <= len fs <= par_MaxDescriptors (params c) ->
  validateInput c fs 0 = None -> spent fs <= par_MaxLogicalBytes (params c) ->
  exists g, Encode c fs = Ok g.
Proof using Hp Hlaw.
  intros T Hn V Hs. unfold spent in Hs. rewrite <- len_manifest in Hs.
  assert (Hsize : logicalSize c fs = Ok (len (manifest fs))) by (apply logicalSize_iff; done).
  destruct (logical_fits c Hp _ _ Hsize) as (Hfit & _).
  destruct (dataOf_sizes c fs Hfit) as (D1 & D2 & _).
  destruct (Fec.encode_law _ _ _ Hlaw _ _ (zeroParity c) (sb_pos c Hp) D2 (length_zeroParity c))
    as (parity & He & _).
  { apply Forall_app. split; [done|apply zeroParity_sizes]. }
  exists {| LogicalBytes := len (manifest fs); Shards := dataOf c fs ++ parity |}.
  by apply Encode_iff.
Qed.

(** A chain of fragments, in the form the packing loop keeps it. *)
Lemma validateInput_cons f fs previous :
  frag_typed f -> validateInput c (f :: fs) previous = None <->
  fragment_ok c previous f /\ validateInput c fs (DatagramID f) = None.
Proof using Hp.
  intros T. cbn [validateInput]. rewrite <- validateFragment_iff by done.
  destruct (validateFragment c f previous); naive_solver.
Qed.

Lemma validateInput_take fs n : forall previous, Forall frag_typed fs ->
  validateInput c fs previous = None -> validateInput c (take n fs) previous = None.
Proof using Hp.
  revert n. induction fs as [|f fs IH]; intros [|n] previous T H; try done.
  apply Forall_cons in T as [T1 T2]. cbn [take]. rewrite validateInput_cons in H |- * by done.
  naive_solver.
Qed.

Lemma fragment_ok_mono f p q : q <= p -> fragment_ok c p f -> fragment_ok c q f.
Proof using. intros H [F1 F2 F3 F4]. split; try done. lia. Qed.

Lemma validateInput_drop fs n : forall previous,
  0 <= previous -> Forall frag_typed fs -> validateInput c fs previous = None ->
  validateInput c (drop n fs) 0 = None.
Proof using Hp.
  revert n. induction fs as [|f fs IH]; intros n previous H0 T H; [by destruct n|].
  apply Forall_cons in T as [T1 T2]. apply validateInput_cons in H as [H1 H2]; [|done].
  destruct n as [|n]; cbn [drop].
  - apply validateInput_cons; [done|]. split; [by eapply fragment_ok_mono|done].
  - apply (IH n (DatagramID f)); [destruct H1; lia|done|done].
Qed.

Lemma truncated_ok f p b : (0 < b <= length (Payload f))%nat ->
  fragment_ok c p f -> fragment_ok c p (truncated f b).
Proof using.
  intros Hb [F1 F2 F3 F4]. unfold len in F3. split; try done.
  - cbn. unfold len. rewrite length_take. lia.
  - cbn. intros E. apply (f_equal length) in E. rewrite length_take in E. cbn in E. lia.
Qed.

Lemma advanced_ok f p b : (b < length (Payload f))%nat ->
  fragment_ok c p f -> fragment_ok c p (advanced f b) /\ Offset (advanced f b) = Offset f + Z.of_nat b.
Proof using Hp.
  intros Hb [F1 F2 F3 F4]. pose proof (pk_datagram _ Hp) as Hd. unfold MaxDatagramBytes, len in *.
  assert (E : Offset (advanced f b) = Offset f + Z.of_nat b).
  { cbn. unfold u32. rewrite wrap_small; [done|]. unfold in_u. lia. }
  split; [|done]. split; try done.
  - rewrite E. cbn. unfold len. rewrite length_drop. lia.
  - cbn. intros E2. apply (f_equal length) in E2. rewrite length_drop in E2. cbn in E2. lia.
Qed.

Lemma prefix_valid input planned cursor :
  Forall frag_typed input -> validateInput c input 0 = None -> prefix_of input planned cursor ->
  Forall frag_typed planned /\ validateInput c planned 0 = None /\
  Forall frag_typed (remainder input cursor) /\ validateInput c (remainder input cursor) 0 = None.
Proof using Hp.
  intros T V [n Hn|n f b Hf Hb].
  - unfold remainder. cbn [Next Bytes].
    assert (E : match drop n input with
      | f :: rest => if (0 <? 0)%nat then advanced f 0 :: rest else f :: rest | [] => [] end
      = drop n input) by (by destruct (drop n input)).
    rewrite E. split; [by apply Forall_take|]. split; [by apply validateInput_take|].
    split; [by apply Forall_drop|by apply (validateInput_drop _ _ 0)].
  - unfold remainder. cbn [Next Bytes]. rewrite (drop_S _ f) by done.
    replace (0 <? b)%nat with true by (symmetry; apply Nat.ltb_lt; lia).
    assert (Tf : frag_typed f) by (by eapply Forall_lookup_1 in T).
    pose proof (validateInput_drop _ n 0 ltac:(lia) T V) as Vd. rewrite (drop_S _ f) in Vd by done.
    apply validateInput_cons in Vd as [Vf Vr]; [|done].
    destruct (advanced_ok f 0 b ltac:(lia) Vf) as [Va _].
    assert (Tt : frag_typed (truncated f b)) by (destruct Tf; by split).
    assert (Ta : frag_typed (advanced f b)).
    { destruct Tf. split; try done. apply wrap_range. lia. }
    split; [apply Forall_app; split; [by apply Forall_take|by constructor]|].
    split; [|split; [constructor; [done|by apply Forall_drop]|by apply validateInput_cons]].
    clear Vr Va Vf Ta. revert n Hf V. generalize 0 as p. induction input as [|g input IH];
      intros p [|n] Hf V; try done; apply Forall_cons in T as [Tg T];
      apply validateInput_cons in V as [V1 V2]; try done.
    + injection Hf as ->. cbn [take app]. apply validateInput_cons; [done|].
      split; [|done]. apply truncated_ok; [lia|done].
    + cbn [take app]. apply validateInput_cons; [done|]. split; [done|]. by apply IH.
Qed.

(** What is left joins onto what was taken. *)
Lemma rejoin_cons f rest fs :
  Forall frag_typed fs -> validateInput c fs (DatagramID f) = None -> rejoin rest = fs ->
  rejoin (f :: rest) = f :: fs.
Proof using Hp.
  intros T V <-. cbn [rejoin]. destruct (rejoin rest) as [|g more]; [done|].
  apply Forall_cons in T as [Tg _]. apply validateInput_cons in V as [V _]; [|done].
  unfold continues. replace (DatagramID f =? DatagramID g) with false by (destruct V; lia). done.
Qed.

Lemma rejoin_valid fs : forall previous,
  Forall frag_typed fs -> validateInput c fs previous = None -> rejoin fs = fs.
Proof using Hp.
  induction fs as [|f fs IH]; intros previous T V; [done|]. apply Forall_cons in T as [T1 T2].
  apply validateInput_cons in V as [_ V]; [|done]. apply rejoin_cons; [done|done|]. by eapply IH.
Qed.

Lemma rejoin_take n : forall input rest previous,
  Forall frag_typed input -> validateInput c input previous = None ->
  rejoin rest = drop n input -> rejoin (take n input ++ rest) = input.
Proof using Hp.
  induction n as [|n IH]; intros input rest previous T V Hr; [by destruct input|].
  destruct input as [|f input]; [done|]. apply Forall_cons in T as [Tf T].
  apply validateInput_cons in V as [_ V]; [|done]. cbn [take app drop] in *.
  apply rejoin_cons; [done|done|]. by eapply IH.
Qed.

Lemma rejoin_prefix input planned cursor rest :
  Forall frag_typed input -> validateInput c input 0 = None -> prefix_of input planned cursor ->
  rejoin rest = remainder input cursor -> rejoin (planned ++ rest) = input.
Proof using Hp.
  intros T V [n Hn|n f b Hf Hb] Hr; unfold remainder in Hr; cbn [Next Bytes] in Hr.
  - apply (rejoin_take _ _ _ 0); [done|done|]. rewrite Hr. by destruct (drop n input).
  - rewrite (drop_S _ f) in Hr by done.
    replace (0 <? b)%nat with true in Hr by (symmetry; apply Nat.ltb_lt; lia).
    rewrite <- app_assoc. apply (rejoin_take _ _ _ 0); [done|done|].
    rewrite (drop_S _ f) by done. cbn [app rejoin]. rewrite Hr.
    assert (Vf : fragment_ok c 0 f).
    { pose proof (validateInput_drop _ n 0 ltac:(lia) T V) as Vd. rewrite (drop_S _ f) in Vd by done.
      apply validateInput_cons in Vd as [Vf _]; [done|]. by eapply Forall_lookup_1 in T. }
    assert (continues (truncated f b) (advanced f b) = true) as ->.
    { unfold continues. destruct (advanced_ok f 0 b ltac:(lia) Vf) as [_ ->]. cbn.
      unfold len. rewrite length_take, Nat.min_l by lia. lia. }
    f_equal. cbn [Payload TotalBytes Offset truncated advanced]. rewrite take_drop. by destruct f.
Qed.

(** The work left: fragments and payload bytes. *)
Definition work (input : list Fragment) : nat := length input + length (payloads input).

Lemma payloads_drop n input : (length (payloads (drop n input)) <= length (payloads input))%nat.
Proof using.
  rewrite <- (take_drop n input) at 2. rewrite payloads_app, length_app. lia.
Qed.

Lemma work_decreases input planned cursor :
  prefix_of input planned cursor -> planned <> [] -> (work (remainder input cursor) < work input)%nat.
Proof using.
  unfold work, remainder. intros [n Hn|n f b Hf Hb] Hne; cbn [Next Bytes].
  - pose proof (payloads_drop n input). destruct n as [|n]; [done|].
    assert (E : match drop (S n) input with
      | f :: rest => if (0 <? 0)%nat then advanced f 0 :: rest else f :: rest | [] => [] end
      = drop (S n) input) by (by destruct (drop (S n) input)).
    rewrite E, length_drop. lia.
  - pose proof (payloads_drop n input) as Hd. rewrite (drop_S _ f), payloads_cons, length_app in Hd by done.
    rewrite (drop_S _ f) by done. apply lookup_lt_Some in Hf.
    replace (0 <? b)%nat with true by (symmetry; apply Nat.ltb_lt; lia).
    rewrite payloads_cons, length_app. cbn [length advanced Payload]. rewrite !length_drop. lia.
Qed.

Lemma remainder_length input cursor : (length (remainder input cursor) <= length input)%nat.
Proof using.
  unfold remainder. rewrite <- (take_drop (Next cursor) input) at 2. rewrite length_app.
  destruct (drop _ _) as [|f rest]; [cbn; lia|]. destruct (_ <? _)%nat; cbn; lia.
Qed.

(** One step: a nonempty prefix, as much of it as fits. *)
Lemma EncodePrefix_progress input :
  overhead 1 < par_MaxLogicalBytes (params c) -> input <> [] -> len input <= MaxDescriptors ->
  Forall frag_typed input -> validateInput c input 0 = None ->
  exists g cursor planned, EncodePrefix c input = Ok (g, cursor) /\ Encode c planned = Ok g /\
    planned <> [] /\ prefix_of input planned cursor /\
    (forall f, input !! Next cursor = Some f -> Bytes cursor = 0%nat -> full c planned f) /\
    (Bytes cursor <> 0%nat -> spent planned = par_MaxLogicalBytes (params c)).
Proof using Hp Hlaw.
  intros Hroom Hne Hlen T V. unfold EncodePrefix. pose proof Hp as [_ _ _ _ P5 P6 _ _].
  destruct (pack_spec c input 0 [] zeroCursor) as (planned & n & b & E & Hpre & H1 & H2 & H3 & H4);
    [unfold len; cbn [length]; lia|change (spent []) with 4; change (overhead 1) with 24 in P6; lia|].
  cbn [app] in *. change (spent []) with (Z.of_nat ManifestBytes) in E.
  assert (Hin : 1 <= len input).
  { destruct input; [done|]. unfold len. cbn [length]. lia. }
  replace (_ || _) with false by lia. rewrite V, E.
  assert (Hpl : planned <> []).
  { intros ->. destruct input as [|f input]; [done|]. inversion Hpre; subst.
    - destruct n; [|done]. specialize (H3 f eq_refl eq_refl). unfold full, spent in H3.
      change (len (payloads [])) with 0 in H3. change (overhead (len [])) with 4 in H3.
      change (len []) with 0 in H3. change (overhead 1) with 24 in *.
      change (Z.of_nat DescriptorBytes) with 20 in H3. lia.
    - by destruct (take n (f :: input)). }
  assert (Hpl1 : 1 <= len planned) by (destruct planned; [done|]; unfold len; cbn [length]; lia).
  replace (_ =? _) with false by lia.
  replace (length planned =? 0)%nat with false by (unfold len in *; symmetry; apply Nat.eqb_neq; lia).
  destruct (prefix_valid _ _ _ T V Hpre) as (Tp & Vp & _).
  destruct (encodable planned) as [g Hg]; [done|lia|done|done|].
  exists g, {| Next := n; Bytes := b |}, planned. cbn [Nat.add]. rewrite Hg. done.
Qed.

(** [group] decodes to [fs], whichever k shards arrive. *)
Definition carries (group : Group) (fs : list Fragment) : Prop :=
  forall received : list (option bytes),
    len received = DataShards (params c) + ParityShards (params c) ->
    DataShards (params c) <= Z.of_nat (Fec.arrived received) ->
    (forall i s, received !! i = Some (Some s) -> Shards group !! i = Some s) ->
    Decode c (LogicalBytes group) received = Ok fs.

Lemma drain_ok fuel : forall input,
  overhead 1 < par_MaxLogicalBytes (params c) -> len input <= MaxDescriptors ->
  Forall frag_typed input -> validateInput c input 0 = None -> (work input <= fuel)%nat ->
  exists groups pieces, drain fuel c input = Ok groups /\
    Forall2 carries groups pieces /\ rejoin (concat pieces) = input.
Proof using Hp Hlaw.
  induction fuel as [|fuel IH]; intros input Hroom Hlen T V Hw.
  { destruct input; [|unfold work in Hw; cbn in Hw; lia]. by exists [], []. }
  destruct (decide (input = [])) as [->|Hne]; [by exists [], []|].
  destruct (EncodePrefix_progress input Hroom Hne Hlen T V)
    as (g & cursor & planned & E & Hg & Hpl & Hpre & _).
  destruct (prefix_valid _ _ _ T V Hpre) as (Tp & _ & Tr & Vr).
  pose proof (work_decreases _ _ _ Hpre Hpl). pose proof (remainder_length input cursor).
  destruct (IH (remainder input cursor)) as (groups & pieces & D & Hc & Hj);
    [done|unfold len in *; lia|done|done|lia|].
  exists (g :: groups), (planned :: pieces). split.
  { cbn [drain]. destruct input; [done|]. by rewrite E, D. }
  split; [|by eapply rejoin_prefix].
  constructor; [|done]. intros received R1 R2 R3. by eapply Decode_complete.
Qed.
End drain.

(** C36: Packing terminates and loses nothing: the loop that repeats [EncodePrefix] on
    what the cursor left, given at most [MaxDescriptors] valid fragments and a
    context with room for one payload byte, ends without error within as many
    steps as there are fragments and bytes, and any k shards of each group decode
    to pieces that join, in order, to the input. *)
Theorem packing_drains c input :
  params_ok (params c) ->
  Fec.Lawful (Z.to_nat (DataShards (params c))) (Z.to_nat (ParityShards (params c))) (rs c) ->
  overhead 1 < par_MaxLogicalBytes (params c) ->
  len input <= MaxDescriptors -> Forall frag_typed input -> validateInput c input 0 = None ->
  exists groups pieces,
    drain (length input + length (payloads input)) c input = Ok groups /\
    Forall2 (carries c) groups pieces /\ rejoin (concat pieces) = input.
Proof. intros Hp Hlaw Hroom Hlen T V. by apply drain_ok. Qed.

(** The sample context takes its three payload bytes in one group; a longer datagram
    in several. *)
Definition longFragments : list Fragment :=
  [{| DatagramID := 3; TotalBytes := 200; Offset := 0; Payload := replicate 200 Byte.x61 |};
   {| DatagramID := 9; TotalBytes := 0; Offset := 0; Payload := [] |}].

Example packing_drains_witness :
  exists groups pieces,
    drain (length longFragments + length (payloads longFragments)) sampleCodec longFragments
      = Ok groups /\
    Forall2 (carries sampleCodec) groups pieces /\ rejoin (concat pieces) = longFragments.
Proof.
  apply (packing_drains sampleCodec longFragments sample_ok sample_lawful).
  - reflexivity.
  - vm_compute. congruence.
  - repeat (constructor; [split; cbv; split; congruence|]). constructor.
  - vm_compute. reflexivity.
Defined.

Example packing_takes_three_groups :
  length <$> (match drain 300 sampleCodec longFragments with Ok gs => Some gs | Err _ => None end)
  = Some 3%nat.
Proof. vm_compute. reflexivity. Qed.
