(* ===== verification/CreditScope.v ===== *)
(** * What the credit ledger promises its clients

    The receive and send queues hold a Session of the ledger and its leases.  They are
    written and verified against the interface [Ledger] with its laws; the ledger of
    [Credit] implements both. *)

From S2P Require Import Prelude.
From S2P Require Credit CreditProps.

Abbreviation Ptr := Credit.Ptr.
Abbreviation CreditError := Credit.CreditError.

(** ** The interface *)

Class Ledger := {
  World : Type;
  Snapshot : option Ptr -> World -> Credit.SessionSnapshot;
  Reserve : option Ptr -> Credit.Claim -> World -> result CreditError Ptr * World;
  BindBytes : option Ptr -> option Ptr -> Z -> World -> result CreditError Ptr * World;
  ShrinkBytes : option Ptr -> Z -> World -> option CreditError * World;
  Release : option Ptr -> World -> World }.

Definition bytesOnly (n : Z) : Credit.Claim :=
  {| Credit.Claim_Bytes := n; Credit.BusinessStream := false; Credit.PendingAccept := false |}.

(** Whether work may be accepted on a Session. *)
Definition scopeClosed `{Ledger} (s : option Ptr) (w : World) : bool :=
  Credit.session_Closed (Snapshot s w).

(** The laws speak of the live leases and the bytes each one is charged. *)
Class LedgerLaws (L : Ledger) := {
  live : World -> gmap Ptr Z;
  law_Reserve_ok : forall s c w l w', Reserve s c w = (Ok l, w') ->
    live w !! l = None /\ live w' = <[l := Credit.Claim_Bytes c]> (live w);
  law_Reserve_err : forall s c w e w', Reserve s c w = (Err e, w') -> w' = w;
  law_Release : forall l w, live (Release (Some l) w) = delete l (live w);
  law_Release_nil : forall w, Release None w = w;
  law_Bind_ok : forall s l n w l' w', BindBytes s l n w = (Ok l', w') ->
    l = Some l' /\ live w' = live w /\ exists b, live w !! l' = Some b /\ n <= b;
  law_Bind_err : forall s l n w e w', BindBytes s l n w = (Err e, w') -> w' = w;
  law_Shrink : forall l n b w, live w !! l = Some b -> n <= b ->
    exists w', ShrinkBytes (Some l) n w = (None, w') /\ live w' = <[l := n]> (live w);
  law_closed_Reserve : forall s s' c w,
    scopeClosed s (snd (Reserve s' c w)) = scopeClosed s w;
  law_closed_Release : forall s l w, scopeClosed s (Release l w) = scopeClosed s w;
  law_closed_Shrink : forall s l n w, scopeClosed s (snd (ShrinkBytes l n w)) = scopeClosed s w }.

(** ** The ledger implements it *)

#[export] Instance creditLedger : Ledger := {|
  World := Credit.heap;
  Snapshot := Credit.Session_Snapshot;
  Reserve := Credit.Reserve;
  BindBytes := Credit.BindBytes;
  ShrinkBytes := Credit.ShrinkBytes;
  Release := Credit.Release |}.

Definition charge (ls : Credit.leaseState) : option Z :=
  if Credit.released ls then None else Some (Credit.Claim_Bytes (Credit.claim ls)).

Definition liveLeases (h : Credit.heap) : gmap Ptr Z := omap charge (Credit.leases h).

Lemma liveLeases_lookup h l :
  liveLeases h !! l = match Credit.leases h !! l with Some ls => charge ls | None => None end.
Proof. unfold liveLeases. rewrite lookup_omap. by destruct (Credit.leases h !! l). Qed.

Lemma liveLeases_insert h h' l ls b :
  Credit.leases h' = <[l := ls]> (Credit.leases h) -> charge ls = Some b ->
  liveLeases h' = <[l := b]> (liveLeases h).
Proof. intros E C. unfold liveLeases. rewrite E. by apply omap_insert_Some. Qed.

Lemma liveLeases_delete h h' l ls :
  Credit.leases h' = <[l := ls]> (Credit.leases h) -> charge ls = None ->
  liveLeases h' = delete l (liveLeases h).
Proof. intros E C. unfold liveLeases. rewrite E. by apply omap_insert_None. Qed.

Lemma retire_closed p s h x :
  Credit.closed (Credit.session (Credit.retireLocked p s h) x) = Credit.closed (Credit.session h x).
Proof.
  unfold Credit.retireLocked. destruct (_ || _ || _); [done|].
  unfold Credit.session, Credit.setPeer, Credit.setSession. cbn [Credit.sessions].
  destruct (decide (x = s)) as [->|]; [by rewrite lookup_total_insert_eq|].
  by rewrite lookup_total_insert_ne.
Qed.

Lemma on_session_closed f s h x :
  Credit.closed (Credit.session (Credit.on_session_usage f s h) x) = Credit.closed (Credit.session h x).
Proof.
  unfold Credit.on_session_usage, Credit.session, Credit.setSession. cbn [Credit.sessions].
  destruct (decide (x = s)) as [->|]; [by rewrite lookup_total_insert_eq|].
  by rewrite lookup_total_insert_ne.
Qed.

Lemma Release_live l h : liveLeases (Credit.Release (Some l) h) = delete l (liveLeases h).
Proof.
  unfold Credit.Release. destruct (Credit.released (Credit.lease h l)) eqn:R.
  - rewrite delete_id; [done|]. rewrite liveLeases_lookup. unfold Credit.lease in R.
    rewrite lookup_total_alt in R. destruct (Credit.leases h !! l); [|done].
    cbn in R. unfold charge. by rewrite R.
  - eapply liveLeases_delete; [rewrite CreditProps.retireLocked_leases; reflexivity|reflexivity].
Qed.

Lemma Shrink_live l n b h :
  liveLeases h !! l = Some b -> n <= b ->
  exists h', Credit.ShrinkBytes (Some l) n h = (None, h') /\ liveLeases h' = <[l := n]> (liveLeases h).
Proof.
  rewrite liveLeases_lookup. intros Hl Hn. destruct (Credit.leases h !! l) as [ls|] eqn:E; [|done].
  unfold charge in Hl. destruct (Credit.released ls) eqn:R; [done|]. injection Hl as Hl.
  cbn [Credit.ShrinkBytes]. unfold Credit.lease. rewrite (lookup_total_correct _ _ _ E), R.
  replace (_ <? n) with false by lia. eexists. split; [reflexivity|].
  eapply liveLeases_insert; [reflexivity|]. unfold charge. cbn. by rewrite R.
Qed.

#[export] Instance creditLaws : LedgerLaws creditLedger.
Proof.
  refine {| live := liveLeases : @World creditLedger -> _ |}.
  - intros s c h l h' E. cbn in E. unfold Credit.Reserve in E.
    destruct s as [s|]; [|done]. repeat case_match; simplify_eq. unfold Credit.newLease in *. simplify_eq.
    split; [|by eapply liveLeases_insert].
    rewrite liveLeases_lookup. unfold Credit.alloc.
    by rewrite (not_elem_of_dom_1 _ _ (is_fresh (dom (Credit.leases h)))).
  - intros s c h e h' E. cbn in E. unfold Credit.Reserve in E.
    destruct s as [s|]; [|by simplify_eq]. by repeat case_match; simplify_eq.
  - apply Release_live.
  - done.
  - intros s l n h l' h' E. cbn in E. unfold Credit.BindBytes in E.
    destruct s as [s|], l as [l|]; try done.
    repeat (case_match; [done|]). simplify_eq. split; [done|]. unfold Credit.lease.
    destruct (Credit.leases h !! l') as [ls|] eqn:El.
    + unfold Credit.lease in *. rewrite (lookup_total_correct _ _ _ El) in *.
      bools. assert (Hlive : liveLeases h !! l' = Some (Credit.Claim_Bytes (Credit.claim ls))).
      { rewrite liveLeases_lookup, El. unfold charge.
        by match goal with R : Credit.released ls = _ |- _ => rewrite R end. }
      split; [|exists (Credit.Claim_Bytes (Credit.claim ls)); split; [done|lia]].
      etransitivity; [eapply liveLeases_insert; [reflexivity|]|by apply insert_id].
      done.
    + exfalso. unfold Credit.lease in *. rewrite (lookup_total_alt (Credit.leases h)), El in *. by bools.
  - intros s l n h e h' E. cbn in E. unfold Credit.BindBytes in E.
    destruct s as [s|], l as [l|]; try by simplify_eq. by repeat case_match; simplify_eq.
  - apply Shrink_live.
  - intros s s' c h. destruct s as [s|]; [|done].
    unfold scopeClosed. cbn. unfold Credit.Reserve, Credit.newLease, Credit.chargeLocked.
    destruct s' as [s'|]; [|done]. repeat case_match; simplify_eq; try done.
    cbn [snd]. by rewrite on_session_closed.
  - intros s l h. destruct s as [s|]; [|done]. unfold scopeClosed. cbn. unfold Credit.Release.
    destruct l as [l|]; [|done]. case_match; [done|]. rewrite retire_closed. cbn.
    change (Credit.closed (Credit.session (Credit.on_session_usage
      (fun u => Credit.subtractClaim u (Credit.claim (Credit.lease h l)))
      (Credit.ownerOf (Credit.lease h l)) h) s) = Credit.closed (Credit.session h s)).
    apply on_session_closed.
  - intros s l n h. destruct s as [s|]; [|done]. unfold scopeClosed. cbn.
    unfold Credit.ShrinkBytes. destruct l as [l|]; [|done]. repeat case_match; try done. cbn [snd].
    exact (on_session_closed (Credit.dropBytes _) _ (Credit.setLease l _ h) s).
Qed.
