(* ===== verification/Reassembly.v ===== *)
(** * Datagram reassembly of version 2 ([internal/reassemblyv2])

    A [Receiver] admits the fragments of decoded groups into assemblies charged to a
    credit Session, and returns the Datagrams they complete.  The assemblies are
    linked by identifier in admission order; pointers to an assembly are the keys of
    [pending], read when the source dereferences them.  Calls are serialised by the
    owner, so each is one function.  A nil Receiver answers as [zeroReceiver] does.
    Times are nanoseconds; [Sub] saturates as [time.Time.Sub]. *)

From S2P Require Import Prelude CreditScope.
From S2P Require Credit FecV2 RecvWindow.

(** ** Data *)

Inductive ReceiverError := ErrInvalid | ErrClosed | CreditErr (e : CreditError).
#[global] Instance ReceiverError_eq_dec : EqDecision ReceiverError.
Proof. solve_decision. Defined.

Record Limits := {
  MaxDatagrams : Z;
  lim_MaxDatagramBytes : Z;
  MaxFragments : Z;
  Span : Z;
  Timeout : Z }.

Record interval := { start : Z; stop : Z }.
#[global] Instance interval_eq_dec : EqDecision interval.
Proof. solve_decision. Defined.

(** Sizes of a [uint64] pair and of an [interval]. *)
Definition deadlineLinkBytes : Z := 2 * 8.
Definition intervalBytes : Z := 8.

Record assembly := {
  total : Z;
  admitted : Z;
  data : bytes;
  ranges : list interval;
  received : Z;
  lease : option Ptr;
  previous : Z;
  next : Z }.

#[global] Instance assembly_inhabited : Inhabited assembly :=
  populate {| total := 0; admitted := 0; data := []; ranges := []; received := 0;
              lease := None; previous := 0; next := 0 |}.

Record Receiver := {
  scope : option Ptr;
  limits : Limits;
  window : RecvWindow.Window;
  windowLease : option Ptr;
  pending : gmap Z assembly;
  head : Z;
  tail : Z;
  last : Z;
  haveTime : bool;
  closed : bool }.

Definition zeroReceiver : Receiver := {|
  scope := None;
  limits := {| MaxDatagrams := 0; lim_MaxDatagramBytes := 0; MaxFragments := 0; Span := 0;
               Timeout := 0 |};
  window := RecvWindow.zeroWindow; windowLease := None; pending := ∅; head := 0; tail := 0;
  last := 0; haveTime := false; closed := false |}.

(** The shared state of a returned Datagram. *)
Record Datagram := { id : Z; Data : bytes; dataLease : option Ptr }.

(** Field updates. *)
Definition with_links (p n : Z) (a : assembly) : assembly := {|
  total := total a; admitted := admitted a; data := data a; ranges := ranges a;
  received := received a; lease := lease a; previous := p; next := n |}.
Definition with_bytes (d : bytes) (rs : list interval) (n : Z) (a : assembly) : assembly := {|
  total := total a; admitted := admitted a; data := d; ranges := rs; received := n;
  lease := lease a; previous := previous a; next := next a |}.
Definition with_pending (m : gmap Z assembly) (h t : Z) (r : Receiver) : Receiver := {|
  scope := scope r; limits := limits r; window := window r; windowLease := windowLease r;
  pending := m; head := h; tail := t; last := last r; haveTime := haveTime r; closed := closed r |}.
Definition with_window (w : RecvWindow.Window) (r : Receiver) : Receiver := {|
  scope := scope r; limits := limits r; window := w; windowLease := windowLease r;
  pending := pending r; head := head r; tail := tail r; last := last r; haveTime := haveTime r;
  closed := closed r |}.
Definition with_time (now : Z) (r : Receiver) : Receiver := {|
  scope := scope r; limits := limits r; window := window r; windowLease := windowLease r;
  pending := pending r; head := head r; tail := tail r; last := now; haveTime := true;
  closed := closed r |}.
Definition with_closed (lease : option Ptr) (r : Receiver) : Receiver := {|
  scope := scope r; limits := limits r; window := window r; windowLease := lease;
  pending := pending r; head := head r; tail := tail r; last := last r; haveTime := haveTime r;
  closed := true |}.

(** ** Creation *)

Definition RequiredInitialBytes (lim : Limits) : result ReceiverError Z :=
  fail (MaxDatagrams lim <? 1) || (65536 <? MaxDatagrams lim) || (lim_MaxDatagramBytes lim <? 1)
       || (FecV2.MaxDatagramBytes <? lim_MaxDatagramBytes lim) || (MaxFragments lim <? 1)
       || (4096 <? MaxFragments lim) || (Span lim <? 1) || (RecvWindow.MaxSpan <? Span lim)
       || (Span lim <? MaxDatagrams lim) || (Timeout lim <? 100 * 10 ^ 6)
       || (60 * 10 ^ 9 <? Timeout lim) with ErrInvalid in
  Ok (u32 (Span lim + 63) / 64 * 16).

Definition newReceiver (s : option Ptr) (lim : Limits) (w : RecvWindow.Window) (l : Ptr) : Receiver := {|
  scope := s; limits := lim; window := w; windowLease := Some l; pending := ∅; head := 0;
  tail := 0; last := 0; haveTime := false; closed := false |}.

Section operations.
Context `{Ledger}.

(** The value of [recvwindow.New] is used even on its error, which is a nil window. *)
Definition NewPrepaid (s : option Ptr) (lim : Limits) (prepaid : option Ptr) (w : World)
    : result ReceiverError Receiver * World :=
  match RequiredInitialBytes lim with
  | Err e => (Err e, w)
  | Ok n =>
      let state := Snapshot s w in
      if Credit.session_Closed state || Credit.PendingHandshake state then (Err ErrInvalid, w) else
      match BindBytes s prepaid n w with
      | (Err e, w) => (Err (CreditErr e), w)
      | (Ok l, w) =>
          let window := match RecvWindow.New (Span lim) with
                        | Ok x => x | Err _ => RecvWindow.zeroWindow end in
          (Ok (newReceiver s lim window l), w)
      end
  end.

Definition New (s : option Ptr) (lim : Limits) (w : World) : result ReceiverError Receiver * World :=
  match RequiredInitialBytes lim with
  | Err e => (Err e, w)
  | Ok n =>
      let state := Snapshot s w in
      if Credit.session_Closed state || Credit.PendingHandshake state then (Err ErrInvalid, w) else
      match Reserve s (bytesOnly n) w with
      | (Err e, w) => (Err (CreditErr e), w)
      | (Ok l, w) =>
          match NewPrepaid s lim (Some l) w with
          | (Err e, w) => (Err e, Release (Some l) w)
          | (Ok r, w) => (Ok r, w)
          end
      end
  end.

(** ** Checks *)

Definition checkTime (r : Receiver) (now : Z) : option ReceiverError :=
  if (RecvWindow.span (window r) =? 0) || closed r then Some ErrClosed else
  if haveTime r && (now <? last r) then Some ErrInvalid else None.

Fixpoint validateFrom (lim : Limits) (fs : list FecV2.Fragment) (prev : Z) : option ReceiverError :=
  match fs with
  | [] => None
  | f :: rest =>
      if (FecV2.DatagramID f =? 0) || (FecV2.DatagramID f <=? prev)
         || (u32 (lim_MaxDatagramBytes lim) <? FecV2.TotalBytes f)
         || (FecV2.TotalBytes f <? FecV2.Offset f)
         || (u32 (FecV2.TotalBytes f - FecV2.Offset f) <? len (FecV2.Payload f))
         || ((len (FecV2.Payload f) =? 0) && negb (FecV2.TotalBytes f =? 0))
      then Some ErrInvalid else validateFrom lim rest (FecV2.DatagramID f)
  end.

Definition validate (r : Receiver) (fs : list FecV2.Fragment) : option ReceiverError :=
  if (len fs <? 1) || (FecV2.MaxDescriptors <? len fs) then Some ErrInvalid
  else validateFrom (limits r) fs 0.

(** [time.Time.Sub]: the difference, saturated to an int64. *)
Definition Sub (t u : Z) : Z := Z.max (- 2 ^ 63) (Z.min (2 ^ 63 - 1) (t - u)).

Definition due (r : Receiver) (a : assembly) (now : Z) : bool :=
  Timeout (limits r) <=? Sub now (admitted a).

(** ** Where a fragment goes *)

(** The loop of [slices.BinarySearchFunc]; [below] is [cmp(x, target) < 0]. *)
Fixpoint bsearch (fuel : nat) (below : interval -> bool) (x : list interval) (i j : nat) : nat :=
  match fuel with
  | O => i
  | S fuel =>
      if (i <? j)%nat then
        let h := ((i + j) / 2)%nat in
        match x !! h with
        | Some v => if below v then bsearch fuel below x (S h) j else bsearch fuel below x i h
        | None => i
        end
      else i
  end.

Definition search (x : list interval) (offset : Z) : nat * bool :=
  let i := bsearch (length x) (fun v => start v <? offset) x 0 (length x) in
  (i, match x !! i with Some v => start v =? offset | None => false end).

Definition inspect (a : assembly) (f : FecV2.Fragment) : result ReceiverError (nat * bool) :=
  let offset := FecV2.Offset f in
  let fin := u32 (offset + u32 (len (FecV2.Payload f))) in
  let '(at_, found) := search (ranges a) offset in
  if found && (stop (default {| start := 0; stop := 0 |} (ranges a !! at_)) =? fin) then
    if negb (bool_decide (slice (Z.to_nat offset) (Z.to_nat fin) (data a) = FecV2.Payload f))
    then Err ErrInvalid else Ok (at_, true)
  else if match at_ with
          | O => false
          | S k => offset <? stop (default {| start := 0; stop := 0 |} (ranges a !! k))
          end
          || match ranges a !! at_ with Some i => start i <? fin | None => false end
  then Err ErrInvalid else Ok (at_, false).

(** [planned]; [pl_a] is the pointer [a] of a new assembly, which no map holds yet.
    That of an existing one is [r.pending] at the fragment's identifier. *)
Record planned := {
  pl_known : bool;
  pl_a : option assembly;
  pl_new : bool;
  expire_ : bool;
  duplicate : bool;
  insert_ : nat }.

Definition zeroPlan : planned := {| pl_known := false; pl_a := None; pl_new := false;
  expire_ := false; duplicate := false; insert_ := 0 |}.

Fixpoint planFragments (r : Receiver) (now : Z) (fs : list FecV2.Fragment) (count : Z)
    : result ReceiverError (list planned * Z) :=
  match fs with
  | [] => Ok ([], count)
  | f :: rest =>
      let? ' (p, count) :=
        match pending r !! FecV2.DatagramID f with
        | Some a =>
            fail negb (total a =? FecV2.TotalBytes f) with ErrInvalid in
            if due r a now then
              Ok ({| pl_known := true; pl_a := None; pl_new := false; expire_ := true;
                     duplicate := false; insert_ := 0 |}, count - 1)
            else
              let? ' (at_, dup) := inspect a f in
              fail negb dup && (len (ranges a) =? MaxFragments (limits r))
                with CreditErr Credit.ErrResourceLimit in
              Ok ({| pl_known := true; pl_a := None; pl_new := false; expire_ := false;
                     duplicate := dup; insert_ := at_ |}, count)
        | None =>
            if negb (bool_decide (RecvWindow.State (window r) (FecV2.DatagramID f) = RecvWindow.Unseen))
            then Ok (zeroPlan, count)
            else Ok ({| pl_known := false; pl_a := None; pl_new := true; expire_ := false;
                        duplicate := false; insert_ := 0 |}, count + 1)
        end in
      let? ' (ps, count) := planFragments r now rest count in
      Ok (p :: ps, count)
  end.

(** ** Reservation *)

Definition chargeOf (lim : Limits) (f : FecV2.Fragment) : Z :=
  u64 (FecV2.TotalBytes f + MaxFragments lim * intervalBytes + deadlineLinkBytes).

(** The rollback loop. *)
Fixpoint rollback (plan : list planned) (w : World) : World :=
  match plan with
  | [] => w
  | p :: rest =>
      let w := match pl_a p with
               | Some a => if pl_new p then Release (lease a) w else w
               | None => w
               end in
      rollback rest w
  end.

(** [done_] holds the entries already processed. *)
Fixpoint reservePlan (r : Receiver) (now : Z) (fs : list FecV2.Fragment) (done_ plan : list planned)
    (w : World) : result ReceiverError (list planned) * World :=
  match fs, plan with
  | f :: fs, p :: plan =>
      if negb (pl_new p) then reservePlan r now fs (done_ ++ [p]) plan w else
      match Reserve (scope r) (bytesOnly (chargeOf (limits r) f)) w with
      | (Err e, w) => (Err (CreditErr e), rollback done_ w)
      | (Ok l, w) =>
          let a := {| total := FecV2.TotalBytes f; admitted := now; data := []; ranges := [];
                      received := 0; lease := Some l; previous := 0; next := 0 |} in
          let p := {| pl_known := false; pl_a := Some a; pl_new := true; expire_ := expire_ p;
                      duplicate := duplicate p; insert_ := insert_ p |} in
          reservePlan r now fs (done_ ++ [p]) plan w
      end
  | _, _ => (Ok done_, w)
  end.

(** [make([]byte, int(a.total))] for each new assembly. *)
Definition allocate (p : planned) : planned :=
  match pl_a p with
  | Some a =>
      if pl_new p then
        {| pl_known := pl_known p; pl_new := pl_new p; expire_ := expire_ p;
           duplicate := duplicate p; insert_ := insert_ p;
           pl_a := Some (with_bytes (replicate (Z.to_nat (total a)) Byte.x00) [] (received a) a) |}
      else p
  | None => p
  end.

(** ** The list of pending assemblies *)

(** [r.pending[i].f = v] for a link of an assembly that is pending. *)
Definition update (m : gmap Z assembly) (i : Z) (f : assembly -> assembly) : gmap Z assembly :=
  alter f i m.

Definition addPending (i : Z) (a : assembly) (r : Receiver) : Receiver :=
  let a := with_links (tail r) (next a) a in
  let '(h, m) := if tail r =? 0 then (i, pending r)
                 else (head r, update (pending r) (tail r) (fun b => with_links (previous b) i b)) in
  with_pending (<[i := a]> m) h i r.

Definition removePending (i : Z) (r : Receiver) : Receiver :=
  let a := pending r !!! i in
  let '(h, m) := if previous a =? 0 then (next a, pending r)
                 else (head r, update (pending r) (previous a)
                                 (fun b => with_links (previous b) (next a) b)) in
  let '(t, m) := if next a =? 0 then (previous a, m)
                 else (tail r, update m (next a) (fun b => with_links (previous a) (next b) b)) in
  with_pending (delete i m) h t r.

Definition expire (i : Z) (r : Receiver) (w : World) : Receiver * World :=
  let a := pending r !!! i in
  let r := with_window (snd (RecvWindow.Finish (window r) i RecvWindow.Expired)) r in
  (removePending i r, Release (lease a) w).

(** ** Committing *)

(** Copy the payload into the assembly, record its range at [k], and hand the
    Datagram over when nothing is missing. *)
Definition storeFragment (f : FecV2.Fragment) (k : nat) (r : Receiver) (w : World)
    : option Datagram * Receiver * World :=
  let i := FecV2.DatagramID f in
  let a := pending r !!! i in
  let n := u32 (len (FecV2.Payload f)) in
  let a := with_bytes (FecV2.write (Z.to_nat (FecV2.Offset f)) (FecV2.Payload f) (data a))
    (take k (ranges a)
       ++ {| start := FecV2.Offset f; stop := u32 (FecV2.Offset f + n) |} :: drop k (ranges a))
    (u32 (received a + n)) a in
  let r := with_pending (<[i := a]> (pending r)) (head r) (tail r) r in
  if negb (received a =? total a) then (None, r, w) else
  let r := with_window (snd (RecvWindow.Finish (window r) i RecvWindow.Completed)) r in
  let r := removePending i r in
  let '(_, w) := ShrinkBytes (lease a) (len (data a)) w in
  (Some {| id := i; Data := data a; dataLease := lease a |}, r, w).

(** One fragment of the committing loop. *)
Definition commitOne (f : FecV2.Fragment) (p : planned) (r : Receiver) (w : World)
    : option Datagram * Receiver * World :=
  let i := FecV2.DatagramID f in
  if expire_ p then let '(r, w) := expire i r w in (None, r, w) else
  if (negb (pl_known p) && negb (pl_new p)) || duplicate p then (None, r, w) else
  let r := match pl_a p with
           | Some a =>
               if pl_new p
               then addPending i a (with_window (snd (RecvWindow.Admit (window r) i)) r) else r
           | None => r
           end in
  storeFragment f (insert_ p) r w.

Fixpoint commit (fs : list FecV2.Fragment) (plan : list planned) (r : Receiver) (w : World)
    : list Datagram * Receiver * World :=
  match fs, plan with
  | f :: fs, p :: plan =>
      let '(d, r, w) := commitOne f p r w in
      let '(ds, r, w) := commit fs plan r w in
      (match d with Some d => d :: ds | None => ds end, r, w)
  | _, _ => ([], r, w)
  end.

Definition AddGroup (r : Receiver) (now : Z) (fs : list FecV2.Fragment) (w : World)
    : result ReceiverError (list Datagram) * Receiver * World :=
  match checkTime r now with
  | Some e => (Err e, r, w)
  | None =>
  if scopeClosed (scope r) w then (Err (CreditErr Credit.ErrClosed), r, w) else
  match validate r fs with
  | Some e => (Err e, r, w)
  | None =>
  match planFragments r now fs (Z.of_nat (size (pending r))) with
  | Err e => (Err e, r, w)
  | Ok (plan, count) =>
  if MaxDatagrams (limits r) <? count then (Err (CreditErr Credit.ErrResourceLimit), r, w) else
  match reservePlan r now fs [] plan w with
  | (Err e, w) => (Err e, r, w)
  | (Ok plan, w) =>
      let '(ds, r, w) := commit fs (allocate <$> plan) (with_time now r) w in
      (Ok ds, r, w)
  end end end end.

(** ** Expiry and close *)

(** The loop of [Expire]; each round removes one pending assembly. *)
Fixpoint expireDue (fuel : nat) (r : Receiver) (now : Z) (w : World) : list Z * Receiver * World :=
  match fuel with
  | O => ([], r, w)
  | S fuel =>
      if head r =? 0 then ([], r, w) else
      let i := head r in
      if negb (due r (pending r !!! i) now) then ([], r, w) else
      let '(r, w) := expire i r w in
      let '(ids, r, w) := expireDue fuel r now w in
      (i :: ids, r, w)
  end.

Definition Expire (r : Receiver) (now : Z) (w : World) : result ReceiverError (list Z) * Receiver * World :=
  match checkTime r now with
  | Some e => (Err e, r, w)
  | None =>
      let '(ids, r, w) := expireDue (size (pending r)) (with_time now r) now w in
      (Ok ids, r, w)
  end.

Fixpoint expireAll (fuel : nat) (r : Receiver) (w : World) : Receiver * World :=
  match fuel with
  | O => (r, w)
  | S fuel =>
      if head r =? 0 then (r, w) else
      let '(r, w) := expire (head r) r w in expireAll fuel r w
  end.

Definition Close (r : Receiver) (w : World) : Receiver * World :=
  if closed r then (r, w) else
  let l := windowLease r in
  let '(r, w) := expireAll (size (pending r)) (with_closed l r) w in
  let r := with_window (RecvWindow.Close (window r)) (with_pending ∅ (head r) (tail r) r) in
  (with_closed None r, Release l w).

(** ** Queries, and the Datagrams handed out *)

Definition State (r : Receiver) (i : Z) : RecvWindow.Status :=
  if closed r then RecvWindow.Closed else RecvWindow.State (window r) i.

(** The zero time is [None]. *)
Definition NextDeadline (r : Receiver) : option Z :=
  if closed r || (head r =? 0) then None
  else Some (admitted (pending r !!! head r) + Timeout (limits r)).

Record ReceiverSnapshot := { Pending : Z; History : RecvWindow.SnapshotT }.

Definition Receiver_Snapshot (r : Receiver) : ReceiverSnapshot :=
  {| Pending := Z.of_nat (size (pending r)); History := RecvWindow.Snapshot (window r) |}.

Definition Datagram_ID (d : option Datagram) : Z := match d with Some d => id d | None => 0 end.
Definition Datagram_Payload (d : option Datagram) : bytes :=
  match d with Some d => Data d | None => [] end.
Definition Datagram_Release (d : option Datagram) (w : World) : option Datagram * World :=
  match d with
  | None => (None, w)
  | Some d => (Some {| id := id d; Data := []; dataLease := None |}, Release (dataLease d) w)
  end.
End operations.
