(* ===== verification/ReassemblyList.v ===== *)
(** * The list of pending assemblies

    [addPending] and [removePending] keep the assemblies of [Reassembly] on a doubly
    linked list in admission order.  [linked] relates it to the list of identifiers;
    [bare] forgets the links, so that the rest of the development sees a map. *)

From S2P Require Import Prelude Reassembly.

(** ** List segments *)

(** The assemblies [ids] from predecessor [p] to successor [q]. *)
Fixpoint dseg (m : gmap Z assembly) (p : Z) (ids : list Z) (q : Z) : Prop :=
  match ids with
  | [] => True
  | i :: rest =>
      (exists a, m !! i = Some a /\ previous a = p /\ next a = hd q rest) /\ dseg m i rest q
  end.

(** The last element, [p] for the empty segment. *)
Definition final (p : Z) (ids : list Z) : Z := List.last ids p.

Lemma final_nil p : final p [] = p.
Proof. done. Qed.

Lemma final_snoc p ids i : final p (ids ++ [i]) = i.
Proof. apply List.last_last. Qed.

Lemma final_cons p i ids : final p (i :: ids) = final i ids.
Proof.
  destruct ids as [|j ids _] using rev_ind; [done|]. rewrite app_comm_cons. by rewrite !final_snoc.
Qed.

Lemma dseg_app m xs ys : forall p q,
  dseg m p (xs ++ ys) q <-> dseg m p xs (hd q ys) /\ dseg m (final p xs) ys q.
Proof.
  induction xs as [|x xs IH]; intros p q; [cbn; naive_solver|].
  cbn [app dseg]. rewrite IH, final_cons.
  assert (E : hd q (xs ++ ys) = hd (hd q ys) xs) by (by destruct xs). rewrite E. naive_solver.
Qed.

Lemma dseg_frame m m' ids : forall p q,
  (forall i, i ∈ ids -> m' !! i = m !! i) -> dseg m p ids q -> dseg m' p ids q.
Proof.
  induction ids as [|i ids IH]; intros p q H D; [done|]. destruct D as [(a & Ha & D1 & D2) D].
  split; [exists a; rewrite H by set_solver; done|]. apply IH; [|done]. set_solver.
Qed.

(** ** The list of a Receiver *)

Record linked (r : Receiver) (ids : list Z) : Prop := {
  ln_seg : dseg (pending r) 0 ids 0;
  ln_head : head r = hd 0 ids;
  ln_tail : tail r = final 0 ids;
  ln_nodup : NoDup ids;
  ln_dom : forall i, i ∈ ids <-> is_Some (pending r !! i);
  ln_zero : 0 ∉ ids }.

Lemma linked_ext r r' ids :
  pending r' = pending r -> head r' = head r -> tail r' = tail r -> linked r ids -> linked r' ids.
Proof. intros E1 E2 E3 []. split; congruence || (rewrite E1; done). Qed.

Definition bare (m : gmap Z assembly) : gmap Z assembly := with_links 0 0 <$> m.

Lemma bare_lookup m i : bare m !! i = with_links 0 0 <$> m !! i.
Proof. apply lookup_fmap. Qed.

Lemma bare_insert m i a : bare (<[i := a]> m) = <[i := with_links 0 0 a]> (bare m).
Proof. apply fmap_insert. Qed.

Lemma bare_delete m i : bare (delete i m) = delete i (bare m).
Proof. apply fmap_delete. Qed.

(** Changing links only. *)
Lemma bare_update m i f :
  (forall a, with_links 0 0 (f a) = with_links 0 0 a) -> bare (update m i f) = bare m.
Proof.
  intros H. unfold update. apply map_eq. intros j. rewrite !bare_lookup.
  destruct (decide (i = j)) as [->|]; [rewrite lookup_alter_eq|by rewrite lookup_alter_ne].
  destruct (m !! j); [|done]. cbn. by rewrite H.
Qed.

Lemma update_dom m i f j : is_Some (update m i f !! j) <-> is_Some (m !! j).
Proof.
  unfold update. destruct (decide (i = j)) as [->|]; [rewrite lookup_alter_eq|by rewrite lookup_alter_ne].
  by rewrite fmap_is_Some.
Qed.

Lemma update_eq m i f a : m !! i = Some a -> update m i f !! i = Some (f a).
Proof. intros H. unfold update. by rewrite lookup_alter_eq, H. Qed.

Lemma update_ne m i f j : i <> j -> update m i f !! j = m !! j.
Proof. apply lookup_alter_ne. Qed.

Lemma linked_bare r i : (exists ids, linked r ids) -> is_Some (pending r !! i) <-> is_Some (bare (pending r) !! i).
Proof. intros _. rewrite bare_lookup. by rewrite fmap_is_Some. Qed.

Lemma linked_size r ids : linked r ids -> size (pending r) = length ids.
Proof.
  intros L. rewrite <- (size_dom (D := gset Z)). rewrite <- (size_list_to_set (C := gset Z) ids) by apply L.
  f_equal. apply set_eq. intros i. rewrite elem_of_dom, elem_of_list_to_set. symmetry. apply L.
Qed.

(** ** Adding at the end *)

Lemma addPending_linked r ids i a :
  linked r ids -> i ∉ ids -> i <> 0 -> next a = 0 -> linked (addPending i a r) (ids ++ [i]).
Proof.
  intros [Ls Lh Lt Ln Ld L0] Hi Hz Hn. unfold addPending.
  destruct ids as [|x ids _] using rev_ind.
  - cbn in Lt, Lh. rewrite Lt. cbn. split; cbn; try done.
    + split; [|done]. exists (with_links 0 (next a) a). rewrite lookup_insert_eq. done.
    + apply NoDup_singleton.
    + intros j. rewrite lookup_insert_is_Some'. pose proof (Ld j). set_solver.
    + set_solver.
  - rewrite final_snoc in Lt. rewrite Lt. replace (x =? 0) with false by (apply not_elem_of_app in L0 as [_ L0]; rewrite list_elem_of_singleton in L0; lia).
    set (m1 := update (pending r) x _). cbn.
    apply NoDup_app in Ln as (Nd & Hd & _).
    apply not_elem_of_app in Hi as [Hi Hxi]. rewrite list_elem_of_singleton in Hxi.
    apply dseg_app in Ls as [S1 [(ax & Hx & Px & Nx) _]].
    split; cbn.
    + rewrite dseg_app. split.
      * rewrite dseg_app. split.
        -- apply (dseg_frame (pending r)); [|done]. intros j Hj.
           assert (j <> x) by (intros ->; apply (Hd x Hj); set_solver).
           rewrite lookup_insert_ne by set_solver. by apply update_ne.
        -- split; [|done]. eexists. split; [rewrite lookup_insert_ne by done; by apply update_eq|].
           cbn. done.
      * rewrite final_snoc. split; [|done]. eexists. rewrite lookup_insert_eq. done.
    + rewrite Lh. by destruct ids.
    + by rewrite final_snoc.
    + apply NoDup_app. split; [apply NoDup_app; split; [done|split; [done|apply NoDup_singleton]]|].
      split; [set_solver|apply NoDup_singleton].
    + intros j. rewrite lookup_insert_is_Some'. unfold m1. rewrite update_dom. pose proof (Ld j). set_solver.
    + set_solver.
Qed.

Lemma addPending_bare r i a :
  bare (pending (addPending i a r)) = <[i := with_links 0 0 a]> (bare (pending r)).
Proof.
  unfold addPending. destruct (tail r =? 0); cbn; rewrite bare_insert; [done|].
  by rewrite bare_update.
Qed.

(** ** Removing from the middle *)

Lemma dseg_next m p xs x q q' :
  NoDup (xs ++ [x]) -> dseg m p (xs ++ [x]) q ->
  dseg (update m x (fun b => with_links (previous b) q' b)) p (xs ++ [x]) q'.
Proof.
  intros (_ & Hd & _)%NoDup_app. rewrite !dseg_app. intros [S1 [(a & Ha & Pa & Na) _]]. split.
  - apply (dseg_frame m); [|done]. intros j Hj. apply update_ne. intros <-.
    apply (Hd x Hj). by apply list_elem_of_singleton.
  - split; [|done]. eexists. split; [by apply update_eq|]. done.
Qed.

Lemma dseg_previous m p p' y ys q :
  NoDup (y :: ys) -> dseg m p (y :: ys) q ->
  dseg (update m y (fun b => with_links p' (next b) b)) p' (y :: ys) q.
Proof.
  intros [Hy _]%NoDup_cons [(a & Ha & Pa & Na) D]. split.
  - eexists. split; [by apply update_eq|]. done.
  - apply (dseg_frame m); [|done]. intros j Hj. apply update_ne. by intros <-.
Qed.

Lemma removePending_bare r i :
  bare (pending (removePending i r)) = delete i (bare (pending r)).
Proof.
  unfold removePending.
  destruct (previous _ =? 0), (next _ =? 0); cbn; by rewrite bare_delete, ?bare_update.
Qed.

Lemma removePending_linked r xs i ys :
  linked r (xs ++ i :: ys) -> linked (removePending i r) (xs ++ ys).
Proof.
  intros [Ls Lh Lt Ln Ld L0]. apply dseg_app in Ls as [S1 [(a & Ha & Pa & Na) S2]]. cbn [hd] in *.
  pose proof Ln as (N1 & Hd & [Hi N2]%NoDup_cons)%NoDup_app.
  assert (Hxi : i ∉ xs) by (intros Hx; apply (Hd i Hx); apply elem_of_cons; by left).
  assert (Hdis : forall j, j ∈ xs -> j ∉ ys)
    by (intros j Hj Hy; apply (Hd j Hj); apply elem_of_cons; by right).
  unfold removePending. rewrite (lookup_total_correct _ _ _ Ha), Pa, Na.
  set (m1 := if final 0 xs =? 0 then pending r
    else update (pending r) (final 0 xs) (fun b => with_links (previous b) (hd 0 ys) b)).
  set (m2 := if hd 0 ys =? 0 then m1
    else update m1 (hd 0 ys) (fun b => with_links (final 0 xs) (next b) b)).
  assert (Hz : forall j, j ∈ xs ++ ys -> j <> 0).
  { intros j Hj ->. apply L0. apply elem_of_app in Hj as [Hj|Hj]; apply elem_of_app; [by left|].
    right. apply elem_of_cons. by right. }
  assert (H1 : dseg m1 0 xs (hd 0 ys) /\ forall j, j ∉ xs -> m1 !! j = pending r !! j).
  { unfold m1. destruct xs as [|x xs _] using rev_ind; [done|].
    rewrite final_snoc. replace (x =? 0) with false.
    - split; [by eapply dseg_next|]. intros j Hj. apply update_ne. intros <-. apply Hj.
      apply elem_of_app. right. by apply list_elem_of_singleton.
    - assert (x <> 0); [|lia]. apply Hz. apply elem_of_app. left. apply elem_of_app. right.
      by apply list_elem_of_singleton. }
  destruct H1 as [H1 F1].
  assert (H2 : dseg m2 (final 0 xs) ys 0 /\ forall j, j ∉ ys -> m2 !! j = m1 !! j).
  { assert (S2' : dseg m1 i ys 0).
    { apply (dseg_frame (pending r)); [|done]. intros j Hj. apply F1. intros Hx. by apply (Hdis j). }
    unfold m2. destruct ys as [|y ys]; [done|]. cbn [hd]. replace (y =? 0) with false.
    - split; [by eapply dseg_previous|]. intros j Hj. apply update_ne. intros <-. apply Hj.
      apply elem_of_cons. by left.
    - assert (y <> 0); [|lia]. apply Hz. apply elem_of_app. right. apply elem_of_cons. by left. }
  destruct H2 as [H2 F2].
  assert (E : (let '(h, m) := if final 0 xs =? 0 then (hd 0 ys, pending r)
      else (head r, update (pending r) (final 0 xs) (fun b => with_links (previous b) (hd 0 ys) b)) in
    let '(t, m) := if hd 0 ys =? 0 then (final 0 xs, m)
      else (tail r, update m (hd 0 ys) (fun b => with_links (final 0 xs) (next b) b)) in
    with_pending (delete i m) h t r)
    = with_pending (delete i m2) (if final 0 xs =? 0 then hd 0 ys else head r)
        (if hd 0 ys =? 0 then final 0 xs else tail r) r).
  { unfold m2, m1. by destruct (final 0 xs =? 0), (hd 0 ys =? 0). }
  rewrite E. clear E.
  assert (Hfin : final 0 xs = 0 <-> xs = []).
  { destruct xs as [|x xs _] using rev_ind; [done|]. rewrite final_snoc. split; [|by destruct xs].
    intros ->. destruct (Hz 0); [|done]. apply elem_of_app. left. apply elem_of_app. right.
    by apply list_elem_of_singleton. }
  assert (Hhd : hd 0 ys = 0 <-> ys = []).
  { destruct ys as [|y ys]; [done|]. cbn. split; [|done]. intros ->.
    destruct (Hz 0); [|done]. apply elem_of_app. right. apply elem_of_cons. by left. }
  split; cbn.
  - apply dseg_app. split.
    + apply (dseg_frame m2); [|apply (dseg_frame m1); [|done]].
      * intros j Hj. rewrite lookup_delete_ne; [done|]. by intros <-.
      * intros j Hj. by apply F2, Hdis.
    + apply (dseg_frame m2); [|done]. intros j Hj. rewrite lookup_delete_ne; [done|]. by intros <-.
  - destruct (Z.eqb_spec (final 0 xs) 0) as [E|E].
    + by apply Hfin in E as ->.
    + rewrite Lh. destruct xs; [done|]. done.
  - destruct (Z.eqb_spec (hd 0 ys) 0) as [E|E].
    + apply Hhd in E as ->. by rewrite app_nil_r.
    + rewrite Lt. destruct ys as [|y ys _] using rev_ind; [done|].
      rewrite app_comm_cons, !app_assoc, !final_snoc. done.
  - apply NoDup_app. split; [done|]. split; [done|done].
  - intros j. rewrite lookup_delete_is_Some. specialize (Ld j).
    assert (Hm : is_Some (m2 !! j) <-> is_Some (pending r !! j)).
    { unfold m2, m1. destruct (_ =? 0), (_ =? 0); rewrite ?update_dom; done. }
    rewrite Hm, <- Ld, !elem_of_app, elem_of_cons. split; [|naive_solver].
    intros [H|H]; (split; [intros ->; contradiction|tauto]).
  - intros H. by apply (Hz 0).
Qed.

(** Contents change, links do not. *)
Lemma update_linked r ids i a b :
  linked r ids -> pending r !! i = Some a -> previous b = previous a -> next b = next a ->
  linked (with_pending (<[i := b]> (pending r)) (head r) (tail r) r) ids.
Proof.
  intros [Ls Lh Lt Ln Ld L0] Ha Hp Hn. split; cbn; try done.
  - clear -Ls Ha Hp Hn. revert Ls. generalize 0 at 1 3 as p. generalize 0 as q.
    induction ids as [|j ids IH]; intros q p D; [done|]. destruct D as [(c & Hc & D1 & D2) D].
    split; [|by apply IH]. destruct (decide (i = j)) as [->|].
    + exists b. rewrite lookup_insert_eq. split; [done|]. split; congruence.
    + exists c. by rewrite lookup_insert_ne.
  - intros j. rewrite Ld. rewrite lookup_insert_is_Some. destruct (decide (i = j)) as [->|]; [|tauto].
    split; [by left|]. intros _. by exists a.
Qed.

(** Removing a member, whatever its place. *)
Lemma removePending_member r ids i :
  linked r ids -> i ∈ ids -> exists xs ys, ids = xs ++ i :: ys /\ linked (removePending i r) (xs ++ ys).
Proof.
  intros L (xs & ys & ->)%list_elem_of_split. exists xs, ys. split; [done|].
  by apply removePending_linked.
Qed.
