(* ===== verification/ReassemblyRanges.v ===== *)
(** * Ranges of an assembly

    The received ranges of an assembly are sorted, nonempty and disjoint ([chain]).
    Binary search finds the place of a fragment, inserting it keeps the chain, and a
    chain that adds up to the whole length covers the Datagram byte for byte. *)

From S2P Require Import Prelude Reassembly.
From S2P Require Fec FecV2 FecV2Props.

(** ** Chains *)

Fixpoint chain (lo : Z) (rs : list interval) (hi : Z) : Prop :=
  match rs with
  | [] => lo <= hi
  | v :: rest => lo <= start v /\ start v < stop v /\ chain (stop v) rest hi
  end.

Definition width (v : interval) : Z := stop v - start v.
Definition covered (rs : list interval) : Z := foldr (fun v n => width v + n) 0 rs.

Lemma chain_le lo rs hi : chain lo rs hi -> lo <= hi.
Proof. revert lo. induction rs as [|v rs IH]; intros lo C; [done|]. destruct C as (? & ? & ?%IH). lia. Qed.

Lemma covered_nonneg lo rs hi : chain lo rs hi -> 0 <= covered rs <= hi - lo.
Proof.
  revert lo. induction rs as [|v rs IH]; intros lo C.
  - change (lo <= hi) in C. change (covered []) with 0. lia.
  - destruct C as (? & ? & C). apply IH in C. change (covered (v :: rs)) with (width v + covered rs).
    unfold width. lia.
Qed.

Lemma covered_app a b : covered (a ++ b) = covered a + covered b.
Proof.
  induction a as [|v a IH]; [done|]. change (width v + covered (a ++ b) = width v + covered a + covered b).
  rewrite IH. lia.
Qed.

Lemma covered_insert k v rs : covered (take k rs ++ v :: drop k rs) = covered rs + width v.
Proof.
  rewrite covered_app. change (covered (v :: drop k rs)) with (width v + covered (drop k rs)).
  rewrite <- (take_drop k rs) at 3. rewrite covered_app. lia.
Qed.

Lemma chain_bounds lo rs hi i v :
  chain lo rs hi -> rs !! i = Some v -> lo <= start v /\ start v < stop v /\ stop v <= hi.
Proof.
  revert lo i. induction rs as [|u rs IH]; intros lo i C Hi; [done|]. destruct C as (? & ? & C).
  destruct i as [|i].
  - injection Hi as ->. apply chain_le in C. lia.
  - destruct (IH _ _ C Hi) as (? & ? & ?). lia.
Qed.

(** Earlier ranges end before later ones start. *)
Lemma chain_order lo rs hi i j u v :
  chain lo rs hi -> rs !! i = Some u -> rs !! j = Some v -> (i < j)%nat -> stop u <= start v.
Proof.
  revert lo i j. induction rs as [|x rs IH]; intros lo i j C Hi Hj Hij; [done|].
  destruct C as (? & ? & C). destruct j as [|j]; [lia|]. destruct i as [|i].
  - injection Hi as ->. destruct (chain_bounds _ _ _ _ _ C Hj) as [? _]. done.
  - eapply IH; [exact C|done|done|lia].
Qed.

Lemma chain_insert k v hi : forall lo rs,
  chain lo rs hi -> (k <= length rs)%nat -> lo <= start v -> start v < stop v ->
  (forall j u, k = S j -> rs !! j = Some u -> stop u <= start v) ->
  match rs !! k with Some u => stop v <= start u | None => stop v <= hi end ->
  chain lo (take k rs ++ v :: drop k rs) hi.
Proof.
  induction k as [|k IH]; intros lo rs C Hk Hlo Hv Hprev Hnext.
  - cbn [take drop app chain]. split; [done|]. split; [done|].
    destruct rs as [|u rs]; [done|]. destruct C as (? & ? & ?). done.
  - destruct rs as [|x rs]; [cbn in Hk; lia|]. destruct C as (? & ? & C). cbn [take drop app chain].
    split; [done|]. split; [done|]. apply IH; try done.
    + cbn in Hk. lia.
    + destruct k as [|k]; [by apply (Hprev 0%nat)|].
      destruct rs as [|y rs]; [cbn in Hk; lia|].
      pose proof (chain_le _ _ _ C).
      destruct (lookup_lt_is_Some_2 (y :: rs) k) as [u Hu]; [cbn in *; lia|].
      destruct (chain_bounds _ _ _ _ _ C Hu) as (? & ? & _).
      pose proof (Hprev (S k) u eq_refl Hu). lia.
    + intros j u -> Hu. by apply (Hprev (S j)).
Qed.

(** ** Binary search *)

Lemma bsearch_spec fuel below x : forall i j,
  (i <= j <= length x)%nat -> (j - i <= fuel)%nat ->
  (forall a b u v, x !! a = Some u -> x !! b = Some v -> (a <= b)%nat -> below v = true -> below u = true) ->
  (forall a u, x !! a = Some u -> (a < i)%nat -> below u = true) ->
  (forall a u, x !! a = Some u -> (j <= a)%nat -> below u = false) ->
  let k := bsearch fuel below x i j in
  (k <= length x)%nat /\ (forall a u, x !! a = Some u -> below u = (a <? k)%nat).
Proof.
  induction fuel as [|fuel IH]; intros i j Hij Hf Hm Hl Hr; cbn [bsearch].
  - split; [lia|]. intros a u Ha. destruct (Nat.ltb_spec a i); [by eapply Hl|].
    eapply Hr; [done|lia].
  - destruct (Nat.ltb_spec i j).
    + assert (Hh : (i <= (i + j) / 2 < j)%nat).
      { split; [apply Nat.div_le_lower_bound; lia|apply Nat.Div0.div_lt_upper_bound; lia]. }
      destruct (lookup_lt_is_Some_2 x ((i + j) / 2)) as [v Hv]; [lia|]. rewrite Hv.
      destruct (below v) eqn:B; apply IH; try done; try lia.
      * intros a u Ha Hi. eapply (Hm a ((i + j) / 2)%nat); [done|done|lia|done].
      * intros a u Ha Hi. destruct (below u) eqn:Bu; [|done].
        by rewrite (Hm _ _ _ _ Hv Ha Hi Bu) in B.
    + split; [lia|]. intros a u Ha. destruct (Nat.ltb_spec a i); [by eapply Hl|].
      eapply Hr; [done|lia].
Qed.

Lemma search_spec lo rs hi offset k found :
  chain lo rs hi -> search rs offset = (k, found) ->
  (k <= length rs)%nat /\
  (forall a u, rs !! a = Some u -> (start u <? offset) = (a <? k)%nat) /\
  (found = true <-> exists u, rs !! k = Some u /\ start u = offset).
Proof.
  intros C H. unfold search in H. injection H as Hk Hf.
  destruct (bsearch_spec (length rs) (fun v => start v <? offset) rs 0 (length rs)) as [K1 K2];
    [lia|lia| | | |].
  - intros a b u v Ha Hb Hab Hv. destruct (decide (a = b)) as [->|]; [congruence|].
    pose proof (chain_order _ _ _ _ _ _ _ C Ha Hb ltac:(lia)).
    destruct (chain_bounds _ _ _ _ _ C Ha). lia.
  - intros a u Ha Hlt. lia.
  - intros a u Ha Hge. apply lookup_lt_Some in Ha. lia.
  - cbv zeta in *. rewrite Hk in *. split; [done|]. split; [done|]. rewrite <- Hf.
    destruct (rs !! k) as [u|]; [|naive_solver]. rewrite Z.eqb_eq. naive_solver.
Qed.

(** ** Bytes *)

Lemma write_inside pos d b :
  (pos + length d <= length b)%nat ->
  FecV2.write pos d b = take pos b ++ d ++ drop (pos + length d) b.
Proof.
  intros H. unfold FecV2.write. f_equal. rewrite Fec.go_copy_prefix by (rewrite length_drop; lia).
  by rewrite drop_drop.
Qed.

Lemma length_write_inside pos d b :
  (pos + length d <= length b)%nat -> length (FecV2.write pos d b) = length b.
Proof. intros H. apply FecV2Props.length_write. lia. Qed.

Lemma slice_write_same pos d b :
  (pos + length d <= length b)%nat -> slice pos (pos + length d) (FecV2.write pos d b) = d.
Proof.
  intros H. rewrite write_inside by done. rewrite slice_app_r by (rewrite length_take; lia).
  rewrite length_take, Nat.min_l by lia.
  replace (pos + length d - pos)%nat with (length d) by lia. rewrite Nat.sub_diag. apply slice_app_l.
Qed.

#[local] Transparent slice.
Lemma slice_empty {A} i (l : list A) : slice i i l = [].
Proof. unfold slice. by rewrite Nat.sub_diag. Qed.

Lemma slice_write_other pos d b i j :
  (pos + length d <= length b)%nat -> (j <= pos \/ pos + length d <= i)%nat ->
  slice i j (FecV2.write pos d b) = slice i j b.
Proof.
  intros H Hd. rewrite write_inside by done. unfold slice. destruct Hd as [Hj|Hi].
  - destruct (decide (i <= j)%nat); [|by replace (j - i)%nat with 0%nat by lia].
    rewrite drop_app_le by (rewrite length_take; lia). rewrite take_app_le
      by (rewrite length_drop, length_take; lia).
    rewrite <- (take_drop pos b) at 2. rewrite drop_app_le by (rewrite length_take; lia).
    rewrite take_app_le by (rewrite length_drop, length_take; lia). done.
  - f_equal. rewrite drop_app_ge by (rewrite length_take; lia). rewrite length_take, Nat.min_l by lia.
    rewrite drop_app_ge by lia. rewrite drop_drop. f_equal. lia.
Qed.

#[local] Opaque slice.

(** The received ranges hold the bytes of [o]. *)
Definition agrees (d : bytes) (rs : list interval) (o : bytes) : Prop :=
  forall i v, rs !! i = Some v ->
    slice (Z.to_nat (start v)) (Z.to_nat (stop v)) d = slice (Z.to_nat (start v)) (Z.to_nat (stop v)) o.

Lemma agrees_cons d v rs o : agrees d (v :: rs) o -> agrees d rs o.
Proof. intros H i. apply (H (S i)). Qed.

(** A chain that adds up to the whole length leaves no gap. *)
Lemma covered_all d o rs : forall lo hi,
  0 <= lo -> chain lo rs hi -> covered rs = hi - lo -> agrees d rs o ->
  slice (Z.to_nat lo) (Z.to_nat hi) d = slice (Z.to_nat lo) (Z.to_nat hi) o.
Proof.
  induction rs as [|v rs IH]; intros lo hi H0 C Hc A.
  - change (covered []) with 0 in Hc. replace hi with lo by lia. by rewrite !slice_empty.
  - destruct C as (H1 & H2 & C). pose proof (covered_nonneg _ _ _ C) as Hn.
    change (covered (v :: rs)) with (width v + covered rs) in Hc. unfold width in Hc.
    assert (Hlo : start v = lo) by lia.
    rewrite <- (slice_join (Z.to_nat lo) (Z.to_nat (stop v)) (Z.to_nat hi) d) by lia.
    rewrite <- (slice_join (Z.to_nat lo) (Z.to_nat (stop v)) (Z.to_nat hi) o) by lia.
    f_equal.
    + rewrite <- Hlo. by apply (A 0%nat).
    + apply IH; [lia|done|lia|by eapply agrees_cons].
Qed.
