(* ===== verification/ReassemblyProps.v ===== *)
(** * Assemblies and their invariant

    Limits, canonical fragments, the place [inspect] finds for a fragment, and what
    storing a fragment does to an assembly. *)

From S2P Require Import Prelude CreditScope Reassembly ReassemblyList ReassemblyRanges.
From S2P Require Fec FecV2 FecV2Props RecvWindow.
Import FecV2 (DatagramID, TotalBytes, Offset, Payload).
Import FecV2Props (frag_typed, ft_id, ft_total, ft_offset).

Abbreviation Fragment := FecV2.Fragment.

(** ** Limits and fragments *)

Record limits_ok (lim : Limits) : Prop := {
  lk_datagrams : 1 <= MaxDatagrams lim <= 65536;
  lk_bytes : 1 <= lim_MaxDatagramBytes lim <= 2 ^ 24;
  lk_fragments : 1 <= MaxFragments lim <= 4096;
  lk_span : 1 <= Span lim <= 65536 /\ MaxDatagrams lim <= Span lim;
  lk_timeout : 10 ^ 8 <= Timeout lim <= 60 * 10 ^ 9 }.

Lemma RequiredInitialBytes_iff lim n :
  RequiredInitialBytes lim = Ok n <-> limits_ok lim /\ n = (Span lim + 63) / 64 * 16.
Proof.
  unfold RequiredInitialBytes. change FecV2.MaxDatagramBytes with (2 ^ 24).
  change RecvWindow.MaxSpan with 65536. unfold u32. split.
  - intros H. go_inv H. bools. subst n. rewrite wrap_small by (unfold in_u; lia).
    split; [split; lia|done].
  - intros [[? ? ? [? ?] ?] ->]. replace (_ || _) with false by lia.
    rewrite wrap_small by (unfold in_u; lia). done.
Qed.

(** What [validate] accepts of one fragment. *)
Record fragment_ok (lim : Limits) (f : Fragment) : Prop := {
  fk_id : 0 < DatagramID f;
  fk_total : TotalBytes f <= lim_MaxDatagramBytes lim;
  fk_fits : 0 <= Offset f /\ Offset f + len (Payload f) <= TotalBytes f;
  fk_empty : Payload f = [] -> TotalBytes f = 0 }.

(** Strictly increasing identifiers above [prev]. *)
Fixpoint increasing (prev : Z) (fs : list Fragment) : Prop :=
  match fs with
  | [] => True
  | f :: rest => prev < DatagramID f /\ increasing (DatagramID f) rest
  end.

Lemma validateFrom_iff lim fs : forall prev,
  limits_ok lim -> 0 <= prev -> Forall frag_typed fs ->
  validateFrom lim fs prev = None <-> Forall (fragment_ok lim) fs /\ increasing prev fs.
Proof.
  induction fs as [|f fs IH]; intros prev L H0 T; [done|]. cbn [validateFrom increasing].
  apply Forall_cons in T as [[T1 T2 T3] T]. pose proof (lk_bytes _ L). unfold u32, in_u in *.
  pose proof (len_nonneg (Payload f)) as Hl. rewrite (wrap_small 32 (lim_MaxDatagramBytes lim)) by (unfold in_u; lia).
  rewrite Forall_cons. split.
  - intros H1. go_inv H1; bools. rewrite wrap_small in * by (unfold in_u; lia).
    apply IH in H1; [|done|lia|done]. split; [|split; [lia|apply H1]]. split; [|apply H1].
    split; try lia. intros E0. rewrite E0 in *. change (len []) with 0 in *.
    repeat match goal with Hx : (_ && _) = false |- _ => cbn in Hx; bools end. lia.
  - intros [[[F1 F2 F3 F4] Fs] [Hp Hi]]. rewrite wrap_small by (unfold in_u; lia).
    assert (E : (len (Payload f) =? 0) && negb (TotalBytes f =? 0) = false).
    { destruct (Z.eqb_spec (len (Payload f)) 0) as [E|E]; [|done].
      apply len_zero in E. by rewrite F4. }
    rewrite E, orb_false_r. replace (_ || _) with false by lia. apply IH; [done|lia|done|done].
Qed.

Lemma increasing_above prev fs : increasing prev fs -> forall f, f ∈ fs -> prev < DatagramID f.
Proof.
  revert prev. induction fs as [|g fs IH]; intros prev H f Hf; [by apply not_elem_of_nil in Hf|].
  destruct H as [H1 H2].
  apply elem_of_cons in Hf as [->|Hf]; [done|]. specialize (IH _ H2 _ Hf). lia.
Qed.

(** ** The invariant of an assembly

    [assembly_wf] holds of every pending one; [room_for] is what is needed to store a
    fragment, which a fresh assembly also has. *)

Record assembly_base (lim : Limits) (a : assembly) : Prop := {
  ab_total : 0 <= total a <= lim_MaxDatagramBytes lim;
  ab_data : len (data a) = total a;
  ab_chain : chain 0 (ranges a) (total a);
  ab_received : received a = covered (ranges a) }.

Record assembly_wf (lim : Limits) (a : assembly) : Prop := {
  aw_base : assembly_base lim a;
  aw_pending : received a < total a;
  aw_ranges : 1 <= len (ranges a) <= MaxFragments lim }.

(** The place [k] for the fragment [f]. *)
Record place (a : assembly) (f : Fragment) (k : nat) : Prop := {
  pc_le : (k <= length (ranges a))%nat;
  pc_prev : forall j u, k = S j -> ranges a !! j = Some u -> stop u <= Offset f;
  pc_next : forall u, ranges a !! k = Some u -> Offset f + len (Payload f) <= start u }.

Lemma payload_u32 lim f : limits_ok lim -> fragment_ok lim f ->
  u32 (len (Payload f)) = len (Payload f) /\
  u32 (Offset f + u32 (len (Payload f))) = Offset f + len (Payload f).
Proof.
  intros L [_ F2 F3 _]. pose proof (lk_bytes _ L). pose proof (len_nonneg (Payload f)).
  unfold u32. assert (E : wrap 32 (len (Payload f)) = len (Payload f)) by (apply wrap_small; unfold in_u; lia).
  rewrite E. split; [done|]. apply wrap_small. unfold in_u. lia.
Qed.

Lemma inspect_place lim a f k :
  limits_ok lim -> fragment_ok lim f -> chain 0 (ranges a) (total a) ->
  inspect a f = Ok (k, false) -> place a f k.
Proof.
  intros L F C H. destruct (payload_u32 _ _ L F) as [_ E]. unfold inspect in H. rewrite E in H.
  destruct (search (ranges a) (Offset f)) as [at_ found] eqn:S.
  destruct (search_spec _ _ _ _ _ _ C S) as (S1 & _ & _).
  destruct (found && _); [go_inv H|]. go_inv H. subst at_.
  apply orb_false_iff in E0 as [E1 E2]. split; [done| |].
  - intros j u -> Hu. rewrite Hu in E1. cbn in E1. lia.
  - intros u Hu. rewrite Hu in E2. lia.
Qed.

(** A duplicate is a range already held, with the same bytes. *)
Lemma inspect_duplicate lim a f k :
  limits_ok lim -> fragment_ok lim f -> chain 0 (ranges a) (total a) ->
  inspect a f = Ok (k, true) ->
  exists v, v ∈ ranges a /\ start v = Offset f /\ stop v = Offset f + len (Payload f) /\
    slice (Z.to_nat (start v)) (Z.to_nat (stop v)) (data a) = Payload f.
Proof.
  intros L F C H. destruct (payload_u32 _ _ L F) as [_ E]. unfold inspect in H. rewrite E in H.
  destruct (search (ranges a) (Offset f)) as [at_ found] eqn:S.
  destruct (search_spec _ _ _ _ _ _ C S) as (S1 & _ & S3).
  destruct (found && _) eqn:B; [|go_inv H]. apply andb_true_iff in B as [-> B].
  destruct (proj1 S3 eq_refl) as (v & Hv & Hs). rewrite Hv in B. cbn in B.
  go_inv H. bools. exists v. split; [by eapply list_elem_of_lookup_2|]. split; [done|].
  split; [lia|]. rewrite Hs. replace (stop v) with (Offset f + len (Payload f)) by lia. done.
Qed.

(** [a] with [f] stored at [k], as the committing loop computes it. *)
Definition stored (a : assembly) (f : Fragment) (k : nat) : assembly :=
  with_bytes (FecV2.write (Z.to_nat (Offset f)) (Payload f) (data a))
    (take k (ranges a)
      ++ {| start := Offset f; stop := u32 (Offset f + u32 (len (Payload f))) |} :: drop k (ranges a))
    (u32 (received a + u32 (len (Payload f)))) a.

Section stored.
Context (lim : Limits) (a : assembly) (f : Fragment) (k : nat).
Context (L : limits_ok lim) (F : fragment_ok lim f) (B : assembly_base lim a)
  (Ht : total a = TotalBytes f) (P : place a f k).

Abbreviation v := {| start := Offset f; stop := Offset f + len (Payload f) |}.

Lemma inside : (Z.to_nat (Offset f) + length (Payload f) <= length (data a))%nat.
Proof using F B Ht. destruct F as [_ _ F3 _], B as [_ B2 _ _]. unfold len in *. lia. Qed.

Lemma stored_ranges :
  ranges (stored a f k) = take k (ranges a) ++ v :: drop k (ranges a) /\
  len (ranges (stored a f k)) = len (ranges a) + 1.
Proof using L F.
  destruct (payload_u32 _ _ L F) as [_ E]. cbn. rewrite E. split; [done|].
  unfold len. rewrite length_app. cbn [length]. rewrite length_take, length_drop. lia.
Qed.

Lemma stored_chain : Payload f <> [] -> chain 0 (ranges (stored a f k)) (total a).
Proof using L F B Ht P.
  intros Hne. destruct stored_ranges as [-> _], F as [_ _ F3 _], B as [_ _ B3 _], P as [P1 P2 P3].
  assert (0 < len (Payload f)).
  { pose proof (len_nonneg (Payload f)). assert (len (Payload f) <> 0); [|lia]. by intros E%len_zero. }
  apply chain_insert; cbn [start stop]; try done; try lia.
  destruct (ranges a !! k) as [u|] eqn:Hu; [by apply P3|lia].
Qed.

Lemma stored_base : Payload f <> [] -> assembly_base lim (stored a f k).
Proof using L F B Ht P.
  intros Hne. pose proof (stored_chain Hne) as C. destruct stored_ranges as [R _].
  pose proof B as [B1 B2 B3 B4]. pose proof (lk_bytes _ L). split; cbn [total stored with_bytes].
  - done.
  - cbn [data stored with_bytes]. unfold len. rewrite length_write_inside by apply inside. done.
  - done.
  - destruct (payload_u32 _ _ L F) as [E _]. pose proof (covered_nonneg _ _ _ C) as Hc.
    rewrite R, covered_insert in Hc |- *. unfold width in *. cbn [start stop] in *.
    cbn [received stored with_bytes]. rewrite E, B4. unfold u32. rewrite wrap_small; [lia|].
    unfold in_u. pose proof (len_nonneg (Payload f)). pose proof (covered_nonneg _ _ _ B3). lia.
Qed.

Lemma stored_agrees o :
  agrees (data a) (ranges a) o ->
  Payload f = slice (Z.to_nat (Offset f)) (Z.to_nat (Offset f + len (Payload f))) o ->
  agrees (data (stored a f k)) (ranges (stored a f k)) o.
Proof using L F B Ht P.
  intros A Hpay i u Hi. destruct stored_ranges as [R _]. rewrite R in Hi.
  cbn [data stored with_bytes]. pose proof inside as Hin. pose proof F as [_ _ F3 _].
  destruct B as [B1 B2 B3 _], P as [P1 P2 P3].
  assert (Hend : Z.to_nat (Offset f + len (Payload f)) = (Z.to_nat (Offset f) + length (Payload f))%nat)
    by (unfold len; lia).
  assert (Hold : forall j w, ranges a !! j = Some w ->
    (stop w <= Offset f \/ Offset f + len (Payload f) <= start w) ->
    slice (Z.to_nat (start w)) (Z.to_nat (stop w)) (FecV2.write (Z.to_nat (Offset f)) (Payload f) (data a))
    = slice (Z.to_nat (start w)) (Z.to_nat (stop w)) o).
  { intros j w Hj Hd. rewrite slice_write_other; [by eapply A|done|].
    destruct (chain_bounds _ _ _ _ _ B3 Hj) as (? & ? & ?). unfold len in *. lia. }
  apply lookup_app_Some in Hi as [Hi|[_ Hi]].
  - apply lookup_take_Some in Hi as [Hi Hik]. apply (Hold i); [done|]. left.
    destruct k as [|k']; [lia|]. destruct (lookup_lt_is_Some_2 (ranges a) k') as [u' Hu']; [lia|].
    pose proof (P2 k' u' eq_refl Hu'). destruct (decide (i = k')) as [->|]; [congruence|].
    pose proof (chain_order _ _ _ _ _ _ _ B3 Hi Hu' ltac:(lia)).
    destruct (chain_bounds _ _ _ _ _ B3 Hu'). lia.
  - apply lookup_cons_Some in Hi as [[_ <-]|[_ Hi]].
    + cbn [start stop]. rewrite <- Hpay, Hend. by apply slice_write_same.
    + rewrite lookup_drop in Hi. apply (Hold _ _ Hi). right.
      set (n := (i - length (take k (ranges a)) - 1)%nat) in Hi.
      destruct (lookup_lt_is_Some_2 (ranges a) k) as [u' Hu'].
      { apply lookup_lt_Some in Hi. lia. }
      pose proof (P3 _ Hu'). destruct (decide (n = 0)%nat) as [E|];
        [rewrite E, Nat.add_0_r in Hi; congruence|].
      pose proof (chain_order _ _ _ _ _ _ _ B3 Hu' Hi ltac:(lia)).
      destruct (chain_bounds _ _ _ _ _ B3 Hu'). lia.
Qed.
End stored.
