(* ===== verification/ReassemblyInv.v ===== *)
(** * The invariant of a Receiver

    History of identifiers, ownership of leases, pending assemblies and delivered
    Datagrams, and its preservation by expiry and by each committed fragment.  What an
    assembly holds is a parameter ([content], [good]), so that one proof serves every
    statement about the bytes. *)

From Stdlib Require Import Sorted.
From S2P Require Import Prelude CreditScope Reassembly ReassemblyList ReassemblyRanges ReassemblyProps.
From S2P Require Fec FecV2 FecV2Props RecvWindow.
Import FecV2 (DatagramID, TotalBytes, Offset, Payload).
Import FecV2Props (frag_typed, ft_id, ft_total, ft_offset).

Abbreviation Hist := RecvWindow.Spec.t.

(** ** History *)

(** [i] is terminal, or below the floor, for ever. *)
Definition Gone (h : Hist) (i : Z) : Prop :=
  i <> 0 /\ ((exists st, st <> RecvWindow.Unseen /\ RecvWindow.Spec.terminal h !! i = Some st)
             \/ i < RecvWindow.Spec.floor h).

Lemma Gone_later h h' i : RecvWindow.spec_later h h' -> Gone h i -> Gone h' i.
Proof.
  intros (Hsp & Hhi & _ & Ht) [H0 [(st & Hst & Hs)|Hf]]; (split; [done|]).
  - left. exists st. auto.
  - right. unfold RecvWindow.Spec.floor in *. lia.
Qed.

Lemma Gone_state h i : Gone h i -> RecvWindow.Spec.state h i <> RecvWindow.Unseen.
Proof.
  intros [H0 H]. unfold RecvWindow.Spec.state. destruct (RecvWindow.Spec.shut h); [done|].
  replace (i =? 0) with false by lia. destruct (Z.ltb_spec i (RecvWindow.Spec.floor h)); [done|].
  destruct H as [(st & Hst & Hs)|]; [|lia]. by rewrite Hs.
Qed.

Lemma state_Gone h i :
  RecvWindow.Spec.shut h = false -> i <> 0 ->
  RecvWindow.Spec.state h i <> RecvWindow.Unseen -> Gone h i.
Proof.
  unfold RecvWindow.Spec.state. intros -> H0 H. split; [done|].
  replace (i =? 0) with false in H by lia. destruct (Z.ltb_spec i (RecvWindow.Spec.floor h)); [by right|].
  left. destruct (RecvWindow.Spec.terminal h !! i) as [st|]; [|done]. by exists st.
Qed.

(** Recording the end of an admitted identifier settles it. *)
Lemma finish_Gone h i st :
  RecvWindow.Spec.shut h = false -> 1 <= i <= RecvWindow.Spec.hi h ->
  st = RecvWindow.Completed \/ st = RecvWindow.Expired ->
  Gone (snd (RecvWindow.Spec.finish h i st)) i.
Proof.
  intros Hs Hi Hst. unfold RecvWindow.Spec.finish. rewrite Hs.
  assert (Hg : negb (bool_decide (st = RecvWindow.Completed) || bool_decide (st = RecvWindow.Expired))
    = false) by (by destruct Hst as [-> | ->]).
  rewrite Hg. replace (i =? 0) with false by lia.
  replace (RecvWindow.Spec.hi h <? i) with false by lia. cbn [orb].
  clear Hg. destruct (bool_decide (_ = RecvWindow.Retired) || _) eqn:E.
  - cbn. apply state_Gone; [done|lia|]. intros Hu. rewrite Hu in E.
    destruct Hst as [-> | ->]; vm_compute in E; done.
  - clear E. case_bool_decide as Hu; cbn.
    + split; [lia|]. left. exists st. split; [by destruct Hst as [-> | ->]|]. apply lookup_insert_eq.
    + apply state_Gone; [done|lia|done].
Qed.

Lemma finish_same h i st :
  RecvWindow.Spec.shut (snd (RecvWindow.Spec.finish h i st)) = RecvWindow.Spec.shut h /\
  RecvWindow.Spec.hi (snd (RecvWindow.Spec.finish h i st)) = RecvWindow.Spec.hi h.
Proof. unfold RecvWindow.Spec.finish. repeat case_match; done. Qed.

(** An identifier that is still unseen stays so while smaller ones change. *)
Lemma finish_unseen h i j st :
  j <> i -> RecvWindow.Spec.state h i = RecvWindow.Unseen ->
  RecvWindow.Spec.state (snd (RecvWindow.Spec.finish h j st)) i = RecvWindow.Unseen.
Proof.
  intros Hij Hu. unfold RecvWindow.Spec.finish. repeat case_match; try done. cbn.
  unfold RecvWindow.Spec.state, RecvWindow.Spec.floor in *. cbn. by rewrite lookup_insert_ne.
Qed.

Lemma admission_unseen h i j :
  j < i -> 1 <= RecvWindow.Spec.sp h -> RecvWindow.Spec.state h i = RecvWindow.Unseen ->
  RecvWindow.Spec.state (snd (RecvWindow.Spec.admission h j)) i = RecvWindow.Unseen.
Proof.
  intros Hij Hsp Hu. unfold RecvWindow.Spec.admission. cbn [snd].
  destruct (bool_decide _ && _) eqn:E; [|done]. apply andb_true_iff in E as [_ E].
  unfold RecvWindow.Spec.state, RecvWindow.Spec.floor in *. cbn.
  destruct (RecvWindow.Spec.shut h); [done|]. destruct (Z.eqb_spec i 0); [done|].
  destruct (Z.ltb_spec i (Z.max 1 (RecvWindow.Spec.hi h - RecvWindow.Spec.sp h + 1))); [done|].
  replace (i <? _) with false by lia. done.
Qed.

Lemma admission_hi h i :
  RecvWindow.Spec.state h i = RecvWindow.Unseen -> i <= RecvWindow.Spec.hi (snd (RecvWindow.Spec.admission h i)).
Proof.
  intros Hu. unfold RecvWindow.Spec.admission. rewrite Hu. cbn [snd].
  rewrite bool_decide_eq_true_2 by done. cbn [andb].
  destruct (Z.ltb_spec (RecvWindow.Spec.hi h) i); cbn; lia.
Qed.

Lemma admission_shut h i :
  RecvWindow.Spec.shut (snd (RecvWindow.Spec.admission h i)) = RecvWindow.Spec.shut h.
Proof. unfold RecvWindow.Spec.admission. cbn. by destruct (_ && _). Qed.

Lemma finish_terminal_old h i st j st' :
  RecvWindow.Spec.terminal (snd (RecvWindow.Spec.finish h i st)) !! j = Some st' ->
  RecvWindow.Spec.terminal h !! j = Some st' \/ j = i.
Proof.
  unfold RecvWindow.Spec.finish. repeat case_match; try (by left). cbn.
  intros [[-> _]|[_ ?]]%lookup_insert_Some; [by right|by left].
Qed.

Lemma admission_terminal h i :
  RecvWindow.Spec.terminal (snd (RecvWindow.Spec.admission h i)) = RecvWindow.Spec.terminal h /\
  RecvWindow.Spec.hi (snd (RecvWindow.Spec.admission h i)) <= Z.max (RecvWindow.Spec.hi h) i.
Proof. unfold RecvWindow.Spec.admission. cbn [snd]. destruct (_ && _); cbn; [split; [done|lia]|split; [done|lia]]. Qed.

Lemma admission_later h i : RecvWindow.spec_later h (snd (RecvWindow.Spec.admission h i)).
Proof.
  pose proof (RecvWindow.specStep_later h (RecvWindow.OpAdmit i)) as E. cbn in E. exact E.
Qed.

Lemma finish_later h i st : RecvWindow.spec_later h (snd (RecvWindow.Spec.finish h i st)).
Proof.
  pose proof (RecvWindow.specStep_later h (RecvWindow.OpFinish i st)) as E. cbn in E.
  by destruct (RecvWindow.Spec.finish h i st).
Qed.

Lemma window_Finish w h i st :
  RecvWindow.rel w h -> in_u 64 i ->
  RecvWindow.rel (snd (RecvWindow.Finish w i st)) (snd (RecvWindow.Spec.finish h i st)).
Proof.
  intros R Hi. destruct (RecvWindow.Finish w i st) as [b w'] eqn:E.
  by destruct (RecvWindow.Finish_spec _ _ _ _ _ _ R Hi E).
Qed.

Lemma window_Admit w h i :
  RecvWindow.rel w h -> in_u 64 i ->
  RecvWindow.rel (snd (RecvWindow.Admit w i)) (snd (RecvWindow.Spec.admission h i)).
Proof.
  intros R Hi. destruct (RecvWindow.Admit w i) as [b w'] eqn:E.
  by destruct (RecvWindow.Admit_spec _ _ _ _ _ R Hi E).
Qed.

(** ** The invariant *)

Definition chargeFor (lim : Limits) (n : Z) : Z :=
  u64 (n + MaxFragments lim * intervalBytes + deadlineLinkBytes).

(** Admissions along the list, oldest first. *)
Definition older (m : gmap Z assembly) (i j : Z) : Prop :=
  forall a b, m !! i = Some a -> m !! j = Some b -> admitted a <= admitted b.

(** Nothing of the Datagram is missing. *)
Definition finished (a : assembly) : Prop :=
  len (data a) = total a /\
  (total a = 0 \/ chain 0 (ranges a) (total a) /\ covered (ranges a) = total a).

(** What the client tracks of the bytes: [content H i a] of assembly [a] after the
    fragments [H], [good i d] of a delivered payload. *)
Class Tracks (content : list Fragment -> Z -> assembly -> Prop) (good : Z -> bytes -> Prop)
    (fed : Fragment -> Prop) : Prop := {
  tr_other : forall H f i a, content H i a -> DatagramID f <> i -> content (H ++ [f]) i a;
  tr_new : forall H f a, fed f -> total a = TotalBytes f -> ranges a = [] ->
    (forall g, g ∈ H -> DatagramID g <> DatagramID f) -> content H (DatagramID f) a;
  tr_stored : forall H f lim a k, limits_ok lim -> fragment_ok lim f -> fed f ->
    assembly_base lim a -> total a = TotalBytes f -> place a f k ->
    content H (DatagramID f) a -> content (H ++ [f]) (DatagramID f) (stored a f k);
  tr_duplicate : forall H f lim a k, limits_ok lim -> fragment_ok lim f -> fed f ->
    assembly_base lim a -> total a = TotalBytes f -> inspect a f = Ok (k, true) ->
    content H (DatagramID f) a -> content (H ++ [f]) (DatagramID f) a;
  tr_good : forall H i a, content H i a -> finished a -> good i (data a) }.

Section invariant.
Context `{L : Ledger} {LL : LedgerLaws L}.
Context {content : list Fragment -> Z -> assembly -> Prop} {good : Z -> bytes -> Prop}
  {fed : Fragment -> Prop} {TR : Tracks content good fed}.

(** Facts of every slot, and of the assembly in it. *)
Record slot_ok (r : Receiver) (h : Hist) (w : World) (log : list (Z * bytes)) (i : Z) (a : assembly)
    : Prop := {
  so_id : in_u 64 i /\ 1 <= i <= RecvWindow.Spec.hi h;
  so_log : i ∉ log.*1;
  so_lease : exists l, lease a = Some l /\ live w !! l = Some (chargeFor (limits r) (total a)) /\
    windowLease r <> Some l;
  so_time : haveTime r = true /\ admitted a <= last r }.

(** [ex] is an assembly in the middle of a change. *)
Record inv (ex : option Z) (H : list Fragment) (r : Receiver) (h : Hist) (w : World)
    (log : list (Z * bytes)) : Prop := {
  iv_limits : limits_ok (limits r);
  iv_window : RecvWindow.rel (window r) h;
  iv_closed : RecvWindow.Spec.shut h = closed r;
  iv_ids : exists ids, linked r ids /\ StronglySorted (older (bare (pending r))) ids;
  iv_slots : forall i a, bare (pending r) !! i = Some a -> slot_ok r h w log i a;
  iv_bodies : forall i a, bare (pending r) !! i = Some a -> ex <> Some i ->
    assembly_wf (limits r) a /\ content H i a;
  iv_leases : forall i j a b, bare (pending r) !! i = Some a -> bare (pending r) !! j = Some b ->
    lease a = lease b -> i = j;
  iv_windowLease : closed r = false -> exists l, windowLease r = Some l /\ is_Some (live w !! l);
  iv_nodup : NoDup log.*1;
  iv_log : forall i d, (i, d) ∈ log -> Gone h i /\ good i d;
  iv_seen : forall f, f ∈ H -> is_Some (bare (pending r) !! DatagramID f) \/ Gone h (DatagramID f);
  iv_shut : closed r = true -> pending r = ∅ }.

Lemma inv_weaken i H r h w log : inv None H r h w log -> inv (Some i) H r h w log.
Proof using. intros []. split; try done. intros j a Hj _. by apply iv_bodies0. Qed.

(** Another fragment is fed without a change. *)
Lemma inv_feed ex H f r h w log :
  inv ex H r h w log ->
  is_Some (bare (pending r) !! DatagramID f) \/ Gone h (DatagramID f) ->
  (forall a, bare (pending r) !! DatagramID f = Some a -> ex <> Some (DatagramID f) ->
     content H (DatagramID f) a -> content (H ++ [f]) (DatagramID f) a) ->
  inv ex (H ++ [f]) r h w log.
Proof using TR.
  intros [] Hf Hc. split; try done.
  - intros i a Hi Hx. destruct (iv_bodies0 i a Hi Hx) as [? Hcont]. split; [done|].
    destruct (decide (DatagramID f = i)) as [<-|]; [by apply Hc|by apply tr_other].
  - intros g [Hg|Hg]%elem_of_app; [by apply iv_seen0|].
    apply list_elem_of_singleton in Hg as ->. done.
Qed.

(** The clock advances. *)
Lemma inv_time ex H r h w log now :
  inv ex H r h w log -> (haveTime r = true -> last r <= now) ->
  inv ex H (with_time now r) h w log.
Proof using.
  intros [] Ht. split; try done.
  - destruct iv_ids0 as (ids & Hl & Hs). exists ids. split; [|done]. by eapply linked_ext; [..|exact Hl].
  - intros i a Hi. destruct (iv_slots0 i a Hi) as [S1 S2 S3 [S4 S5]].
    split; try done. split; [done|]. specialize (Ht S4). cbn. lia.
Qed.

(** The world changes outside the Receiver's leases. *)
Definition keeps (r : Receiver) (w w' : World) : Prop :=
  (forall l, windowLease r = Some l -> live w' !! l = live w !! l) /\
  (forall i a l, bare (pending r) !! i = Some a -> lease a = Some l -> live w' !! l = live w !! l).

Lemma inv_world ex H r h w w' log :
  inv ex H r h w log -> keeps r w w' -> inv ex H r h w' log.
Proof using.
  intros [] [K1 K2]. split; try done.
  - intros i a Hi. destruct (iv_slots0 i a Hi) as [S1 S2 (l & S3 & S4 & S5) S6]. split; try done.
    exists l. split; [done|]. by rewrite (K2 i a).
  - intros Hc. destruct (iv_windowLease0 Hc) as (l & Hl & Hw). exists l. split; [done|]. by rewrite K1.
Qed.

(** A finished assembly is delivered. *)
Lemma inv_deliver ex H r h w log i d :
  inv ex H r h w log -> Gone h i -> good i d -> i ∉ log.*1 -> bare (pending r) !! i = None ->
  inv ex H r h w (log ++ [(i, d)]).
Proof using.
  intros [] Hg Hd Hi Hn. split; try done.
  - intros j a Hj. destruct (iv_slots0 j a Hj) as [S1 S2 S3 S4]. split; try done.
    rewrite fmap_app, not_elem_of_app. split; [done|]. cbn. rewrite list_elem_of_singleton. congruence.
  - rewrite fmap_app. apply NoDup_app. split; [done|]. split; [|apply NoDup_singleton].
    intros j Hj. cbn. rewrite list_elem_of_singleton. by intros ->.
  - intros j e [Hj|Hj]%elem_of_app; [by apply iv_log0|].
    apply list_elem_of_singleton in Hj as [= -> ->]. done.
Qed.

Lemma older_delete m i j k : older m j k -> older (delete i m) j k.
Proof using. intros H a b [_ Ha]%lookup_delete_Some [_ Hb]%lookup_delete_Some. by apply H. Qed.

Lemma StronglySorted_impl {A} (R Q : A -> A -> Prop) l :
  (forall x y, R x y -> Q x y) -> StronglySorted R l -> StronglySorted Q l.
Proof using.
  intros H. induction 1 as [|x l Hl IH Hx]; constructor; [done|]. eapply Forall_impl; [exact Hx|]. auto.
Qed.

Lemma StronglySorted_remove {A} (R : A -> A -> Prop) xs i ys :
  StronglySorted R (xs ++ i :: ys) -> StronglySorted R (xs ++ ys).
Proof using.
  induction xs as [|x xs IH]; cbn [app]; intros S.
  - by inversion S.
  - apply StronglySorted_inv in S as [S F]. constructor; [by apply IH|].
    apply Forall_app in F as [F1 F2]. apply Forall_app. split; [done|]. by apply Forall_cons in F2 as [_ F2].
Qed.

(** An assembly leaves: expired or completed. *)
Lemma inv_remove H r h w w' log i a l st :
  inv (Some i) H r h w log -> bare (pending r) !! i = Some a -> lease a = Some l ->
  closed r = false -> st = RecvWindow.Completed \/ st = RecvWindow.Expired ->
  (forall l', l' <> l -> live w' !! l' = live w !! l') ->
  let h' := snd (RecvWindow.Spec.finish h i st) in
  inv None H (removePending i (with_window (snd (RecvWindow.Finish (window r) i st)) r)) h' w' log
  /\ Gone h' i.
Proof using.
  intros I Hi Hl Hcl Hst Hw h'. pose proof I as [].
  destruct (iv_slots0 i a Hi) as [[I1 I2] Ilog (l0 & Il & _ & Iwl) _].
  assert (l0 = l) as -> by congruence.
  assert (Hgone : Gone h' i) by (apply finish_Gone; [congruence|done|done]).
  split; [|done]. set (r1 := with_window (snd (RecvWindow.Finish (window r) i st)) r).
  assert (Hb : bare (pending (removePending i r1)) = delete i (bare (pending r)))
    by exact (removePending_bare r1 i).
  destruct iv_ids0 as (ids & Hids & Hsort).
  destruct (finish_same h i st) as [Hshut Hhi].
  assert (Hfld : limits (removePending i r1) = limits r /\ window (removePending i r1) = window r1 /\
    closed (removePending i r1) = closed r /\ windowLease (removePending i r1) = windowLease r /\
    haveTime (removePending i r1) = haveTime r /\ last (removePending i r1) = last r).
  { unfold removePending. destruct (previous _ =? 0), (next _ =? 0); done. }
  destruct Hfld as (F1 & F2 & F3 & F4 & F5 & F6).
  split; rewrite ?F1, ?F2, ?F3, ?F4, ?Hb; try done.
  - by apply window_Finish.
  - unfold h'. by rewrite Hshut.
  - assert (L1 : linked r1 ids) by (destruct Hids; by split).
    destruct (removePending_member r1 ids i L1) as (xs & ys & -> & L2).
    { apply L1. change (pending r1) with (pending r). rewrite bare_lookup in Hi.
      destruct (pending r !! i); [by eexists|done]. }
    exists (xs ++ ys). split; [done|]. eapply StronglySorted_impl; [|by eapply StronglySorted_remove].
    intros j k. apply older_delete.
  - intros j b [Hij Hj]%lookup_delete_Some. destruct (iv_slots0 j b Hj) as [S1 S2 (lb & S3 & S4 & S5) S6].
    split; rewrite ?F1, ?F4, ?F5, ?F6; try done.
    + unfold h'. by rewrite Hhi.
    + exists lb. split; [done|]. rewrite Hw; [done|]. intros ->. apply Hij.
      apply (iv_leases0 i j a b); [done|done|congruence].
  - intros j b [Hij Hj]%lookup_delete_Some _. apply iv_bodies0; [done|]. congruence.
  - intros j k b c [_ Hj]%lookup_delete_Some [_ Hk]%lookup_delete_Some. by apply iv_leases0.
  - intros Hc. destruct (iv_windowLease0 Hc) as (lw & Hlw & Hlive). exists lw. split; [done|].
    rewrite Hw; [done|]. congruence.
  - intros j d Hj. destruct (iv_log0 j d Hj) as [G ?]. split; [|done].
    eapply Gone_later; [apply finish_later|done].
  - intros f Hf. destruct (decide (DatagramID f = i)) as [->|Hne]; [by right|].
    rewrite lookup_delete_ne by done. destruct (iv_seen0 f Hf) as [?|G]; [by left|right].
    eapply Gone_later; [apply finish_later|done].
  - intros Hc. congruence.
Qed.

Lemma StronglySorted_snoc {A} (R : A -> A -> Prop) l x :
  StronglySorted R l -> (forall y, y ∈ l -> R y x) -> StronglySorted R (l ++ [x]).
Proof using.
  induction l as [|y l IH]; cbn [app]; intros S Hx; [by repeat constructor|].
  apply StronglySorted_inv in S as [S F]. constructor.
  - apply IH; [done|]. intros z Hz. apply Hx, elem_of_cons. by right.
  - apply Forall_app. split; [done|]. constructor; [|done]. apply Hx, elem_of_cons. by left.
Qed.

Lemma StronglySorted_ext {A} (R Q : A -> A -> Prop) l :
  (forall x y, x ∈ l -> y ∈ l -> R x y -> Q x y) -> StronglySorted R l -> StronglySorted Q l.
Proof using.
  induction l as [|x l IH]; intros H S; [constructor|].
  apply StronglySorted_inv in S as [S F]. constructor.
  - apply IH; [|done]. intros y z Hy Hz. apply H; apply elem_of_cons; by right.
  - apply Forall_forall. intros y Hy. rewrite Forall_forall in F. apply H.
    + apply elem_of_cons. by left.
    + apply elem_of_cons. by right.
    + by apply F.
Qed.

(** A reserved assembly enters. *)
Lemma inv_add H r h w log i a l :
  inv None H r h w log -> in_u 64 i -> 1 <= i -> pending r !! i = None ->
  RecvWindow.Spec.state h i = RecvWindow.Unseen -> closed r = false ->
  haveTime r = true -> admitted a = last r -> next a = 0 ->
  lease a = Some l -> live w !! l = Some (chargeFor (limits r) (total a)) ->
  windowLease r <> Some l -> (forall j b, bare (pending r) !! j = Some b -> lease b <> Some l) ->
  inv (Some i) H (addPending i a (with_window (snd (RecvWindow.Admit (window r) i)) r))
    (snd (RecvWindow.Spec.admission h i)) w log.
Proof using.
  intros I I1 I2 Hn Hu Hcl Ht Ha Hnext Hl Hlive Hwl Hfresh. pose proof I as [].
  set (r1 := with_window (snd (RecvWindow.Admit (window r) i)) r).
  set (h' := snd (RecvWindow.Spec.admission h i)).
  pose proof (admission_later h i) as Hlater.
  assert (Hb : bare (pending (addPending i a r1)) = <[i := with_links 0 0 a]> (bare (pending r)))
    by exact (addPending_bare r1 i a).
  assert (Hbn : bare (pending r) !! i = None) by (rewrite bare_lookup; by rewrite Hn).
  assert (Hfld : limits (addPending i a r1) = limits r /\ window (addPending i a r1) = window r1 /\
    closed (addPending i a r1) = closed r /\ windowLease (addPending i a r1) = windowLease r /\
    haveTime (addPending i a r1) = haveTime r /\ last (addPending i a r1) = last r).
  { unfold addPending. destruct (tail _ =? 0); done. }
  destruct Hfld as (F1 & F2 & F3 & F4 & F5 & F6).
  destruct iv_ids0 as (ids & Hids & Hsort).
  assert (Hi : i ∉ ids) by (rewrite (ln_dom _ _ Hids), Hn; by intros [? [=]]).
  split; rewrite ?F1, ?F2, ?F3, ?F4, ?Hb; try done.
  - by apply window_Admit.
  - unfold h'. by rewrite admission_shut.
  - exists (ids ++ [i]). split.
    + apply addPending_linked; [by eapply linked_ext; [..|exact Hids]|done|lia|done].
    + apply StronglySorted_snoc.
      * eapply StronglySorted_ext; [|exact Hsort]. intros x y Hx Hy Hxy b c.
        rewrite !lookup_insert_ne by congruence. apply Hxy.
      * intros x Hx b c. rewrite lookup_insert_eq, lookup_insert_ne by congruence.
        intros Hb' [= <-]. cbn. rewrite Ha. by apply iv_slots0 in Hb' as [_ _ _ [_ ?]].
  - intros j b [[<- <-]|[Hij Hj]]%lookup_insert_Some.
    + split; rewrite ?F1, ?F4, ?F5, ?F6; cbn [lease total admitted with_links].
      * split; [done|]. split; [done|]. by apply admission_hi.
      * intros ([i' d] & Ei & Hd)%list_elem_of_fmap. cbn in Ei. subst i'.
        destruct (iv_log0 _ _ Hd) as [G _]. by apply Gone_state in G.
      * by exists l.
      * split; [done|lia].
    + destruct (iv_slots0 j b Hj) as [[S1 S1'] S2 S3 S4].
      split; rewrite ?F1, ?F4, ?F5, ?F6; try done. split; [done|].
      destruct Hlater as (_ & Hhi & _). fold h' in Hhi. lia.
  - intros j b [[<- <-]|[Hij Hj]]%lookup_insert_Some Hx; [done|]. by apply iv_bodies0.
  - intros j k b c [[<- <-]|[Hij Hj]]%lookup_insert_Some [[<- <-]|[Hik Hk]]%lookup_insert_Some E;
      try done; cbn in E.
    + destruct (Hfresh _ _ Hk). congruence.
    + destruct (Hfresh _ _ Hj). congruence.
    + by eapply iv_leases0.
  - intros j d Hj. destruct (iv_log0 _ _ Hj) as [G ?]. split; [|done]. by eapply Gone_later.
  - intros f Hf. destruct (decide (DatagramID f = i)) as [->|Hne].
    + left. rewrite lookup_insert_eq. by eexists.
    + rewrite lookup_insert_ne by done. destruct (iv_seen0 f Hf) as [?|G]; [by left|right].
      by eapply Gone_later.
  - congruence.
Qed.

(** The contents of the assembly in question change. *)
Lemma inv_store H r h w log i a b :
  inv (Some i) H r h w log -> pending r !! i = Some a ->
  previous b = previous a -> next b = next a -> lease b = lease a -> total b = total a ->
  admitted b = admitted a ->
  inv (Some i) H (with_pending (<[i := b]> (pending r)) (head r) (tail r) r) h w log.
Proof using.
  intros [] Hi E1 E2 E3 E4 E5.
  assert (Hbi : bare (pending r) !! i = Some (with_links 0 0 a)) by (rewrite bare_lookup; by rewrite Hi).
  assert (Hb : bare (<[i := b]> (pending r)) = <[i := with_links 0 0 b]> (bare (pending r)))
    by apply bare_insert.
  assert (Hlease : forall j c, <[i := with_links 0 0 b]> (bare (pending r)) !! j = Some c ->
    exists c', bare (pending r) !! j = Some c' /\ lease c = lease c' /\ total c = total c' /\
      admitted c = admitted c' /\ (j <> i -> c = c')).
  { intros j c [[<- <-]|[Hij Hj]]%lookup_insert_Some; [by exists (with_links 0 0 a)|].
    by exists c. }
  split; cbn [limits window closed windowLease with_pending pending]; rewrite ?Hb; try done.
  - destruct iv_ids0 as (ids & Hl & Hs). exists ids. split; [by eapply update_linked|].
    eapply StronglySorted_impl; [|exact Hs]. intros x y Hxy c d Hc Hd.
    destruct (Hlease _ _ Hc) as (c' & Hc' & _ & _ & -> & _).
    destruct (Hlease _ _ Hd) as (d' & Hd' & _ & _ & -> & _). by apply Hxy.
  - intros j c Hc. destruct (Hlease _ _ Hc) as (c' & Hc' & El & Et & Ea & _).
    destruct (iv_slots0 _ _ Hc') as [S1 S2 S3 S4]. split; cbn; try done.
    + by rewrite El, Et.
    + by rewrite Ea.
  - intros j c Hc Hx. destruct (Hlease _ _ Hc) as (c' & Hc' & _ & _ & _ & E).
    assert (j <> i) as Hne by congruence. rewrite (E Hne). by apply iv_bodies0.
  - intros j k c d Hc Hd Ecd. destruct (Hlease _ _ Hc) as (c' & Hc' & El & _).
    destruct (Hlease _ _ Hd) as (d' & Hd' & El' & _).
    apply (iv_leases0 j k c' d'); [done|done|congruence].
  - intros f Hf. destruct (iv_seen0 f Hf) as [Hs|?]; [left|by right].
    rewrite lookup_insert_is_Some. destruct (decide (i = DatagramID f)); [by left|by right].
  - intros Hc. rewrite (iv_shut0 Hc) in Hi. done.
Qed.

(** The change is complete. *)
Lemma inv_settle H r h w log i a :
  inv (Some i) H r h w log -> bare (pending r) !! i = Some a ->
  assembly_wf (limits r) a -> content H i a -> inv None H r h w log.
Proof using.
  intros [] Hi Hw Hc. split; try done. intros j b Hj _.
  destruct (decide (i = j)) as [->|]; [|apply iv_bodies0; [done|congruence]].
  assert (b = a) as -> by congruence. done.
Qed.

(** ** One committed fragment *)

(** The reserved and allocated assembly of a new Datagram. *)
Record fresh_for (lim : Limits) (now : Z) (f : Fragment) (a : assembly) : Prop := {
  fr_total : total a = TotalBytes f;
  fr_admitted : admitted a = now;
  fr_data : data a = replicate (Z.to_nat (TotalBytes f)) Byte.x00;
  fr_ranges : ranges a = [];
  fr_received : received a = 0;
  fr_links : previous a = 0 /\ next a = 0 }.

(** The plan of a fragment is right for the current state. *)
Inductive ready (r : Receiver) (h : Hist) (w : World) (f : Fragment) (p : planned) : Prop :=
  | ready_expire a :
      expire_ p = true -> pl_new p = false -> pl_a p = None -> bare (pending r) !! DatagramID f = Some a ->
      due r a (last r) = true -> ready r h w f p
  | ready_skip :
      expire_ p = false -> pl_new p = false -> pl_known p = false -> pl_a p = None ->
      bare (pending r) !! DatagramID f = None -> Gone h (DatagramID f) -> ready r h w f p
  | ready_duplicate a k :
      expire_ p = false -> pl_new p = false -> duplicate p = true -> pl_a p = None ->
      bare (pending r) !! DatagramID f = Some a -> total a = TotalBytes f ->
      inspect a f = Ok (k, true) -> ready r h w f p
  | ready_store a :
      expire_ p = false -> pl_new p = false -> pl_known p = true -> duplicate p = false ->
      pl_a p = None -> bare (pending r) !! DatagramID f = Some a -> total a = TotalBytes f ->
      place a f (insert_ p) -> len (ranges a) < MaxFragments (limits r) -> ready r h w f p
  | ready_new a l :
      expire_ p = false -> pl_new p = true -> duplicate p = false -> insert_ p = 0%nat ->
      pl_a p = Some a -> fresh_for (limits r) (last r) f a -> lease a = Some l ->
      live w !! l = Some (chargeFor (limits r) (total a)) -> windowLease r <> Some l ->
      (forall j b, bare (pending r) !! j = Some b -> lease b <> Some l) ->
      pending r !! DatagramID f = None ->
      RecvWindow.Spec.state h (DatagramID f) = RecvWindow.Unseen -> ready r h w f p.

(** How many pending Datagrams, and reserved bytes, a plan adds. *)
Definition delta (p : planned) : Z := if expire_ p then -1 else if pl_new p then 1 else 0.
Definition pledged (lim : Limits) (p : planned) : Z :=
  match pl_a p with
  | Some a => if pl_new p then chargeFor lim (total a) else 0
  | None => 0
  end.

Definition charged (w : World) : Z := msum (fun b => b) (live w).
Definition heldBytes (r : Receiver) : Z :=
  msum (fun a => chargeFor (limits r) (total a)) (bare (pending r)).
Definition pendingCount (r : Receiver) : Z := Z.of_nat (size (bare (pending r))).

Definition logOf (d : option Datagram) : list (Z * bytes) :=
  match d with Some d => [(id d, Data d)] | None => [] end.
Definition bytesOf (d : option Datagram) : Z :=
  match d with Some d => len (Data d) | None => 0 end.

Record effect (f : Fragment) (p : planned) (r : Receiver) (h : Hist) (w : World) (d : option Datagram)
    (r' : Receiver) (h' : Hist) (w' : World) : Prop := {
  ef_same : limits r' = limits r /\ scope r' = scope r /\ windowLease r' = windowLease r /\
    closed r' = closed r /\ haveTime r' = haveTime r /\ last r' = last r;
  ef_other : forall j, j <> DatagramID f -> bare (pending r') !! j = bare (pending r) !! j;
  ef_mine : forall b, bare (pending r') !! DatagramID f = Some b ->
    exists a, (bare (pending r) !! DatagramID f = Some a \/ pl_a p = Some a) /\ lease b = lease a;
  ef_live : forall l,
    (forall a, bare (pending r) !! DatagramID f = Some a \/ pl_a p = Some a -> lease a <> Some l) ->
    live w' !! l = live w !! l;
  ef_later : RecvWindow.spec_later h h';
  ef_unseen : forall j, DatagramID f < j -> RecvWindow.Spec.state h j = RecvWindow.Unseen ->
    RecvWindow.Spec.state h' j = RecvWindow.Unseen;
  ef_size : pendingCount r' <= pendingCount r + delta p;
  ef_charge : charged w' - heldBytes r' = charged w - heldBytes r - pledged (limits r) p + bytesOf d;
  ef_lease : forall x, d = Some x -> bare (pending r') !! DatagramID f = None /\
    exists l a, dataLease x = Some l /\ live w' !! l = Some (len (Data x)) /\
      (bare (pending r) !! DatagramID f = Some a \/ pl_a p = Some a) /\ lease a = Some l;
  ef_terminal : forall j st, RecvWindow.Spec.terminal h' !! j = Some st ->
    RecvWindow.Spec.terminal h !! j = Some st \/ j = DatagramID f /\ (expire_ p = true \/ d <> None);
  ef_hi : RecvWindow.Spec.hi h' <= Z.max (RecvWindow.Spec.hi h) (DatagramID f) }.

Lemma fields_removePending i r :
  limits (removePending i r) = limits r /\ scope (removePending i r) = scope r /\
  windowLease (removePending i r) = windowLease r /\ closed (removePending i r) = closed r /\
  haveTime (removePending i r) = haveTime r /\ last (removePending i r) = last r.
Proof using. unfold removePending. destruct (previous _ =? 0), (next _ =? 0); done. Qed.

Lemma fields_addPending i a r :
  limits (addPending i a r) = limits r /\ scope (addPending i a r) = scope r /\
  windowLease (addPending i a r) = windowLease r /\ closed (addPending i a r) = closed r /\
  haveTime (addPending i a r) = haveTime r /\ last (addPending i a r) = last r /\
  window (addPending i a r) = window r.
Proof using. unfold addPending. destruct (tail r =? 0); done. Qed.

Lemma pending_of_bare m i a :
  bare m !! i = Some a -> exists b, m !! i = Some b /\ m !!! i = b /\ a = with_links 0 0 b.
Proof using.
  rewrite bare_lookup. destruct (m !! i) as [b|] eqn:E; [|done]. cbn. intros [= <-].
  exists b. split; [done|]. split; [by apply lookup_total_correct|done].
Qed.

Lemma size_delete_present {A} (m : gmap Z A) i a :
  m !! i = Some a -> Z.of_nat (size (delete i m)) = Z.of_nat (size m) - 1.
Proof using.
  intros H. rewrite map_size_delete, H.
  assert (size m <> 0%nat) by (intros E; apply map_size_empty_inv in E; by subst). lia.
Qed.

(** Expiring one assembly. *)
Lemma expire_ok H r h w log i a :
  inv None H r h w log -> bare (pending r) !! i = Some a -> closed r = false ->
  exists l h', lease a = Some l /\
    inv None H (fst (expire i r w)) h' (snd (expire i r w)) log /\ Gone h' i /\
    h' = snd (RecvWindow.Spec.finish h i RecvWindow.Expired) /\
    live (snd (expire i r w)) = delete l (live w) /\
    bare (pending (fst (expire i r w))) = delete i (bare (pending r)).
Proof using.
  intros I Hi Hcl. destruct (iv_slots _ _ _ _ _ _ I _ _ Hi) as [_ _ (l & Hl & _) _].
  destruct (pending_of_bare _ _ _ Hi) as (b & Hb & Ht & ->). cbn in Hl.
  exists l, (snd (RecvWindow.Spec.finish h i RecvWindow.Expired)).
  split; [done|]. unfold expire. rewrite Ht, Hl. cbn [fst snd].
  destruct (inv_remove H r h w (Release (Some l) w) log i (with_links 0 0 b) l RecvWindow.Expired)
    as [I' G]; try done.
  - by apply inv_weaken.
  - by right.
  - intros l' Hne. rewrite law_Release. by apply lookup_delete_ne.
  - split; [done|]. split; [done|]. split; [done|]. split; [apply law_Release|].
    exact (removePending_bare (with_window (snd (RecvWindow.Finish (window r) i RecvWindow.Expired)) r) i).
Qed.

(** Storing a fragment, and handing over what it completes. *)
Lemma store_ok H r h w log f a k d r' w' :
  let i := DatagramID f in
  inv (Some i) H r h w log -> closed r = false -> bare (pending r) !! i = Some a ->
  fragment_ok (limits r) f -> fed f -> assembly_base (limits r) a -> total a = TotalBytes f ->
  place a f k -> len (ranges a) < MaxFragments (limits r) -> content H i a ->
  storeFragment f k r w = (d, r', w') ->
  exists h', inv None (H ++ [f]) r' h' w' (log ++ logOf d) /\
    (limits r' = limits r /\ scope r' = scope r /\ windowLease r' = windowLease r /\
     closed r' = closed r /\ haveTime r' = haveTime r /\ last r' = last r) /\
    (forall j, j <> i -> bare (pending r') !! j = bare (pending r) !! j) /\
    (forall b, bare (pending r') !! i = Some b -> lease b = lease a) /\
    (forall l, lease a <> Some l -> live w' !! l = live w !! l) /\
    RecvWindow.spec_later h h' /\
    (forall j, i < j -> RecvWindow.Spec.state h j = RecvWindow.Unseen ->
       RecvWindow.Spec.state h' j = RecvWindow.Unseen) /\
    pendingCount r' <= pendingCount r /\
    charged w' - heldBytes r' = charged w - heldBytes r + bytesOf d /\
    (forall x, d = Some x -> bare (pending r') !! i = None /\
       exists l, dataLease x = Some l /\ live w' !! l = Some (len (Data x)) /\ lease a = Some l) /\
    (forall j st, RecvWindow.Spec.terminal h' !! j = Some st ->
       RecvWindow.Spec.terminal h !! j = Some st \/ j = i /\ d <> None) /\
    RecvWindow.Spec.hi h' = RecvWindow.Spec.hi h.
Proof using LL TR.
  intros i I Hcl Hi Fk Hfed B Ht P Hroom Hc Hs. pose proof (iv_limits _ _ _ _ _ _ I) as Lk.
  destruct (pending_of_bare _ _ _ Hi) as (c & Hpc & Htot & ->).
  set (b := stored c f k). assert (Eb : with_links 0 0 b = stored (with_links 0 0 c) f k) by done.
  destruct (iv_slots _ _ _ _ _ _ I _ _ Hi) as [_ Hlog (l & Hl & Hlive & _) _].
  set (r1 := with_pending (<[i := b]> (pending r)) (head r) (tail r) r).
  assert (I1 : inv (Some i) H r1 h w log) by (by eapply inv_store).
  assert (Hb1 : bare (pending r1) = <[i := with_links 0 0 b]> (bare (pending r))) by apply bare_insert.
  assert (Hi1 : bare (pending r1) !! i = Some (with_links 0 0 b)) by (by rewrite Hb1, lookup_insert_eq).
  assert (I2 : inv (Some i) (H ++ [f]) r1 h w log).
  { apply inv_feed; [done|left; by eexists|done]. }
  assert (Hc2 : content (H ++ [f]) i (with_links 0 0 b)).
  { rewrite Eb. by eapply tr_stored. }
  assert (Hdata : len (data b) = total b).
  { pose proof (inside (limits r) (with_links 0 0 c) f Fk B Ht) as Hin.
    destruct B as [_ B2 _ _]. cbn in *. unfold len in *. rewrite length_write_inside by done. done. }
  assert (Hheld : heldBytes r1 = heldBytes r).
  { unfold heldBytes. rewrite Hb1, (msum_update _ _ _ (with_links 0 0 c)) by done. cbn. lia. }
  assert (Hcount : pendingCount r1 = pendingCount r).
  { unfold pendingCount. rewrite Hb1, map_size_insert_Some by (by eexists). done. }
  unfold storeFragment in Hs. fold i in Hs. rewrite Htot in Hs. fold (stored c f k) in Hs. fold b in Hs.
  fold r1 in Hs. cbv zeta in Hs. destruct (Z.eqb_spec (received b) (total b)) as [Hdone|Hmore].
  - cbn [negb] in Hs.
    assert (Hfin : finished (with_links 0 0 b)).
    { split; [done|]. destruct (decide (Payload f = [])) as [E|E].
      - left. cbn. destruct Fk as [_ _ _ F4]. rewrite <- F4 by done. done.
      - right. pose proof (stored_base _ _ _ _ Lk Fk B Ht P E) as [_ _ B3 B4].
        rewrite <- Eb in B3, B4. split; [done|]. rewrite <- B4. done. }
    destruct (law_Shrink l (len (data b)) (chargeFor (limits r) (total c)) w) as (w1 & Hw1 & Hlw1).
    { done. }
    { rewrite Hdata. unfold chargeFor, u64, intervalBytes, deadlineLinkBytes. cbn.
      destruct B as [B1 _ _ _], Lk as [_ ? ? _ _]. cbn in B1.
      rewrite wrap_small by (unfold in_u; lia). lia. }
    replace (lease b) with (Some l) in Hs by done. rewrite Hw1 in Hs. injection Hs as <- Hr <-.
    destruct (inv_remove (H ++ [f]) r1 h w w1 log i (with_links 0 0 b) l RecvWindow.Completed)
      as [I3 G]; try done.
    { by left. }
    { intros l' Hne. rewrite Hlw1. by apply lookup_insert_ne. }
    set (h' := snd (RecvWindow.Spec.finish h i RecvWindow.Completed)) in *.
    set (r2 := with_window (snd (RecvWindow.Finish (window r1) i RecvWindow.Completed)) r1) in *.
    assert (Hb2 : bare (pending (removePending i r2)) = delete i (bare (pending r)))
      by (etransitivity; [exact (removePending_bare r2 i)|]; change (pending r2) with (pending r1);
          rewrite Hb1; by rewrite delete_insert_eq).
    assert (r' = removePending i r2) as -> by (by rewrite <- Hr). clear Hr.
    exists h'. cbn [logOf bytesOf id Data].
    destruct (fields_removePending i r2) as (F1 & F2 & F3 & F4 & F5 & F6).
    split.
    { apply inv_deliver; [exact I3|done|by eapply tr_good in Hc2|done|].
      etransitivity; [exact (f_equal (lookup i) Hb2)|apply lookup_delete_eq]. }
    split; [done|]. rewrite Hb2.
    split; [intros j Hj; by apply lookup_delete_ne|].
    split; [intros e; by rewrite lookup_delete_eq|].
    split; [intros l' Hne; rewrite Hlw1; apply lookup_insert_ne; congruence|].
    split; [apply finish_later|].
    split; [intros j Hj; apply finish_unseen; lia|].
    split; [unfold pendingCount; rewrite Hb2, (size_delete_present _ _ _ Hi); lia|].
    split.
    + unfold charged, heldBytes. rewrite Hlw1, (msum_update _ _ _ (chargeFor (limits r) (total c))) by done.
      rewrite Hb2. rewrite F1. change (limits r2) with (limits r).
      rewrite (msum_delete _ _ _ (with_links 0 0 c)) by done. cbn. lia.
    + split.
      { intros x [= <-]. split; [by apply lookup_delete_eq|]. exists l. split; [done|].
        cbn [Data]. by rewrite Hlw1, lookup_insert_eq. }
      split; [|apply finish_same].
      intros j st [?| ->]%finish_terminal_old; [by left|by right].
  - cbn [negb] in Hs. injection Hs as <- <- <-. exists h. cbn [logOf bytesOf].
    assert (Hpay : Payload f <> []).
    { intros E. apply Hmore. destruct Fk as [_ _ _ F4], B as [_ _ B3 B4]. cbn in Ht, B3, B4.
      rewrite Ht, (F4 E) in B3. unfold b. cbn. rewrite E, B4, Ht, (F4 E).
      destruct (ranges c) as [|v rs]; [done|]. destruct B3 as (? & ? & ?%chain_le). lia. }
    pose proof (stored_base _ _ _ _ Lk Fk B Ht P Hpay) as B'. rewrite <- Eb in B'.
    rewrite app_nil_r. split.
    { eapply inv_settle; [exact I2|exact Hi1| |exact Hc2]. split; [exact B'| |].
      - destruct B' as [_ _ B3 B4]. pose proof (covered_nonneg _ _ _ B3). cbn in *. lia.
      - rewrite Eb. destruct (stored_ranges (limits r) (with_links 0 0 c) f k Lk Fk) as [_ E].
        rewrite E. pose proof (len_nonneg (ranges (with_links 0 0 c))). cbn in *. lia. }
    split; [done|]. rewrite Hb1.
    split; [intros j Hj; by apply lookup_insert_ne|].
    split; [intros e; rewrite lookup_insert_eq; by intros [= <-]|].
    split; [done|]. split; [reflexivity|]. split; [done|]. split; [lia|]. split; [lia|].
    split; [done|]. split; [|done]. by left.
Qed.

Lemma effect_none f p r h w :
  pledged (limits r) p = 0 -> 0 <= delta p -> effect f p r h w None r h w.
Proof using.
  intros Hp Hd. split; try done.
  - intros b Hb. exists b. by split; [left|].
  - lia.
  - cbn. lia.
  - by left.
  - lia.
Qed.

Lemma commitOne_ok H r h w log f p d r' w' :
  inv None H r h w log -> closed r = false -> haveTime r = true ->
  fragment_ok (limits r) f -> frag_typed f -> fed f -> ready r h w f p ->
  commitOne f p r w = (d, r', w') ->
  exists h', inv None (H ++ [f]) r' h' w' (log ++ logOf d) /\ effect f p r h w d r' h' w'.
Proof using LL TR.
  intros I Hcl Ht Fk T Hfed R Hs. unfold commitOne in Hs.
  pose proof (iv_limits _ _ _ _ _ _ I) as Lk.
  destruct R as [a He Hnw Hpa Ha Hdue|He Hnw Hk Hpa Hnone G|a k He Hnw Hd Hpa Ha Htot Hin
    |a He Hnw Hk Hd Hpa Ha Htot P Hroom|a l He Hnw Hd Hins Hpa Fr Hl Hlive Hwl Hfresh Hnone Hun].
  - rewrite He in Hs.
    destruct (expire_ok H r h w log _ a I Ha Hcl) as (l & h' & Hl & I' & G & Hh & Hlv & Hb).
    destruct (expire (DatagramID f) r w) as [r1 w1] eqn:E. cbn [fst snd] in *. injection Hs as <- <- <-.
    assert (Hr1 : r1 = removePending (DatagramID f) (with_window (snd (RecvWindow.Finish (window r)
      (DatagramID f) RecvWindow.Expired)) r)) by (by injection E).
    pose proof (fields_removePending (DatagramID f) (with_window (snd (RecvWindow.Finish (window r)
      (DatagramID f) RecvWindow.Expired)) r)) as Hf. rewrite <- Hr1 in Hf.
    exists h'. cbn [logOf]. rewrite app_nil_r. split.
    { apply inv_feed; [done|by right|]. intros b Hb'. by rewrite Hb, lookup_delete_eq in Hb'. }
    destruct (iv_slots _ _ _ _ _ _ I _ _ Ha) as [_ _ (l' & Hl' & Hlive & _) _].
    assert (l' = l) as -> by congruence.
    destruct Hf as (F1 & F2 & F3 & F4 & F5 & F6).
    split; rewrite ?Hb; try done.
    + intros j Hj. by apply lookup_delete_ne.
    + intros b. by rewrite lookup_delete_eq.
    + intros l' Hne. rewrite Hlv. apply lookup_delete_ne. intros <-. by apply (Hne a (or_introl Ha)).
    + rewrite Hh. apply finish_later.
    + intros j Hj. rewrite Hh. apply finish_unseen. lia.
    + unfold pendingCount, delta. rewrite He, Hb, (size_delete_present _ _ _ Ha). lia.
    + unfold charged, heldBytes, pledged. rewrite Hlv, (msum_delete _ _ _ _ Hlive), Hb, F1.
      rewrite (msum_delete _ _ _ _ Ha). rewrite Hnw. destruct (pl_a p); cbn; lia.
    + rewrite Hh. intros j st [?| ->]%finish_terminal_old; [by left|right]. split; [done|by left].
    + rewrite Hh. destruct (finish_same h (DatagramID f) RecvWindow.Expired) as [_ ->]. lia.
  - rewrite He, Hnw, Hk in Hs. cbn in Hs. injection Hs as <- <- <-. exists h. cbn [logOf].
    rewrite app_nil_r. split.
    + apply inv_feed; [done|by right|]. intros a Ha. by rewrite Hnone in Ha.
    + apply effect_none; unfold pledged, delta; rewrite ?He, ?Hnw; [by destruct (pl_a p)|lia].
  - rewrite He, Hd, orb_true_r in Hs. injection Hs as <- <- <-. exists h. cbn [logOf].
    rewrite app_nil_r. split.
    + apply inv_feed; [done|left; by eexists|]. intros b Hb _ Hc.
      assert (b = a) as -> by congruence.
      destruct (iv_bodies _ _ _ _ _ _ I _ _ Ha) as [W _]; [done|]. destruct W as [W _ _].
      by eapply tr_duplicate.
    + apply effect_none; unfold pledged, delta; rewrite ?He, ?Hnw; [by destruct (pl_a p)|lia].
  - rewrite He, Hd, Hk, Hpa in Hs. cbn [negb andb orb] in Hs.
    destruct (iv_bodies _ _ _ _ _ _ I _ _ Ha) as [[W _ _] Hc]; [done|].
    destruct (store_ok H r h w log f a _ d r' w' (inv_weaken _ _ _ _ _ _ I) Hcl Ha Fk Hfed W Htot P
      Hroom Hc Hs) as (h' & I' & Same & S1 & S2 & S3 & S4 & S5 & S6 & S7 & S8 & S9 & S10).
    exists h'. split; [done|]. split; try done.
    + intros b Hb. exists a. split; [by left|]. by apply S2.
    + intros l Hl. apply S3. apply Hl. by left.
    + unfold delta. rewrite He, Hnw. lia.
    + unfold pledged. rewrite Hpa. lia.
    + intros x Hx. destruct (S8 x Hx) as (N & l & X1 & X2 & X3). split; [done|].
      exists l, a. repeat split; try done. by left.
    + intros j st Hj. destruct (S9 j st Hj) as [?|[? ?]]; [by left|by auto].
    + lia.
  - rewrite He, Hnw, Hd, Hpa in Hs. rewrite andb_false_r in Hs. cbn [orb] in Hs.
    destruct Fr as [R1 R2 R3 R4 R5 [R6 R7]].
    set (r1 := addPending (DatagramID f) a
      (with_window (snd (RecvWindow.Admit (window r) (DatagramID f))) r)) in *.
    assert (I1 : inv (Some (DatagramID f)) H r1 (snd (RecvWindow.Spec.admission h (DatagramID f))) w log).
    { eapply inv_add; try done; [apply T|destruct Fk; lia]. }
    destruct (fields_addPending (DatagramID f) a
      (with_window (snd (RecvWindow.Admit (window r) (DatagramID f))) r))
      as (F1 & F2 & F3 & F4 & F5 & F6 & F7). fold r1 in F1, F2, F3, F4, F5, F6, F7.
    assert (Hb1 : bare (pending r1) = <[DatagramID f := with_links 0 0 a]> (bare (pending r)))
      by exact (addPending_bare _ _ _).
    assert (Hbn : bare (pending r) !! DatagramID f = None) by (rewrite bare_lookup; by rewrite Hnone).
    rewrite Hins in Hs.
    destruct (store_ok H r1 _ w log f (with_links 0 0 a) 0 d r' w' I1) as
      (h' & I' & Same & S1 & S2 & S3 & S4 & S5 & S6 & S7 & S8 & S9 & S10); try done.
    + by rewrite F4.
    + by rewrite Hb1, lookup_insert_eq.
    + by rewrite F1.
    + rewrite F1. destruct Fk as [_ K2 K3 _], T as [_ K4 _]. unfold in_u in K4. split; cbn.
      * rewrite R1. lia.
      * rewrite R3, R1. unfold len. rewrite length_replicate. lia.
      * rewrite R4, R1. change (0 <= TotalBytes f). lia.
      * by rewrite R5, R4.
    + split; cbn; [lia|done|]. rewrite R4. done.
    + rewrite F1. cbn. rewrite R4. destruct Lk as [_ _ ? _ _]. change (len []) with 0. lia.
    + apply tr_new; [done|done|done|]. intros g Hg E.
      destruct (iv_seen _ _ _ _ _ _ I g Hg) as [[b Hb]|G]; rewrite E in *; [by rewrite Hbn in Hb|].
      by apply Gone_state in G.
    + exists h'. split; [done|]. destruct Same as (E1 & E2 & E3 & E4 & E5 & E6).
      cbn [limits scope windowLease closed haveTime last with_window] in F1, F2, F3, F4, F5, F6.
      split.
      * repeat split; congruence.
      * intros j Hj. rewrite S1 by done. rewrite Hb1. by apply lookup_insert_ne.
      * intros b Hb. exists a. split; [by right|]. exact (S2 b Hb).
      * intros l' Hl'. apply S3. exact (Hl' a (or_intror Hpa)).
      * etransitivity; [apply admission_later|done].
      * intros j Hj Hu. apply S5; [done|]. apply admission_unseen; [done| |done].
        destruct (iv_window _ _ _ _ _ _ I) as [W1 W2 _ _ _ _ _ _]. lia.
      * unfold delta. rewrite He, Hnw. unfold pendingCount in *. rewrite Hb1, map_size_insert_None in S6 by done. lia.
      * unfold pledged. rewrite Hpa, Hnw. rewrite S7. unfold heldBytes. rewrite Hb1, F1.
        rewrite msum_insert by done. cbn. lia.
      * intros x Hx. destruct (S8 x Hx) as (N & l' & X1 & X2 & X3). split; [done|].
        exists l', a. repeat split; try done. by right.
      * intros j st Hj. destruct (S9 j st Hj) as [Hj'|[? ?]]; [left|by auto].
        by rewrite (proj1 (admission_terminal h (DatagramID f))) in Hj'.
      * rewrite S10. apply admission_terminal.
Qed.

(** ** The committing loop *)

(** New assemblies of a plan have different leases. *)
Definition apart (p q : planned) : Prop :=
  forall a b, pl_a p = Some a -> pl_a q = Some b -> lease a <> lease b.

Lemma ready_keep f p r h w d r' h' w' g q :
  effect f p r h w d r' h' w' -> DatagramID f < DatagramID g -> apart p q ->
  ready r h w g q -> ready r' h' w' g q.
Proof using.
  intros [(E1 & _ & E3 & _ & _ & E6) Eo Em El Elt Eu _ _ _ _ _] Hlt Hap R.
  assert (Hne : DatagramID g <> DatagramID f) by lia.
  destruct R as [a He Hnw Hpa Ha Hdue|He Hnw Hk Hpa Hnone G|a k He Hnw Hd Hpa Ha Htot Hin
    |a He Hnw Hk Hd Hpa Ha Htot P Hroom|a l He Hnw Hd Hins Hpa Fr Hl Hlive Hwl Hfresh Hnone Hun].
  - apply (ready_expire _ _ _ _ _ a); [done|done|done|by rewrite Eo|]. unfold due in *. by rewrite E1, E6.
  - apply ready_skip; [done|done|done|done|by rewrite Eo|by eapply Gone_later].
  - apply (ready_duplicate _ _ _ _ _ a k); try done. by rewrite Eo.
  - apply (ready_store _ _ _ _ _ a); try done; [by rewrite Eo|by rewrite E1].
  - apply (ready_new _ _ _ _ _ a l); try done.
    + by rewrite E1, E6.
    + rewrite E1, El; [done|]. intros b [Hb|Hb]; [by eapply Hfresh|].
      rewrite <- Hl. by apply Hap.
    + by rewrite E3.
    + intros j b Hb. destruct (decide (j = DatagramID f)) as [->|Hj].
      * destruct (Em b Hb) as (c & [Hc|Hc] & ->); [by eapply Hfresh|]. rewrite <- Hl. by apply Hap.
      * rewrite Eo in Hb by done. by eapply Hfresh.
    + assert (Hb : bare (pending r') !! DatagramID g = None).
      { rewrite Eo by done. rewrite bare_lookup. by rewrite Hnone. }
      rewrite bare_lookup in Hb. by destruct (pending r' !! DatagramID g).
    + by apply Eu.
Qed.

Definition sumZ {A} (f : A -> Z) (l : list A) : Z := foldr (fun x n => f x + n) 0 l.

(** A lease that neither a pending assembly nor the plan holds. *)
Definition foreign (r : Receiver) (plan : list planned) (l : Ptr) : Prop :=
  (forall i a, bare (pending r) !! i = Some a -> lease a <> Some l) /\
  (forall p a, p ∈ plan -> pl_a p = Some a -> lease a <> Some l).

Lemma foreign_step f p plan r h w d r' h' w' l :
  effect f p r h w d r' h' w' -> foreign r (p :: plan) l -> foreign r' plan l.
Proof using.
  intros [_ Eo Em _ _ _ _ _ _ _ _] [F1 F2]. split.
  - intros i a Ha. destruct (decide (i = DatagramID f)) as [->|Hi].
    + destruct (Em a Ha) as (c & [Hc|Hc] & ->); [by eapply F1|]. eapply F2; [|exact Hc].
      apply elem_of_cons. by left.
    + rewrite Eo in Ha by done. by eapply F1.
  - intros q a Hq. apply F2, elem_of_cons. by right.
Qed.

Lemma foreign_live f p plan r h w d r' h' w' l :
  effect f p r h w d r' h' w' -> foreign r (p :: plan) l -> live w' !! l = live w !! l.
Proof using.
  intros E [F1 F2]. apply (ef_live _ _ _ _ _ _ _ _ _ E). intros a [Ha|Ha]; [by eapply F1|].
  eapply F2; [|exact Ha]. apply elem_of_cons. by left.
Qed.

(** The lease of a delivered Datagram is not held any more. *)
Lemma delivered_foreign H f p plan r h w log x r' h' w' l :
  inv None H r h w log -> ready r h w f p -> effect f p r h w (Some x) r' h' w' ->
  dataLease x = Some l ->
  (forall q, q ∈ plan -> apart p q) ->
  (forall q, q ∈ plan -> exists g, ready r h w g q) ->
  foreign r' plan l.
Proof using.
  intros I Rp E Hx Hap Hr. destruct (ef_lease _ _ _ _ _ _ _ _ _ E x eq_refl) as (Hn & l' & a & X1 & _ & Ha & Hl).
  assert (l' = l) as -> by congruence. pose proof (iv_leases _ _ _ _ _ _ I) as Inj.
  assert (Hplan : forall q b, q ∈ plan -> pl_a q = Some b -> lease b <> Some l).
  { intros q b Hq Hb. destruct Ha as [Ha|Ha]; [|rewrite <- Hl; intros Heq; by eapply Hap].
    destruct (Hr q Hq) as [g R]. destruct R; try congruence.
    assert (b = a0) as -> by congruence. rewrite <- Hl.
    match goal with F : forall j b, bare _ !! j = Some b -> _ |- _ => apply F in Ha end. congruence. }
  split; [|done]. intros i b Hb. destruct (decide (i = DatagramID f)) as [->|Hi]; [congruence|].
  rewrite (ef_other _ _ _ _ _ _ _ _ _ E) in Hb by done. destruct Ha as [Ha|Ha].
  - intros Heq. apply Hi. apply (Inj i (DatagramID f) b a); [done|done|congruence].
  - destruct Rp; try congruence. assert (a0 = a) as -> by congruence.
    assert (l0 = l) as -> by congruence.
    match goal with F : forall j b, bare _ !! j = Some b -> _ |- _ => by eapply F end.
Qed.

Lemma commitOne_id f p r w x r' w' : commitOne f p r w = (Some x, r', w') -> id x = DatagramID f.
Proof using.
  unfold commitOne, storeFragment. intros E. destruct (expire_ p); [by destruct (expire _ _ _)|].
  destruct (_ || _); [done|]. destruct (negb _); [done|].
  destruct (ShrinkBytes _ _ _) in E. by injection E as <- _ _.
Qed.

Lemma commit_ok fs : forall plan prev H r h w log ds r' w',
  inv None H r h w log -> closed r = false -> haveTime r = true ->
  Forall (fragment_ok (limits r)) fs -> Forall frag_typed fs -> Forall fed fs -> increasing prev fs ->
  Forall2 (ready r h w) fs plan -> ForallOrdPairs apart plan -> commit fs plan r w = (ds, r', w') ->
  exists h', inv None (H ++ fs) r' h' w' (log ++ ((fun d => (id d, Data d)) <$> ds)) /\
    (limits r' = limits r /\ scope r' = scope r /\ windowLease r' = windowLease r /\
     closed r' = closed r /\ haveTime r' = haveTime r /\ last r' = last r) /\
    RecvWindow.spec_later h h' /\
    (forall l, foreign r plan l -> live w' !! l = live w !! l) /\
    pendingCount r' <= pendingCount r + sumZ delta plan /\
    charged w' - heldBytes r' = charged w - heldBytes r - sumZ (pledged (limits r)) plan
      + sumZ (fun d => len (Data d)) ds /\
    (forall x, x ∈ ds -> exists l, dataLease x = Some l /\ live w' !! l = Some (len (Data x))) /\
    (forall j st, RecvWindow.Spec.terminal h' !! j = Some st ->
       RecvWindow.Spec.terminal h !! j = Some st \/ j ∈ id <$> ds \/
       exists p, p ∈ plan /\ expire_ p = true) /\
    (forall m, RecvWindow.Spec.hi h <= m -> Forall (fun f => DatagramID f <= m) fs ->
       RecvWindow.Spec.hi h' <= m).
Proof using LL TR.
  induction fs as [|f fs IH]; intros plan prev H r h w log ds r' w' I Hcl Ht Fk T Hfed Hinc R D Hs.
  { apply Forall2_nil_inv_l in R as ->. injection Hs as <- <- <-. exists h. cbn [fmap list_fmap].
    rewrite !app_nil_r. split; [done|]. split; [done|]. split; [reflexivity|]. split; [done|].
    cbn [sumZ foldr]. split; [lia|]. split; [lia|].
    split; [by intros x ?%not_elem_of_nil|]. split; [by left|done]. }
  destruct plan as [|p plan]; [by apply Forall2_nil_inv_r in R|]. apply Forall2_cons in R as [Rp R].
  apply Forall_cons in Fk as [Fk Fks]. apply Forall_cons in T as [Tf Ts].
  apply Forall_cons in Hfed as [Hf Hfs]. destruct Hinc as [Hprev Hinc].
  inversion D as [|? ? Hap D']; subst. rewrite List.Forall_forall in Hap.
  assert (Hap' : forall q, q ∈ plan -> apart p q) by (intros q Hq; by apply Hap, list_elem_of_In).
  cbn [commit] in Hs. destruct (commitOne f p r w) as [[d r1] w1] eqn:E1.
  destruct (commit fs plan r1 w1) as [[ds1 r2] w2] eqn:E2.
  assert (Hout : ds = (match d with Some d => d :: ds1 | None => ds1 end) /\ r' = r2 /\ w' = w2)
    by (injection Hs as <- <- <-; done).
  clear Hs. destruct Hout as (-> & -> & ->).
  destruct (commitOne_ok H r h w log f p d r1 w1 I Hcl Ht Fk Tf Hf Rp E1) as (h1 & I1 & Ef).
  pose proof (ef_same _ _ _ _ _ _ _ _ _ Ef) as (E & E' & E'' & E3 & E4 & E5).
  assert (R1 : Forall2 (ready r1 h1 w1) fs plan).
  { clear -R Ef Hinc Hap'. pose proof (increasing_above _ _ Hinc) as Hab. clear Hinc.
    induction R as [|g q fs plan Rg R IHR]; constructor.
    - eapply ready_keep; [exact Ef|apply Hab, elem_of_cons; by left|apply Hap', elem_of_cons; by left|done].
    - apply IHR; intros; [apply Hap'|apply Hab]; apply elem_of_cons; by right. }
  destruct (IH plan (DatagramID f) (H ++ [f]) r1 h1 w1 _ ds1 r2 w2 I1) as
    (h2 & I2 & Same & Later & Live & Size & Charge & Leases & Term & High); try done.
  { by rewrite E3. } { by rewrite E4. } { by rewrite E. }
  exists h2. rewrite <- app_assoc in I2. cbn [app] in I2.
  split. { rewrite <- app_assoc in I2. destruct d; exact I2. }
  split. { destruct Same as (? & ? & ? & ? & ? & ?). repeat split; congruence. }
  split. { etransitivity; [apply (ef_later _ _ _ _ _ _ _ _ _ Ef)|done]. }
  split. { intros l Hl. rewrite Live by (by eapply foreign_step). by eapply foreign_live. }
  pose proof (ef_size _ _ _ _ _ _ _ _ _ Ef). pose proof (ef_charge _ _ _ _ _ _ _ _ _ Ef) as Hch.
  split. { cbn [sumZ foldr]. fold (sumZ delta plan). lia. }
  split. { cbn [sumZ foldr]. fold (sumZ (pledged (limits r)) plan). rewrite E in Charge.
    destruct d as [d|]; cbn [sumZ foldr bytesOf] in *; fold (sumZ (fun d => len (Data d)) ds1) in *; lia. }
  pose proof (ef_lease _ _ _ _ _ _ _ _ _ Ef) as Hlease.
  pose proof (ef_terminal _ _ _ _ _ _ _ _ _ Ef) as Hterm.
  assert (Hds : forall x, x ∈ (match d with Some d => d :: ds1 | None => ds1 end) <->
    d = Some x \/ x ∈ ds1).
  { intros x. destruct d as [d|]; [|naive_solver]. rewrite elem_of_cons. naive_solver. }
  split.
  { intros x [->|Hin]%Hds; [|by apply Leases].
    destruct (Hlease x eq_refl) as (_ & l & a & X1 & X2 & _).
    exists l. split; [done|]. rewrite Live; [done|].
    eapply delivered_foreign; [exact I|exact Rp|exact Ef|done|done|].
    intros q Hq. clear -R Hq. induction R as [|g q' fs plan Rg R IHR]; [by apply not_elem_of_nil in Hq|].
    apply elem_of_cons in Hq as [->|Hq]; [by exists g|by apply IHR]. }
  split.
  { intros j st Hj. destruct (Term j st Hj) as [Hj1|[Hj1|(q & Hq & He)]].
    - destruct (Hterm j st Hj1) as [?|[-> [He|Hd]]]; [by left| |].
      + right. right. exists p. split; [apply elem_of_cons; by left|done].
      + right. left. destruct d as [x|]; [|done]. apply elem_of_cons. left.
        by rewrite (commitOne_id _ _ _ _ _ _ _ E1).
    - right. left. destruct d; [apply elem_of_cons; by right|done].
    - right. right. exists q. split; [apply elem_of_cons; by right|done]. }
  intros m Hm Hfm. apply Forall_cons in Hfm as [Hfm Hfms]. apply High; [|done].
  pose proof (ef_hi _ _ _ _ _ _ _ _ _ Ef). lia.
Qed.

(** ** Planning *)

(** What the planning loop says of a fragment. *)
Inductive sketch (r : Receiver) (h : Hist) (now : Z) (f : Fragment) (p : planned) : Prop :=
  | sketch_keep : pl_a p = None -> pl_new p = false ->
      (forall w, ready (with_time now r) h w f p) -> sketch r h now f p
  | sketch_new : pl_a p = None -> pl_new p = true -> expire_ p = false -> duplicate p = false ->
      insert_ p = 0%nat -> pending r !! DatagramID f = None ->
      RecvWindow.Spec.state h (DatagramID f) = RecvWindow.Unseen -> sketch r h now f p.

Lemma planFragments_ok H r h w log now fs : forall count plan count',
  inv None H r h w log -> closed r = false ->
  Forall (fragment_ok (limits r)) fs -> Forall frag_typed fs ->
  planFragments r now fs count = Ok (plan, count') ->
  Forall2 (sketch r h now) fs plan /\ count' = count + sumZ delta plan.
Proof using.
  induction fs as [|f fs IH]; intros count plan count' I Hcl Fk T Hs.
  { cbn in Hs. injection Hs as <- <-. split; [constructor|cbn; lia]. }
  apply Forall_cons in Fk as [Fk Fks]. apply Forall_cons in T as [Tf Ts]. cbn [planFragments] in Hs.
  pose proof (iv_limits _ _ _ _ _ _ I) as Lk.
  destruct (pending r !! DatagramID f) as [a|] eqn:Ha.
  - assert (Hb : bare (pending r) !! DatagramID f = Some (with_links 0 0 a))
      by (rewrite bare_lookup; by rewrite Ha).
    destruct (total a =? TotalBytes f) eqn:Et; cbn [negb] in Hs; [|done]. apply Z.eqb_eq in Et.
    destruct (iv_bodies _ _ _ _ _ _ I _ _ Hb) as [[[W1 W2 W3 W4] _ _] _]; [done|].
    destruct (due r a now) eqn:Ed.
    + cbn [result_bind] in Hs. destruct (planFragments r now fs (count - 1)) as [[ps c]|] eqn:Er; [|done].
      injection Hs as <- <-. destruct (IH _ _ _ I Hcl Fks Ts Er) as [IH1 ->].
      split; [|cbn [sumZ foldr delta expire_]; fold (sumZ delta ps); lia].
      constructor; [|done]. apply sketch_keep; [done|done|]. intros w'.
      by apply (ready_expire _ _ _ _ _ (with_links 0 0 a)).
    + destruct (inspect a f) as [[k dup]|] eqn:Ei; [|done]. cbn [result_bind] in Hs.
      destruct (negb dup && _) eqn:Ef; [done|]. cbn [result_bind] in Hs.
      destruct (planFragments r now fs count) as [[ps c]|] eqn:Er; [|done].
      injection Hs as <- <-. destruct (IH _ _ _ I Hcl Fks Ts Er) as [IH1 ->].
      split; [|cbn [sumZ foldr delta expire_ pl_new]; fold (sumZ delta ps); lia].
      constructor; [|done]. apply sketch_keep; [done|done|]. intros w'. destruct dup.
      * by apply (ready_duplicate _ _ _ _ _ (with_links 0 0 a) k).
      * apply (ready_store _ _ _ _ _ (with_links 0 0 a)); try done.
        -- by eapply inspect_place.
        -- destruct (iv_bodies _ _ _ _ _ _ I _ _ Hb) as [[_ _ W5] _]; [done|].
           cbn in Ef, W5 |- *. lia.
  - assert (Hb : bare (pending r) !! DatagramID f = None) by (rewrite bare_lookup; by rewrite Ha).
    rewrite (RecvWindow.State_spec _ _ _ (iv_window _ _ _ _ _ _ I) (ft_id _ Tf)) in Hs.
    destruct (bool_decide (RecvWindow.Spec.state h (DatagramID f) = RecvWindow.Unseen)) eqn:Eu;
      cbn [negb result_bind] in Hs.
    + apply bool_decide_eq_true in Eu.
      destruct (planFragments r now fs (count + 1)) as [[ps c]|] eqn:Er; [|done].
      injection Hs as <- <-. destruct (IH _ _ _ I Hcl Fks Ts Er) as [IH1 ->].
      split; [|cbn [sumZ foldr delta expire_ pl_new]; fold (sumZ delta ps); lia].
      constructor; [|done]. by apply sketch_new.
    + apply bool_decide_eq_false in Eu.
      destruct (planFragments r now fs count) as [[ps c]|] eqn:Er; [|done].
      injection Hs as <- <-. destruct (IH _ _ _ I Hcl Fks Ts Er) as [IH1 ->].
      split; [|cbn [sumZ foldr delta expire_ pl_new zeroPlan]; fold (sumZ delta ps); lia].
      constructor; [|done]. apply sketch_keep; [done|done|]. intros w'.
      apply ready_skip; try done. apply state_Gone; [|destruct Fk; lia|done].
      rewrite (iv_closed _ _ _ _ _ _ I). done.
Qed.

(** ** Reservation *)

Lemma allocate_new p a :
  pl_a p = Some a -> pl_new p = true -> ranges a = [] ->
  allocate p = {| pl_known := pl_known p; pl_new := true; expire_ := expire_ p;
    duplicate := duplicate p; insert_ := insert_ p;
    pl_a := Some (with_bytes (replicate (Z.to_nat (total a)) Byte.x00) [] (received a) a) |}.
Proof using. intros E1 E2 E3. unfold allocate. by rewrite E1, E2. Qed.

Lemma reserve_ok r h now fs : forall done_ plan w plan' w',
  Forall (fragment_ok (limits r)) fs -> Forall frag_typed fs ->
  (forall l, windowLease r = Some l -> is_Some (live w !! l)) ->
  (forall j b, bare (pending r) !! j = Some b -> exists l, lease b = Some l /\ is_Some (live w !! l)) ->
  Forall2 (sketch r h now) fs plan -> reservePlan r now fs done_ plan w = (Ok plan', w') ->
  exists new, plan' = done_ ++ new /\
    Forall2 (ready (with_time now r) h w') fs (allocate <$> new) /\
    ForallOrdPairs apart (allocate <$> new) /\
    (forall p a, p ∈ allocate <$> new -> pl_a p = Some a ->
       exists l, lease a = Some l /\ live w !! l = None) /\
    (forall l b, live w !! l = Some b -> live w' !! l = Some b) /\
    (forall s, scopeClosed s w' = scopeClosed s w) /\
    sumZ delta (allocate <$> new) = sumZ delta plan /\
    charged w' = charged w + sumZ (pledged (limits r)) (allocate <$> new).
Proof using LL.
  induction fs as [|f fs IH]; intros done_ plan w plan' w' Fk T Hwl Hpl S Hs.
  { apply Forall2_nil_inv_l in S as ->. cbn in Hs. injection Hs as <- <-. exists [].
    rewrite app_nil_r. split; [done|]. split; [constructor|]. split; [constructor|].
    split; [by intros p a ?%not_elem_of_nil|]. split; [done|]. split; [done|]. cbn. lia. }
  destruct plan as [|p plan]; [by apply Forall2_nil_inv_r in S|]. apply Forall2_cons in S as [Sp S].
  apply Forall_cons in Fk as [Fk Fks]. apply Forall_cons in T as [Tf Ts]. cbn [reservePlan] in Hs.
  destruct Sp as [Ha Hnew Hready|Ha Hnew He Hd Hins Hnone Hun]; rewrite Hnew in Hs; cbn [negb] in Hs.
  - destruct (IH _ _ _ _ _ Fks Ts Hwl Hpl S Hs) as (new & -> & R & D & Fr & Lv & Cl & Dl & Ch).
    exists (p :: new). rewrite <- app_assoc. split; [done|].
    assert (Hal : allocate p = p) by (unfold allocate; by rewrite Ha). rewrite fmap_cons, Hal.
    split; [by constructor|]. split.
    { constructor; [|done]. apply List.Forall_forall. intros q _ a b E. congruence. }
    split. { intros q a [->|Hq]%elem_of_cons Hqa; [congruence|by eapply Fr]. }
    split; [done|]. split; [done|]. cbn [sumZ foldr].
    fold (sumZ delta (allocate <$> new)) (sumZ delta plan) (sumZ (pledged (limits r)) (allocate <$> new)).
    split; [lia|]. unfold pledged at 1. rewrite Ha. lia.
  - destruct (Reserve (scope r) (bytesOnly (chargeOf (limits r) f)) w) as [[l|e] w1] eqn:Er; [|done].
    destruct (law_Reserve_ok _ _ _ _ _ Er) as [Hfree Hlive].
    pose proof (law_closed_Reserve) as Hclosed.
    set (a := {| total := TotalBytes f; admitted := now; data := []; ranges := []; received := 0;
      lease := Some l; previous := 0; next := 0 |}) in *.
    set (p' := {| pl_known := false; pl_a := Some a; pl_new := true; expire_ := expire_ p;
      duplicate := duplicate p; insert_ := insert_ p |}) in *.
    assert (Hmono : forall l' b, live w !! l' = Some b -> live w1 !! l' = Some b).
    { intros l' b Hb. rewrite Hlive. rewrite lookup_insert_ne; [done|]. congruence. }
    destruct (IH (done_ ++ [p']) plan w1 plan' w' Fks Ts) as (new & -> & R & D & Fr & Lv & Cl & Dl & Ch);
      try done.
    { intros l' Hl'. destruct (Hwl l' Hl') as [b Hb]. eauto. }
    { intros j b Hb. destruct (Hpl j b Hb) as (l' & Hl' & c & Hc). exists l'. split; [done|]. eauto. }
    exists (p' :: new). rewrite <- app_assoc. split; [done|]. rewrite fmap_cons.
    rewrite (allocate_new p' a) by done.
    set (a2 := with_bytes _ _ _ a). set (p2 := {| pl_known := _ |}).
    assert (Hl1 : live w1 !! l = Some (chargeFor (limits r) (TotalBytes f)))
      by (rewrite Hlive; apply lookup_insert_eq).
    split.
    { constructor; [|done]. apply (ready_new _ _ _ _ _ a2 l); try done.
      - by apply Lv.
      - intros E. cbn in E. destruct (Hwl l E) as [? ?]. congruence.
      - intros j b Hb E. cbn in Hb. destruct (Hpl j b Hb) as (l' & Hl' & c & Hc). congruence. }
    split.
    { constructor; [|done]. apply List.Forall_forall. intros q Hq b c Hb Hc.
      apply list_elem_of_In in Hq. destruct (Fr q c Hq Hc) as (l' & Hl' & Hn).
      injection Hb as <-. cbn. rewrite Hl'. congruence. }
    split.
    { intros q b [->|Hq]%elem_of_cons Hb; [injection Hb as <-; by exists l|].
      destruct (Fr q b Hq Hb) as (l' & Hl' & Hn). exists l'. split; [done|].
      rewrite Hlive in Hn. by apply lookup_insert_None in Hn as [? _]. }
    split; [by eauto|]. split.
    { intros s. rewrite Cl. pose proof (Hclosed s (scope r) (bytesOnly (chargeOf (limits r) f)) w) as E.
      by rewrite Er in E. }
    cbn [sumZ foldr].
    fold (sumZ delta (allocate <$> new)) (sumZ delta plan) (sumZ (pledged (limits r)) (allocate <$> new)).
    split.
    { assert (delta p2 = delta p) by (unfold delta; cbn; by rewrite Hnew). lia. }
    rewrite Ch. unfold pledged at 2. cbn [pl_a pl_new p2]. unfold charged at 1. rewrite Hlive.
    rewrite msum_insert by done. unfold charged.
    change (Credit.Claim_Bytes (bytesOnly (chargeOf (limits r) f))) with (chargeFor (limits r) (total a2)). lia.
Qed.
End invariant.
