(* ===== verification/ReassemblySteps.v ===== *)
(** * The operations of a Receiver keep its invariant

    [AddGroup] on success and on error, the expiry loops with the fuel they need, and
    [Close]. *)

From Stdlib Require Import Sorted.
From S2P Require Import Prelude CreditScope Reassembly ReassemblyList.
From S2P Require Import ReassemblyRanges ReassemblyProps ReassemblyInv.
From S2P Require Fec FecV2 FecV2Props RecvWindow.
Import FecV2 (DatagramID, TotalBytes, Offset, Payload).
Import FecV2Props (frag_typed, ft_id, ft_total, ft_offset).

(** ** Errors change nothing *)

Section errors.
Context `{L : Ledger} {LL : LedgerLaws L}.

Definition leasesOf (plan : list planned) : list Ptr :=
  omap (fun p => match pl_a p with Some a => if pl_new p then lease a else None | None => None end) plan.

Lemma rollback_live plan : forall w l,
  live (rollback plan w) !! l = if decide (l ∈ leasesOf plan) then None else live w !! l.
Proof using LL.
  induction plan as [|p plan IH]; intros w l; [done|]. cbn [rollback]. rewrite IH.
  unfold leasesOf. cbn [omap list_omap]. fold (leasesOf plan).
  destruct (pl_a p) as [a|]; [|done]. destruct (pl_new p); [|done].
  destruct (lease a) as [l0|]; [|by rewrite law_Release_nil].
  rewrite law_Release. destruct (decide (l = l0)) as [->|Hne].
  - rewrite lookup_delete_eq, (decide_True (P := l0 ∈ l0 :: _)) by (apply elem_of_cons; by left).
    by destruct (decide _).
  - rewrite lookup_delete_ne by done. destruct (decide (l ∈ leasesOf plan)) as [Hin|Hn].
    + rewrite decide_True; [done|]. apply elem_of_cons. by right.
    + rewrite decide_False; [done|]. rewrite elem_of_cons. tauto.
Qed.

Lemma rollback_closed plan : forall w s, scopeClosed s (rollback plan w) = scopeClosed s w.
Proof using LL.
  induction plan as [|p plan IH]; intros w s; [done|]. cbn [rollback]. rewrite IH.
  destruct (pl_a p); [|done]. destruct (pl_new p); [|done]. apply law_closed_Release.
Qed.

(** [w] is [w0] with the leases [ls] added. *)
Definition extends (w0 w : World) (ls : list Ptr) : Prop :=
  (forall l, l ∈ ls -> live w0 !! l = None) /\ (forall l, l ∉ ls -> live w !! l = live w0 !! l).

Lemma reserve_error r now fs : forall done_ plan w0 w e w',
  extends w0 w (leasesOf done_) -> Forall (fun p => pl_a p = None) plan ->
  reservePlan r now fs done_ plan w = (Err e, w') ->
  live w' = live w0 /\ forall s, scopeClosed s w' = scopeClosed s w.
Proof using LL.
  induction fs as [|f fs IH]; intros done_ plan w0 w e w' X P Hs; [done|].
  destruct plan as [|p plan]; [done|]. apply Forall_cons in P as [Pp P]. cbn [reservePlan] in Hs.
  assert (Happ : forall q, leasesOf (done_ ++ [q]) = leasesOf done_ ++ leasesOf [q]).
  { intros q. unfold leasesOf. by rewrite omap_app. }
  destruct (pl_new p) eqn:En; cbn [negb] in Hs.
  - destruct (Reserve (scope r) (bytesOnly (chargeOf (limits r) f)) w) as [[l|e1] w1] eqn:Er.
    + destruct (law_Reserve_ok _ _ _ _ _ Er) as [Hfree Hlive]. apply IH with (w0 := w0) in Hs; [|..|done].
      * destruct Hs as [-> Hc]. split; [done|]. intros s. rewrite Hc.
        pose proof (law_closed_Reserve s (scope r) (bytesOnly (chargeOf (limits r) f)) w) as E.
        by rewrite Er in E.
      * rewrite Happ. cbn. destruct X as [X1 X2]. split.
        -- intros l' [Hl|Hl]%elem_of_app; [by apply X1|]. apply list_elem_of_singleton in Hl as ->.
           destruct (decide (l ∈ leasesOf done_)); [by apply X1|]. by rewrite <- X2.
        -- intros l' [Hl Hl']%not_elem_of_app. rewrite list_elem_of_singleton in Hl'.
           rewrite Hlive, lookup_insert_ne by congruence. by apply X2.
    + injection Hs as <- <-. apply law_Reserve_err in Er as ->.
      split; [|apply rollback_closed]. destruct X as [X1 X2]. apply map_eq. intros l.
      rewrite rollback_live. destruct (decide (l ∈ leasesOf done_)); [by rewrite X1|by apply X2].
  - apply IH with (w0 := w0) in Hs; [done| |done]. rewrite Happ. unfold leasesOf at 2. cbn.
    rewrite Pp. by rewrite app_nil_r.
Qed.

Lemma plan_unallocated r now fs : forall count plan count',
  planFragments r now fs count = Ok (plan, count') -> Forall (fun p => pl_a p = None) plan.
Proof using.
  induction fs as [|f fs IH]; intros count plan count' Hs; cbn [planFragments] in Hs.
  - by injection Hs as <- <-.
  - match type of Hs with result_bind _ ?x = _ => destruct x as [[p c]|] eqn:E end; [|done].
    cbn [result_bind] in Hs.
    destruct (planFragments r now fs c) as [[ps c']|] eqn:Er; [|done]. injection Hs as <- <-.
    constructor; [|by eapply IH]. destruct (pending r !! DatagramID f) as [a|].
    + destruct (negb _); [done|]. destruct (due r a now); [by injection E as <- <-|].
      destruct (inspect a f) as [[k dup]|]; [|done]. cbn [result_bind] in E.
      destruct (negb dup && _); [done|]. by injection E as <- <-.
    + destruct (negb _); by injection E as <- <-.
Qed.

Lemma AddGroup_error r now fs w e r' w' :
  AddGroup r now fs w = (Err e, r', w') ->
  r' = r /\ live w' = live w /\ forall s, scopeClosed s w' = scopeClosed s w.
Proof using LL.
  intros Hs. unfold AddGroup in Hs.
  destruct (checkTime r now); [by injection Hs as <- <- <-|].
  destruct (scopeClosed (scope r) w); [by injection Hs as <- <- <-|].
  destruct (validate r fs); [by injection Hs as <- <- <-|].
  destruct (planFragments r now fs _) as [[plan count]|] eqn:Ep; [|by injection Hs as <- <- <-].
  destruct (_ <? count); [by injection Hs as <- <- <-|].
  destruct (reservePlan r now fs [] plan w) as [[plan'|e'] w1] eqn:Er.
  - by destruct (commit _ _ _ _) as [[ds r1] w2].
  - injection Hs as <- <- <-. split; [done|]. eapply reserve_error; [|by eapply plan_unallocated|exact Er].
    split; [|done]. by intros l ?%not_elem_of_nil.
Qed.
End errors.

Section steps.
Context `{L : Ledger} {LL : LedgerLaws L}.
Context {content : list Fragment -> Z -> assembly -> Prop} {good : Z -> bytes -> Prop}
  {fed : Fragment -> Prop} {TR : Tracks content good fed}.

Abbreviation Inv := (inv (content := content) (good := good)).

Definition payloadOf (d : Datagram) : Z * bytes := (id d, Data d).

Lemma checkTime_ok ex H r h w log now :
  Inv ex H r h w log -> checkTime r now = None <->
  closed r = false /\ (haveTime r = true -> last r <= now).
Proof using.
  intros I. destruct (iv_window _ _ _ _ _ _ I) as [_ Hsp _ _ _ _ _ _]. unfold checkTime.
  replace (_ =? 0) with false by lia. cbn [orb]. destruct (closed r); [naive_solver|].
  destruct (haveTime r); cbn [andb]; [|naive_solver].
  destruct (Z.ltb_spec now (last r)); naive_solver lia.
Qed.

(** Leases of live Datagrams and of other owners. *)
Definition unheld (r : Receiver) (l : Ptr) : Prop :=
  forall i a, bare (pending r) !! i = Some a -> lease a <> Some l.

Definition dueNow (r : Receiver) (now i : Z) : Prop :=
  exists a, bare (pending r) !! i = Some a /\ due r a now = true.

Lemma ready_expire_due r h w now fs plan :
  Forall2 (ready (with_time now r) h w) fs plan ->
  (exists p, p ∈ plan /\ expire_ p = true) -> exists i, dueNow r now i.
Proof using.
  intros R (p & Hp & He). induction R as [|f q fs plan Rq R IH]; [by apply not_elem_of_nil in Hp|].
  apply elem_of_cons in Hp as [->|Hp]; [|by apply IH].
  destruct Rq as [a ? ? ? Ha Hd| | | |]; try congruence. exists (DatagramID f), a. done.
Qed.

Lemma AddGroup_ok H r h w log now fs ds r' w' :
  Inv None H r h w log -> Forall frag_typed fs -> Forall fed fs ->
  AddGroup r now fs w = (Ok ds, r', w') ->
  exists h', Inv None (H ++ fs) r' h' w' (log ++ (payloadOf <$> ds)) /\
    (limits r' = limits r /\ scope r' = scope r /\ windowLease r' = windowLease r /\
     closed r' = closed r /\ last r' = now) /\
    pendingCount r' <= MaxDatagrams (limits r) /\
    charged w' - heldBytes r' = charged w - heldBytes r + sumZ (fun d => len (Data d)) ds /\
    (forall x, x ∈ ds -> exists l, dataLease x = Some l /\ live w' !! l = Some (len (Data x))) /\
    (forall l b, unheld r l -> live w !! l = Some b -> live w' !! l = Some b) /\
    Forall (fragment_ok (limits r)) fs /\
    (forall j st, RecvWindow.Spec.terminal h' !! j = Some st ->
       RecvWindow.Spec.terminal h !! j = Some st \/ j ∈ id <$> ds \/ exists i, dueNow r now i) /\
    (forall m, RecvWindow.Spec.hi h <= m -> Forall (fun f => DatagramID f <= m) fs ->
       RecvWindow.Spec.hi h' <= m) /\
    RecvWindow.spec_later h h'.
Proof using LL TR.
  intros I T Hfed Hs. unfold AddGroup in Hs.
  destruct (checkTime r now) eqn:Ec; [done|]. destruct (scopeClosed (scope r) w); [done|].
  destruct (validate r fs) eqn:Ev; [done|].
  destruct (planFragments r now fs _) as [[plan count]|] eqn:Ep; [|done].
  destruct (_ <? count) eqn:Em; [done|].
  destruct (reservePlan r now fs [] plan w) as [[plan'|e'] w1] eqn:Er; [|done].
  destruct (commit _ _ _ _) as [[ds1 r1] w2] eqn:Eo.
  assert (Hout : ds1 = ds /\ r1 = r' /\ w2 = w') by (by injection Hs as -> -> ->).
  destruct Hout as (-> & -> & ->). clear Hs.
  apply (checkTime_ok _ _ _ _ _ _ _ I) in Ec as [Hcl Htime].
  pose proof (iv_limits _ _ _ _ _ _ I) as Lk.
  unfold validate in Ev. destruct (_ || _); [done|].
  apply validateFrom_iff in Ev as [Fk Hinc]; [|done|lia|done].
  destruct (planFragments_ok _ _ _ _ _ _ _ _ _ _ I Hcl Fk T Ep) as [Sk ->].
  destruct (reserve_ok r h now fs [] plan w plan' w1 Fk T) as (new & -> & R & D & Fr & Lv & Cl & Dl & Ch);
    [..|done|done|].
  { intros l Hl. destruct (iv_windowLease _ _ _ _ _ _ I Hcl) as (l' & Hl' & Hlive). congruence. }
  { intros j b Hb. destruct (iv_slots _ _ _ _ _ _ I _ _ Hb) as [_ _ (l & X1 & X2 & _) _].
    exists l. split; [done|]. by eexists. }
  assert (Hkeep : keeps r w w1).
  { split.
    - intros l Hl. destruct (iv_windowLease _ _ _ _ _ _ I Hcl) as (l' & Hl' & b & Hb).
      assert (l' = l) as -> by congruence. rewrite Hb. by apply Lv.
    - intros i a l Ha Hl. destruct (iv_slots _ _ _ _ _ _ I _ _ Ha) as [_ _ (l' & X1 & X2 & _) _].
      assert (l' = l) as -> by congruence. rewrite X2. by apply Lv. }
  pose proof (inv_time _ _ _ _ _ _ now (inv_world _ _ _ _ _ _ _ I Hkeep) Htime) as I1.
  destruct (commit_ok fs (allocate <$> new) 0 H (with_time now r) h w1 log ds r' w' I1 Hcl eq_refl Fk T
    Hfed Hinc R D Eo) as (h' & I' & (E1 & E2 & E3 & E4 & E5 & E6) & Later & Live & Size & Charge & Leases & Term & High).
  exists h'. split; [done|]. split; [done|].
  assert (Hp : pendingCount (with_time now r) = Z.of_nat (size (pending r))).
  { unfold pendingCount, bare. by rewrite map_size_fmap. }
  change (limits (with_time now r)) with (limits r) in Charge.
  change (heldBytes (with_time now r)) with (heldBytes r) in Charge.
  split; [lia|]. split; [lia|]. split; [done|].
  split.
  { intros l b Hun Hb. rewrite Live; [by apply Lv|]. split; [exact Hun|].
    intros p a Hin Ha E. destruct (Fr p a Hin Ha) as (l' & X1 & X2). congruence. }
  split; [done|]. split; [|by split].
  intros j st Hj. destruct (Term j st Hj) as [?|[?|He]]; [by left|by right; left|].
  right. right. by eapply ready_expire_due.
Qed.

(** ** Expiry *)

Lemma heldBytes_delete r r' i a :
  limits r' = limits r -> bare (pending r') = delete i (bare (pending r)) ->
  bare (pending r) !! i = Some a ->
  heldBytes r' = heldBytes r - chargeFor (limits r) (total a).
Proof using.
  intros E Hb Ha. unfold heldBytes. rewrite Hb, E. by rewrite (msum_delete _ _ _ a).
Qed.

Lemma fields_expire i r w r' w' : expire i r w = (r', w') ->
  limits r' = limits r /\ scope r' = scope r /\ windowLease r' = windowLease r /\
  closed r' = closed r /\ haveTime r' = haveTime r /\ last r' = last r.
Proof using.
  intros E. injection E as <- _.
  destruct (fields_removePending i (with_window (snd (RecvWindow.Finish (window r) i RecvWindow.Expired)) r))
    as (? & ? & ? & ? & ? & ?). done.
Qed.

(** Expiring the head of the list. *)
Lemma expire_head H r h w log i ids r' w' :
  Inv None H r h w log -> linked r (i :: ids) -> closed r = false -> expire i r w = (r', w') ->
  exists h' l a, Inv None H r' h' w' log /\ linked r' ids /\
    bare (pending r) !! i = Some a /\ lease a = Some l /\
    bare (pending r') = delete i (bare (pending r)) /\ live w' = delete l (live w) /\
    charged w' - heldBytes r' = charged w - heldBytes r /\ Gone h' i /\ RecvWindow.spec_later h h'.
Proof using LL.
  intros I Hl Hcl E. assert (Hi : is_Some (pending r !! i)).
  { apply (ln_dom _ _ Hl). apply elem_of_cons. by left. }
  destruct Hi as [c Hc].
  assert (Ha : bare (pending r) !! i = Some (with_links 0 0 c)) by (rewrite bare_lookup; by rewrite Hc).
  destruct (expire_ok H r h w log i _ I Ha Hcl) as (l & h' & Hlease & I' & G & Hh & Hlive & Hb).
  pose proof (fields_expire _ _ _ _ _ E) as (F1 & _). rewrite E in *. cbn [fst snd] in *.
  exists h', l, (with_links 0 0 c). split; [done|]. split.
  { injection E as <- _. apply (removePending_linked _ [] i ids). by eapply linked_ext; [..|exact Hl]. }
  split; [done|]. split; [done|]. split; [done|]. split; [done|]. split.
  - rewrite (heldBytes_delete r r' i _ F1 Hb Ha). unfold charged. rewrite Hlive.
    destruct (iv_slots _ _ _ _ _ _ I _ _ Ha) as [_ _ (l' & X1 & X2 & _) _].
    assert (l' = l) as -> by congruence. rewrite (msum_delete _ _ _ _ X2). lia.
  - split; [done|]. subst h'. apply finish_later.
Qed.

Ltac nothing_due :=
  do 3 (split; [done|]); split; [done|]; split; [by intros i ?%not_elem_of_nil|];
  split; [done|]; split; [done|]; split; [by intros i ?%not_elem_of_nil|]; split; [lia|done].

Lemma expireDue_ok fuel : forall H r h w log now all ids r' w',
  Inv None H r h w log -> closed r = false -> linked r all -> (length all <= fuel)%nat ->
  expireDue fuel r now w = (ids, r', w') ->
  exists rest h', all = ids ++ rest /\ linked r' rest /\ Inv None H r' h' w' log /\
    (limits r' = limits r /\ scope r' = scope r /\ windowLease r' = windowLease r /\
     closed r' = closed r /\ last r' = last r) /\
    (forall i, i ∈ ids -> dueNow r now i) /\
    (forall i, List.head rest = Some i -> ~ dueNow r now i) /\
    (forall i, i ∉ ids -> bare (pending r') !! i = bare (pending r) !! i) /\
    (forall i, i ∈ ids -> bare (pending r') !! i = None) /\
    charged w' - heldBytes r' = charged w - heldBytes r /\
    (forall l b, unheld r l -> live w !! l = Some b -> live w' !! l = Some b).
Proof using LL.
  induction fuel as [|fuel IH]; intros H r h w log now all ids r' w' I Hcl Hl Hf Hs.
  { destruct all; [|cbn in Hf; lia]. injection Hs as <- <- <-. exists [], h. by nothing_due. }
  cbn [expireDue] in Hs. destruct all as [|i all].
  { rewrite (ln_head _ _ Hl) in Hs. injection Hs as <- <- <-. exists [], h. by nothing_due. }
  assert (Hi0 : i <> 0).
  { intros ->. apply (ln_zero _ _ Hl). apply elem_of_cons. by left. }
  rewrite (ln_head _ _ Hl) in Hs. cbn [hd] in Hs. replace (i =? 0) with false in Hs by lia.
  destruct (pending r !! i) as [c|] eqn:Hc.
  2: { destruct (proj1 (ln_dom _ _ Hl i)) as [? ?]; [apply elem_of_cons; by left|congruence]. }
  rewrite (lookup_total_correct _ _ _ Hc) in Hs.
  assert (Ha : bare (pending r) !! i = Some (with_links 0 0 c)) by (rewrite bare_lookup; by rewrite Hc).
  destruct (due r c now) eqn:Ed; cbn [negb] in Hs.
  - destruct (expire i r w) as [r1 w1] eqn:E1.
    destruct (expireDue fuel r1 now w1) as [[ids1 r2] w2] eqn:E2. injection Hs as <- <- <-.
    destruct (expire_head _ _ _ _ _ _ _ _ _ I Hl Hcl E1)
      as (h1 & l & a & I1 & L1 & Ha' & Hla & Hb & Hlive & Hch & _).
    destruct (fields_expire _ _ _ _ _ E1) as (F1 & F2 & F3 & F4 & F5 & F6).
    destruct (IH H r1 h1 w1 log now all ids1 r2 w2 I1) as
      (rest & h' & -> & L2 & I2 & (G1 & G2 & G3 & G4 & G5) & Hin & Hhead & Hother & Hnone & Hch2 & Hfr);
      [by rewrite F4|done|cbn in Hf; lia|done|].
    assert (Hnd : i ∉ ids1 ++ rest)
      by (pose proof (ln_nodup _ _ Hl) as Hnd; by apply NoDup_cons in Hnd as [? _]).
    apply not_elem_of_app in Hnd as [Hnd1 Hnd2].
    assert (Hdue : forall j, j <> i -> dueNow r1 now j <-> dueNow r now j).
    { intros j Hj. unfold dueNow. rewrite Hb, lookup_delete_ne by done.
      unfold due. by rewrite F1. }
    exists rest, h'. split; [done|]. split; [done|]. split; [done|].
    split; [repeat split; congruence|]. split.
    { intros j [->|Hj]%elem_of_cons; [by exists (with_links 0 0 c)|].
      apply Hdue; [congruence|by apply Hin]. }
    split. { intros j Hj. rewrite <- Hdue; [by apply Hhead|]. intros ->. apply Hnd2.
      destruct rest; [done|]. injection Hj as ->. apply elem_of_cons. by left. }
    split. { intros j [Hj Hj']%not_elem_of_cons. rewrite Hother by done. rewrite Hb. by apply lookup_delete_ne. }
    split. { intros j [->|Hj]%elem_of_cons; [|by apply Hnone]. rewrite Hother by done.
      rewrite Hb. by apply lookup_delete_eq. }
    split; [lia|]. intros l' b Hun Hl'. apply Hfr.
    + intros j d Hd. rewrite Hb in Hd. apply lookup_delete_Some in Hd as [_ Hd]. by eapply Hun.
    + rewrite Hlive, lookup_delete_ne; [done|]. intros <-. by apply (Hun _ _ Ha').
  - injection Hs as <- <- <-. exists (i :: all), h. split; [done|]. split; [done|]. split; [done|].
    split; [done|]. split; [by intros j ?%not_elem_of_nil|]. split.
    + intros j [= <-] (b & Hb & Hd). assert (b = with_links 0 0 c) as -> by congruence.
      change (due r (with_links 0 0 c) now) with (due r c now) in Hd. congruence.
    + split; [done|]. split; [by intros j ?%not_elem_of_nil|]. by split.
Qed.

Lemma Sub_antitone now t u : t <= u -> Sub now u <= Sub now t.
Proof using. unfold Sub. lia. Qed.

(** [Expire] takes exactly the elapsed assemblies, oldest admission first. *)
Lemma Expire_ok H r h w log now ids r' w' :
  Inv None H r h w log -> Expire r now w = (Ok ids, r', w') ->
  exists all h', linked r all /\ linked r' (drop (length ids) all) /\ ids = take (length ids) all /\
    Inv None H r' h' w' log /\
    (limits r' = limits r /\ scope r' = scope r /\ windowLease r' = windowLease r /\
     closed r' = closed r /\ last r' = now) /\
    (forall i, i ∈ ids <-> dueNow r now i) /\
    (forall i, bare (pending r') !! i = if decide (i ∈ ids) then None else bare (pending r) !! i) /\
    charged w' - heldBytes r' = charged w - heldBytes r /\
    (forall l b, unheld r l -> live w !! l = Some b -> live w' !! l = Some b).
Proof using LL.
  intros I Hs. unfold Expire in Hs. destruct (checkTime r now) eqn:Ec; [done|].
  apply (checkTime_ok _ _ _ _ _ _ _ I) in Ec as [Hcl Htime].
  destruct (expireDue _ _ _ _) as [[ids1 r1] w1] eqn:E. injection Hs as <- <- <-.
  destruct (iv_ids _ _ _ _ _ _ I) as (all & Hl & Hsort).
  destruct (expireDue_ok (size (pending r)) H (with_time now r) h w log now all ids1 r1 w1) as
    (rest & h' & Hall & L' & I' & (F1 & F2 & F3 & F4 & F5) & Hin & Hhead & Hother & Hnone & Hch & Hfr);
    [by apply inv_time|done|by eapply linked_ext; [..|exact Hl]| |done|].
  { by rewrite (linked_size _ _ Hl). }
  exists all, h'. split; [done|]. rewrite Hall, drop_app_length, take_app_length.
  split; [done|]. split; [done|]. split; [done|]. split; [done|].
  split.
  { intros i. split; [by apply Hin|]. intros (a & Ha & Hd).
    assert (Hi : i ∈ all).
    { apply (ln_dom _ _ Hl). rewrite bare_lookup in Ha. destruct (pending r !! i); [by eexists|done]. }
    rewrite Hall in Hi. apply elem_of_app in Hi as [Hi|Hi]; [done|]. exfalso.
    rewrite Hall in Hsort. destruct rest as [|j rest]; [by apply not_elem_of_nil in Hi|].
    assert (Hj : is_Some (pending r !! j)).
    { apply (ln_dom _ _ Hl). rewrite Hall. apply elem_of_app. right. apply elem_of_cons. by left. }
    destruct Hj as [c Hc].
    assert (Hb : bare (pending r) !! j = Some (with_links 0 0 c)) by (rewrite bare_lookup; by rewrite Hc).
    apply (Hhead j eq_refl). exists (with_links 0 0 c). split; [done|].
    assert (Hold : admitted (with_links 0 0 c) <= admitted a).
    { apply elem_of_cons in Hi as [->|Hi].
      - assert (a = with_links 0 0 c) as -> by congruence. lia.
      - clear -Hsort Hi Hb Ha. induction ids1 as [|x ids1 IH]; cbn [app] in Hsort;
          apply StronglySorted_inv in Hsort as [S F]; [|by apply IH].
        rewrite Forall_forall in F. by apply (F i Hi). }
    unfold due in *. cbn [limits with_time].
    pose proof (Sub_antitone now _ _ Hold). lia. }
  split.
  { intros i. destruct (decide _); [by apply Hnone|by apply Hother]. }
  by split.
Qed.

(** While nothing is due, [Expire] at most sets the clock. *)
Lemma Expire_idle H r h w log now ids r' w' :
  Inv None H r h w log -> (forall i, ~ dueNow r now i) -> Expire r now w = (ids, r', w') ->
  w' = w /\ (r' = r \/ r' = with_time now r) /\ Inv None H r' h w log.
Proof using LL.
  intros I Hd E. unfold Expire in E. destruct (checkTime r now) eqn:Ec; [injection E as <- <- <-; auto|].
  apply (checkTime_ok _ _ _ _ _ _ _ I) in Ec as [Hcl Htime].
  assert (X : expireDue (size (pending r)) (with_time now r) now w = ([], with_time now r, w)).
  { destruct (size (pending r)); [done|]. cbn [expireDue]. destruct (head _ =? 0) eqn:H0; [done|].
    destruct (iv_ids _ _ _ _ _ _ I) as ([|i all] & Hl & _); change (head (with_time now r)) with (head r) in *;
      rewrite (ln_head _ _ Hl) in *; [done|]. cbn [hd] in *.
    destruct (proj1 (ln_dom _ _ Hl i)) as [a Ha]; [apply elem_of_cons; by left|].
    change (pending (with_time now r)) with (pending r). rewrite (lookup_total_correct _ _ _ Ha).
    destruct (due _ a now) eqn:Da; [|done]. exfalso. apply (Hd i). exists (with_links 0 0 a).
    split; [by rewrite bare_lookup, Ha|exact Da]. }
  rewrite X in E. injection E as <- <- <-. split; [done|]. split; [by right|]. by apply inv_time.
Qed.

Lemma expireAll_ok fuel : forall H r h w log all r' w',
  Inv None H r h w log -> closed r = false -> linked r all -> (length all <= fuel)%nat ->
  expireAll fuel r w = (r', w') ->
  exists h', Inv None H r' h' w' log /\ pending r' = ∅ /\ head r' = 0 /\
    (limits r' = limits r /\ scope r' = scope r /\ windowLease r' = windowLease r /\
     closed r' = closed r) /\
    (forall l, unheld r l -> live w' !! l = live w !! l) /\
    (forall i a l, bare (pending r) !! i = Some a -> lease a = Some l -> live w' !! l = None).
Proof using LL.
  induction fuel as [|fuel IH]; intros H r h w log all r' w' I Hcl Hl Hf Hs.
  { destruct all; [|cbn in Hf; lia]. injection Hs as <- <-. exists h.
    assert (Hemp : pending r = ∅).
    { apply map_empty. intros i. destruct (pending r !! i) eqn:E; [|done]. exfalso.
      assert (i ∈ []) as Hi by (apply (ln_dom _ _ Hl); by eexists). by apply not_elem_of_nil in Hi. }
    split; [done|]. split; [done|]. split; [apply (ln_head _ _ Hl)|]. split; [done|]. split; [done|].
    intros i a l. rewrite Hemp. unfold bare. rewrite fmap_empty. by rewrite lookup_empty. }
  cbn [expireAll] in Hs. destruct all as [|i all].
  { rewrite (ln_head _ _ Hl) in Hs. apply (IH H r h w log [] r' w'); try done; [cbn; lia|].
    destruct fuel; [done|]. cbn [expireAll]. by rewrite (ln_head _ _ Hl). }
  assert (Hi0 : i <> 0).
  { intros ->. apply (ln_zero _ _ Hl). apply elem_of_cons. by left. }
  rewrite (ln_head _ _ Hl) in Hs. cbn [hd] in Hs. replace (i =? 0) with false in Hs by lia.
  destruct (expire i r w) as [r1 w1] eqn:E1.
  destruct (expire_head _ _ _ _ _ _ _ _ _ I Hl Hcl E1)
    as (h1 & l & a & I1 & L1 & Ha & Hla & Hb & Hlive & _).
  destruct (fields_expire _ _ _ _ _ E1) as (F1 & F2 & F3 & F4 & F5 & F6).
  destruct (IH H r1 h1 w1 log all r' w' I1) as (h' & I' & Hp & Hh & (G1 & G2 & G3 & G4) & Hun & Hheld);
    [by rewrite F4|done|cbn in Hf; lia|done|].
  exists h'. split; [done|]. split; [done|]. split; [done|]. split; [repeat split; congruence|].
  assert (Hun1 : forall l', unheld r1 l' -> live w' !! l' = if decide (l' = l) then None else live w !! l').
  { intros l' Hl'. rewrite Hun by done. rewrite Hlive. destruct (decide (l' = l)) as [->|];
      [apply lookup_delete_eq|by apply lookup_delete_ne]. }
  split.
  - intros l' Hl'. rewrite Hun1.
    + rewrite decide_False; [done|]. intros ->. by apply (Hl' _ _ Ha).
    + intros j b Hj. rewrite Hb in Hj. apply lookup_delete_Some in Hj as [_ Hj]. by eapply Hl'.
  - intros j b l' Hj Hlb. destruct (decide (j = i)) as [->|Hji].
    + assert (l' = l) as -> by congruence. rewrite Hun1; [by rewrite decide_True|].
      intros k c Hk Hlc. rewrite Hb in Hk. apply lookup_delete_Some in Hk as [Hik Hk].
      apply Hik. apply (iv_leases _ _ _ _ _ _ I i k a c); [done|done|congruence].
    + apply (Hheld j b); [|done]. rewrite Hb, lookup_delete_ne by done. done.
Qed.

Lemma expireAll_with_closed fuel l : forall r w,
  expireAll fuel (with_closed l r) w
  = let '(r', w') := expireAll fuel r w in (with_closed l r', w').
Proof using.
  induction fuel as [|fuel IH]; intros r w; [done|]. cbn [expireAll head with_closed].
  destruct (head r =? 0); [done|].
  assert (E : expire (head r) (with_closed l r) w
    = let '(r', w') := expire (head r) r w in (with_closed l r', w')).
  { unfold expire, removePending. cbn. by destruct (previous _ =? 0), (next _ =? 0). }
  rewrite E. destruct (expire (head r) r w) as [r1 w1]. apply IH.
Qed.

(** [Close] returns every lease the Receiver holds and touches no other. *)
Lemma Close_ok H r h w log r' w' :
  Inv None H r h w log -> closed r = false -> Close r w = (r', w') ->
  exists h', Inv None H r' h' w' log /\ closed r' = true /\ limits r' = limits r /\
    (forall i a l, bare (pending r) !! i = Some a -> lease a = Some l -> live w' !! l = None) /\
    (forall l, windowLease r = Some l -> live w' !! l = None) /\
    (forall l, unheld r l -> windowLease r <> Some l -> live w' !! l = live w !! l).
Proof using LL.
  intros I Hcl Hs. unfold Close in Hs. rewrite Hcl, expireAll_with_closed in Hs.
  destruct (expireAll (size (pending r)) r w) as [r1 w1] eqn:E.
  destruct (iv_ids _ _ _ _ _ _ I) as (all & Hl & _).
  destruct (expireAll_ok (size (pending r)) H r h w log all r1 w1 I Hcl Hl) as
    (h1 & I1 & Hp & Hh & (F1 & F2 & F3 & F4) & Hun & Hheld); [by rewrite (linked_size _ _ Hl)|done|].
  destruct (iv_windowLease _ _ _ _ _ _ I Hcl) as (lw & Hlw & Hlwlive).
  injection Hs as <- <-. rewrite Hlw. exists (RecvWindow.Spec.close h1).
  pose proof I1 as [J1 J2 J3 J4 J5 J6 J7 J8 J9 J10 J11 J12].
  assert (Hlater : RecvWindow.spec_later h1 (RecvWindow.Spec.close h1))
    by exact (RecvWindow.specStep_later h1 RecvWindow.OpClose).
  split.
  { split; cbn [limits window closed windowLease pending with_closed with_window with_pending];
      try done.
    - by apply RecvWindow.Close_spec.
    - exists []. split; [|constructor]. split; cbn; try done.
      + destruct J4 as (ids & Hl1 & _). rewrite (ln_tail _ _ Hl1).
        assert (ids = []) as ->; [|done]. destruct ids as [|x ids]; [done|].
        destruct (proj1 (ln_dom _ _ Hl1 x)) as [? Hx]; [apply elem_of_cons; by left|].
        by rewrite Hp, lookup_empty in Hx.
      + constructor.
      + intros i. rewrite lookup_empty. split; [by intros ?%not_elem_of_nil|by intros [? ?]].
      + apply not_elem_of_nil.
    - intros f Hf. right. destruct (J11 f Hf) as [[a Ha]|G]; [|by eapply Gone_later].
      by rewrite Hp in Ha. }
  split; [done|]. split; [done|].
  assert (Hw : forall l, live (Release (Some lw) w1) !! l = if decide (l = lw) then None else live w1 !! l).
  { intros l. rewrite law_Release. destruct (decide (l = lw)) as [->|]; [apply lookup_delete_eq|].
    by apply lookup_delete_ne. }
  split.
  { intros i a l Ha Hla. rewrite Hw. destruct (decide _); [done|]. by eapply Hheld. }
  split.
  { intros l [= <-]. rewrite Hw. by rewrite decide_True. }
  intros l Hu Hne. rewrite Hw, decide_False by congruence. by apply Hun.
Qed.
End steps.
