(* ===== verification/ReassemblyRun.v ===== *)
(** * What a Receiver guarantees

    Runs of a Receiver among other users of the credit ledger, and the properties of
    every run: delivered Datagrams are original, delivered once, delivered as soon as
    they are covered; failures change nothing; leases are accounted for. *)

From S2P Require Import Prelude CreditScope Reassembly ReassemblyList.
From S2P Require Import ReassemblyRanges ReassemblyProps ReassemblyInv ReassemblySteps.
From S2P Require Fec FecV2 FecV2Props RecvWindow Credit.
Import FecV2 (DatagramID, TotalBytes, Offset, Payload).
Import FecV2Props (frag_typed, ft_id, ft_total, ft_offset).

(** ** Runs *)

Section runs.
Context `{L : Ledger} {LL : LedgerLaws L}.

(** [reach P H r w log]: the Receiver [r] and ledger [w] after the fragments [H], all
    of which satisfy [P], were added, with the deliveries [log]. *)
Inductive reach (P : Fragment -> Prop)
    : list Fragment -> Receiver -> World -> list (Z * bytes) -> Prop :=
  | reach_new s lim w r w' : New s lim w = (Ok r, w') -> reach P [] r w' []
  | reach_prepaid s lim l w r w' : NewPrepaid s lim l w = (Ok r, w') -> reach P [] r w' []
  | reach_group H r w log now fs ds r' w' :
      reach P H r w log -> Forall frag_typed fs -> Forall P fs ->
      AddGroup r now fs w = (Ok ds, r', w') -> reach P (H ++ fs) r' w' (log ++ (payloadOf <$> ds))
  | reach_refused H r w log now fs e r' w' :
      reach P H r w log -> AddGroup r now fs w = (Err e, r', w') -> reach P H r' w' log
  | reach_expire H r w log now ids r' w' :
      reach P H r w log -> Expire r now w = (ids, r', w') -> reach P H r' w' log
  | reach_close H r w log r' w' :
      reach P H r w log -> Close r w = (r', w') -> reach P H r' w' log
  | reach_world H r w w' log : reach P H r w log -> keeps r w w' -> reach P H r w' log.

Section invariant.
Context {content : list Fragment -> Z -> assembly -> Prop} {good : Z -> bytes -> Prop}
  {fed : Fragment -> Prop} {TR : Tracks content good fed}.

Abbreviation Inv := (inv (content := content) (good := good)).

Lemma window_New lim : limits_ok lim -> exists x, RecvWindow.New (Span lim) = Ok x.
Proof using.
  intros Lk. unfold RecvWindow.New, RecvWindow.MaxSpan. destruct (lk_span _ Lk).
  replace (_ || _) with false by lia. by eexists.
Qed.

Lemma NewPrepaid_ok s lim prepaid w r w' :
  NewPrepaid s lim prepaid w = (Ok r, w') ->
  Inv None [] r (RecvWindow.Spec.new (Span lim)) w' [] /\ live w' = live w /\ limits r = lim /\
  windowLease r = prepaid /\ closed r = false /\ pending r = ∅.
Proof using LL.
  intros Hs. unfold NewPrepaid in Hs.
  destruct (RequiredInitialBytes lim) as [n|] eqn:En; [|done].
  apply RequiredInitialBytes_iff in En as [Lk ->].
  destruct (_ || _); [done|]. destruct (BindBytes s prepaid _ w) as [[l|e] w1] eqn:Eb; [|done].
  destruct (law_Bind_ok _ _ _ _ _ _ Eb) as (-> & Hlive & b & Hb & _).
  destruct (window_New lim Lk) as [x Hx]. rewrite Hx in Hs. injection Hs as <- <-.
  split; [|by rewrite Hlive].
  split; cbn [limits window closed windowLease pending newReceiver]; try done.
  - by apply RecvWindow.New_spec.
  - exists []. split; [|constructor]. split; cbn; try done; [constructor| |apply not_elem_of_nil].
    intros i. rewrite lookup_empty. split; [by intros ?%not_elem_of_nil|by intros [? ?]].
  - intros _. exists l. split; [done|]. rewrite Hlive. by eexists.
  - constructor.
  - by intros i d ?%not_elem_of_nil.
  - by intros f ?%not_elem_of_nil.
Qed.

Lemma New_ok s lim w r w' :
  New s lim w = (Ok r, w') -> Inv None [] r (RecvWindow.Spec.new (Span lim)) w' [].
Proof using LL.
  intros Hs. unfold New in Hs. destruct (RequiredInitialBytes lim); [|done].
  destruct (_ || _); [done|]. destruct (Reserve _ _ _) as [[l|e] w1]; [|done].
  destruct (NewPrepaid _ _ _ _) as [[r1|e] w2] eqn:E; [|done]. injection Hs as <- <-.
  by apply NewPrepaid_ok in E as [? _].
Qed.

Lemma keeps_same r w w' : live w' = live w -> keeps r w w'.
Proof using. intros E. split; intros; by rewrite E. Qed.

Lemma reach_inv (P : Fragment -> Prop) H r w log :
  (forall f, P f -> fed f) -> reach P H r w log -> exists h, Inv None H r h w log.
Proof using LL TR.
  intros HP R. induction R as [s lim w r w' E|s lim l w r w' E|H r w log now fs ds r' w' R [h I] T F E
    |H r w log now fs e r' w' R [h I] E|H r w log now ids r' w' R [h I] E|H r w log r' w' R [h I] E
    |H r w w' log R [h I] K].
  - eexists. by eapply New_ok.
  - eexists. by apply NewPrepaid_ok in E as [? _].
  - destruct (AddGroup_ok H r h w log now fs ds r' w' I T) as (h' & I' & _); [|done|by exists h'].
    eapply Forall_impl; [exact F|done].
  - apply AddGroup_error in E as (-> & E & _). exists h. eapply inv_world; [done|]. by apply keeps_same.
  - destruct ids as [ids|e].
    + destruct (Expire_ok _ _ _ _ _ _ _ _ _ I E) as (all & h' & _ & _ & _ & I' & _). by exists h'.
    + unfold Expire in E. destruct (checkTime r now); [by injection E as <- <- <-; exists h|].
      by destruct (expireDue _ _ _ _) as [[? ?] ?].
  - destruct (closed r) eqn:Hcl.
    + unfold Close in E. rewrite Hcl in E. injection E as <- <-. by exists h.
    + destruct (Close_ok _ _ _ _ _ _ _ I Hcl E) as (h' & I' & _). by exists h'.
  - exists h. by eapply inv_world.
Qed.
End invariant.

(** ** Tracking *)

(** Nothing. *)
Definition anything (H : list Fragment) (i : Z) (a : assembly) : Prop := True.
Definition any_bytes (i : Z) (d : bytes) : Prop := True.

#[local] Instance tracks_nothing : Tracks anything any_bytes (fun _ => True).
Proof using. split; auto. Qed.

(** [f] is cut from one of the original Datagrams. *)
Definition cut_from (orig : Z -> option bytes) (f : Fragment) : Prop :=
  exists o, orig (DatagramID f) = Some o /\ TotalBytes f = len o /\
    Payload f = slice (Z.to_nat (Offset f)) (Z.to_nat (Offset f + len (Payload f))) o.

Definition holds_original (orig : Z -> option bytes) (H : list Fragment) (i : Z) (a : assembly) : Prop :=
  exists o, orig i = Some o /\ total a = len o /\ agrees (data a) (ranges a) o.

Lemma finished_agrees o a : finished a -> total a = len o -> agrees (data a) (ranges a) o -> data a = o.
Proof using.
  intros [Hl Hf] Ht A. destruct Hf as [H0|[C Hc]].
  - rewrite H0 in *. assert (E : o = []) by (apply len_zero; lia). apply len_zero in Hl. congruence.
  - pose proof (covered_all _ _ _ 0 (total a) ltac:(lia) C ltac:(lia) A) as E.
    assert (E1 : Z.to_nat (total a) = length (data a)) by (unfold len in Hl; lia).
    assert (E2 : Z.to_nat (total a) = length o) by (unfold len in Ht; lia).
    rewrite E1 in E at 1. rewrite E2 in E. change (Z.to_nat 0) with 0%nat in E. by rewrite !slice_all in E.
Qed.

Lemma tracks_original orig :
  Tracks (holds_original orig) (fun i d => orig i = Some d) (cut_from orig).
Proof using.
  split; unfold holds_original.
  - done.
  - intros H f a (o & Ho & Ht & _) E Hr _. exists o. split; [done|]. split; [congruence|].
    rewrite Hr. intros i v. by rewrite lookup_nil.
  - intros H f lim a k Lk Fk (o & Ho & Ht & Hp) B E P (o' & Ho' & Ht' & A). rewrite Ho in Ho'. injection Ho' as <-.
    exists o. split; [done|]. split; [exact Ht'|]. exact (stored_agrees lim a f k Lk Fk B E P _ A Hp).
  - done.
  - intros H i a (o & Ho & Ht & A) F. rewrite Ho. f_equal. symmetry. by apply finished_agrees.
Qed.

(** Every fragment added is one of the received ranges. *)
Definition holds_all (H : list Fragment) (i : Z) (a : assembly) : Prop :=
  forall f, f ∈ H -> DatagramID f = i -> total a = TotalBytes f /\
    exists v, v ∈ ranges a /\ start v = Offset f /\ stop v = Offset f + len (Payload f).

Lemma tracks_all : Tracks holds_all any_bytes (fun _ => True).
Proof using.
  split; unfold holds_all; try done.
  - intros H f i a Hc Hne g [Hg|Hg]%elem_of_app Hi; [by apply Hc|].
    apply list_elem_of_singleton in Hg as ->. done.
  - intros H f a _ _ _ Hno g Hg Hi. by destruct (Hno g Hg).
  - intros H f lim a k Lk Fk _ B Ht P Hc g Hg Hi. destruct (stored_ranges lim a f k Lk Fk) as [-> _].
    apply elem_of_app in Hg as [Hg|Hg].
    + destruct (Hc g Hg Hi) as (Et & v & Hv & Hs). split; [exact Et|]. exists v. split; [|done].
      rewrite <- (take_drop k (ranges a)) in Hv. apply elem_of_app in Hv as [Hv|Hv]; apply elem_of_app.
      * by left.
      * right. apply elem_of_cons. by right.
    + apply list_elem_of_singleton in Hg as ->. split; [exact Ht|].
      exists {| start := Offset f; stop := Offset f + len (Payload f) |}. split; [|done].
      apply elem_of_app. right. apply elem_of_cons. by left.
  - intros H f lim a k Lk Fk _ [_ _ C _] Ht Hi Hc g [Hg|Hg]%elem_of_app E; [by apply Hc|].
    apply list_elem_of_singleton in Hg as ->. split; [exact Ht|].
    destruct (inspect_duplicate lim a f k Lk Fk C Hi) as (v & ? & ? & ? & _). by exists v.
Qed.

(** ** Bounds and accounts *)

Lemma reach_limits P H r w log : reach P H r w log -> limits_ok (limits r).
Proof using LL.
  intros R. destruct (reach_inv (TR := tracks_nothing) P H r w log (fun _ _ => Logic.I) R) as [h I].
  apply I.
Qed.

Lemma pendingCount_size r : pendingCount r = Z.of_nat (size (pending r)).
Proof using. unfold pendingCount, bare. by rewrite map_size_fmap. Qed.

Lemma reach_count P H r w log : reach P H r w log -> pendingCount r <= MaxDatagrams (limits r).
Proof using LL.
  intros R. induction R as [s lim w r w' E|s lim l w r w' E|H r w log now fs ds r' w' R IH T F E
    |H r w log now fs e r' w' R IH E|H r w log now ids r' w' R IH E|H r w log r' w' R IH E
    |H r w w' log R IH K].
  - pose proof (New_ok (content := anything) (good := any_bytes) _ _ _ _ _ E) as I.
    unfold New in E. destruct (RequiredInitialBytes lim); [|done].
    destruct (_ || _); [done|]. destruct (Reserve _ _ _) as [[l|e] w1]; [|done].
    destruct (NewPrepaid _ _ _ _) as [[r1|e] w2] eqn:E1; [|done]. injection E as <- <-.
    apply (NewPrepaid_ok (content := anything) (good := any_bytes)) in E1 as (_ & _ & _ & _ & _ & Hp).
    rewrite pendingCount_size, Hp, map_size_empty. destruct (iv_limits _ _ _ _ _ _ I) as [? _ _ _ _]. lia.
  - apply (NewPrepaid_ok (content := anything) (good := any_bytes)) in E as (I & _ & _ & _ & _ & Hp).
    rewrite pendingCount_size, Hp, map_size_empty. destruct (iv_limits _ _ _ _ _ _ I) as [? _ _ _ _]. lia.
  - destruct (reach_inv (TR := tracks_nothing) P H r w log (fun _ _ => Logic.I) R) as [h I].
    destruct (AddGroup_ok H r h w log now fs ds r' w' I T) as (h' & I' & (E1 & _) & Hc & _); [by apply Forall_true|done|].
    by rewrite E1.
  - by apply AddGroup_error in E as (-> & _).
  - destruct (reach_inv (TR := tracks_nothing) P H r w log (fun _ _ => Logic.I) R) as [h I].
    destruct ids as [ids|e].
    + destruct (Expire_ok _ _ _ _ _ _ _ _ _ I E) as (all & h' & L1 & L2 & _ & _ & (E1 & _) & _).
      rewrite pendingCount_size in *. rewrite (linked_size _ _ L1) in IH. rewrite (linked_size _ _ L2), E1.
      rewrite length_drop. lia.
    + unfold Expire in E. destruct (checkTime r now); [by injection E as <- <- <-|].
      by destruct (expireDue _ _ _ _) as [[? ?] ?].
  - destruct (reach_inv (TR := tracks_nothing) P H r w log (fun _ _ => Logic.I) R) as [h I].
    destruct (closed r) eqn:Hcl.
    + unfold Close in E. rewrite Hcl in E. by injection E as <- <-.
    + destruct (Close_ok _ _ _ _ _ _ _ I Hcl E) as (h' & I' & Hc' & E1 & _).
      rewrite pendingCount_size, (iv_shut _ _ _ _ _ _ I' Hc'), map_size_empty.
      destruct (iv_limits _ _ _ _ _ _ I') as [? _ _ _ _]. lia.
  - done.
Qed.

(** ** Covered Datagrams are delivered *)

(** Runs in which no assembly times out, no identifier leaves the window and the
    Receiver is not closed.  [Expire] may be called at any time at which nothing is due. *)
Inductive prompt (orig : Z -> option bytes) (lo : Z)
    : list Fragment -> Receiver -> World -> list (Z * bytes) -> Prop :=
  | prompt_new s lim w r w' : 0 <= lo -> New s lim w = (Ok r, w') -> prompt orig lo [] r w' []
  | prompt_prepaid s lim l w r w' :
      0 <= lo -> NewPrepaid s lim l w = (Ok r, w') -> prompt orig lo [] r w' []
  | prompt_group H r w log now fs ds r' w' :
      prompt orig lo H r w log -> Forall frag_typed fs -> Forall (cut_from orig) fs ->
      Forall (fun f => lo < DatagramID f <= lo + Span (limits r)) fs ->
      (forall i, ~ dueNow r now i) -> AddGroup r now fs w = (Ok ds, r', w') ->
      prompt orig lo (H ++ fs) r' w' (log ++ (payloadOf <$> ds))
  | prompt_refused H r w log now fs e r' w' :
      prompt orig lo H r w log -> AddGroup r now fs w = (Err e, r', w') -> prompt orig lo H r' w' log
  | prompt_expire H r w log now ids r' w' :
      prompt orig lo H r w log -> (forall i, ~ dueNow r now i) -> Expire r now w = (ids, r', w') ->
      prompt orig lo H r' w' log
  | prompt_world H r w w' log :
      prompt orig lo H r w log -> keeps r w w' -> prompt orig lo H r w' log.

Lemma prompt_reach orig lo H r w log : prompt orig lo H r w log -> reach (cut_from orig) H r w log.
Proof using.
  induction 1.
  - by eapply reach_new.
  - by eapply reach_prepaid.
  - by eapply reach_group.
  - by eapply reach_refused.
  - by eapply reach_expire.
  - by eapply reach_world.
Qed.

(** The fragments in [H] cover Datagram [i], of [n] bytes. *)
Definition covers (H : list Fragment) (i n : Z) : Prop :=
  (exists f, f ∈ H /\ DatagramID f = i /\ TotalBytes f = n) /\
  forall x, 0 <= x < n ->
    exists f, f ∈ H /\ DatagramID f = i /\ Offset f <= x < Offset f + len (Payload f).

Lemma chain_covered rs : forall lo hi,
  chain lo rs hi -> (forall x, lo <= x < hi -> exists v, v ∈ rs /\ start v <= x < stop v) ->
  covered rs = hi - lo.
Proof using.
  induction rs as [|v rs IH]; intros lo hi C Hx.
  - change (lo <= hi) in C. change (covered []) with 0. destruct (decide (lo < hi)); [|lia].
    destruct (Hx lo) as (u & Hu & _); [lia|]. by apply not_elem_of_nil in Hu.
  - destruct C as (C1 & C2 & C). change (covered (v :: rs)) with (width v + covered rs). unfold width.
    pose proof (chain_le _ _ _ C).
    assert (Hafter : forall u, u ∈ rs -> stop v <= start u).
    { intros u [k Hk]%list_elem_of_lookup_1. by destruct (chain_bounds _ _ _ _ _ C Hk). }
    assert (lo = start v).
    { destruct (decide (lo = start v)); [done|]. destruct (Hx lo) as (u & Hu & Hs); [lia|].
      apply elem_of_cons in Hu as [->|Hu]; [lia|]. specialize (Hafter u Hu). lia. }
    rewrite (IH (stop v) hi C); [lia|]. intros x Hr. destruct (Hx x) as (u & Hu & Hs); [lia|].
    apply elem_of_cons in Hu as [->|Hu]; [lia|]. by exists u.
Qed.

(** What holds in a prompt run, beyond the invariant with every fragment tracked: a
    window that has not moved past [lo], and no identifier finished but by delivery. *)
Record prompt_ok (lo : Z) (H : list Fragment) (r : Receiver) (h : RecvWindow.Spec.t) (w : World)
    (log : list (Z * bytes)) : Prop := {
  pr_inv : inv (content := holds_all) (good := any_bytes) None H r h w log;
  pr_open : closed r = false;
  pr_low : 0 <= lo;
  pr_high : RecvWindow.Spec.hi h <= lo + Span (limits r);
  pr_span : RecvWindow.Spec.sp h = Span (limits r);
  pr_ids : Forall (fun f => lo < DatagramID f) H;
  pr_done : forall j st, RecvWindow.Spec.terminal h !! j = Some st -> j ∈ log.*1 }.

Lemma NewPrepaid_prompt s lim prepaid w r w' lo :
  0 <= lo -> NewPrepaid s lim prepaid w = (Ok r, w') ->
  prompt_ok lo [] r (RecvWindow.Spec.new (Span lim)) w' [].
Proof using LL.
  intros H0 E. pose proof (NewPrepaid_ok (content := holds_all) (good := any_bytes) _ _ _ _ _ _ E)
    as (I & _ & E2 & _ & Hc & _).
  pose proof (lk_span _ (iv_limits _ _ _ _ _ _ I)). rewrite E2 in *. split; cbn; rewrite ?E2; try done; lia.
Qed.

(** [New] pays for itself. *)
Lemma New_prepaid s lim w r w' :
  New s lim w = (Ok r, w') -> exists l w1, NewPrepaid s lim l w1 = (Ok r, w').
Proof using.
  unfold New. destruct (RequiredInitialBytes lim); [|done]. destruct (_ || _); [done|].
  destruct (Reserve _ _ _) as [[l|e] w1]; [|done].
  destruct (NewPrepaid _ _ _ _) as [[r1|e] w2] eqn:E; [|done]. intros [= <- <-]. eauto.
Qed.

Lemma prompt_inv orig lo H r w log : prompt orig lo H r w log -> exists h, prompt_ok lo H r h w log.
Proof using LL.
  intros R. induction R as [s lim w r w' H0 E|s lim l w r w' H0 E|H r w log now fs ds r' w' R IH T F Hid Hdue E
    |H r w log now fs e r' w' R IH E|H r w log now ids r' w' R IH Hdue E|H r w w' log R IH K].
  - apply New_prepaid in E as (l & w1 & E). eexists. by eapply NewPrepaid_prompt.
  - eexists. by eapply NewPrepaid_prompt.
  - destruct IH as (h & [I Hcl H0 Hhi Hsp Hlo Hterm]).
    destruct (AddGroup_ok (TR := tracks_all) H r h w log now fs ds r' w' I T) as
      (h' & I' & (E1 & _ & _ & E4 & _) & _ & _ & _ & _ & _ & Ht & Hh & Hlater); [by apply Forall_true|done|].
    exists h'. split; try done.
    + by rewrite E4.
    + rewrite E1. apply Hh; [done|]. eapply Forall_impl; [exact Hid|]. cbn. lia.
    + rewrite E1. by destruct Hlater as [-> _].
    + apply Forall_app. split; [done|]. eapply Forall_impl; [exact Hid|]. cbn. lia.
    + intros j st Hj. rewrite fmap_app. apply elem_of_app. destruct (Ht j st Hj) as [Hj'|[Hj'|[i Hi]]].
      * left. by eapply Hterm.
      * right. rewrite <- list_fmap_compose. exact Hj'.
      * by apply Hdue in Hi.
  - destruct IH as (h & [I ? ? ? ? ? ?]). apply AddGroup_error in E as (-> & E & _).
    exists h. split; try done. eapply inv_world; [done|]. by apply keeps_same.
  - destruct IH as (h & [I ? ? ? ? ? ?]). exists h.
    destruct (Expire_idle _ _ _ _ _ _ _ _ _ I Hdue E) as (-> & [-> | ->] & I'); by split.
  - destruct IH as (h & [I ? ? ? ? ? ?]). exists h. split; try done. by eapply inv_world.
Qed.

(** No assembly waits for bytes it has. *)
Lemma covered_not_pending orig lo H r h w log i a n :
  inv (content := holds_all) (good := any_bytes) None H r h w log ->
  prompt orig lo H r w log -> covers H i n -> bare (pending r) !! i = Some a -> False.
Proof using.
  intros I _ [(f & Hf & Hi & Hn) Hc] Ha.
  destruct (iv_bodies _ _ _ _ _ _ I i a Ha) as [[[_ _ B3 B4] Hlt _] Hall]; [done|].
  destruct (Hall f Hf Hi) as [Ht _]. assert (Hcov : covered (ranges a) = total a - 0).
  { apply chain_covered; [done|]. intros x Hx. destruct (Hc x) as (g & Hg & Hgi & Hgx); [lia|].
    destruct (Hall g Hg Hgi) as (_ & v & Hv & Hs & He). exists v. split; [done|]. lia. }
  lia.
Qed.

Lemma delivered_original orig H r w log :
  reach (cut_from orig) H r w log ->
  NoDup log.*1 /\ forall i d, (i, d) ∈ log -> orig i = Some d.
Proof using LL.
  intros R. destruct (reach_inv (TR := tracks_original orig) _ H r w log (fun f Hf => Hf) R) as [h I].
  split; [apply I|]. intros i d Hd. by apply (iv_log _ _ _ _ _ _ I).
Qed.

Lemma covered_delivered orig lo H r w log i d :
  prompt orig lo H r w log -> orig i = Some d -> covers H i (len d) -> (i, d) ∈ log.
Proof using LL.
  intros R Ho Hc. destruct (prompt_inv _ _ _ _ _ _ R) as (h & [I Hcl H0 Hhi Hsp Hlo Hterm]).
  destruct (delivered_original _ _ _ _ _ (prompt_reach _ _ _ _ _ _ R)) as [_ Horig].
  assert (Hin : i ∈ log.*1).
  { pose proof Hc as [(f & Hf & Hi & _) _].
    destruct (iv_seen _ _ _ _ _ _ I f Hf) as [[a Ha]|[G0 G]]; rewrite Hi in *.
    - destruct (covered_not_pending _ _ _ _ _ _ _ _ _ _ I R Hc Ha).
    - destruct G as [(st & _ & Hst)|Hfl]; [by eapply Hterm|].
      rewrite Forall_forall in Hlo. specialize (Hlo f Hf). rewrite Hi in Hlo.
      unfold RecvWindow.Spec.floor in Hfl. lia. }
  apply list_elem_of_fmap in Hin as ([j d'] & -> & Hd). cbn in Ho. specialize (Horig j d' Hd).
  by assert (d' = d) as -> by congruence.
Qed.

(** C38: A Receiver only ever delivers original Datagrams, each at most once.  In
    every run whose fragments are cut from the Datagrams [orig] (in any order,
    repeated, overlapping with refused groups, with expiries, closes and other
    users of the credit ledger in between), each delivery is that of an original
    Datagram with exactly its bytes, and no identifier is delivered twice. *)
Theorem delivered_is_original orig H r w log :
  reach (cut_from orig) H r w log ->
  NoDup log.*1 /\ forall i d, (i, d) ∈ log -> orig i = Some d.
Proof using LL. apply delivered_original. Qed.

(** C39: A Datagram is delivered as soon as its bytes have arrived.  Take any run of a
    Receiver, prepaid or not, that is not closed, whose fragments are cut from the
    Datagrams [orig] with identifiers in the [Span] above [lo], and in which no assembly
    is due when [AddGroup] or [Expire] is called (both may be called at any time until
    then, among refused groups and other users of the ledger).  If the admitted fragments
    cover Datagram [i] then it has been delivered with its original bytes, whatever the
    order, grouping and repetition of the fragments. *)
Theorem covered_is_delivered orig lo H r w log i d :
  prompt orig lo H r w log -> orig i = Some d -> covers H i (len d) -> (i, d) ∈ log.
Proof using LL. apply covered_delivered. Qed.

(** A refused group changes nothing: when [AddGroup] returns an error, the
    Receiver is the same (identifiers, assemblies, payloads, clock) and so are the
    live leases of the ledger with their charges, whatever was reserved before the
    failure; the Session is as open as before. *)
Theorem AddGroup_refused r now fs w e r' w' :
  AddGroup r now fs w = (Err e, r', w') ->
  r' = r /\ live w' = live w /\ forall s, scopeClosed s w' = scopeClosed s w.
Proof using LL. apply AddGroup_error. Qed.

(** C40: Bounds and ownership in every run: at most [MaxDatagrams] Datagrams are
    pending, each incomplete, within the byte limit and in at most [MaxFragments]
    ranges; each owns a live lease charged exactly its length, range storage and
    links, no two the same; and the linked list visits each pending Datagram once,
    in the order of admission. *)
Theorem receiver_bounded P H r w log :
  reach P H r w log ->
  Z.of_nat (size (pending r)) <= MaxDatagrams (limits r) /\
  (forall i a, pending r !! i = Some a ->
     0 <= received a < total a /\ total a <= lim_MaxDatagramBytes (limits r) /\
     len (data a) = total a /\ 1 <= len (ranges a) <= MaxFragments (limits r) /\
     exists l, lease a = Some l /\
       live w !! l = Some (total a + MaxFragments (limits r) * intervalBytes + deadlineLinkBytes)) /\
  (forall i j a b, pending r !! i = Some a -> pending r !! j = Some b -> lease a = lease b -> i = j) /\
  exists ids, linked r ids /\ Sorted.StronglySorted (older (bare (pending r))) ids.
Proof using LL.
  intros R. pose proof (reach_count _ _ _ _ _ R) as Hc. rewrite pendingCount_size in Hc.
  destruct (reach_inv (TR := tracks_nothing) P H r w log (fun _ _ => Logic.I) R) as [h I].
  assert (Hb : forall i a, pending r !! i = Some a -> bare (pending r) !! i = Some (with_links 0 0 a))
    by (intros i a Ha; rewrite bare_lookup; by rewrite Ha).
  split; [done|]. split; [|split; [|apply I]].
  - intros i a Ha. destruct (iv_bodies _ _ _ _ _ _ I _ _ (Hb _ _ Ha)) as [[[W1 W2 W3 W4] W5 W6] _]; [done|].
    destruct (iv_slots _ _ _ _ _ _ I _ _ (Hb _ _ Ha)) as [_ _ (l & Hl & Hlive & _) _].
    pose proof (covered_nonneg _ _ _ W3). cbn [total received ranges data lease with_links] in *.
    split; [lia|]. split; [lia|]. split; [done|]. split; [done|]. exists l. split; [done|].
    rewrite Hlive. f_equal. unfold chargeFor, u64, intervalBytes, deadlineLinkBytes.
    destruct (iv_limits _ _ _ _ _ _ I) as [_ ? ? _ _]. apply wrap_small. unfold in_u. lia.
  - intros i j a b Ha Hj E. by apply (iv_leases _ _ _ _ _ _ I i j _ _ (Hb _ _ Ha) (Hb _ _ Hj)).
Qed.

(** [Expire] retires exactly the Datagrams whose deadline has passed, oldest
    admission first, in one pass that always ends; everything else stays, the
    Receiver's charges shrink by exactly theirs, and no other lease is touched. *)
Theorem Expire_exact P H r w log now ids r' w' :
  reach P H r w log -> Expire r now w = (Ok ids, r', w') ->
  (exists all, linked r all /\ ids = take (length ids) all) /\
  (forall i, i ∈ ids <-> exists a, pending r !! i = Some a /\ due r a now = true) /\
  (forall i, bare (pending r') !! i = if decide (i ∈ ids) then None else bare (pending r) !! i) /\
  charged w' - heldBytes r' = charged w - heldBytes r /\
  (forall l b, unheld r l -> live w !! l = Some b -> live w' !! l = Some b).
Proof using LL.
  intros R E. destruct (reach_inv (TR := tracks_nothing) P H r w log (fun _ _ => Logic.I) R) as [h I].
  destruct (Expire_ok _ _ _ _ _ _ _ _ _ I E) as (all & h' & L1 & _ & L3 & _ & _ & Hd & Hb & Hch & Hfr).
  split; [by exists all|]. split; [|done]. intros i. rewrite Hd. unfold dueNow.
  setoid_rewrite bare_lookup. destruct (pending r !! i) as [a|]; cbn; [|naive_solver].
  split; intros (b & [= <-] & Hb'); eexists; split; try reflexivity; exact Hb'.
Qed.

(** Closing gives back everything the Receiver holds and nothing else: after
    [Close] no Datagram is pending, the leases of the pending assemblies and of the
    window are released, and every other lease, in particular those of Datagrams
    already handed out, is as before. *)
Theorem Close_releases P H r w log r' w' :
  reach P H r w log -> closed r = false -> Close r w = (r', w') ->
  closed r' = true /\ pending r' = ∅ /\
  (forall i a l, pending r !! i = Some a -> lease a = Some l -> live w' !! l = None) /\
  (forall l, windowLease r = Some l -> live w' !! l = None) /\
  (forall l, (forall i a, pending r !! i = Some a -> lease a <> Some l) -> windowLease r <> Some l ->
     live w' !! l = live w !! l).
Proof using LL.
  intros R Hcl E. destruct (reach_inv (TR := tracks_nothing) P H r w log (fun _ _ => Logic.I) R) as [h I].
  destruct (Close_ok _ _ _ _ _ _ _ I Hcl E) as (h' & I' & Hc & _ & Hp & Hw & Ho).
  split; [done|]. split; [by apply (iv_shut _ _ _ _ _ _ I')|]. split.
  { intros i a l Ha Hl. apply (Hp i (with_links 0 0 a)); [|done]. rewrite bare_lookup. by rewrite Ha. }
  split; [done|]. intros l Hun Hne. apply Ho; [|done]. intros i a Ha.
  destruct (pending_of_bare _ _ _ Ha) as (b & Hb & _ & ->). by apply (Hun i b).
Qed.
End runs.
