(* ===== verification/ReassemblyDemo.v ===== *)
(** * A Receiver at work

    A concrete run on the ledger of [Credit]: two Datagrams in three groups, out of
    order, with a refused group and a repeated one in between. *)

From S2P Require Import Prelude CreditScope Reassembly ReassemblyList.
From S2P Require Import ReassemblyProps ReassemblyInv ReassemblySteps ReassemblyRun.
From S2P Require Credit FecV2 FecV2Props RecvWindow.
Import FecV2 (DatagramID, TotalBytes, Offset, Payload).
Import FecV2Props (frag_typed, ft_id, ft_total, ft_offset).

Definition ledgerLimits : Credit.Limits := {|
  Credit.MaxPeerBytes := 2 ^ 20; Credit.MaxSessionBytes := 2 ^ 20; Credit.MaxSessions := 4;
  Credit.MaxPendingHandshakes := 4; Credit.MaxPendingAccepts := 4; Credit.MaxStreamsPerSession := 4;
  Credit.MaxPeerStreams := 4; Credit.MaxReservations := 100 |}.

Definition valueOf {E A} (d : A) (r : result E A) : A := match r with Ok a => a | Err _ => d end.

Definition ledger0 : Credit.heap * Ptr :=
  let '(p, h) := Credit.New ledgerLimits Credit.emptyHeap in
  let p := valueOf 1%positive p in
  let '(s, h) := Credit.BeginSession (Some p) Credit.zeroClaim h in
  (h, fst (valueOf (1%positive, None) s)).

Definition demoLimits : Limits := {| MaxDatagrams := 4; lim_MaxDatagramBytes := 1000; MaxFragments := 4;
  Span := 64; Timeout := 10 ^ 9 |}.

Definition bytes7 : bytes := [Byte.x61; Byte.x62; Byte.x63; Byte.x64; Byte.x65].
Definition orig (i : Z) : option bytes :=
  if i =? 7 then Some bytes7 else if i =? 9 then Some [] else None.

Definition piece (i total offset : Z) (p : bytes) : Fragment :=
  {| DatagramID := i; TotalBytes := total; Offset := offset; Payload := p |}.

(** The tail of 7, and the empty Datagram 9. *)
Definition group1 : list Fragment := [piece 7 5 3 [Byte.x64; Byte.x65]; piece 9 0 0 []].
(** Bytes that contradict [group1]. *)
Definition groupBad : list Fragment := [piece 7 5 3 [Byte.x64; Byte.x64]].
(** The head of 7. *)
Definition group2 : list Fragment := [piece 7 5 0 [Byte.x61; Byte.x62; Byte.x63]].

Definition World0 : @World creditLedger := fst ledger0.
Definition made := New (Some (snd ledger0)) demoLimits World0.
Definition receiver0 : Receiver := valueOf zeroReceiver (fst made).
Abbreviation world0 := (snd made).

Definition added1 := AddGroup receiver0 5 group1 world0.
Abbreviation receiver1 := (snd (fst added1)).
Abbreviation world1 := (snd added1).
Definition refused := AddGroup receiver1 6 groupBad world1.
Definition added2 := AddGroup receiver1 6 group2 world1.
Abbreviation receiver2 := (snd (fst added2)).
Abbreviation world2 := (snd added2).

Definition datagram (i : Z) (d : bytes) (l : Ptr) : Datagram :=
  {| id := i; Data := d; dataLease := Some l |}.

Definition isNone {A} (o : option A) : bool := match o with None => true | Some _ => false end.

Lemma pair_first {A B} (x : A * B) a : fst x = a -> x = (a, snd x).
Proof. destruct x. by intros <-. Qed.

Lemma triple_first {A B C} (x : A * B * C) a : fst (fst x) = a -> x = (a, snd (fst x), snd x).
Proof. destruct x as [[]]. by intros <-. Qed.

Lemma made_ok : made = (Ok receiver0, world0).
Proof. apply pair_first. vm_compute. reflexivity. Qed.

Lemma added1_ok : exists l, AddGroup receiver0 5 group1 world0 = (Ok [datagram 9 [] l], receiver1, world1).
Proof. eexists. fold added1. apply triple_first. vm_compute. reflexivity. Qed.

Lemma added2_ok : exists l, AddGroup receiver1 6 group2 world1 = (Ok [datagram 7 bytes7 l], receiver2, world2).
Proof. eexists. fold added2. apply triple_first. vm_compute. reflexivity. Qed.

Lemma not_due r now :
  forallb (fun x => negb (due r (snd x) now)) (map_to_list (pending r)) = true ->
  forall i, ~ dueNow r now i.
Proof.
  intros H i (a & Ha & Hd). destruct (pending_of_bare _ _ _ Ha) as (b & Hb & _ & ->).
  rewrite forallb_forall in H. apply elem_of_map_to_list, list_elem_of_In in Hb.
  specialize (H _ Hb). cbn in H. change (due r (with_links 0 0 b) now) with (due r b now) in Hd.
  by rewrite Hd in H.
Qed.

Ltac typed := repeat (constructor; [split; cbv; split; congruence|]); constructor.

(** The fragments of a list are cut from [orig]. *)
Ltac cuts := repeat (constructor; [eexists; split; [reflexivity|split; vm_compute; reflexivity]|]); constructor.

Lemma demo_prompt :
  prompt orig 0 (([] ++ group1) ++ group2) receiver2 world2 (([] ++ [(9, [])]) ++ [(7, bytes7)]).
Proof.
  destruct added1_ok as [l1 E1]. destruct added2_ok as [l2 E2].
  assert (P0 : prompt orig 0 [] receiver0 world0 []) by (eapply prompt_new; [done|exact made_ok]).
  assert (P1 : prompt orig 0 ([] ++ group1) receiver1 world1 ([] ++ [(9, [])])).
  { change [(9, [])] with (payloadOf <$> [datagram 9 [] l1]).
    eapply prompt_group; [exact P0|typed|cuts| | |exact E1].
    - repeat (constructor; [vm_compute; split; congruence|]). constructor.
    - apply not_due. vm_compute. reflexivity. }
  change [(7, bytes7)] with (payloadOf <$> [datagram 7 bytes7 l2]).
  eapply prompt_group; [exact P1|typed|cuts| | |exact E2].
  - repeat (constructor; [vm_compute; split; congruence|]). constructor.
  - apply not_due. vm_compute. reflexivity.
Qed.

Lemma demo_reach1 : reach (cut_from orig) ([] ++ group1) receiver1 world1 ([] ++ [(9, [])]).
Proof.
  destruct added1_ok as [l1 E1].
  change [(9, [])] with (payloadOf <$> [datagram 9 [] l1]).
  eapply reach_group; [eapply reach_new; exact made_ok|typed| |exact E1].
  cuts.
Qed.

Example delivered_is_original_witness :
  NoDup [9; 7] /\ (7, bytes7) ∈ [(9, []); (7, bytes7)].
Proof.
  destruct (delivered_is_original orig _ receiver2 world2 _ (prompt_reach _ _ _ _ _ _ demo_prompt))
    as [N _].
  split; [exact N|]. apply elem_of_cons. right. by apply list_elem_of_singleton.
Defined.

Lemma demo_covers : covers (([] ++ group1) ++ group2) 7 (len bytes7).
Proof.
  split.
  - exists (piece 7 5 3 [Byte.x64; Byte.x65]). split; [|done]. apply elem_of_cons. by left.
  - intros x Hx. change (len bytes7) with 5 in Hx. destruct (decide (x < 3)).
    + exists (piece 7 5 0 [Byte.x61; Byte.x62; Byte.x63]). split; [|split; [done|]].
      * cbn [app group1 group2]. do 2 (apply elem_of_cons; right). apply elem_of_cons. by left.
      * change (0 <= x < 0 + 3). lia.
    + exists (piece 7 5 3 [Byte.x64; Byte.x65]). split; [|split; [done|]].
      * apply elem_of_cons. by left.
      * change (3 <= x < 3 + 2). lia.
Qed.

Example covered_is_delivered_witness : (7, bytes7) ∈ ([] ++ [(9, [])]) ++ [(7, bytes7)].
Proof. exact (covered_is_delivered orig 0 _ receiver2 world2 _ 7 bytes7 demo_prompt eq_refl demo_covers). Defined.

Abbreviation afterRefusal := (AddGroup receiver1 6 groupBad world1).

Example AddGroup_refused_witness :
  snd (fst afterRefusal) = receiver1 /\ live (snd afterRefusal) = live world1.
Proof.
  destruct (AddGroup_refused receiver1 6 groupBad world1 ErrInvalid (snd (fst afterRefusal))
    (snd afterRefusal)) as (E1 & E2 & _); [|by split].
  apply triple_first. vm_compute. reflexivity.
Defined.

Example receiver_bounded_witness : Z.of_nat (size (pending receiver1)) <= 4.
Proof.
  pose proof demo_reach1 as R.
  destruct (receiver_bounded (cut_from orig) _ receiver1 world1 _ R) as [B _].
  etransitivity; [exact B|]. vm_compute. congruence.
Defined.

Abbreviation expired := (Expire receiver1 (5 + 10 ^ 9) world1).

Example Expire_exact_witness :
  (7 ∈ [7] <-> exists a, pending receiver1 !! 7 = Some a /\ due receiver1 a (5 + 10 ^ 9) = true) /\
  bare (pending (snd (fst expired))) !! 7 = None.
Proof.
  pose proof demo_reach1 as R.
  destruct (Expire_exact (cut_from orig) _ receiver1 world1 _ (5 + 10 ^ 9) [7] (snd (fst expired))
    (snd expired) R) as (_ & H1 & H2 & _); [|split; [apply H1|]].
  - apply triple_first. vm_compute. reflexivity.
  - rewrite H2. apply decide_True. by apply list_elem_of_singleton.
Defined.

Abbreviation shut := (Close receiver1 world1).

Example Close_releases_witness :
  closed (fst shut) = true /\ pending (fst shut) = ∅.
Proof.
  pose proof demo_reach1 as R.
  destruct (Close_releases (cut_from orig) _ receiver1 world1 _ (fst shut) (snd shut) R)
    as (E1 & E2 & _); [|apply surjective_pairing|by split].
  vm_compute. reflexivity.
Defined.
