(* ===== verification/Aggregation.v ===== *)
(** * The aggregation queue of version 2 ([internal/aggregationv2])

    A [Queue] holds admitted Datagrams in a ring, plans the next group, and seals it
    with the codec of [FecV2].  Each method runs under the queue's mutex and is one
    function on the queue, the output workspaces and the credit ledger; workspaces
    and queues are addressed by pointer, since the source compares them.  Times are
    nanoseconds. *)

From S2P Require Import Prelude CreditScope.
From S2P Require Fec FecV2 Credit.

(** ** Data *)

Inductive QueueError :=
| ErrInvalid | ErrClosed | ErrMessageTooLarge | ErrIDExhausted | ErrClockRegression
| CreditErr (e : CreditError) | GroupErr (e : FecV2.GroupError).
#[global] Instance QueueError_eq_dec : EqDecision QueueError.
Proof. solve_decision. Defined.

Definition ErrResourceLimit : QueueError := CreditErr Credit.ErrResourceLimit.

Record Limits := {
  MaxQueuedDatagrams : Z;
  MaxQueuedBytes : Z;
  MaxDatagramBytes : Z;
  MaxFragmentsPerDatagram : Z;
  MaxDelay : Z }.

Record Epoch := { EpochID : Z; EpochParameters : FecV2.Parameters }.

Record entry := {
  id : Z;
  payload : bytes;
  offset : Z;
  fragments : Z;
  admittedAt : Z;
  lease : option Ptr }.

Definition zeroEntry : entry :=
  {| id := 0; payload := []; offset := 0; fragments := 0; admittedAt := 0; lease := None |}.
#[global] Instance entry_inhabited : Inhabited entry := populate zeroEntry.

Record Queue := {
  self : Ptr;
  session : option Ptr;
  limits : Limits;
  epoch : Epoch;
  codec : FecV2.Codec;
  ring : list entry;
  ringLease : option Ptr;
  head : nat;
  count : nat;
  retainedBytes : Z;
  nextDatagramID : Z;
  nextGroupID : Z;
  outputBytes : Z;
  lastNow : Z;
  haveNow : bool;
  closed : bool }.

Record SealedGroup := { EncodingEpoch : Z; GroupID : Z; SealedOf : FecV2.Group }.

(** [outputState]; the zero group is [None]. *)
Record Output := {
  group : option SealedGroup;
  out_lease : option Ptr;
  workspace : option Ptr;
  released : bool }.

(** [outputWorkspaceState] *)
Record Workspace := { ws_queue : option Ptr; ws_lease : option Ptr; busy : bool; ws_closed : bool }.

Definition Workspaces := gmap Ptr Workspace.

(** Field updates. *)
Definition with_ring (r : list entry) (h c : nat) (bytes : Z) (q : Queue) : Queue := {|
  self := self q; session := session q; limits := limits q; epoch := epoch q; codec := codec q;
  ring := r; ringLease := ringLease q; head := h; count := c; retainedBytes := bytes;
  nextDatagramID := nextDatagramID q; nextGroupID := nextGroupID q; outputBytes := outputBytes q;
  lastNow := lastNow q; haveNow := haveNow q; closed := closed q |}.
Definition with_ids (d g : Z) (q : Queue) : Queue := {|
  self := self q; session := session q; limits := limits q; epoch := epoch q; codec := codec q;
  ring := ring q; ringLease := ringLease q; head := head q; count := count q;
  retainedBytes := retainedBytes q; nextDatagramID := d; nextGroupID := g;
  outputBytes := outputBytes q; lastNow := lastNow q; haveNow := haveNow q; closed := closed q |}.
Definition with_closed (q : Queue) : Queue := {|
  self := self q; session := session q; limits := limits q; epoch := epoch q; codec := codec q;
  ring := ring q; ringLease := ringLease q; head := head q; count := count q;
  retainedBytes := retainedBytes q; nextDatagramID := nextDatagramID q;
  nextGroupID := nextGroupID q; outputBytes := outputBytes q; lastNow := lastNow q;
  haveNow := haveNow q; closed := true |}.
Definition without_ring (q : Queue) : Queue := {|
  self := self q; session := session q; limits := limits q; epoch := epoch q; codec := codec q;
  ring := []; ringLease := None; head := head q; count := count q;
  retainedBytes := retainedBytes q; nextDatagramID := nextDatagramID q;
  nextGroupID := nextGroupID q; outputBytes := outputBytes q; lastNow := lastNow q;
  haveNow := haveNow q; closed := closed q |}.
Definition clockLocked (now : Z) (q : Queue) : Queue := {|
  self := self q; session := session q; limits := limits q; epoch := epoch q; codec := codec q;
  ring := ring q; ringLease := ringLease q; head := head q; count := count q;
  retainedBytes := retainedBytes q; nextDatagramID := nextDatagramID q;
  nextGroupID := nextGroupID q; outputBytes := outputBytes q; lastNow := now; haveNow := true;
  closed := closed q |}.

(** ** Creation *)

(** Sizes of an [entry] and of a slice header. *)
Definition slotBytes : Z := 80.
Definition sliceBytes : Z := 24.

Definition RequiredInitialBytes (lim : Limits) : result QueueError Z :=
  fail (MaxQueuedDatagrams lim <? 1) || (65536 <? MaxQueuedDatagrams lim) || (MaxQueuedBytes lim =? 0)
       || (Credit.MaxRetainedBytes <? MaxQueuedBytes lim) || (MaxDatagramBytes lim =? 0)
       || (FecV2.MaxDatagramBytes <? MaxDatagramBytes lim) || (MaxFragmentsPerDatagram lim <? 1)
       || (4096 <? MaxFragmentsPerDatagram lim) || (MaxDelay lim <? 10 ^ 3)
       || (10 * 10 ^ 6 <? MaxDelay lim) with ErrInvalid in
  fail maxUint64 / slotBytes <? MaxQueuedDatagrams lim with ErrInvalid in
  Ok (u64 (MaxQueuedDatagrams lim * slotBytes)).

Definition newQueue (addr : Ptr) (s : option Ptr) (lim : Limits) (ep : Epoch) (c : FecV2.Codec) (l : Ptr)
    : Queue :=
  let p := EpochParameters ep in
  let n := u64 (FecV2.DataShards p + FecV2.ParityShards p) in
  {| self := addr; session := s; limits := lim; epoch := ep; codec := c;
     ring := replicate (Z.to_nat (MaxQueuedDatagrams lim)) zeroEntry; ringLease := Some l;
     head := 0; count := 0; retainedBytes := 0; nextDatagramID := 1; nextGroupID := 1;
     outputBytes := u64 (n * (FecV2.ShardBytes p + sliceBytes)); lastNow := 0; haveNow := false;
     closed := false |}.

Section operations.
Context `{Ledger}.

Definition prepare `{Fec.ReedSolomon} (s : option Ptr) (lim : Limits) (ep : Epoch) (w : World)
    : result QueueError (FecV2.Codec * Z) :=
  let state := Snapshot s w in
  fail Credit.session_Closed state || Credit.PendingHandshake state with ErrInvalid in
  let? ringBytes := RequiredInitialBytes lim in
  fail EpochID ep =? 0 with ErrInvalid in
  match FecV2.New (EpochParameters ep) with
  | Err e => Err (GroupErr e)
  | Ok c =>
      fail u32 (FecV2.par_MaxDatagramBytes (EpochParameters ep)) <? MaxDatagramBytes lim with ErrInvalid in
      Ok (c, ringBytes)
  end.

Definition New `{Fec.ReedSolomon} (addr : Ptr) (s : option Ptr) (lim : Limits) (ep : Epoch) (w : World)
    : result QueueError Queue * World :=
  match prepare s lim ep w with
  | Err e => (Err e, w)
  | Ok (c, n) =>
      match Reserve s (bytesOnly n) w with
      | (Err e, w) => (Err (CreditErr e), w)
      | (Ok l, w) => (Ok (newQueue addr s lim ep c l), w)
      end
  end.

Definition NewPrepaid `{Fec.ReedSolomon} (addr : Ptr) (s : option Ptr) (lim : Limits) (ep : Epoch)
    (prepaid : option Ptr) (w : World) : result QueueError Queue * World :=
  match prepare s lim ep w with
  | Err e => (Err e, w)
  | Ok (c, n) =>
      match BindBytes s prepaid n w with
      | (Err e, w) => (Err (CreditErr e), w)
      | (Ok l, w) => (Ok (newQueue addr s lim ep c l), w)
      end
  end.

(** ** Admission *)

Definition sessionClosed (q : Queue) (w : World) : bool :=
  match session q with None => true | Some _ => scopeClosed (session q) w end.

Definition checkLocked (q : Queue) (now : Z) (w : World) : option QueueError :=
  if closed q || sessionClosed q w then Some ErrClosed else
  if haveNow q && (now <? lastNow q) then Some ErrClockRegression else None.

Definition fragmentCount (n capacity : Z) : Z :=
  if n =? 0 then 0 else 1 + (n - 1) / capacity.

(** Position [i] of the queue in the ring. *)
Definition slot (q : Queue) (i : nat) : nat := ((head q + i) mod length (ring q))%nat.

Definition freshCapacity (p : FecV2.Parameters) : Z :=
  FecV2.par_MaxLogicalBytes p - Z.of_nat FecV2.ManifestBytes - Z.of_nat FecV2.DescriptorBytes.

Definition Admit (q : Queue) (data : bytes) (now : Z) (w : World) : result QueueError Z * Queue * World :=
  match checkLocked q now w with
  | Some e => (Err e, q, w)
  | None =>
  if (nextDatagramID q =? 0) || (nextGroupID q =? 0) then (Err ErrIDExhausted, q, w) else
  let capacity := freshCapacity (EpochParameters (epoch q)) in
  if (MaxDatagramBytes (limits q) <? len data)
     || ((0 <? len data)
         && ((capacity =? 0)
             || (MaxFragmentsPerDatagram (limits q) <? fragmentCount (len data) capacity)))
  then (Err ErrMessageTooLarge, q, w) else
  if (count q =? length (ring q))%nat
     || (u64 (MaxQueuedBytes (limits q) - retainedBytes q) <? len data)
  then (Err ErrResourceLimit, q, w) else
  match (if 0 <? len data
         then match Reserve (session q) (bytesOnly (len data)) w with
              | (Err e, w) => (Err (CreditErr e), w) | (Ok l, w) => (Ok (Some l), w) end
         else (Ok None, w)) with
  | (Err e, w) => (Err e, q, w)
  | (Ok l, w) =>
      let i := nextDatagramID q in
      let e := {| id := i; payload := data; offset := 0; fragments := 0; admittedAt := now;
                  lease := l |} in
      let q := with_ring (<[slot q (count q) := e]> (ring q)) (head q) (S (count q))
                 (u64 (retainedBytes q + len data)) q in
      (Ok i, clockLocked now (with_ids (u64 (i + 1)) (nextGroupID q) q), w)
  end
  end.

(** ** Planning *)

Record plan := { planFragments : list FecV2.Fragment; cursor : FecV2.Cursor; full : bool }.

(** [FecV2.Fragment] of what is left of an entry. *)
Definition remaining (e : entry) : FecV2.Fragment := {|
  FecV2.DatagramID := id e; FecV2.TotalBytes := u32 (len (payload e)); FecV2.Offset := offset e;
  FecV2.Payload := drop (Z.to_nat (offset e)) (payload e) |}.

(** The planning loop from queue position [i]; [n] positions are left. *)
Fixpoint planLoop (q : Queue) (n i : nat) (used : Z) (result : plan) : plan * Z :=
  match n with
  | O => (result, used)
  | S n =>
      let p := EpochParameters (epoch q) in
      let e := ring q !!! slot q i in
      let left := len (payload e) - offset e in
      let room := FecV2.par_MaxLogicalBytes p - used - Z.of_nat FecV2.DescriptorBytes in
      let stopped := ({| planFragments := planFragments result; cursor := cursor result; full := true |},
                      used) in
      if (len (planFragments result) =? FecV2.par_MaxDescriptors p) || (room <? 0)
         || ((room =? 0) && (0 <? left)) then stopped else
      let consumed := Z.min room left in
      if (consumed <? left)
         && (MaxFragmentsPerDatagram (limits q)
             <? fragments e + 1 + fragmentCount (left - consumed) (freshCapacity p)) then stopped else
      let fs := planFragments result ++ [remaining e] in
      let used := used + Z.of_nat FecV2.DescriptorBytes + consumed in
      if consumed <? left
      then ({| planFragments := fs;
               cursor := {| FecV2.Next := i; FecV2.Bytes := Z.to_nat consumed |}; full := true |}, used)
      else planLoop q n (S i) used
             {| planFragments := fs; cursor := {| FecV2.Next := S i; FecV2.Bytes := 0 |};
                full := full result |}
  end.

Definition planLocked (q : Queue) : plan :=
  let p := EpochParameters (epoch q) in
  let '(result, used) := planLoop q (count q) 0 (Z.of_nat FecV2.ManifestBytes)
    {| planFragments := []; cursor := FecV2.zeroCursor; full := false |} in
  if (used =? FecV2.par_MaxLogicalBytes p)
     || (len (planFragments result) =? FecV2.par_MaxDescriptors p)
  then {| planFragments := planFragments result; cursor := cursor result; full := true |}
  else result.

Definition dueLocked (q : Queue) (now : Z) (p : plan) : bool :=
  (0 <? count q)%nat
  && (full p || negb (now <? admittedAt (ring q !!! head q) + MaxDelay (limits q))).

Definition Ready (q : Queue) (now : Z) (w : World) : result QueueError bool * Queue :=
  match checkLocked q now w with
  | Some e => (Err e, q)
  | None => let q := clockLocked now q in (Ok (dueLocked q now (planLocked q)), q)
  end.

(** ** Workspaces *)

Definition acquire (s : Ptr) (q : Ptr) (ws : Workspaces) : option QueueError * Workspaces :=
  match ws !! s with
  | None => (Some ErrInvalid, ws)
  | Some state =>
      if ws_closed state then (Some ErrClosed, ws) else
      if negb (bool_decide (ws_queue state = Some q)) then (Some ErrInvalid, ws) else
      if busy state then (Some ErrResourceLimit, ws) else
      (None, <[s := {| ws_queue := ws_queue state; ws_lease := ws_lease state; busy := true;
                       ws_closed := ws_closed state |}]> ws)
  end.

Definition releaseOutput (s : Ptr) (ws : Workspaces) (w : World) : Workspaces * World :=
  match ws !! s with
  | None => (ws, w)
  | Some state =>
      if ws_closed state
      then (<[s := {| ws_queue := ws_queue state; ws_lease := None; busy := false; ws_closed := true |}]> ws,
            Release (ws_lease state) w)
      else (<[s := {| ws_queue := ws_queue state; ws_lease := ws_lease state; busy := false;
                      ws_closed := false |}]> ws, w)
  end.

(** ** Sealing *)

Definition dropHeadLocked (q : Queue) (w : World) : Queue * World :=
  let e := ring q !!! head q in
  (with_ring (<[head q := zeroEntry]> (ring q)) ((head q + 1) mod length (ring q)) (count q - 1)
     (u64 (retainedBytes q - len (payload e))) q,
   Release (lease e) w).

Fixpoint dropHeads (n : nat) (q : Queue) (w : World) : Queue * World :=
  match n with
  | O => (q, w)
  | S n => let '(q, w) := dropHeadLocked q w in dropHeads n q w
  end.

(** [e.offset += n; e.fragments++] at the head. *)
Definition consumeHead (n : nat) (q : Queue) : Queue :=
  let e := ring q !!! head q in
  with_ring (<[head q := {| id := id e; payload := payload e; offset := u32 (offset e + Z.of_nat n);
                            fragments := fragments e + 1; admittedAt := admittedAt e;
                            lease := lease e |}]> (ring q))
    (head q) (count q) (retainedBytes q) q.

Definition reserveOutput (q : Queue) (space : option Ptr) (ws : Workspaces) (w : World)
    : result QueueError (option Ptr) * Workspaces * World :=
  match space with
  | None => match Reserve (session q) (bytesOnly (outputBytes q)) w with
            | (Err e, w) => (Err (CreditErr e), ws, w) | (Ok l, w) => (Ok (Some l), ws, w) end
  | Some s => match acquire s (self q) ws with
              | (Some e, ws) => (Err e, ws, w) | (None, ws) => (Ok None, ws, w) end
  end.

Definition undoOutput (l space : option Ptr) (ws : Workspaces) (w : World) : Workspaces * World :=
  let w := Release l w in
  match space with None => (ws, w) | Some s => releaseOutput s ws w end.

Definition seal (q : Queue) (now : Z) (force : bool) (space : option Ptr) (ws : Workspaces) (w : World)
    : result QueueError (option Output) * Queue * Workspaces * World :=
  match checkLocked q now w with
  | Some e => (Err e, q, ws, w)
  | None =>
  if (count q =? 0)%nat then (Ok None, clockLocked now q, ws, w) else
  if nextGroupID q =? 0 then (Err ErrIDExhausted, q, ws, w) else
  let planned := planLocked q in
  if negb force && negb (dueLocked q now planned) then (Ok None, clockLocked now q, ws, w) else
  if len (planFragments planned) =? 0 then (Err ErrInvalid, q, ws, w) else
  match reserveOutput q space ws w with
  | (Err e, ws, w) => (Err e, q, ws, w)
  | (Ok l, ws, w) =>
      match FecV2.EncodePrefix (codec q) (planFragments planned) with
      | Err e => let '(ws, w) := undoOutput l space ws w in (Err (GroupErr e), q, ws, w)
      | Ok (g, c) =>
          if negb (bool_decide (c = cursor planned))
          then let '(ws, w) := undoOutput l space ws w in (Err ErrInvalid, q, ws, w)
          else
            let out := {| group := Some {| EncodingEpoch := EpochID (epoch q); GroupID := nextGroupID q;
                                           SealedOf := g |};
                          out_lease := l; workspace := space; released := false |} in
            let '(q, w) := dropHeads (FecV2.Next c) q w in
            let q := if (0 <? FecV2.Bytes c)%nat then consumeHead (FecV2.Bytes c) q else q in
            let q := with_ids (nextDatagramID q) (u64 (nextGroupID q + 1)) q in
            (Ok (Some out), clockLocked now q, ws, w)
      end
  end
  end.

Definition Seal (q : Queue) (now : Z) (force : bool) (ws : Workspaces) (w : World) :=
  seal q now force None ws w.

Definition SealWithWorkspace (q : Queue) (now : Z) (force : bool) (space : option Ptr)
    (ws : Workspaces) (w : World) : result QueueError (option Output) * Queue * Workspaces * World :=
  match space with
  | None => (Err ErrInvalid, q, ws, w)
  | Some s => seal q now force (Some s) ws w
  end.

(** ** Cancellation and close *)

Fixpoint findID (q : Queue) (target : Z) (n i : nat) : option nat :=
  match n with
  | O => None
  | S n => if id (ring q !!! slot q i) =? target then Some i else findID q target n (S i)
  end.

(** The shifting loop of [Cancel] from position [j]. *)
Fixpoint shiftDown (q : Queue) (n j : nat) (r : list entry) : list entry :=
  match n with
  | O => r
  | S n => shiftDown q n (S j) (<[slot q j := r !!! slot q (S j)]> r)
  end.

Definition Cancel (q : Queue) (target : Z) (w : World) : bool * Queue * World :=
  if closed q || bool_decide (session q = None) then (false, q, w) else
  match findID q target (count q) 0 with
  | None => (false, q, w)
  | Some i =>
      let e := ring q !!! slot q i in
      let r := shiftDown q (count q - 1 - i) i (ring q) in
      (true, with_ring (<[slot q (count q - 1) := zeroEntry]> r) (head q) (count q - 1)
               (u64 (retainedBytes q - len (payload e))) q,
       Release (lease e) w)
  end.

Definition Close (q : Queue) (w : World) : Queue * World :=
  if closed q then (q, w) else
  let '(q, w) := dropHeads (count q) (with_closed q) w in
  (without_ring q, Release (ringLease q) w).

(** ** Queries, outputs and workspaces *)

Record QueueSnapshot := {
  QueuedDatagrams : Z; snap_RetainedBytes : Z; NextDatagramID : Z; NextGroupID : Z;
  OldestDeadline : option Z; snap_Closed : bool }.

Definition Queue_Snapshot (q : Queue) (w : World) : QueueSnapshot := {|
  QueuedDatagrams := Z.of_nat (count q); snap_RetainedBytes := retainedBytes q;
  NextDatagramID := nextDatagramID q; NextGroupID := nextGroupID q;
  OldestDeadline := if (0 <? count q)%nat
                    then Some (admittedAt (ring q !!! head q) + MaxDelay (limits q)) else None;
  snap_Closed := closed q || sessionClosed q w |}.

Definition View (o : Output) : option SealedGroup * bool := (group o, negb (released o)).

Definition Output_Release (o : Output) (ws : Workspaces) (w : World) : Output * Workspaces * World :=
  if released o then (o, ws, w) else
  let w := Release (out_lease o) w in
  let o' := {| group := None; out_lease := None; workspace := None; released := true |} in
  match workspace o with
  | None => (o', ws, w)
  | Some s => let '(ws, w) := releaseOutput s ws w in (o', ws, w)
  end.

(** Sizes of the four owner structures. *)
Definition ownerBytes : Z := 8 + 32 + 8 + 80.

Definition RequiredOutputWorkspaceBytes (shards shardBytes : Z) : result QueueError Z :=
  fail (shards <? 2) || (256 <? shards) || (shardBytes <? 1) || (FecV2.MaxShardBytes <? shardBytes)
    with ErrInvalid in
  Ok (u64 (shards * (shardBytes + sliceBytes) + ownerBytes)).

Definition NewPrepaidOutputWorkspace (q : Queue) (prepaid : option Ptr) (ws : Workspaces) (w : World)
    : result QueueError Ptr * Workspaces * World :=
  if closed q || sessionClosed q w then (Err ErrClosed, ws, w) else
  let p := EpochParameters (epoch q) in
  match RequiredOutputWorkspaceBytes (FecV2.DataShards p + FecV2.ParityShards p) (FecV2.ShardBytes p) with
  | Err e => (Err e, ws, w)
  | Ok n =>
      match BindBytes (session q) prepaid n w with
      | (Err e, w) => (Err (CreditErr e), ws, w)
      | (Ok l, w) =>
          let s := fresh (dom ws) in
          (Ok s, <[s := {| ws_queue := Some (self q); ws_lease := Some l; busy := false;
                           ws_closed := false |}]> ws, w)
      end
  end.

Definition Workspace_Close (s : Ptr) (ws : Workspaces) (w : World) : Workspaces * World :=
  match ws !! s with
  | None => (ws, w)
  | Some state =>
      if ws_closed state then (ws, w) else
      if busy state
      then (<[s := {| ws_queue := None; ws_lease := ws_lease state; busy := true; ws_closed := true |}]> ws, w)
      else (<[s := {| ws_queue := None; ws_lease := None; busy := false; ws_closed := true |}]> ws,
            Release (ws_lease state) w)
  end.
End operations.
