(* ===== verification/AggregationProps.v ===== *)
(** * The ring of an aggregation queue and its plan

    [queued] is the first-in first-out list a ring stands for; the ring operations act
    on it as list operations.  [queue_ok] is the invariant of a queue.  The plan of
    [Aggregation] is the packing of [FecV2], which is why sealing never fails. *)

From S2P Require Import Prelude CreditScope Aggregation.
From S2P Require Fec FecV2 FecV2Props FecV2Packing Credit.
Import FecV2 (DatagramID, TotalBytes, Offset, Payload).

Abbreviation Fragment := FecV2.Fragment.

(** ** The ring *)

(** The entry at queue position [i]. *)
Definition at_ (q : Queue) (i : nat) : entry := ring q !!! slot q i.

Definition queued (q : Queue) : list entry := at_ q <$> seq 0 (count q).

Record ring_ok (q : Queue) : Prop := {
  rg_length : (0 < length (ring q))%nat;
  rg_size : length (ring q) = Z.to_nat (MaxQueuedDatagrams (limits q));
  rg_head : (head q < length (ring q))%nat;
  rg_count : (count q <= length (ring q))%nat }.

Lemma length_queued q : length (queued q) = count q.
Proof. unfold queued. by rewrite length_fmap, length_seq. Qed.

Lemma queued_lookup q i : (i < count q)%nat -> queued q !! i = Some (at_ q i).
Proof. intros H. unfold queued. rewrite list_lookup_fmap, lookup_seq_lt by done. done. Qed.

Lemma slot_lt q i : ring_ok q -> (slot q i < length (ring q))%nat.
Proof. intros [H _ _ _]. unfold slot. apply Nat.mod_upper_bound. lia. Qed.

Lemma slot_0 q : ring_ok q -> slot q 0 = head q.
Proof. intros [_ _ H _]. unfold slot. rewrite Nat.add_0_r. by apply Nat.mod_small. Qed.

(** Different positions use different slots. *)
Lemma slot_inj q i j :
  ring_ok q -> (i < length (ring q))%nat -> (j < length (ring q))%nat -> slot q i = slot q j -> i = j.
Proof.
  intros [H1 _ H2 _] Hi Hj E. unfold slot in E.
  pose proof (Nat.div_mod_eq (head q + i) (length (ring q))).
  pose proof (Nat.div_mod_eq (head q + j) (length (ring q))).
  pose proof (Nat.Div0.div_lt_upper_bound (head q + i) (length (ring q)) 2 ltac:(lia)).
  pose proof (Nat.Div0.div_lt_upper_bound (head q + j) (length (ring q)) 2 ltac:(lia)).
  destruct ((head q + i) / length (ring q))%nat as [|[|]], ((head q + j) / length (ring q))%nat as [|[|]];
    lia.
Qed.

Lemma list_total_insert (l : list entry) i j e :
  (i < length l)%nat -> <[i := e]> l !!! j = if decide (i = j) then e else l !!! j.
Proof.
  intros H. destruct (decide (i = j)) as [<-|].
  - rewrite list_lookup_total_alt, list_lookup_insert_eq by done. done.
  - by rewrite !list_lookup_total_alt, list_lookup_insert_ne.
Qed.

(** What depends on the ring, head and count only. *)
Lemma queued_ext q q' :
  ring q' = ring q -> head q' = head q -> count q' = count q -> queued q' = queued q.
Proof. intros E1 E2 E3. unfold queued, at_, slot. by rewrite E1, E2, E3. Qed.

Lemma ring_push q e bytes :
  ring_ok q -> (count q < length (ring q))%nat ->
  let q' := with_ring (<[slot q (count q) := e]> (ring q)) (head q) (S (count q)) bytes q in
  ring_ok q' /\ queued q' = queued q ++ [e].
Proof.
  intros R Hc q'. pose proof R as [R1 R0 R2 R3]. pose proof (slot_lt q (count q) R) as Hs.
  split; [split; cbn; rewrite ?length_insert; lia|].
  unfold queued. change (count q') with (S (count q)). rewrite seq_S, fmap_app. cbn [Nat.add fmap list_fmap].
  assert (Hslot : forall i, slot q' i = slot q i) by (intros i; unfold slot; cbn; by rewrite length_insert).
  f_equal.
  - apply list_fmap_ext. intros k i Hi. apply lookup_seq in Hi as [-> Hi]. unfold at_. rewrite Hslot.
    change (ring q') with (<[slot q (count q) := e]> (ring q)).
    rewrite list_total_insert, decide_False by (done || (intros E; apply slot_inj in E; (done || lia))). done.
  - unfold at_. rewrite Hslot. change (ring q') with (<[slot q (count q) := e]> (ring q)).
    by rewrite list_total_insert, decide_True.
Qed.

Lemma slot_next q r bytes i :
  ring_ok q -> length r = length (ring q) ->
  slot (with_ring r ((head q + 1) mod length (ring q)) (count q - 1) bytes q) i = slot q (S i).
Proof.
  intros [R1 _ _ _] E. unfold slot. cbn. rewrite E.
  rewrite Nat.Div0.add_mod_idemp_l. f_equal. lia.
Qed.

Lemma ring_pop q bytes :
  ring_ok q -> (0 < count q)%nat ->
  let q' := with_ring (<[head q := zeroEntry]> (ring q)) ((head q + 1) mod length (ring q))
    (count q - 1) bytes q in
  ring_ok q' /\ queued q = at_ q 0 :: queued q'.
Proof.
  intros R Hc q'. pose proof R as [R1 R0 R2 R3].
  split.
  { split; cbn; rewrite ?length_insert; try lia. apply Nat.mod_upper_bound. lia. }
  unfold queued. change (count q') with (count q - 1)%nat.
  destruct (count q) as [|n] eqn:En; [lia|]. cbn [Nat.sub]. rewrite Nat.sub_0_r. cbn [seq fmap list_fmap].
  f_equal. rewrite <- (fmap_S_seq 0 n), <- list_fmap_compose. apply list_fmap_ext.
  intros k i Hi. apply lookup_seq in Hi as [-> Hi]. cbn [Nat.add compose]. unfold at_.
  assert (Hs : slot q' k = slot q (S k)).
  { unfold q'. rewrite <- En. apply slot_next; [done|]. by rewrite length_insert. }
  rewrite Hs. change (ring q') with (<[head q := zeroEntry]> (ring q)).
  rewrite list_total_insert by done. rewrite decide_False; [done|].
  rewrite <- slot_0 by done. intros E. apply slot_inj in E; (done || lia).
Qed.

Lemma ring_front q e :
  ring_ok q -> (0 < count q)%nat ->
  let q' := with_ring (<[head q := e]> (ring q)) (head q) (count q) (retainedBytes q) q in
  ring_ok q' /\ queued q' = e :: drop 1 (queued q) /\ at_ q' 0 = e.
Proof.
  intros R Hc q'. pose proof R as [R1 R0 R2 R3].
  assert (Hslot : forall i, slot q' i = slot q i) by (intros i; unfold slot; cbn; by rewrite length_insert).
  assert (H0 : at_ q' 0 = e).
  { unfold at_. rewrite Hslot, slot_0 by done. change (ring q') with (<[head q := e]> (ring q)).
    by rewrite list_total_insert, decide_True. }
  split; [split; cbn; rewrite ?length_insert; lia|]. split; [|done].
  unfold queued. change (count q') with (count q).
  destruct (count q) as [|n] eqn:En; [lia|]. cbn [seq fmap list_fmap drop]. rewrite H0. f_equal.
  apply list_fmap_ext. intros k i Hi. apply lookup_seq in Hi as [-> Hi]. cbn [Nat.add]. unfold at_.
  rewrite Hslot. change (ring q') with (<[head q := e]> (ring q)).
  rewrite list_total_insert by done. rewrite decide_False; [done|].
  rewrite <- slot_0 by done. intros E. apply slot_inj in E; (done || lia).
Qed.

Lemma shiftDown_spec q n : forall j r,
  ring_ok q -> length r = length (ring q) -> (j + n < length (ring q))%nat ->
  length (shiftDown q n j r) = length r /\
  forall k, (k < length (ring q))%nat ->
    shiftDown q n j r !!! slot q k
    = if decide (j <= k < j + n)%nat then r !!! slot q (S k) else r !!! slot q k.
Proof.
  induction n as [|n IH]; intros j r R Hl Hj; cbn [shiftDown].
  { split; [done|]. intros k Hk. rewrite decide_False by lia. done. }
  pose proof (slot_lt q j R).
  destruct (IH (S j) (<[slot q j := r !!! slot q (S j)]> r) R) as [I1 I2];
    [by rewrite length_insert|lia|]. rewrite length_insert in I1. split; [done|].
  assert (Hother : forall k, (k < length (ring q))%nat -> k <> j ->
    <[slot q j := r !!! slot q (S j)]> r !!! slot q k = r !!! slot q k).
  { intros k Hk Hkj. rewrite list_total_insert by lia. rewrite decide_False; [done|].
    intros E. apply slot_inj in E; (done || lia). }
  intros k Hk. rewrite I2 by done. destruct (decide (k = j)) as [->|Hkj].
  - rewrite decide_False, decide_True by lia. rewrite list_total_insert by lia. by rewrite decide_True.
  - destruct (decide (S j <= k < S j + n)%nat).
    + rewrite decide_True by lia. apply Hother; lia.
    + rewrite decide_False by lia. by apply Hother.
Qed.

Lemma ring_remove q i bytes :
  ring_ok q -> (i < count q)%nat ->
  let r := shiftDown q (count q - 1 - i) i (ring q) in
  let q' := with_ring (<[slot q (count q - 1) := zeroEntry]> r) (head q) (count q - 1) bytes q in
  ring_ok q' /\ queued q' = take i (queued q) ++ drop (S i) (queued q).
Proof.
  intros R Hi r q'. pose proof R as [R1 R0 R2 R3].
  destruct (shiftDown_spec q (count q - 1 - i) i (ring q) R eq_refl ltac:(lia)) as [S1 S2].
  fold r in S1, S2.
  assert (Hslot : forall k, slot q' k = slot q k)
    by (intros k; unfold slot; cbn; by rewrite length_insert, S1).
  split; [split; cbn; rewrite ?length_insert, S1; lia|].
  apply list_eq. intros k. destruct (decide (k < count q - 1)%nat) as [Hk|Hk].
  - rewrite queued_lookup by done. unfold at_. rewrite Hslot.
    change (ring q') with (<[slot q (count q - 1) := zeroEntry]> r).
    pose proof (slot_lt q (count q - 1) R).
    rewrite list_total_insert by lia. rewrite decide_False.
    2: { intros E. apply slot_inj in E; (done || lia). }
    rewrite S2 by lia. destruct (decide (k < i)%nat).
    + rewrite decide_False by lia. rewrite lookup_app_l by (rewrite length_take, length_queued; lia).
      rewrite lookup_take_lt by done. by rewrite queued_lookup by lia.
    + rewrite decide_True by lia. rewrite lookup_app_r by (rewrite length_take, length_queued; lia).
      rewrite length_take, length_queued, lookup_drop, Nat.min_l by lia.
      replace (S i + (k - i))%nat with (S k) by lia. by rewrite queued_lookup by lia.
  - rewrite !lookup_ge_None_2; [done| |].
    + rewrite length_app, length_take, length_drop, length_queued. lia.
    + rewrite length_queued. cbn. lia.
Qed.

Lemma findID_spec q target n : forall i k,
  findID q target n i = Some k -> (i <= k < i + n)%nat /\ id (at_ q k) = target /\
    forall j, (i <= j < k)%nat -> id (at_ q j) <> target.
Proof.
  induction n as [|n IH]; intros i k H; [done|]. cbn [findID] in H.
  destruct (Z.eqb_spec (id (ring q !!! slot q i)) target).
  - injection H as <-. split; [lia|]. split; [done|]. intros j Hj. lia.
  - apply IH in H as (H1 & H2 & H3). split; [lia|]. split; [done|]. intros j Hj.
    destruct (decide (j = i)) as [->|]; [done|]. apply H3. lia.
Qed.

Lemma findID_none q target n : forall i,
  findID q target n i = None -> forall j, (i <= j < i + n)%nat -> id (at_ q j) <> target.
Proof.
  induction n as [|n IH]; intros i H j Hj; [lia|]. cbn [findID] in H.
  destruct (Z.eqb_spec (id (ring q !!! slot q i)) target); [done|].
  destruct (decide (j = i)) as [->|]; [done|]. apply (IH (S i) H). lia.
Qed.

(** ** The invariant *)

Definition capacity (q : Queue) : Z := freshCapacity (EpochParameters (epoch q)).

(** What is left of an entry. *)
Definition left (e : entry) : Z := len (payload e) - offset e.

(** An admitted entry and what is left of it. *)
Record entry_ok (q : Queue) (e : entry) : Prop := {
  eo_id : in_u 64 (id e) /\ 0 < id e;
  eo_payload : len (payload e) <= MaxDatagramBytes (limits q);
  eo_offset : 0 <= offset e <= len (payload e);
  eo_left : payload e <> [] -> offset e < len (payload e);
  eo_fragments : 0 <= fragments e;
  eo_room : payload e <> [] -> 0 < capacity q /\
    fragments e + fragmentCount (left e) (capacity q) <= MaxFragmentsPerDatagram (limits q);
  eo_lease : payload e <> [] -> is_Some (lease e) }.

Record limits_ok (lim : Limits) : Prop := {
  lk_datagrams : 1 <= MaxQueuedDatagrams lim <= 65536;
  lk_queued : 0 <= MaxQueuedBytes lim <= 2 ^ 30;
  lk_bytes : 0 <= MaxDatagramBytes lim <= 2 ^ 24;
  lk_fragments : 1 <= MaxFragmentsPerDatagram lim <= 4096 }.

Definition retained (es : list entry) : Z := foldr (fun e n => len (payload e) + n) 0 es.

Record queue_ok (q : Queue) : Prop := {
  qo_ring : ring_ok q;
  qo_limits : limits_ok (limits q);
  qo_params : FecV2Props.params_ok (EpochParameters (epoch q));
  qo_codec : FecV2.params (codec q) = EpochParameters (epoch q);
  qo_datagram : MaxDatagramBytes (limits q) <= FecV2.par_MaxDatagramBytes (EpochParameters (epoch q));
  qo_entries : Forall (entry_ok q) (queued q);
  qo_sorted : FecV2.validateInput (codec q) (remaining <$> queued q) 0 = None;
  qo_next : in_u 64 (nextDatagramID q) /\
    (nextDatagramID q = 0 \/ Forall (fun e => id e < nextDatagramID q) (queued q));
  qo_retained : retainedBytes q = retained (queued q) /\ retained (queued q) <= MaxQueuedBytes (limits q) }.

Lemma left_remaining q e : entry_ok q e -> left e = len (Payload (remaining e)).
Proof.
  intros [_ _ H _ _ _ _]. unfold left. cbn. unfold len in *. rewrite length_drop. lia.
Qed.

Lemma remaining_typed q e : limits_ok (limits q) -> entry_ok q e -> FecV2Props.frag_typed (remaining e).
Proof.
  intros Lk [E1 E2 E3 _ _ _ _]. destruct (lk_bytes _ Lk). split; cbn; [apply E1| |].
  - apply wrap_range. lia.
  - unfold in_u. lia.
Qed.

Lemma remaining_total q e : limits_ok (limits q) -> entry_ok q e -> TotalBytes (remaining e) = len (payload e).
Proof.
  intros Lk [_ E2 _ _ _ _ _]. destruct (lk_bytes _ Lk). cbn. unfold u32. apply wrap_small.
  pose proof (len_nonneg (payload e)). unfold in_u. lia.
Qed.

Lemma payload_left q e : entry_ok q e -> Payload (remaining e) = [] <-> payload e = [].
Proof.
  intros E. pose proof (left_remaining q e E) as Hl. unfold left in Hl. destruct E as [_ _ E3 E4 _ _ _].
  split; intros H.
  - rewrite H in Hl. change (len []) with 0 in Hl.
    destruct (decide (payload e = [])) as [|Hne]; [done|]. specialize (E4 Hne). lia.
  - cbn. rewrite H. by destruct (Z.to_nat (offset e)).
Qed.

(** An entry of the queue is a valid fragment for the codec. *)
Lemma remaining_ok q e previous :
  queue_ok q -> entry_ok q e -> previous < id e ->
  FecV2Props.fragment_ok (codec q) previous (remaining e).
Proof.
  intros Q E Hp. pose proof (left_remaining q e E) as Hl. unfold left in Hl.
  pose proof (remaining_total q e (qo_limits _ Q) E) as Ht.
  pose proof (payload_left q e E) as He. destruct E as [E1 E2 E3 _ _ _ _]. split.
  - cbn. lia.
  - rewrite Ht. rewrite (qo_codec _ Q). pose proof (qo_datagram _ Q). lia.
  - rewrite Ht. cbn [Offset remaining]. lia.
  - intros Hn. apply He in Hn. rewrite Ht, Hn. done.
Qed.

(** ** The plan is a packing *)

Definition entries (q : Queue) (i m : nat) : list entry := at_ q <$> seq i m.

Lemma entries_ok q i m : queue_ok q -> (i + m <= count q)%nat -> Forall (entry_ok q) (entries q i m).
Proof.
  intros Q H. apply Forall_forall. intros e (k & -> & Hk)%list_elem_of_fmap.
  apply elem_of_seq in Hk. pose proof (qo_entries _ Q) as E. rewrite Forall_forall in E. apply E.
  eapply list_elem_of_lookup_2, queued_lookup. lia.
Qed.

(** A partial entry keeps enough fragments for the rest. *)
Definition affordable (q : Queue) (c : FecV2.Cursor) : Prop :=
  FecV2.Bytes c <> 0%nat ->
  let e := at_ q (FecV2.Next c) in
  Z.of_nat (FecV2.Bytes c) < left e /\
  fragments e + 1 + fragmentCount (left e - Z.of_nat (FecV2.Bytes c)) (capacity q)
    <= MaxFragmentsPerDatagram (limits q).

Lemma planLoop_pack q n : forall i used res planned,
  queue_ok q -> (i + n <= count q)%nat -> len planned = len (planFragments res) ->
  FecV2.Bytes (cursor res) = 0%nat ->
  exists m pieces, (m <= n)%nat /\
    planFragments (fst (planLoop q n i used res)) = planFragments res ++ (remaining <$> entries q i m) /\
    FecV2.pack (codec q) (remaining <$> entries q i m) i planned used (cursor res)
      = (planned ++ pieces, cursor (fst (planLoop q n i used res))) /\
    length pieces = m /\ affordable q (cursor (fst (planLoop q n i used res))).
Proof.
  induction n as [|n IH]; intros i used res planned Q Hin Hpl Hb; cbn [planLoop].
  { exists 0%nat, []. cbn [entries seq fmap list_fmap fst FecV2.pack]. rewrite !app_nil_r.
    repeat (split; [done|]). unfold affordable. lia. }
  set (e := ring q !!! slot q i). fold (left e).
  assert (He : entry_ok q e).
  { pose proof (entries_ok q i 1 Q ltac:(lia)) as F. by apply Forall_cons in F as [F _]. }
  pose proof (left_remaining q e He) as Hleft. pose proof (qo_codec _ Q) as Hc.
  set (p := EpochParameters (epoch q)) in *.
  set (room := FecV2.par_MaxLogicalBytes p - used - Z.of_nat FecV2.DescriptorBytes).
  assert (Hstop : exists m pieces, (m <= S n)%nat /\
    planFragments res = planFragments res ++ (remaining <$> entries q i m) /\
    FecV2.pack (codec q) (remaining <$> entries q i m) i planned used (cursor res)
      = (planned ++ pieces, cursor res) /\ length pieces = m /\ affordable q (cursor res)).
  { exists 0%nat, []. cbn [entries seq fmap list_fmap FecV2.pack]. rewrite !app_nil_r.
    split; [lia|]. repeat (split; [done|]). unfold affordable. lia. }
  destruct (_ || _) eqn:Hfull; [exact Hstop|].
  set (consumed := Z.min room (left e)).
  destruct (consumed <? left e) eqn:Hpart.
  - cbn [andb]. destruct (MaxFragmentsPerDatagram _ <? _) eqn:Haff; [exact Hstop|]. cbn [fst planFragments cursor].
    exists 1%nat, [FecV2.truncated (remaining e) (Z.to_nat consumed)].
    split; [lia|]. split; [done|]. split; [|split; [done|]].
    + cbn [entries seq fmap list_fmap FecV2.pack]. change (at_ q i) with e. rewrite Hc, <- Hleft, Hpl.
      fold p. fold room. rewrite Hfull. fold consumed. by rewrite Hpart.
    + intros _. cbn [FecV2.Next FecV2.Bytes]. change (at_ q i) with e.
      assert (0 <= consumed).
      { apply orb_false_iff in Hfull as [[_ Hr]%orb_false_iff _].
        pose proof (len_nonneg (Payload (remaining e))). unfold consumed. lia. }
      rewrite Z2Nat.id by done. unfold capacity. fold p. split; lia.
  - cbn [andb fst].
    destruct (IH (S i) (used + Z.of_nat FecV2.DescriptorBytes + consumed)
      {| planFragments := planFragments res ++ [remaining e];
         cursor := {| FecV2.Next := S i; FecV2.Bytes := 0 |}; full := full res |}
      (planned ++ [FecV2.truncated (remaining e) (Z.to_nat consumed)]) Q) as
      (m & pieces & Hm & H1 & H2 & H3 & H4); [lia| |done|].
    { cbn. rewrite !len_app, Hpl. done. }
    cbn [planFragments cursor] in H1, H2.
    exists (S m), (FecV2.truncated (remaining e) (Z.to_nat consumed) :: pieces).
    split; [lia|]. split; [rewrite H1, <- app_assoc; done|]. split; [|split; [cbn; lia|done]].
    cbn [entries seq fmap list_fmap FecV2.pack]. change (at_ q i) with e. rewrite Hc, <- Hleft, Hpl.
    fold p. fold room. rewrite Hfull. fold consumed. rewrite Hpart.
    change (at_ q <$> seq (S i) m) with (entries q (S i) m).
    rewrite <- app_assoc in H2. exact H2.
Qed.

Lemma planLoop_grows q n : forall i used res,
  exists l, planFragments (fst (planLoop q n i used res)) = planFragments res ++ l.
Proof.
  induction n as [|n IH]; intros i used res; cbn [planLoop]; [exists []; by rewrite app_nil_r|].
  repeat (case_match; try (exists []; by rewrite app_nil_r)).
  - by eexists.
  - match goal with |- context [planLoop q n ?i ?u ?r] => destruct (IH i u r) as [l ->] end.
    cbn [planFragments]. rewrite <- app_assoc. by eexists.
Qed.

Lemma fragmentCount_step n c : 0 < c -> c < n -> fragmentCount n c = 1 + fragmentCount (n - c) c.
Proof.
  intros Hc Hn. unfold fragmentCount. replace (n =? 0) with false by lia.
  replace (n - c =? 0) with false by lia.
  replace (n - 1) with ((n - c - 1) + 1 * c) by lia. rewrite Z.div_add by lia. lia.
Qed.

Lemma fragmentCount_nonneg n c : 0 < c -> 0 <= n -> 0 <= fragmentCount n c.
Proof.
  intros Hc Hn. unfold fragmentCount. destruct (Z.eqb_spec n 0); [lia|].
  pose proof (Z.div_pos (n - 1) c). lia.
Qed.

(** The head of the queue always goes into the plan. *)
Lemma planLoop_progress q n used :
  queue_ok q -> (0 < count q)%nat -> used = Z.of_nat FecV2.ManifestBytes ->
  planFragments (fst (planLoop q (S n) 0 used {| planFragments := []; cursor := FecV2.zeroCursor; full := false |}))
  <> [].
Proof.
  intros Q Hc ->. cbn [planLoop planFragments].
  set (e := ring q !!! slot q 0). fold (left e).
  assert (He : entry_ok q e).
  { pose proof (entries_ok q 0 1 Q ltac:(lia)) as F. by apply Forall_cons in F as [F _]. }
  pose proof (left_remaining q e He) as Hleft. pose proof (payload_left q e He) as Hempty.
  set (p := EpochParameters (epoch q)).
  assert (Hroom : FecV2.par_MaxLogicalBytes p - Z.of_nat FecV2.ManifestBytes - Z.of_nat FecV2.DescriptorBytes
    = capacity q) by done. rewrite Hroom.
  pose proof (qo_params _ Q) as [_ _ _ _ P5 P6 _ _]. fold p in P5, P6.
  assert (Hcap : 0 <= capacity q).
  { unfold capacity, freshCapacity. fold p. unfold FecV2.overhead in P6. lia. }
  pose proof (len_nonneg (Payload (remaining e))) as Hl0.
  change (len []) with 0. replace (0 =? FecV2.par_MaxDescriptors p) with false by lia.
  replace (capacity q <? 0) with false by lia. cbn [orb].
  assert (Hpos : left e <> 0 -> 0 < capacity q /\
    fragments e + fragmentCount (left e) (capacity q) <= MaxFragmentsPerDatagram (limits q)).
  { intros Hne. apply (eo_room _ _ He). intros Hp. apply Hne. apply Hempty in Hp.
    rewrite Hleft, Hp. done. }
  replace ((capacity q =? 0) && (0 <? left e)) with false
    by (destruct (decide (left e = 0)) as [->|Hne]; [by destruct (_ =? _)|destruct (Hpos Hne); lia]).
  assert (Hgo : (Z.min (capacity q) (left e) <? left e)
    && (MaxFragmentsPerDatagram (limits q) <? fragments e + 1
          + fragmentCount (left e - Z.min (capacity q) (left e)) (freshCapacity p)) = false).
  { destruct (Z.ltb_spec (Z.min (capacity q) (left e)) (left e)); [|done]. cbn [andb].
    change (freshCapacity p) with (capacity q). rewrite Z.min_l by lia.
    destruct Hpos as [Hp1 Hp2]; [lia|]. rewrite fragmentCount_step in Hp2 by lia. lia. }
  rewrite Hgo. destruct (_ <? _); [done|].
  match goal with |- context [planLoop q n ?i ?u ?r] => destruct (planLoop_grows q n i u r) as [l ->] end.
  done.
Qed.
