(* ===== verification/AggregationSeal.v ===== *)
(** * Sealing

    The plan of a queue is always encodable with exactly the planned cursor, so the
    error paths of [seal] after the reservation are unreachable; sealing removes from
    the queue what the cursor says and keeps the invariant. *)

From S2P Require Import Prelude CreditScope Aggregation AggregationProps.
From S2P Require Fec FecV2 FecV2Props FecV2Packing Credit.
Import FecV2 (DatagramID, TotalBytes, Offset, Payload).
Import FecV2Packing (prefix_of, remainder, advanced).

Lemma prefix_of_longer m input pieces c :
  prefix_of (take m input) pieces c -> prefix_of input pieces c.
Proof.
  intros [n Hn|n f b Hf Hb].
  - rewrite take_take, Nat.min_l by (rewrite length_take in Hn; lia). constructor.
    rewrite length_take in Hn. lia.
  - apply lookup_take_Some in Hf as [Hf Hlt]. rewrite take_take, Nat.min_l by lia. by constructor.
Qed.

Lemma entries_take q m : (m <= count q)%nat -> entries q 0 m = take m (queued q).
Proof.
  intros H. unfold entries, queued. rewrite <- fmap_take. f_equal.
  replace (count q) with (m + (count q - m))%nat by lia. rewrite seq_app.
  rewrite take_app_length'; [done|]. by rewrite length_seq.
Qed.

(** ** Effects on the ring *)

(** Only the ring, its counters and the retained bytes change. *)
Definition same_but_ring (q q' : Queue) : Prop :=
  exists r h c b, q' = with_ring r h c b q.

Lemma same_refl q : same_but_ring q q.
Proof. destruct q. by repeat eexists. Qed.

Lemma same_trans q1 q2 q3 : same_but_ring q1 q2 -> same_but_ring q2 q3 -> same_but_ring q1 q3.
Proof. intros (?&?&?&?&->) (?&?&?&?&->). by repeat eexists. Qed.

Lemma same_fields q q' : same_but_ring q q' ->
  limits q' = limits q /\ epoch q' = epoch q /\ codec q' = codec q /\ session q' = session q /\
  nextDatagramID q' = nextDatagramID q /\ nextGroupID q' = nextGroupID q /\ closed q' = closed q /\
  lastNow q' = lastNow q /\ haveNow q' = haveNow q /\ ringLease q' = ringLease q /\ self q' = self q.
Proof. by intros (?&?&?&?&->). Qed.

Lemma entry_ok_ext q q' e :
  limits q' = limits q -> epoch q' = epoch q -> entry_ok q e -> entry_ok q' e.
Proof.
  intros E1 E2 [H1 H2 H3 H4 H5 H6 H7]. split; try done; rewrite ?E1; try done.
  unfold capacity. by rewrite E2.
Qed.

Lemma retained_cons e es : retained (e :: es) = len (payload e) + retained es.
Proof. done. Qed.

Lemma retained_nonneg es : 0 <= retained es.
Proof.
  induction es as [|e es IH]; [done|]. rewrite retained_cons. pose proof (len_nonneg (payload e)). lia.
Qed.

Lemma retained_app a b : retained (a ++ b) = retained a + retained b.
Proof. induction a as [|e a IH]; [done|]. cbn [app]. rewrite !retained_cons. lia. Qed.

Lemma retained_split es i e :
  es !! i = Some e -> retained (take i es ++ drop (S i) es) = retained es - len (payload e).
Proof.
  intros H. pose proof (take_drop i es) as E. rewrite (drop_S _ e) in E by done.
  apply (f_equal retained) in E. rewrite retained_app, retained_cons in E. rewrite retained_app. lia.
Qed.

Lemma retained_drop n es : 0 <= retained (drop n es) <= retained es.
Proof.
  pose proof (retained_nonneg (take n es)). pose proof (retained_nonneg (drop n es)).
  pose proof (take_drop n es) as E. apply (f_equal retained) in E. rewrite retained_app in E. lia.
Qed.

Lemma length_queued_0 q : count q = 0%nat -> queued q = [].
Proof. intros E. unfold queued. by rewrite E. Qed.

(** What an entry owns. *)
Definition holding (e : entry) : option Ptr * bytes := (lease e, payload e).
(** The Datagram of an entry. *)
Definition original (e : entry) : Z * bytes := (id e, payload e).

Section effects.
Context `{L : Ledger} {LL : LedgerLaws L}.

(** A lease that none of the entries holds. *)
Definition unheld (es : list entry) (l : Ptr) : Prop := Forall (fun e => lease e <> Some l) es.

Definition released_leases (es : list entry) (w w' : World) : Prop :=
  (forall s, scopeClosed s w' = scopeClosed s w) /\
  (forall e l, e ∈ es -> lease e = Some l -> live w' !! l = None) /\
  (forall l, unheld es l -> live w' !! l = live w !! l).

Lemma released_nil w : released_leases [] w w.
Proof using. split; [done|]. split; [|done]. by intros e l ?%not_elem_of_nil. Qed.

Lemma released_one e w : released_leases [e] w (Release (lease e) w).
Proof using LL.
  split; [intros s; apply law_closed_Release|]. destruct (lease e) as [l|] eqn:E.
  - rewrite law_Release. split.
    + intros e' l' ->%list_elem_of_singleton E'. rewrite E in E'. injection E' as <-. apply lookup_delete_eq.
    + intros l' H. apply Forall_cons in H as [H _]. apply lookup_delete_ne. congruence.
  - rewrite law_Release_nil. split; [|done]. intros e' l' ->%list_elem_of_singleton E'. congruence.
Qed.

Lemma released_cons e es w1 w2 w3 :
  released_leases [e] w1 w2 -> released_leases es w2 w3 -> released_leases (e :: es) w1 w3.
Proof using.
  intros (C1 & D1 & F1) (C2 & D2 & F2). split; [intros s; by rewrite C2|]. split.
  - intros e' l H E. destruct (decide (Exists (fun x => lease x = Some l) es)) as [Hx|Hx].
    + apply Exists_exists in Hx as (x & Hx & Ex). by eapply D2.
    + apply not_Exists_Forall in Hx; [|intros x; apply _]. rewrite F2 by done.
      apply elem_of_cons in H as [->|H]; [by apply (D1 e l); [apply list_elem_of_singleton|]|].
      rewrite Forall_forall in Hx. by specialize (Hx _ H).
  - intros l H. apply Forall_cons in H as [H1 H2]. rewrite F2 by done. apply F1. by constructor.
Qed.

Lemma dropHeads_spec n : forall q w q' w',
  ring_ok q -> (n <= count q)%nat ->
  retainedBytes q = retained (queued q) -> retained (queued q) <= 2 ^ 30 ->
  dropHeads n q w = (q', w') ->
  ring_ok q' /\ queued q' = drop n (queued q) /\ retainedBytes q' = retained (queued q') /\
  same_but_ring q q' /\ released_leases (take n (queued q)) w w'.
Proof using LL.
  induction n as [|n IH]; intros q w q' w' R Hn Hr Hmax E; cbn [dropHeads] in E.
  { injection E as <- <-. rewrite drop_0, take_0.
    repeat (split; [done|]). split; [apply same_refl|apply released_nil]. }
  destruct (ring_pop q (u64 (retainedBytes q - len (payload (ring q !!! head q)))) R ltac:(lia)) as [R1 E1].
  assert (Hat : ring q !!! head q = at_ q 0) by (unfold at_; by rewrite slot_0).
  unfold dropHeadLocked in E.
  set (q1 := with_ring _ _ _ _ q) in *. set (w1 := Release _ w) in *.
  assert (Hret : retained (queued q) = len (payload (at_ q 0)) + retained (queued q1)) by (by rewrite E1).
  pose proof (retained_nonneg (queued q1)). pose proof (len_nonneg (payload (at_ q 0))).
  assert (Hb : retainedBytes q1 = retained (queued q1)).
  { change (retainedBytes q1) with (u64 (retainedBytes q - len (payload (ring q !!! head q)))).
    rewrite Hat. unfold u64. rewrite wrap_small; unfold in_u; lia. }
  destruct (IH q1 w1 q' w' R1) as (I1 & I2 & I3 & I4 & I5).
  - change (count q1) with (count q - 1)%nat. lia.
  - done.
  - lia.
  - exact E.
  - split; [done|]. split; [by rewrite I2, E1|]. split; [done|]. split.
    + eapply same_trans; [|exact I4]. by repeat eexists.
    + rewrite E1. cbn [take]. eapply released_cons; [|exact I5]. unfold w1. rewrite Hat. apply released_one.
Qed.

(** What is left of the head after a partial seal. *)
Definition consumed (n : nat) (e : entry) : entry :=
  {| id := id e; payload := payload e; offset := u32 (offset e + Z.of_nat n);
     fragments := fragments e + 1; admittedAt := admittedAt e; lease := lease e |}.

Lemma consumeHead_spec n q :
  ring_ok q -> (0 < count q)%nat ->
  ring_ok (consumeHead n q) /\ same_but_ring q (consumeHead n q) /\
  queued (consumeHead n q) = consumed n (at_ q 0) :: drop 1 (queued q) /\
  retainedBytes (consumeHead n q) = retainedBytes q.
Proof using.
  intros R Hc. destruct (ring_front q (consumed n (at_ q 0)) R Hc) as (R1 & E & _).
  assert (Hq : consumeHead n q = with_ring (<[head q := consumed n (at_ q 0)]> (ring q)) (head q) (count q)
    (retainedBytes q) q).
  { unfold consumeHead, consumed, at_. by rewrite slot_0. }
  rewrite Hq. split; [done|]. split; [by repeat eexists|]. by split.
Qed.

Lemma remaining_consumed lim n q e :
  limits_ok lim -> limits q = lim -> entry_ok q e -> Z.of_nat n < left e ->
  remaining (consumed n e) = advanced (remaining e) n /\ offset (consumed n e) = offset e + Z.of_nat n.
Proof using.
  intros Lk El [_ E2 E3 _ _ _ _] Hn. destruct (lk_bytes _ Lk). rewrite El in *. unfold left in Hn.
  assert (Ho : u32 (offset e + Z.of_nat n) = offset e + Z.of_nat n).
  { unfold u32. apply wrap_small. unfold in_u. lia. }
  split; [|exact Ho]. unfold advanced, remaining. cbn [id payload offset consumed Offset Payload DatagramID TotalBytes].
  f_equal. rewrite drop_drop. f_equal. rewrite Ho. lia.
Qed.

Lemma consumed_ok q e n :
  limits_ok (limits q) -> entry_ok q e -> (0 < n)%nat -> Z.of_nat n < left e ->
  fragments e + 1 + fragmentCount (left e - Z.of_nat n) (capacity q) <= MaxFragmentsPerDatagram (limits q) ->
  entry_ok q (consumed n e).
Proof using.
  intros Lk E Hn Hlt Haff. pose proof (remaining_consumed _ n q e Lk eq_refl E Hlt) as [_ Ho].
  destruct E as [E1 E2 E3 E4 E5 E6 E7]. unfold left in *.
  split; cbn [consumed id payload fragments lease]; try done; rewrite ?Ho; try lia.
  intros Hne. destruct (E6 Hne) as [E6a _]. split; [done|].
  unfold left. cbn [payload consumed]. rewrite Ho. by replace (len (payload e) - (offset e + Z.of_nat n))
    with (len (payload e) - offset e - Z.of_nat n) by lia.
Qed.
End effects.

Lemma len_nonempty {A} (l : list A) : l <> [] -> (len l =? 0) = false.
Proof. intros H. destruct l; [done|]. unfold len. cbn [length]. by apply Z.eqb_neq. Qed.

Section seal.
Context `{L : Ledger} {LL : LedgerLaws L}.
Context (q : Queue) (Q : queue_ok q).
Context (Hlaw : Fec.Lawful (Z.to_nat (FecV2.DataShards (EpochParameters (epoch q))))
  (Z.to_nat (FecV2.ParityShards (EpochParameters (epoch q)))) (FecV2.rs (codec q))).

Lemma codec_params : FecV2Props.params_ok (FecV2.params (codec q)).
Proof using Q. rewrite (qo_codec _ Q). apply Q. Qed.

Lemma queued_typed : Forall FecV2Props.frag_typed (remaining <$> queued q).
Proof using Q.
  apply Forall_fmap. eapply Forall_impl; [apply (qo_entries _ Q)|]. intros e He.
  cbn. eapply remaining_typed; [apply Q|done].
Qed.

(** The plan, and what the codec makes of it. *)
Lemma plan_encodes : (0 < count q)%nat ->
  exists pieces g,
    FecV2.EncodePrefix (codec q) (planFragments (planLocked q)) = Ok (g, cursor (planLocked q)) /\
    FecV2.Encode (codec q) pieces = Ok g /\ pieces <> [] /\
    prefix_of (remaining <$> queued q) pieces (cursor (planLocked q)) /\
    affordable q (cursor (planLocked q)) /\ planFragments (planLocked q) <> [].
Proof using Q Hlaw.
  intros Hc. pose proof codec_params as Hp. pose proof queued_typed as T.
  set (start := {| planFragments := []; cursor := FecV2.zeroCursor; full := false |}).
  assert (Hplan : planFragments (planLocked q)
      = planFragments (fst (planLoop q (count q) 0 (Z.of_nat FecV2.ManifestBytes) start)) /\
    cursor (planLocked q)
      = cursor (fst (planLoop q (count q) 0 (Z.of_nat FecV2.ManifestBytes) start))).
  { unfold planLocked. fold start. destruct (planLoop _ _ _ _ _) as [res used]. cbn [fst].
    destruct (_ || _); done. }
  destruct Hplan as [-> ->].
  destruct (planLoop_pack q (count q) 0 (Z.of_nat FecV2.ManifestBytes) start [] Q ltac:(lia) eq_refl eq_refl)
    as (m & pieces & Hm & H1 & H2 & H3 & H4).
  assert (Hne : planFragments (fst (planLoop q (count q) 0 (Z.of_nat FecV2.ManifestBytes) start)) <> []).
  { destruct (count q) as [|n] eqn:E; [lia|]. rewrite <- E in Hc. by apply planLoop_progress. }
  cbn [planFragments app start cursor] in H1, H2. rewrite entries_take in H1, H2 by done.
  set (final := cursor (fst (planLoop q (count q) 0 (Z.of_nat FecV2.ManifestBytes) start))) in *.
  rewrite H1 in Hne |- *. set (input := remaining <$> take m (queued q)) in *.
  assert (Hin : input = take m (remaining <$> queued q)) by (unfold input; by rewrite fmap_take).
  assert (Hm0 : (0 < m)%nat) by (destruct m; [done|lia]).
  assert (Hlin : length input = m).
  { unfold input. rewrite length_fmap, length_take, length_queued. lia. }
  destruct (FecV2Packing.pack_spec (codec q) input 0 [] FecV2.zeroCursor) as
    (extra & n & b & E & Hpre & D1 & D2 & _).
  { change (len []) with 0. destruct Hp as [_ _ _ _ ? _ _ _]. lia. }
  { destruct Hp as [_ _ _ _ _ P6 _ _]. change (FecV2Packing.spent []) with 4.
    change (FecV2.overhead 1) with 24 in P6. lia. }
  change (FecV2Packing.spent []) with (Z.of_nat FecV2.ManifestBytes) in E.
  rewrite E in H2. cbn [app] in *. injection H2 as -> Hcur.
  replace (length pieces =? 0)%nat with false in Hcur by (symmetry; apply Nat.eqb_neq; lia).
  cbn [Nat.add] in Hcur. rewrite Hcur in Hpre.
  assert (V : FecV2.validateInput (codec q) input 0 = None).
  { rewrite Hin. apply FecV2Packing.validateInput_take; [done|done|apply Q]. }
  assert (Tin : Forall FecV2Props.frag_typed input) by (rewrite Hin; by apply Forall_take).
  destruct (FecV2Packing.prefix_valid _ Hp _ _ _ Tin V Hpre) as (Tp & Vp & _).
  assert (Hlp : len pieces = len input) by (unfold len; lia).
  destruct (FecV2Packing.encodable (codec q) Hp) with (fs := pieces) as [g Hg];
    [by rewrite (qo_codec _ Q)|done|unfold len in *; lia|done|done|].
  exists pieces, g. split; [|split; [done|]].
  - unfold FecV2.EncodePrefix. pose proof Hp as [_ _ _ _ P5 _ _ _].
    replace (len input =? 0) with false by (unfold len in *; lia).
    replace (FecV2.MaxDescriptors <? len input) with false by lia. cbn [orb].
    rewrite V, E. replace (len pieces =? 0) with false by (unfold len in *; lia).
    cbn [app]. rewrite Hg. cbn [result_bind].
    replace (length pieces =? 0)%nat with false by (symmetry; apply Nat.eqb_neq; lia).
    cbn [Nat.add]. by rewrite Hcur.
  - split; [intros ->; cbn in H3; lia|]. split; [|done].
    eapply prefix_of_longer. rewrite <- Hin. exact Hpre.
Qed.

Lemma queue_ok_update q' :
  limits q' = limits q -> epoch q' = epoch q -> codec q' = codec q -> ring_ok q' ->
  Forall (entry_ok q) (queued q') -> FecV2.validateInput (codec q) (remaining <$> queued q') 0 = None ->
  in_u 64 (nextDatagramID q') ->
  nextDatagramID q' = 0 \/ Forall (fun e => id e < nextDatagramID q') (queued q') ->
  retainedBytes q' = retained (queued q') -> retained (queued q') <= MaxQueuedBytes (limits q) ->
  queue_ok q'.
Proof using Q.
  intros E1 E2 E3 R F V N1 N2 B1 B2. split; rewrite ?E1, ?E2, ?E3; try apply Q; try done.
  eapply Forall_impl; [exact F|]. intros e. by apply entry_ok_ext.
Qed.

Lemma retained_max : retained (queued q) <= 2 ^ 30.
Proof using Q. destruct (qo_retained _ Q) as [_ ?]. pose proof (lk_queued _ (qo_limits _ Q)). lia. Qed.

Definition after (c : FecV2.Cursor) (w : World) : Queue * World :=
  let '(q, w) := dropHeads (FecV2.Next c) q w in
  (if (0 <? FecV2.Bytes c)%nat then consumeHead (FecV2.Bytes c) q else q, w).

(** The cursor of a prefix, in terms of the queue. *)
Lemma prefix_of_queued pieces c :
  prefix_of (remaining <$> queued q) pieces c ->
  (FecV2.Next c <= count q)%nat /\
  (FecV2.Bytes c <> 0%nat -> (FecV2.Next c < count q)%nat /\
     queued q !! FecV2.Next c = Some (at_ q (FecV2.Next c))).
Proof using.
  intros [n Hn|n f b Hf Hb]; cbn [FecV2.Next FecV2.Bytes].
  - rewrite length_fmap, length_queued in Hn. done.
  - rewrite list_lookup_fmap in Hf. destruct (queued q !! n) as [e|] eqn:E; [|done].
    apply lookup_lt_Some in E as Hlt. rewrite length_queued in Hlt. split; [lia|]. intros _.
    split; [done|]. rewrite <- E. by apply queued_lookup.
Qed.

Lemma after_ok pieces c w q' w' :
  prefix_of (remaining <$> queued q) pieces c -> affordable q c -> after c w = (q', w') ->
  queue_ok q' /\ (remaining <$> queued q') = remainder (remaining <$> queued q) c /\
  same_but_ring q q' /\ released_leases (take (FecV2.Next c) (queued q)) w w' /\
  (holding <$> queued q') = drop (FecV2.Next c) (holding <$> queued q) /\
  (original <$> queued q') = drop (FecV2.Next c) (original <$> queued q).
Proof using Q LL.
  intros P A E. destruct (prefix_of_queued _ _ P) as [P1 P2].
  destruct (qo_retained _ Q) as [Hr1 Hr2]. destruct (qo_next _ Q) as [N1 N2].
  pose proof (retained_drop (FecV2.Next c) (queued q)) as Hrd.
  destruct (FecV2Packing.prefix_valid _ codec_params _ _ _ queued_typed (qo_sorted _ Q) P) as (_ & _ & _ & V).
  unfold after in E. destruct (dropHeads (FecV2.Next c) q w) as [q1 w1] eqn:Ed. injection E as E <-.
  destruct (dropHeads_spec _ _ _ _ _ (qo_ring _ Q) P1 Hr1 retained_max Ed) as (R1 & Eq1 & Er1 & S1 & D1).
  pose proof (same_fields _ _ S1) as (F1 & F2 & F3 & _ & F5 & _).
  assert (Fd : Forall (entry_ok q) (drop (FecV2.Next c) (queued q))) by apply Forall_drop, Q.
  unfold remainder in *. rewrite <- fmap_drop in *.
  destruct (Nat.ltb_spec 0 (FecV2.Bytes c)) as [Hb|Hb].
  - destruct (P2 ltac:(lia)) as [Hlt Hat]. rewrite (drop_S _ _ _ Hat) in *. cbn [fmap list_fmap] in *.
    set (e := at_ q (FecV2.Next c)) in *.
    assert (Hc1 : (0 < count q1)%nat) by (rewrite <- length_queued, Eq1; cbn; lia).
    destruct (consumeHead_spec (FecV2.Bytes c) q1 R1 Hc1) as (R2 & S2 & Eq2 & Er2).
    assert (He : at_ q1 0 = e).
    { pose proof (queued_lookup q1 0 Hc1) as Hl. rewrite Eq1 in Hl. by injection Hl as <-. }
    rewrite He, Eq1 in Eq2. cbn [drop] in Eq2. rewrite E in *.
    apply Forall_cons in Fd as [Fe Fd]. destruct (A ltac:(lia)) as [A1 A2]. fold e in A1, A2.
    destruct (remaining_consumed _ _ q e (qo_limits _ Q) eq_refl Fe A1) as [Hre _].
    pose proof (same_fields _ _ S2) as (G1 & G2 & G3 & _ & G5 & _).
    assert (Hrem : (remaining <$> queued q')
      = advanced (remaining e) (FecV2.Bytes c) :: (remaining <$> drop (S (FecV2.Next c)) (queued q)))
      by (rewrite Eq2; cbn [fmap list_fmap]; by rewrite Hre).
    assert (Hret : retained (queued q') = retained (queued q1))
      by (rewrite Eq2, Eq1, !retained_cons; done).
    split; [|split; [exact Hrem|split; [by eapply same_trans|split; [done|]]]].
    2: { rewrite Eq2, <- !fmap_drop, (drop_S _ _ _ Hat). done. }
    apply queue_ok_update; rewrite ?G1, ?G2, ?G3, ?G5, ?F1, ?F2, ?F3, ?F5; try done.
    + rewrite Eq2. constructor; [apply consumed_ok; (done || apply Q)|done].
    + by rewrite Hrem.
    + rewrite Eq2. destruct N2 as [->|N2]; [by left|right].
      rewrite <- (take_drop (FecV2.Next c)), (drop_S _ _ _ Hat) in N2.
      apply Forall_app in N2 as [_ [N2 N3]%Forall_cons]. by constructor.
    + by rewrite Er2, Er1, Hret.
    + rewrite Hret, Eq1, retained_cons. rewrite retained_cons in Hrd. lia.
  - subst q'. assert (Hrem : (match remaining <$> drop (FecV2.Next c) (queued q) with
      | [] => [] | f :: rest => f :: rest end) = (remaining <$> queued q1))
      by (rewrite Eq1; by destruct (remaining <$> drop (FecV2.Next c) (queued q))).
    rewrite Hrem in *. split; [|split; [done|split; [done|split; [done|by rewrite Eq1, !fmap_drop]]]].
    apply queue_ok_update; rewrite ?F1, ?F2, ?F3, ?F5; try done.
    + by rewrite Eq1.
    + rewrite Eq1. destruct N2 as [->|N2]; [by left|right]. by apply Forall_drop.
    + rewrite Eq1. lia.
Qed.

(** Fields outside the ring and the credit do not matter to the invariant. *)
Lemma queue_ok_stamp (q1 : Queue) now g : queue_ok q1 ->
  queue_ok (clockLocked now (with_ids (nextDatagramID q1) g q1)).
Proof using.
  intros [[R1 R0 R2 R3] ? ? ? ? H ? ? ?]. split; try done.
  eapply Forall_impl; [exact H|]. intros e. by apply entry_ok_ext.
Qed.

Definition openFor (now : Z) (w : World) : Prop := checkLocked q now w = None.

(** ** One seal *)

Lemma seal_ok now force space ws w l ws1 w1 :
  openFor now w -> (0 < count q)%nat -> nextGroupID q <> 0 ->
  force || dueLocked q now (planLocked q) = true ->
  reserveOutput q space ws w = (Ok l, ws1, w1) ->
  exists pieces g c q1 w',
    seal q now force space ws w
      = (Ok (Some {| group := Some {| EncodingEpoch := EpochID (epoch q); GroupID := nextGroupID q;
                                      SealedOf := g |};
                     out_lease := l; workspace := space; released := false |}),
         clockLocked now (with_ids (nextDatagramID q1) (u64 (nextGroupID q + 1)) q1), ws1, w') /\
    FecV2.Encode (codec q) pieces = Ok g /\ pieces <> [] /\
    prefix_of (remaining <$> queued q) pieces c /\
    queue_ok q1 /\ (remaining <$> queued q1) = remainder (remaining <$> queued q) c /\
    same_but_ring q q1 /\ released_leases (take (FecV2.Next c) (queued q)) w1 w' /\
    (holding <$> queued q1) = drop (FecV2.Next c) (holding <$> queued q) /\
    (original <$> queued q1) = drop (FecV2.Next c) (original <$> queued q).
Proof using Q Hlaw LL.
  intros Ho Hc Hg Hd Hres. destruct (plan_encodes Hc) as (pieces & g & E1 & E2 & E3 & E4 & E5 & E6).
  set (c := cursor (planLocked q)) in *.
  destruct (after c w1) as [q1 w'] eqn:Ea. pose proof Ea as Ea'.
  destruct (after_ok _ _ _ _ _ E4 E5 Ea) as (A1 & A2 & A3 & A4 & A5).
  exists pieces, g, c, q1, w'. split; [|done].
  unfold seal. unfold openFor in Ho. rewrite Ho.
  replace (count q =? 0)%nat with false by (symmetry; apply Nat.eqb_neq; lia).
  replace (nextGroupID q =? 0) with false by lia.
  assert (Hgo : negb force && negb (dueLocked q now (planLocked q)) = false)
    by (by destruct force, (dueLocked q now (planLocked q))).
  rewrite Hgo.
  rewrite (len_nonempty _ E6), Hres, E1. fold c. rewrite bool_decide_true by done. cbn [negb].
  unfold after in Ea. destruct (dropHeads (FecV2.Next c) q w1) as [q2 w2]. injection Ea as Ea <-.
  rewrite Ea. pose proof (same_fields _ _ A3) as (_ & _ & _ & _ & _ & -> & _). done.
Qed.

(** An error of [seal] leaves the queue and the credit as they were. *)
Lemma seal_error now force space ws w e q' ws' w' :
  seal q now force space ws w = (Err e, q', ws', w') -> q' = q /\ ws' = ws /\ w' = w.
Proof using Q Hlaw LL.
  intros E. unfold seal in E. destruct (checkLocked q now w) eqn:Ho; [by injection E as <- <- <- <-|].
  destruct (Nat.eqb_spec (count q) 0) as [|Hc]; [done|].
  destruct (Z.eqb_spec (nextGroupID q) 0); [by injection E as <- <- <- <-|].
  destruct (_ && _) eqn:Hdue; [done|].
  destruct (plan_encodes ltac:(lia)) as (pieces & g & E1 & _ & _ & _ & _ & E6).
  rewrite (len_nonempty _ E6) in E.
  destruct (reserveOutput q space ws w) as [[[l|e'] ws1] w1] eqn:Hres.
  - rewrite E1, bool_decide_true in E by done. cbn [negb] in E.
    by destruct (dropHeads _ q w1) as [? ?].
  - injection E as <- <- <- <-. split; [done|]. unfold reserveOutput, acquire in Hres.
    destruct space as [s|].
    + repeat case_match; by simplify_eq.
    + destruct (Reserve _ _ w) as [[l|e0] w0] eqn:Er; simplify_eq.
      by rewrite (law_Reserve_err _ _ _ _ _ Er).
Qed.

End seal.
