(* ===== verification/AggregationRun.v ===== *)
(** * What a queue guarantees

    Runs of a [Queue] among other users of the credit ledger: the invariant of every
    run, the credit the queue holds, and the stream property: what was sealed and what
    is still queued join, in order, to the admitted Datagrams. *)

From S2P Require Import Prelude CreditScope Aggregation AggregationProps AggregationSeal.
From S2P Require Fec FecV2 FecV2Props FecV2Packing Credit.
Import FecV2 (DatagramID, TotalBytes, Offset, Payload).
Import FecV2Packing (prefix_of, remainder, advanced, rejoin).

(** ** Creation *)

(** The widths of the unsigned fields. *)
Definition limits_typed (lim : Limits) : Prop :=
  in_u 64 (MaxQueuedBytes lim) /\ in_u 32 (MaxDatagramBytes lim).

Lemma RequiredInitialBytes_ok lim n :
  limits_typed lim -> RequiredInitialBytes lim = Ok n ->
  limits_ok lim /\ n = MaxQueuedDatagrams lim * slotBytes.
Proof.
  intros [T1 T2] H. unfold RequiredInitialBytes in H. go_inv H. bools.
  unfold Credit.MaxRetainedBytes, FecV2.MaxDatagramBytes, in_u in *.
  split; [split; lia|]. rewrite <- H. unfold u64, slotBytes. apply wrap_small. unfold in_u. lia.
Qed.

Lemma newQueue_ok `{Fec.ReedSolomon} addr s lim ep c l :
  limits_ok lim -> FecV2.New (EpochParameters ep) = Ok c ->
  MaxDatagramBytes lim <= u32 (FecV2.par_MaxDatagramBytes (EpochParameters ep)) ->
  queue_ok (newQueue addr s lim ep c l) /\ queued (newQueue addr s lim ep c l) = [].
Proof.
  intros Lk Hc Hd. unfold FecV2.New in Hc.
  destruct (FecV2.validate _) eqn:V; [done|]. apply FecV2Props.validate_iff in V.
  destruct (Fec.reedsolomon_New _ _) as [rs|]; [|done]. injection Hc as <-.
  assert (Hq : queued (newQueue addr s lim ep {| FecV2.params := EpochParameters ep; FecV2.rs := rs |} l) = [])
    by done.
  split; [|done]. destruct Lk as [L1 L2 L3 L4]. pose proof (FecV2Props.pk_datagram _ V) as P.
  unfold FecV2.MaxDatagramBytes, u32 in *. rewrite wrap_small in Hd by (unfold in_u; lia).
  split; rewrite ?Hq; cbn [newQueue limits epoch codec nextDatagramID retainedBytes retained foldr FecV2.params];
    try done.
  - split; cbn; rewrite length_replicate; lia.
  - split; [done|]. by right.
  - split; [done|lia].
Qed.

Section runs.
Context `{L : Ledger} {LL : LedgerLaws L}.

(** ** Credit *)

Definition holdings (q : Queue) : list (option Ptr * bytes) := holding <$> queued q.
Definition leases_of (hs : list (option Ptr * bytes)) : list Ptr := omap fst hs.

(** The queue's leases: one per payload, charged its length, and the ring's. *)
Record owns (q : Queue) (w : World) : Prop := {
  ow_entries o d : (o, d) ∈ holdings q ->
    match o with Some l => live w !! l = Some (len d) | None => d = [] end;
  ow_ring l : ringLease q = Some l -> is_Some (live w !! l) /\ l ∉ leases_of (holdings q);
  ow_distinct : NoDup (leases_of (holdings q)) }.

(** The other users leave the queue's leases alone. *)
Definition keeps (q : Queue) (w w' : World) : Prop :=
  forall l, l ∈ leases_of (holdings q) \/ ringLease q = Some l -> live w' !! l = live w !! l.

Lemma leased hs l d : (Some l, d) ∈ hs -> l ∈ leases_of hs.
Proof using. intros H. apply list_elem_of_omap. by exists (Some l, d). Qed.

Lemma owns_keeps q w w' : owns q w -> keeps q w w' -> owns q w'.
Proof using.
  intros [H1 H2 H3] K. split; [| |done].
  - intros [l|] d He; specialize (H1 _ d He); [|done]. rewrite K; [done|]. left. by eapply leased.
  - intros l Hl. destruct (H2 l Hl). split; [|done]. rewrite K; [done|]. by right.
Qed.

Lemma owns_ext q q' w : holdings q' = holdings q -> ringLease q' = ringLease q -> owns q w -> owns q' w.
Proof using. intros E1 E2 [H1 H2 H3]. split; rewrite ?E1, ?E2; done. Qed.

(** A new lease is none of the queue's. *)
Lemma reserve_keeps q w s c l w' :
  owns q w -> Reserve s c w = (Ok l, w') ->
  keeps q w w' /\ (l ∉ leases_of (holdings q)) /\ ringLease q <> Some l.
Proof using LL.
  intros [H1 H2 H3] E. destruct (law_Reserve_ok _ _ _ _ _ E) as [Hn Hl].
  assert (Hnot : (l ∉ leases_of (holdings q)) /\ ringLease q <> Some l).
  { split.
    - intros ([o d] & He & El)%list_elem_of_omap. cbn in El. specialize (H1 o d He). subst o. congruence.
    - intros E'. destruct (H2 l E') as [[? ?] _]. congruence. }
  split; [|done]. destruct Hnot as [N1 N2]. intros l' Hl'. rewrite Hl. apply lookup_insert_ne.
  intros ->. by destruct Hl'.
Qed.

(** Releasing some of the entries leaves the leases of the others. *)
Lemma released_owns q q' gone w w' :
  owns q w -> ringLease q' = ringLease q -> holdings q ≡ₚ ((holding <$> gone) ++ holdings q') ->
  released_leases gone w w' -> owns q' w'.
Proof using.
  intros [H1 H2 H3] Er P (_ & _ & F).
  assert (Pl : leases_of (holdings q) ≡ₚ (leases_of (holding <$> gone) ++ leases_of (holdings q'))).
  { unfold leases_of. rewrite <- omap_app. by rewrite P. }
  rewrite Pl in H3. apply NoDup_app in H3 as (N1 & N2 & N3).
  assert (Hun : forall l, l ∉ leases_of (holding <$> gone) -> unheld gone l).
  { intros l Hl. apply Forall_forall. intros e He E. apply Hl, (leased _ _ (payload e)).
    apply list_elem_of_fmap. exists e. unfold holding. by rewrite E. }
  split; [| |done].
  - intros o d He. assert (Hq : (o, d) ∈ holdings q) by (rewrite P; apply elem_of_app; by right).
    specialize (H1 _ _ Hq). destruct o as [l|]; [|done]. rewrite F; [done|]. apply Hun. intros Hg.
    apply (N2 l Hg). by eapply leased.
  - rewrite Er. intros l Hl. destruct (H2 l Hl) as [Hs Hn]. rewrite Pl in Hn.
    apply not_elem_of_app in Hn as [Hn1 Hn2]. split; [|done]. rewrite F by (by apply Hun). done.
Qed.

(** ** Admission *)

Definition whole (i : Z) (d : bytes) : FecV2.Fragment :=
  {| DatagramID := i; TotalBytes := len d; Offset := 0; Payload := d |}.

Lemma validateInput_snoc c fs f : forall previous,
  FecV2Props.params_ok (FecV2.params c) ->
  Forall FecV2Props.frag_typed fs -> FecV2Props.frag_typed f ->
  FecV2.validateInput c fs previous = None -> FecV2Props.fragment_ok c previous f ->
  Forall (fun g => DatagramID g < DatagramID f) fs ->
  FecV2.validateInput c (fs ++ [f]) previous = None.
Proof using.
  induction fs as [|g fs IH]; intros previous P T Tf V F H; cbn [app].
  - by apply FecV2Packing.validateInput_cons.
  - apply Forall_cons in T as [Tg T]. apply Forall_cons in H as [Hg H].
    apply FecV2Packing.validateInput_cons in V as [V1 V2]; [|done|done].
    apply FecV2Packing.validateInput_cons; [done|done|]. split; [done|].
    apply IH; try done. destruct F as [F1 F2 F3 F4], V1 as [V1 _ _ _]. split; try done. lia.
Qed.

Lemma validateInput_remove c i : forall fs previous,
  FecV2Props.params_ok (FecV2.params c) -> Forall FecV2Props.frag_typed fs ->
  FecV2.validateInput c fs previous = None ->
  FecV2.validateInput c (take i fs ++ drop (S i) fs) previous = None.
Proof using.
  induction i as [|i IH]; intros [|f fs] previous P T V; try done; apply Forall_cons in T as [Tf T];
    apply FecV2Packing.validateInput_cons in V as [V1 V2]; try done; cbn [take drop app].
  - destruct fs as [|g fs]; [done|]. apply Forall_cons in T as [Tg T].
    apply FecV2Packing.validateInput_cons in V2 as [V2 V3]; [|done..].
    apply FecV2Packing.validateInput_cons; [done..|]. split; [|done].
    destruct V1 as [? _ _ _], V2 as [? ? ? ?]. split; try done. lia.
  - apply FecV2Packing.validateInput_cons; [done..|]. split; [done|]. by apply IH.
Qed.

(** An open queue refuses what is too large or does not fit, and takes the rest. *)
Definition tooLarge (q : Queue) (d : bytes) : bool :=
  (MaxDatagramBytes (limits q) <? len d)
  || ((0 <? len d)
      && ((capacity q =? 0) || (MaxFragmentsPerDatagram (limits q) <? fragmentCount (len d) (capacity q)))).

Definition noRoom (q : Queue) (d : bytes) : bool :=
  (count q =? length (ring q))%nat || (MaxQueuedBytes (limits q) <? retained (queued q) + len d).

Lemma room_spec q (d : bytes) : queue_ok q ->
  (u64 (MaxQueuedBytes (limits q) - retainedBytes q) <? len d)
  = (MaxQueuedBytes (limits q) <? retained (queued q) + len d).
Proof using.
  intros Q. destruct (qo_retained _ Q) as [E1 E2]. pose proof (lk_queued _ (qo_limits _ Q)).
  pose proof (retained_nonneg (queued q)). rewrite E1. unfold u64.
  rewrite wrap_small by (unfold in_u; lia). lia.
Qed.

Definition admitted (i : Z) (d : bytes) (now : Z) (l : option Ptr) : entry :=
  {| id := i; payload := d; offset := 0; fragments := 0; admittedAt := now; lease := l |}.

Lemma admitted_ok q d now l :
  queue_ok q -> tooLarge q d = false -> nextDatagramID q <> 0 -> (d <> [] -> is_Some l) ->
  entry_ok q (admitted (nextDatagramID q) d now l).
Proof using.
  intros Q Hl Hn Hs. destruct (qo_next _ Q) as [N1 _]. unfold in_u in N1. unfold tooLarge in Hl.
  apply orb_false_iff in Hl as [Hl1 Hl2]. pose proof (len_nonneg d).
  assert (Hd : d <> [] -> 0 < len d).
  { intros Hne. pose proof (len_nonempty d Hne) as Hz. apply Z.eqb_neq in Hz. lia. }
  pose proof (FecV2Props.pk_logical _ (qo_params _ Q)) as P. unfold FecV2.overhead in P.
  assert (0 <= capacity q) by (unfold capacity, freshCapacity; lia).
  split; cbn [admitted id payload offset fragments lease]; try done; try (unfold in_u; lia); try lia.
  intros Hne. specialize (Hd Hne). unfold left. cbn [payload offset admitted]. rewrite Z.sub_0_r.
  replace (0 <? len d) with true in Hl2 by lia. cbn [andb] in Hl2. lia.
Qed.

Lemma remaining_admitted q i d now l :
  queue_ok q -> tooLarge q d = false -> remaining (admitted i d now l) = whole i d.
Proof using.
  intros Q Hl. unfold tooLarge in Hl. apply orb_false_iff in Hl as [Hl _].
  pose proof (lk_bytes _ (qo_limits _ Q)). pose proof (len_nonneg d). unfold remaining, whole.
  cbn [admitted id payload offset]. unfold u32. rewrite wrap_small by (unfold in_u; lia). done.
Qed.

(** The queue once [Admit] has committed. *)
Definition pushed (q : Queue) (d : bytes) (now : Z) (l : option Ptr) : Queue :=
  clockLocked now (with_ids (u64 (nextDatagramID q + 1)) (nextGroupID q)
    (with_ring (<[slot q (count q) := admitted (nextDatagramID q) d now l]> (ring q)) (head q)
       (S (count q)) (u64 (retainedBytes q + len d)) q)).

Lemma pushed_queued q d now l :
  queue_ok q -> noRoom q d = false ->
  ring_ok (pushed q d now l) /\ queued (pushed q d now l) = queued q ++ [admitted (nextDatagramID q) d now l].
Proof using.
  intros Q Hr. apply orb_false_iff in Hr as [Hr _]. apply Nat.eqb_neq in Hr.
  destruct (ring_push q (admitted (nextDatagramID q) d now l) (u64 (retainedBytes q + len d)) (qo_ring _ Q))
    as [[R1 R0 R2 R3] E]; [destruct (qo_ring _ Q); lia|].
  split; [by split|]. rewrite <- E. by apply queued_ext.
Qed.

Lemma pushed_ok q d now l :
  queue_ok q -> tooLarge q d = false -> noRoom q d = false -> nextDatagramID q <> 0 ->
  (d <> [] -> is_Some l) -> queue_ok (pushed q d now l).
Proof using.
  intros Q Hl Hr Hn Hs. destruct (pushed_queued q d now l Q Hr) as [R E].
  destruct (qo_retained _ Q) as [Eb Hb]. destruct (qo_next _ Q) as [N1 [N2|N2]]; [done|].
  pose proof (admitted_ok q d now l Q Hl Hn Hs) as Ha.
  assert (Fe : Forall (entry_ok q) (queued (pushed q d now l))).
  { rewrite E. apply Forall_app. split; [apply Q|]. by constructor. }
  apply orb_false_iff in Hr as [_ Hr]. pose proof (lk_queued _ (qo_limits _ Q)).
  pose proof (retained_nonneg (queued q)). pose proof (len_nonneg d).
  assert (Hret : retained (queued (pushed q d now l)) = retained (queued q) + len d).
  { rewrite E, retained_app, retained_cons. change (retained []) with 0. cbn [payload admitted]. lia. }
  apply (queue_ok_update q Q); try done.
  - rewrite E, fmap_app. apply validateInput_snoc; try apply Q.
    + apply (codec_params q Q).
    + apply (queued_typed q Q).
    + apply (remaining_typed q); [apply Q|done].
    + apply (remaining_ok q); [done|done|]. destruct Ha as [[_ ?] _]. done.
    + apply Forall_fmap. eapply Forall_impl; [exact N2|]. done.
  - apply wrap_range. lia.
  - cbn [nextDatagramID pushed clockLocked with_ids]. unfold u64, in_u in *.
    destruct (decide (nextDatagramID q + 1 = 2 ^ 64)) as [->|]; [by left|right].
    rewrite wrap_small by (unfold in_u; lia). rewrite E. apply Forall_app. split.
    + eapply Forall_impl; [exact N2|]. cbn. lia.
    + constructor; [cbn; lia|done].
  - rewrite Hret. cbn [retainedBytes pushed clockLocked with_ids with_ring]. rewrite Eb. unfold u64.
    apply wrap_small. unfold in_u. lia.
  - lia.
Qed.

Lemma holdings_pushed q d now l :
  queue_ok q -> noRoom q d = false -> holdings (pushed q d now l) = holdings q ++ [(l, d)].
Proof using. intros Q Hr. unfold holdings. destruct (pushed_queued q d now l Q Hr) as [_ ->]. by rewrite fmap_app. Qed.

Lemma pushed_owns q d now l w w' :
  queue_ok q -> noRoom q d = false -> owns q w -> keeps q w w' ->
  match l with
  | Some l => live w' !! l = Some (len d) /\ (l ∉ leases_of (holdings q)) /\ ringLease q <> Some l
  | None => d = []
  end -> owns (pushed q d now l) w'.
Proof using.
  intros Q Hr O K Hl. pose proof (owns_keeps _ _ _ O K) as [H1 H2 H3].
  assert (El : leases_of (holdings (pushed q d now l))
    = leases_of (holdings q) ++ match l with Some l => [l] | None => [] end).
  { rewrite holdings_pushed by done. unfold leases_of. rewrite omap_app. by destruct l. }
  split.
  - rewrite holdings_pushed by done. intros o d' [H|H]%elem_of_app; [by apply H1|].
    apply list_elem_of_singleton in H as [= -> ->]. destruct l; naive_solver.
  - intros l' E. rewrite El. destruct (H2 l' E) as [S N]. split; [done|].
    apply not_elem_of_app. split; [done|]. destruct l as [l|]; [|apply not_elem_of_nil].
    intros ->%list_elem_of_singleton. naive_solver.
  - rewrite El. apply NoDup_app. split; [done|]. destruct l as [l|].
    + split; [|apply NoDup_singleton]. intros x Hx ->%list_elem_of_singleton. naive_solver.
    + split; [|constructor]. intros x Hx H%elem_of_nil. done.
Qed.

(** The outcome of [Admit]. *)
Lemma Admit_ok q d now w r q' w' :
  queue_ok q -> owns q w -> Admit q d now w = (r, q', w') ->
  match r with
  | Err e => q' = q /\ w' = w
  | Ok i =>
      i = nextDatagramID q /\ i <> 0 /\ nextGroupID q <> 0 /\ checkLocked q now w = None /\
      tooLarge q d = false /\ noRoom q d = false /\
      exists l, q' = pushed q d now l /\ queue_ok q' /\ owns q' w' /\ keeps q w w'
  end.
Proof using LL.
  intros Q O E. unfold Admit in E.
  destruct (checkLocked q now w); [by injection E as <- <- <-|].
  destruct (Z.eqb_spec (nextDatagramID q) 0) as [|Hn]; cbn [orb] in E; [by injection E as <- <- <-|].
  destruct (Z.eqb_spec (nextGroupID q) 0) as [|Hg]; [by injection E as <- <- <-|].
  fold (capacity q) in E. fold (tooLarge q d) in E.
  destruct (tooLarge q d) eqn:Hl; [by injection E as <- <- <-|].
  rewrite (room_spec q d Q) in E. fold (noRoom q d) in E.
  destruct (noRoom q d) eqn:Hr; [by injection E as <- <- <-|].
  destruct (Z.ltb_spec 0 (len d)) as [Hpos|Hzero].
  - destruct (Reserve (session q) (bytesOnly (len d)) w) as [[l|e] w1] eqn:Er.
    + destruct (reserve_keeps _ _ _ _ _ _ O Er) as (K & K1 & K2).
      destruct (law_Reserve_ok _ _ _ _ _ Er) as [_ Hw]. injection E as <- <- <-.
      repeat (split; [done|]). exists (Some l). split; [done|]. split; [by apply pushed_ok|].
      split; [|done]. eapply pushed_owns; try done. by rewrite Hw, lookup_insert_eq.
    + injection E as <- <- <-. by rewrite (law_Reserve_err _ _ _ _ _ Er).
  - assert (d = []) as -> by (apply len_zero; pose proof (len_nonneg d); lia). injection E as <- <- <-.
    repeat (split; [done|]). exists None. split; [done|]. split; [by apply pushed_ok|].
    split; [by eapply pushed_owns|done].
Qed.

(** ** Sealing, cancellation and close *)

(** The codec of the queue is lawful for its parameters. *)
Definition lawful (q : Queue) : Prop :=
  Fec.Lawful (Z.to_nat (FecV2.DataShards (EpochParameters (epoch q))))
    (Z.to_nat (FecV2.ParityShards (EpochParameters (epoch q)))) (FecV2.rs (codec q)).

Lemma reserveOutput_keeps q space ws w l ws1 w1 :
  owns q w -> reserveOutput q space ws w = (Ok l, ws1, w1) -> keeps q w w1 /\
  match l with Some l => live w1 = <[l := outputBytes q]> (live w) /\ live w !! l = None | None => w1 = w end.
Proof using LL.
  intros O E. unfold reserveOutput in E. destruct space as [s|].
  - destruct (acquire s (self q) ws) as [[e|] ws2]; [done|]. by injection E as <- <- <-.
  - destruct (Reserve (session q) (bytesOnly (outputBytes q)) w) as [[l'|e] w2] eqn:Er; [|done].
    injection E as <- <- <-. split; [by eapply reserve_keeps|].
    by destruct (law_Reserve_ok _ _ _ _ _ Er).
Qed.

Lemma take_drop_holdings n q : holdings q = (holding <$> take n (queued q)) ++ drop n (holdings q).
Proof using. unfold holdings. by rewrite fmap_take, take_drop. Qed.

(** After a removal the invariant of the credit holds for what stays. *)
Lemma released_some q q' n w w' :
  owns q w -> same_but_ring q q' -> holdings q' = drop n (holdings q) ->
  released_leases (take n (queued q)) w w' -> owns q' w'.
Proof using.
  intros O S E R. pose proof (same_fields _ _ S) as (_ & _ & _ & _ & _ & _ & _ & _ & _ & Er & _).
  eapply released_owns; [exact O|exact Er| |exact R]. rewrite E. by rewrite <- take_drop_holdings.
Qed.

Lemma Cancel_ok q target w b q' w' :
  queue_ok q -> Cancel q target w = (b, q', w') ->
  if b then
    queue_ok q' /\ same_but_ring q q' /\
    exists i e, queued q !! i = Some e /\ id e = target /\
      queued q' = take i (queued q) ++ drop (S i) (queued q) /\ released_leases [e] w w'
  else q' = q /\ w' = w.
Proof using LL.
  intros Q E. unfold Cancel in E. destruct (_ || _); [by injection E as <- <- <-|].
  destruct (findID q target (count q) 0) as [i|] eqn:Ef; [|by injection E as <- <- <-].
  apply findID_spec in Ef as (Hi & Hid & _). change (ring q !!! slot q i) with (at_ q i) in E.
  destruct (ring_remove q i (u64 (retainedBytes q - len (payload (at_ q i)))) (qo_ring _ Q) ltac:(lia)) as [R Eq].
  injection E as <- <- <-. set (q' := with_ring _ _ _ _ q) in *.
  pose proof (queued_lookup q i ltac:(lia)) as Hat.
  destruct (qo_retained _ Q) as [Eb Hb]. destruct (qo_next _ Q) as [N1 N2].
  pose proof (retained_split _ _ _ Hat) as Hs. pose proof (len_nonneg (payload (at_ q i))).
  pose proof (retained_nonneg (queued q')) as Hn. pose proof (lk_queued _ (qo_limits _ Q)).
  assert (Hsub : forall P : entry -> Prop, Forall P (queued q) -> Forall P (queued q')).
  { intros P F. rewrite Eq. apply Forall_app. split; [by apply Forall_take|by apply Forall_drop]. }
  split; [|split; [by repeat eexists|]].
  - apply (queue_ok_update q Q); try done.
    + apply Hsub, Q.
    + rewrite Eq, fmap_app, fmap_take, fmap_drop.
      pose proof (qo_sorted _ Q) as V. pose proof (queued_typed q Q) as T.
      pose proof (codec_params q Q) as P. by apply validateInput_remove.
    + destruct N2 as [N2|N2]; [by left|right; by apply Hsub].
    + cbn [retainedBytes with_ring q']. rewrite Eq, Hs, Eb. unfold u64. apply wrap_small.
      rewrite Eq, Hs in Hn. unfold in_u. lia.
    + rewrite Eq, Hs. lia.
  - exists i, (at_ q i). split; [done|]. split; [done|]. split; [done|]. apply released_one.
Qed.

Lemma Cancel_owns q target w q' w' :
  queue_ok q -> owns q w -> Cancel q target w = (true, q', w') -> owns q' w'.
Proof using LL.
  intros Q O E. destruct (Cancel_ok _ _ _ _ _ _ Q E) as (_ & S & i & e & He & _ & Eq & R).
  pose proof (same_fields _ _ S) as (_ & _ & _ & _ & _ & _ & _ & _ & _ & Er & _).
  eapply released_owns; [exact O|exact Er| |exact R]. unfold holdings. rewrite Eq.
  rewrite <- (take_drop i (queued q)) at 1. rewrite (drop_S _ _ _ He), !fmap_app, fmap_cons.
  cbn [fmap list_fmap app]. symmetry. apply Permutation_middle.
Qed.

(** [Close] releases everything the queue holds, and nothing else. *)
Lemma queue_Close_ok q w q' w' :
  queue_ok q -> closed q = false -> Close q w = (q', w') ->
  closed q' = true /\ count q' = 0%nat /\ ring q' = [] /\ ringLease q' = None /\
  (forall e l, e ∈ queued q -> lease e = Some l -> live w' !! l = None) /\
  (forall l, ringLease q = Some l -> live w' !! l = None) /\
  (forall l, unheld (queued q) l -> ringLease q <> Some l -> live w' !! l = live w !! l).
Proof using LL.
  intros Q Ho E. unfold Close in E. rewrite Ho in E.
  destruct (dropHeads (count q) (with_closed q) w) as [q1 w1] eqn:Ed. injection E as <- <-.
  destruct (qo_retained _ Q) as [Eb Hb].
  assert (Eq : queued (with_closed q) = queued q) by by apply queued_ext.
  destruct (dropHeads_spec (count q) (with_closed q) w q1 w1) as (R1 & E1 & _ & S1 & _ & D1 & D2);
    rewrite ?Eq; try done.
  { destruct (qo_ring _ Q). by split. }
  { by apply retained_max. }
  pose proof (same_fields _ _ S1) as (_ & _ & _ & _ & _ & _ & Ec & _ & _ & Er & _).
  rewrite Eq in *. rewrite take_ge in D1, D2 by (by rewrite length_queued).
  split; [exact Ec|]. split.
  { cbn. rewrite <- length_queued, E1, length_drop, length_queued. lia. }
  split; [done|]. split; [done|]. cbn in Er. rewrite Er. split; [|split].
  - intros e l He El. destruct (ringLease q) as [l'|]; [|rewrite law_Release_nil; by eapply D1].
    rewrite law_Release. destruct (decide (l = l')) as [->|]; [apply lookup_delete_eq|].
    rewrite lookup_delete_ne by done. by eapply D1.
  - intros l ->. rewrite law_Release. apply lookup_delete_eq.
  - intros l Hu Hne. destruct (ringLease q) as [l'|]; [|rewrite law_Release_nil; by apply D2].
    rewrite law_Release, lookup_delete_ne by congruence. by apply D2.
Qed.
End runs.
