(* ===== verification/AggregationStream.v ===== *)
(** * The stream of a queue

    Every run of a queue keeps its invariant and its credit; what it sealed and what
    is still queued join, in order, to the admitted Datagrams. *)

From S2P Require Import Prelude CreditScope Aggregation AggregationProps AggregationSeal AggregationRun.
From S2P Require Fec FecV2 FecV2Props FecV2Packing Credit.
Import FecV2 (DatagramID, TotalBytes, Offset, Payload).
Import FecV2Packing (prefix_of, remainder, rejoin, carries).

(** ** Joining *)

Lemma rejoin_app_eq a b b' : rejoin b = rejoin b' -> rejoin (a ++ b) = rejoin (a ++ b').
Proof. intros E. induction a as [|f a IH]; [done|]. cbn [app rejoin]. by rewrite IH. Qed.

Lemma rejoin_nil fs : rejoin fs = [] -> fs = [].
Proof.
  destruct fs as [|f fs]; [done|]. cbn [rejoin]. destruct (rejoin fs); [done|].
  by destruct (FecV2Packing.continues _ _).
Qed.

Lemma rejoin_snoc fs f :
  Forall (fun g => DatagramID g <> DatagramID f) fs -> rejoin (fs ++ [f]) = rejoin fs ++ [f].
Proof.
  induction fs as [|g fs IH]; intros H; [done|]. apply Forall_cons in H as [Hg H]. cbn [app rejoin].
  rewrite IH by done. destruct (rejoin fs) as [|h more] eqn:E; cbn [app].
  - apply rejoin_nil in E as ->. unfold FecV2Packing.continues.
    by replace (DatagramID g =? DatagramID f) with false by lia.
  - by destruct (FecV2Packing.continues g h).
Qed.

(** [f] is a piece of [g]. *)
Record within (f g : Fragment) : Prop := {
  wi_id : DatagramID f = DatagramID g;
  wi_total : TotalBytes f = TotalBytes g;
  wi_payload : exists before after, Payload g = before ++ Payload f ++ after /\
    Offset f = Offset g + len before }.

Lemma within_refl f : within f f.
Proof.
  split; [done|done|]. exists [], []. rewrite app_nil_r. split; [done|]. change (len []) with 0. lia.
Qed.

Lemma continues_spec f g : FecV2Packing.continues f g = true ->
  DatagramID f = DatagramID g /\ TotalBytes f = TotalBytes g /\ Offset g = Offset f + len (Payload f).
Proof. unfold FecV2Packing.continues. intros H. bools. lia. Qed.

(** Every piece is within a joined fragment, and every byte of a joined fragment is in
    a piece. *)
Lemma rejoin_within fs f : f ∈ fs -> exists g, g ∈ rejoin fs /\ within f g.
Proof.
  induction fs as [|x fs IH]; [by intros ?%not_elem_of_nil|]. cbn [rejoin].
  intros [->|H]%elem_of_cons.
  - destruct (rejoin fs) as [|g more]; [exists x; split; [by apply list_elem_of_singleton|apply within_refl]|].
    destruct (FecV2Packing.continues x g) eqn:E.
    + eexists. split; [apply elem_of_cons; by left|]. split; [done|done|]. exists [], (Payload g).
      split; [done|]. change (len []) with 0. cbn. lia.
    + exists x. split; [apply elem_of_cons; by left|apply within_refl].
  - destruct (IH H) as (y & Hy & W). destruct (rejoin fs) as [|g more]; [by apply not_elem_of_nil in Hy|].
    destruct (FecV2Packing.continues x g) eqn:E.
    + apply continues_spec in E as (E1 & E2 & E3). apply elem_of_cons in Hy as [->|Hy].
      * eexists. split; [apply elem_of_cons; by left|]. destruct W as [W1 W2 (b & a & W3 & W4)].
        split; cbn; [congruence|congruence|]. exists (Payload x ++ b), a. split.
        -- by rewrite W3, <- app_assoc.
        -- rewrite len_app. lia.
      * exists y. split; [apply elem_of_cons; by right|done].
    + exists y. split; [apply elem_of_cons; by right|done].
Qed.

Lemma rejoin_bytes fs g : g ∈ rejoin fs ->
  (exists f, f ∈ fs /\ DatagramID f = DatagramID g /\ TotalBytes f = TotalBytes g) /\
  forall x, Offset g <= x < Offset g + len (Payload g) ->
    exists f, f ∈ fs /\ DatagramID f = DatagramID g /\ Offset f <= x < Offset f + len (Payload f).
Proof.
  revert g. induction fs as [|h fs IH]; intros g; [by intros ?%not_elem_of_nil|]. cbn [rejoin].
  assert (Hlater : forall y, y ∈ rejoin fs ->
    (exists f, f ∈ h :: fs /\ DatagramID f = DatagramID y /\ TotalBytes f = TotalBytes y) /\
    forall x, Offset y <= x < Offset y + len (Payload y) ->
      exists f, f ∈ h :: fs /\ DatagramID f = DatagramID y /\ Offset f <= x < Offset f + len (Payload f)).
  { intros y Hy. destruct (IH y Hy) as [(f & F1 & F2) Hb]. split.
    - exists f. split; [apply elem_of_cons; by right|done].
    - intros x Hx. destruct (Hb x Hx) as (f' & F1' & F2'). exists f'. split; [apply elem_of_cons; by right|done]. }
  assert (Hhere : (exists f, f ∈ h :: fs /\ DatagramID f = DatagramID h /\ TotalBytes f = TotalBytes h) /\
    forall x, Offset h <= x < Offset h + len (Payload h) ->
      exists f, f ∈ h :: fs /\ DatagramID f = DatagramID h /\ Offset f <= x < Offset f + len (Payload f)).
  { split; [|intros x Hx]; exists h; (split; [apply elem_of_cons; by left|done]). }
  destruct (rejoin fs) as [|y more]; [by intros ->%list_elem_of_singleton|].
  destruct (FecV2Packing.continues h y) eqn:E.
  - apply continues_spec in E as (E1 & E2 & E3). intros [->|Hg]%elem_of_cons.
    + cbn [DatagramID TotalBytes Offset Payload]. split; [apply Hhere|]. intros x Hx. rewrite len_app in Hx.
      destruct (decide (x < Offset h + len (Payload h))) as [Hin|Hout]; [by apply Hhere; lia|].
      destruct (Hlater y ltac:(apply elem_of_cons; by left)) as [_ Hb]. rewrite E1.
      apply Hb. lia.
    + apply Hlater. apply elem_of_cons. by right.
  - intros [->|Hg]%elem_of_cons; [done|]. by apply Hlater.
Qed.

(** ** Runs *)

Section stream.
Context `{L : Ledger} {LL : LedgerLaws L} `{Fec.ReedSolomon}.

Definition admission (d : bytes) (r : result QueueError Z) : list (Z * bytes) :=
  match r with Ok i => [(i, d)] | Err _ => [] end.
Definition output (r : result QueueError (option Output)) : list SealedGroup :=
  match r with Ok (Some o) => match group o with Some g => [g] | None => [] end | _ => [] end.

(** [run discards A G q ws w]: after the admissions [A] and the sealed groups [G] the
    queue is [q].  Remainders are dropped ([Cancel], [Close]) only if [discards]. *)
Inductive run (discards : Prop)
    : list (Z * bytes) -> list SealedGroup -> Queue -> Workspaces -> World -> Prop :=
  | run_new addr s lim ep ws w q w' :
      limits_typed lim -> New addr s lim ep w = (Ok q, w') -> lawful q -> run discards [] [] q ws w'
  | run_prepaid addr s lim ep l ws w q w' :
      limits_typed lim -> NewPrepaid addr s lim ep l w = (Ok q, w') -> lawful q ->
      run discards [] [] q ws w'
  | run_admit A G q ws w d now r q' w' :
      run discards A G q ws w -> Admit q d now w = (r, q', w') ->
      run discards (A ++ admission d r) G q' ws w'
  | run_seal A G q ws w now force space r q' ws' w' :
      run discards A G q ws w -> seal q now force space ws w = (r, q', ws', w') ->
      run discards A (G ++ output r) q' ws' w'
  | run_ready A G q ws w now r q' :
      run discards A G q ws w -> Ready q now w = (r, q') -> run discards A G q' ws w
  | run_cancel A G q ws w i b q' w' :
      discards -> run discards A G q ws w -> Cancel q i w = (b, q', w') -> run discards A G q' ws w'
  | run_close A G q ws w q' w' :
      discards -> run discards A G q ws w -> Close q w = (q', w') -> run discards A G q' ws w'
  | run_other A G q ws w ws' w' :
      run discards A G q ws w -> keeps q w w' -> run discards A G q ws' w'.

(** Identifiers are handed out in sequence. *)
Record numbered (A : list (Z * bytes)) (G : list SealedGroup) (q : Queue) : Prop := {
  nu_sent : A.*1 = seqZ 1 (len A);
  nu_next : nextDatagramID q = u64 (1 + len A);
  nu_max : len A < 2 ^ 64;
  nu_groups : (GroupID <$> G) = seqZ 1 (len G);
  nu_group : nextGroupID q = u64 (1 + len G);
  nu_group_max : len G < 2 ^ 64;
  nu_epoch : Forall (fun g => EncodingEpoch g = EpochID (epoch q)) G;
  nu_queued : Forall (fun e => (id e, payload e) ∈ A) (queued q) }.

Record live_queue (q : Queue) (w : World) : Prop := {
  lq_ok : queue_ok q;
  lq_owns : owns q w;
  lq_lawful : lawful q }.

Record run_inv (A : list (Z * bytes)) (G : list SealedGroup) (q : Queue) (w : World) : Prop := {
  ri_numbered : numbered A G q;
  ri_live : closed q = false -> live_queue q w;
  ri_closed : closed q = true -> queued q = [] /\ ringLease q = None }.

Lemma seqZ_snoc n : 0 <= n -> seqZ 1 (n + 1) = seqZ 1 n ++ [1 + n].
Proof using. intros Hn. rewrite seqZ_app by lia. f_equal. Qed.

(** The next identifier of a counter that stops at zero. *)
Lemma next_id n : 0 <= n < 2 ^ 64 -> u64 (1 + n) <> 0 -> u64 (1 + n) = 1 + n /\ n + 1 < 2 ^ 64.
Proof using.
  intros Hn Hne. unfold u64 in *. destruct (decide (n = 2 ^ 64 - 1)) as [->|].
  - by destruct Hne.
  - rewrite wrap_small by (unfold in_u; lia). lia.
Qed.

Lemma closed_inert q now w : closed q = true -> checkLocked q now w = Some ErrClosed.
Proof using. intros E. unfold checkLocked. by rewrite E. Qed.

Lemma created_inv addr s lim ep c l w :
  queue_ok (newQueue addr s lim ep c l) -> lawful (newQueue addr s lim ep c l) ->
  is_Some (live w !! l) -> run_inv [] [] (newQueue addr s lim ep c l) w.
Proof using.
  intros Q Hl Hlive. split; [by split| |done]. intros _. split; [done| |done]. split.
  - intros o d ?%not_elem_of_nil. done.
  - intros l' [= <-]. split; [done|]. apply not_elem_of_nil.
  - constructor.
Qed.

Lemma prepare_ok s lim ep w c n :
  limits_typed lim -> prepare s lim ep w = Ok (c, n) ->
  limits_ok lim /\ FecV2.New (EpochParameters ep) = Ok c /\
  MaxDatagramBytes lim <= u32 (FecV2.par_MaxDatagramBytes (EpochParameters ep)).
Proof using.
  intros T E. unfold prepare in E. destruct (_ || _); [done|].
  destruct (RequiredInitialBytes lim) as [m|] eqn:Er; [|done]. cbn [result_bind] in E.
  apply RequiredInitialBytes_ok in Er as [Lk _]; [|done]. destruct (_ =? 0); [done|].
  destruct (FecV2.New _) as [c'|]; [|done]. destruct (Z.ltb_spec (u32 (FecV2.par_MaxDatagramBytes (EpochParameters ep)))
    (MaxDatagramBytes lim)); [done|]. by injection E as <- <-.
Qed.

(** Updates of a queue that change nothing the invariant reads. *)
Lemma inv_stamp A G q w now : run_inv A G q w -> run_inv A G (clockLocked now q) w.
Proof using.
  intros [[N1 N2 N3 N4 N5 N6 N7 N8] I C].
  assert (Eq : queued (clockLocked now q) = queued q) by by apply queued_ext.
  split; [by split; rewrite ?Eq| |by rewrite Eq]. intros Ho. destruct (I Ho) as [Q O Hl]. split; [| |done].
  - pose proof (queue_ok_stamp q now (nextGroupID q) Q) as Q'. by destruct q.
  - apply (owns_ext q); [|done|done]. unfold holdings. by rewrite Eq.
Qed.

Lemma admit_inv A G q w d now r q' w' :
  run_inv A G q w -> Admit q d now w = (r, q', w') -> run_inv (A ++ admission d r) G q' w'.
Proof using LL.
  intros I E. destruct (closed q) eqn:Ho.
  { unfold Admit in E. rewrite closed_inert in E by done. injection E as <- <- <-.
    cbn [admission]. by rewrite app_nil_r. }
  destruct I as [[N1 N2 N3 N4 N5 N6 N7 N8] I C]. destruct (I Ho) as [Q O Hl].
  pose proof (Admit_ok _ _ _ _ _ _ _ Q O E) as HA. destruct r as [i|e].
  2: { destruct HA as [-> ->]. cbn [admission]. rewrite app_nil_r. by split; [split|..]. }
  destruct HA as (-> & Hn & _ & _ & _ & Hr & l & -> & Q' & O' & _).
  pose proof (len_nonneg A). rewrite N2 in Hn. destruct (next_id (len A)) as [En Hmax]; [lia|done|].
  cbn [admission]. destruct (pushed_queued q d now l Q Hr) as [_ Eq].
  assert (Hlen : len (A ++ [(nextDatagramID q, d)]) = len A + 1).
  { rewrite len_app. change (len [(nextDatagramID q, d)]) with 1. lia. }
  split; [|by intros _; split|intros E'; change (closed q = true) in E'; congruence]. split; rewrite ?Hlen; try done.
  - rewrite fmap_app, N1, seqZ_snoc by done. cbn [fmap list_fmap fst]. by rewrite N2, En.
  - cbn [pushed nextDatagramID clockLocked with_ids]. rewrite N2, En. f_equal. lia.
  - rewrite Eq. apply Forall_app. split.
    + eapply Forall_impl; [exact N8|]. intros e He. apply elem_of_app. by left.
    + constructor; [|done]. apply elem_of_app. right. by apply list_elem_of_singleton.
Qed.

(** What a successful [seal] did. *)
Lemma seal_inv A G q w now force space ws r q' ws' w' :
  run_inv A G q w -> seal q now force space ws w = (r, q', ws', w') ->
  run_inv A (G ++ output r) q' w' /\
  match r with
  | Err e => q' = q /\ ws' = ws /\ w' = w
  | Ok None => q' = clockLocked now q /\ ws' = ws /\ w' = w
  | Ok (Some o) => closed q = false /\ closed q' = false /\ exists pieces g c,
      output r = [{| EncodingEpoch := EpochID (epoch q); GroupID := nextGroupID q; SealedOf := g |}] /\
      FecV2.Encode (codec q) pieces = Ok g /\ pieces <> [] /\
      prefix_of (remaining <$> queued q) pieces c /\
      (remaining <$> queued q') = remainder (remaining <$> queued q) c /\ codec q' = codec q
  end.
Proof using LL.
  intros I E. destruct (checkLocked q now w) as [e|] eqn:Ho.
  { unfold seal in E. rewrite Ho in E. injection E as <- <- <- <-. cbn [output]. by rewrite app_nil_r. }
  assert (Hopen : closed q = false).
  { destruct (closed q) eqn:Hc; [|done]. by rewrite closed_inert in Ho. }
  pose proof (ri_live _ _ _ _ I Hopen) as [Q O Hl]. destruct r as [[o|]|e].
  - assert (HG : nextGroupID q <> 0 /\ (0 < count q)%nat /\ force || dueLocked q now (planLocked q) = true
      /\ exists l ws1 w1, reserveOutput q space ws w = (Ok l, ws1, w1)).
    { unfold seal in E. rewrite Ho in E. destruct (Nat.eqb_spec (count q) 0); [done|].
      destruct (Z.eqb_spec (nextGroupID q) 0); [done|]. destruct (_ && _) eqn:Hd; [done|].
      destruct (len _ =? 0); [done|].
      destruct (reserveOutput q space ws w) as [[[l|e] ws1] w1]; [|done].
      split; [done|]. split; [lia|]. split; [by destruct force, (dueLocked q now (planLocked q))|]. by repeat eexists. }
    destruct HG as (Hg & Hc & Hd & l & ws1 & w1 & Hres).
    destruct (seal_ok q Q Hl now force space ws w l ws1 w1 Ho Hc Hg Hd Hres)
      as (pieces & g & c & q1 & w2 & E' & S1 & S2 & S3 & S4 & S5 & S6 & S7 & S8 & S9).
    rewrite E' in E. injection E as <- <- <- <-. cbn [output group].
    pose proof (same_fields _ _ S6) as (F1 & F2 & F3 & F4 & F5 & F6 & F7 & _ & _ & F8 & _).
    set (q' := clockLocked _ _). assert (Eq : queued q' = queued q1) by by apply queued_ext.
    destruct I as [[N1 N2 N3 N4 N5 N6 N7 N8] I C].
    split; [|split; [done|]; split; [by rewrite <- F7 in Hopen|];
      exists pieces, g, c; rewrite Eq; by repeat (split; [done|])].
    rewrite N5 in Hg. pose proof (len_nonneg G). destruct (next_id (len G)) as [En Hmax]; [lia|done|].
    set (sg := {| EncodingEpoch := _; GroupID := _; SealedOf := _ |}).
    assert (Hlen : len (G ++ [sg]) = len G + 1) by (rewrite len_app; change (len [sg]) with 1; lia).
    split; [split|..]; rewrite ?Hlen, ?Eq; try done.
    + cbn [q' nextDatagramID clockLocked with_ids]. by rewrite F5.
    + rewrite fmap_app, N4, seqZ_snoc by done. cbn [fmap list_fmap GroupID sg]. by rewrite N5, En.
    + cbn [q' nextGroupID clockLocked with_ids]. rewrite N5, En. f_equal. lia.
    + apply Forall_app. cbn [q' epoch clockLocked with_ids]. rewrite F2. split; [done|]. by constructor.
    + apply (Forall_fmap original (fun p => p ∈ A)). rewrite S9. apply Forall_drop. by apply Forall_fmap.
    + intros _. split; [by apply queue_ok_stamp| |].
      * apply (owns_ext q1); [unfold holdings; by rewrite Eq|done|].
        eapply released_some; [|exact S6|exact S8|exact S7].
        eapply owns_keeps; [exact O|]. by eapply reserveOutput_keeps.
      * unfold lawful. cbn [q' epoch codec clockLocked with_ids]. by rewrite F2, F3.
    + intros Hc'. cbn [q' closed clockLocked with_ids] in Hc'. congruence.
  - assert (E' : q' = clockLocked now q /\ ws' = ws /\ w' = w).
    { unfold seal in E. rewrite Ho in E. destruct (Nat.eqb_spec (count q) 0); [by injection E as <- <- <-|].
      destruct (Z.eqb_spec (nextGroupID q) 0); [done|]. destruct (_ && _); [by injection E as <- <- <-|].
      exfalso. destruct (len _ =? 0); [done|]. destruct (reserveOutput _ _ _ _) as [[[?|?] ?] ?]; [|done].
      destruct (FecV2.EncodePrefix _ _) as [[? ?]|].
      - destruct (negb _); [by destruct (undoOutput _ _ _ _)|]. by destruct (dropHeads _ _ _).
      - by destruct (undoOutput _ _ _ _). }
    destruct E' as (-> & -> & ->). cbn [output]. rewrite app_nil_r. split; [by apply inv_stamp|done].
  - destruct (seal_error q Q Hl _ _ _ _ _ _ _ _ _ E) as (-> & -> & ->). cbn [output]. by rewrite app_nil_r.
Qed.

Lemma cancel_inv A G q w i b q' w' :
  run_inv A G q w -> Cancel q i w = (b, q', w') -> run_inv A G q' w'.
Proof using LL.
  intros I E. destruct (closed q) eqn:Ho.
  { unfold Cancel in E. rewrite Ho in E. by injection E as <- <- <-. }
  pose proof (ri_live _ _ _ _ I Ho) as [Q O Hl]. pose proof (Cancel_ok _ _ _ _ _ _ Q E) as HC.
  destruct b; [|by destruct HC as [-> ->]]. pose proof (Cancel_owns _ _ _ _ _ Q O E) as O'.
  destruct HC as (Q' & S & k & e & _ & _ & Eq & _).
  pose proof (same_fields _ _ S) as (F1 & F2 & F3 & F4 & F5 & F6 & F7 & _).
  destruct I as [[N1 N2 N3 N4 N5 N6 N7 N8] I C].
  split; [split; rewrite ?F5, ?F6, ?F2; try done|..].
  - rewrite Eq. apply Forall_app. split; [by apply Forall_take|by apply Forall_drop].
  - intros _. split; [done|done|]. unfold lawful. by rewrite F2, F3.
  - rewrite F7. congruence.
Qed.

Lemma close_inv A G q w q' w' :
  run_inv A G q w -> Close q w = (q', w') -> run_inv A G q' w'.
Proof using LL.
  intros I E. destruct (closed q) eqn:Ho.
  { unfold Close in E. rewrite Ho in E. by injection E as <- <-. }
  pose proof (ri_live _ _ _ _ I Ho) as [Q O Hl].
  destruct (queue_Close_ok _ _ _ _ Q Ho E) as (C1 & C2 & _ & C3 & _).
  assert (S : epoch q' = epoch q /\ nextDatagramID q' = nextDatagramID q /\ nextGroupID q' = nextGroupID q).
  { unfold Close in E. rewrite Ho in E.
    destruct (dropHeads (count q) (with_closed q) w) as [q1 w1] eqn:Ed. injection E as <- <-.
    cbn [without_ring epoch nextDatagramID nextGroupID].
    destruct (dropHeads_spec (count q) (with_closed q) w q1 w1) as (_ & _ & _ & S & _); try done.
    - destruct (qo_ring _ Q). by split.
    - rewrite (queued_ext q) by done. apply Q.
    - rewrite (queued_ext q) by done. by apply retained_max.
    - by destruct (same_fields _ _ S) as (_ & F2 & _ & _ & F5 & F6 & _). }
  destruct S as (F2 & F5 & F6), I as [[N1 N2 N3 N4 N5 N6 N7 N8] I C].
  pose proof (length_queued_0 _ C2) as Eq.
  split; [split; rewrite ?F5, ?F6, ?F2, ?Eq; done|congruence|done].
Qed.

Lemma run_ok discards A G q ws w : run discards A G q ws w -> run_inv A G q w.
Proof using LL.
  induction 1 as [addr s lim ep ws w q w' T E Hl|addr s lim ep l ws w q w' T E Hl|A G q ws w d now r q' w' R IH E
    |A G q ws w now force space r q' ws' w' R IH E|A G q ws w now r q' R IH E|A G q ws w i b q' w' D R IH E
    |A G q ws w q' w' D R IH E|A G q ws w ws' w' R IH K].
  - unfold New in E. destruct (prepare s lim ep w) as [[c n]|] eqn:P; [|done].
    apply prepare_ok in P as (Lk & Hc & Hd); [|done].
    destruct (Reserve _ _ _) as [[l|] w1] eqn:Er; [|done]. injection E as <- <-.
    apply created_inv; [by apply newQueue_ok|done|]. destruct (law_Reserve_ok _ _ _ _ _ Er) as [_ ->].
    rewrite lookup_insert_eq. by eexists.
  - unfold NewPrepaid in E. destruct (prepare s lim ep w) as [[c n]|] eqn:P; [|done].
    apply prepare_ok in P as (Lk & Hc & Hd); [|done].
    destruct (BindBytes _ _ _ _) as [[l'|] w1] eqn:Er; [|done]. injection E as <- <-.
    apply created_inv; [by apply newQueue_ok|done|]. destruct (law_Bind_ok _ _ _ _ _ _ Er) as (_ & -> & b & -> & _).
    by eexists.
  - by eapply admit_inv.
  - by eapply seal_inv.
  - unfold Ready in E. destruct (checkLocked q now w); injection E as <- <-; [done|by apply inv_stamp].
  - by eapply cancel_inv.
  - by eapply close_inv.
  - destruct IH as [N I C]. split; [done| |done]. intros Ho. destruct (I Ho) as [Q O Hl].
    split; [done| |done]. by eapply owns_keeps.
Qed.

(** ** Nothing is lost, repeated or reordered *)

Definition datagrams (A : list (Z * bytes)) : list Fragment := (fun p => whole p.1 p.2) <$> A.

(** [pss] are the pieces the groups carry. *)
Definition streamed (A : list (Z * bytes)) (G : list SealedGroup) (q : Queue) (pss : list (list Fragment))
    : Prop :=
  Forall2 (fun g ps => carries (codec q) (SealedOf g) ps) G pss /\
  rejoin (concat pss ++ (remaining <$> queued q)) = datagrams A /\
  Forall FecV2Props.frag_typed (concat pss).

Lemma streamed_ext A G q q' pss :
  codec q' = codec q -> queued q' = queued q -> streamed A G q pss -> streamed A G q' pss.
Proof using. intros E1 E2 H'. unfold streamed. by rewrite E1, E2. Qed.

Lemma streamed_id A G q pss f :
  numbered A G q -> rejoin pss = datagrams A -> f ∈ pss -> DatagramID f < 1 + len A.
Proof using.
  intros N E Hf. destruct (rejoin_within _ _ Hf) as (g & Hg & [W _ _]). rewrite E in Hg.
  apply list_elem_of_fmap in Hg as ([i d] & -> & Hi). cbn in W. rewrite W.
  assert (Hs : i ∈ A.*1) by (apply list_elem_of_fmap; by exists (i, d)).
  rewrite (nu_sent _ _ _ N), elem_of_seqZ in Hs. lia.
Qed.

Lemma admit_streamed A G q w d now r q' w' pss :
  run_inv A G q w -> closed q = false -> streamed A G q pss -> Admit q d now w = (r, q', w') ->
  streamed (A ++ admission d r) G q' pss.
Proof using LL.
  intros [N I _] Ho S E. destruct (I Ho) as [Q O _].
  pose proof (Admit_ok _ _ _ _ _ _ _ Q O E) as HA. destruct r as [i|e]; cbn [admission].
  2: { destruct HA as [-> ->]. by rewrite app_nil_r. }
  destruct HA as (-> & Hn & _ & _ & Hl & Hr & l & -> & _). destruct S as (S1 & S2 & S3).
  destruct (pushed_queued q d now l Q Hr) as [_ Eq]. split; [done|]. split; [|done].
  rewrite Eq, fmap_app, app_assoc. cbn [fmap list_fmap].
  rewrite (remaining_admitted q) by done. rewrite (nu_next _ _ _ N) in *.
  destruct (next_id (len A)) as [En _]; [pose proof (len_nonneg A); pose proof (nu_max _ _ _ N); lia|done|].
  rewrite rejoin_snoc.
  - rewrite S2. unfold datagrams. by rewrite fmap_app.
  - apply Forall_forall. intros f Hf. pose proof (streamed_id _ _ _ _ _ N S2 Hf). cbn. rewrite En. lia.
Qed.

Lemma seal_streamed A G q w now force space ws r q' ws' w' pss :
  run_inv A G q w -> closed q = false -> streamed A G q pss ->
  seal q now force space ws w = (r, q', ws', w') ->
  exists pss', streamed A (G ++ output r) q' pss'.
Proof using LL.
  intros I Ho S E. destruct (seal_inv _ _ _ _ _ _ _ _ _ _ _ _ I E) as [I' HS].
  destruct r as [[o|]|e].
  - destruct HS as (_ & Ho' & pieces & g & c & -> & Henc & _ & Hpre & Hrem & Hc).
    destruct (ri_live _ _ _ _ I Ho) as [Q O Hl]. destruct S as (S1 & S2 & S3).
    destruct (ri_live _ _ _ _ I' Ho') as [Q' _ _].
    pose proof (codec_params q Q) as P. pose proof (queued_typed q Q) as T. pose proof (qo_sorted _ Q) as V.
    destruct (FecV2Packing.prefix_valid _ P _ _ _ T V Hpre) as (Tp & _).
    exists (pss ++ [pieces]). split.
    + rewrite Hc. apply Forall2_app; [done|]. constructor; [|done]. intros received R1 R2 R3.
      cbn [SealedOf] in *. apply (FecV2Props.Decode_complete (codec q) P) with (fs := pieces); try done.
      rewrite (qo_codec _ Q). exact Hl.
    + rewrite concat_app. cbn [concat]. split; [|rewrite app_nil_r; by apply Forall_app]. rewrite app_nil_r, <- app_assoc, <- S2. apply rejoin_app_eq.
      rewrite (FecV2Packing.rejoin_valid _ P _ 0 T V).
      apply (FecV2Packing.rejoin_prefix _ P _ _ _ _ T V Hpre). rewrite Hrem.
      apply (FecV2Packing.rejoin_valid _ P _ 0); rewrite <- Hrem; [|by rewrite <- Hc; apply Q'].
      by apply queued_typed.
  - destruct HS as (-> & _). cbn [output]. rewrite app_nil_r. exists pss. by eapply streamed_ext; [| |exact S].
  - destruct HS as (-> & _). cbn [output]. rewrite app_nil_r. by exists pss.
Qed.

Lemma run_streamed A G q ws w :
  run False A G q ws w -> closed q = false /\ exists pss, streamed A G q pss.
Proof using LL.
  induction 1 as [addr s lim ep ws w q w' T E Hl|addr s lim ep l ws w q w' T E Hl
    |A G q ws w d now r q' w' R [Ho [pss S]] E
    |A G q ws w now force space r q' ws' w' R [Ho [pss S]] E|A G q ws w now r q' R [Ho [pss S]] E
    |A G q ws w i b q' w' D R IH E
    |A G q ws w q' w' D R IH E|A G q ws w ws' w' R IH K].
  - unfold New in E. destruct (prepare s lim ep w) as [[c n]|]; [|done].
    destruct (Reserve _ _ _) as [[l|] w1]; [|done]. injection E as <- <-. split; [done|].
    exists []. by repeat split.
  - unfold NewPrepaid in E. destruct (prepare s lim ep w) as [[c n]|]; [|done].
    destruct (BindBytes _ _ _ _) as [[l'|] w1]; [|done]. injection E as <- <-. split; [done|].
    exists []. by repeat split.
  - pose proof (run_ok _ _ _ _ _ _ R) as I. split; [|exists pss; by eapply admit_streamed].
    destruct (ri_live _ _ _ _ I Ho) as [Q O _]. pose proof (Admit_ok _ _ _ _ _ _ _ Q O E) as HA.
    destruct r; [by destruct HA as (_ & _ & _ & _ & _ & _ & l & -> & _)|by destruct HA as [-> _]].
  - pose proof (run_ok _ _ _ _ _ _ R) as I. split; [|by eapply seal_streamed].
    destruct (seal_inv _ _ _ _ _ _ _ _ _ _ _ _ I E) as [_ HS].
    destruct r as [[o|]|e]; [by destruct HS as (_ & ? & _)|by destruct HS as (-> & _)..].
  - unfold Ready in E. destruct (checkLocked q now w); injection E as <- <-; (split; [done|]);
      exists pss; [done|]. by eapply streamed_ext; [| |exact S].
  - done.
  - done.
  - done.
Qed.

Lemma leases_of_holding (es : list entry) : leases_of (holding <$> es) = omap lease es.
Proof using. induction es as [|e es IH]; [done|]. cbn. unfold leases_of in IH. by rewrite IH. Qed.

Lemma validateInput_above c fs : forall previous,
  FecV2Props.params_ok (FecV2.params c) -> Forall FecV2Props.frag_typed fs ->
  FecV2.validateInput c fs previous = None ->
  Forall (fun f => previous < DatagramID f) fs /\ NoDup (DatagramID <$> fs).
Proof using.
  induction fs as [|f fs IH]; intros previous P T V; [by split; constructor|].
  apply Forall_cons in T as [Tf T]. apply FecV2Packing.validateInput_cons in V as [[V1 _ _ _] V]; [|done..].
  destruct (IH _ P T V) as [I1 I2]. cbn [fmap list_fmap]. split.
  - constructor; [lia|]. eapply Forall_impl; [exact I1|]. cbn. lia.
  - constructor; [|done]. intros (g & E & Hg)%list_elem_of_fmap. rewrite Forall_forall in I1.
    specialize (I1 g Hg). lia.
Qed.

Lemma queued_distinct q : queue_ok q -> NoDup (id <$> queued q).
Proof using.
  intros Q. destruct (validateInput_above _ _ _ (codec_params q Q) (queued_typed q Q) (qo_sorted _ Q)) as [_ N].
  rewrite <- list_fmap_compose in N. exact N.
Qed.

Lemma filter_all i (es : list entry) : i ∉ (id <$> es) -> filter (fun e => id e <> i) es = es.
Proof using.
  induction es as [|e es IH]; intros H'; [done|]. cbn [fmap list_fmap] in H'.
  apply not_elem_of_cons in H' as [H1 H2]. rewrite filter_cons_True by congruence. by rewrite IH.
Qed.

Lemma filter_remove (es : list entry) k e : NoDup (id <$> es) -> es !! k = Some e ->
  filter (fun x => id x <> id e) es = take k es ++ drop (S k) es.
Proof using.
  revert k. induction es as [|a es IH]; intros [|k] N Hk; try done; cbn [fmap list_fmap] in N;
    apply NoDup_cons in N as [N1 N2].
  - injection Hk as ->. rewrite filter_cons_False by (by intros ?). by apply filter_all.
  - cbn [take drop app]. rewrite filter_cons_True; [by rewrite (IH k)|]. intros E. apply N1.
    rewrite E. apply list_elem_of_fmap. exists e. split; [done|]. by eapply list_elem_of_lookup_2.
Qed.

(** ** Theorems *)

(** C13: Nothing admitted is lost, repeated or reordered: as long as the caller neither
    cancels nor closes, any k shards of each sealed group decode to pieces that,
    followed by what is still queued, join in order to the admitted Datagrams, bytes
    included; Datagram and group identifiers are 1, 2, 3, ... in order, never reused
    although the counters have 64 bits, and each group bears the queue's epoch. *)
Theorem stream_preserved A G q ws w :
  run False A G q ws w ->
  (exists pss, Forall2 (fun g ps => carries (codec q) (SealedOf g) ps) G pss /\
     rejoin (concat pss ++ (remaining <$> queued q)) = datagrams A) /\
  A.*1 = seqZ 1 (len A) /\ (GroupID <$> G) = seqZ 1 (len G) /\ len A < 2 ^ 64 /\ len G < 2 ^ 64 /\
  Forall (fun g => EncodingEpoch g = EpochID (epoch q)) G.
Proof using LL.
  intros R. destruct (run_streamed _ _ _ _ _ R) as (_ & pss & S1 & S2 & _).
  assert (S : exists pss, Forall2 (fun g ps => carries (codec q) (SealedOf g) ps) G pss /\
    rejoin (concat pss ++ (remaining <$> queued q)) = datagrams A) by by exists pss. destruct (run_ok _ _ _ _ _ _ R) as [[] _ _].
  by repeat (split; [done|]).
Qed.

(** C14: Bounds and ownership in every run, cancellations included: an open queue holds
    at most [MaxQueuedDatagrams] Datagrams and [MaxQueuedBytes] bytes, counted with
    the consumed prefixes; each queued Datagram is an admitted one that is not
    used up and whose rest still fits its fragment budget; each nonempty one owns a
    live lease charged exactly its length, no two the same and none the ring's. *)
Theorem queue_bounded discards A G q ws w :
  run discards A G q ws w -> closed q = false ->
  Z.of_nat (count q) <= MaxQueuedDatagrams (limits q) /\
  retainedBytes q = retained (queued q) /\ retainedBytes q <= MaxQueuedBytes (limits q) /\
  Forall (fun e => original e ∈ A /\ (payload e = [] \/ offset e < len (payload e)) /\
    (payload e = [] \/
     fragments e + fragmentCount (left e) (capacity q) <= MaxFragmentsPerDatagram (limits q))) (queued q) /\
  (forall e, e ∈ queued q -> payload e <> [] ->
     exists l, lease e = Some l /\ live w !! l = Some (len (payload e)) /\ ringLease q <> Some l) /\
  NoDup (omap lease (queued q)).
Proof using LL.
  intros R Ho. destruct (run_ok _ _ _ _ _ _ R) as [N I _]. destruct (I Ho) as [Q [O1 O2 O3] _].
  destruct (qo_ring _ Q) as [_ R1 _ R3]. destruct (qo_retained _ Q) as [B1 B2].
  pose proof (lk_datagrams _ (qo_limits _ Q)).
  assert (Ein : forall e, e ∈ queued q -> holding e ∈ holdings q).
  { intros e He. apply list_elem_of_fmap. by exists e. }
  split; [lia|]. split; [done|]. split; [lia|]. split; [|split].
  - apply Forall_forall. intros e He. pose proof (nu_queued _ _ _ N) as F. pose proof (qo_entries _ Q) as Fe.
    rewrite Forall_forall in F, Fe. split; [by apply F|]. destruct (Fe e He) as [_ _ _ E4 _ E6 _].
    destruct (decide (payload e = [])) as [|Hne]; [by split; left|]. split; right; [by apply E4|].
    by destruct (E6 Hne).
  - intros e He Hne. specialize (O1 _ _ (Ein e He)). destruct (lease e) as [l|] eqn:El; [|done].
    exists l. split; [done|]. split; [done|]. intros Er. destruct (O2 l Er) as [_ Hn]. apply Hn.
    apply (leased _ _ (payload e)). specialize (Ein e He). unfold holding in Ein. by rewrite El in Ein.
  - by rewrite <- leases_of_holding.
Qed.

(** C37: Sealing always succeeds once its output is paid for, and flushing ends: in
    every run, if a nonempty queue accepts calls and has group identifiers left,
    a forced seal whose reservation succeeds returns a group (the planned cursor and
    the codec's agree, so the error paths after the reservation are dead) with
    fewer fragments and bytes left to send. *)
Theorem seal_progress discards A G q ws w now space l ws1 w1 :
  run discards A G q ws w -> checkLocked q now w = None -> (0 < count q)%nat -> nextGroupID q <> 0 ->
  reserveOutput q space ws w = (Ok l, ws1, w1) ->
  exists o q' w', seal q now true space ws w = (Ok (Some o), q', ws1, w') /\
    out_lease o = l /\ workspace o = space /\ released o = false /\
    (FecV2Packing.work (remaining <$> queued q') < FecV2Packing.work (remaining <$> queued q))%nat.
Proof using LL.
  intros R Ho Hc Hg Hres.
  assert (Hopen : closed q = false).
  { destruct (closed q) eqn:Hcl; [|done]. by rewrite closed_inert in Ho. }
  destruct (run_ok _ _ _ _ _ _ R) as [_ I _]. destruct (I Hopen) as [Q O Hl].
  destruct (seal_ok q Q Hl now true space ws w l ws1 w1 Ho Hc Hg eq_refl Hres)
    as (pieces & g & c & q1 & w2 & E & S1 & S2 & S3 & S4 & S5 & _).
  eexists _, _, w2. split; [exact E|]. repeat (split; [done|]).
  rewrite (queued_ext q1) by done. rewrite S5. by eapply FecV2Packing.work_decreases.
Qed.

(** A refused call changes nothing: when [Admit] or [Seal] (with or without a
    workspace) returns an error, identifiers, payloads, cursors, workspaces and
    credit are as before, whatever was acquired before the failure. *)
Theorem queue_refused discards A G q ws w :
  run discards A G q ws w ->
  (forall d now e q' w', Admit q d now w = (Err e, q', w') -> q' = q /\ w' = w) /\
  (forall now force space e q' ws' w', seal q now force space ws w = (Err e, q', ws', w') ->
     q' = q /\ ws' = ws /\ w' = w).
Proof using LL.
  intros R. pose proof (run_ok _ _ _ _ _ _ R) as I. split.
  - intros d now e q' w' E. destruct (closed q) eqn:Ho.
    + unfold Admit in E. rewrite closed_inert in E by done. by injection E as <- <- <-.
    + destruct (ri_live _ _ _ _ I Ho) as [Q O _]. apply (Admit_ok _ _ _ _ _ _ _ Q O E).
  - intros now force space e q' ws' w' E. by destruct (seal_inv _ _ _ _ _ _ _ _ _ _ _ _ I E) as [_ ?].
Qed.


(** [Cancel] removes exactly the Datagram it names: on an open queue with a
    Session it succeeds iff the Datagram is queued, the others keep their order and
    progress, and its lease alone is released. *)
Theorem Cancel_exact discards A G q ws w i b q' w' :
  run discards A G q ws w -> closed q = false -> session q <> None -> Cancel q i w = (b, q', w') ->
  (b = true <-> exists e, e ∈ queued q /\ id e = i) /\
  queued q' = filter (fun e => id e <> i) (queued q) /\
  (forall e l, e ∈ queued q -> id e = i -> lease e = Some l -> live w' !! l = None) /\
  (forall l, (forall e, e ∈ queued q -> id e = i -> lease e <> Some l) -> live w' !! l = live w !! l).
Proof using LL.
  intros R Ho Hs E. destruct (run_ok _ _ _ _ _ _ R) as [_ I _]. destruct (I Ho) as [Q O _].
  pose proof (queued_distinct _ Q) as N. pose proof (Cancel_ok _ _ _ _ _ _ Q E) as HC. destruct b.
  - destruct HC as (_ & _ & k & e & He & <- & Eq & (_ & D1 & D2)).
    pose proof (list_elem_of_lookup_2 _ _ _ He) as Hin.
    split; [split; [by exists e|done]|]. split; [by rewrite Eq, (filter_remove _ k)|]. split.
    + intros e' l [k' He']%list_elem_of_lookup_1 Hid El. apply (D1 e l); [by apply list_elem_of_singleton|].
      assert (k' = k) as ->; [|congruence]. eapply NoDup_lookup; [exact N| |].
      * rewrite list_lookup_fmap, He'. cbn. by rewrite Hid.
      * by rewrite list_lookup_fmap, He.
    + intros l Hl. apply D2. constructor; [|done]. by apply Hl.
  - destruct HC as [-> ->]. unfold Cancel in E. rewrite Ho, bool_decide_false in E by done. cbn [orb] in E.
    destruct (findID q i (count q) 0) as [k|] eqn:Ef; [done|].
    assert (Hno : forall e, e ∈ queued q -> id e <> i).
    { intros e [k Hk]%list_elem_of_lookup_1. apply lookup_lt_Some in Hk as Hlt. rewrite length_queued in Hlt.
      rewrite queued_lookup in Hk by done. injection Hk as <-.
      apply (findID_none _ _ _ _ Ef). lia. }
    split; [split; [done|intros (e & He & Hi); by destruct (Hno e He)]|]. split; [|split; [|done]].
    + symmetry. apply filter_all. intros (e & -> & He)%list_elem_of_fmap. by destruct (Hno e He).
    + intros e l He Hi. by destruct (Hno e He).
Qed.

(** [Close] gives back everything the queue holds and nothing else: the queue is
    empty, the leases of the queued payloads and of the ring are released, every other
    lease, in particular those of groups already handed out, is as before. *)
Theorem queue_Close_releases discards A G q ws w q' w' :
  run discards A G q ws w -> closed q = false -> Close q w = (q', w') ->
  closed q' = true /\ queued q' = [] /\
  (forall e l, e ∈ queued q -> lease e = Some l -> live w' !! l = None) /\
  (forall l, ringLease q = Some l -> live w' !! l = None) /\
  (forall l, (forall e, e ∈ queued q -> lease e <> Some l) -> ringLease q <> Some l ->
     live w' !! l = live w !! l).
Proof using LL.
  intros R Ho E. destruct (run_ok _ _ _ _ _ _ R) as [_ I _]. destruct (I Ho) as [Q O _].
  destruct (queue_Close_ok _ _ _ _ Q Ho E) as (C1 & C2 & _ & _ & C3 & C4 & C5).
  split; [done|]. split; [by apply length_queued_0|]. split; [done|]. split; [done|].
  intros l Hl. apply C5. by apply Forall_forall.
Qed.
End stream.
