(* ===== verification/Pipeline.v ===== *)
(** * From the send queue to the receiver

    The queue of [Aggregation], the erasure-coded groups of [FecV2] and the Receiver
    of [Reassembly] composed: what is admitted on one side is delivered on the other,
    whichever shards are lost, as long as enough of every group arrive. *)

From S2P Require Import Prelude CreditScope.
From S2P Require Fec FecV2 FecV2Props FecV2Packing RecvWindow Aggregation.
From S2P Require AggregationProps AggregationRun AggregationStream Reassembly ReassemblySteps ReassemblyRun.
Import FecV2 (DatagramID, TotalBytes, Offset, Payload).
Import Aggregation (SealedGroup, SealedOf).
Import FecV2Packing (rejoin).

(** Any k of the shards of [g], the others missing. *)
Record enough_shards (c : FecV2.Codec) (g : FecV2.Group) (received : list (option bytes)) : Prop := {
  es_length : len received
    = FecV2.DataShards (FecV2.params c) + FecV2.ParityShards (FecV2.params c);
  es_enough : FecV2.DataShards (FecV2.params c) <= Z.of_nat (Fec.arrived received);
  es_genuine i s : received !! i = Some (Some s) -> FecV2.Shards g !! i = Some s }.

(** What was admitted under an identifier. *)
Definition admittedAs (A : list (Z * bytes)) (i : Z) : option bytes :=
  match A !! Z.to_nat (i - 1) with Some (j, d) => if i =? j then Some d else None | None => None end.

Lemma admittedAs_spec A i d : A.*1 = seqZ 1 (len A) -> admittedAs A i = Some d <-> (i, d) ∈ A.
Proof.
  intros N. unfold admittedAs. split.
  - destruct (A !! _) as [[j d']|] eqn:Hk; [|done]. destruct (Z.eqb_spec i j) as [->|]; [|done].
    intros [= ->]. by eapply list_elem_of_lookup_2.
  - intros [k Hk]%list_elem_of_lookup_1.
    assert (Hi : i = 1 + Z.of_nat k).
    { pose proof (f_equal (lookup k) N) as E. rewrite list_lookup_fmap, Hk in E. cbn in E.
      symmetry in E. by apply lookup_seqZ in E as [-> _]. }
    replace (Z.to_nat (i - 1)) with k by lia. by rewrite Hk, Z.eqb_refl.
Qed.

(** ** The receiving side *)

Section relay.
Context `{L : Ledger} {LL : LedgerLaws L}.

(** [relay c G lo arrived r w log]: a Receiver, prepaid or not, to which the decoded
    fragments of the groups [arrived], among [G], were added one group at a time, in any
    order and any number of times, among refused additions and calls of [Expire];
    identifiers fit the window above [lo], nothing is due at any of these calls, and the
    Receiver is not closed. *)
Inductive relay (c : FecV2.Codec) (G : list SealedGroup) (lo : Z)
    : list SealedGroup -> Reassembly.Receiver -> World -> list (Z * bytes) -> Prop :=
  | relay_new s lim w r w' :
      0 <= lo -> Reassembly.New s lim w = (Ok r, w') -> relay c G lo [] r w' []
  | relay_prepaid s lim l w r w' :
      0 <= lo -> Reassembly.NewPrepaid s lim l w = (Ok r, w') -> relay c G lo [] r w' []
  | relay_group gs r w log now g received fs ds r' w' :
      relay c G lo gs r w log -> g ∈ G -> enough_shards c (SealedOf g) received ->
      FecV2.Decode c (FecV2.LogicalBytes (SealedOf g)) received = Ok fs ->
      Forall (fun f => lo < DatagramID f <= lo + Reassembly.Span (Reassembly.limits r)) fs ->
      (forall i, ~ ReassemblySteps.dueNow r now i) ->
      Reassembly.AddGroup r now fs w = (Ok ds, r', w') ->
      relay c G lo (g :: gs) r' w' (log ++ (ReassemblySteps.payloadOf <$> ds))
  | relay_refused gs r w log now fs e r' w' :
      relay c G lo gs r w log -> Reassembly.AddGroup r now fs w = (Err e, r', w') ->
      relay c G lo gs r' w' log
  | relay_expire gs r w log now ids r' w' :
      relay c G lo gs r w log -> (forall i, ~ ReassemblySteps.dueNow r now i) ->
      Reassembly.Expire r now w = (ids, r', w') -> relay c G lo gs r' w' log
  | relay_world gs r w w' log :
      relay c G lo gs r w log -> ReassemblyInv.keeps r w w' -> relay c G lo gs r w' log.

(** Any enough shards of a group that carries [ps] decode to [ps]. *)
Lemma decoded c g ps received fs :
  FecV2Packing.carries c g ps -> enough_shards c g received ->
  FecV2.Decode c (FecV2.LogicalBytes g) received = Ok fs -> fs = ps.
Proof using. intros C [E1 E2 E3] D. rewrite (C received E1 E2 E3) in D. by injection D. Qed.

Lemma relay_prompt c G pss orig lo gs r w log :
  Forall2 (fun g ps => FecV2Packing.carries c (SealedOf g) ps) G pss ->
  Forall FecV2Props.frag_typed (concat pss) -> Forall (ReassemblyRun.cut_from orig) (concat pss) ->
  relay c G lo gs r w log ->
  exists H, ReassemblyRun.prompt orig lo H r w log /\
    forall g ps, g ∈ gs -> FecV2Packing.carries c (SealedOf g) ps -> ps ⊆ H.
Proof using LL.
  intros C T O R. induction R as [s lim w r w' H0 E|s lim l w r w' H0 E|gs r w log now g received fs ds r' w' R (H & P & Hg) Hin Hs D Hid Hdue E
    |gs r w log now fs e r' w' R (H & P & Hg) E|gs r w log now ids r' w' R (H & P & Hg) Hdue E|gs r w w' log R (H & P & Hg) K].
  - exists []. split; [by eapply ReassemblyRun.prompt_new|]. by intros g ps ?%not_elem_of_nil.
  - exists []. split; [by eapply ReassemblyRun.prompt_prepaid|]. by intros g ps ?%not_elem_of_nil.
  - apply list_elem_of_lookup_1 in Hin as [k Hk].
    destruct (Forall2_lookup_l _ _ _ _ _ C Hk) as (ps & Hps & Hc).
    pose proof (decoded _ _ _ _ _ Hc Hs D) as <-.
    assert (Hsub : forall P : FecV2.Fragment -> Prop, Forall P (concat pss) -> Forall P fs).
    { intros Q F. apply Forall_concat in F. by eapply Forall_lookup_1 in F. }
    exists (H ++ fs). split; [eapply ReassemblyRun.prompt_group; eauto|].
    intros g' ps' [->|Hg']%elem_of_cons Hc' x Hx; apply elem_of_app.
    + right. by rewrite (decoded _ _ _ _ _ Hc' Hs D).
    + left. by apply (Hg g' ps').
  - exists H. split; [by eapply ReassemblyRun.prompt_refused|done].
  - exists H. split; [by eapply ReassemblyRun.prompt_expire|done].
  - exists H. split; [by eapply ReassemblyRun.prompt_world|done].
Qed.
End relay.

(** ** The two sides together *)

#[local] Transparent slice.
Lemma within_cut f i d orig : orig i = Some d ->
  AggregationStream.within f (AggregationRun.whole i d) -> ReassemblyRun.cut_from orig f.
Proof.
  intros Ho [W1 W2 (before & after & W3 & W4)]. cbn in *. exists d. rewrite W1. split; [done|].
  split; [done|]. rewrite W4, W3. unfold slice, len. rewrite !Z.add_0_l, Nat2Z.id.
  replace (Z.to_nat (Z.of_nat (length before) + Z.of_nat (length (Payload f))) - length before)%nat
    with (length (Payload f)) by lia.
  by rewrite drop_app_length, take_app_length.
Qed.
#[local] Opaque slice.

Section pipeline.
Context {Ls Lr : Ledger} {LLs : LedgerLaws Ls} {LLr : LedgerLaws Lr} `{Fec.ReedSolomon}.

(** Pieces of a Datagram that is no longer queued cover it. *)
Lemma sealed_covers A pss rest i d got :
  rejoin (concat pss ++ rest) = AggregationStream.datagrams A -> (i, d) ∈ A ->
  (forall f, f ∈ rest -> DatagramID f <> i) -> (forall ps, ps ∈ pss -> ps ⊆ got) ->
  ReassemblyRun.covers got i (len d).
Proof using.
  intros E Hi Hrest Hsub.
  assert (Hg : AggregationRun.whole i d ∈ rejoin (concat pss ++ rest)).
  { rewrite E. apply list_elem_of_fmap. by exists (i, d). }
  destruct (AggregationStream.rejoin_bytes _ _ Hg) as [(f & Hf & F1 & F2) Hb].
  assert (Hin : forall f, f ∈ concat pss ++ rest -> DatagramID f = i -> f ∈ got).
  { intros g [Hg'|Hg']%elem_of_app E'; [|by destruct (Hrest g Hg')].
    apply list_elem_of_In, in_concat in Hg' as (ps & Hp & Hg'). apply list_elem_of_In in Hp, Hg'.
    by apply (Hsub ps). }
  split; [exists f; split; [by apply Hin|done]|]. intros x Hx.
  destruct (Hb x) as (g & Hg' & G1 & G2); [cbn; lia|]. exists g. split; [by apply Hin|done].
Qed.

(** C12: What is sent is delivered.  Take any run of a queue with a lawful Reed-Solomon
    codec, without [Cancel] and [Close], and a Receiver that is not closed, at which
    nothing is due whenever it is called and whose window, the [Span] above [lo], holds
    all identifiers.  If every sealed group reaches it with any k of its shards, in any
    order and any number of times, then every admitted Datagram that is no longer queued
    has been delivered with its bytes; and nothing else is delivered, nor anything
    twice. *)
Theorem sealed_is_delivered A G q ws (w : @World Ls) lo gs r (w' : @World Lr) log :
  AggregationStream.run False A G q ws w -> relay (Aggregation.codec q) G lo gs r w' log -> G ⊆ gs ->
  (forall i d, (i, d) ∈ A -> (forall e, e ∈ AggregationProps.queued q -> Aggregation.id e <> i) ->
     (i, d) ∈ log) /\
  (forall i d, (i, d) ∈ log -> (i, d) ∈ A) /\ NoDup log.*1.
Proof using LLs LLr.
  intros R Rr Hall. destruct (AggregationStream.run_streamed _ _ _ _ _ R) as (_ & pss & S1 & S2 & S3).
  pose proof (AggregationStream.nu_sent _ _ _
    (AggregationStream.ri_numbered _ _ _ _ (AggregationStream.run_ok _ _ _ _ _ _ R))) as N.
  assert (Hcut : Forall (ReassemblyRun.cut_from (admittedAs A)) (concat pss)).
  { apply Forall_forall. intros f Hf.
    destruct (AggregationStream.rejoin_within (concat pss ++ (Aggregation.remaining <$> AggregationProps.queued q)) f)
      as (g & Hg & W); [apply elem_of_app; by left|].
    rewrite S2 in Hg. apply list_elem_of_fmap in Hg as ([i d] & -> & Hi).
    eapply (within_cut _ i d); [by apply admittedAs_spec|done]. }
  destruct (relay_prompt _ _ _ _ _ _ _ _ _ S1 S3 Hcut Rr) as (H' & P & Hg).
  destruct (ReassemblyRun.delivered_original _ _ _ _ _ (ReassemblyRun.prompt_reach _ _ _ _ _ _ P)) as [D1 D2].
  split; [|split; [|done]].
  - intros i d Hi Hq. apply (ReassemblyRun.covered_delivered (admittedAs A) lo H' r w'); [done|by apply admittedAs_spec|].
    eapply sealed_covers; [exact S2|done| |].
    + intros f (e & -> & He)%list_elem_of_fmap. by apply Hq.
    + intros ps [k Hk]%list_elem_of_lookup_1. destruct (Forall2_lookup_r _ _ _ _ _ S1 Hk) as (g & Hgk & Hc).
      apply (Hg g); [|done]. apply Hall. by eapply list_elem_of_lookup_2.
  - intros i d Hi. apply admittedAs_spec; [done|]. by apply D2.
Qed.
End pipeline.
