(* ===== verification/AggregationDemo.v ===== *)
(** * A queue and a Receiver at work

    Two Datagrams, one of them too long for a group, are admitted, sealed into two
    groups, decoded from two of three shards each and delivered. *)

From S2P Require Import Prelude CreditScope Aggregation AggregationProps.
From S2P Require Import AggregationRun AggregationStream Pipeline.
From S2P Require AggregationSeal Credit Fec FecV2 FecV2Props.
From S2P Require FecV2Packing Reassembly ReassemblySteps ReassemblyRun ReassemblyDemo.
Import ReassemblyDemo (World0, ledger0, valueOf, pair_first, triple_first).
Import FecV2Packing (rejoin).
Import FecV2Props (sampleParams, sampleCodec, sample_lawful).

#[local] Existing Instance Fec.xorReedSolomon.

Definition demoLimits : Limits := {| MaxQueuedDatagrams := 4; MaxQueuedBytes := 1000;
  MaxDatagramBytes := 200; MaxFragmentsPerDatagram := 4; MaxDelay := 10 ^ 6 |}.
Definition demoEpoch : Epoch := {| EpochID := 9; EpochParameters := sampleParams |}.

Definition long : bytes := replicate 90 Byte.x61.

Definition made : result QueueError Queue * World :=
  New 1%positive (Some (snd ledger0)) demoLimits demoEpoch World0.
Definition queue0 : Queue := valueOf (newQueue 1%positive None demoLimits demoEpoch sampleCodec 1%positive) (fst made).
Abbreviation world0 := (snd made).
Definition noSpaces : Workspaces := ∅.

Abbreviation admitted1 := (Admit queue0 long 5 world0).
Abbreviation queue1 := (snd (fst admitted1)).
Abbreviation world1 := (snd admitted1).
Abbreviation admitted2 := (Admit queue1 [] 6 world1).
Abbreviation queue2 := (snd (fst admitted2)).
Abbreviation world2 := (snd admitted2).
Abbreviation sealed1 := (seal queue2 7 true None noSpaces world2).
Abbreviation queue3 := (snd (fst (fst sealed1))).
Abbreviation spaces3 := (snd (fst sealed1)).
Abbreviation world3 := (snd sealed1).
Abbreviation sealed2 := (seal queue3 8 true None spaces3 world3).
Abbreviation queue4 := (snd (fst (fst sealed2))).
Abbreviation spaces4 := (snd (fst sealed2)).
Abbreviation world4 := (snd sealed2).

Definition noGroup : SealedGroup := {| EncodingEpoch := 0; GroupID := 0;
  SealedOf := {| FecV2.LogicalBytes := 0; FecV2.Shards := [] |} |}.
Definition only (gs : list SealedGroup) : SealedGroup := match gs with [g] => g | _ => noGroup end.
Definition group1 : SealedGroup := only (output (fst (fst (fst sealed1)))).
Definition group2 : SealedGroup := only (output (fst (fst (fst sealed2)))).

Lemma triple_eta {A B C} (x : A * B * C) : x = (fst (fst x), snd (fst x), snd x).
Proof. by destruct x as [[]]. Qed.
Lemma quad_eta {A B C D} (x : A * B * C * D) : x = (fst (fst (fst x)), snd (fst (fst x)), snd (fst x), snd x).
Proof. by destruct x as [[[]]]. Qed.

Lemma triple_parts {A B C} (x : A * B * C) a b : fst (fst x) = a -> snd (fst x) = b -> x = (a, b, snd x).
Proof. destruct x as [[]]. cbn. congruence. Qed.

Lemma queue_made : made = (Ok queue0, world0).
Proof. apply pair_first. vm_compute. reflexivity. Qed.
Lemma queue0_codec : epoch queue0 = demoEpoch /\ codec queue0 = sampleCodec.
Proof. split; vm_compute; reflexivity. Qed.
Lemma admitted1_id : admission long (fst (fst admitted1)) = [(1, long)].
Proof. vm_compute. reflexivity. Qed.
Lemma admitted2_id : admission [] (fst (fst admitted2)) = [(2, [])].
Proof. vm_compute. reflexivity. Qed.
Lemma sealed1_group : output (fst (fst (fst sealed1))) = [group1].
Proof. vm_compute. reflexivity. Qed.
Lemma sealed2_group : output (fst (fst (fst sealed2))) = [group2].
Proof. vm_compute. reflexivity. Qed.

Lemma run0 discards : run discards [] [] queue0 noSpaces world0.
Proof.
  eapply run_new; [|exact queue_made|].
  - split; unfold in_u; cbn; lia.
  - unfold lawful. destruct queue0_codec as [-> ->]. exact sample_lawful.
Qed.

Lemma run2 discards : run discards [(1, long); (2, [])] [] queue2 noSpaces world2.
Proof.
  pose proof (run_admit discards [] [] _ _ _ long 5 _ _ _ (run0 discards) (triple_eta _)) as R.
  pose proof (run_admit discards _ [] _ _ _ [] 6 _ _ _ R (triple_eta _)) as R2.
  rewrite admitted1_id, admitted2_id in R2. exact R2.
Qed.

Lemma run4 : run False [(1, long); (2, [])] [group1; group2] queue4 spaces4 world4.
Proof.
  pose proof (run_seal False _ _ _ _ _ 7 true None _ _ _ _ (run2 False) (quad_eta _)) as R.
  pose proof (run_seal False _ _ _ _ _ 8 true None _ _ _ _ R (quad_eta _)) as R2.
  rewrite sealed1_group, sealed2_group in R2. exact R2.
Qed.

Lemma drained : queued queue4 = [].
Proof. apply AggregationSeal.length_queued_0. vm_compute. reflexivity. Qed.

(** ** Witnesses *)

Example stream_preserved_witness :
  exists pss, rejoin (concat pss) = [whole 1 long; whole 2 []] /\ length pss = 2%nat.
Proof.
  pose proof run4 as R.
  destruct (stream_preserved [(1, long); (2, [])] [group1; group2] queue4 spaces4 world4 R)
    as ((pss & F & E) & _).
  exists pss. split; [|by rewrite <- (Forall2_length _ _ _ F)].
  rewrite drained in E. rewrite app_nil_r in E. exact E.
Defined.

Example queue_bounded_witness : retainedBytes queue2 <= 1000 /\ retained (queued queue2) = 90.
Proof.
  pose proof (run2 True) as R.
  destruct (queue_bounded True _ _ queue2 noSpaces world2 R) as (_ & E & B & _); [vm_compute; reflexivity|].
  split; [|by rewrite <- E; vm_compute].
  etransitivity; [exact B|]. vm_compute. congruence.
Defined.

Abbreviation paid := (reserveOutput queue2 None noSpaces world2).
Lemma paid_ok : exists l, paid = (Ok (Some l), noSpaces, snd paid).
Proof.
  eexists. apply triple_parts; vm_compute; reflexivity.
Qed.

Example seal_progress_witness : exists o q' w',
  seal queue2 7 true None noSpaces world2 = (Ok (Some o), q', noSpaces, w') /\
  (FecV2Packing.work (remaining <$> queued q') < FecV2Packing.work (remaining <$> queued queue2))%nat.
Proof.
  pose proof (run2 False) as R. destruct paid_ok as [l Hl].
  destruct (seal_progress False _ _ queue2 noSpaces world2 7 None (Some l) noSpaces (snd paid) R)
    as (o & q' & w' & E & _ & _ & _ & Hw);
    [vm_compute; reflexivity|apply Nat.ltb_lt; vm_compute; reflexivity|vm_compute; congruence|exact Hl|].
  exists o, q', w'. split; [exact E|exact Hw].
Defined.

Abbreviation tooMuch := (Admit queue2 (replicate 201 Byte.x61) 7 world2).
Example queue_refused_witness : snd (fst tooMuch) = queue2 /\ snd tooMuch = world2.
Proof.
  pose proof (run2 False) as R.
  destruct (queue_refused False _ _ queue2 noSpaces world2 R) as [H _].
  apply (H (replicate 201 Byte.x61) 7 ErrMessageTooLarge (snd (fst tooMuch)) (snd tooMuch)).
  apply triple_first. vm_compute. reflexivity.
Defined.

Abbreviation cancelled := (Cancel queue2 1 world2).
Example Cancel_exact_witness :
  fst (fst cancelled) = true /\ queued (snd (fst cancelled)) = filter (fun e => id e <> 1) (queued queue2).
Proof.
  pose proof (run2 True) as R.
  destruct (Cancel_exact True _ _ queue2 noSpaces world2 1 true (snd (fst cancelled)) (snd cancelled) R)
    as (_ & E & _); [vm_compute; reflexivity|vm_compute; congruence| |].
  - apply triple_first. vm_compute. reflexivity.
  - split; [vm_compute; reflexivity|exact E].
Defined.

Abbreviation shut := (Close queue2 world2).
Example queue_Close_releases_witness : closed (fst shut) = true /\ queued (fst shut) = [].
Proof.
  pose proof (run2 True) as R.
  destruct (queue_Close_releases True _ _ queue2 noSpaces world2 (fst shut) (snd shut) R)
    as (E1 & E2 & _); [vm_compute; reflexivity|apply surjective_pairing|by split].
Defined.

(** ** Delivery *)

(** The shards of a group, one of them lost. *)
Definition lose (i : nat) (g : FecV2.Group) : list (option bytes) := <[i := None]> (Some <$> FecV2.Shards g).

Lemma lose_enough c i g :
  len (FecV2.Shards g) = FecV2.DataShards (FecV2.params c) + FecV2.ParityShards (FecV2.params c) ->
  FecV2.DataShards (FecV2.params c) <= Z.of_nat (Fec.arrived (lose i g)) ->
  enough_shards c g (lose i g).
Proof.
  intros H1 H2. split; [|done|].
  - rewrite <- H1. unfold lose, len. by rewrite length_insert, length_fmap.
  - intros j s H. unfold lose in H. destruct (decide (i = j)) as [<-|Hne].
    + apply list_lookup_insert_Some in H as [(_ & ? & _)|[? _]]; done.
    + rewrite list_lookup_insert_ne, list_lookup_fmap in H by done.
      destruct (FecV2.Shards g !! j); [|done]. by injection H as ->.
Qed.

Definition pieces1 : list FecV2.Fragment :=
  valueOf [] (FecV2.Decode sampleCodec (FecV2.LogicalBytes (SealedOf group1)) (lose 0 (SealedOf group1))).
Definition pieces2 : list FecV2.Fragment :=
  valueOf [] (FecV2.Decode sampleCodec (FecV2.LogicalBytes (SealedOf group2)) (lose 1 (SealedOf group2))).

Abbreviation receiver0 := ReassemblyDemo.receiver0.
Abbreviation receiving0 := (snd ReassemblyDemo.made).
(** The second group comes first. *)
Abbreviation received1 := (Reassembly.AddGroup receiver0 5 pieces2 receiving0).
Abbreviation receiver1 := (snd (fst received1)).
Abbreviation receiving1 := (snd received1).
Abbreviation received2 := (Reassembly.AddGroup receiver1 6 pieces1 receiving1).
Abbreviation receiver2 := (snd (fst received2)).
Abbreviation receiving2 := (snd received2).

Lemma received1_ok : exists l,
  received1 = (Ok [ReassemblyDemo.datagram 2 [] l], receiver1, receiving1).
Proof. eexists. apply triple_first. vm_compute. reflexivity. Qed.
Lemma received2_ok : exists l,
  received2 = (Ok [ReassemblyDemo.datagram 1 long l], receiver2, receiving2).
Proof. eexists. apply triple_first. vm_compute. reflexivity. Qed.

Lemma in_window lo hi fs :
  forallb (fun f => (lo <? FecV2.DatagramID f) && (FecV2.DatagramID f <=? hi)) fs = true ->
  Forall (fun f => lo < FecV2.DatagramID f <= hi) fs.
Proof.
  intros H. apply Forall_forall. intros f Hf. rewrite forallb_forall in H.
  apply list_elem_of_In in Hf. specialize (H f Hf). cbn in H. lia.
Qed.

Lemma queue4_codec : codec queue4 = sampleCodec.
Proof. vm_compute. reflexivity. Qed.

Lemma demo_relay : relay (codec queue4) [group1; group2] 0 [group1; group2] receiver2 receiving2
  (([] ++ [(2, [])]) ++ [(1, long)]).
Proof.
  rewrite queue4_codec. destruct received1_ok as [l1 E1]. destruct received2_ok as [l2 E2].
  assert (R0 : relay sampleCodec [group1; group2] 0 [] receiver0 receiving0 [])
    by (eapply relay_new; [done|exact ReassemblyDemo.made_ok]).
  assert (R1 : relay sampleCodec [group1; group2] 0 [group2] receiver1 receiving1 ([] ++ [(2, [])])).
  { change [(2, [])] with (ReassemblySteps.payloadOf <$> [ReassemblyDemo.datagram 2 [] l1]).
    eapply (relay_group _ _ _ _ _ _ _ 5 group2 (lose 1 (SealedOf group2)) pieces2);
      [exact R0| |apply lose_enough; vm_compute; congruence|vm_compute; reflexivity| | |exact E1].
    - apply elem_of_cons. right. by apply list_elem_of_singleton.
    - apply in_window. vm_compute. reflexivity.
    - apply ReassemblyDemo.not_due. vm_compute. reflexivity. }
  change [(1, long)] with (ReassemblySteps.payloadOf <$> [ReassemblyDemo.datagram 1 long l2]).
  eapply (relay_group _ _ _ _ _ _ _ 6 group1 (lose 0 (SealedOf group1)) pieces1);
    [exact R1| |apply lose_enough; vm_compute; congruence|vm_compute; reflexivity| | |exact E2].
  - apply elem_of_cons. by left.
  - apply in_window. vm_compute. reflexivity.
  - apply ReassemblyDemo.not_due. vm_compute. reflexivity.
Qed.

Example sealed_is_delivered_witness : (1, long) ∈ ([] ++ [(2, [])]) ++ [(1, long)].
Proof.
  pose proof run4 as R. pose proof demo_relay as Rr.
  destruct (sealed_is_delivered _ _ queue4 spaces4 world4 0 _ receiver2 receiving2 _ R Rr) as (D & _); [done|].
  apply D; [apply elem_of_cons; by left|]. rewrite drained. by intros e ?%not_elem_of_nil.
Defined.
