(* ===== verification/SessionV2Types.v ===== *)
(** * The state of a version 2 Datagram Session ([internal/sessionv2])

    [types.go], the state records of [controller.go], [control.go], [data.go] and
    [send_intent.go], and the monad in which the operations are written.  The owner
    serialises the calls, so each is a function on [St]: the Controller, the Result
    under construction, the storage of issued send intents, the output workspaces, the
    credit ledger and the adapter's world.  A path is addressed by its index, a group by
    its identifier, a send intent by its token.  Times are nanoseconds and the zero time
    is [None]. *)

From S2P Require Import Prelude CreditScope.
From S2P Require Credit Fec FecV2 RecvWindow Negotiation Transcript WireV2 WireV2Bundle Handshake.
From S2P Require Aggregation Reassembly.
Import WireV2 (SessionID, Nonce, Key, zero16, zero32).

(** ** Time *)

Definition Time := option Z.
Definition millisecond : Z := 10 ^ 6.
Definition second : Z := 10 ^ 9.

(** [now.Before(t)], [t.Add(d)], [b.After(a)] and [later]. *)
Definition Before (now : Z) (t : Time) : bool := match t with Some t => now <? t | None => false end.
Definition Add (t : Time) (d : Z) : Time := (fun t => t + d) <$> t.
Definition After (b a : Time) : bool :=
  match b, a with Some b, Some a => a <? b | Some _, None => true | None, _ => false end.
Definition later (a b : Time) : Time := if After b a then b else a.

(** ** Constants and errors *)

Definition InitialQueue : nat := 0.
Definition InitialOriginalWindow : nat := 1.
Definition InitialGroupWindow : nat := 2.
Definition InitialControl : nat := 3.
Definition InitialOutput : nat := 4.
Definition InitialAssembly : nat := 5.
Definition InitialCount : nat := 6.

Definition DefaultPathRateBPS : Z := 100000000.
Definition ControlLifetime : Z := 5 * second.
Definition ControlRetry : Z := 250 * millisecond.
Definition ControlSends : Z := 8.
Definition MaxSendsPerStep : Z := 256.

(** The errors of the package and of its callees; [LinkErr] is one of the transport or
    of the adapter. *)
Inductive CtlError :=
| ErrInvalid | ErrUnsupported | ErrClosed | ErrNotReady | ErrReentrant | ErrTime | ErrExpired
| ErrEntropy | ErrProtocol | ErrExhausted | ErrSendPending | ErrSendToken | ErrSendExpired
| ErrNoAvailablePaths | ErrGenerationReplaced
| WireErr (e : WireV2.WireError) | NegotiationErr (e : Negotiation.NegotiationError)
| CreditErr (e : CreditError) | QueueErr (e : Aggregation.QueueError)
| ReceiverErr (e : Reassembly.ReceiverError) | GroupErr (e : FecV2.GroupError) | LinkErr (e : Z).
#[global] Instance CtlError_eq_dec : EqDecision CtlError.
Proof. solve_decision. Defined.

(** [errors.Is(err, creditv2.ErrResourceLimit)] *)
Definition isResourceLimit (e : CtlError) : bool :=
  bool_decide (e = CreditErr Credit.ErrResourceLimit)
  || bool_decide (e = QueueErr Aggregation.ErrResourceLimit)
  || bool_decide (e = ReceiverErr (Reassembly.CreditErr Credit.ErrResourceLimit)).

(** ** Configuration and results *)

(** A transport path object, by reference. *)
Abbreviation Sender := Credit.Ptr.
Abbreviation Binding := Handshake.Binding.

Record Carrier := { car_PathID : Z; car_Binding : Binding; car_Sender : option Sender }.

Definition noAddr : Handshake.AddrPort := {| Handshake.addr := Handshake.NoAddr; Handshake.port := 0 |}.
Definition zeroBinding : Binding :=
  {| Handshake.SocketID := 0; Handshake.Local := noAddr; Handshake.Remote := noAddr |}.
Definition zeroCarrier : Carrier := {| car_PathID := 0; car_Binding := zeroBinding; car_Sender := None |}.

Record Config := {
  LocalProfile : Negotiation.Profile;
  cfg_SendLimits : Negotiation.SendLimits;
  FixedPayloadBudget : Z;
  cfg_Aggregation : bool;
  MaxGroupBytes : Z;
  cfg_Queue : Aggregation.Limits;
  cfg_Reassembly : Reassembly.Limits;
  MaxPendingGroups : Z;
  GroupTimeout : Z;
  Carriers : list Carrier;
  BootstrapPath : option Sender;
  hasEntropy : bool;
  PathRatesBPS : gmap Z Z;
  OwnedSends : bool;
  MaxInFlightSends : Z;
  MaxPathQueuedPackets : Z;
  MaxPathQueuedBytes : Z;
  MaxQueueResidence : Z;
  hasEmit : bool }.
#[global] Instance Config_eta : Settable Config := fun c => {|
  LocalProfile := LocalProfile c; cfg_SendLimits := cfg_SendLimits c;
  FixedPayloadBudget := FixedPayloadBudget c; cfg_Aggregation := cfg_Aggregation c;
  MaxGroupBytes := MaxGroupBytes c; cfg_Queue := cfg_Queue c; cfg_Reassembly := cfg_Reassembly c;
  MaxPendingGroups := MaxPendingGroups c; GroupTimeout := GroupTimeout c; Carriers := Carriers c;
  BootstrapPath := BootstrapPath c; hasEntropy := hasEntropy c; PathRatesBPS := PathRatesBPS c;
  OwnedSends := OwnedSends c; MaxInFlightSends := MaxInFlightSends c;
  MaxPathQueuedPackets := MaxPathQueuedPackets c; MaxPathQueuedBytes := MaxPathQueuedBytes c;
  MaxQueueResidence := MaxQueueResidence c; hasEmit := hasEmit c |}.

Record SendAttempt := { at_Type : Z; at_PathID : Z; at_Bytes : Z; at_Err : option CtlError }.

Record Result := {
  Sends : list SendAttempt;
  Deliveries : list Reassembly.Datagram;
  CompletedThrough : Z;
  SendError : option CtlError;
  FailedFrom : Z;
  PathsChanged : bool;
  Ready : bool }.
#[global] Instance Result_eta : Settable Result := fun r => {|
  Sends := Sends r; Deliveries := Deliveries r; CompletedThrough := CompletedThrough r;
  SendError := SendError r; FailedFrom := FailedFrom r; PathsChanged := PathsChanged r;
  Ready := Ready r |}.
Definition zeroResult : Result := {|
  Sends := []; Deliveries := []; CompletedThrough := 0; SendError := None; FailedFrom := 0;
  PathsChanged := false; Ready := false |}.

(** ** Control packets and paths *)

(** [fr_packet] is the used part of the 512-byte array; the rest of it is zero. *)
Record controlFrame := { fr_packet : bytes; queued : bool; version : Z; queuedAt : Time; dispatched : bool }.
#[global] Instance controlFrame_eta : Settable controlFrame := fun f => {|
  fr_packet := fr_packet f; queued := queued f; version := version f; queuedAt := queuedAt f;
  dispatched := dispatched f |}.
Definition zeroFrame : controlFrame :=
  {| fr_packet := []; queued := false; version := 0; queuedAt := None; dispatched := false |}.

Record controlRetry := {
  frame : controlFrame; deadline : Time; next : Time; sends_ : Z; pending : bool; rt_id : Z; inflight : Z }.
#[global] Instance controlRetry_eta : Settable controlRetry := fun r => {|
  frame := frame r; deadline := deadline r; next := next r; sends_ := sends_ r; pending := pending r;
  rt_id := rt_id r; inflight := inflight r |}.
Definition zeroRetry : controlRetry := {|
  frame := zeroFrame; deadline := None; next := None; sends_ := 0; pending := false; rt_id := 0;
  inflight := 0 |}.

Record pathJoin := {
  retry : controlRetry; kind : Z; client : Nonce; server : Nonce; jn_binding : Binding;
  jn_sender : option Sender; jn_generation : Z; committed : bool; jn_transport : Z; jn_native : bool }.
#[global] Instance pathJoin_eta : Settable pathJoin := fun j => {|
  retry := retry j; kind := kind j; client := client j; server := server j; jn_binding := jn_binding j;
  jn_sender := jn_sender j; jn_generation := jn_generation j; committed := committed j;
  jn_transport := jn_transport j; jn_native := jn_native j |}.
Definition zeroJoin : pathJoin := {|
  retry := zeroRetry; kind := 0; client := zero16; server := zero16; jn_binding := zeroBinding;
  jn_sender := None; jn_generation := 0; committed := false; jn_transport := 0; jn_native := false |}.

Record oldRoute := {
  or_binding : Binding; or_sender : option Sender; or_generation : Z; or_epoch : Z; or_budget : Z;
  until : Time }.
Definition zeroOld : oldRoute := {|
  or_binding := zeroBinding; or_sender := None; or_generation := 0; or_epoch := 0; or_budget := 0;
  until := None |}.
#[global] Instance oldRoute_inhabited : Inhabited oldRoute := populate zeroOld.

Record pathState := {
  pathid : Z;
  active : bool;
  generation : Z;
  floor : Z;
  binding : Binding;
  sender : option Sender;
  configured : Carrier;
  sendBudget : Z;
  receiveBudget : Z;
  sendEpoch : Z;
  receiveEpoch : Z;
  oldBudget : Z;
  oldEpoch : Z;
  oldUntil : Time;
  budgetPeerDeadline : Time;
  old : list oldRoute;
  join : pathJoin;
  budget : controlRetry;
  reply0 : controlFrame;
  reply1 : controlFrame;
  pacedAt : Time;
  rate : Z;
  transportGeneration : Z;
  nativeTiming : bool;
  sendToken : Z;
  queuedPackets : Z;
  queuedBytes : Z }.
#[global] Instance pathState_eta : Settable pathState := fun p => {|
  pathid := pathid p; active := active p; generation := generation p; floor := floor p;
  binding := binding p; sender := sender p; configured := configured p; sendBudget := sendBudget p;
  receiveBudget := receiveBudget p; sendEpoch := sendEpoch p; receiveEpoch := receiveEpoch p;
  oldBudget := oldBudget p; oldEpoch := oldEpoch p; oldUntil := oldUntil p;
  budgetPeerDeadline := budgetPeerDeadline p; old := old p; join := join p; budget := budget p;
  reply0 := reply0 p; reply1 := reply1 p; pacedAt := pacedAt p; rate := rate p;
  transportGeneration := transportGeneration p; nativeTiming := nativeTiming p;
  sendToken := sendToken p; queuedPackets := queuedPackets p; queuedBytes := queuedBytes p |}.
Definition zeroPath : pathState := {|
  pathid := 0; active := false; generation := 0; floor := 0; binding := zeroBinding; sender := None;
  configured := zeroCarrier; sendBudget := 0; receiveBudget := 0; sendEpoch := 0; receiveEpoch := 0;
  oldBudget := 0; oldEpoch := 0; oldUntil := None; budgetPeerDeadline := None;
  old := replicate 8 zeroOld; join := zeroJoin; budget := zeroRetry; reply0 := zeroFrame;
  reply1 := zeroFrame; pacedAt := None; rate := 0; transportGeneration := 0; nativeTiming := false;
  sendToken := 0; queuedPackets := 0; queuedBytes := 0 |}.
#[global] Instance pathState_inhabited : Inhabited pathState := populate zeroPath.

Definition route (p : pathState) : WireV2Bundle.Route := {|
  WireV2Bundle.PathID := pathid p; WireV2Bundle.Generation := generation p;
  WireV2Bundle.BudgetEpoch := sendEpoch p |}.

(** ** Receiving *)

(** [fragments] is nil until the group is decoded; [shards] afterwards. *)
Record pendingGroup := {
  logical : Z;
  gr_context : WireV2Bundle.EncodingContext;
  admitted : Z;
  shards : list (option bytes);
  present : Z;
  fragments : option (list FecV2.Fragment);
  lease : option Ptr;
  previous : Z;
  gr_next : Z }.
#[global] Instance pendingGroup_eta : Settable pendingGroup := fun g => {|
  logical := logical g; gr_context := gr_context g; admitted := admitted g; shards := shards g;
  present := present g; fragments := fragments g; lease := lease g; previous := previous g;
  gr_next := gr_next g |}.
Definition zeroContext : WireV2Bundle.EncodingContext := {|
  WireV2Bundle.Epoch := 0; WireV2Bundle.LayoutID := 0; WireV2Bundle.ProtectionID := 0;
  WireV2Bundle.DataShards := 0; WireV2Bundle.ParityShards := 0; WireV2Bundle.ShardBytes := 0;
  WireV2Bundle.MaxDescriptors := 0; WireV2Bundle.MaxLogicalBytes := 0 |}.
#[global] Instance pendingGroup_inhabited : Inhabited pendingGroup := populate {|
  logical := 0; gr_context := zeroContext; admitted := 0; shards := []; present := 0;
  fragments := None; lease := None; previous := 0; gr_next := 0 |}.

Record ReceiveCounters := {
  ReceivedFECBundles : Z; PacketScratchRejections : Z; NewGroupRejections : Z;
  OriginalAdmissionRejections : Z; DecodedGroups : Z; CompletedGroups : Z; ExpiredGroups : Z }.
#[global] Instance ReceiveCounters_eta : Settable ReceiveCounters := fun c => {|
  ReceivedFECBundles := ReceivedFECBundles c; PacketScratchRejections := PacketScratchRejections c;
  NewGroupRejections := NewGroupRejections c;
  OriginalAdmissionRejections := OriginalAdmissionRejections c; DecodedGroups := DecodedGroups c;
  CompletedGroups := CompletedGroups c; ExpiredGroups := ExpiredGroups c |}.
Definition zeroReceiveCounters : ReceiveCounters := {|
  ReceivedFECBundles := 0; PacketScratchRejections := 0; NewGroupRejections := 0;
  OriginalAdmissionRejections := 0; DecodedGroups := 0; CompletedGroups := 0; ExpiredGroups := 0 |}.

(** ** Owned sends *)

Inductive sendSource := sendData | sendJoin | sendBudget_ | sendContext_ | sendReply0 | sendReply1.
#[global] Instance sendSource_eq_dec : EqDecision sendSource.
Proof. solve_decision. Defined.
Inductive shardSendState := shardWaiting | shardDispatched | shardTerminal.
#[global] Instance shardSendState_eq_dec : EqDecision shardSendState.
Proof. solve_decision. Defined.
#[global] Instance shardSendState_inhabited : Inhabited shardSendState := populate shardWaiting.

(** [sendIntentState]: the packet and the sender until the adapter releases them. *)
Record IntentState := { is_packet : bytes; is_sender : option Sender; released : bool }.

Record SendIntent := {
  Token : Z; in_Type : Z; in_PathID : Z; in_Route : WireV2Bundle.Route; in_Binding : Binding;
  in_Sender : option Sender; Packet : bytes; ExpiresAt : Time; NativeTiming : bool }.

Record SendOutcome := {
  out_Token : Z; Invoked : bool; AttemptKnown : bool; StartedAt : Time; FinishedAt : Z;
  out_Err : option CtlError }.

(** [owner] is the intent of the same token. *)
Record sendSlot := {
  token : Z;
  slot_kind : Z;
  slot_path : Z;
  pathGeneration : Z;
  slot_transport : Z;
  slot_binding : Binding;
  slot_route : WireV2Bundle.Route;
  native : bool;
  slot_bytes : Z;
  source : sendSource;
  shard : nat;
  transaction : Z;
  slot_version : Z;
  issued : Z;
  expires : Time }.
#[global] Instance sendSlot_eta : Settable sendSlot := fun s => {|
  token := token s; slot_kind := slot_kind s; slot_path := slot_path s;
  pathGeneration := pathGeneration s; slot_transport := slot_transport s;
  slot_binding := slot_binding s; slot_route := slot_route s; native := native s;
  slot_bytes := slot_bytes s; source := source s; shard := shard s; transaction := transaction s;
  slot_version := slot_version s; issued := issued s; expires := expires s |}.
Definition zeroSlot : sendSlot := {|
  token := 0; slot_kind := 0; slot_path := 0; pathGeneration := 0; slot_transport := 0;
  slot_binding := zeroBinding;
  slot_route := {| WireV2Bundle.PathID := 0; WireV2Bundle.Generation := 0; WireV2Bundle.BudgetEpoch := 0 |};
  native := false; slot_bytes := 0; source := sendData; shard := 0; transaction := 0;
  slot_version := 0; issued := 0; expires := None |}.
#[global] Instance sendSlot_inhabited : Inhabited sendSlot := populate zeroSlot.

Record ownedSendState := {
  slots : list sendSlot;
  nextToken : Z;
  sn_active : Z;
  shardStates : list shardSendState;
  remaining : Z;
  groupQueued : Time;
  cursor : nat;
  closing : bool }.
#[global] Instance ownedSendState_eta : Settable ownedSendState := fun s => {|
  slots := slots s; nextToken := nextToken s; sn_active := sn_active s;
  shardStates := shardStates s; remaining := remaining s; groupQueued := groupQueued s;
  cursor := cursor s; closing := closing s |}.

(** ** The Controller *)

Record Controller := {
  setup : Handshake.Setup;
  cfg : Config;
  remote : Negotiation.Profile;
  sendKey : Key;
  receiveKey : Key;
  sendAuth : option WireV2.Authenticator;
  receiveAuth : option WireV2.Authenticator;
  paths : list pathState;
  queue : option Aggregation.Queue;
  outputWorkspace : option Ptr;
  assemblyLease : option Ptr;
  sends : option ownedSendState;
  nextControl : Z;
  originals : option Reassembly.Receiver;
  groups : gmap Z pendingGroup;
  groupHead : Z;
  groupTail : Z;
  decodedGroups : Z;
  receiveCounters : ReceiveCounters;
  groupWindow : option RecvWindow.Window;
  groupWindowLease : option Ptr;
  controlLease : option Ptr;
  sendContext : WireV2Bundle.EncodingContext;
  receiveContext : WireV2Bundle.EncodingContext;
  receiveCodec : option FecV2.Codec;
  context : controlRetry;
  contextPath : Z;
  contextAcknowledged : bool;
  receiveAckSent : bool;
  out : option Aggregation.Output;
  outNext : nat;
  outPaths : list Z;
  outThrough : Z;
  accepted : Z;
  completed : Z;
  forced : Z;
  sticky : option CtlError;
  failedFrom : Z;
  last : Time;
  retryStorage : Time;
  started : bool;
  accepting : bool;
  closed : bool;
  finalized : bool;
  haveTime : bool;
  busy : bool;
  controlCursor : Z }.
#[global] Instance Controller_eta : Settable Controller := fun c => {|
  setup := setup c; cfg := cfg c; remote := remote c; sendKey := sendKey c; receiveKey := receiveKey c;
  sendAuth := sendAuth c; receiveAuth := receiveAuth c; paths := paths c; queue := queue c;
  outputWorkspace := outputWorkspace c; assemblyLease := assemblyLease c; sends := sends c;
  nextControl := nextControl c; originals := originals c; groups := groups c;
  groupHead := groupHead c; groupTail := groupTail c; decodedGroups := decodedGroups c;
  receiveCounters := receiveCounters c; groupWindow := groupWindow c;
  groupWindowLease := groupWindowLease c; controlLease := controlLease c;
  sendContext := sendContext c; receiveContext := receiveContext c; receiveCodec := receiveCodec c;
  context := context c; contextPath := contextPath c; contextAcknowledged := contextAcknowledged c;
  receiveAckSent := receiveAckSent c; out := out c; outNext := outNext c; outPaths := outPaths c;
  outThrough := outThrough c; accepted := accepted c; completed := completed c; forced := forced c;
  sticky := sticky c; failedFrom := failedFrom c; last := last c; retryStorage := retryStorage c;
  started := started c; accepting := accepting c; closed := closed c; finalized := finalized c;
  haveTime := haveTime c; busy := busy c; controlCursor := controlCursor c |}.

(** ** Zero values *)

#[global] Instance PayloadLimits_eq_dec : EqDecision Negotiation.PayloadLimits.
Proof. solve_decision. Defined.
#[global] Instance EpochLimits_eq_dec : EqDecision Negotiation.EpochLimits.
Proof. solve_decision. Defined.
#[global] Instance Profile_eq_dec : EqDecision Negotiation.Profile.
Proof. solve_decision. Defined.

Definition zeroProfile : Negotiation.Profile := {|
  Negotiation.Protocol := 0; Negotiation.OfferedCaps := 0; Negotiation.RequiredCaps := 0;
  Negotiation.LayoutID := 0; Negotiation.DataShards := 0; Negotiation.ParityShards := 0;
  Negotiation.Mux := 0; Negotiation.Discovery := 0; Negotiation.Scope := 0;
  Negotiation.Payload := {| Negotiation.SendHardCap := 0; Negotiation.ReceiveHardCap := 0;
    Negotiation.BootstrapBytes := 0; Negotiation.InnerKCPBytes := 0 |};
  Negotiation.DatagramL := Negotiation.zeroDatagramLimits;
  Negotiation.Repair := Negotiation.zeroRepairLimits;
  Negotiation.Streams := Negotiation.zeroStreamLimits;
  Negotiation.Epochs := {| Negotiation.MaxOldEpochs := 0; Negotiation.MaxMigrations := 0;
    Negotiation.GraceMS := 0 |};
  Negotiation.MaxPaths := 0 |}.

Definition zeroContract : Negotiation.Contract := {|
  Negotiation.SelectedCaps := 0; Negotiation.ActiveCaps := 0; Negotiation.Contract_MaxPaths := 0;
  Negotiation.Contract_BootstrapPathID := 0; Negotiation.MuxFrameBytes := 0;
  Negotiation.Contract_Repair := Negotiation.zeroRepairLimits;
  Negotiation.Contract_Epochs := Negotiation.Epochs zeroProfile;
  Negotiation.client := zeroProfile; Negotiation.server := zeroProfile;
  Negotiation.contract_valid := false |}.

Definition zeroSetup : Handshake.Setup := {|
  Handshake.ID := zero16; Handshake.setup_DialID := 0; Handshake.setup_Role := Negotiation.OtherRole;
  Handshake.PathID := 0; Handshake.setup_Binding := zeroBinding; Handshake.setup_Contract := None;
  Handshake.Keys := {| Transcript.ClientToServer := zero32; Transcript.ServerToClient := zero32 |};
  Handshake.setup_Scope := None; Handshake.Receive_claim := Credit.zeroClaim; Handshake.Initial := [] |}.

Definition zeroConfig : Config := {|
  LocalProfile := zeroProfile;
  cfg_SendLimits := {| Negotiation.Send_Datagram := Negotiation.zeroDatagramLimits;
    Negotiation.Send_Streams := Negotiation.zeroStreamSendLimits |};
  FixedPayloadBudget := 0; cfg_Aggregation := false; MaxGroupBytes := 0;
  cfg_Queue := {| Aggregation.MaxQueuedDatagrams := 0; Aggregation.MaxQueuedBytes := 0;
    Aggregation.MaxDatagramBytes := 0; Aggregation.MaxFragmentsPerDatagram := 0;
    Aggregation.MaxDelay := 0 |};
  cfg_Reassembly := Reassembly.limits Reassembly.zeroReceiver; MaxPendingGroups := 0;
  GroupTimeout := 0; Carriers := []; BootstrapPath := None; hasEntropy := false; PathRatesBPS := ∅;
  OwnedSends := false; MaxInFlightSends := 0; MaxPathQueuedPackets := 0; MaxPathQueuedBytes := 0;
  MaxQueueResidence := 0; hasEmit := false |}.

Definition zeroController : Controller := {|
  setup := zeroSetup; cfg := zeroConfig; remote := zeroProfile; sendKey := zero32; receiveKey := zero32;
  sendAuth := None; receiveAuth := None; paths := []; queue := None; outputWorkspace := None;
  assemblyLease := None; sends := None; nextControl := 0; originals := None; groups := ∅;
  groupHead := 0; groupTail := 0; decodedGroups := 0; receiveCounters := zeroReceiveCounters;
  groupWindow := None; groupWindowLease := None; controlLease := None; sendContext := zeroContext;
  receiveContext := zeroContext; receiveCodec := None; context := zeroRetry; contextPath := 0;
  contextAcknowledged := false; receiveAckSent := false; out := None; outNext := 0;
  outPaths := replicate 256 0; outThrough := 0; accepted := 0; completed := 0; forced := 0;
  sticky := None; failedFrom := 0; last := None; retryStorage := None; started := false;
  accepting := false; closed := false; finalized := false; haveTime := false; busy := false;
  controlCursor := 0 |}.

Definition contract (c : Controller) : Negotiation.Contract :=
  default zeroContract (Handshake.setup_Contract (setup c)).
Definition scope (c : Controller) : option Ptr := Handshake.setup_Scope (setup c).
Definition sessionID (c : Controller) : SessionID := Handshake.ID (setup c).
Definition isInitiator (c : Controller) : bool :=
  match Handshake.setup_Role (setup c) with Negotiation.Initiator => true | _ => false end.
Definition isResponder (c : Controller) : bool :=
  match Handshake.setup_Role (setup c) with Negotiation.Responder => true | _ => false end.

(** ** The adapter and the layout of the structs *)

(** The transport, the entropy source and the emitting callback.  [boundAddresses] is the
    normalised pair of UDP addresses of a native path, where both are UDP addresses;
    [iteration] is the order of a [range] over the groups. *)
Class Links := {
  Env : Type;
  Available : Sender -> Env -> bool;
  Generation : Sender -> Env -> Z;
  CaptureSendPath : Sender -> Env -> result CtlError (Sender * bool);
  boundAddresses : Sender -> option (Handshake.AddrPort * Handshake.AddrPort);
  Emit : option Sender -> bytes -> Env -> option CtlError * Env;
  Entropy : Env -> option bytes * Env;
  iteration : Env -> gmap Z pendingGroup -> list Z;
  Entropy_full : forall e v e', Entropy e = (Some v, e') -> length v = 16%nat;
  iteration_keys : forall e m, iteration e m ≡ₚ (map_to_list m).*1 }.

(** [unsafe.Sizeof] of the structs, which the compiler chooses. *)
Class Layout := {
  sizeofController : Z; sizeofPathState : Z; sizeofOwnedSendState : Z; sizeofSendSlot : Z;
  sizeofSendIntent : Z; sizeofIntentState : Z; sizeofFECRecord : Z; sizeofFragment : Z;
  sizeofPendingGroup : Z }.
Definition sizeofSlice : Z := 24.

(** ** The monad *)

Record St `{Ledger, Links} := {
  con : Controller;
  res : Result;
  intents : gmap Z IntentState;
  spaces : Aggregation.Workspaces;
  ledger : World;
  env : Env }.

Section monad.
Context `{L : Ledger} `{K : Links}.

#[global] Instance St_eta : Settable St := fun s => {|
  con := con s; res := res s; intents := intents s; spaces := spaces s; ledger := ledger s; env := env s |}.
Definition M (A : Type) : Type := St -> result CtlError A * St.
Definition ret {A} (a : A) : M A := fun s => (Ok a, s).
Definition throw {A} (e : CtlError) : M A := fun s => (Err e, s).
Definition bind {A B} (m : M A) (k : A -> M B) : M B := fun s =>
  match m s with
  | (Ok a, s') => k a s'
  | (Err e, s') => (Err e, s')
  end.
Definition reads {A} (f : Controller -> A) : M A := fun s => (Ok (f (con s)), s).
Definition asks {A} (f : Env -> A) : M A := fun s => (Ok (f (env s)), s).
Definition modify (f : Controller -> Controller) : M unit := fun s => (Ok tt, s <| con ::= f |>).
Definition result_ (f : Result -> Result) : M unit := fun s => (Ok tt, s <| res ::= f |>).
Definition lift {E A} (inj : E -> CtlError) (r : result E A) : M A := fun s =>
  match r with Ok a => (Ok a, s) | Err e => (Err (inj e), s) end.
(** An [Append...] function: the packet or the error. *)
Definition appended (r : bytes * option WireV2.WireError) : M bytes := fun s =>
  match snd r with None => (Ok (fst r), s) | Some e => (Err (WireErr e), s) end.
(** A call of the ledger. *)
Definition onLedger {A} (f : World -> A * World) : M A := fun s =>
  let '(a, w) := f (ledger s) in (Ok a, s <| ledger := w |>).
(** [err] of a call that the caller inspects. *)
Definition attempt {A} (m : M A) : M (result CtlError A) := fun s => let '(r, s') := m s in (Ok r, s').
End monad.

Notation "'let!' x ':=' m 'in' k" := (bind m (fun x => k))
  (at level 10, x name, m at level 100, k at level 200,
   format "'[v' 'let!'  x  ':='  m  'in' '/' k ']'") : go_scope.
Notation "'let!' ' p ':=' m 'in' k" := (bind m (fun p => k))
  (at level 10, p strict pattern, m at level 100, k at level 200) : go_scope.
Notation "'run' m 'in' k" := (bind m (fun _ => k))
  (at level 10, m at level 100, k at level 200, format "'[v' 'run'  m  'in' '/' k ']'") : go_scope.
Notation "'raise' c 'with' e 'in' k" := (if c then throw e else k)
  (at level 10, c at level 100, e at level 100, k at level 200) : go_scope.
(** [if c { return ..., nil }]: the rest of the function is skipped. *)
Notation "'stop' c 'with' a 'in' k" := (if c then ret a else k)
  (at level 10, c at level 100, a at level 100, k at level 200) : go_scope.

Section paths.
Context `{L : Ledger} `{K : Links}.

(** [p := &c.paths[i]] *)
Definition path (i : nat) : M pathState := reads (fun c => paths c !!! i).
Definition onPath (i : nat) (f : pathState -> pathState) : M unit :=
  modify (fun c => c <| paths ::= alter f i |>).
Definition indices (c : Controller) : list nat := seq 0 (length (paths c)).

(** [for i := range l { body }] whose body may return an error. *)
Fixpoint each {A} (l : list A) (body : A -> M unit) : M unit :=
  match l with
  | [] => ret tt
  | x :: l => run body x in each l body
  end.
(** The first element that satisfies a test of the current state. *)
Fixpoint firstOf (test : nat -> M bool) (l : list nat) : M (option nat) :=
  match l with
  | [] => ret None
  | i :: l => let! b := test i in if b then ret (Some i) else firstOf test l
  end.
End paths.
