(* ===== verification/SessionV2Control.v ===== *)
(** * Control packets of a version 2 Session ([control.go], [send_intent.go])

    Path validation with its four messages, the static budget exchange, the encoding
    context exchange, retries, pacing, and expiry.  [emit] is the synchronous sending
    of one packet; the owned sends are in [SessionV2Send]. *)

From S2P Require Import Prelude CreditScope SessionV2Types.
From S2P Require Credit FecV2 RecvWindow Negotiation WireV2 WireV2Bundle Handshake Reassembly Fec.
Import WireV2 (SessionID, Nonce, Key, zero16, zero32).

Definition TypePathChallenge : Z := 17.
Definition TypePathConfirm : Z := 18.
Definition TypePathBudgetUpdate : Z := 25.
Definition TypePathBudgetAck : Z := 26.

(** The fragment and group parameters of a context. *)
Definition parameters (c : WireV2Bundle.EncodingContext) (maxDatagram : Z) : FecV2.Parameters := {|
  FecV2.DataShards := WireV2Bundle.DataShards c; FecV2.ParityShards := WireV2Bundle.ParityShards c;
  FecV2.ShardBytes := WireV2Bundle.ShardBytes c;
  FecV2.par_MaxDescriptors := WireV2Bundle.MaxDescriptors c;
  FecV2.par_MaxLogicalBytes := WireV2Bundle.MaxLogicalBytes c; FecV2.par_MaxDatagramBytes := maxDatagram |}.

(** Which route a packet may use: the receive budget, and whether it is an old one. *)
Definition validRoute (p : pathState) (b : Binding) (r : WireV2Bundle.Route) (now : Z)
    : option (Z * bool) :=
  let oldRoutes :=
    match List.find (fun o => (or_generation o =? WireV2Bundle.Generation r)
            && (or_epoch o =? WireV2Bundle.BudgetEpoch r) && bool_decide (or_binding o = b)
            && Before now (until o)) (old p) with
    | Some o => Some (or_budget o, true)
    | None => None
    end in
  if active p && bool_decide (binding p = b) && (generation p =? WireV2Bundle.Generation r) then
    if receiveEpoch p =? WireV2Bundle.BudgetEpoch r then Some (receiveBudget p, false) else
    if (oldEpoch p =? WireV2Bundle.BudgetEpoch r) && Before now (oldUntil p)
    then Some (oldBudget p, true) else oldRoutes
  else oldRoutes.

(** The body of the last budget update: what its acknowledgement repeats. *)
Definition frameBody (f : controlFrame) : bytes := slice 40 (length (fr_packet f) - 32) (fr_packet f).

Definition serializationTime (rt : Z) (b : Binding) (size : Z) : Z :=
  let overhead := match Handshake.addr (Handshake.Local b) with Handshake.V6 _ _ => 48 | _ => 28 end in
  let bits := u64 (u64 (size + overhead) * 8) in
  u64 (u64 (u64 (bits * second) + rt) - 1) / rt.

Section control.
Context `{L : Ledger} `{K : Links} `{Fec.ReedSolomon}.

Definition randomBlock : M (option bytes) := fun s =>
  let '(v, e) := Entropy (env s) in (Ok v, s <| env := e |>).

(** The loop of at most [n] attempts. *)
Fixpoint nonceLoop (n : nat) : M Nonce :=
  match n with
  | O => throw ErrEntropy
  | S n =>
      let! v := randomBlock in
      match v with
      | None => throw ErrEntropy
      | Some nonce => if decide (nonce = zero16) then nonceLoop n else ret nonce
      end
  end.
Definition randomNonce : M Nonce := nonceLoop 4.

(** ** Frames and retries *)

Definition nextControlID : M Z :=
  let! n := reads nextControl in
  raise n =? maxUint64 with ErrExhausted in
  run modify (fun c => c <| nextControl := u64 (n + 1) |>) in
  ret (u64 (n + 1)).

Definition frame_set (f : controlFrame) (packet : bytes) : M controlFrame :=
  raise 512 <? len packet with ErrInvalid in
  ret (f <| fr_packet := packet |> <| queued := true |>).

Definition frameSet (f : controlFrame) (packet : bytes) (now : Z) : M controlFrame :=
  let! owned := reads (fun c => OwnedSends (cfg c)) in
  if negb owned then frame_set f packet else
  let! v := nextControlID in
  let! f := frame_set f packet in
  ret (f <| version := v |> <| queuedAt := Some now |> <| dispatched := false |>).

Definition newControlRetry (now : Z) : M controlRetry :=
  let state := zeroRetry <| pending := true |> <| deadline := Some (now + ControlLifetime) |>
                 <| next := Some now |> in
  let! owned := reads (fun c => OwnedSends (cfg c)) in
  if negb owned then ret state else
  let! v := nextControlID in ret (state <| rt_id := v |>).

(** [x, err = c.newControlRetry(now)] with [x] a field: an error leaves the zero value. *)
Definition storeRetry (put : controlRetry -> M unit) (now : Z) : M unit :=
  let! r := attempt (newControlRetry now) in
  match r with
  | Ok rt => put rt
  | Err e => run put zeroRetry in throw e
  end.

(** ** Senders *)

Definition captureBoundSender (b : Binding) (s : option Sender) : M (option Sender * Z * bool) :=
  match s with
  | None => throw (LinkErr 0)
  | Some s =>
      let! r := asks (CaptureSendPath s) in
      match r with
      | Err e => throw e
      | Ok (captured, native) =>
          raise native && negb (bool_decide
            (boundAddresses captured = Some (Handshake.Local b, Handshake.Remote b)))
            with ErrGenerationReplaced in
          let! g := asks (Generation captured) in
          ret (Some captured, g, native)
      end
  end.

(** [eligible]: whether DATA may be sent on a path. *)
Definition eligibleIn (c : Controller) (e : Env) (p : pathState) : bool :=
  active p
  && match sender p with
     | Some s => Available s e && (negb (OwnedSends (cfg c)) || (Generation s e =? transportGeneration p))
     | None => false
     end
  && (sendEpoch p =? 2) && (u16 (WireV2Bundle.ShardBytes (sendContext c) + 94) <=? sendBudget p).
Definition eligible (i : nat) : M bool := fun s =>
  (Ok (eligibleIn (con s) (env s) (paths (con s) !!! i)), s).

Definition ready : M bool := fun s =>
  let c := con s in
  (Ok (negb (closed c) && started c && contextAcknowledged c
       && existsb (eligibleIn c (env s)) (paths c)), s).

Definition pendingPathWork (c : Controller) : bool :=
  existsb (fun p => (pending (retry (join p)) && negb (committed (join p)))
                    || (active p && pending (budget p))) (paths c).

(** ** Validating a path *)

(** [append Established] for this Session. *)
Definition appendControl (t : Z) (r : WireV2Bundle.Route) (body : bytes) : M bytes :=
  let! c := reads id in
  appended (WireV2Bundle.AppendEstablished []
    {| WireV2.Header_Type := t; WireV2.Header_SessionID := sessionID c |} r body (sendKey c)).

Definition setJoin (f : pathJoin -> pathJoin) : pathState -> pathState := fun p => p <| join ::= f |>.
Definition setJoinFrame (f : controlFrame) : pathState -> pathState :=
  setJoin (fun j => j <| retry ::= fun r => r <| frame := f |> |>).
Definition setJoinNext (t : Time) : pathState -> pathState :=
  setJoin (fun j => j <| retry ::= fun r => r <| next := t |> |>).
Definition setBudgetFrame (f : controlFrame) : pathState -> pathState :=
  fun p => p <| budget ::= fun r => r <| frame := f |> |>.

Definition joinFrame (i : nat) (t : Z) (now : Z) : M unit :=
  let! p := path i in
  let body := client (join p) ++ server (join p) ++ replicate 408 Byte.x00 in
  let! packet := appendControl t {| WireV2Bundle.PathID := pathid p;
                   WireV2Bundle.Generation := jn_generation (join p); WireV2Bundle.BudgetEpoch := 0 |} body in
  run onPath i (setJoin (fun j => j <| kind := t |>)) in
  let! f := frameSet (frame (retry (join p))) packet now in
  onPath i (setJoinFrame f).

(** The sender to bind: captured for owned sends. *)
Definition boundSender (b : Binding) (s : option Sender) : M (option Sender * Z * bool) :=
  let! owned := reads (fun c => OwnedSends (cfg c)) in
  if owned then captureBoundSender b s else ret (s, 0, false).

Definition startJoin (carrier : Carrier) (now : Z) : M unit :=
  let i := Z.to_nat (car_PathID carrier - 1) in
  let! p := path i in
  raise pending (retry (join p)) || (floor p =? maxUint64) with ErrExhausted in
  let! nonce := randomNonce in
  let! rt := newControlRetry now in
  let! '(snd_, g, nat_) := boundSender (car_Binding carrier) (car_Sender carrier) in
  run onPath i (fun p => p <| floor := u64 (floor p + 1) |> <| join := {|
        retry := rt; kind := 0; client := nonce; server := zero16; jn_binding := car_Binding carrier;
        jn_sender := snd_; jn_generation := u64 (floor p + 1); committed := false; jn_transport := g;
        jn_native := nat_ |} |>) in
  joinFrame i WireV2.TypePathJoin now.

Definition sendDirection (c : Controller) : byte := byte_of_Z (if isInitiator c then 0 else 1).

Definition startBudget (i : nat) (now : Z) : M unit :=
  let! c := reads id in
  let! p := path i in
  let body := [sendDirection c; Byte.x00] ++ be_put 2 (FixedPayloadBudget (cfg c)) ++ be_put 4 2 in
  let! packet := appendControl TypePathBudgetUpdate (route p) body in
  run storeRetry (fun rt => onPath i (fun p => p <| budget := rt |>)) now in
  let! f := frameSet zeroFrame packet now in
  onPath i (setBudgetFrame f).

(** The first of the first [n] slots that is free at [now]. *)
Fixpoint freeOld (n i : nat) (olds : list oldRoute) (now : Z) : option nat :=
  match n with
  | O => None
  | S n => if negb (Before now (until (olds !!! i))) then Some i else freeOld n (S i) olds now
  end.

Definition grace (c : Controller) : Z :=
  Negotiation.GraceMS (Negotiation.Contract_Epochs (contract c)) * millisecond.

Definition retired (c : Controller) (p : pathState) (now : Z) : oldRoute := {|
  or_binding := binding p; or_sender := sender p; or_generation := generation p;
  or_epoch := receiveEpoch p; or_budget := receiveBudget p; until := Some (now + grace c) |}.

(** [commitPath]: the joined tuple replaces the path's. *)
Definition adopt (p : pathState) : pathState :=
  let j := join p in
  p <| active := true |> <| generation := jn_generation j |> <| binding := jn_binding j |>
    <| sender := jn_sender j |> <| transportGeneration := jn_transport j |>
    <| nativeTiming := jn_native j |> <| sendBudget := 512 |> <| receiveBudget := 512 |>
    <| sendEpoch := 1 |> <| receiveEpoch := 1 |> <| oldBudget := 0 |> <| oldEpoch := 0 |>
    <| oldUntil := None |> <| budgetPeerDeadline := None |> <| budget := zeroRetry |>
    <| reply0 := zeroFrame |> <| reply1 := zeroFrame |>
    <| join := j <| committed := true |> |>.

Definition commitPath (i : nat) (now : Z) : M unit :=
  let! c := reads id in
  let! p := path i in
  let slot := freeOld (Z.to_nat (Negotiation.MaxOldEpochs (Negotiation.Contract_Epochs (contract c)))) 0
                (old p) now in
  raise active p && bool_decide (slot = None) with ErrNotReady in
  run onPath i (fun p => adopt (if active p
        then match slot with Some k => p <| old := <[k := retired c p now]> (old p) |> | None => p end
        else p)) in
  run result_ (fun r => r <| PathsChanged := true |>) in
  startBudget i now.

(** A PATH_JOIN that reaches the responder. *)
Definition answerJoin (i : nat) (now : Z) (b : Binding) (reply : Sender) (r : WireV2Bundle.Route)
    (cl sv : Nonce) : M unit :=
  let! c := reads id in
  let! p := path i in
  let j := join p in
  raise negb (isResponder c) || negb (bool_decide (sv = zero16)) with ErrProtocol in
  if pending (retry j) then
    raise negb (Before now (deadline (retry j))) || negb (bool_decide (jn_binding j = b))
          || negb (jn_generation j =? WireV2Bundle.Generation r) || negb (bool_decide (client j = cl))
      with ErrProtocol in
    ret tt
  else
  raise WireV2Bundle.Generation r <=? floor p with ErrProtocol in
  let! nonce := randomNonce in
  let! rt := newControlRetry now in
  let! '(snd_, g, nat_) := boundSender b (Some reply) in
  run onPath i (fun p => p <| floor := WireV2Bundle.Generation r |> <| join := {|
        retry := rt; kind := 0; client := cl; server := nonce; jn_binding := b; jn_sender := snd_;
        jn_generation := WireV2Bundle.Generation r; committed := false; jn_transport := g;
        jn_native := nat_ |} |>) in
  joinFrame i TypePathChallenge now.

(** The other three messages, once they match the pending join. *)
Definition advanceJoin (i : nat) (now : Z) (t : Z) (sv : Nonce) : M unit :=
  let! c := reads id in
  let! p := path i in
  let j := join p in
  if t =? TypePathChallenge then
    raise negb (isInitiator c) with ErrProtocol in
    if kind j =? TypePathConfirm then
      raise negb (bool_decide (server j = sv)) with ErrProtocol in ret tt
    else
    raise negb (kind j =? WireV2.TypePathJoin) with ErrProtocol in
    run onPath i (fun p => setJoinNext (Some now) (setJoin (fun j => j <| server := sv |>) p)) in
    joinFrame i TypePathConfirm now
  else if t =? TypePathConfirm then
    raise negb (isResponder c) || negb (bool_decide (server j = sv)) with ErrProtocol in
    if committed j then ret tt else
    run commitPath i now in
    run onPath i (setJoinNext (Some now)) in
    joinFrame i WireV2.TypePathReady now
  else if t =? WireV2.TypePathReady then
    raise negb (isInitiator c) || negb (kind j =? TypePathConfirm) || negb (bool_decide (server j = sv))
      with ErrProtocol in
    run commitPath i now in
    onPath i (setJoin (fun j => j <| retry ::= fun r => r <| pending := false |> |>))
  else throw ErrProtocol.

Definition receiveJoin (i : nat) (now : Z) (b : Binding) (reply : Sender) (m : WireV2Bundle.Established)
    : M unit :=
  let body := WireV2Bundle.Established_Body m in
  let r := WireV2Bundle.Established_Route m in
  let t := WireV2.Header_Type (WireV2Bundle.Established_Header m) in
  raise negb (len body =? 440) || negb (WireV2Bundle.BudgetEpoch r =? 0) || negb (allZero (drop 32 body))
    with ErrProtocol in
  let cl := slice 0 16 body in
  let sv := slice 16 32 body in
  raise bool_decide (cl = zero16) with ErrProtocol in
  if t =? WireV2.TypePathJoin then answerJoin i now b reply r cl sv else
  let! p := path i in
  let j := join p in
  stop (t =? WireV2.TypePathReady) && committed j && bool_decide (jn_binding j = b)
       && (jn_generation j =? WireV2Bundle.Generation r) && bool_decide (client j = cl)
       && bool_decide (server j = sv) with tt in
  raise negb (pending (retry j)) || negb (Before now (deadline (retry j)))
        || negb (bool_decide (jn_binding j = b)) || negb (jn_generation j =? WireV2Bundle.Generation r)
        || negb (bool_decide (client j = cl)) || bool_decide (sv = zero16) with ErrProtocol in
  advanceJoin i now t sv.

(** ** Budgets *)

Definition allowBudgetRetry (c : Controller) (p : pathState) (b : Binding) (m : WireV2Bundle.Established)
    (now : Z) : bool :=
  let body := WireV2Bundle.Established_Body m in
  let t := WireV2.Header_Type (WireV2Bundle.Established_Header m) in
  if negb (active p) || negb (bool_decide (binding p = b))
     || negb (generation p =? WireV2Bundle.Generation (WireV2Bundle.Established_Route m))
     || negb (WireV2Bundle.BudgetEpoch (WireV2Bundle.Established_Route m) =? 1)
     || negb (len body =? 8) then false else
  if t =? TypePathBudgetUpdate then
    Before now (budgetPeerDeadline p)
    && (byte_at 0 body =? Z.lxor (Z_of_byte (sendDirection c)) 1) && (byte_at 1 body =? 0)
    && (be_get (slice 2 4 body) =? receiveBudget p) && (be_get (slice 4 8 body) =? 2)
  else if (t =? TypePathBudgetAck) && pending (budget p) && Before now (deadline (budget p)) then
    bool_decide (body = frameBody (frame (budget p)))
  else false.

Definition setReply (slot : nat) (f : controlFrame) : pathState -> pathState :=
  fun p => match slot with O => p <| reply0 := f |> | S _ => p <| reply1 := f |> end.
Definition replyFrame (slot : nat) (p : pathState) : controlFrame :=
  match slot with O => reply0 p | S _ => reply1 p end.

(** The [frameSet] of an encoded reply. *)
Definition installReply (i slot : nat) (packet : bytes) (now : Z) : M unit :=
  let! p := path i in
  let! f := frameSet (replyFrame slot p) packet now in
  onPath i (setReply slot f).

Definition queueReply (i slot : nat) (t : Z) (body : bytes) (now : Z) : M unit :=
  let! p := path i in
  let! packet := appendControl t (route p) body in
  installReply i slot packet now.

(** ** The encoding context *)

Definition startEncoding (i : nat) (now : Z) : M unit :=
  let! c := reads id in
  raise pending (context c) && negb (Before now (deadline (context c))) with ErrExpired in
  let! p := path i in
  let! packet := appended (WireV2Bundle.AppendEncodingContext [] (sessionID c) (route p) (sendContext c)
                             (sendKey c)) in
  run (if pending (context c) then ret tt else
       storeRetry (fun rt => modify (fun c => c <| context := rt |>)) now) in
  run modify (fun c => c <| contextPath := pathid p |> <| context ::= fun r => r <| next := Some now |> |>) in
  let! rt := reads context in
  let! f := frameSet (frame rt) packet now in
  modify (fun c => c <| context ::= fun r => r <| frame := f |> |>).

Definition receiveBudgetPacket (i : nat) (now : Z) (m : WireV2Bundle.Established) : M unit :=
  let! c := reads id in
  let! p := path i in
  let body := WireV2Bundle.Established_Body m in
  raise negb (len body =? 8) || negb (byte_at 1 body =? 0) || negb (be_get (slice 4 8 body) =? 2)
    with ErrProtocol in
  let b := be_get (slice 2 4 body) in
  if WireV2.Header_Type (WireV2Bundle.Established_Header m) =? TypePathBudgetUpdate then
    raise negb (byte_at 0 body =? Z.lxor (Z_of_byte (sendDirection c)) 1) || (b <? 512)
          || (Z.min (Negotiation.ReceiveHardCap (Negotiation.Payload (LocalProfile (cfg c))))
                    (Negotiation.SendHardCap (Negotiation.Payload (remote c))) <? b) with ErrProtocol in
    run (if receiveEpoch p =? 2 then
           raise negb (receiveBudget p =? b) with ErrProtocol in ret tt
         else onPath i (fun p => p <| oldBudget := receiveBudget p |> <| oldEpoch := receiveEpoch p |>
                <| oldUntil := Some (now + grace c) |>
                <| budgetPeerDeadline := Some (now + ControlLifetime) |>
                <| receiveBudget := b |> <| receiveEpoch := 2 |>)) in
    queueReply i 0 TypePathBudgetAck body now
  else
  raise negb (byte_at 0 body =? Z_of_byte (sendDirection c)) || negb (b =? FixedPayloadBudget (cfg c))
    with ErrProtocol in
  stop sendEpoch p =? 2 with tt in
  raise negb (pending (budget p)) || negb (Before now (deadline (budget p)))
        || negb (bool_decide (body = frameBody (frame (budget p)))) with ErrProtocol in
  run onPath i (fun p => p <| sendBudget := b |> <| sendEpoch := 2 |>
        <| budget ::= fun r => r <| pending := false |> |>) in
  if negb (contextAcknowledged c)
     && (negb (pending (context c)) || (pathid p =? contextPath c) || (contextPath c =? 0))
  then startEncoding i now else ret tt.

Definition receiveEncoding (i : nat) (now : Z) (e : WireV2.AuthenticatedEnvelope) : M unit :=
  let! c := reads id in
  let! p := path i in
  if WireV2.Header_Type (WireV2.AuthenticatedEnvelope_Header e) =? WireV2.TypeEncodingContextAck then
    let! '(_, ack) := lift WireErr (WireV2Bundle.DecodeEncodingContextAck e) in
    match WireV2Bundle.ValidateContext ack (sendContext c) with
    | Some err => throw (WireErr err)
    | None =>
        stop contextAcknowledged c with tt in
        raise negb (pending (context c)) || negb (Before now (deadline (context c))) with ErrProtocol in
        modify (fun c => c <| contextAcknowledged := true |> <| context ::= fun r => r <| pending := false |> |>)
    end
  else
  let! '(_, ctx) := lift WireErr (WireV2Bundle.DecodeEncodingContext e) in
  raise negb (WireV2Bundle.Epoch ctx =? 1)
        || negb (WireV2Bundle.DataShards ctx =? Negotiation.DataShards (remote c))
        || negb (WireV2Bundle.ParityShards ctx =? Negotiation.ParityShards (remote c))
        || (Negotiation.MaxDescriptors (Negotiation.DatagramL (LocalProfile (cfg c)))
            <? WireV2Bundle.MaxDescriptors ctx)
        || (receiveBudget p <? u32 (WireV2Bundle.ShardBytes ctx + 94)) || negb (receiveEpoch p =? 2)
    with ErrProtocol in
  raise negb (WireV2Bundle.Epoch (receiveContext c) =? 0) && negb (bool_decide (receiveContext c = ctx))
    with ErrProtocol in
  run (if WireV2Bundle.Epoch (receiveContext c) =? 0 then
         let! codec := lift GroupErr (FecV2.New (parameters ctx
                         (Negotiation.MaxDatagramBytes (Negotiation.DatagramL (LocalProfile (cfg c)))))) in
         modify (fun c => c <| receiveContext := ctx |> <| receiveCodec := Some codec |>)
       else ret tt) in
  let! ack := lift WireErr (WireV2Bundle.NewEncodingContextAck ctx) in
  let! packet := appended (WireV2Bundle.AppendEncodingContextAck [] (sessionID c) (route p) ack (sendKey c)) in
  installReply i 1 packet now.

(** ** Sending and retrying *)

(** One synchronous attempt; [false] when the step is full or the path is paced. *)
Definition emit (i : nat) (snd_ : option Sender) (b : Binding) (packet : bytes) (now : Z) : M bool :=
  let! p := path i in
  fun s =>
    if (MaxSendsPerStep <=? len (Sends (res s))) || Before now (pacedAt p) then (Ok false, s) else
    let '(err, e) := Emit snd_ packet (env s) in
    let at_ := {| at_Type := byte_at 5 packet; at_PathID := pathid p; at_Bytes := len packet; at_Err := err |} in
    (Ok true, s <| con ::= fun c => c <| paths ::= alter (fun p =>
                      p <| pacedAt := Some (now + serializationTime (rate p) b (len packet)) |>) i |> |>
                <| env := e |>
                <| res ::= fun r => r <| Sends ::= fun l => l ++ [at_] |> |>).

(** The three places that hold a [controlRetry]. *)
Inductive retryRef := JoinRetry (i : nat) | BudgetRetry (i : nat) | ContextRetry.

Definition retryAt (c : Controller) (r : retryRef) : controlRetry :=
  match r with
  | JoinRetry i => retry (join (paths c !!! i))
  | BudgetRetry i => budget (paths c !!! i)
  | ContextRetry => context c
  end.
Definition onRetry (r : retryRef) (f : controlRetry -> controlRetry) : M unit :=
  match r with
  | JoinRetry i => onPath i (setJoin (fun j => j <| retry ::= f |>))
  | BudgetRetry i => onPath i (fun p => p <| budget ::= f |>)
  | ContextRetry => modify (fun c => c <| context ::= f |>)
  end.

Definition sendRetry (i : nat) (r : retryRef) (snd_ : option Sender) (b : Binding) (now : Z)
    (firstPhase : bool) : M unit :=
  let! rt := reads (fun c => retryAt c r) in
  let limit := if firstPhase then ControlSends - 1 else ControlSends in
  stop negb (pending rt) || (limit <=? sends_ rt) || Before now (next rt) || negb (Before now (deadline rt))
    with tt in
  let! sent := emit i snd_ b (fr_packet (frame rt)) now in
  if sent then onRetry r (fun rt => rt <| sends_ ::= fun n => n + 1 |> <| next := Some (now + ControlRetry) |>)
  else ret tt.

(** The path indices from [start] on, around the end. *)
Definition around (start : Z) (n : nat) : list nat :=
  (fun k => Z.to_nat ((start + Z.of_nat k) mod Z.of_nat n)) <$> seq 0 n.

(** [startEncoding] on the first eligible path of a list, its error ignored or returned. *)
Definition lastFailed (s : St) : bool :=
  match list.last (Sends (res s)) with Some a => bool_decide (is_Some (at_Err a)) | None => false end.

Definition sendReplies (i : nat) (now : Z) : M unit :=
  each [0%nat; 1%nat] (fun k =>
    let! p := path i in
    let f := replyFrame k p in
    stop negb (queued f) with tt in
    let! sent := emit i (sender p) (binding p) (fr_packet f) now in
    stop negb sent with tt in
    run onPath i (fun p => setReply k ((replyFrame k p) <| queued := false |>) p) in
    fun s =>
      if (byte_at 5 (fr_packet f) =? WireV2.TypeEncodingContextAck) && negb (lastFailed s)
      then (Ok tt, s <| con ::= fun c => c <| receiveAckSent := true |> |>) else (Ok tt, s)).

Definition firstPhase (p : pathState) : bool :=
  (kind (join p) =? WireV2.TypePathJoin) || (kind (join p) =? TypePathChallenge).

(** The packets of one path. *)
Definition drivePath (i : nat) (now : Z) : M unit :=
  let! p := path i in
  run (if pending (retry (join p))
       then sendRetry i (JoinRetry i) (jn_sender (join p)) (jn_binding (join p)) now (firstPhase p)
       else ret tt) in
  stop negb (active p) with tt in
  run sendReplies i now in
  run sendRetry i (BudgetRetry i) (sender p) (binding p) now false in
  let! c := reads id in
  if pathid p =? contextPath c then sendRetry i ContextRetry (sender p) (binding p) now false else ret tt.

(** While there is room in the step. *)
Fixpoint drivePaths (l : list nat) (now : Z) : M unit :=
  match l with
  | [] => ret tt
  | i :: l => fun s =>
      if len (Sends (res s)) <? MaxSendsPerStep then (run drivePath i now in drivePaths l now) s
      else (Ok tt, s)
  end.

Definition rotateContext (now : Z) : M unit :=
  let! c := reads id in
  if pending (context c) && (0 <? sends_ (context c)) && negb (Before now (next (context c)))
     && Before now (deadline (context c)) then
    let! found := firstOf eligible (around (contextPath c) (length (paths c))) in
    match found with
    | Some i => let! _r := attempt (startEncoding i now) in ret tt
    | None => ret tt
    end
  else ret tt.

Definition driveControl (now : Z) : M unit :=
  let! c := reads id in
  stop OwnedSends (cfg c) with tt in
  run rotateContext now in
  run drivePaths (around (controlCursor c) (length (paths c))) now in
  if (0 <? length (paths c))%nat
  then modify (fun c => c <| controlCursor := (controlCursor c + 1) mod len (paths c) |>) else ret tt.

(** ** Expiry *)

Definition expireOld (now : Z) (o : oldRoute) : oldRoute := if Before now (until o) then o else zeroOld.

Definition expirePath (i : nat) (now : Z) : M unit :=
  run onPath i (fun p =>
        if bool_decide (is_Some (deadline (retry (join p)))) && negb (Before now (deadline (retry (join p))))
        then p <| join := zeroJoin |> else p) in
  let! p := path i in
  run (if pending (budget p) && negb (Before now (deadline (budget p))) then
         run modify (fun c => c <| paths ::= alter (fun p =>
               let p := p <| active := false |> <| budget ::= fun r => r <| pending := false |> |> in
               if OwnedSends (cfg c) then p <| reply0 := zeroFrame |> <| reply1 := zeroFrame |> else p) i |>) in
         modify (fun c => if (pathid p =? contextPath c) && negb (contextAcknowledged c)
                          then c <| contextPath := 0 |> else c)
       else ret tt) in
  onPath i (fun p => p <| old ::= map (expireOld now) |>).

(** The first eligible path takes over the context exchange. *)
Definition moveContext (now : Z) : M unit :=
  let! c := reads id in
  let! found := firstOf eligible (indices c) in
  match found with Some i => startEncoding i now | None => ret tt end.

Definition expireControl (now : Z) : M unit :=
  let! c := reads id in
  raise pending (context c) && negb (Before now (deadline (context c))) with ErrExpired in
  run each (indices c) (fun i => expirePath i now) in
  let! c := reads id in
  run (if (contextPath c =? 0) && negb (contextAcknowledged c) then moveContext now else ret tt) in
  let! c := reads id in
  raise (contextPath c =? 0) && negb (contextAcknowledged c) && negb (pendingPathWork c)
    with ErrNoAvailablePaths in
  ret tt.

(** [Join]: revalidate one configured Carrier. *)
Definition JoinBody (now : Z) (carrier : Carrier) : M unit :=
  let! c := reads id in
  raise negb (started c) || negb (isInitiator c) || (car_PathID carrier =? 0)
        || (Negotiation.Contract_MaxPaths (contract c) <? car_PathID carrier)
        || negb (Handshake.validBinding (car_Binding carrier)) || bool_decide (car_Sender carrier = None)
    with ErrInvalid in
  run startJoin carrier now in driveControl now.
End control.
