(* ===== verification/SessionV2Send.v ===== *)
(** * Owned sends of a version 2 Session ([send_intent.go], [send_control.go], [send_data.go])

    With [OwnedSends] a packet leaves the Controller as an intent: a slot keeps what
    [CompleteSend] needs, a path has at most one packet outstanding, and waiting work
    expires.  Pointers to frames and retries are references ([frameRef], [retryRef]). *)

From S2P Require Import Prelude CreditScope SessionV2Types SessionV2Control.
From S2P Require Credit FecV2 Negotiation WireV2 WireV2Bundle Handshake Aggregation Fec.

(** ** References *)

Inductive frameRef := RetryFrame (r : retryRef) | ReplyFrame (i slot : nat).

Definition frameAt (c : Controller) (f : frameRef) : controlFrame :=
  match f with
  | RetryFrame r => frame (retryAt c r)
  | ReplyFrame i k => replyFrame k (paths c !!! i)
  end.

Record ownedControl := {
  oc_path : nat; oc_frame : frameRef; oc_retry : option retryRef; oc_sender : option Sender;
  oc_binding : Binding; oc_generation : Z; oc_native : bool; oc_source : sendSource; oc_limit : Z }.

(** [controlAt]; [None] is the zero value, whose frame is nil. *)
Definition controlAt (c : Controller) (i : nat) (src : sendSource) : option ownedControl :=
  let p := paths c !!! i in
  let value f rt := Some {|
    oc_path := i; oc_frame := f; oc_retry := rt; oc_sender := sender p; oc_binding := binding p;
    oc_generation := transportGeneration p; oc_native := nativeTiming p; oc_source := src;
    oc_limit := ControlSends |} in
  match src with
  | sendJoin =>
      let j := join p in
      if negb (pending (retry j)) then None else
      Some {| oc_path := i; oc_frame := RetryFrame (JoinRetry i); oc_retry := Some (JoinRetry i);
              oc_sender := jn_sender j; oc_binding := jn_binding j; oc_generation := jn_transport j;
              oc_native := jn_native j; oc_source := src;
              oc_limit := if firstPhase p then ControlSends - 1 else ControlSends |}
  | _ =>
      if negb (active p) then None else
      match src with
      | sendBudget_ => value (RetryFrame (BudgetRetry i)) (Some (BudgetRetry i))
      | sendContext_ => if pathid p =? contextPath c
                        then value (RetryFrame ContextRetry) (Some ContextRetry) else None
      | sendReply0 => value (ReplyFrame i 0) None
      | sendReply1 => value (ReplyFrame i 1) None
      | _ => None
      end
  end.

Definition sources : list sendSource := [sendJoin; sendReply0; sendReply1; sendBudget_; sendContext_].

(** [sends] of a Controller that owns its sends. *)
Definition noSends : ownedSendState := {|
  slots := []; nextToken := 0; sn_active := 0; shardStates := replicate 256 shardWaiting;
  remaining := 0; groupQueued := None; cursor := 0; closing := false |}.
Definition sendsOf (c : Controller) : ownedSendState := default noSends (sends c).

(** The index of the first free slot. *)
Definition freeSendSlot (c : Controller) : option nat :=
  fst <$> list_find (fun s => token s = 0) (slots (sendsOf c)).

Definition pathCanDispatch (c : Controller) (p : pathState) (now size : Z) : bool :=
  (sendToken p =? 0) && negb (Before now (pacedAt p)) && (queuedPackets p <? MaxPathQueuedPackets (cfg c))
  && (u64 size <=? u64 (MaxPathQueuedBytes (cfg c) - queuedBytes p)).

Definition PendingSends (c : Controller) : Z := match sends c with Some s => sn_active s | None => 0 end.

(** The shards of the group being sent. *)
Definition viewGroup (c : Controller) : option Aggregation.SealedGroup :=
  match out c with Some o => fst (Aggregation.View o) | None => None end.
Definition groupShards (c : Controller) : list bytes :=
  match viewGroup c with Some g => FecV2.Shards (Aggregation.SealedOf g) | None => [] end.
Definition groupID (c : Controller) : Z :=
  match viewGroup c with Some g => Aggregation.GroupID g | None => 0 end.

Definition packetBytes (c : Controller) : Z := WireV2Bundle.ShardBytes (sendContext c) + 94.

(** The DATA packet of one shard on a path. *)
Definition shardBundle (c : Controller) (p : pathState) (k : nat) : WireV2Bundle.FECBundle := {|
  WireV2Bundle.Bundle_Header := {| WireV2.Header_Type := WireV2.TypeFECBundle;
                                   WireV2.Header_SessionID := sessionID c |};
  WireV2Bundle.Bundle_Route := route p;
  WireV2Bundle.Records := [{|
    WireV2Bundle.GroupID := groupID c;
    WireV2Bundle.EncodingEpoch := match viewGroup c with Some g => Aggregation.EncodingEpoch g | None => 0 end;
    WireV2Bundle.LogicalBytes :=
      match viewGroup c with Some g => FecV2.LogicalBytes (Aggregation.SealedOf g) | None => 0 end;
    WireV2Bundle.Record_ShardIndex := u8 (Z.of_nat k);
    WireV2Bundle.Record_Payload := groupShards c !!! k |}] |}.

Definition sendLookup (c : Controller) : WireV2Bundle.ContextLookup :=
  Some (fun epoch => if contextAcknowledged c && (epoch =? WireV2Bundle.Epoch (sendContext c))
                     then Some (sendContext c) else None).

Definition preferredOwnedPath (c : Controller) (group : Z) (k : nat) : nat :=
  Z.to_nat ((group mod len (paths c) + Z.of_nat k) mod len (paths c)).

Section sending.
Context `{L : Ledger} `{K : Links} `{Fec.ReedSolomon}.

Definition onFrame (f : frameRef) (g : controlFrame -> controlFrame) : M unit :=
  match f with
  | RetryFrame r => onRetry r (fun rt => rt <| frame ::= g |>)
  | ReplyFrame i k => onPath i (fun p => setReply k (g (replyFrame k p)) p)
  end.

Definition onSends (f : ownedSendState -> ownedSendState) : M unit :=
  modify (fun c => c <| sends ::= fmap f |>).

Definition report (a : SendAttempt) : M unit := result_ (fun r => r <| Sends ::= fun l => l ++ [a] |>).
Definition stepFull : M bool := fun s => (Ok (len (Sends (res s)) =? MaxSendsPerStep), s).

(** [c.sendAuth]'s methods, which keep its working state. *)
Definition sendAppend (b : WireV2Bundle.FECBundle) (limit : Z) : M bytes :=
  let! c := reads id in
  match sendAuth c with
  | None => throw (WireErr WireV2.ErrInvalidKey)
  | Some a =>
      let r := WireV2Bundle.Authenticator_AppendFECBundle a [] b (sendLookup c) limit in
      run modify (fun c => c <| sendAuth := Some (snd r) |>) in appended (fst r)
  end.
Definition sendAuthenticate (e : WireV2.Envelope) : M WireV2.AuthenticatedEnvelope :=
  let! a := reads sendAuth in
  match a with
  | None => throw (WireErr WireV2.ErrInvalidKey)
  | Some a =>
      let r := WireV2.Authenticator_Authenticate a e in
      run modify (fun c => c <| sendAuth := Some (snd r) |>) in lift WireErr (fst r)
  end.

(** ** Control packets *)

(** [visit] on every control with a frame, until one stops it. *)
Fixpoint visitAll {A} (l : list (nat * sendSource)) (visit : ownedControl -> M (option A)) : M (option A) :=
  match l with
  | [] => ret None
  | (i, src) :: l =>
      let! v := reads (fun c => controlAt c i src) in
      match v with
      | None => visitAll l visit
      | Some v => let! r := visit v in match r with Some a => ret (Some a) | None => visitAll l visit end
      end
  end.

Definition visitOwnedControls {A} (visit : ownedControl -> M (option A)) : M (option A) :=
  let! c := reads id in
  visitAll (i ← around (controlCursor c) (length (paths c)); src ← sources; [(i, src)]) visit.

Definition failQueuedControl (v : ownedControl) (now : Z) (failure : CtlError) : M unit :=
  let! c := reads id in
  let f := frameAt c (oc_frame v) in
  run report {| at_Type := byte_at 5 (fr_packet f); at_PathID := pathid (paths c !!! oc_path v);
                at_Bytes := len (fr_packet f); at_Err := Some failure |} in
  run onFrame (oc_frame v) (fun f => f <| queued := false |>) in
  match oc_retry v with
  | Some r => onRetry r (fun rt => rt <| next := Some (now + ControlRetry) |>)
  | None => ret tt
  end.

(** Whether a retry may not be sent now. *)
Definition retryIdle (c : Controller) (v : ownedControl) (now : Z) : bool :=
  match oc_retry v with
  | None => false
  | Some r =>
      let rt := retryAt c r in
      negb (pending rt) || negb (Before now (deadline rt)) || (oc_limit v <=? sends_ rt + inflight rt)
      || Before now (next rt)
  end.

Definition residence (c : Controller) (f : controlFrame) : Time := Add (queuedAt f) (MaxQueueResidence (cfg c)).

Definition rotateOwnedContext (now : Z) : M unit :=
  let! c := reads id in
  let state := context c in
  if pending state && negb (queued (frame state)) && negb (dispatched (frame state))
     && (sends_ state + inflight state <? ControlSends) && negb (Before now (next state))
     && Before now (deadline state) then
    let due := next state in
    let! found := firstOf eligible (around (contextPath c) (length (paths c))) in
    match found with
    | Some i =>
        run startEncoding i now in
        onRetry ContextRetry (fun rt => rt <| frame ::= fun f => f <| queuedAt := due |> |>)
    | None => ret tt
    end
  else ret tt.

Definition prepareVisit (now : Z) (v : ownedControl) : M (option unit) :=
  let! c := reads id in
  stop retryIdle c v now with None in
  run (match oc_retry v with
       | Some r =>
           let f := frameAt c (oc_frame v) in
           if negb (queued f) && negb (dispatched f)
           then onFrame (oc_frame v) (fun f => f <| queued := true |> <| queuedAt := next (retryAt c r) |>)
           else ret tt
       | None => ret tt
       end) in
  let! c := reads id in
  let f := frameAt c (oc_frame v) in
  stop negb (queued f) || dispatched f || Before now (residence c f) with None in
  let! full := stepFull in
  if full then ret (Some tt) else
  run failQueuedControl v now ErrSendExpired in ret None.

Definition prepareOwnedControls (now : Z) : M unit :=
  run rotateOwnedContext now in
  let! _r := visitOwnedControls (prepareVisit now) in ret tt.

(** ** Intents *)

Definition installIntent (k : nat) (slot : sendSlot) (i : nat) (snd_ : option Sender) (packet : bytes)
    : M SendIntent :=
  let! c := reads id in
  let t := u64 (nextToken (sendsOf c) + 1) in
  let slot := slot <| token := t |> <| slot_kind := byte_at 5 packet |> <| slot_bytes := len packet |> in
  run onSends (fun s => s <| nextToken := t |> <| slots ::= <[k := slot]> |> <| sn_active ::= fun n => n + 1 |>) in
  run onPath i (fun p => p <| sendToken := t |> <| queuedPackets ::= fun n => n + 1 |>
                           <| queuedBytes ::= fun n => u64 (n + u64 (slot_bytes slot)) |>) in
  fun s =>
    (Ok {| Token := t; in_Type := slot_kind slot; in_PathID := slot_path slot; in_Route := slot_route slot;
           in_Binding := slot_binding slot; in_Sender := snd_; Packet := packet; ExpiresAt := expires slot;
           NativeTiming := native slot |},
     s <| intents ::= <[t := {| is_packet := packet; is_sender := snd_; released := false |}]> |>).

Definition senderFits (v : ownedControl) (e : Env) : bool :=
  match oc_sender v with
  | None => false
  | Some s => Available s e && (Generation s e =? oc_generation v)
  end.

(** [Some None] stops without an intent. *)
Definition takeVisit (now : Z) (k : nat) (v : ownedControl) : M (option (option SendIntent)) :=
  let! c := reads id in
  let f := frameAt c (oc_frame v) in
  let p := paths c !!! oc_path v in
  stop dispatched f || negb (queued f) || (len (fr_packet f) =? 0) || negb (Before now (residence c f))
       || negb (pathCanDispatch c p now (len (fr_packet f))) with None in
  stop retryIdle c v now with None in
  let! fits := asks (senderFits v) in
  if negb fits then
    let! n := fun s => (Ok (len (Sends (res s))), s) in
    run (if n <? MaxSendsPerStep then failQueuedControl v now ErrGenerationReplaced else ret tt) in
    let! full := stepFull in ret (if full then Some None else None)
  else
  let packet := fr_packet f in
  let! envelope := lift WireErr (WireV2.ParseEnvelope packet) in
  let! authenticated := sendAuthenticate envelope in
  let! message := lift WireErr (WireV2Bundle.DecodeEstablished authenticated) in
  let slot := zeroSlot <| slot_path := pathid p |> <| pathGeneration := generation p |>
    <| slot_transport := oc_generation v |> <| slot_binding := oc_binding v |>
    <| slot_route := WireV2Bundle.Established_Route message |> <| native := oc_native v |>
    <| source := oc_source v |> <| slot_version := version f |> <| issued := now |>
    <| expires := residence c f |> in
  let slot := match oc_retry v with
              | Some r => slot <| transaction := rt_id (retryAt c r) |> | None => slot end in
  run (match oc_retry v with
       | Some r => onRetry r (fun rt => rt <| inflight ::= fun n => n + 1 |>) | None => ret tt end) in
  run onFrame (oc_frame v) (fun f => f <| dispatched := true |> <| queued := false |>) in
  let! intent := installIntent k slot (oc_path v) (oc_sender v) packet in
  run modify (fun c => c <| controlCursor := pathid p mod len (paths c) |>) in
  ret (Some (Some intent)).

Definition takeOwnedControl (now : Z) (k : nat) : M (option SendIntent) :=
  let! r := visitOwnedControls (takeVisit now k) in ret (default None r).

(** The frame and the retry that a completed control packet came from. *)
Definition sourceRetry (i : nat) (src : sendSource) : option retryRef :=
  match src with
  | sendJoin => Some (JoinRetry i) | sendBudget_ => Some (BudgetRetry i) | sendContext_ => Some ContextRetry
  | _ => None end.
Definition sourceFrame (i : nat) (src : sendSource) : option frameRef :=
  match src with
  | sendJoin => Some (RetryFrame (JoinRetry i)) | sendBudget_ => Some (RetryFrame (BudgetRetry i))
  | sendContext_ => Some (RetryFrame ContextRetry)
  | sendReply0 => Some (ReplyFrame i 0) | sendReply1 => Some (ReplyFrame i 1) | sendData => None end.

(** The packet was, or may have been, written. *)
Definition attempted (o : SendOutcome) : bool :=
  Invoked o && (negb (AttemptKnown o) || bool_decide (is_Some (StartedAt o))).

Definition completeOwnedControl (slot : sendSlot) (o : SendOutcome) : M unit :=
  let i := Z.to_nat (slot_path slot - 1) in
  let rt := sourceRetry i (source slot) in
  let! c := reads id in
  stop match rt with Some r => negb (rt_id (retryAt c r) =? transaction slot) | None => false end with tt in
  run (match rt with
       | Some r => onRetry r (fun x => x <| inflight ::= fun n => n - 1 |>
                     <| sends_ ::= fun n => if attempted o then n + 1 else n |>)
       | None => ret tt end) in
  match sourceFrame i (source slot) with
  | None => ret tt
  | Some fr =>
      let! f := reads (fun c => frameAt c fr) in
      stop negb (version f =? slot_version slot) with tt in
      run onFrame fr (fun f => f <| dispatched := false |>) in
      run (match rt with
           | Some r => onRetry r (fun x => x <| next := Some (FinishedAt o + ControlRetry) |>)
           | None => ret tt end) in
      modify (fun c =>
        let p := paths c !!! i in
        if (slot_kind slot =? WireV2.TypeEncodingContextAck) && Invoked o && bool_decide (out_Err o = None)
           && (generation p =? WireV2Bundle.Generation (slot_route slot))
           && bool_decide (binding p = slot_binding slot) && (transportGeneration p =? slot_transport slot)
        then c <| receiveAckSent := true |> else c)
  end.

(** ** Data packets *)

(** The next group of the queue. *)
Definition sealNext (now : Z) : M (option Aggregation.Output) := fun s =>
  let c := con s in
  match queue c with
  | None => (Err (QueueErr Aggregation.ErrClosed), s)
  | Some q =>
      let '(r, q, ws, w) := Aggregation.SealWithWorkspace q now (completed c <? forced c) (outputWorkspace c)
                              (spaces s) (ledger s) in
      let s := s <| con ::= fun c => c <| queue := Some q |> |> <| spaces := ws |> <| ledger := w |> in
      match r with Err e => (Err (QueueErr e), s) | Ok o => (Ok o, s) end
  end.

(** The last Datagram that has left the queue. *)
Definition drained (s : St) : Z :=
  match queue (con s) with
  | None => 0
  | Some q => let x := Aggregation.Queue_Snapshot q (ledger s) in
              u64 (u64 (Aggregation.NextDatagramID x - 1) - Aggregation.QueuedDatagrams x)
  end.

(** [c.out.Release()] and [c.out = nil]. *)
Definition releaseOut : M unit := fun s =>
  match out (con s) with
  | None => (Ok tt, s)
  | Some o =>
      let '(_, ws, w) := Aggregation.Output_Release o (spaces s) (ledger s) in
      (Ok tt, s <| con ::= fun c => c <| out := None |> |> <| spaces := ws |> <| ledger := w |>)
  end.

(** The first failure sticks. *)
Definition stick (failure : option CtlError) (c : Controller) : Controller :=
  match failure, sticky c with
  | Some e, None => c <| sticky := Some e |> <| failedFrom := u64 (completed c + 1) |>
  | _, _ => c
  end.

(** Every shard of the group has had its outcome. *)
Definition finishGroup : M unit :=
  run modify (fun c => c <| completed := outThrough c |>) in
  run releaseOut in
  modify (fun c => c <| outNext := 0%nat |>).

Definition completeOwnedShard (k : nat) (failure : option CtlError) : M unit :=
  let! c := reads id in
  stop bool_decide (shardStates (sendsOf c) !!! k = shardTerminal) with tt in
  run onSends (fun s => s <| shardStates ::= <[k := shardTerminal]> |> <| remaining ::= fun n => n - 1 |>) in
  run modify (stick failure) in
  let! c := reads id in
  if remaining (sendsOf c) =? 0
  then run finishGroup in onSends (fun s => s <| groupQueued := None |>)
  else ret tt.

(** The waiting shards expire, as far as the step has room. *)
Fixpoint expireShards (l : list nat) : M unit :=
  match l with
  | [] => ret tt
  | k :: l =>
      let! c := reads id in
      if negb (bool_decide (shardStates (sendsOf c) !!! k = shardWaiting)) then expireShards l else
      let! full := stepFull in
      stop full with tt in
      run report {| at_Type := WireV2.TypeFECBundle; at_PathID := outPaths c !!! k;
                    at_Bytes := packetBytes c; at_Err := Some ErrSendExpired |} in
      run completeOwnedShard k (Some ErrSendExpired) in
      expireShards l
  end.

Definition expireOwnedData (now : Z) : M unit :=
  let! c := reads id in
  stop bool_decide (out c = None)
       || Before now (Add (groupQueued (sendsOf c)) (MaxQueueResidence (cfg c))) with tt in
  expireShards (seq 0 (length (groupShards c))).

Definition driveOwned (now : Z) : M unit :=
  let! c := reads id in
  raise match sends c with None => true | Some s => closing s end with ErrClosed in
  run prepareOwnedControls now in
  run expireOwnedData now in
  let! c := reads id in
  let! rd := ready in
  raise contextAcknowledged c && negb rd && negb (pendingPathWork c) with ErrNoAvailablePaths in
  stop negb rd || bool_decide (is_Some (out c)) with tt in
  let! o := sealNext now in
  match o with
  | None => ret tt
  | Some o =>
      run modify (fun c => c <| out := Some o |>) in
      run modify (fun c => c <| sends ::= fmap (fun s => s <| remaining := len (groupShards c) |>
              <| groupQueued := Some now |> <| cursor := 0%nat |>
              <| shardStates := replicate 256 shardWaiting |>) |>
            <| outPaths := replicate 256 0 |>) in
      fun s => (Ok tt, s <| con ::= fun c => c <| outThrough := drained s |> |>)
  end.

(** The path a waiting shard may take now. *)
Definition dataPath (c : Controller) (e : Env) (k : nat) (now : Z) : nat :=
  let i := preferredOwnedPath c (groupID c) k in
  if eligibleIn c e (paths c !!! i) then i else
  match list_find (fun p => eligibleIn c e p && pathCanDispatch c p now (packetBytes c) = true) (paths c) with
  | Some (j, _) => j
  | None => i
  end.

(** The capacity of the packet is its length: [packetBytes] are reserved and used. *)
Fixpoint takeShards (l : list nat) (now : Z) (slot : nat) : M (option SendIntent) :=
  match l with
  | [] => ret None
  | k :: l =>
      let! c := reads id in
      if negb (bool_decide (shardStates (sendsOf c) !!! k = shardWaiting)) then takeShards l now slot else
      let! i := asks (fun e => dataPath c e k now) in
      let p := paths c !!! i in
      let! ok := eligible i in
      if negb ok || negb (pathCanDispatch c p now (packetBytes c)) then takeShards l now slot else
      let! packet := sendAppend (shardBundle c p k) (sendBudget p) in
      raise negb (pathCanDispatch c p now (len packet)) with ErrInvalid in
      let s := zeroSlot <| slot_path := pathid p |> <| pathGeneration := generation p |>
        <| slot_transport := transportGeneration p |> <| slot_binding := binding p |>
        <| slot_route := route p |> <| native := nativeTiming p |> <| source := sendData |>
        <| shard := k |> <| issued := now |>
        <| expires := Add (groupQueued (sendsOf c)) (MaxQueueResidence (cfg c)) |> in
      let! intent := installIntent slot s i (sender p) packet in
      run modify (fun c => c <| outPaths ::= <[k := pathid p]> |>) in
      run onSends (fun s => s <| shardStates ::= <[k := shardDispatched]> |>
            <| cursor := ((k + 1) mod length (groupShards c))%nat |>) in
      ret (Some intent)
  end.

Definition takeOwnedData (now : Z) (slot : nat) : M (option SendIntent) :=
  let! c := reads id in
  stop bool_decide (out c = None)
       || negb (Before now (Add (groupQueued (sendsOf c)) (MaxQueueResidence (cfg c)))) with None in
  raise match out c with Some o => negb (snd (Aggregation.View o)) | None => true end with ErrInvalid in
  let n := length (groupShards c) in
  takeShards ((fun k => (cursor (sendsOf c) + k) mod n)%nat <$> seq 0 n) now slot.

(** [TakeSend] and [CompleteSend], between [enter] and [leave]. *)
Definition TakeSendBody (now : Z) : M (option SendIntent) :=
  let! c := reads id in
  raise negb (OwnedSends (cfg c)) || bool_decide (sends c = None) with ErrUnsupported in
  run driveOwned now in
  let! c := reads id in
  match freeSendSlot c with
  | None => ret None
  | Some k =>
      raise nextToken (sendsOf c) =? maxUint64 with ErrExhausted in
      let! intent := takeOwnedControl now k in
      match intent with
      | Some i => ret (Some i)
      | None => takeOwnedData now k
      end
  end.

(** The checks of [CompleteSend] on the outcome of a slot. *)
Definition invalidOutcome (slot : sendSlot) (o : SendOutcome) (now : Z) : bool :=
  let known := is_Some (StartedAt o) in
  (FinishedAt o <? issued slot) || (now <? FinishedAt o)
  || (negb (Invoked o) && (bool_decide (out_Err o = None) || bool_decide known))
  || (Invoked o && negb (Bool.eqb (AttemptKnown o) (native slot)))
  || (negb (AttemptKnown o) && bool_decide known)
  || match StartedAt o with Some t => (t <? issued slot) || (FinishedAt o <? t) | None => false end
  || (Invoked o && AttemptKnown o && negb (bool_decide known) && bool_decide (out_Err o = None)).

Definition slotOf (c : Controller) (t : Z) : option nat :=
  if t =? 0 then None else fst <$> list_find (fun s => token s = t) (slots (sendsOf c)).

(** Whether the path still is the one the packet was sent for. *)
Definition samePath (p : pathState) (slot : sendSlot) : bool :=
  match source slot with
  | sendJoin => (jn_generation (join p) =? WireV2Bundle.Generation (slot_route slot))
                && bool_decide (jn_binding (join p) = slot_binding slot)
                && (jn_transport (join p) =? slot_transport slot)
  | _ => (generation p =? pathGeneration slot) && bool_decide (binding p = slot_binding slot)
         && (transportGeneration p =? slot_transport slot)
  end.

Definition CompleteSendBody (now : Z) (k : nat) (o : SendOutcome) : M unit :=
  let! c := reads id in
  let slot := slots (sendsOf c) !!! k in
  let i := Z.to_nat (slot_path slot - 1) in
  run onPath i (fun p => p <| sendToken ::= fun t => if t =? token slot then 0 else t |>
        <| queuedPackets ::= fun n => n - 1 |> <| queuedBytes ::= fun n => u64 (n - u64 (slot_bytes slot)) |>) in
  run onSends (fun s => s <| sn_active ::= fun n => n - 1 |> <| slots ::= <[k := zeroSlot]> |>) in
  run report {| at_Type := slot_kind slot; at_PathID := slot_path slot; at_Bytes := slot_bytes slot;
                at_Err := out_Err o |} in
  let! c := reads id in
  stop closing (sendsOf c) with tt in
  run (if attempted o && samePath (paths c !!! i) slot then
         let at_ := if AttemptKnown o then StartedAt o else Some (FinishedAt o) in
         onPath i (fun p => p <| pacedAt := later (pacedAt p)
                      (Add at_ (serializationTime (rate p) (slot_binding slot) (slot_bytes slot))) |>)
       else ret tt) in
  run (match source slot with
       | sendData => completeOwnedShard (shard slot) (out_Err o)
       | _ => completeOwnedControl slot o
       end) in
  driveOwned now.

(** [Release] of an intent: the adapter is done with the packet. *)
Definition ReleaseIntent (t : Z) (s : St) : St :=
  s <| intents ::= alter (fun i => {| is_packet := []; is_sender := None; released := true |}) t |>.

(** When an owned group next has something to do. *)
Definition ownedDataDeadline (c : Controller) (e : Env) (capacity : bool) : Time :=
  match out c with
  | None => None
  | Some _ =>
      let available := capacity && bool_decide (is_Some (freeSendSlot c)) in
      let include (n a : Time) := if bool_decide (n = None) || After n a then a else n in
      foldl (fun n k =>
        if negb (bool_decide (shardStates (sendsOf c) !!! k = shardWaiting)) then n else
        let n := include n (Add (groupQueued (sendsOf c)) (MaxQueueResidence (cfg c))) in
        if negb available then n else
        let p := paths c !!! preferredOwnedPath c (groupID c) k in
        if eligibleIn c e p then
          if sendToken p =? 0 then include n (later (last c) (pacedAt p)) else n
        else foldl (fun n q => if eligibleIn c e q && (sendToken q =? 0)
                               then include n (later (last c) (pacedAt q)) else n) n (paths c))
        None (seq 0 (length (groupShards c)))
  end.
End sending.
