(* ===== verification/SessionV2Data.v ===== *)
(** * FEC bundles of a version 2 Session ([data.go])

    [driveData] seals groups of the queue and sends their shards in turn over the
    eligible paths.  [receiveBundle] collects the shards of authenticated groups, kept
    in admission order as a linked list, decodes a group when enough have arrived, and
    gives its fragments to the reassembly. *)

From S2P Require Import Prelude CreditScope SessionV2Types SessionV2Control SessionV2Send.
From S2P Require Credit FecV2 RecvWindow Negotiation WireV2 WireV2Bundle Handshake Aggregation Reassembly Fec.

Definition receiveLookup (c : Controller) : WireV2Bundle.ContextLookup :=
  Some (fun epoch => if receiveAckSent c && (epoch =? WireV2Bundle.Epoch (receiveContext c))
                     then Some (receiveContext c) else None).

(** The linked list of groups. *)
Definition insertGroup (i : Z) (g : pendingGroup) (c : Controller) : Controller :=
  let g := g <| previous := groupTail c |> in
  let c := if groupTail c =? 0 then c <| groupHead := i |>
           else c <| groups ::= alter (fun t => t <| gr_next := i |>) (groupTail c) |> in
  c <| groupTail := i |> <| groups ::= <[i := g]> |>.

Definition unlinkGroup (i : Z) (c : Controller) : Controller :=
  let g := groups c !!! i in
  let c := if previous g =? 0 then c <| groupHead := gr_next g |>
           else c <| groups ::= alter (fun t => t <| gr_next := gr_next g |>) (previous g) |> in
  let c := if gr_next g =? 0 then c <| groupTail := previous g |>
           else c <| groups ::= alter (fun t => t <| previous := previous g |>) (gr_next g) |> in
  let c := c <| groups ::= delete i |> in
  if bool_decide (is_Some (fragments g)) then c <| decodedGroups := decodedGroups c - 1 |> else c.

Definition groupDue (c : Controller) (g : pendingGroup) (now : Z) : bool :=
  negb (now <? admitted g + GroupTimeout (cfg c)).

Definition count (f : ReceiveCounters -> ReceiveCounters) (c : Controller) : Controller :=
  c <| receiveCounters ::= f |>.
Definition inc (n : Z) : Z := u64 (n + 1).

Section data.
Context `{L : Ledger} `{K : Links} `{Y : Layout} `{Fec.ReedSolomon}.

(** ** Sending *)

Definition eligiblePaths (c : Controller) (e : Env) : list Z :=
  pathid <$> filter (fun p => eligibleIn c e p = true) (paths c).

(** Seal the next group and place its shards; [false] when there is none. *)
Definition sealData (now : Z) : M bool :=
  let! c := reads id in
  let! active := asks (eligiblePaths c) in
  raise bool_decide (active = []) with ErrNotReady in
  let! o := sealNext now in
  match o with
  | None => ret false
  | Some o =>
      run modify (fun c => c <| out := Some o |> <| outNext := 0%nat |>) in
      run modify (fun c =>
        let n := length (groupShards c) in
        c <| outPaths := ((fun i => active !!! Z.to_nat ((groupID c mod len active + Z.of_nat i) mod len active))
                          <$> seq 0 n) ++ drop n (outPaths c) |>) in
      fun s => (Ok true, s <| con ::= fun c => c <| outThrough := drained s |> |>)
  end.

Definition pathIndex (n : Z) : nat := Z.to_nat (n - 1).

(** The path of the next shard: its own if eligible, or the first that is. *)
Definition reroute : M (option nat) :=
  let! c := reads id in
  let i := pathIndex (outPaths c !!! outNext c) in
  let! ok := eligible i in
  if ok then ret (Some i) else
  let! found := firstOf eligible (indices c) in
  match found with
  | Some j => run modify (fun c => c <| outPaths ::= <[outNext c := pathid (paths c !!! j)]> |>) in ret (Some j)
  | None => ret None
  end.

(** One iteration of the loop: [true] to go on. *)
Definition dataStep (now : Z) : M bool :=
  let! c := reads id in
  let! more := (if bool_decide (out c = None) then sealData now else ret true) in
  stop negb more with false in
  let! c := reads id in
  raise match out c with Some o => negb (snd (Aggregation.View o)) | None => true end with ErrInvalid in
  stop Before now (pacedAt (paths c !!! pathIndex (outPaths c !!! outNext c))) with false in
  let! found := reroute in
  match found with
  | None => throw ErrNotReady
  | Some i =>
      let! c := reads id in
      let p := paths c !!! i in
      let! packet := sendAppend (shardBundle c p (outNext c)) (sendBudget p) in
      let! sent := emit i (sender p) (binding p) packet now in
      stop negb sent with false in
      run (fun s => (Ok tt, s <| con ::= stick (match list.last (Sends (res s)) with
                                                | Some a => at_Err a | None => None end) |>)) in
      run modify (fun c => c <| outNext ::= S |>) in
      let! c := reads id in
      run (if (outNext c =? length (groupShards c))%nat then finishGroup else ret tt) in
      ret true
  end.

(** Each iteration that goes on has sent a packet, so [MaxSendsPerStep] iterations are
    enough ([driveData_enough] in [SessionV2Frames]). *)
Fixpoint dataLoop (fuel : nat) (now : Z) : M unit :=
  match fuel with
  | O => ret tt
  | S fuel => fun s =>
      if len (Sends (res s)) <? MaxSendsPerStep
      then (let! more := dataStep now in if more then dataLoop fuel now else ret tt) s
      else (Ok tt, s)
  end.
Definition driveData (now : Z) : M unit := dataLoop (Z.to_nat MaxSendsPerStep) now.

(** ** Groups *)

(** A call of the ledger on the lease of a group. *)
Definition releaseLease (l : option Ptr) : M unit := onLedger (fun w => (tt, Release l w)).

Definition releaseGroup (i : Z) : M unit :=
  let! g := reads (fun c => groups c !!! i) in
  run modify (unlinkGroup i) in
  releaseLease (lease g).

Definition finishWindow (i : Z) (st : RecvWindow.Status) : M unit :=
  modify (fun c => c <| groupWindow ::= fmap (fun w => snd (RecvWindow.Finish w i st)) |>).

Definition expireGroup (i : Z) : M unit :=
  run finishWindow i RecvWindow.Expired in
  run modify (count (fun k => k <| ExpiredGroups ::= inc |>)) in
  releaseGroup i.

(** The head expires while it is due; the list has at most as many groups as the table. *)
Fixpoint expireLoop (fuel : nat) (now : Z) : M unit :=
  match fuel with
  | O => ret tt
  | S fuel =>
      let! c := reads id in
      stop groupHead c =? 0 with tt in
      stop negb (groupDue c (groups c !!! groupHead c) now) with tt in
      run expireGroup (groupHead c) in expireLoop fuel now
  end.
Definition expireGroups (now : Z) : M unit :=
  let! n := reads (fun c => size (groups c)) in expireLoop n now.

Definition pendingGroupMetadataBytes : Z := sizeofPendingGroup + 64.

Definition reserveGroup (r : WireV2Bundle.FECRecord) (now : Z) : M pendingGroup :=
  let! c := reads id in
  raise Z.of_nat (size (groups c)) =? MaxPendingGroups (cfg c) with CreditErr Credit.ErrResourceLimit in
  let x := receiveContext c in
  let n := WireV2Bundle.DataShards x + WireV2Bundle.ParityShards x in
  let charge := u64 (2 * n * WireV2Bundle.ShardBytes x + WireV2Bundle.MaxLogicalBytes x
                     + 2 * n * sizeofSlice + WireV2Bundle.MaxDescriptors x * sizeofFragment
                     + pendingGroupMetadataBytes) in
  let! l := onLedger (Reserve (scope c) (bytesOnly charge)) in
  let! l := lift CreditErr l in
  ret {| logical := WireV2Bundle.LogicalBytes r; gr_context := x; admitted := now;
         shards := replicate (Z.to_nat n) None; present := 0; fragments := None; lease := Some l;
         previous := 0; gr_next := 0 |}.

Definition onGroup (i : Z) (f : pendingGroup -> pendingGroup) : M unit :=
  modify (fun c => c <| groups ::= alter f i |>).

(** [c.originals.AddGroup]; a nil Receiver answers as the zero one. *)
Definition addOriginals (now : Z) (fs : list FecV2.Fragment)
    : M (result Reassembly.ReceiverError (list Reassembly.Datagram)) := fun s =>
  let '(r, o, w) := Reassembly.AddGroup (default Reassembly.zeroReceiver (originals (con s))) now fs (ledger s) in
  (Ok r, s <| con ::= fun c => c <| originals ::= fmap (fun _ => o) |> |> <| ledger := w |>).

Definition admitOriginals (i : Z) (now : Z) : M unit :=
  let! g := reads (fun c => groups c !!! i) in
  let! r := addOriginals now (default [] (fragments g)) in
  match r with
  | Err e =>
      if isResourceLimit (ReceiverErr e) then
        modify (fun c => count (fun k => k <| OriginalAdmissionRejections ::= inc |>)
                           (c <| retryStorage := Some (now + millisecond) |>))
      else run expireGroup i in throw (ReceiverErr e)
  | Ok ds =>
      run result_ (fun r => r <| Deliveries ::= fun l => l ++ ds |>) in
      run finishWindow i RecvWindow.Completed in
      run modify (count (fun k => k <| CompletedGroups ::= inc |>)) in
      releaseGroup i
  end.

(** Enough shards are there. *)
Definition decodeGroup (i : Z) (now : Z) : M unit :=
  let! c := reads id in
  let g := groups c !!! i in
  let decoded := match receiveCodec c with
                 | Some k => FecV2.Decode k (logical g) (shards g)
                 | None => Err FecV2.ErrInvalid end in
  match decoded with
  | Err e => run expireGroup i in throw (GroupErr e)
  | Ok fs =>
      run modify (count (fun k => k <| DecodedGroups ::= inc |>)) in
      run onGroup i (fun g => g <| shards := [] |> <| fragments := Some fs |>) in
      run modify (fun c => c <| decodedGroups := decodedGroups c + 1 |>) in
      let retained := u64 (logical g + len fs * sizeofFragment + pendingGroupMetadataBytes) in
      let! e := onLedger (ShrinkBytes (lease g) retained) in
      match e with
      | Some e => run expireGroup i in throw (CreditErr e)
      | None => admitOriginals i now
      end
  end.

(** A group that is not known yet; [false] when the record is to be skipped. *)
Definition openGroup (r : WireV2Bundle.FECRecord) (restricted : bool) (now : Z) : M bool :=
  let i := WireV2Bundle.GroupID r in
  let! c := reads id in
  if bool_decide (is_Some (groups c !! i)) then ret true else
  stop restricted || negb (bool_decide
         (RecvWindow.State (default RecvWindow.zeroWindow (groupWindow c)) i = RecvWindow.Unseen)) with false in
  let! g := attempt (reserveGroup r now) in
  match g with
  | Err e =>
      run (if isResourceLimit e then modify (count (fun k => k <| NewGroupRejections ::= inc |>)) else ret tt) in
      throw e
  | Ok g =>
      run modify (fun c => c <| groupWindow ::= fmap (fun w => snd (RecvWindow.Admit w i)) |>) in
      run modify (insertGroup i g) in
      ret true
  end.

Definition receiveRecord (r : WireV2Bundle.FECRecord) (restricted : bool) (now : Z) : M unit :=
  let i := WireV2Bundle.GroupID r in
  let! known := openGroup r restricted now in
  stop negb known with tt in
  let! c := reads id in
  let g := groups c !!! i in
  if groupDue c g now then expireGroup i else
  raise negb (logical g =? WireV2Bundle.LogicalBytes r)
        || negb (WireV2Bundle.Epoch (gr_context g) =? WireV2Bundle.EncodingEpoch r) with ErrProtocol in
  if bool_decide (is_Some (fragments g)) then admitOriginals i now else
  let k := Z.to_nat (WireV2Bundle.Record_ShardIndex r) in
  match shards g !!! k with
  | Some before => raise negb (bool_decide (before = WireV2Bundle.Record_Payload r)) with ErrProtocol in ret tt
  | None =>
      run onGroup i (fun g => g <| shards ::= <[k := Some (WireV2Bundle.Record_Payload r)]> |>
                              <| present := present g + 1 |>) in
      if WireV2Bundle.DataShards (gr_context g) <=? present g + 1 then decodeGroup i now else ret tt
  end.

Definition receiveBundle (now : Z) (e : WireV2.AuthenticatedEnvelope) (limit : Z) (restricted : bool) : M unit :=
  run modify (count (fun k => k <| ReceivedFECBundles ::= inc |>)) in
  let! c := reads id in
  raise negb (receiveAckSent c) with ErrNotReady in
  let! bundle := lift WireErr (WireV2Bundle.DecodeFECBundle e (receiveLookup c) limit) in
  each (WireV2Bundle.Records bundle) (fun r => receiveRecord r restricted now).

(** The decoded groups that wait for storage, in the order of the iteration. *)
Definition retryGroups (now : Z) : M unit :=
  let! c := reads id in
  stop (decodedGroups c =? 0) || Before now (retryStorage c) with tt in
  let! order := asks (fun e => iteration e (groups c)) in
  each order (fun i =>
    let! c := reads id in
    match groups c !! i with
    | Some g => if bool_decide (is_Some (fragments g)) then admitOriginals i now else ret tt
    | None => ret tt
    end).

(** ** Statistics *)

Definition ReceiveCounters_Add (c other : ReceiveCounters) : ReceiveCounters := {|
  ReceivedFECBundles := u64 (ReceivedFECBundles c + ReceivedFECBundles other);
  PacketScratchRejections := u64 (PacketScratchRejections c + PacketScratchRejections other);
  NewGroupRejections := u64 (NewGroupRejections c + NewGroupRejections other);
  OriginalAdmissionRejections := u64 (OriginalAdmissionRejections c + OriginalAdmissionRejections other);
  DecodedGroups := u64 (DecodedGroups c + DecodedGroups other);
  CompletedGroups := u64 (CompletedGroups c + CompletedGroups other);
  ExpiredGroups := u64 (ExpiredGroups c + ExpiredGroups other) |}.

Record ReceiveStatisticsT := {
  rs_Counters : ReceiveCounters; PendingGroups : Z; DecodedPendingGroups : Z; PendingOriginals : Z }.
Definition ReceiveStatistics (c : Controller) : ReceiveStatisticsT := {|
  rs_Counters := receiveCounters c; PendingGroups := Z.of_nat (size (groups c));
  DecodedPendingGroups := decodedGroups c;
  PendingOriginals := match originals c with
                      | Some r => Reassembly.Pending (Reassembly.Receiver_Snapshot r) | None => 0 end |}.
End data.
