(* ===== verification/SessionV2.v ===== *)
(** * The Controller of a version 2 Datagram Session ([controller.go], [types.go])

    Construction from prepaid leases, the entry points of the owner, and closing.  An
    entry point is [entered]: it refuses a closed, reentrant or backwards call, runs its
    body, and completes the Result as [leave] does. *)

From S2P Require Import Prelude CreditScope SessionV2Types SessionV2Control SessionV2Send SessionV2Data.
From S2P Require Credit FecV2 RecvWindow Negotiation Transcript WireV2 WireV2Bundle Handshake.
From S2P Require Aggregation Reassembly Fec.
Import WireV2 (zero16, zero32).

(** ** Configuration *)

Definition validBinding (b : Binding) : bool :=
  let l := Handshake.Local b in
  let r := Handshake.Remote b in
  negb (bool_decide (Handshake.addr l = Handshake.NoAddr))
  && negb (bool_decide (Handshake.addr r = Handshake.NoAddr))
  && negb (Handshake.SocketID b =? 0) && negb (Handshake.port l =? 0) && negb (Handshake.port r =? 0)
  && negb (Handshake.IsUnspecified (Handshake.addr l)) && negb (Handshake.IsUnspecified (Handshake.addr r))
  && negb (Handshake.IsMulticast (Handshake.addr l)) && negb (Handshake.IsMulticast (Handshake.addr r))
  && bool_decide (Handshake.addr l = Handshake.Unmap (Handshake.addr l))
  && bool_decide (Handshake.addr r = Handshake.Unmap (Handshake.addr r)).

Definition validateConfig (c : Config) : option CtlError :=
  let p := LocalProfile c in
  let d := Negotiation.DatagramL p in
  match Negotiation.Validate p with
  | Some e => Some (NegotiationErr e)
  | None =>
  if negb (Negotiation.Protocol p =? Negotiation.Datagram)
     || negb (Negotiation.Discovery p =? Negotiation.Fixed)
     || negb (Negotiation.Scope p =? Negotiation.SessionBudget)
     || negb (Negotiation.Mux p =? Negotiation.MuxOff)
     || negb (Z.ldiff (Negotiation.OfferedCaps p)
                      (Z.lor Negotiation.FragmentManifest Negotiation.Aggregation) =? 0)
     || negb (bool_decide (Negotiation.Repair p = Negotiation.zeroRepairLimits))
  then Some ErrUnsupported else
  if cfg_Aggregation c && (Z.land (Negotiation.OfferedCaps p) Negotiation.Aggregation =? 0)
  then Some ErrUnsupported else
  if (FixedPayloadBudget c <? 512) || (Negotiation.SendHardCap (Negotiation.Payload p) <? FixedPayloadBudget c)
     || (MaxGroupBytes c <? 24) || (FecV2.MaxLogicalBytes <? MaxGroupBytes c)
     || (MaxPendingGroups c <? 1) || (65536 <? MaxPendingGroups c)
     || (Negotiation.GroupWindow d <? MaxPendingGroups c)
     || (GroupTimeout c <? 100 * millisecond) || (60 * second <? GroupTimeout c)
  then Some ErrInvalid else
  if negb (Reassembly.Span (cfg_Reassembly c) =? Negotiation.DatagramWindow d)
     || (Negotiation.MaxDatagramAssemblies d <? Reassembly.MaxDatagrams (cfg_Reassembly c))
     || negb (Reassembly.lim_MaxDatagramBytes (cfg_Reassembly c) =? Negotiation.MaxDatagramBytes d)
     || negb (Reassembly.MaxFragments (cfg_Reassembly c) =? Negotiation.MaxFragments d)
  then Some ErrInvalid else
  if existsb (fun '(id, rt) => (id =? 0) || (Negotiation.MaxPaths p <? id) || (rt <? 1000)
                               || (1000000000000 <? rt)) (map_to_list (PathRatesBPS c))
  then Some ErrInvalid else
  if OwnedSends c
     && ((MaxInFlightSends c <? 1) || (32 <? MaxInFlightSends c) || (MaxPathQueuedPackets c <? 1)
         || (4096 <? MaxPathQueuedPackets c) || (MaxPathQueuedBytes c <? 512)
         || (Credit.MaxRetainedBytes <? MaxPathQueuedBytes c) || (MaxQueueResidence c <=? 0)
         || (100 * millisecond <? MaxQueueResidence c))
  then Some ErrInvalid else None
  end.

Definition AuthenticatorStateBytes : Z := 4096.

Definition asError {E A} (inj : E -> CtlError) (r : result E A) : result CtlError A :=
  match r with Ok a => Ok a | Err e => Err (inj e) end.

(** The six byte claims, in the order of the [Initial*] indexes. *)
Definition requiredInitialClaims `{Layout} (c : Config) : result CtlError (list Z) :=
  check validateConfig c in
  let? queueBytes := asError QueueErr (Aggregation.RequiredInitialBytes (cfg_Queue c)) in
  let? originalBytes := asError ReceiverErr (Reassembly.RequiredInitialBytes (cfg_Reassembly c)) in
  let p := LocalProfile c in
  let n := Negotiation.DataShards p + Negotiation.ParityShards p in
  let stateBytes := u64 (sizeofController + Negotiation.MaxPaths p * sizeofPathState + 16 * n * n
                         + 512 * n + 16384 + 2 * AuthenticatorStateBytes) in
  let receiveBytes := u64 (Negotiation.ReceiveHardCap (Negotiation.Payload p)
                           + WireV2Bundle.MaxFECRecords * sizeofFECRecord) in
  let? outputBytes := asError QueueErr
                        (Aggregation.RequiredOutputWorkspaceBytes n (FixedPayloadBudget c - 94)) in
  let assemblyBytes := u64 (2 * FixedPayloadBudget c) in
  let slots := Z.min (MaxInFlightSends c) (Negotiation.MaxPaths p) in
  let '(stateBytes, assemblyBytes) :=
    if OwnedSends c then
      (u64 (stateBytes + sizeofOwnedSendState + slots * sizeofSendSlot),
       u64 (slots * (assemblyBytes + sizeofSendIntent + sizeofIntentState)))
    else (stateBytes, assemblyBytes) in
  Ok [queueBytes; originalBytes; 16 * ((Negotiation.GroupWindow (Negotiation.DatagramL p) + 63) / 64);
      u64 (stateBytes + receiveBytes); outputBytes; assemblyBytes].

(** ** Construction *)

Definition min_queue (q : Aggregation.Limits) (d : Negotiation.DatagramLimits) : Aggregation.Limits := {|
  Aggregation.MaxQueuedDatagrams := Aggregation.MaxQueuedDatagrams q;
  Aggregation.MaxQueuedBytes := Aggregation.MaxQueuedBytes q;
  Aggregation.MaxDatagramBytes := Z.min (Aggregation.MaxDatagramBytes q) (Negotiation.MaxDatagramBytes d);
  Aggregation.MaxFragmentsPerDatagram :=
    Z.min (Aggregation.MaxFragmentsPerDatagram q) (Negotiation.MaxFragments d);
  Aggregation.MaxDelay := Aggregation.MaxDelay q |}.

(** What [New] derives before it takes a lease: the configuration cut to the contract,
    the peer's profile, the number of paths and the sending context. *)
Record plan := { pl_cfg : Config; pl_remote : Negotiation.Profile; pl_paths : Z;
                 pl_context : WireV2Bundle.EncodingContext }.

Definition sendContextOf (p : Negotiation.Profile) (budget descriptors groupBytes : Z)
    : WireV2Bundle.EncodingContext := {|
  WireV2Bundle.Epoch := 1; WireV2Bundle.LayoutID := 1; WireV2Bundle.ProtectionID := 1;
  WireV2Bundle.DataShards := Negotiation.DataShards p; WireV2Bundle.ParityShards := Negotiation.ParityShards p;
  WireV2Bundle.ShardBytes := u16 (budget - 94); WireV2Bundle.MaxDescriptors := descriptors;
  WireV2Bundle.MaxLogicalBytes := Z.min groupBytes (u32 (Negotiation.DataShards p * u16 (budget - 94))) |}.

(** The carriers of an initiator are its paths, in order. *)
Definition carriersMatch (l : list Carrier) : bool :=
  forallb (fun '(i, c) => (car_PathID c =? Z.of_nat i + 1) && validBinding (car_Binding c)
                          && bool_decide (is_Some (car_Sender c))) (imap (fun i c => (i, c)) l).

Definition planNew (s : Handshake.Setup) (c : Config) : result CtlError plan :=
  let k := default zeroContract (Handshake.setup_Contract s) in
  let role := Handshake.setup_Role s in
  match Negotiation.Profiles k role with
  | Err _ => Err ErrInvalid
  | Ok (local, remote) =>
      fail negb (bool_decide (local = LocalProfile c)) || bool_decide (Handshake.ID s = zero16)
           || negb (Handshake.PathID s =? Negotiation.Contract_BootstrapPathID k)
           || negb (validBinding (Handshake.setup_Binding s)) || bool_decide (BootstrapPath c = None)
           || (negb (OwnedSends c) && negb (hasEmit c)) || negb (hasEntropy c)
           || negb (length (Handshake.Initial s) =? InitialCount)%nat
           || bool_decide (Handshake.setup_Scope s = None) with ErrInvalid in
      let pathCount := Z.min (Negotiation.MaxPaths local) (Negotiation.MaxPaths remote) in
      fail negb (Negotiation.Contract_MaxPaths k =? pathCount) || (Handshake.PathID s =? 0)
           || (pathCount <? Handshake.PathID s) with ErrInvalid in
      fail cfg_Aggregation c && (Z.land (Negotiation.ActiveCaps k) Negotiation.Aggregation =? 0)
        with ErrUnsupported in
      let? direction := asError NegotiationErr (Negotiation.EffectiveSend k role (cfg_SendLimits c)) in
      let budget := Z.min (FixedPayloadBudget c) (Negotiation.MaxUDPPayload direction) in
      fail OwnedSends c && (MaxPathQueuedBytes c <? budget) with ErrInvalid in
      let dir := Negotiation.Dir_Datagram direction in
      let descriptors := if cfg_Aggregation c
        then Z.min (Negotiation.MaxDescriptors (Negotiation.Send_Datagram (cfg_SendLimits c)))
                   (Negotiation.MaxDescriptors dir) else 1 in
      let context := sendContextOf local budget descriptors (MaxGroupBytes c) in
      check WireErr <$> WireV2Bundle.Validate context in
      fail (match role with Negotiation.Initiator => true | _ => false end)
           && (negb (len (Carriers c) =? Negotiation.MaxPaths local) || negb (carriersMatch (Carriers c)))
        with ErrInvalid in
      Ok {| pl_cfg := c <| FixedPayloadBudget := budget |> <| cfg_Queue := min_queue (cfg_Queue c) dir |>;
            pl_remote := remote; pl_paths := pathCount; pl_context := context |}
  end.

(** The path states; the bootstrap path is active. *)
Definition newPath (c : Config) (initiator : bool) (i : nat) : pathState :=
  zeroPath <| pathid := Z.of_nat i + 1 |>
    <| rate := match PathRatesBPS c !! (Z.of_nat i + 1) with
               | Some r => if r =? 0 then DefaultPathRateBPS else r | None => DefaultPathRateBPS end |>
    <| configured := if initiator then nth i (Carriers c) zeroCarrier else zeroCarrier |>.

Definition bootstrap (b : Binding) (snd_ : option Sender) (g : Z) (nat_ : bool) (p : pathState) : pathState :=
  p <| active := true |> <| generation := 1 |> <| floor := 1 |> <| binding := b |> <| sender := snd_ |>
    <| transportGeneration := g |> <| nativeTiming := nat_ |> <| sendBudget := 512 |>
    <| receiveBudget := 512 |> <| sendEpoch := 1 |> <| receiveEpoch := 1 |>.

(** The Controller before its components. *)
Definition bare (s : Handshake.Setup) (p : plan) : Controller :=
  let keys := Handshake.Keys s in
  let responder := match Handshake.setup_Role s with Negotiation.Responder => true | _ => false end in
  zeroController <| setup := s |> <| cfg := pl_cfg p |> <| remote := pl_remote p |> <| accepting := true |>
    <| sendContext := pl_context p |> <| contextPath := Handshake.PathID s |>
    <| sendKey := if responder then Transcript.ServerToClient keys else Transcript.ClientToServer keys |>
    <| receiveKey := if responder then Transcript.ClientToServer keys else Transcript.ServerToClient keys |>.

Section operations.
Context `{L : Ledger} `{K : Links} `{Y : Layout} `{Fec.ReedSolomon}.

(** [setup.Scope.BindBytes(setup.Initial[i], claims[i].Bytes)] *)
Definition bindInitial (s : Handshake.Setup) (i : nat) (claims : list Z) : M Ptr :=
  let! r := onLedger (BindBytes (Handshake.setup_Scope s) (Handshake.Initial s !! i) (claims !!! i)) in
  lift CreditErr r.

Definition newQueue (addr : Ptr) (s : Handshake.Setup) (p : plan) : M unit := fun st =>
  let q := cfg_Queue (pl_cfg p) in
  let epoch := {| Aggregation.EpochID := 1;
                  Aggregation.EpochParameters := parameters (pl_context p) (Aggregation.MaxDatagramBytes q) |} in
  match Aggregation.NewPrepaid addr (Handshake.setup_Scope s) q epoch
          (Handshake.Initial s !! InitialQueue) (ledger st) with
  | (Err e, w) => (Err (QueueErr e), st <| ledger := w |>)
  | (Ok x, w) => (Ok tt, st <| con ::= fun c => c <| queue := Some x |> |> <| ledger := w |>)
  end.

Definition newWorkspace (s : Handshake.Setup) : M unit := fun st =>
  match queue (con st) with
  | None => (Err (QueueErr Aggregation.ErrClosed), st)
  | Some q =>
      let '(r, ws, w) := Aggregation.NewPrepaidOutputWorkspace q (Handshake.Initial s !! InitialOutput)
                           (spaces st) (ledger st) in
      let st := st <| spaces := ws |> <| ledger := w |> in
      match r with
      | Err e => (Err (QueueErr e), st)
      | Ok x => (Ok tt, st <| con ::= fun c => c <| outputWorkspace := Some x |> |>)
      end
  end.

Definition newOriginals (s : Handshake.Setup) (p : plan) : M unit := fun st =>
  match Reassembly.NewPrepaid (Handshake.setup_Scope s) (cfg_Reassembly (pl_cfg p))
          (Handshake.Initial s !! InitialOriginalWindow) (ledger st) with
  | (Err e, w) => (Err (ReceiverErr e), st <| ledger := w |>)
  | (Ok x, w) => (Ok tt, st <| con ::= fun c => c <| originals := Some x |> |> <| ledger := w |>)
  end.

(** The components, in the order of the source. *)
Definition construct (addr : Ptr) (s : Handshake.Setup) (p : plan) (claims : list Z) : M unit :=
  let! c := reads id in
  let! a := lift WireErr (WireV2.NewAuthenticator (sendKey c)) in
  run modify (fun c => c <| sendAuth := Some a |>) in
  let! a := lift WireErr (WireV2.NewAuthenticator (receiveKey c)) in
  run modify (fun c => c <| receiveAuth := Some a |>) in
  let! l := bindInitial s InitialGroupWindow claims in
  let window := match RecvWindow.New (Negotiation.GroupWindow (Negotiation.DatagramL (LocalProfile (cfg c)))) with
                | Ok w => Some w | Err _ => None end in
  run modify (fun c => c <| groupWindowLease := Some l |> <| groupWindow := window |>) in
  run newQueue addr s p in
  run newWorkspace s in
  let! l := bindInitial s InitialAssembly claims in
  run modify (fun c => c <| assemblyLease := Some l |>) in
  run newOriginals s p in
  let initiator := isInitiator c in
  run modify (fun c => c <| paths := newPath (cfg c) initiator <$> seq 0 (Z.to_nat (pl_paths p)) |>
        <| sends := if OwnedSends (cfg c)
                    then Some (noSends <| slots := replicate (Z.to_nat
                                 (Z.min (MaxInFlightSends (cfg c)) (pl_paths p))) zeroSlot |>)
                    else None |>) in
  let! '(snd_, g, nat_) := boundSender (Handshake.setup_Binding s) (BootstrapPath (cfg c)) in
  run onPath (pathIndex (Handshake.PathID s)) (bootstrap (Handshake.setup_Binding s) snd_ g nat_) in
  modify (fun c => c <| cfg ::= fun f => f <| Carriers := [] |> <| PathRatesBPS := ∅ |> |>
                     <| setup := {| Handshake.ID := Handshake.ID s; Handshake.setup_DialID := Handshake.setup_DialID s;
                          Handshake.setup_Role := Handshake.setup_Role s; Handshake.PathID := Handshake.PathID s;
                          Handshake.setup_Binding := Handshake.setup_Binding s;
                          Handshake.setup_Contract := Handshake.setup_Contract s;
                          Handshake.Keys := Handshake.Keys s; Handshake.setup_Scope := Handshake.setup_Scope s;
                          Handshake.Receive_claim := Handshake.Receive_claim s; Handshake.Initial := [] |} |>).

(** ** Closing *)

Definition BeginClose (c : Controller) : Controller :=
  if closed c then c else
  c <| closed := true |> <| accepting := false |> <| sends ::= fmap (fun s => s <| closing := true |>) |>.

Definition closeQueue : M unit := fun s =>
  match queue (con s) with
  | None => (Ok tt, s)
  | Some q => let '(q, w) := Aggregation.Close q (ledger s) in
              (Ok tt, s <| con ::= fun c => c <| queue := Some q |> |> <| ledger := w |>)
  end.
Definition closeOriginals : M unit := fun s =>
  match originals (con s) with
  | None => (Ok tt, s)
  | Some r => let '(r, w) := Reassembly.Close r (ledger s) in
              (Ok tt, s <| con ::= fun c => c <| originals := Some r |> |> <| ledger := w |>)
  end.
Definition closeWorkspace : M unit := fun s =>
  match outputWorkspace (con s) with
  | None => (Ok tt, s)
  | Some x => let '(ws, w) := Aggregation.Workspace_Close x (spaces s) (ledger s) in
              (Ok tt, s <| con ::= fun c => c <| outputWorkspace := None |> |> <| spaces := ws |>
                        <| ledger := w |>)
  end.

(** The assignments that end [FinalizeClose]. *)
Definition erased (c : Controller) : Controller :=
  c <| groups := ∅ |> <| assemblyLease := None |> <| paths := [] |> <| receiveCodec := None |>
    <| context := zeroRetry |> <| sendAuth := None |> <| receiveAuth := None |> <| sendKey := zero32 |>
    <| receiveKey := zero32 |> <| groupWindowLease := None |> <| controlLease := None |> <| queue := None |>
    <| originals := None |> <| groupWindow := None |> <| cfg := zeroConfig |> <| setup := zeroSetup |>
    <| remote := zeroProfile |> <| sendContext := zeroContext |> <| receiveContext := zeroContext |>
    <| sends := None |>.

Definition FinalizeClose : M unit :=
  let! c := reads id in
  stop finalized c with tt in
  raise negb (closed c) with ErrInvalid in
  raise negb (PendingSends c =? 0) with ErrSendPending in
  run modify (fun c => c <| finalized := true |>) in
  run closeQueue in
  run closeOriginals in
  let! order := fun s => (Ok (iteration (env s) (groups (con s))), s) in
  run each order releaseGroup in
  run releaseOut in
  run closeWorkspace in
  run releaseLease (assemblyLease c) in
  run releaseLease (groupWindowLease c) in
  run releaseLease (controlLease c) in
  modify erased.

Definition Close (s : St) : St :=
  snd (FinalizeClose (s <| con ::= BeginClose |>)).

(** [New]: on an error after the first lease the Controller is closed again. *)
Definition New (addr : Ptr) (s : Handshake.Setup) (cf : Config) : M unit := fun st =>
  match requiredInitialClaims cf with
  | Err e => (Err e, st)
  | Ok claims =>
  match planNew s cf with
  | Err e => (Err e, st)
  | Ok p =>
      let c := bare s p in
      if bool_decide (sendKey c = zero32) || bool_decide (receiveKey c = zero32) then (Err ErrInvalid, st) else
      match bindInitial s InitialControl claims (st <| con := c |>) with
      | (Err e, st) => (Err e, st)
      | (Ok l, st) =>
          match (run modify (fun c => c <| controlLease := Some l |>) in construct addr s p claims) st with
          | (Ok _, st) => (Ok tt, st)
          | (Err e, st) => (Err e, Close st)
          end
      end
  end
  end.

(** ** Entering and leaving *)

Definition leave (s : St) : St :=
  let c := con s in
  let rd := match ready s with (Ok b, _) => b | (Err _, _) => false end in
  s <| res ::= fun r => r <| CompletedThrough := completed c |> <| SendError := sticky c |>
                         <| FailedFrom := failedFrom c |> <| Ready := rd |> |>
    <| con ::= fun c => c <| busy := false |> |>.

Definition enter (now : Z) (s : St) : option CtlError :=
  let c := con s in
  if closed c || scopeClosed (scope c) (ledger s) then Some ErrClosed else
  if busy c then Some ErrReentrant else
  if haveTime c && Before now (last c) then Some ErrTime else None.

Definition clocked (now : Z) (c : Controller) : Controller :=
  c <| last := Some now |> <| haveTime := true |> <| busy := true |>.

(** An entry point of the owner; the Result is [res] of the state it returns. *)
Definition entered {A} (now : Z) (body : M A) : M A := fun s =>
  let s := s <| res := zeroResult |> in
  match enter now s with
  | Some e => (Err e, s)
  | None => let '(r, s) := body (s <| con ::= clocked now |>) in (r, leave s)
  end.

(** ** Driving *)

Definition drive (now : Z) : M unit :=
  let! c := reads id in
  if OwnedSends (cfg c) then driveOwned now else
  run driveControl now in
  let! rd := ready in
  let! c := reads id in
  raise contextAcknowledged c && negb rd && negb (pendingPathWork c) with ErrNoAvailablePaths in
  stop negb rd || Before now (retryStorage c) with tt in
  let! r := attempt (driveData now) in
  match r with
  | Ok _ => ret tt
  | Err e => if isResourceLimit e then modify (fun c => c <| retryStorage := Some (now + millisecond) |>)
             else throw e
  end.

Definition toOption {A} (r : result CtlError A) : option CtlError :=
  match r with Ok _ => None | Err e => Some e end.

(** ** The operations *)

Definition StartBody (now : Z) : M unit :=
  let! c := reads id in
  stop started c with tt in
  run modify (fun c => c <| started := true |>) in
  run startBudget (pathIndex (Handshake.PathID (setup c))) now in
  run (if isInitiator c then
         each (indices c) (fun i =>
           let! p := path i in
           let k := configured p in
           if negb (car_PathID k =? Handshake.PathID (setup c))
              && (car_PathID k <=? Negotiation.Contract_MaxPaths (contract c))
           then startJoin k now else ret tt)
       else ret tt) in
  drive now.

(** [c.queue.Admit(payload, now)] *)
Definition admitPayload (payload : bytes) (now : Z) : M Z := fun s =>
  match queue (con s) with
  | None => (Err (QueueErr Aggregation.ErrClosed), s)
  | Some q =>
      let '(r, q, w) := Aggregation.Admit q payload now (ledger s) in
      let s := s <| con ::= fun c => c <| queue := Some q |> |> <| ledger := w |> in
      match r with Err e => (Err (QueueErr e), s) | Ok i => (Ok i, s) end
  end.

(** The receipt is returned with the error of [drive]. *)
Definition WriteBody (now : Z) (payload : bytes) : M (Z * option CtlError) :=
  let! c := reads id in
  raise negb (accepting c) with ErrClosed in
  let! rd := ready in
  raise negb rd with (if contextAcknowledged c && negb (pendingPathWork c) then ErrNoAvailablePaths
                      else ErrNotReady) in
  let! i := admitPayload payload now in
  run modify (fun c => let c := c <| accepted := i |> in
                       if cfg_Aggregation (cfg c) then c else c <| forced := i |>) in
  let! r := attempt (drive now) in
  ret (i, toOption r).

Definition FlushBody (now : Z) : M (Z * option CtlError) :=
  let! c := reads id in
  run modify (fun c => c <| forced := accepted c |>) in
  let! r := attempt (drive now) in
  let! s := reads sticky in
  ret (accepted c, match s with Some e => Some e | None => toOption r end).

Definition expireOriginals (now : Z) : M unit := fun s =>
  let '(r, o, w) := Reassembly.Expire (default Reassembly.zeroReceiver (originals (con s))) now (ledger s) in
  let s := s <| con ::= fun c => c <| originals ::= fmap (fun _ => o) |> |> <| ledger := w |> in
  match r with Err e => (Err (ReceiverErr e), s) | Ok _ => (Ok tt, s) end.

Definition AdvanceBody (now : Z) : M unit :=
  let! c := reads id in
  stop negb (started c) with tt in
  run expireControl now in
  run expireGroups now in
  run expireOriginals now in
  run retryGroups now in
  drive now.

(** What a failed binding takes from a path. *)
Definition failBinding (b : Binding) (p : pathState) : pathState :=
  let p := if active p && bool_decide (binding p = b)
           then p <| active := false |> <| sender := None |> <| budget := zeroRetry |>
                  <| reply0 := zeroFrame |> <| reply1 := zeroFrame |> else p in
  let p := if bool_decide (jn_binding (join p) = b) then p <| join := zeroJoin |> else p in
  p <| old ::= map (fun o => if bool_decide (or_binding o = b) then zeroOld else o) |>.

Definition FailPathBody (now : Z) (b : Binding) : M unit :=
  raise negb (validBinding b) with ErrInvalid in
  let! c := reads id in
  let hit p := active p && bool_decide (binding p = b) in
  run modify (fun c => c <| paths ::= fmap (failBinding b) |>) in
  run (if existsb hit (paths c) then result_ (fun r => r <| PathsChanged := true |>) else ret tt) in
  run (if existsb (fun p => hit p && (pathid p =? contextPath c)) (paths c) && negb (contextAcknowledged c) then
         run modify (fun c => c <| contextPath := 0 |>) in
         run moveContext now in
         let! c := reads id in
         raise (contextPath c =? 0) && negb (pendingPathWork c) with ErrNoAvailablePaths in ret tt
       else ret tt) in
  let! c := reads id in
  let! rd := ready in
  raise contextAcknowledged c && negb rd && negb (pendingPathWork c) with ErrNoAvailablePaths in
  drive now.

(** [c.receiveAuth.Authenticate], which keeps its working state. *)
Definition receiveAuthenticate (e : WireV2.Envelope) : M WireV2.AuthenticatedEnvelope :=
  let! a := reads receiveAuth in
  match a with
  | None => throw (WireErr WireV2.ErrInvalidKey)
  | Some a =>
      let r := WireV2.Authenticator_Authenticate a e in
      run modify (fun c => c <| receiveAuth := Some (snd r) |>) in lift WireErr (fst r)
  end.

(** An authenticated message that is not of a path validation. *)
Definition receiveRouted (i : nat) (now : Z) (b : Binding) (e : WireV2.AuthenticatedEnvelope)
    (m : WireV2Bundle.Established) (size : Z) : M bool :=
  let! c := reads id in
  let! p := path i in
  let t := WireV2.Header_Type (WireV2Bundle.Established_Header m) in
  let r := WireV2Bundle.Established_Route m in
  let allowed := match validRoute p b r now with
                 | Some x => Some x
                 | None => if allowBudgetRetry c p b m now then Some (512, true) else None
                 end in
  match allowed with
  | None => ret false
  | Some (limit, restricted) =>
      stop limit <? size with false in
      stop restricted && negb (WireV2Bundle.Generation r =? generation p) && negb (t =? WireV2.TypeFECBundle)
        with false in
      run (if (t =? TypePathBudgetUpdate) || (t =? TypePathBudgetAck) then receiveBudgetPacket i now m else
           if (t =? WireV2.TypeEncodingContext) || (t =? WireV2.TypeEncodingContextAck)
           then receiveEncoding i now e else
           if t =? WireV2.TypeFECBundle then receiveBundle now e limit restricted
           else throw ErrUnsupported) in
      ret true
  end.

Definition ReceiveBody (now : Z) (b : Binding) (reply : option Sender) (packet : bytes) : M unit :=
  let! c := reads id in
  match reply with
  | None => throw ErrInvalid
  | Some reply =>
  raise negb (validBinding b) with ErrInvalid in
  raise negb (started c) with ErrNotReady in
  let! envelope := lift WireErr (WireV2.ParseEnvelope packet) in
  stop negb (bool_decide (WireV2.Header_SessionID (WireV2.header envelope) = sessionID c))
       || WireV2.IsHandshake (WireV2.Header_Type (WireV2.header envelope)) with tt in
  let! authenticated := receiveAuthenticate envelope in
  let! m := lift WireErr (WireV2Bundle.DecodeEstablished authenticated) in
  let id := WireV2Bundle.PathID (WireV2Bundle.Established_Route m) in
  raise (id =? 0) || (Negotiation.Contract_MaxPaths (contract c) <? id) with ErrProtocol in
  let i := pathIndex id in
  let t := WireV2.Header_Type (WireV2Bundle.Established_Header m) in
  let! proceed := (if (WireV2.TypePathJoin <=? t) && (t <=? WireV2.TypePathReady)
                   then run receiveJoin i now b reply m in ret true
                   else receiveRouted i now b authenticated m (len packet)) in
  if proceed then drive now else ret tt
  end.

Definition Start (now : Z) : M unit := entered now (StartBody now).
Definition Write (now : Z) (payload : bytes) : M (Z * option CtlError) := entered now (WriteBody now payload).
Definition Flush (now : Z) : M (Z * option CtlError) := entered now (FlushBody now).
Definition Advance (now : Z) : M unit := entered now (AdvanceBody now).
Definition FailPath (now : Z) (b : Binding) : M unit := entered now (FailPathBody now b).
Definition Join (now : Z) (carrier : Carrier) : M unit := entered now (JoinBody now carrier).
Definition Receive (now : Z) (b : Binding) (reply : option Sender) (packet : bytes) : M unit :=
  entered now (ReceiveBody now b reply packet).
Definition TakeSend (now : Z) : M (option SendIntent) := entered now (TakeSendBody now).

Definition StopAdmissions (c : Controller) : Controller := c <| accepting := false |>.

(** [CompleteSend] has checks of its own: it works on a Controller that is closing. *)
Definition CompleteSend (now : Z) (o : SendOutcome) : M unit := fun s =>
  let s := s <| res := zeroResult |> in
  let c := con s in
  if bool_decide (sends c = None) || negb (OwnedSends (cfg c)) then (Err ErrClosed, s) else
  if busy c then (Err ErrReentrant, s) else
  if haveTime c && Before now (last c) then (Err ErrTime, s) else
  match slotOf c (out_Token o) with
  | None => (Err ErrSendToken, s)
  | Some k =>
      let slot := slots (sendsOf c) !!! k in
      if invalidOutcome slot o now then (Err ErrInvalid, s) else
      if negb (match intents s !! token slot with Some i => released i | None => false end)
      then (Err ErrSendPending, s) else
      let c := if scopeClosed (scope c) (ledger s) then BeginClose c else c in
      let '(r, s) := CompleteSendBody now k o (s <| con := clocked now c |>) in (r, leave s)
  end.

(** ** Queries *)

Definition Completion (c : Controller) : Z * Z * option CtlError := (completed c, failedFrom c, sticky c).

(** [include]: the earlier of two times that are not zero. *)
Definition include (n a : Time) : Time :=
  match a, n with
  | None, _ => n
  | Some _, None => a
  | Some x, Some y => if x <? y then a else n
  end.

(** The deadlines of a retry. *)
Definition retryDeadline (c : Controller) (capacity : bool) (p : pathState) (rt : controlRetry) (limit : Z)
    (n : Time) : Time :=
  if negb (pending rt) then n else
  let n := include n (deadline rt) in
  if OwnedSends (cfg c) then
    if (sends_ rt + inflight rt <? limit) && negb (dispatched (frame rt)) then
      let n := if queued (frame rt) then include n (residence c (frame rt))
               else if After (next rt) (last c) then include n (next rt)
               else include n (Add (next rt) (MaxQueueResidence (cfg c))) in
      if capacity && (sendToken p =? 0) && bool_decide (is_Some (freeSendSlot c))
      then include n (later (next rt) (pacedAt p)) else n
    else n
  else if sends_ rt <? limit then include n (later (next rt) (pacedAt p)) else n.

Definition replyDeadline (c : Controller) (capacity : bool) (p : pathState) (f : controlFrame) (n : Time)
    : Time :=
  if negb (queued f) then n else
  if OwnedSends (cfg c) then
    if dispatched f then n else
    let n := include n (residence c f) in
    if capacity && (sendToken p =? 0) && bool_decide (is_Some (freeSendSlot c))
    then include n (later (last c) (pacedAt p)) else n
  else include n (later (last c) (pacedAt p)).

Definition pathDeadline (c : Controller) (capacity : bool) (p : pathState) (n : Time) : Time :=
  let limit := if firstPhase p then ControlSends - 1 else ControlSends in
  let n := retryDeadline c capacity p (retry (join p)) limit n in
  let n := if committed (join p) then include n (deadline (retry (join p))) else n in
  let n := retryDeadline c capacity p (budget p) ControlSends n in
  let n := if pathid p =? contextPath c then retryDeadline c capacity p (context c) ControlSends n else n in
  let n := replyDeadline c capacity p (reply1 p) (replyDeadline c capacity p (reply0 p) n) in
  foldl (fun n o => include n (until o)) n (old p).

Definition NextDeadlineWithSendCapacity (capacity : bool) (s : St) : Time :=
  let c := con s in
  if closed c || negb (started c) then None else
  let n := foldl (fun n p => pathDeadline c capacity p n) None (paths c) in
  let n := if groupHead c =? 0 then n
           else include n (Some (admitted (groups c !!! groupHead c) + GroupTimeout (cfg c))) in
  let n := if decodedGroups c =? 0 then n else include n (later (last c) (retryStorage c)) in
  let n := if pending (context c) then include n (deadline (context c)) else n in
  let n := match originals c with Some r => include n (Reassembly.NextDeadline r) | None => n end in
  let n := if OwnedSends (cfg c) && bool_decide (is_Some (out c))
           then include n (ownedDataDeadline c (env s) capacity) else n in
  if match ready s with (Ok b, _) => b | _ => false end then
    match out c with
    | Some _ =>
        if OwnedSends (cfg c) then n else
        let p := paths c !!! pathIndex (outPaths c !!! outNext c) in
        include n (later (later (last c) (pacedAt p)) (retryStorage c))
    | None =>
        match queue c with
        | None => n
        | Some q =>
            let x := Aggregation.Queue_Snapshot q (ledger s) in
            if 0 <? Aggregation.QueuedDatagrams x then
              let due := if completed c <? forced c then last c else Aggregation.OldestDeadline x in
              include n (later due (retryStorage c))
            else n
        end
    end
  else n.

Definition NextDeadline (s : St) : Time := NextDeadlineWithSendCapacity true s.

Record PathSnapshot := {
  ps_PathID : Z; ps_Generation : Z; ps_Binding : Binding; ps_Active : bool; ps_SendBudget : Z;
  ps_ReceiveBudget : Z; ps_SendEpoch : Z; ps_ReceiveEpoch : Z; ps_Pending : bool }.

Record ControllerSnapshot := {
  snap_Started : bool; snap_Ready : bool; snap_Accepting : bool; snap_Closed : bool;
  AcceptedThrough : Z; snap_Completed : Z; QueuedDatagrams : Z; snap_PendingGroups : Z;
  snap_SendError : option CtlError; snap_FailedFrom : Z; snap_NextDeadline : Time;
  snap_Paths : list PathSnapshot }.

Definition Controller_Snapshot (s : St) : ControllerSnapshot :=
  let c := con s in {|
  snap_Started := started c; snap_Ready := match ready s with (Ok b, _) => b | _ => false end;
  snap_Accepting := accepting c; snap_Closed := closed c; AcceptedThrough := accepted c;
  snap_Completed := completed c;
  QueuedDatagrams := match queue c with
                     | Some q => Aggregation.QueuedDatagrams (Aggregation.Queue_Snapshot q (ledger s))
                     | None => 0 end;
  snap_PendingGroups := Z.of_nat (size (groups c)); snap_SendError := sticky c;
  snap_FailedFrom := failedFrom c; snap_NextDeadline := NextDeadline s;
  snap_Paths := (fun p => {| ps_PathID := pathid p; ps_Generation := generation p; ps_Binding := binding p;
                             ps_Active := active p; ps_SendBudget := sendBudget p;
                             ps_ReceiveBudget := receiveBudget p; ps_SendEpoch := sendEpoch p;
                             ps_ReceiveEpoch := receiveEpoch p; ps_Pending := pending (retry (join p)) |})
                <$> paths c |}.
End operations.
