(* ===== verification/SessionV2Rules.v ===== *)
(** * Rules for the operations of a version 2 Session

    [wp m Q s]: running [m] from [s] ends in a result and a state that satisfy [Q].
    [evolves R m]: whatever [m] does is within [R], a preorder on states; the rules follow
    the structure of an operation, and [evolve] applies them.  The facts on whole
    operations are collected in the hint database [evolve]. *)

From S2P Require Import Prelude CreditScope SessionV2Types.
From S2P Require Handshake WireV2 WireV2Bundle.
From Stdlib Require Import RelationClasses.

Section rules.
Context `{L : Ledger} `{K : Links}.

Definition wp {A} (m : M A) (Q : result CtlError A -> St -> Prop) (s : St) : Prop :=
  Q (fst (m s)) (snd (m s)).

Definition after {A B} (k : A -> M B) (Q : result CtlError B -> St -> Prop)
    (r : result CtlError A) (s : St) : Prop :=
  match r with Ok a => wp (k a) Q s | Err e => Q (Err e) s end.

Lemma wp_bind {A B} (m : M A) (k : A -> M B) Q s : wp m (after k Q) s -> wp (bind m k) Q s.
Proof. unfold wp, after, bind. destruct (m s) as [[a|e] s']; done. Qed.

Lemma wp_reads {A B} (f : Controller -> A) (k : A -> M B) Q s :
  wp (k (f (con s))) Q s -> wp (bind (reads f) k) Q s.
Proof. done. Qed.
Lemma wp_asks {A B} (f : Env -> A) (k : A -> M B) Q s :
  wp (k (f (env s))) Q s -> wp (bind (asks f) k) Q s.
Proof. done. Qed.
Lemma wp_path {B} i (k : pathState -> M B) Q s :
  wp (k (paths (con s) !!! i)) Q s -> wp (bind (path i) k) Q s.
Proof. done. Qed.
Lemma wp_lift {E A B} (inj : E -> CtlError) (r : result E A) (k : A -> M B) Q s :
  match r with Ok a => wp (k a) Q s | Err e => Q (Err (inj e)) s end -> wp (bind (lift inj r) k) Q s.
Proof. by destruct r. Qed.
Lemma wp_both {A} (P : St -> Prop) (Q : result CtlError A -> St -> Prop) (m : M A) s :
  P (snd (m s)) -> wp m Q s -> wp m (fun r s' => P s' /\ Q r s') s.
Proof. by split. Qed.

Lemma wp_weaken {A} (m : M A) (P Q : _ -> _ -> Prop) s :
  wp m P s -> (forall r s', P r s' -> Q r s') -> wp m Q s.
Proof. unfold wp. auto. Qed.

Lemma wp_run {A} (m : M A) (Q : _ -> _ -> Prop) s r s' : wp m Q s -> m s = (r, s') -> Q r s'.
Proof. unfold wp. intros W E. by rewrite E in W. Qed.

Definition evolves (R : relation St) {A} (m : M A) : Prop := forall s, R s (snd (m s)).

Lemma evolves_wp (R : relation St) {A} (m : M A) s (Q : _ -> _ -> Prop) :
  evolves R m -> (forall r s', R s s' -> Q r s') -> wp m Q s.
Proof. intros E H. apply H, E. Qed.

Lemma wp_evolves (R : relation St) {A} (m : M A) : (forall s, wp m (fun _ => R s) s) -> evolves R m.
Proof. done. Qed.

Lemma evolves_sub (R R' : relation St) {A} (m : M A) :
  (forall s s', R s s' -> R' s s') -> evolves R m -> evolves R' m.
Proof. intros H E s. apply H, E. Qed.

Context {R : relation St} `{!PreOrder R}.

Lemma ev_bind {A B} (m : M A) (k : A -> M B) :
  evolves R m -> (forall a, evolves R (k a)) -> evolves R (bind m k).
Proof using PreOrder0.
  intros E1 E2 s. unfold bind. specialize (E1 s). destruct (m s) as [[a|e] s1]; [|done].
  etransitivity; [exact E1|apply E2].
Qed.

(** One step of an operation that started in [s0]. *)
Lemma wp_step {A B} (m : M A) (k : A -> M B) (Q : result CtlError B -> St -> Prop) s0 s :
  evolves R m -> R s0 s -> (forall e s1, R s0 s1 -> Q (Err e) s1) -> (forall a s1, R s0 s1 -> wp (k a) Q s1) ->
  wp (bind m k) Q s.
Proof using PreOrder0.
  intros E R0 He Hk. apply wp_bind. unfold wp at 1. specialize (E s).
  assert (X : R s0 (snd (m s))) by (by etransitivity). destruct (fst (m s)) as [a|e]; cbn [after]; auto.
Qed.

Lemma ev_pure {A} (m : M A) : (forall s, snd (m s) = s) -> evolves R m.
Proof using PreOrder0. intros E s. by rewrite E. Qed.

Lemma ev_ret {A} (a : A) : evolves R (ret a).
Proof using PreOrder0. by apply ev_pure. Qed.
Lemma ev_throw {A} e : evolves R (throw e : M A).
Proof using PreOrder0. by apply ev_pure. Qed.
Lemma ev_reads {A} (f : _ -> A) : evolves R (reads f).
Proof using PreOrder0. by apply ev_pure. Qed.
Lemma ev_asks {A} (f : _ -> A) : evolves R (asks f).
Proof using PreOrder0. by apply ev_pure. Qed.
Lemma ev_path i : evolves R (path i).
Proof using PreOrder0. by apply ev_pure. Qed.
Lemma ev_lift {E A} (inj : E -> CtlError) (r : result E A) : evolves R (lift inj r).
Proof using PreOrder0. apply ev_pure. intros s. unfold lift. by destruct r. Qed.
Lemma ev_appended r : evolves R (appended r).
Proof using PreOrder0. apply ev_pure. intros s. unfold appended. by destruct (snd r). Qed.
Lemma ev_attempt {A} (m : M A) : evolves R m -> evolves R (attempt m).
Proof using. intros E s. unfold attempt. specialize (E s). by destruct (m s). Qed.
Lemma ev_each {A} (l : list A) body : (forall x, evolves R (body x)) -> evolves R (each l body).
Proof using PreOrder0.
  intros E. induction l as [|x l IH]; [apply ev_ret|]. apply ev_bind; [apply E|by intros _].
Qed.
Lemma ev_firstOf test l : (forall i, evolves R (test i)) -> evolves R (firstOf test l).
Proof using PreOrder0.
  intros E. induction l as [|i l IH]; [apply ev_ret|].
  apply ev_bind; [apply E|]. intros [|]; [apply ev_ret|done].
Qed.
End rules.

Create HintDb evolve discriminated.

Ltac evolve_step :=
  lazymatch goal with
  | |- forall _, _ => intros ?
  | |- evolves _ (bind _ _) => apply ev_bind
  | |- evolves _ (ret _) => apply ev_ret
  | |- evolves _ (throw _) => apply ev_throw
  | |- evolves _ (reads _) => apply ev_reads
  | |- evolves _ (asks _) => apply ev_asks
  | |- evolves _ (path _) => apply ev_path
  | |- evolves _ (lift _ _) => apply ev_lift
  | |- evolves _ (appended _) => apply ev_appended
  | |- evolves _ (attempt _) => apply ev_attempt
  | |- evolves _ (each _ _) => apply ev_each
  | |- evolves _ (firstOf _ _) => apply ev_firstOf
  | |- evolves _ (let _ := _ in _) => cbv zeta
  | |- evolves _ (if ?b then _ else _) => destruct b
  | |- evolves _ (match ?x with _ => _ end) => destruct x
  end.
Ltac evolve := repeat first [solve [auto 1 with evolve nocore] | evolve_step].

(** The first test of an operation. *)
Ltac wp_if G := match goal with |- wp (if ?b then _ else _) _ _ => destruct b eqn:G end.

(** ** States that differ elsewhere *)

Section views.
Context `{L : Ledger} `{K : Links}.

(** [pi] of the state is unchanged. *)
Definition same {X} (pi : St -> X) : relation St := fun s s' => pi s' = pi s.
#[export] Instance same_preorder {X} (pi : St -> X) : PreOrder (same pi).
Proof. split; [by intros s|intros a b c H1 H2; unfold same in *; congruence]. Qed.

(** Every path is related by [P] to what it was. *)
Definition onPaths (P : relation pathState) : relation St := fun s s' =>
  forall i p', paths (con s') !! i = Some p' -> exists p, paths (con s) !! i = Some p /\ P p p'.

#[export] Instance onPaths_preorder P `{!PreOrder P} : PreOrder (onPaths P).
Proof.
  split.
  - intros s i p E. exists p. by split.
  - intros a b c H1 H2 i p E. destruct (H2 i p E) as (q & Eq & Pq). destruct (H1 i q Eq) as (o & Eo & Po).
    exists o. split; [done|]. by etransitivity.
Qed.

Lemma onPaths_same P `{!PreOrder P} s s' : paths (con s') = paths (con s) -> onPaths P s s'.
Proof. intros E i p. rewrite E. intros Hp. by exists p. Qed.

Lemma onPaths_alter P `{!PreOrder P} s s' i f :
  paths (con s') = alter f i (paths (con s)) -> (forall p, paths (con s) !! i = Some p -> P p (f p)) ->
  onPaths P s s'.
Proof.
  intros E H j p. rewrite E. destruct (decide (i = j)) as [<-|N].
  - rewrite list_lookup_alter_eq. destruct (paths (con s) !! i) as [q|] eqn:Eq; [|done].
    intros [= <-]. exists q. split; [done|by apply H].
  - rewrite list_lookup_alter_ne by done. intros Hp. by exists p.
Qed.

Lemma onPaths_map P s s' f :
  paths (con s') = f <$> paths (con s) -> (forall p, P p (f p)) -> onPaths P s s'.
Proof.
  intros E H j p. rewrite E, list_lookup_fmap. destruct (paths (con s) !! j) as [q|]; [|done].
  intros [= <-]. by exists q.
Qed.

Lemma lookup_paths s i p : paths (con s) !! i = Some p -> paths (con s) !!! i = p.
Proof. apply list_lookup_total_correct. Qed.
End views.
