(* ===== verification/SessionV2Frames.v ===== *)
(** * What the operations of a version 2 Session leave alone

    [control.go] works on the paths and the exchanges; sealing and sending add the
    output, the owned sends and the completion; [data.go] works on the groups and the
    originals.  Each part is masked in turn, and the rest is unchanged.  The last section
    shows that the loop of [driveData] ends. *)

From S2P Require Import Prelude CreditScope SessionV2Types SessionV2Control SessionV2Send SessionV2Data SessionV2.
From S2P Require Import SessionV2Rules.
From S2P Require Credit Fec FecV2 Negotiation WireV2 WireV2Bundle Handshake Aggregation Reassembly.
Import WireV2 (zero16).
From Stdlib Require Import RelationClasses.

(** The fields of [control.go], of the sending side, and of [data.go]'s receiving side. *)
Definition maskControl (c : Controller) : Controller :=
  c <| paths := [] |> <| nextControl := 0 |> <| context := zeroRetry |> <| contextPath := 0 |>
    <| contextAcknowledged := false |> <| receiveAckSent := false |> <| controlCursor := 0 |>
    <| receiveContext := zeroContext |> <| receiveCodec := None |>.
Definition maskSend (c : Controller) : Controller :=
  maskControl c <| sends := None |> <| out := None |> <| outNext := 0%nat |> <| outPaths := [] |>
    <| outThrough := 0 |> <| completed := 0 |> <| sticky := None |> <| failedFrom := 0 |>
    <| queue := None |> <| sendAuth := None |> <| retryStorage := None |>.
Definition maskData (c : Controller) : Controller :=
  c <| originals := None |> <| groups := ∅ |> <| groupHead := 0 |> <| groupTail := 0 |>
    <| decodedGroups := 0 |> <| receiveCounters := zeroReceiveCounters |> <| groupWindow := None |>
    <| retryStorage := None |>.

(** ** Paths *)

(** Generations are bounded by the floor; a join that is not committed is newer than the path. *)
Record path_ok (p : pathState) : Prop := {
  po_range : 0 <= generation p <= floor p;
  po_floor : floor p <= maxUint64;
  po_join : 0 <= jn_generation (join p) <= floor p;
  po_newer : pending (retry (join p)) = true -> committed (join p) = false ->
    generation p < jn_generation (join p) }.

(** The path [p'] has the tuple of [p]; it may have been deactivated. *)
Record steady (p p' : pathState) : Prop := {
  st_pathid : pathid p' = pathid p;
  st_generation : generation p' = generation p;
  st_binding : binding p' = binding p;
  st_transport : transportGeneration p' = transportGeneration p;
  st_active : active p' = true -> active p = true /\ sender p' = sender p;
  st_ok : path_ok p -> path_ok p' /\ floor p <= floor p' }.

#[export] Instance steady_preorder : PreOrder steady.
Proof.
  split; [done|]. intros a b c H1 H2. destruct H1 as [? ? ? ? A1 O1], H2 as [? ? ? ? A2 O2].
  split; try congruence.
  - intros X. destruct (A2 X) as [Y E]. destruct (A1 Y) as [Z E']. split; congruence.
  - intros X. destruct (O1 X) as [Y ?]. destruct (O2 Y). split; [done|lia].
Qed.

(** The identity of a path and the account of its owned sends. *)
Definition account (p : pathState) : Z * Z * Carrier * Z * Z * Z :=
  (pathid p, rate p, configured p, sendToken p, queuedPackets p, queuedBytes p).
Definition still (p p' : pathState) : Prop := account p' = account p.
Definition quiet (p p' : pathState) : Prop := still p p' /\ steady p p'.

#[export] Instance still_preorder : PreOrder still.
Proof. unfold still. split; [done|]. intros a b c H1 H2. congruence. Qed.
#[export] Instance quiet_preorder : PreOrder quiet.
Proof.
  split; [by intros p; split|]. intros a b c [A1 B1] [A2 B2]. split; by etransitivity.
Qed.

(** An update that leaves the tuple and keeps or drops the join's retry. *)
Lemma steady_intro (p p' : pathState) :
  pathid p' = pathid p -> generation p' = generation p -> binding p' = binding p ->
  transportGeneration p' = transportGeneration p ->
  (active p' = true -> active p = true /\ sender p' = sender p) -> floor p' = floor p ->
  (jn_generation (join p') = jn_generation (join p) \/ jn_generation (join p') = 0) ->
  (pending (retry (join p')) = true -> pending (retry (join p)) = true /\
     jn_generation (join p') = jn_generation (join p)) ->
  committed (join p') = committed (join p) \/ pending (retry (join p')) = false ->
  steady p p'.
Proof.
  intros E1 E2 E3 E4 Ha E5 Eg Ep Ec. split; try done. intros [R F J N]. split; [|lia].
  split; rewrite ?E2, ?E5; try done; [destruct Eg as [-> | ->]; lia|].
  intros X Y. destruct (Ep X) as [X' ->]. apply N; [done|]. destruct Ec as [<-|Ec]; congruence.
Qed.

Ltac quiet_leaf := split; [reflexivity|apply steady_intro; cbn; by auto].

(** ** Pacing *)

(** Packets [l] of a path sent at [now]: none before the pace allows it, and each one
    occupies the path for its serialization time. *)
Fixpoint pace (now rt : Z) (a : Time) (l : list SendAttempt) (a' : Time) : Prop :=
  match l with
  | [] => a' = a
  | x :: l => Before now a = false /\
      exists b, pace now rt (Some (now + serializationTime rt b (at_Bytes x))) l a'
  end.

Lemma pace_app now rt a l1 a1 l2 a2 :
  pace now rt a l1 a1 -> pace now rt a1 l2 a2 -> pace now rt a (l1 ++ l2) a2.
Proof.
  revert a. induction l1 as [|x l1 IH]; intros a; cbn; [by intros ->|].
  intros (? & b & P) P2. split; [done|]. exists b. by apply IH.
Qed.

Definition ofPath (n : Z) (l : list SendAttempt) : list SendAttempt := filter (fun a => at_PathID a = n) l.
#[global] Arguments ofPath : simpl never.
Lemma ofPath_one n a : at_PathID a = n -> ofPath n [a] = [a].
Proof. intros E. unfold ofPath. by rewrite filter_cons, decide_True. Qed.
Lemma ofPath_other n a : at_PathID a <> n -> ofPath n [a] = [].
Proof. intros E. unfold ofPath. by rewrite filter_cons, decide_False. Qed.

Section frames.
Context `{L : Ledger} `{K : Links} `{Y : Layout} `{Fec.ReedSolomon}.

(** The identifier of a path is its index plus one. *)
Definition numbered (l : list pathState) : Prop := forall i p, l !! i = Some p -> pathid p = Z.of_nat i + 1.

Definition paced (now : Z) : relation St := fun s s' => numbered (paths (con s)) -> exists new,
  Sends (res s') = Sends (res s) ++ new /\
  forall i p', paths (con s') !! i = Some p' -> exists p, paths (con s) !! i = Some p /\
    pathid p' = pathid p /\ rate p' = rate p /\
    pace now (rate p) (pacedAt p) (ofPath (pathid p) new) (pacedAt p').

#[export] Instance paced_preorder now : PreOrder (paced now).
Proof.
  split.
  - intros s _. exists []. split; [by rewrite app_nil_r|]. intros i p E. by exists p.
  - intros a b c H1 H2 N. destruct (H1 N) as (n1 & E1 & P1). destruct H2 as (n2 & E2 & P2).
    { intros i p E. destruct (P1 i p E) as (q & Eq & -> & _). by apply N. }
    exists (n1 ++ n2). split; [by rewrite E2, E1, app_assoc|].
    intros i p E. destruct (P2 i p E) as (q & Eq & I2 & R2 & Q2).
    destruct (P1 i q Eq) as (o & Eo & I1 & R1 & Q1). exists o. split_and!; [done|congruence|congruence|].
    unfold ofPath. rewrite filter_app. eapply pace_app; [exact Q1|]. by rewrite R1, I1 in Q2.
Qed.

Lemma paced_quiet now s s' :
  Sends (res s') = Sends (res s) ->
  onPaths (fun p p' => pathid p' = pathid p /\ rate p' = rate p /\ pacedAt p' = pacedAt p) s s' -> paced now s s'.
Proof using.
  intros E P _. exists []. split; [by rewrite app_nil_r|]. intros i p Ep.
  destruct (P i p Ep) as (q & ? & ? & ? & ?). by exists q.
Qed.

(** ** Control packets *)

Definition beyondControl (s : St) := (maskControl (con s), Deliveries (res s), intents s, spaces s, ledger s).

Definition controls (P : relation pathState) (now : Z) : relation St := fun s s' =>
  same beyondControl s s' /\ onPaths P s s' /\ paced now s s'.

#[export] Instance controls_preorder P now `{!PreOrder P} : PreOrder (controls P now).
Proof.
  split; [by intros s; split_and!|]. intros a b c (A1 & A2 & A3) (B1 & B2 & B3).
  split_and!; by etransitivity.
Qed.

Section control.
Context {P : relation pathState} `{!PreOrder P} {now : Z}.
Hypothesis QP : forall p p', quiet p p' -> P p p'.
Hypothesis PS : forall p p', P p p' -> still p p'.
Abbreviation R := (controls P now).

Lemma fc_same {A} (m : M A) :
  (forall s, beyondControl (snd (m s)) = beyondControl s /\ paths (con (snd (m s))) = paths (con s) /\
     Sends (res (snd (m s))) = Sends (res s)) -> evolves R m.
Proof using PreOrder0.
  intros E s. destruct (E s) as (E1 & E2 & E3). split_and!; [exact E1|by apply onPaths_same|].
  apply paced_quiet; [exact E3|]. intros i p. rewrite E2. intros Hp. by exists p.
Qed.

Lemma fc_modify f : (forall c, maskControl (f c) = maskControl c /\ paths (f c) = paths c) -> evolves R (modify f).
Proof using PreOrder0.
  intros E. apply fc_same. intros s. cbn. destruct (E (con s)) as [E1 E2]. unfold beyondControl. cbn.
  by rewrite E1.
Qed.

Lemma fc_step i f s s' :
  beyondControl s' = beyondControl s -> Sends (res s') = Sends (res s) ->
  paths (con s') = alter f i (paths (con s)) -> (forall p, P p (f p) /\ pacedAt (f p) = pacedAt p) -> R s s'.
Proof using PreOrder0 QP PS.
  intros E1 E2 E3 E. split_and!; [exact E1| |].
  - apply (onPaths_alter P _ _ i f); [done|]. intros p _. apply E.
  - apply paced_quiet; [done|]. intros j p. rewrite E3. destruct (decide (i = j)) as [<-|N].
    + rewrite list_lookup_alter_eq. destruct (paths (con s) !! i) as [q|] eqn:Eq; [|done].
      intros [= <-]. exists q. split; [done|]. destruct (E q) as [Hp Ha]. apply PS in Hp.
      unfold still, account in Hp. split_and!; [congruence|congruence|done].
    + rewrite list_lookup_alter_ne by done. intros Hp. by exists p.
Qed.

Lemma fc_onPath i f : (forall p, P p (f p) /\ pacedAt (f p) = pacedAt p) -> evolves R (onPath i f).
Proof using PreOrder0 QP PS. intros E s. by apply (fc_step i f). Qed.
Lemma fc_quiet i f : (forall p, quiet p (f p) /\ pacedAt (f p) = pacedAt p) -> evolves R (onPath i f).
Proof using PreOrder0 QP PS. intros E. apply fc_onPath. intros p. destruct (E p). auto. Qed.

#[local] Hint Extern 1 (evolves _ (modify _)) => apply fc_modify; done : evolve.
#[local] Hint Extern 1 (evolves _ (onPath _ _)) => apply fc_quiet; intros ?; split; [quiet_leaf|done] : evolve.

Lemma fc_random : evolves R randomBlock.
Proof using PreOrder0. apply fc_same. intros s. unfold randomBlock. by destruct (Entropy (env s)). Qed.
#[local] Hint Resolve fc_random : evolve.
Lemma fc_nonceLoop n : evolves R (nonceLoop n).
Proof using PreOrder0. induction n; cbn [nonceLoop]; evolve; done. Qed.
Lemma fc_changed : evolves R (result_ (fun r => r <| PathsChanged := true |>)).
Proof using PreOrder0. by apply fc_same. Qed.
Lemma fc_eligible i : evolves R (eligible i).
Proof using PreOrder0. by apply fc_same. Qed.
#[local] Hint Resolve fc_nonceLoop fc_changed fc_eligible : evolve.
Lemma fc_frameSet f packet t : evolves R (frameSet f packet t).
Proof using PreOrder0. unfold frameSet, frame_set, nextControlID. evolve. Qed.
Lemma fc_newControlRetry t : evolves R (newControlRetry t).
Proof using PreOrder0. unfold newControlRetry, nextControlID. evolve. Qed.
#[local] Hint Resolve fc_frameSet fc_newControlRetry : evolve.
Lemma fc_boundSender b s : evolves R (boundSender b s).
Proof using PreOrder0. unfold boundSender, captureBoundSender. evolve. Qed.
Lemma fc_appendControl t r body : evolves R (appendControl t r body).
Proof using PreOrder0. unfold appendControl. evolve. Qed.
#[local] Hint Resolve fc_boundSender fc_appendControl : evolve.
Lemma fc_joinFrame i t n : evolves R (joinFrame i t n).
Proof using PreOrder0 QP PS. unfold joinFrame. evolve. Qed.
Lemma fc_startBudget i n : evolves R (startBudget i n).
Proof using PreOrder0 QP PS. unfold startBudget, storeRetry. evolve. Qed.
Lemma fc_startEncoding i n : evolves R (startEncoding i n).
Proof using PreOrder0. unfold startEncoding, storeRetry. evolve. Qed.
Lemma fc_setReply i k f : evolves R (onPath i (setReply k f)).
Proof using PreOrder0 QP PS. apply fc_quiet. intros p. destruct k; (split; [quiet_leaf|done]). Qed.
#[local] Hint Resolve fc_joinFrame fc_startBudget fc_startEncoding fc_setReply : evolve.
Lemma fc_receiveBudgetPacket i n m : evolves R (receiveBudgetPacket i n m).
Proof using PreOrder0 QP PS. unfold receiveBudgetPacket, queueReply, installReply. evolve. Qed.
Lemma fc_receiveEncoding i n e : evolves R (receiveEncoding i n e).
Proof using PreOrder0 QP PS. unfold receiveEncoding, installReply. evolve. Qed.
Lemma fc_emit i snd_ b packet : evolves R (emit i snd_ b packet now).
Proof using PreOrder0 QP PS.
  intros s. unfold emit. cbn. destruct (_ || _) eqn:G; [done|].
  apply orb_false_elim in G as [_ G]. destruct (Emit _ _ _) as [e v]. cbn. split_and!; [done| |].
  - apply (onPaths_alter P s _ i (fun q => q <| pacedAt := Some (now + serializationTime (rate q) b (len packet)) |>));
      [done|]. intros p _. apply QP. quiet_leaf.
  - intros N. eexists. split; [reflexivity|]. cbn. intros j p. destruct (decide (i = j)) as [<-|Ne].
    + rewrite list_lookup_alter_eq. destruct (paths (con s) !! i) as [q|] eqn:Eq; [|done].
      intros [= <-]. rewrite (lookup_paths _ _ _ Eq) in *. exists q. cbn. split_and!; try done.
      rewrite ofPath_one by done. cbn. split; [done|by exists b].
    + rewrite list_lookup_alter_ne by done. intros Hp. exists p. split_and!; try done.
      rewrite ofPath_other; [done|]. cbn.
      destruct (decide (i < length (paths (con s)))%nat) as [l|l].
      * apply lookup_lt_is_Some in l as [q Eq]. rewrite (lookup_paths _ _ _ Eq), (N _ _ Eq), (N _ _ Hp). lia.
      * rewrite list_lookup_total_alt, (proj2 (lookup_ge_None _ _)) by lia. rewrite (N _ _ Hp). cbn. lia.
Qed.
Lemma fc_onRetry r f : (forall x, pending (f x) = true -> pending x = true) -> evolves R (onRetry r f).
Proof using PreOrder0 QP PS.
  intros E. destruct r as [i|i|]; [apply fc_quiet|apply fc_quiet|by apply fc_modify];
    intros p; (split; [quiet_leaf|done]).
Qed.
#[local] Hint Extern 1 (evolves _ (onRetry _ _)) => apply fc_onRetry; done : evolve.
#[local] Hint Resolve fc_emit : evolve.
Lemma fc_sendRetry i r snd_ b first : evolves R (sendRetry i r snd_ b now first).
Proof using PreOrder0 QP PS. unfold sendRetry. evolve. Qed.
#[local] Hint Resolve fc_sendRetry : evolve.
Lemma fc_drivePath i : evolves R (drivePath i now).
Proof using PreOrder0 QP PS.
  unfold drivePath, sendReplies. evolve.
  - apply fc_quiet. intros p. match goal with k : nat |- _ => destruct k end; (split; [quiet_leaf|done]).
  - apply fc_same. intros s. by destruct (_ && _).
Qed.
Lemma fc_drivePaths l : evolves R (drivePaths l now).
Proof using PreOrder0 QP PS.
  induction l as [|i l IH]; [apply ev_ret|]. intros s. cbn [drivePaths].
  destruct (_ <? _); [|done]. revert s. change (evolves R (bind (drivePath i now) (fun _ => drivePaths l now))).
  apply ev_bind; [apply fc_drivePath|done].
Qed.
#[local] Hint Resolve fc_drivePaths : evolve.
Lemma fc_driveControl : evolves R (driveControl now).
Proof using PreOrder0 QP PS. unfold driveControl, rotateContext. evolve. Qed.
Lemma fc_moveContext n : evolves R (moveContext n).
Proof using PreOrder0 QP PS. unfold moveContext. evolve. Qed.
#[local] Hint Resolve fc_driveControl fc_moveContext : evolve.
Lemma fc_expirePath i n : evolves R (expirePath i n).
Proof using PreOrder0 QP PS.
  unfold expirePath. evolve.
  - apply fc_quiet. intros p. destruct (_ && _); (split; [quiet_leaf|done]).
  - intros s. eapply (fc_step i); [done|done|reflexivity|]. intros p. cbn.
    destruct (OwnedSends _); (split; [apply QP; quiet_leaf|done]).
  - apply fc_modify. intros c. by destruct (_ && _).
Qed.
#[local] Hint Resolve fc_expirePath : evolve.
Lemma fc_expireControl n : evolves R (expireControl n).
Proof using PreOrder0 QP PS. unfold expireControl. evolve. Qed.
End control.

(** A join replaces what is pending on a path. *)
Section joins.
Context {now : Z}.
Abbreviation R := (controls still now).
Fact quiet_still p p' : quiet p p' -> still p p'.
Proof using. by intros []. Qed.
Lemma fj_nonceLoop n : evolves R (nonceLoop n).
Proof using. apply fc_nonceLoop. Qed.
Lemma fj_changed : evolves R (result_ (fun r => r <| PathsChanged := true |>)).
Proof using. apply fc_changed. Qed.
Lemma fj_newControlRetry n : evolves R (newControlRetry n).
Proof using. apply fc_newControlRetry. Qed.
Lemma fj_boundSender b s : evolves R (boundSender b s).
Proof using. apply fc_boundSender. Qed.
Lemma fj_joinFrame i t n : evolves R (joinFrame i t n).
Proof using. apply fc_joinFrame; [apply quiet_still|done]. Qed.
Lemma fj_startBudget i n : evolves R (startBudget i n).
Proof using. apply fc_startBudget; [apply quiet_still|done]. Qed.
Lemma fj_onPath i f : (forall p, still p (f p) /\ pacedAt (f p) = pacedAt p) -> evolves R (onPath i f).
Proof using. apply fc_onPath; [apply quiet_still|done]. Qed.
#[local] Hint Resolve fj_nonceLoop fj_changed fj_newControlRetry fj_boundSender fj_joinFrame fj_startBudget : evolve.
#[local] Hint Extern 1 (evolves _ (onPath _ _)) => apply fj_onPath; by intros : evolve.
Lemma fj_startJoin carrier n : evolves R (startJoin carrier n).
Proof using. unfold startJoin, randomNonce. evolve. Qed.
Lemma fj_commitPath i n : evolves R (commitPath i n).
Proof using.
  unfold commitPath. evolve. apply fj_onPath. intros p. destruct (active p); [|done]. by case_match.
Qed.
#[local] Hint Resolve fj_commitPath : evolve.
Lemma fj_receiveJoin i n b reply m : evolves R (receiveJoin i n b reply m).
Proof using. unfold receiveJoin, answerJoin, advanceJoin, randomNonce. evolve. Qed.
End joins.

(** ** Sending *)

Definition beyondSend (s : St) := (maskSend (con s), Deliveries (res s)).

(** The slots of the owned sends and their intents. *)
Definition outstanding (s : St) :=
  ((fun x => (slots x, nextToken x, sn_active x)) <$> sends (con s), intents s).

(** Driving: no owned packet is taken or completed. *)
Definition drives : relation St := fun s s' =>
  same (fun s => (beyondSend s, outstanding s)) s s' /\ onPaths quiet s s'.
Definition emits (now : Z) : relation St := fun s s' => drives s s' /\ paced now s s'.
#[export] Instance drives_preorder : PreOrder drives.
Proof. split; [by intros s; split|]. intros a b c [? ?] [? ?]. split; by etransitivity. Qed.
#[export] Instance emits_preorder now : PreOrder (emits now).
Proof. split; [by intros s; split|]. intros a b c [? ?] [? ?]. split; by etransitivity. Qed.

Lemma emits_control {A} (m : M A) now : evolves (controls quiet now) m -> evolves (emits now) m.
Proof using.
  apply evolves_sub. intros s s' (E & P & C). split; [split|]; [|exact P|exact C].
  unfold same, beyondControl in E |- *.
  exact (f_equal (fun x => (maskSend x.1.1.1.1, x.1.1.1.2,
    ((fun x => (slots x, nextToken x, sn_active x)) <$> sends x.1.1.1.1, x.1.1.2))) E).
Qed.
Lemma drives_emits {A} (m : M A) now : evolves (emits now) m -> evolves drives m.
Proof using. apply evolves_sub. by intros s s' []. Qed.

Section sync.
Context {now : Z}.
Abbreviation R := (emits now).
Lemma fe_same {A} (m : M A) :
  (forall s, beyondSend (snd (m s)) = beyondSend s /\ outstanding (snd (m s)) = outstanding s /\
     paths (con (snd (m s))) = paths (con s) /\ Sends (res (snd (m s))) = Sends (res s)) -> evolves R m.
Proof using.
  intros E s. destruct (E s) as (E1 & E2 & E3 & E4). split; [split|].
  - unfold same. by rewrite E1, E2.
  - by apply onPaths_same; [apply _|].
  - apply paced_quiet; [exact E4|]. intros i p. rewrite E3. intros Hp. by exists p.
Qed.
Lemma fe_modify f :
  (forall c, maskSend (f c) = maskSend c /\ paths (f c) = paths c /\
     ((fun x => (slots x, nextToken x, sn_active x)) <$> sends (f c)) =
     ((fun x => (slots x, nextToken x, sn_active x)) <$> sends c)) -> evolves R (modify f).
Proof using.
  intros E. apply fe_same. intros s. destruct (E (con s)) as (E1 & E2 & E3). unfold beyondSend, outstanding.
  cbn. by rewrite E1, E2, E3.
Qed.
Lemma fe_eligible i : evolves R (eligible i).
Proof using. by apply fe_same. Qed.
Lemma fe_ready : evolves R ready.
Proof using. by apply fe_same. Qed.
#[local] Hint Extern 1 (evolves _ (modify _)) => apply fe_modify; done : evolve.
#[local] Hint Resolve fe_eligible fe_ready : evolve.
Lemma fe_sendAppend b limit : evolves R (sendAppend b limit).
Proof using. unfold sendAppend. evolve. Qed.
Lemma fe_sealNext t : evolves R (sealNext t).
Proof using.
  apply fe_same. intros s. unfold sealNext. destruct (queue (con s)); [|done].
  destruct (Aggregation.SealWithWorkspace _ _ _ _ _ _) as [[[[o|e] q1] ws] w]; done.
Qed.
Lemma fe_releaseOut : evolves R releaseOut.
Proof using.
  apply fe_same. intros s. unfold releaseOut. destruct (out (con s)); [|done].
  by destruct (Aggregation.Output_Release _ _ _) as [[? ?] ?].
Qed.
Lemma fe_stick e : evolves R (modify (stick e)).
Proof using. apply fe_modify. intros c. unfold stick. by destruct e, (sticky c). Qed.
#[local] Hint Resolve fe_sendAppend fe_sealNext fe_releaseOut fe_stick : evolve.
Lemma fe_finishGroup : evolves R finishGroup.
Proof using. unfold finishGroup. evolve. Qed.
Lemma fe_emit i snd_ b packet : evolves R (emit i snd_ b packet now).
Proof using. apply emits_control, fc_emit; [done|by intros p p' []]. Qed.
#[local] Hint Resolve fe_finishGroup fe_emit : evolve.
Lemma fe_dataStep : evolves R (dataStep now).
Proof using.
  unfold dataStep, sealData, reroute. evolve; try by apply fe_same. intros s. exact (fe_stick _ s).
Qed.
Lemma fe_driveData : evolves R (driveData now).
Proof using.
  unfold driveData. generalize (Z.to_nat MaxSendsPerStep). intros n. induction n as [|n IH]; [apply ev_ret|].
  intros s. cbn [dataLoop]. destruct (_ <? _); [|done]. revert s.
  change (evolves R (let! more := dataStep now in if more then dataLoop n now else ret tt)).
  apply ev_bind; [apply fe_dataStep|]. intros [|]; [done|apply ev_ret].
Qed.
Lemma fe_driveControl : evolves R (driveControl now).
Proof using. apply emits_control, fc_driveControl; [done|by intros p p' []]. Qed.
End sync.

Section owned.
Abbreviation R := drives.
Lemma fo_control {A} (m : M A) : evolves (controls quiet 0) m -> evolves R m.
Proof using. intros E. eapply drives_emits, emits_control, E. Qed.
Lemma fo_same {A} (m : M A) :
  (forall s, beyondSend (snd (m s)) = beyondSend s /\ outstanding (snd (m s)) = outstanding s /\
     paths (con (snd (m s))) = paths (con s)) -> evolves R m.
Proof using.
  intros E s. destruct (E s) as (E1 & E2 & E3). split; [unfold same; by rewrite E1, E2|].
  by apply onPaths_same; [apply _|].
Qed.
Lemma fo_onSends f :
  (forall x, (slots (f x), nextToken (f x), sn_active (f x)) =
             (slots x, nextToken x, sn_active x)) -> evolves R (onSends f).
Proof using.
  intros E. apply (drives_emits _ 0), fe_modify. intros c. cbn. split_and!; try done.
  destruct (sends c); cbn; [by rewrite E|done].
Qed.
Lemma fo_onRetry r f : (forall x, pending (f x) = true -> pending x = true) -> evolves R (onRetry r f).
Proof using. intros E. apply fo_control, fc_onRetry; [done|by intros p p' []|done]. Qed.
Lemma fo_onFrame f g : evolves R (onFrame f g).
Proof using.
  destruct f as [r|i k]; cbn [onFrame]; [by apply fo_onRetry|].
  apply fo_control, fc_quiet; [done|by intros p p' []|].
  intros p. destruct k; (split; [quiet_leaf|done]).
Qed.
Lemma fo_report a : evolves R (report a).
Proof using. by apply fo_same. Qed.
Lemma fo_modify f :
  (forall c, maskSend (f c) = maskSend c /\ paths (f c) = paths c /\
     ((fun x => (slots x, nextToken x, sn_active x)) <$> sends (f c)) =
     ((fun x => (slots x, nextToken x, sn_active x)) <$> sends c)) -> evolves R (modify f).
Proof using. intros E. by apply (drives_emits _ 0), fe_modify. Qed.
Lemma fo_ready : evolves R ready.
Proof using. by apply fo_same. Qed.
Lemma fo_stepFull : evolves R stepFull.
Proof using. by apply fo_same. Qed.
Lemma fo_eligible i : evolves R (eligible i).
Proof using. by apply fo_same. Qed.
Lemma fo_startEncoding i t : evolves R (startEncoding i t).
Proof using. apply fo_control, fc_startEncoding. Qed.
Lemma fo_stick e : evolves R (modify (stick e)).
Proof using. apply (drives_emits _ 0), fe_stick. Qed.
Lemma fo_sealNext t : evolves R (sealNext t).
Proof using. apply (drives_emits _ 0), fe_sealNext. Qed.
Lemma fo_sendAppend b limit : evolves R (sendAppend b limit).
Proof using. apply (drives_emits _ 0), fe_sendAppend. Qed.
Lemma fo_finishGroup : evolves R finishGroup.
Proof using. apply (drives_emits _ 0), fe_finishGroup. Qed.
#[local] Hint Extern 1 (evolves _ (modify _)) => apply fo_modify; done : evolve.
#[local] Hint Extern 1 (evolves _ (onSends _)) => apply fo_onSends; done : evolve.
#[local] Hint Extern 1 (evolves _ (onRetry _ _)) => apply fo_onRetry; done : evolve.
#[local] Hint Resolve fo_onFrame fo_report fo_ready fo_stepFull fo_eligible fo_startEncoding fo_stick fo_sealNext
  fo_sendAppend fo_finishGroup : evolve.
Lemma fo_sendAuthenticate e : evolves R (sendAuthenticate e).
Proof using. unfold sendAuthenticate. evolve. Qed.
Lemma fo_failQueued v now e : evolves R (failQueuedControl v now e).
Proof using. unfold failQueuedControl. evolve. Qed.
#[local] Hint Resolve fo_sendAuthenticate fo_failQueued : evolve.
Lemma fo_prepareVisit now v : evolves R (prepareVisit now v).
Proof using. unfold prepareVisit. evolve. Qed.
Lemma ev_visit (Q : relation St) `{!PreOrder Q} {A} (visit : ownedControl -> M (option A)) :
  (forall v, evolves Q (visit v)) -> evolves Q (visitOwnedControls visit).
Proof using.
  intros E. unfold visitOwnedControls. apply ev_bind; [apply ev_reads|]. intros c.
  generalize (i ← around (controlCursor c) (length (paths c)); src ← sources; [(i, src)]).
  intros l. induction l as [|[i src] l IH]; cbn [visitAll]; evolve; done.
Qed.
Lemma fo_prepare now : evolves R (prepareOwnedControls now).
Proof using.
  unfold prepareOwnedControls, rotateOwnedContext. evolve. apply ev_visit; [apply _|]. apply fo_prepareVisit.
Qed.
Lemma fo_completeOwnedControl slot o : evolves R (completeOwnedControl slot o).
Proof using.
  unfold completeOwnedControl. evolve; apply fo_modify; intros c; by repeat case_match.
Qed.
Lemma fo_completeOwnedShard k e : evolves R (completeOwnedShard k e).
Proof using. unfold completeOwnedShard. evolve. Qed.
#[local] Hint Resolve fo_prepare fo_completeOwnedShard : evolve.
Lemma fo_expireOwnedData now : evolves R (expireOwnedData now).
Proof using.
  unfold expireOwnedData. evolve. match goal with |- evolves _ (expireShards ?l) => generalize l end.
  intros l. induction l; cbn [expireShards]; evolve; done.
Qed.
#[local] Hint Resolve fo_expireOwnedData : evolve.
Lemma fo_driveOwned now : evolves R (driveOwned now).
Proof using.
  unfold driveOwned. evolve. apply fo_modify. intros c. split_and!; try done. cbn. by destruct (sends c).
Qed.
#[local] Hint Resolve fo_driveOwned : evolve.
Lemma fo_drive now : evolves R (drive now).
Proof using.
  unfold drive. evolve; apply (drives_emits _ now); [apply fe_driveControl|apply fe_driveData|..];
    by apply fe_modify.
Qed.
End owned.

(** ** Receiving *)

Definition beyondData (s : St) := (maskData (con s), Sends (res s), PathsChanged (res s), intents s, spaces s, env s).
Abbreviation Rd := (same beyondData).

Lemma fd_modify f : (forall c, maskData (f c) = maskData c) -> evolves Rd (modify f).
Proof using. intros E s. unfold same, beyondData. cbn. by rewrite E. Qed.
#[local] Hint Extern 1 (evolves _ (modify _)) => apply fd_modify; reflexivity : evolve.
Lemma fd_onLedger {A} (f : World -> A * World) : evolves Rd (onLedger f).
Proof using. intros s. unfold onLedger. by destruct (f (ledger s)). Qed.
Lemma fd_releaseLease l : evolves Rd (releaseLease l).
Proof using. apply fd_onLedger. Qed.
Lemma fd_unlink i : evolves Rd (modify (unlinkGroup i)).
Proof using. apply fd_modify. intros c. unfold unlinkGroup. cbv zeta. by repeat case_match. Qed.
Lemma fd_insert i g : evolves Rd (modify (insertGroup i g)).
Proof using. apply fd_modify. intros c. unfold insertGroup. cbv zeta. by case_match. Qed.
#[local] Hint Resolve fd_onLedger fd_releaseLease fd_unlink fd_insert : evolve.
Lemma fd_releaseGroup i : evolves Rd (releaseGroup i).
Proof using. unfold releaseGroup. evolve. Qed.
#[local] Hint Resolve fd_releaseGroup : evolve.
Lemma fd_expireGroup i : evolves Rd (expireGroup i).
Proof using. unfold expireGroup, finishWindow. evolve. Qed.
#[local] Hint Resolve fd_expireGroup : evolve.
Lemma fd_expireGroups now : evolves Rd (expireGroups now).
Proof using.
  unfold expireGroups. evolve. match goal with |- evolves _ (expireLoop ?n _) => generalize n end.
  intros n. induction n; cbn [expireLoop]; evolve; done.
Qed.
Lemma fd_addOriginals now fs : evolves Rd (addOriginals now fs).
Proof using. intros s. unfold addOriginals. by destruct (Reassembly.AddGroup _ _ _ _) as [[? ?] ?]. Qed.
Lemma fd_deliver ds : evolves Rd (result_ (fun r => r <| Deliveries ::= fun l => l ++ ds |>)).
Proof using. done. Qed.
#[local] Hint Resolve fd_addOriginals fd_deliver : evolve.
Lemma fd_admitOriginals i now : evolves Rd (admitOriginals i now).
Proof using. unfold admitOriginals, finishWindow. evolve. Qed.
#[local] Hint Resolve fd_admitOriginals : evolve.
Lemma fd_decodeGroup i now : evolves Rd (decodeGroup i now).
Proof using. unfold decodeGroup, onGroup. evolve. Qed.
#[local] Hint Resolve fd_decodeGroup : evolve.
Lemma fd_receiveRecord r restricted now : evolves Rd (receiveRecord r restricted now).
Proof using. unfold receiveRecord, openGroup, reserveGroup, onGroup. evolve. Qed.
#[local] Hint Resolve fd_receiveRecord : evolve.
Lemma fd_receiveBundle now e limit restricted : evolves Rd (receiveBundle now e limit restricted).
Proof using. unfold receiveBundle. evolve. Qed.
Lemma fd_retryGroups now : evolves Rd (retryGroups now).
Proof using. unfold retryGroups. evolve. Qed.
Lemma fd_expireOriginals now : evolves Rd (expireOriginals now).
Proof using.
  intros s. unfold expireOriginals. by destruct (Reassembly.Expire _ _ _) as [[[?|?] ?] ?].
Qed.
End frames.

(** ** The loop of [driveData] ends

    [dataLoop] takes fuel.  Every iteration that goes on has emitted a packet, and a call
    emits at most [MaxSendsPerStep], so the fuel that [driveData] passes is enough: with
    more of it the loop does the same. *)

Section loops.
Context `{L : Ledger} `{K : Links} `{Y : Layout} `{Fec.ReedSolomon}.

(** ** Operations that emit nothing *)

Definition sent (s : St) : Z := len (Sends (res s)).
Abbreviation Rs := (same sent).

Lemma se_modify f : evolves Rs (modify f).
Proof using. done. Qed.
Lemma se_sealNext now : evolves Rs (sealNext now).
Proof using.
  intros s. unfold sealNext. destruct (queue (con s)); [|done].
  by destruct (Aggregation.SealWithWorkspace _ _ _ _ _ _) as [[[[o|e] q1] ws] w].
Qed.
Lemma se_releaseOut : evolves Rs releaseOut.
Proof using.
  intros s. unfold releaseOut. destruct (out (con s)); [|done].
  by destruct (Aggregation.Output_Release _ _ _) as [[? ?] ?].
Qed.
Lemma se_eligible i : evolves Rs (eligible i).
Proof using. done. Qed.
#[local] Hint Resolve se_modify se_sealNext se_releaseOut se_eligible : evolve.
Lemma se_sealData now : evolves Rs (sealData now).
Proof using. unfold sealData. evolve. by intros s. Qed.
Lemma se_reroute : evolves Rs reroute.
Proof using. unfold reroute. evolve. Qed.
Lemma se_sendAppend b limit : evolves Rs (sendAppend b limit).
Proof using. unfold sendAppend. evolve. Qed.
Lemma se_finishGroup : evolves Rs finishGroup.
Proof using. unfold finishGroup. evolve. Qed.
#[local] Hint Resolve se_sealData se_reroute se_sendAppend se_finishGroup : evolve.

(** A packet is emitted exactly when [emit] says so. *)
Lemma emit_sent i x b packet now s :
  wp (emit i x b packet now) (fun r s' => exists v, r = Ok v /\ sent s' = sent s + if v then 1 else 0) s.
Proof using.
  unfold emit. apply wp_path. unfold wp.
  match goal with |- context [if ?g then _ else _] => destruct g end; [exists false; split; [done|]; cbn; lia|].
  destruct (Emit _ _ _) as [err e]. exists true. split; [done|]. unfold sent. cbn.
  by rewrite len_app.
Qed.

(** An iteration of [driveData] that goes on has emitted a packet. *)
Definition goesOn (n : Z) (r : result CtlError bool) (s : St) : Prop := r = Ok true -> sent s = n + 1.

Lemma goes_last {A} n (m : M A) (k : A -> M bool) s :
  evolves Rs m -> sent s = n + 1 -> (forall a, evolves Rs (k a)) -> wp (bind m k) (goesOn n) s.
Proof using.
  intros E Es Ek _. change (sent (snd (bind m k s)) = n + 1). rewrite <- Es.
  exact (ev_bind (R := Rs) m k E Ek s).
Qed.

Lemma dataStep_goesOn now s : wp (dataStep now) (goesOn (sent s)) s.
Proof using.
  unfold dataStep. set (n := sent s). assert (R0 : Rs s s) by done.
  assert (Stop : forall e s1, Rs s s1 -> goesOn n (Err e : result CtlError bool) s1) by done.
  apply wp_reads. apply (wp_step (R := Rs)) with (s0 := s); [evolve|done|done|].
  intros more s1 R1. wp_if G; [done|]. apply wp_reads. wp_if G1; [done|]. wp_if G2; [done|].
  apply (wp_step (R := Rs)) with (s0 := s); [apply se_reroute|done|done|].
  intros [i|] s2 R2; [|done]. apply wp_reads. cbv zeta.
  apply (wp_step (R := Rs)) with (s0 := s); [apply se_sendAppend|done|done|].
  intros packet s3 R3. apply wp_bind. eapply wp_weaken; [apply emit_sent|].
  intros r s4 (v & -> & E). unfold same in R3. cbn [after]. destruct v; [|done]. cbn [negb].
  apply goes_last; [by intros s'|by rewrite E, R3|evolve].
Qed.

(** ** The fuel of [driveData] *)

Lemma dataLoop_enough now s n m :
  (Z.to_nat (MaxSendsPerStep - sent s) <= n)%nat -> (Z.to_nat (MaxSendsPerStep - sent s) <= m)%nat ->
  dataLoop n now s = dataLoop m now s.
Proof using.
  assert (Full : forall k s, sent s >= MaxSendsPerStep -> dataLoop k now s = (Ok tt, s)).
  { intros [|k] t Ht; [done|]. cbn [dataLoop]. unfold sent in Ht.
    by replace (len (Sends (res t)) <? MaxSendsPerStep) with false by lia. }
  revert s m. induction n as [|n IH]; intros s m Hn Hm.
  { rewrite !Full; [done|lia|lia]. }
  destruct (Z.lt_ge_cases (sent s) MaxSendsPerStep) as [Hs|Hs]; [|rewrite !Full; [done|lia|lia]].
  destruct m as [|m]; [lia|]. cbn [dataLoop]. unfold sent in Hs.
  replace (len (Sends (res s)) <? MaxSendsPerStep) with true by lia.
  unfold bind at 1 2. pose proof (dataStep_goesOn now s) as W. unfold wp in W.
  destruct (dataStep now s) as [[[|]|e] s1]; cbn [fst snd] in W; try done.
  specialize (W eq_refl). apply IH; fold (sent s) in *; lia.
Qed.

(** [driveData] is the loop of the source, which has no bound of its own. *)
Lemma driveData_enough now s n :
  (Z.to_nat MaxSendsPerStep <= n)%nat -> dataLoop n now s = driveData now s.
Proof using. intros Hn. apply dataLoop_enough; unfold sent, len in *; lia. Qed.
End loops.
