(* ===== verification/SessionV2Run.v ===== *)
(** * Runs of a Controller

    The calls of an owner, the states they reach, and what [New] sets up. *)

From S2P Require Import Prelude CreditScope SessionV2Types SessionV2Control SessionV2Send SessionV2Data SessionV2.
From S2P Require Import SessionV2Rules SessionV2Frames.
From S2P Require Credit Fec FecV2 Negotiation Transcript WireV2 WireV2Bundle WireV2BundleProps Handshake.
From S2P Require Aggregation Reassembly RecvWindow.
From Stdlib Require Import RelationClasses.

Section calls.
Context `{L : Ledger} `{K : Links} `{Y : Layout} `{Fec.ReedSolomon}.

(** ** Calls *)

Inductive call :=
| CallStart (now : Z)
| CallWrite (now : Z) (payload : bytes)
| CallFlush (now : Z)
| CallAdvance (now : Z)
| CallFailPath (now : Z) (b : Binding)
| CallJoin (now : Z) (carrier : Carrier)
| CallReceive (now : Z) (b : Binding) (reply : option Sender) (packet : bytes)
| CallTakeSend (now : Z)
| CallCompleteSend (now : Z) (o : SendOutcome)
| CallRelease (token : Z)
| CallStopAdmissions
| CallBeginClose
| CallFinalizeClose
| CallClose.

Definition perform (c : call) (s : St) : St :=
  match c with
  | CallStart now => snd (Start now s)
  | CallWrite now payload => snd (Write now payload s)
  | CallFlush now => snd (Flush now s)
  | CallAdvance now => snd (Advance now s)
  | CallFailPath now b => snd (FailPath now b s)
  | CallJoin now carrier => snd (Join now carrier s)
  | CallReceive now b reply packet => snd (Receive now b reply packet s)
  | CallTakeSend now => snd (TakeSend now s)
  | CallCompleteSend now o => snd (CompleteSend now o s)
  | CallRelease t => ReleaseIntent t s
  | CallStopAdmissions => s <| con ::= StopAdmissions |>
  | CallBeginClose => s <| con ::= BeginClose |>
  | CallFinalizeClose => snd (FinalizeClose s)
  | CallClose => Close s
  end.

(** The states of a Controller that [New] made: its calls are interleaved with other
    users of the ledger, within [others], and with any change of the adapter. *)
Inductive reachable (others : St -> World -> Prop) : St -> Prop :=
| reach_new addr su cf st s :
    intents st = ∅ -> New addr su cf st = (Ok tt, s) -> reachable others s
| reach_call c s : reachable others s -> reachable others (perform c s)
| reach_others s w e : reachable others s -> others s w ->
    reachable others (s <| ledger := w |> <| env := e |>).

(** ** What New sets up *)

Lemma bind_ok {A B} (m : M A) (k : A -> M B) s b s' :
  bind m k s = (Ok b, s') -> exists a s1, m s = (Ok a, s1) /\ k a s1 = (Ok b, s').
Proof using. unfold bind. destruct (m s) as [[a|e] s1]; [|done]. intros E. by exists a, s1. Qed.

Lemma lift_ok {E A} (inj : E -> CtlError) (r : result E A) s a s' :
  lift inj r s = (Ok a, s') -> r = Ok a /\ s' = s.
Proof using. unfold lift. destruct r; [|done]. by intros [= <- <-]. Qed.

Record fresh (su : Handshake.Setup) (p : plan) (s : St) : Prop := {
  fr_setup : sessionID (con s) = Handshake.ID su /\ contract (con s) = default zeroContract (Handshake.setup_Contract su) /\
    scope (con s) = Handshake.setup_Scope su /\ Handshake.setup_Role (setup (con s)) = Handshake.setup_Role su;
  fr_cfg : cfg (con s) = (pl_cfg p) <| Carriers := [] |> <| PathRatesBPS := ∅ |>;
  fr_keys : sendKey (con s) = sendKey (bare su p) /\ receiveKey (con s) = receiveKey (bare su p);
  fr_auth : exists a, WireV2.NewAuthenticator (receiveKey (con s)) = Ok a /\ receiveAuth (con s) = Some a;
  fr_paths : exists snd_ g n, paths (con s) = alter (bootstrap (Handshake.setup_Binding su) snd_ g n)
    (pathIndex (Handshake.PathID su))
    (newPath (pl_cfg p) (match Handshake.setup_Role su with Negotiation.Initiator => true | _ => false end) <$> seq 0 (Z.to_nat (pl_paths p)));
  fr_sends : sends (con s) = if OwnedSends (pl_cfg p)
    then Some (noSends <| slots := replicate (Z.to_nat (Z.min (MaxInFlightSends (pl_cfg p)) (pl_paths p))) zeroSlot |>)
    else None;
  fr_groups : groups (con s) = ∅ /\ groupHead (con s) = 0 /\ groupTail (con s) = 0 /\ decodedGroups (con s) = 0;
  fr_flags : closed (con s) = false /\ finalized (con s) = false /\ started (con s) = false /\
    haveTime (con s) = false /\ busy (con s) = false /\ receiveAckSent (con s) = false /\ sticky (con s) = None /\
    accepted (con s) = 0 /\ completed (con s) = 0 /\ out (con s) = None }.

Lemma bindInitial_ok su i claims s l s' :
  bindInitial su i claims s = (Ok l, s') -> con s' = con s /\ intents s' = intents s.
Proof using.
  unfold bindInitial. intros (r & s1 & E1 & E2)%bind_ok. apply lift_ok in E2 as [-> ->].
  unfold onLedger in E1. destruct (BindBytes _ _ _ _). injection E1 as _ <-. done.
Qed.

Lemma queue_installed addr su p s s' :
  newQueue addr su p s = (Ok tt, s') -> intents s' = intents s /\ exists q, con s' = (con s) <| queue := Some q |>.
Proof using.
  unfold newQueue. destruct (Aggregation.NewPrepaid _ _ _ _ _ _) as [[q|e] w]; [|done].
  intros [= <-]. split; [done|by exists q].
Qed.

Lemma newWorkspace_ok su s s' :
  newWorkspace su s = (Ok tt, s') ->
  intents s' = intents s /\ exists x, con s' = (con s) <| outputWorkspace := Some x |>.
Proof using.
  unfold newWorkspace. destruct (queue (con s)); [|done].
  destruct (Aggregation.NewPrepaidOutputWorkspace _ _ _ _) as [[[x|e] ws] w]; [|done].
  intros [= <-]. split; [done|by exists x].
Qed.

Lemma newOriginals_ok su p s s' :
  newOriginals su p s = (Ok tt, s') -> intents s' = intents s /\ exists x w w',
    con s' = (con s) <| originals := Some x |> /\
    Reassembly.NewPrepaid (Handshake.setup_Scope su) (cfg_Reassembly (pl_cfg p))
      (Handshake.Initial su !! InitialOriginalWindow) w = (Ok x, w').
Proof using.
  unfold newOriginals. destruct (Reassembly.NewPrepaid _ _ _ _) as [[x|e] w] eqn:E; [|done].
  intros [= <-]. split; [done|by exists x, (ledger s), w].
Qed.

Lemma boundSender_ok b x s r s' : boundSender b x s = (Ok r, s') -> s' = s.
Proof using.
  unfold boundSender, captureBoundSender. intros (o & s1 & [= <- <-] & E)%bind_ok. revert E. cbn.
  destruct (OwnedSends _); [|by intros [= _ <-]]. destruct x as [x|]; [|done].
  intros (o1 & s1 & [= <- <-] & E)%bind_ok. destruct (CaptureSendPath _ _) as [[a n]|]; [|done].
  destruct (_ && _); [done|]. apply bind_ok in E as (g & s1 & [= <- <-] & E). by injection E as _ <-.
Qed.

Lemma con_update f (s : St) : con (s <| con ::= f |>) = f (con s).
Proof using. done. Qed.
Lemma intents_update f (s : St) : intents (s <| con ::= f |>) = intents s.
Proof using. done. Qed.

Lemma construct_ok addr su p claims s s' :
  (exists l, con s = (bare su p) <| controlLease := l |>) ->
  construct addr su p claims s = (Ok tt, s') -> fresh su p s' /\ intents s' = intents s.
Proof using.
  intros [l0 E0] E. unfold construct in E.
  apply bind_ok in E as (? & ? & [= <- <-] & E).
  apply bind_ok in E as (a1 & s1 & [A1 ->]%lift_ok & E).
  apply bind_ok in E as (? & s2 & [= _ <-] & E).
  apply bind_ok in E as (a2 & s3 & [A2 ->]%lift_ok & E).
  apply bind_ok in E as (? & s4 & [= _ <-] & E).
  apply bind_ok in E as (l1 & s5 & [C5 I5]%bindInitial_ok & E).
  apply bind_ok in E as (? & s6 & [= _ <-] & E).
  apply bind_ok in E as ([] & s7 & (I7 & q & C7)%queue_installed & E).
  apply bind_ok in E as ([] & s8 & (I8 & ow & C8)%newWorkspace_ok & E).
  apply bind_ok in E as (l2 & s9 & [C9 I9]%bindInitial_ok & E).
  apply bind_ok in E as (? & s10 & [= _ <-] & E).
  apply bind_ok in E as ([] & s11 & (I11 & o & w & w' & C11 & O11)%newOriginals_ok & E).
  apply bind_ok in E as (? & s12 & [= _ <-] & E).
  apply bind_ok in E as ([[sd g] n] & s13 & ->%boundSender_ok & E).
  apply bind_ok in E as (? & s14 & [= _ <-] & E). injection E as <-.
  rewrite !con_update in *. rewrite ?intents_update in *. rewrite C5 in C7. rewrite C7 in C8. rewrite C8 in C9. rewrite C9 in C11.
  split; [|congruence]. rewrite E0 in *. clear - C11 A2.
  split; rewrite !con_update, C11; try by cbn; try by split_and!.
  - exists a2. revert A2. generalize WireV2.NewAuthenticator. intros N A2. cbn in A2 |- *. by split.
  - exists sd, g, n. cbn. reflexivity.
Qed.

Lemma New_fresh addr su cf st s :
  New addr su cf st = (Ok tt, s) -> exists p, planNew su cf = Ok p /\ fresh su p s /\ intents s = intents st.
Proof using.
  unfold New. destruct (requiredInitialClaims cf) as [claims|]; [|done].
  destruct (planNew su cf) as [p|]; [|done]. cbv zeta. destruct (_ || _); [done|].
  destruct (bindInitial _ _ _ _) as [[l|e] s1] eqn:E1; [|done]. apply bindInitial_ok in E1 as [C1 I1].
  destruct (bind _ _ s1) as [[[]|e] s2] eqn:E2; [|done]. intros [= <-]. exists p. split; [done|].
  apply bind_ok in E2 as (? & s3 & [= _ <-] & E). apply construct_ok in E as [F I]; [|exists (Some l); rewrite con_update, C1, con_update; reflexivity].
  split; [exact F|]. rewrite I. exact I1.
Qed.

(** ** Relations between the states before and after a call *)

(** The fields that the entry points assign themselves. *)
Definition maskLocal (c : Controller) : Controller :=
  c <| accepted := 0 |> <| forced := 0 |> <| started := false |> <| contextPath := 0 |> <| last := None |>
    <| haveTime := false |> <| busy := false |> <| accepting := false |>.
Definition beyondLocal (s : St) :=
  (maskLocal (con s), Sends (res s), Deliveries (res s), intents s, spaces s, ledger s, env s).

(** A relation that holds for what the bodies of the calls are made of holds for the bodies. *)
Class Admits (R : relation St) (now : Z) : Prop := {
  ad_preorder :: PreOrder R;
  ad_quiet : forall A (m : M A), evolves (controls quiet now) m -> evolves R m;
  ad_local : forall A (m : M A), evolves (same beyondLocal) m -> evolves R m;
  ad_startJoin : forall carrier, evolves R (startJoin carrier now);
  ad_drive : evolves R (drive now);
  ad_admit : forall payload, evolves R (admitPayload payload now);
  ad_fail : forall b s, R s (s <| con ::= fun c => c <| paths ::= fmap (failBinding b) |> |>);
  ad_expireGroups : evolves R (expireGroups now);
  ad_expireOriginals : evolves R (expireOriginals now);
  ad_retryGroups : evolves R (retryGroups now);
  ad_receiveBundle : forall e limit restricted, evolves R (receiveBundle now e limit restricted) }.

Section bodies.
Context {R : relation St} {now : Z} `{!Admits R now}.
#[local] Hint Extern 1 (evolves _ (startJoin _ _)) => apply ad_startJoin : evolve.
#[local] Hint Extern 1 (evolves _ (drive _)) => apply ad_drive : evolve.
#[local] Hint Extern 1 (evolves _ (admitPayload _ _)) => apply ad_admit : evolve.
#[local] Hint Extern 1 (evolves _ (expireGroups _)) => apply ad_expireGroups : evolve.
#[local] Hint Extern 1 (evolves _ (expireOriginals _)) => apply ad_expireOriginals : evolve.
#[local] Hint Extern 1 (evolves _ (retryGroups _)) => apply ad_retryGroups : evolve.
#[local] Hint Extern 1 (evolves _ (receiveBundle _ _ _ _)) => apply ad_receiveBundle : evolve.
#[local] Hint Extern 1 (evolves _ (modify _)) => apply ad_local; intros ?; done : evolve.
Lemma ad_ready : evolves R ready.
Proof using Admits0. by apply ad_local. Qed.
Lemma ad_startBudget i : evolves R (startBudget i now).
Proof using Admits0. apply ad_quiet, fc_startBudget; auto using quiet_still. Qed.
Lemma ad_driveControl : evolves R (driveControl now).
Proof using Admits0. apply ad_quiet, fc_driveControl; auto using quiet_still. Qed.
Lemma ad_moveContext : evolves R (moveContext now).
Proof using Admits0. apply ad_quiet, fc_moveContext; auto using quiet_still. Qed.
Lemma ad_expireControl : evolves R (expireControl now).
Proof using Admits0. apply ad_quiet, fc_expireControl; auto using quiet_still. Qed.
Lemma ad_budgetPacket i m : evolves R (receiveBudgetPacket i now m).
Proof using Admits0. apply ad_quiet, fc_receiveBudgetPacket; auto using quiet_still. Qed.
Lemma ad_receiveEncoding i e : evolves R (receiveEncoding i now e).
Proof using Admits0. apply ad_quiet, fc_receiveEncoding; auto using quiet_still. Qed.
#[local] Hint Resolve ad_ready ad_startBudget ad_driveControl ad_moveContext ad_expireControl ad_budgetPacket
  ad_receiveEncoding : evolve.
Lemma ad_StartBody : evolves R (StartBody now).
Proof using Admits0. unfold StartBody. evolve. Qed.
Lemma ad_WriteBody payload : evolves R (WriteBody now payload).
Proof using Admits0.
  unfold WriteBody. evolve. apply ad_local. intros s. unfold same, beyondLocal. cbn. by case_match.
Qed.
Lemma ad_FlushBody : evolves R (FlushBody now).
Proof using Admits0. unfold FlushBody. evolve. Qed.
Lemma ad_AdvanceBody : evolves R (AdvanceBody now).
Proof using Admits0. unfold AdvanceBody. evolve. Qed.
Lemma ad_FailPathBody b : evolves R (FailPathBody now b).
Proof using Admits0. unfold FailPathBody. evolve; try by apply ad_local. intros s. apply (ad_fail b s). Qed.
Lemma ad_JoinBody carrier : evolves R (JoinBody now carrier).
Proof using Admits0. unfold JoinBody. evolve. Qed.
Lemma ad_receiveRouted i b e m size : evolves R (receiveRouted i now b e m size).
Proof using Admits0. unfold receiveRouted. evolve. Qed.

(** The entry point around a body. *)
Lemma ad_entered {A} (body : M A) s :
  evolves R body -> let s1 := s <| res := zeroResult |> in R s1 (snd (entered now body s)).
Proof using Admits0.
  intros E s1. unfold entered. cbv zeta. destruct (enter _ _); [done|]. fold s1.
  specialize (E (s1 <| con ::= clocked now |>)). destruct (body _) as [r s2]. cbn [snd] in *.
  etransitivity; [|etransitivity; [exact E|]].
  - refine (ad_local _ (modify (clocked now)) _ s1). by intros s'.
  - refine (ad_local _ (fun s => (Ok tt, leave s)) _ s2). by intros s'.
Qed.
End bodies.
End calls.
