(* ===== verification/SessionV2Paths.v ===== *)
(** * Path authority of a version 2 Session

    What each operation may do to the tuple of a path: its generation, its binding, its
    sender and whether it is active.  Only a validated join gives a path a new tuple. *)

From S2P Require Import Prelude CreditScope SessionV2Types SessionV2Control SessionV2Send SessionV2Data SessionV2.
From S2P Require Import SessionV2Rules SessionV2Frames SessionV2Run.
From S2P Require Credit Fec FecV2 Negotiation WireV2 WireV2Bundle WireV2BundleProps Handshake Aggregation Reassembly.
Import WireV2 (Nonce, zero16).
From Stdlib Require Import RelationClasses.

Section paths.
Context `{L : Ledger} `{K : Links} `{Y : Layout} `{Fec.ReedSolomon}.

(** The tuple of every path is what it was, or the path is inactive. *)
Abbreviation R := (onPaths steady).
(** The same, and the Controller changed only where sending does. *)
Definition owns : relation St := fun s s' => same beyondSend s s' /\ R s s'.
#[export] Instance owns_preorder : PreOrder owns.
Proof. split; [by intros s; split|]. intros a b c [? ?] [? ?]. split; by etransitivity. Qed.

Lemma quiet_steady s s' : onPaths quiet s s' -> R s s'.
Proof using. intros P i p E. destruct (P i p E) as (q & ? & []). by exists q. Qed.
Lemma sp_controls {A} (m : M A) now : evolves (controls quiet now) m -> evolves R m.
Proof using. apply evolves_sub. intros s s' (_ & P & _). by apply quiet_steady. Qed.
Lemma sp_data {A} (m : M A) : evolves (same beyondData) m -> evolves R m.
Proof using.
  apply evolves_sub. unfold same, beyondData. intros s s' E. apply onPaths_same; [apply _|].
  exact (f_equal (fun x => paths x.1.1.1.1.1) E).
Qed.
Lemma sp_onPath i f : (forall p, steady p (f p)) -> evolves R (onPath i f).
Proof using. intros E s. apply (onPaths_alter steady _ _ i f); [done|auto]. Qed.
Lemma sp_same {A} (m : M A) : (forall s, paths (con (snd (m s))) = paths (con s)) -> evolves R m.
Proof using. intros E s. apply onPaths_same; [apply _|apply E]. Qed.

(** ** Owned sends *)

Lemma so_drives {A} (m : M A) : evolves drives m -> evolves owns m.
Proof using.
  apply evolves_sub. intros s s' (E & P). split; [exact (f_equal fst E)|by apply quiet_steady].
Qed.
Lemma so_onPath i f : (forall p, steady p (f p)) -> evolves owns (onPath i f).
Proof using. intros E s. split; [done|by apply sp_onPath]. Qed.
Lemma so_same {A} (m : M A) : (forall s, beyondSend (snd (m s)) = beyondSend s /\
  paths (con (snd (m s))) = paths (con s)) -> evolves owns m.
Proof using. intros E s. destruct (E s). split; [done|by apply onPaths_same; [apply _|]]. Qed.
Lemma so_onSends f : evolves owns (onSends f).
Proof using. by apply so_same. Qed.

#[local] Hint Extern 1 (evolves _ (modify _)) => apply so_same; done : evolve.
#[local] Hint Extern 1 (evolves _ (onPath _ _)) => apply so_onPath; intros ?; apply steady_intro; cbn; by auto : evolve.
#[local] Hint Extern 2 (evolves _ _) => apply so_drives; solve [auto 1 using fo_report, fo_driveOwned, fo_drive, fo_eligible,
  fo_sendAppend, fo_sendAuthenticate, fo_failQueued, fo_stepFull, fo_onFrame, fo_ready, fo_completeOwnedShard,
  fo_completeOwnedControl with nocore] : evolve.
#[local] Hint Extern 1 (evolves _ (onRetry _ _)) => apply so_drives, fo_onRetry; done : evolve.
#[local] Hint Resolve so_onSends : evolve.

Lemma so_installIntent k slot i snd_ packet : evolves owns (installIntent k slot i snd_ packet).
Proof using. unfold installIntent. evolve; by apply so_same. Qed.
#[local] Hint Resolve so_installIntent : evolve.
Lemma so_takeOwnedControl now k : evolves owns (takeOwnedControl now k).
Proof using.
  unfold takeOwnedControl. evolve. apply ev_visit; [apply _|]. intros v. unfold takeVisit. evolve; by apply so_same.
Qed.
Lemma so_takeOwnedData now k : evolves owns (takeOwnedData now k).
Proof using.
  unfold takeOwnedData. evolve. match goal with |- evolves _ (takeShards ?l _ _) => generalize l end.
  intros l. induction l; cbn [takeShards]; evolve; done.
Qed.
#[local] Hint Resolve so_takeOwnedControl so_takeOwnedData : evolve.
Lemma so_TakeSendBody now : evolves owns (TakeSendBody now).
Proof using. unfold TakeSendBody. evolve. Qed.
Lemma so_CompleteSendBody now k o : evolves owns (CompleteSendBody now k o).
Proof using. unfold CompleteSendBody. evolve. Qed.

(** ** Joins *)

Definition pathsOf (s : St) : list pathState := paths (con s).

Section same_paths.
Abbreviation S := (same pathsOf).
#[local] Hint Extern 1 (evolves _ (modify _)) => intros ?; reflexivity : evolve.
Lemma sj_random : evolves S randomBlock.
Proof using. intros s. unfold randomBlock. by destruct (Entropy (env s)). Qed.
#[local] Hint Resolve sj_random : evolve.
Lemma sj_nonceLoop n : evolves S (nonceLoop n).
Proof using. induction n; cbn [nonceLoop]; evolve; done. Qed.
Lemma sj_newControlRetry now : evolves S (newControlRetry now).
Proof using. unfold newControlRetry, nextControlID. evolve. Qed.
Lemma sj_boundSender b x : evolves S (boundSender b x).
Proof using. unfold boundSender, captureBoundSender. evolve. Qed.
End same_paths.

(** A join is planted on a path whose state was read before the draws. *)
Lemma plant {B} (k : Nonce -> controlRetry -> option Sender * Z * bool -> pathState -> pathState) i b x now s (rest : M B) :
  (forall nonce rt r p, paths (con s) !! i = Some p -> steady p (k nonce rt r p)) -> evolves R rest ->
  wp (let! nonce := randomNonce in
      let! rt := newControlRetry now in
      let! '(snd_, g, n) := boundSender b x in
      run onPath i (k nonce rt (snd_, g, n)) in rest) (fun _ => R s) s.
Proof using.
  intros Hk Hr. apply wp_bind, (evolves_wp (same pathsOf)); [apply sj_nonceLoop|].
  assert (Stay : forall s', same pathsOf s s' -> R s s').
  { intros s' E. apply onPaths_same; [apply _|exact E]. }
  intros [nonce|e] s1 E1; cbn [after]; [|by apply Stay].
  apply wp_bind, (evolves_wp (same pathsOf)); [apply sj_newControlRetry|].
  intros [rt|e] s2 E2; cbn [after]; [|apply Stay; by etransitivity].
  apply wp_bind, (evolves_wp (same pathsOf)); [apply sj_boundSender|].
  intros [[[sd g] n]|e] s3 E3; cbn [after]; [|apply Stay; do 2 (etransitivity; [done|]); done].
  assert (E : same pathsOf s s3) by (do 2 (etransitivity; [done|]); done).
  apply wp_bind. unfold wp. cbn [after onPath modify fst snd]. unfold wp.
  etransitivity; [|apply Hr].
  apply (onPaths_alter steady _ _ i (k nonce rt (sd, g, n))); [unfold same, pathsOf in E; cbn; by rewrite E|]. by intros p ?; apply Hk.
Qed.

Lemma u64_succ n : 0 <= n < maxUint64 -> u64 (n + 1) = n + 1.
Proof using. intros Hn. apply wrap_small. unfold in_u, maxUint64 in *. lia. Qed.

Lemma startJoin_steady carrier now : evolves R (startJoin carrier now).
Proof using.
  apply wp_evolves. intros s. unfold startJoin. apply wp_path.
  set (p := paths (con s) !!! _). destruct (_ || _) eqn:G; [by unfold wp|].
  apply orb_false_elim in G as [_ G].
  apply plant with (k := fun nonce rt r q => q <| floor := u64 (floor q + 1) |> <| join := {|
        retry := rt; kind := 0; client := nonce; server := zero16; jn_binding := car_Binding carrier;
        jn_sender := r.1.1; jn_generation := u64 (floor q + 1); committed := false; jn_transport := r.1.2;
        jn_native := r.2 |} |>).
  - intros nonce rt r q Eq. subst p. rewrite (lookup_paths _ _ _ Eq) in G. split; cbn; try done. intros [Rg F J N].
    rewrite u64_succ by lia. split; [|lia]. split; cbn; lia.
  - apply (sp_controls _ 0), fc_joinFrame; [done|by intros q q' []].
Qed.

Lemma answerJoin_steady i now b reply r cl sv :
  0 <= WireV2Bundle.Generation r <= maxUint64 -> evolves R (answerJoin i now b reply r cl sv).
Proof using.
  intros Hr. apply wp_evolves. intros s. unfold answerJoin.
  apply wp_reads.
  apply wp_path. cbv zeta.
  set (p := paths (con s) !!! _). destruct (_ || _); [by unfold wp|].
  destruct (pending _); [destruct (_ || _); by unfold wp|].
  destruct (_ <=? _) eqn:G; [by unfold wp|].
  apply plant with (k := fun nonce rt x q => q <| floor := WireV2Bundle.Generation r |> <| join := {|
        retry := rt; kind := 0; client := cl; server := nonce; jn_binding := b; jn_sender := x.1.1;
        jn_generation := WireV2Bundle.Generation r; committed := false; jn_transport := x.1.2;
        jn_native := x.2 |} |>).
  - intros nonce rt x q Eq. subst p. rewrite (lookup_paths _ _ _ Eq) in G. split; cbn; try done.
    intros [Rg F J N]. split; [|lia]. split; cbn; lia.
  - apply (sp_controls _ 0), fc_joinFrame; [done|by intros p' p'' []].
Qed.

(** At most the path [i], if it satisfies [V], adopts its join. *)
Definition joined (i : nat) (V : pathState -> Prop) : relation St := fun s s' =>
  forall j p', paths (con s') !! j = Some p' -> exists p, paths (con s) !! j = Some p /\
    (steady p p' \/ (j = i /\ V p /\ steady (adopt p) p')).

Lemma joined_steady i V s s1 s2 : joined i V s s1 -> R s1 s2 -> joined i V s s2.
Proof using.
  intros J S j p2 E2. destruct (S j p2 E2) as (p1 & E1 & S1). destruct (J j p1 E1) as (p & E & [Hs|(? & ? & Hs)]);
    exists p; (split; [done|]); [left|right; split_and!; [done|done|]]; by etransitivity.
Qed.
Lemma steady_joined i V s s' : R s s' -> joined i V s s'.
Proof using. intros S j p E. destruct (S j p E) as (q & ? & ?). exists q. auto. Qed.

Lemma joined_run {A} i (V : pathState -> Prop) (m : M A) (rest : A -> M unit) s :
  wp m (fun _ => joined i V s) s -> (forall a, evolves R (rest a)) ->
  wp (bind m rest) (fun _ => joined i V s) s.
Proof using.
  intros Hm Hr. apply wp_bind. eapply wp_weaken; [exact Hm|]. intros [a|e] s1 J; [|done].
  unfold after, wp. eapply joined_steady; [exact J|apply Hr].
Qed.

Lemma commitPath_adopts i now (V : pathState -> Prop) s :
  V (paths (con s) !!! i) -> wp (commitPath i now) (fun _ => joined i V s) s.
Proof using.
  intros HV. unfold commitPath. apply wp_reads.
  apply wp_path. cbv zeta.
  destruct (_ && _); [by apply steady_joined|]. apply joined_run.
  - unfold wp. cbn [onPath modify snd fst]. intros j p' E. revert E. cbn.
    destruct (decide (i = j)) as [<-|N].
    + rewrite list_lookup_alter_eq. destruct (paths (con s) !! i) as [q|] eqn:Eq; [|done].
      intros [= <-]. exists q. split; [done|right]. rewrite (lookup_paths _ _ _ Eq) in HV. split_and!; [done|done|].
      destruct (active q) eqn:Ha; [case_match|]; apply steady_intro; cbn; auto.
    + rewrite list_lookup_alter_ne by done. intros Hp. exists p'. split; [done|by left].
  - intros _. apply ev_bind; [by apply sp_same|]. intros _.
    apply (sp_controls _ 0), fc_startBudget; [done|by intros p p' []].
Qed.

(** The message that ends the validation of a join, in the role of [c]. *)
Record validates (c : Controller) (now : Z) (b : Binding) (m : WireV2Bundle.Established) (p : pathState) : Prop := {
  va_pending : pending (retry (join p)) = true;
  va_new : committed (join p) = false;
  va_time : Before now (deadline (retry (join p))) = true;
  va_binding : jn_binding (join p) = b;
  va_generation : jn_generation (join p) = WireV2Bundle.Generation (WireV2Bundle.Established_Route m);
  va_body : WireV2Bundle.Established_Body m = client (join p) ++ server (join p) ++ replicate 408 Byte.x00;
  va_server : server (join p) <> zero16;
  va_type : (isInitiator c = true /\ kind (join p) = TypePathConfirm /\
      WireV2.Header_Type (WireV2Bundle.Established_Header m) = WireV2.TypePathReady) \/
    (isResponder c = true /\ WireV2.Header_Type (WireV2Bundle.Established_Header m) = TypePathConfirm) }.

Lemma join_body body :
  len body = 440 -> allZero (drop 32 body) = true ->
  body = slice 0 16 body ++ slice 16 32 body ++ replicate 408 Byte.x00.
Proof using.
  intros Hl Hz. apply allZero_eq in Hz. rewrite length_drop in Hz.
  replace (length body - 32)%nat with 408%nat in Hz by (unfold len in Hl; lia).
  rewrite <- Hz, app_assoc, slice_join, <- (slice_to_end 32), slice_join, slice_all by (unfold len in Hl; lia). done.
Qed.

(** The last two messages of the exchange, matched against the pending join. *)
Lemma advanceJoin_joined i now t sv (V : pathState -> Prop) s :
  let p := paths (con s) !!! i in
  (committed (join p) = false -> server (join p) = sv ->
   (isInitiator (con s) = true /\ kind (join p) = TypePathConfirm /\ t = WireV2.TypePathReady) \/
   (isResponder (con s) = true /\ t = TypePathConfirm) -> V p) ->
  (t = WireV2.TypePathReady -> server (join p) = sv -> committed (join p) = false) ->
  wp (advanceJoin i now t sv) (fun _ => joined i V s) s.
Proof using.
  intros p HV Hc. unfold advanceJoin. apply wp_reads.
  apply wp_path. fold p. cbv zeta.
  assert (Stay : forall e : result CtlError unit, wp (fun s => (e, s)) (fun _ => joined i V s) s).
  { intros e. by apply steady_joined. }
  destruct (t =? TypePathChallenge).
  { destruct (negb _); [apply Stay|]. destruct (_ =? _); [destruct (negb _); apply Stay|].
    destruct (negb _); [apply Stay|]. apply steady_joined.
    refine (ev_bind (onPath i (fun p => setJoinNext (Some now) (setJoin (fun j => j <| server := sv |>) p))) _ _ _ s).
    - apply sp_onPath. intros q. apply steady_intro; cbn; auto.
    - intros _. apply (sp_controls _ 0), fc_joinFrame; [done|by intros q q' []]. }
  destruct (t =? TypePathConfirm) eqn:Ht.
  { apply Z.eqb_eq in Ht. destruct (_ || _) eqn:G; [apply Stay|]. apply orb_false_elim in G as [G1 G2].
    destruct (committed (join p)) eqn:Gc; [apply Stay|]. apply joined_run.
    - apply commitPath_adopts, HV; [done| |right; split; [by destruct (isResponder _)|done]].
      apply negb_false_iff in G2. by apply bool_decide_eq_true in G2.
    - intros _. apply ev_bind; [apply sp_onPath; intros q; apply steady_intro; cbn; auto|].
      intros _. apply (sp_controls _ 0), fc_joinFrame; [done|by intros q q' []]. }
  destruct (t =? WireV2.TypePathReady) eqn:Hr; [|apply Stay]. apply Z.eqb_eq in Hr.
  destruct (_ || _) eqn:G; [apply Stay|]. apply orb_false_elim in G as [G G2]. apply orb_false_elim in G as [G1 G3].
  apply negb_false_iff in G1, G2, G3. apply bool_decide_eq_true in G2. apply Z.eqb_eq in G3.
  apply joined_run.
  { apply commitPath_adopts, HV; [by apply Hc|done|]. left. split; [by destruct (isInitiator _)|done]. }
  intros _. apply sp_onPath. intros q. apply steady_intro; cbn; auto; done.
Qed.

Lemma receiveJoin_joined i now b reply m s :
  0 <= WireV2Bundle.Generation (WireV2Bundle.Established_Route m) <= maxUint64 ->
  wp (receiveJoin i now b reply m) (fun _ => joined i (validates (con s) now b m) s) s.
Proof using.
  intros Hg. unfold receiveJoin. cbv zeta.
  assert (Stay : forall e : result CtlError unit, wp (fun s => (e, s)) (fun _ => joined i (validates (con s) now b m) s) s).
  { intros e. by apply steady_joined. }
  set (body := WireV2Bundle.Established_Body m) in *. set (p := paths (con s) !!! i) in *.
  wp_if G0; [apply Stay|]. wp_if Gz; [apply Stay|].
  wp_if Gj; [by apply steady_joined, answerJoin_steady|].
  apply wp_path. fold p.
  wp_if G1; [apply Stay|]. wp_if G2; [apply Stay|].
  bools. apply advanceJoin_joined; fold p.
  - intros Hc Hs Ht. split; try done; [lia| |by rewrite Hs].
    fold body. rewrite (join_body body) by (done || lia). congruence.
  - intros Ht Hs. rewrite Ht in G1. destruct (committed (join p)); [exfalso|done]. revert G1.
    rewrite !bool_decide_true by congruence. lia.
Qed.

(** What a Receive may do to the paths. *)
Definition authentic (s : St) (packet : bytes) (m : WireV2Bundle.Established) : Prop :=
  exists e a, WireV2.ParseEnvelope packet = Ok e /\ WireV2.Header_SessionID (WireV2.header e) = sessionID (con s) /\
    WireV2.IsHandshake (WireV2.Header_Type (WireV2.header e)) = false /\
    WireV2.Authenticate e (receiveKey (con s)) = Ok a /\ WireV2Bundle.DecodeEstablished a = Ok m.

(** The reusable authenticator of a Controller holds its receive key. *)
Definition keyed (s : St) : Prop :=
  exists a, receiveAuth (con s) = Some a /\ WireV2BundleProps.auth_rel a (Some (receiveKey (con s))).

Lemma receiveAuthenticate_ok e s r s' :
  keyed s -> receiveAuthenticate e s = (r, s') ->
  r = asError WireErr (WireV2.Authenticate e (receiveKey (con s))) /\
  exists a', s' = s <| con ::= fun c => c <| receiveAuth := Some a' |> |> /\
    WireV2BundleProps.auth_rel a' (Some (receiveKey (con s))).
Proof using.
  intros (a & Ea & Ka). unfold receiveAuthenticate, bind, reads. cbn [fst snd]. rewrite Ea.
  unfold WireV2BundleProps.auth_rel in Ka. destruct (WireV2.mac a) as [mc|] eqn:Em; [|done]. destruct Ka as [Kb Kc].
  destruct (WireV2BundleProps.Authenticate_auth a mc e Em ltac:(congruence)) as [E1 E2].
  cbn [modify lift]. rewrite E1, Kc in *. unfold lift. destruct (WireV2.Authenticate _ _); intros [= <- <-];
    (split; [done|]); eexists; (split; [reflexivity|]); exact E2.
Qed.

(** ** Whole calls *)

(** What no entry point changes, [Receive]'s authenticator apart. *)
Definition fixed_of (c : Controller) :=
  (setup c, cfg c, remote c, sendKey c, receiveKey c, (outputWorkspace c, assemblyLease c, groupWindowLease c,
   controlLease c), sendContext c, closed c, finalized c).
Definition fixed (s : St) := fixed_of (con s).
Definition keeps_rest : relation St := fun s s' =>
  same fixed s s' /\ same (fun s => receiveAuth (con s)) s s'.
#[export] Instance keeps_rest_preorder : PreOrder keeps_rest.
Proof. split; [by intros s; split|]. intros a b c [? ?] [? ?]. split; by etransitivity. Qed.
Definition calmly : relation St := fun s s' => keeps_rest s s' /\ R s s'.
#[export] Instance calmly_preorder : PreOrder calmly.
Proof. split; [by intros s; split|]. intros a b c [? ?] [? ?]. split; by etransitivity. Qed.

Lemma rest_mask s s' : maskSend (con s') = maskSend (con s) -> keeps_rest s s'.
Proof using.
  intros E. split; [exact (f_equal fixed_of E)|exact (f_equal receiveAuth E)].
Qed.
Lemma rest_controls P now s s' : controls P now s s' -> keeps_rest s s'.
Proof using.
  intros (E & _). apply rest_mask. exact (f_equal (fun x => maskSend x.1.1.1.1) E).
Qed.
Lemma ca_controls {A} (m : M A) now : evolves (controls quiet now) m -> evolves calmly m.
Proof using.
  apply evolves_sub. intros s s' E. split; [by eapply rest_controls|]. by apply quiet_steady, E.
Qed.
Lemma ca_owns {A} (m : M A) : evolves owns m -> evolves calmly m.
Proof using. apply evolves_sub. intros s s' [E P]. split; [|done]. apply rest_mask. exact (f_equal fst E). Qed.
Lemma ca_data {A} (m : M A) : evolves (same beyondData) m -> evolves calmly m.
Proof using.
  intros E s. split; [|by apply sp_data]. specialize (E s). unfold same, beyondData in E. split.
  - exact (f_equal (fun x => fixed_of x.1.1.1.1.1) E).
  - exact (f_equal (fun x => receiveAuth x.1.1.1.1.1) E).
Qed.
Lemma ca_same {A} (m : M A) :
  (forall s, fixed (snd (m s)) = fixed s /\ receiveAuth (con (snd (m s))) = receiveAuth (con s) /\
     paths (con (snd (m s))) = paths (con s)) -> evolves calmly m.
Proof using.
  intros E s. destruct (E s) as (? & ? & ?). by split; [split|apply onPaths_same; [apply _|]].
Qed.
Lemma ca_startJoin carrier now : evolves calmly (startJoin carrier now).
Proof using.
  intros s. split; [|apply startJoin_steady]. eapply (rest_controls still now), fj_startJoin.
Qed.
Lemma ca_drive now : evolves calmly (drive now).
Proof using. apply ca_owns, so_drives, fo_drive. Qed.
Lemma failBinding_steady b p : steady p (failBinding b p).
Proof using.
  unfold failBinding. cbv zeta. set (p1 := if active p && _ then _ else p).
  transitivity p1; [|transitivity (if bool_decide (jn_binding (join p1) = b) then p1 <| join := zeroJoin |> else p1)].
  - unfold p1. case_match; [apply steady_intro; cbn; auto; done|done].
  - case_match; [apply steady_intro; cbn; auto; done|done].
  - apply steady_intro; cbn; auto.
Qed.
#[export] Instance calmly_admits now : Admits calmly now.
Proof using.
  split; try apply _.
  - intros A m E. by eapply ca_controls.
  - intros A m E. apply ca_same. intros s. specialize (E s). unfold same, beyondLocal in E.
    pose proof (f_equal (fun x => x.1.1.1.1.1.1) E) as E1. cbn in E1. split_and!.
    + exact (f_equal fixed_of E1).
    + exact (f_equal receiveAuth E1).
    + exact (f_equal paths E1).
  - intros carrier. apply ca_startJoin.
  - apply ca_drive.
  - intros payload. apply ca_same. intros s. unfold admitPayload. destruct (queue (con s)) as [q|]; [|done].
    destruct (Aggregation.Admit _ _ _ _) as [[r q'] w]. by destruct r.
  - intros b s. split; [done|]. apply (onPaths_map steady _ _ (failBinding b)); [done|]. apply failBinding_steady.
  - apply ca_data, fd_expireGroups.
  - apply ca_data, fd_expireOriginals.
  - apply ca_data, fd_retryGroups.
  - intros. apply ca_data, fd_receiveBundle.
Qed.

(** Calls: the paths are steady, and a Controller that is still open kept the rest. *)
Definition openly : relation St := fun s s' =>
  R s s' /\ (closed (con s') = false -> keeps_rest s s').
#[export] Instance openly_preorder : PreOrder openly.
Proof.
  split; [by intros s; split|]. intros a b c [A1 A2] [B1 B2]. split; [by etransitivity|].
  intros Hc. pose proof (B2 Hc) as X. transitivity b; [|exact X]. apply A2. destruct X as [X _].
  pose proof (f_equal (fun x => x.1.2) X) as Z. cbn in Z. congruence.
Qed.
Lemma calmly_openly s s' : calmly s s' -> openly s s'.
Proof using. intros [? ?]. by split. Qed.

Lemma calmly_local s s' : fixed s' = fixed s -> receiveAuth (con s') = receiveAuth (con s) ->
  paths (con s') = paths (con s) -> calmly s s'.
Proof using. intros F A P. split; [by split|by apply onPaths_same; [apply _|]]. Qed.
Lemma openly_local s s' : fixed s' = fixed s -> receiveAuth (con s') = receiveAuth (con s) ->
  paths (con s') = paths (con s) -> openly s s'.
Proof using. intros F A P. by apply calmly_openly, calmly_local. Qed.

Lemma entered_openly {A} now (body : M A) : evolves calmly body -> evolves openly (entered now body).
Proof using Y.
  intros E s. apply calmly_openly. etransitivity; [|by apply ad_entered]. by apply calmly_local.
Qed.

Lemma ca_releaseGroup i : evolves calmly (releaseGroup i).
Proof using. apply ca_data, fd_releaseGroup. Qed.
Lemma ca_releaseLease l : evolves calmly (releaseLease l).
Proof using. apply ca_data, fd_releaseLease. Qed.
Lemma ca_releaseOut : evolves calmly releaseOut.
Proof using. apply ca_owns, so_drives, (drives_emits _ 0), fe_releaseOut. Qed.

Lemma closing_openly s s' : R s s' -> closed (con s') = true -> openly s s'.
Proof using. intros HR Hc. split; [done|congruence]. Qed.

(** Closing keeps a closed Controller closed. *)
Definition shuts : relation St := fun s s' => R s s' /\ (closed (con s) = true -> closed (con s') = true).
#[export] Instance shuts_preorder : PreOrder shuts.
Proof. split; [by intros s; split|]. intros a b c [? ?] [? ?]. split; [by etransitivity|auto]. Qed.
Lemma sh_calmly {A} (m : M A) : evolves calmly m -> evolves shuts m.
Proof using.
  apply evolves_sub. intros s s' [[F _] P]. split; [done|]. pose proof (f_equal (fun x => x.1.2) F) as Z.
  cbn in Z. congruence.
Qed.
Lemma sh_modify f : (forall c, (paths (f c) = paths c \/ paths (f c) = []) /\ (closed c = true -> closed (f c) = true)) ->
  evolves shuts (modify f).
Proof using.
  intros E s. destruct (E (con s)) as [[P|P] C]; (split; [|exact C]); [by apply onPaths_same; [apply _|]|].
  intros i p. cbn. by rewrite P.
Qed.
Lemma sh_same {A} (m : M A) :
  (forall s, paths (con (snd (m s))) = paths (con s) /\ closed (con (snd (m s))) = closed (con s)) -> evolves shuts m.
Proof using. intros E s. destruct (E s) as [P C]. split; [by apply onPaths_same; [apply _|]|congruence]. Qed.
#[local] Hint Extern 1 (evolves _ (modify _)) => apply sh_modify; auto : evolve.
Lemma sh_FinalizeClose : evolves shuts FinalizeClose.
Proof using.
  unfold FinalizeClose. evolve.
  - apply sh_same. intros s. unfold closeQueue. destruct (queue (con s)); [|done].
    by destruct (Aggregation.Close _ _).
  - apply sh_same. intros s. unfold closeOriginals. destruct (originals (con s)); [|done].
    by destruct (Reassembly.Close _ _).
  - by apply sh_same.
  - apply sh_calmly, ca_releaseGroup.
  - apply sh_calmly, ca_releaseOut.
  - apply sh_same. intros s. unfold closeWorkspace. destruct (outputWorkspace (con s)); [|done].
    by destruct (Aggregation.Workspace_Close _ _ _).
  - apply sh_calmly, ca_releaseLease.
  - apply sh_calmly, ca_releaseLease.
  - apply sh_calmly, ca_releaseLease.
Qed.

Lemma FinalizeClose_openly s : openly s (snd (FinalizeClose s)).
Proof using.
  destruct (closed (con s)) eqn:C.
  - apply closing_openly; [|apply sh_FinalizeClose; exact C]. apply sh_FinalizeClose.
  - replace (snd (FinalizeClose s)) with s; [done|]. unfold FinalizeClose, bind, reads. cbn [id].
    destruct (finalized _); [done|]. by rewrite C.
Qed.

Lemma BeginClose_openly s : openly s (s <| con ::= BeginClose |>).
Proof using.
  unfold BeginClose. destruct (closed (con s)) eqn:C.
  - apply closing_openly; [|by cbn; rewrite C]. apply onPaths_same; [apply _|]. cbn. by rewrite C.
  - apply closing_openly; [|by cbn; rewrite C]. apply onPaths_same; [apply _|]. cbn. by rewrite C.
Qed.

Lemma CompleteSend_openly now o s : openly s (snd (CompleteSend now o s)).
Proof using.
  unfold CompleteSend. cbv zeta. destruct (_ || _); [by apply openly_local|].
  destruct (busy _); [by apply openly_local|].
  destruct (_ && _); [by apply openly_local|].
  destruct (slotOf _ _) as [k|]; [|by apply openly_local].
  destruct (invalidOutcome _ _ _); [by apply openly_local|].
  destruct (negb _); [by apply openly_local|].
  match goal with |- context [CompleteSendBody now k o ?t] => set (s1 := t) end.
  pose proof (ca_owns _ (so_CompleteSendBody now k o) s1) as E. destruct (CompleteSendBody _ _ _ _) as [r s2].
  cbn [snd] in *. transitivity s1; [|apply calmly_openly; transitivity s2; [exact E|by apply calmly_local]].
  transitivity (s <| con ::= fun c => if scopeClosed (scope (con s)) (ledger s) then BeginClose c else c |>).
  - destruct (scopeClosed _ _); [apply BeginClose_openly|by apply openly_local].
  - subst s1. cbn. by apply openly_local.
Qed.

Lemma perform_openly c s : (forall now b r p, c <> CallReceive now b r p) -> openly s (perform c s).
Proof using.
  intros Hc. destruct c; cbn [perform].
  - apply entered_openly, ad_StartBody.
  - apply entered_openly, ad_WriteBody.
  - apply entered_openly, ad_FlushBody.
  - apply entered_openly, ad_AdvanceBody.
  - apply entered_openly, ad_FailPathBody.
  - apply entered_openly, ad_JoinBody.
  - by destruct (Hc now b reply packet).
  - apply entered_openly, ca_owns, so_TakeSendBody.
  - apply CompleteSend_openly.
  - by apply openly_local.
  - by apply openly_local.
  - apply BeginClose_openly.
  - apply FinalizeClose_openly.
  - unfold Close. etransitivity; [apply BeginClose_openly|apply FinalizeClose_openly].
Qed.

(** ** Receive *)

Definition adopted (s : St) (now : Z) (b : Binding) (packet : bytes) (j : nat) (p p' : pathState) : Prop :=
  exists m, authentic s packet m /\ WireV2Bundle.PathID (WireV2Bundle.Established_Route m) = Z.of_nat j + 1 /\
    validates (con s) now b m p /\ steady (adopt p) p'.

Definition received (now : Z) (b : Binding) (packet : bytes) : relation St := fun s s' =>
  same fixed s s' /\ (keyed s -> keyed s') /\
  forall j p', paths (con s') !! j = Some p' -> exists p, paths (con s) !! j = Some p /\
    (steady p p' \/ adopted s now b packet j p p').

Lemma keeps_keyed s s' : keeps_rest s s' -> keyed s -> keyed s'.
Proof using.
  intros [F A] (a & Ea & Ka). exists a. unfold same in A, F. split; [congruence|].
  by rewrite (f_equal (fun x => x.1.1.1.1.2) F : receiveKey (con s') = receiveKey (con s)).
Qed.

Lemma calmly_received now b packet s s' : calmly s s' -> received now b packet s s'.
Proof using.
  intros [K1 P]. split; [apply K1|]. split; [by apply keeps_keyed|].
  intros j p' E. destruct (P j p' E) as (p & ? & ?). exists p. auto.
Qed.

Lemma received_calmly {A} now b packet s s1 (m : M A) :
  received now b packet s s1 -> evolves calmly m -> received now b packet s (snd (m s1)).
Proof using.
  intros (F & Kk & P) E. destruct (E s1) as [K1 P1]. split; [etransitivity; [exact F|apply K1]|].
  split; [intros Hk; eapply keeps_keyed; [exact K1|by apply Kk]|]. intros j p2 E2.
  destruct (P1 j p2 E2) as (p1 & E1 & S1). destruct (P j p1 E1) as (p & Ep & [Hs|(m' & ? & ? & ? & Hs)]); exists p;
    (split; [done|]); [left|right; exists m'; split_and!; try done]; by etransitivity.
Qed.

Lemma established_range a m :
  WireV2Bundle.DecodeEstablished a = Ok m ->
  0 <= WireV2Bundle.Generation (WireV2Bundle.Established_Route m) <= maxUint64 /\
  0 <= WireV2Bundle.PathID (WireV2Bundle.Established_Route m).
Proof using.
  unfold WireV2Bundle.DecodeEstablished. cbv zeta. destruct (negb _); [done|]. destruct (WireV2.IsHandshake _); [done|].
  destruct (_ <? _) eqn:Hl; [done|]. destruct (WireV2Bundle.validateRoute _ _); [done|]. intros [= <-]. cbn.
  unfold WireV2.RouteSize in Hl. unfold len in Hl.
  pose proof (be_get_slice_range 8 4 12 (WireV2.Body a) ltac:(lia) ltac:(lia)) as [? ?].
  pose proof (be_get_slice_range 4 0 4 (WireV2.Body a) ltac:(lia) ltac:(lia)) as [? ?]. unfold maxUint64. lia.
Qed.

Lemma ReceiveBody_received now b reply packet s :
  keyed s -> wp (ReceiveBody now b reply packet) (fun _ => received now b packet s) s.
Proof using.
  intros Hk. unfold ReceiveBody. apply wp_reads.
  assert (Stay : forall e : result CtlError unit, wp (fun s => (e, s)) (fun _ => received now b packet s) s).
  { intros e. by apply calmly_received. }
  destruct reply as [reply|]; [|apply Stay]. wp_if G1; [apply Stay|]. wp_if G2; [apply Stay|].
  apply wp_lift. destruct (WireV2.ParseEnvelope packet) as [env_|e] eqn:Ep;
    [|by apply calmly_received].
  wp_if G3; [apply Stay|]. apply orb_false_elim in G3 as [G3 Gh].
  apply wp_bind. unfold wp at 1. destruct (receiveAuthenticate env_ s) as [r s1] eqn:Ea.
  apply receiveAuthenticate_ok in Ea as (-> & a' & -> & Ka); [|done]. cbn [fst snd].
  set (s1 := s <| con ::= _ |>).
  assert (Stay1 : received now b packet s s1).
  { split; [done|]. split; [by exists a'|]. intros j p' E. exists p'. split; [exact E|by left]. }
  destruct (WireV2.Authenticate env_ _) as [au|e] eqn:Eau; cbn [asError after]; [|exact Stay1].
  apply wp_lift.
  destruct (WireV2Bundle.DecodeEstablished au) as [m|e] eqn:Em; [|exact Stay1].
  cbv zeta. wp_if G4; [exact Stay1|]. apply orb_false_elim in G4 as [G4 G5].
  apply established_range in Em as Rg. set (i := pathIndex (WireV2Bundle.PathID (WireV2Bundle.Established_Route m))).
  assert (Au : authentic s packet m).
  { exists env_, au. bools. split_and!; done. }
  assert (Then : forall r s2, received now b packet s s2 ->
    after (fun proceed : bool => if proceed then drive now else ret tt) (fun _ => received now b packet s) r s2).
  { intros [[|]|e] s2 R2; cbn [after]; [|exact R2|exact R2]. eapply received_calmly; [exact R2|apply ca_drive]. }
  apply wp_bind. destruct (_ && _).
  - apply wp_bind. eapply wp_weaken; [apply (wp_both (fun s' => keeps_rest s1 s')), receiveJoin_joined, Rg|].
    + eapply (rest_controls still now), fj_receiveJoin.
    + intros r s2 [K2 J]. assert (R2 : received now b packet s s2).
      { split; [exact (proj1 K2)|]. split; [intros _; eapply keeps_keyed; [exact K2|by exists a']|].
        intros j p' E. destruct (J j p' E) as (p & Ep' & [Hs|(-> & Hv & Hs)]); exists p; (split; [exact Ep'|]); [by left|right].
        exists m. split_and!; [exact Au|unfold i, pathIndex; lia|by destruct Hv; split|exact Hs]. }
      destruct r as [[]|e]; cbn [after]; [|exact R2]. by apply (Then (Ok true)).
  - eapply wp_weaken; [apply (evolves_wp calmly) with (Q := fun _ => calmly s1); [apply ad_receiveRouted|done]|].
    intros r s2 C. apply Then. destruct Stay1 as (F & Kk & P). split; [etransitivity; [exact F|apply C]|].
    split; [intros _; eapply keeps_keyed; [apply C|by exists a']|]. intros j p' E.
    destruct C as [_ C]. destruct (C j p' E) as (p & Ep' & Hs). exists p. split; [exact Ep'|by left].
Qed.


Lemma adopted_role s s' now b packet j p p' :
  setup (con s') = setup (con s) -> receiveKey (con s') = receiveKey (con s) ->
  adopted s' now b packet j p p' -> adopted s now b packet j p p'.
Proof using.
  intros E1 E2 (m & (e & a & ? & Hi & ? & Hk & ?) & Hj & [] & Hs). exists m.
  unfold isInitiator, isResponder, sessionID in *. rewrite E1 in *. rewrite E2 in *.
  split; [by exists e, a|]. split_and!; [done|by split|done].
Qed.

Lemma Receive_received now b reply packet s :
  keyed s -> received now b packet s (snd (Receive now b reply packet s)).
Proof using.
  intros Hk. unfold Receive, entered. cbv zeta. destruct (enter _ _); [by apply calmly_received, calmly_local|].
  set (s1 := (s <| res := zeroResult |>) <| con ::= clocked now |>).
  pose proof (ReceiveBody_received now b reply packet s1 Hk) as W. unfold wp in W.
  destruct (ReceiveBody _ _ _ _ _) as [r s2]. cbn [fst snd] in *.
  assert (C : calmly s2 (leave s2)) by by apply calmly_local.
  destruct W as (F & Kk & P), C as [K2 P2]. split; [etransitivity; [exact F|apply K2]|].
  split; [intros _; eapply keeps_keyed; [exact K2|by apply Kk]|].
  intros j p' E. destruct (P2 j p' E) as (q & Eq & Sq). destruct (P j q Eq) as (p & Ep & [Hs|Ad]);
    exists p; (split; [exact Ep|]); [left; by etransitivity|right].
  apply (adopted_role s s1); [done|done|]. destruct Ad as (m & ? & ? & ? & Hs). exists m. split_and!; try done. by etransitivity.
Qed.

(** ** Reachable states *)

Record sane (s : St) : Prop := {
  sn_numbered : numbered (paths (con s));
  sn_ok : forall i p, paths (con s) !! i = Some p -> path_ok p;
  sn_keyed : closed (con s) = false -> keyed s }.

Lemma adopt_ok p : path_ok p -> path_ok (adopt p).
Proof using. intros [R F J N]. split; cbn; [lia|lia|lia|done]. Qed.

Lemma newPath_ok c r i : path_ok (newPath c r i) /\ pathid (newPath c r i) = Z.of_nat i + 1.
Proof using. split; [|done]. split; cbn; unfold maxUint64; lia. Qed.

Lemma fresh_sane su p s : fresh su p s -> sane s.
Proof using.
  intros F. destruct (fr_paths _ _ _ F) as (sd & g & n & E). split; rewrite ?E.
  - intros i q. destruct (decide (i = pathIndex (Handshake.PathID su))) as [->|N].
    + rewrite list_lookup_alter_eq, list_lookup_fmap. destruct (seq _ _ !! _) as [k|] eqn:Ek; [|done].
      apply lookup_seq in Ek as [-> _]. by intros [= <-].
    + rewrite list_lookup_alter_ne, list_lookup_fmap by done. destruct (seq _ _ !! _) as [k|] eqn:Ek; [|done].
      apply lookup_seq in Ek as [-> _]. by intros [= <-].
  - intros i q. destruct (decide (i = pathIndex (Handshake.PathID su))) as [->|N].
    + rewrite list_lookup_alter_eq, list_lookup_fmap. destruct (seq _ _ !! _) as [k|] eqn:Ek; [|done].
      intros [= <-]. split; cbn; unfold maxUint64; try lia; done.
    + rewrite list_lookup_alter_ne, list_lookup_fmap by done. destruct (seq _ _ !! _) as [k|] eqn:Ek; [|done].
      intros [= <-]. apply newPath_ok.
  - intros _. destruct (fr_auth _ _ _ F) as (a & Ea & Er). exists a. split; [done|].
    unfold WireV2.NewAuthenticator in Ea. destruct (decide _); [done|]. by injection Ea as <-.
Qed.

Lemma steady_sane s s' :
  sane s -> (forall j p', paths (con s') !! j = Some p' -> exists p, paths (con s) !! j = Some p /\
     (steady p p' \/ steady (adopt p) p')) -> (closed (con s') = false -> keyed s') -> sane s'.
Proof using.
  intros [N O Kk] P K'. split; [| |done].
  - intros i p' E. destruct (P i p' E) as (p & Ep & [S|S]); rewrite (st_pathid _ _ S); by apply (N i p Ep).
  - intros i p' E. destruct (P i p' E) as (p & Ep & [S|S]); pose proof (O _ _ Ep) as Op;
      apply (st_ok _ _ S); [exact Op|by apply adopt_ok].
Qed.

Lemma closed_keeps s s' : openly s s' -> closed (con s') = false -> closed (con s) = false.
Proof using.
  intros [_ O] C. destruct (O C) as [F _]. pose proof (f_equal (fun x => x.1.2) F) as Z. cbn in Z. congruence.
Qed.

Lemma Receive_closed now b reply packet s :
  closed (con s) = true -> calmly s (snd (Receive now b reply packet s)).
Proof using.
  intros C. unfold Receive, entered. cbv zeta. unfold enter. cbn. rewrite C. by apply calmly_local.
Qed.

Lemma perform_sane c s : sane s -> sane (perform c s).
Proof using.
  intros S. assert (Gen : openly s (perform c s) -> sane (perform c s)).
  { intros O. pose proof (closed_keeps _ _ O) as C. destruct O as [P O]. eapply steady_sane; [exact S| |].
    - intros j p' E. destruct (P j p' E) as (p & ? & ?). exists p. auto.
    - intros C'. eapply keeps_keyed; [by apply O|]. by apply S, C. }
  destruct c; try (by apply Gen, perform_openly). cbn [perform] in *.
  destruct (closed (con s)) eqn:C; [by apply Gen, calmly_openly, Receive_closed|].
  destruct (Receive_received now b reply packet s (sn_keyed _ S C)) as (F & Kk & P). eapply steady_sane; [exact S| |].
  - intros j p' E. destruct (P j p' E) as (p & ? & [?|(m & ? & ? & ? & ?)]); exists p; auto.
  - intros _. by apply Kk, S.
Qed.

Lemma reachable_sane others s : reachable others s -> sane s.
Proof using.
  induction 1 as [addr su cf st s _ E|c s _ IH|s w e _ IH _].
  - apply New_fresh in E as (p & _ & F & _). by eapply fresh_sane.
  - by apply perform_sane.
  - destruct IH. by split.
Qed.

(** C4: Only a validated join gives a path a new tuple.  Whatever an owner calls, and
    whatever arrives, a path keeps its generation, binding and transport object, and an
    inactive path stays inactive - unless the call is the Receive of a packet that
    authenticates under the session's receive key, names the path, arrives on the very
    binding of the path's pending join before its deadline, and repeats both nonces and
    the generation of that join.  Then the generation grows, and the path takes over
    exactly the tuple that was validated. *)
Theorem path_authority others s c i p p' :
  reachable others s -> paths (con s) !! i = Some p -> paths (con (perform c s)) !! i = Some p' ->
  (generation p' = generation p /\ binding p' = binding p /\ transportGeneration p' = transportGeneration p /\
     (active p' = true -> active p = true /\ sender p' = sender p)) \/
  exists now b reply packet m, c = CallReceive now b reply packet /\ authentic s packet m /\
    WireV2Bundle.PathID (WireV2Bundle.Established_Route m) = Z.of_nat i + 1 /\ validates (con s) now b m p /\
    generation p < generation p' <= maxUint64 /\
    generation p' = WireV2Bundle.Generation (WireV2Bundle.Established_Route m) /\ binding p' = b /\
    (active p' = true -> sender p' = jn_sender (join p)).
Proof using.
  intros Hr Ep Ep'. apply reachable_sane in Hr.
  assert (Still : openly s (perform c s) -> steady p p').
  { intros [P _]. destruct (P i p' Ep') as (q & Eq & Sq). by simplify_eq. }
  assert (Left : steady p p' -> generation p' = generation p /\ binding p' = binding p /\
    transportGeneration p' = transportGeneration p /\ (active p' = true -> active p = true /\ sender p' = sender p)).
  { by intros []. }
  destruct c; try (by left; apply Left, Still, perform_openly). cbn [perform] in *.
  destruct (closed (con s)) eqn:C; [by left; apply Left, Still, calmly_openly, Receive_closed|].
  destruct (Receive_received now b reply packet s (sn_keyed _ Hr C)) as (_ & _ & P).
  destruct (P i p' Ep') as (q & Eq & [Hs|(m & Au & Hm & V & Hs)]); simplify_eq; [by left; apply Left|right].
  exists now, b, reply, packet, m. pose proof (sn_ok _ Hr _ _ Ep) as O.
  pose proof (po_newer _ O (va_pending _ _ _ _ _ V) (va_new _ _ _ _ _ V)). destruct O as [? ? ? _].
  destruct Hs as [_ Hg Hb _ Ha _]. cbn in Hg, Hb, Ha.
  split_and!; try done; [lia|lia|by rewrite Hg; apply V|by rewrite Hb; apply V|by apply Ha].
Qed.

(** ** Packets that do not authenticate *)

(** A Controller without its clock and without the scratch state of its authenticator. *)
Definition unclocked (c : Controller) : Controller :=
  c <| receiveAuth := None |> <| last := None |> <| haveTime := false |> <| busy := false |>.
Definition untouched : relation St := fun s s' =>
  unclocked (con s') = unclocked (con s) /\ Sends (res s') = Sends (res s) /\ Deliveries (res s') = Deliveries (res s) /\
  intents s' = intents s /\ spaces s' = spaces s /\ ledger s' = ledger s /\ env s' = env s.

Lemma ReceiveBody_untouched now b reply packet s :
  keyed s -> (forall m, ~ authentic s packet m) ->
  wp (ReceiveBody now b reply packet) (fun _ => untouched s) s.
Proof using.
  intros Hk Hn. unfold ReceiveBody. apply wp_reads.
  assert (Stay : forall e : result CtlError unit, wp (fun s => (e, s)) (fun _ => untouched s) s) by done.
  destruct reply as [reply|]; [|apply Stay]. wp_if G1; [apply Stay|]. wp_if G2; [apply Stay|].
  apply wp_lift. destruct (WireV2.ParseEnvelope packet) as [env_|e] eqn:Ep; [|done].
  wp_if G3; [apply Stay|]. apply orb_false_elim in G3 as [G3 Gh].
  apply wp_bind. unfold wp at 1. destruct (receiveAuthenticate env_ s) as [r s1] eqn:Ea.
  apply receiveAuthenticate_ok in Ea as (-> & a' & -> & Ka); [|done]. cbn [fst snd].
  destruct (WireV2.Authenticate env_ _) as [au|e] eqn:Eau; cbn [asError after]; [|done].
  apply wp_lift. destruct (WireV2Bundle.DecodeEstablished au) as [m|e] eqn:Em; [|done].
  destruct (Hn m). exists env_, au. bools. by split_and!.
Qed.

(** C6: A packet that does not authenticate does nothing.  On a Receive of bytes that are
    not an envelope of this session, or that do not verify under its receive key, or whose
    authenticated body is not an established message, no field of the Controller changes
    but its clock (and the scratch state of its authenticator); nothing is sent or
    delivered, and neither the ledger, nor the adapter, nor an outstanding send is touched. *)
Theorem unauthentic_ignored others s now b reply packet :
  reachable others s -> (forall m, ~ authentic s packet m) ->
  let s' := perform (CallReceive now b reply packet) s in
  unclocked (con s') = unclocked (con s) /\ Sends (res s') = [] /\ Deliveries (res s') = [] /\
  intents s' = intents s /\ spaces s' = spaces s /\ ledger s' = ledger s /\ env s' = env s.
Proof using.
  intros Hr Hn. cbv zeta. cbn [perform]. unfold Receive, entered. cbv zeta. destruct (enter _ _) eqn:En; [done|].
  set (s1 := (s <| res := zeroResult |>) <| con ::= clocked now |>).
  assert (Hk : keyed s1).
  { apply (sn_keyed s (reachable_sane _ _ Hr)). unfold enter in En. cbn in En.
    destruct (closed (con s)); [done|]. done. }
  pose proof (ReceiveBody_untouched now b reply packet s1 Hk Hn) as W. unfold wp in W.
  destruct (ReceiveBody _ _ _ _ _) as [r s2]. cbn [fst snd] in *. destruct W as (W & ?).
  split; [|done]. change (unclocked (con (leave s2))) with (unclocked (con s2)). exact W.
Qed.
End paths.
