(* ===== verification/SessionV2Rate.v ===== *)
(** * Pacing of a version 2 Session

    Without owned sends every packet passes [emit], which spaces the packets of a path
    by their serialization times.  Over any run a path stays within its rate. *)

From S2P Require Import Prelude CreditScope SessionV2Types SessionV2Control SessionV2Send SessionV2Data SessionV2.
From S2P Require Import SessionV2Rules SessionV2Frames SessionV2Run SessionV2Paths.
From S2P Require Credit Fec FecV2 Negotiation WireV2 WireV2Bundle Handshake Aggregation Reassembly.
From Stdlib Require Import RelationClasses.

(** ** Packets with their times *)

Abbreviation Timed := (Z * SendAttempt)%type.

(** [pace] for packets of several calls. *)
Fixpoint paces (rt : Z) (a : Time) (l : list Timed) (a' : Time) : Prop :=
  match l with
  | [] => a' = a
  | (now, x) :: l => Before now a = false /\
      exists b, paces rt (Some (now + serializationTime rt b (at_Bytes x))) l a'
  end.

Lemma pace_paces now rt a l a' : pace now rt a l a' -> paces rt a (pair now <$> l) a'.
Proof.
  revert a. induction l as [|x l IH]; intros a; cbn; [done|]. intros (? & b & P). split; [done|]. exists b. auto.
Qed.

Lemma paces_app rt a l1 a1 l2 a2 : paces rt a l1 a1 -> paces rt a1 l2 a2 -> paces rt a (l1 ++ l2) a2.
Proof.
  revert a. induction l1 as [|[now x] l1 IH]; intros a; cbn; [by intros ->|].
  intros (? & b & P) P2. split; [done|]. exists b. by apply IH.
Qed.

(** The rates that a configuration may set, and the sizes of UDP payloads. *)
Definition rate_ok (rt : Z) : Prop := 1000 <= rt <= 1000000000000.
Definition udp (x : Timed) : Prop := 0 <= at_Bytes x.2 <= 65507.

Lemma serializationTime_bits rt b n :
  rate_ok rt -> 0 <= n <= 65507 -> 8 * n * second <= serializationTime rt b n * rt.
Proof.
  intros [R1 R2] Hn. unfold serializationTime. cbv zeta. set (o := match _ with Handshake.V6 _ _ => 48 | _ => 28 end).
  assert (Ho : 28 <= o <= 48) by (unfold o; case_match; lia). unfold u64, second.
  change (10 ^ 9) with 1000000000.
  assert (Small : forall z, 0 <= z < 10 ^ 18 -> wrap 64 z = z).
  { intros z Hz. apply wrap_small. unfold in_u. lia. }
  rewrite (Small (n + o)), (Small ((n + o) * 8)), (Small ((n + o) * 8 * 1000000000)), (Small (_ + rt)), Small by lia.
  pose proof (Z.div_mod ((n + o) * 8 * 1000000000 + rt - 1) rt ltac:(lia)) as D.
  pose proof (Z.mod_pos_bound ((n + o) * 8 * 1000000000 + rt - 1) rt ltac:(lia)). nia.
Qed.

Definition bytesOf (l : list Timed) : Z := foldr (fun x n => at_Bytes x.2 + n) 0 l.

(** All packets of [l] fit between the time of the first and that of a later one. *)
Lemma paces_rate rt a l now x a' :
  rate_ok rt -> Forall udp l -> paces rt a (l ++ [(now, x)]) a' ->
  forall t, a = Some t -> 8 * second * bytesOf l <= rt * (now - t).
Proof.
  intros Hr. revert a. induction l as [|[n y] l IH]; intros a U P t E; cbn in P.
  - destruct P as [Q _]. subst a. cbn in Q. apply Z.ltb_ge in Q. change (bytesOf []) with 0.
    destruct Hr. assert (0 <= rt * (now - t)) by nia. lia.
  - inversion U as [|? ? U1 U2]; subst. destruct P as (Q & b & P). cbn in Q. apply Z.ltb_ge in Q.
    pose proof (IH _ U2 P _ eq_refl) as I. pose proof (serializationTime_bits rt b (at_Bytes y) Hr U1).
    change (bytesOf ((n, y) :: l)) with (at_Bytes y + bytesOf l). destruct Hr.
    assert (0 <= rt * (n - t)) by nia. nia.
Qed.

Section rate.
Context `{L : Ledger} `{K : Links} `{Y : Layout} `{Fec.ReedSolomon}.

(** ** Calls of a Controller that does not own its sends *)

Definition unowned (s : St) : Prop := OwnedSends (cfg (con s)) = false.
Definition syncs (now : Z) : relation St := fun s s' => unowned s -> unowned s' /\ paced now s s'.
#[export] Instance syncs_preorder now : PreOrder (syncs now).
Proof.
  split; [by intros s|]. intros a b c H1 H2 U. destruct (H1 U) as [U1 P1]. destruct (H2 U1) as [U2 P2].
  split; [done|by etransitivity].
Qed.

Lemma unowned_rest s s' : keeps_rest s s' -> unowned s -> unowned s'.
Proof using.
  intros [F _]. unfold unowned. pose proof (f_equal (fun x => x.1.1.1.1.1.1.1.2) F) as Z. cbn in Z. congruence.
Qed.

Section bodies.
Context {now : Z}.
Abbreviation R := (syncs now).

Lemma sy_controls {A} P (m : M A) : evolves (controls P now) m -> evolves R m.
Proof using.
  apply evolves_sub. intros s s' E U. split; [|apply E]. eapply unowned_rest; [by eapply rest_controls|done].
Qed.
Lemma sy_emits {A} (m : M A) : evolves (emits now) m -> evolves R m.
Proof using.
  apply evolves_sub. intros s s' [[E _] P] U. split; [|done].
  eapply unowned_rest; [apply rest_mask; exact (f_equal (fun x => x.1.1) E)|done].
Qed.
Lemma sy_local {A} (m : M A) : (forall s, fixed (snd (m s)) = fixed s /\ paths (con (snd (m s))) = paths (con s) /\
    Sends (res (snd (m s))) = Sends (res s)) -> evolves R m.
Proof using.
  intros E s U. destruct (E s) as (F & P & S). split.
  - unfold unowned. pose proof (f_equal (fun x => x.1.1.1.1.1.1.1.2) F) as Z. cbn in Z. by rewrite Z.
  - apply paced_quiet; [exact S|]. intros i p. rewrite P. intros Hp. by exists p.
Qed.
Lemma sy_data {A} (m : M A) : evolves (same beyondData) m -> evolves R m.
Proof using.
  intros E. apply sy_local. intros s. specialize (E s). unfold same, beyondData in E. split_and!.
  - exact (f_equal (fun x => fixed_of x.1.1.1.1.1) E).
  - exact (f_equal (fun x => paths x.1.1.1.1.1) E).
  - exact (f_equal (fun x => x.1.1.1.1.2) E).
Qed.
(** The branches of owned sends are not taken. *)
Lemma sy_unowned {A} (k : Controller -> M A) :
  (forall c, OwnedSends (cfg c) = false -> evolves R (k c)) -> evolves R (bind (reads id) k).
Proof using. intros E s U. exact (E (con s) U s U). Qed.

#[local] Hint Extern 1 (evolves _ (modify _)) => apply sy_local; done : evolve.
Lemma sy_driveControl : evolves R (driveControl now).
Proof using. apply (sy_controls quiet), fc_driveControl; auto using quiet_still. Qed.
Lemma sy_driveData : evolves R (driveData now).
Proof using. apply sy_emits, fe_driveData. Qed.
Lemma sy_ready : evolves R ready.
Proof using. by apply sy_local. Qed.
#[local] Hint Resolve sy_driveControl sy_driveData sy_ready : evolve.
Lemma sy_drive : evolves R (drive now).
Proof using. unfold drive. apply sy_unowned. intros c ->. evolve. Qed.

#[export] Instance syncs_admits : Admits (syncs now) now.
Proof using.
  split; try apply _.
  - intros A m E. by eapply sy_controls.
  - intros A m E. apply sy_local. intros s. specialize (E s). unfold same, beyondLocal in E.
    pose proof (f_equal (fun x => x.1.1.1.1.1.1) E) as E1. cbn in E1. split_and!.
    + exact (f_equal fixed_of E1).
    + exact (f_equal paths E1).
    + exact (f_equal (fun x => x.1.1.1.1.1.2) E).
  - intros carrier. apply (sy_controls still), fj_startJoin.
  - apply sy_drive.
  - intros payload. apply sy_local. intros s. unfold admitPayload. destruct (queue (con s)) as [q|]; [|done].
    destruct (Aggregation.Admit _ _ _ _) as [[r q'] w]. by destruct r.
  - intros b s U. split; [done|]. apply paced_quiet; [done|].
    apply (onPaths_map _ _ _ (failBinding b)); [done|]. intros p. unfold failBinding. cbv zeta. by repeat case_match.
  - apply sy_data, fd_expireGroups.
  - apply sy_data, fd_expireOriginals.
  - apply sy_data, fd_retryGroups.
  - intros. apply sy_data, fd_receiveBundle.
Qed.

Lemma sy_receiveJoin i b reply m : evolves R (receiveJoin i now b reply m).
Proof using. apply (sy_controls still), fj_receiveJoin. Qed.
Lemma sy_receiveAuthenticate e : evolves R (receiveAuthenticate e).
Proof using. unfold receiveAuthenticate. evolve. Qed.
#[local] Hint Resolve sy_receiveJoin sy_drive sy_receiveAuthenticate : evolve.
#[local] Hint Extern 1 (evolves _ (receiveRouted _ _ _ _ _ _)) => apply ad_receiveRouted : evolve.
Lemma sy_ReceiveBody b reply packet : evolves R (ReceiveBody now b reply packet).
Proof using. unfold ReceiveBody. evolve. Qed.
Lemma sy_TakeSendBody : evolves R (TakeSendBody now).
Proof using. unfold TakeSendBody. apply sy_unowned. intros c ->. apply ev_throw. Qed.
End bodies.

(** The time of a call, and the packets that it emitted. *)
Definition clock (c : call) : option Z :=
  match c with
  | CallStart now | CallWrite now _ | CallFlush now | CallAdvance now | CallFailPath now _ | CallJoin now _
  | CallReceive now _ _ _ | CallTakeSend now | CallCompleteSend now _ => Some now
  | _ => None
  end.
Definition emitted (c : call) (s : St) : list Timed :=
  match clock c with Some now => pair now <$> Sends (res (perform c s)) | None => [] end.
Definition onPathID (n : Z) (l : list Timed) : list Timed := filter (fun x => at_PathID x.2 = n) l.

(** One call on every path. *)
Definition paced_call (s : St) (l : list Timed) (s' : St) : Prop :=
  unowned s' /\ forall i p', paths (con s') !! i = Some p' -> exists p, paths (con s) !! i = Some p /\
    pathid p' = pathid p /\ rate p' = rate p /\
    paces (rate p) (pacedAt p) (onPathID (pathid p) l) (pacedAt p').

Lemma onPathID_pair n now l : onPathID n (pair now <$> l) = pair now <$> ofPath n l.
Proof using.
  unfold onPathID, ofPath. induction l as [|x l IH]; [done|].
  rewrite fmap_cons, !filter_cons. cbn [snd]. rewrite IH. by destruct (decide _).
Qed.

Lemma idle_call s s' : unowned s' ->
  onPaths (fun p p' => pathid p' = pathid p /\ rate p' = rate p /\ pacedAt p' = pacedAt p) s s' -> paced_call s [] s'.
Proof using.
  intros U P. split; [done|]. intros i p E. destruct (P i p E) as (q & ? & ? & ? & ?). by exists q.
Qed.

Lemma entered_call {A} now (body : M A) s :
  numbered (paths (con s)) -> unowned s -> evolves (syncs now) body ->
  paced_call s (pair now <$> Sends (res (snd (entered now body s)))) (snd (entered now body s)).
Proof using Y.
  intros N U E. pose proof (ad_entered (R := syncs now) body s E) as S. cbv zeta in S.
  destruct (S U) as [U2 P]. destruct (P N) as (new & En & P2). rewrite En. cbn [app].
  split; [done|]. intros i p' Ep. destruct (P2 i p' Ep) as (p & ? & ? & ? & Q). exists p.
  split_and!; try done. cbn [app update Sends res zeroResult]. rewrite onPathID_pair. by apply pace_paces.
Qed.

(** Closing leaves the paths, or removes them. *)
Definition idles : relation St := fun s s' => (unowned s -> unowned s') /\
  (paths (con s') = paths (con s) \/ paths (con s') = []).
#[export] Instance idles_preorder : PreOrder idles.
Proof.
  split; [by intros s; split; [|left]|]. intros a b c [A1 A2] [B1 B2]. split; [auto|].
  destruct B2 as [-> | ->]; [|by right]. destruct A2 as [-> | ->]; auto.
Qed.
Lemma id_local {A} (m : M A) : (forall s, cfg (con (snd (m s))) = cfg (con s) /\
  paths (con (snd (m s))) = paths (con s)) -> evolves idles m.
Proof using. intros E s. destruct (E s) as [C P]. split; [unfold unowned; by rewrite C|by left]. Qed.
Lemma id_data {A} (m : M A) : evolves (same beyondData) m -> evolves idles m.
Proof using.
  intros E. apply id_local. intros s. specialize (E s). unfold same, beyondData in E. split.
  - exact (f_equal (fun x => cfg x.1.1.1.1.1) E).
  - exact (f_equal (fun x => paths x.1.1.1.1.1) E).
Qed.
#[local] Hint Extern 1 (evolves _ (modify _)) => apply id_local; done : evolve.
Lemma FinalizeClose_idle : evolves idles FinalizeClose.
Proof using.
  unfold FinalizeClose. evolve.
  - apply id_local. intros s. unfold closeQueue. destruct (queue (con s)); [|done].
    by destruct (Aggregation.Close _ _).
  - apply id_local. intros s. unfold closeOriginals. destruct (originals (con s)); [|done].
    by destruct (Reassembly.Close _ _).
  - by apply id_local.
  - apply id_data, fd_releaseGroup.
  - apply id_local. intros s. unfold releaseOut. destruct (out (con s)); [|done].
    by destruct (Aggregation.Output_Release _ _ _) as [[? ?] ?].
  - apply id_local. intros s. unfold closeWorkspace. destruct (outputWorkspace (con s)); [|done].
    by destruct (Aggregation.Workspace_Close _ _ _).
  - apply id_data, fd_releaseLease.
  - apply id_data, fd_releaseLease.
  - apply id_data, fd_releaseLease.
  - intros s. split; [done|by right].
Qed.

Lemma idles_call s s' : unowned s -> idles s s' -> paced_call s [] s'.
Proof using.
  intros U [I [E|E]]; (apply idle_call; [auto|]); intros i p; rewrite E; [|done]. intros Hp. by exists p.
Qed.

Lemma perform_paced c s :
  numbered (paths (con s)) -> unowned s -> paced_call s (emitted c s) (perform c s).
Proof using.
  intros N U. unfold emitted. destruct c; cbn [clock perform].
  - apply entered_call; [done..|apply ad_StartBody].
  - apply entered_call; [done..|apply ad_WriteBody].
  - apply entered_call; [done..|apply ad_FlushBody].
  - apply entered_call; [done..|apply ad_AdvanceBody].
  - apply entered_call; [done..|apply ad_FailPathBody].
  - apply entered_call; [done..|apply ad_JoinBody].
  - apply entered_call; [done..|apply sy_ReceiveBody].
  - apply entered_call; [done..|apply sy_TakeSendBody].
  - unfold CompleteSend. cbv zeta. cbn. unfold unowned in U. rewrite U, orb_true_r.
    apply idles_call; [done|by split; [|left]].
  - apply idles_call; [done|by split; [|left]].
  - apply idles_call; [done|by split; [|left]].
  - apply idles_call; [done|]. unfold BeginClose. split; [|left]; unfold unowned; cbn; by destruct (closed (con s)).
  - apply idles_call; [done|apply FinalizeClose_idle].
  - apply idles_call; [done|]. unfold Close. etransitivity; [|apply FinalizeClose_idle].
    unfold BeginClose. split; [|left]; unfold unowned; cbn; by destruct (closed (con s)).
Qed.

(** ** Runs *)

(** [trace others s l s']: from [s] to [s'] by calls that emitted [l]. *)
Inductive trace (others : St -> World -> Prop) (s : St) : list Timed -> St -> Prop :=
| trace_nil : trace others s [] s
| trace_call l s' c : trace others s l s' -> trace others s (l ++ emitted c s') (perform c s')
| trace_others l s' w e : trace others s l s' -> others s' w ->
    trace others s l (s' <| ledger := w |> <| env := e |>).

Lemma trace_reachable others s l s' : reachable others s -> trace others s l s' -> reachable others s'.
Proof using. intros R. induction 1; [done|by apply reach_call|by apply reach_others]. Qed.

Lemma trace_paced others s l s' :
  reachable others s -> unowned s -> trace others s l s' -> paced_call s l s'.
Proof using.
  intros R U T. induction T as [|l s' c T IH|l s' w e T IH O].
  - apply idle_call; [done|]. intros i p E. by exists p.
  - destruct IH as [U1 P1]. pose proof (trace_reachable _ _ _ _ R T) as R1. apply reachable_sane in R1.
    destruct (perform_paced c s' (sn_numbered _ R1) U1) as [U2 P2]. split; [done|].
    intros i p2 E2. destruct (P2 i p2 E2) as (p1 & E1 & I1 & T1 & Q1).
    destruct (P1 i p1 E1) as (p & E & I0 & T0 & Q0). exists p. split_and!; [done|congruence|congruence|].
    unfold onPathID. rewrite filter_app. eapply paces_app; [exact Q0|]. by rewrite I0, T0 in Q1.
  - exact IH.
Qed.

(** C5: A path never exceeds its rate.  Take any run of a Controller whose adapter emits
    synchronously, at whatever times its owner calls it, and any path that is still there
    at the end: of the packets that the run emitted on the path, all but the last, whose
    transmission may still be going on, fit at the rate of the path between the time of
    the first packet and that of the last. *)
Theorem path_rate others s l s' i p' first mid last :
  reachable others s -> OwnedSends (cfg (con s)) = false -> trace others s l s' ->
  paths (con s') !! i = Some p' -> rate_ok (rate p') -> Forall udp l ->
  onPathID (Z.of_nat i + 1) l = first :: mid ++ [last] ->
  8 * second * bytesOf (first :: mid) <= rate p' * (fst last - fst first).
Proof using.
  intros R U T E Hr Hu El. destruct (trace_paced _ _ _ _ R U T) as [_ P].
  destruct (P i p' E) as (p & Ep & _ & Er & Q). rewrite Er in Hr |- *.
  apply reachable_sane in R. rewrite (sn_numbered _ R _ _ Ep), El in Q.
  assert (Hf : Forall udp (onPathID (Z.of_nat i + 1) l)).
  { apply list.Forall_forall. intros x [_ Hx]%list_elem_of_filter. rewrite list.Forall_forall in Hu. auto. }
  rewrite El in Hf. destruct first as [t x], last as [t' y]. cbn [fst snd] in *.
  inversion Hf as [|? ? Hx Hm]; subst. destruct Q as (_ & b & Q).
  apply Forall_app in Hm as [Hm _].
  pose proof (paces_rate _ _ _ _ _ _ Hr Hm Q _ eq_refl) as B.
  pose proof (serializationTime_bits _ b _ Hr Hx) as S.
  change (bytesOf ((t, x) :: mid)) with (at_Bytes x + bytesOf mid). cbn in S. nia.
Qed.
End rate.
