(* ===== verification/SessionV2Owned.v ===== *)
(** * Owned sends of a version 2 Session

    The slots, the tokens and the account of each path: what is outstanding between a
    [TakeSend] and the [CompleteSend] of its intent. *)

From S2P Require Import Prelude CreditScope SessionV2Types SessionV2Control SessionV2Send SessionV2Data SessionV2.
From S2P Require Import SessionV2Rules SessionV2Frames SessionV2Run SessionV2Paths.
From S2P Require Credit Fec FecV2 Negotiation WireV2 WireV2Bundle Handshake Aggregation Reassembly.
From Stdlib Require Import RelationClasses.

Section owned.
Context `{L : Ledger} `{K : Links} `{Y : Layout} `{Fec.ReedSolomon}.

(** ** The account *)

Definition slotsOf (s : St) : list sendSlot := slots (sendsOf (con s)).
Definition busySlots (l : list sendSlot) : list sendSlot := filter (fun a => token a <> 0) l.

(** What a path records of the packet [a] that it carries. *)
Definition carries (p : pathState) (a : sendSlot) : Prop :=
  sendToken p = token a /\ queuedPackets p = 1 /\ queuedBytes p = u64 (slot_bytes a).
Definition idlePath (p : pathState) : Prop := sendToken p = 0 /\ queuedPackets p = 0 /\ queuedBytes p = 0.

Record slots_ok (x : ownedSendState) (ps : list pathState) (ints : gmap Z IntentState) : Prop := {
  so_next : 0 <= nextToken x <= maxUint64;
  so_tokens : forall a, a ∈ slots x -> 0 <= token a <= nextToken x;
  so_distinct : forall j k a b, slots x !! j = Some a -> slots x !! k = Some b -> token a <> 0 -> token b <> 0 ->
    token a = token b \/ slot_path a = slot_path b -> j = k;
  so_active : sn_active x = len (busySlots (slots x));
  so_paths : forall i p, ps !! i = Some p ->
    idlePath p /\ (forall a, a ∈ slots x -> token a <> 0 -> slot_path a <> pathid p) \/
    exists a, a ∈ slots x /\ token a <> 0 /\ slot_path a = pathid p /\ carries p a /\ 0 <= slot_bytes a;
  so_named : forall a, a ∈ slots x -> token a <> 0 -> 1 <= slot_path a;
  so_intents : forall a, a ∈ slots x -> token a <> 0 -> is_Some (ints !! token a) }.

Definition accounts (s : St) : Prop :=
  forall x, sends (con s) = Some x -> slots_ok x (paths (con s)) (intents s).

(** Nothing is taken or completed. *)
Definition accounted : relation St := fun s s' => outstanding s' = outstanding s /\ onPaths still s s'.
#[export] Instance accounted_preorder : PreOrder accounted.
Proof. split; [by intros s; split|]. intros a b c [A1 A2] [B1 B2]. split; [congruence|by etransitivity]. Qed.

Lemma ac_drives {A} (m : M A) : evolves drives m -> evolves accounted m.
Proof using.
  apply evolves_sub. intros s s' [E P]. split; [exact (f_equal snd E)|].
  intros i p Ep. destruct (P i p Ep) as (q & ? & []). by exists q.
Qed.
Lemma ac_controls {A} P now (m : M A) : (forall p p', P p p' -> still p p') ->
  evolves (controls P now) m -> evolves accounted m.
Proof using.
  intros PS. apply evolves_sub. intros s s' (E & Q & _). split.
  - unfold same, beyondControl in E. exact (f_equal (fun x => ((fun x => (slots x, nextToken x, sn_active x)) <$>
      sends x.1.1.1.1, x.1.1.2)) E).
  - intros i p Ep. destruct (Q i p Ep) as (q & ? & ?). exists q. auto.
Qed.
Lemma ac_local {A} (m : M A) : (forall s, outstanding (snd (m s)) = outstanding s /\
  paths (con (snd (m s))) = paths (con s)) -> evolves accounted m.
Proof using. intros E s. destruct (E s). split; [done|by apply onPaths_same; [apply _|]]. Qed.
Lemma accounted_local s s' :
  outstanding s' = outstanding s -> paths (con s') = paths (con s) -> accounted s s'.
Proof using. intros E P. split; [done|by apply onPaths_same; [apply _|]]. Qed.
Lemma ac_data {A} (m : M A) : evolves (same beyondData) m -> evolves accounted m.
Proof using.
  intros E. apply ac_local. intros s. specialize (E s). unfold same, beyondData in E. split.
  - exact (f_equal (fun x => ((fun x => (slots x, nextToken x, sn_active x)) <$> sends x.1.1.1.1.1, x.1.1.2)) E).
  - exact (f_equal (fun x => paths x.1.1.1.1.1) E).
Qed.
#[export] Instance accounted_admits now : Admits accounted now.
Proof using Y.
  split; try apply _.
  - intros A m. apply (ac_controls quiet). by intros p p' [].
  - intros A m E. apply ac_local. intros s. specialize (E s). unfold same, beyondLocal in E. split.
    + exact (f_equal (fun x => ((fun x => (slots x, nextToken x, sn_active x)) <$> sends x.1.1.1.1.1.1, x.1.1.1.2)) E).
    + exact (f_equal (fun x => paths x.1.1.1.1.1.1) E).
  - intros carrier. apply (ac_controls still now); [done|apply fj_startJoin].
  - apply ac_drives, fo_drive.
  - intros payload. apply ac_local. intros s. unfold admitPayload. destruct (queue (con s)) as [q|]; [|done].
    destruct (Aggregation.Admit _ _ _ _) as [[r q'] w]. by destruct r.
  - intros b s. split; [done|]. apply (onPaths_map still _ _ (failBinding b)); [done|].
    intros p. unfold failBinding. cbv zeta. by repeat case_match.
  - apply ac_data, fd_expireGroups.
  - apply ac_data, fd_expireOriginals.
  - apply ac_data, fd_retryGroups.
  - intros. apply ac_data, fd_receiveBundle.
Qed.

Lemma accounted_sends s s' : accounted s s' -> forall x', sends (con s') = Some x' -> exists x, sends (con s) = Some x /\
  slots x' = slots x /\ nextToken x' = nextToken x /\ sn_active x' = sn_active x /\ intents s' = intents s.
Proof using.
  intros [E _] x' Ex. unfold outstanding in E. rewrite Ex in E. destruct (sends (con s)) as [x|]; [|done].
  cbn in E. exists x. apply pair_equal_spec in E as [E1 E2]. injection E1 as -> -> ->. done.
Qed.

Lemma accounts_kept s s' : accounted s s' -> accounts s -> accounts s'.
Proof using.
  intros A I x' Ex'. destruct (accounted_sends _ _ A x' Ex') as (x & Ex & Es & En & Ea & Ei). destruct A as [_ P].
  destruct (I x Ex) as [N T D C Q W J]. split; rewrite ?Es, ?En, ?Ea, ?Ei; try done.
  intros i p' Ep'. destruct (P i p' Ep') as (p & Ep & St). unfold still, account in St.
  assert (pathid p' = pathid p /\ sendToken p' = sendToken p /\ queuedPackets p' = queuedPackets p /\
    queuedBytes p' = queuedBytes p) as (-> & E1 & E2 & E3) by (split_and!; congruence).
  unfold idlePath, carries. rewrite E1, E2, E3. by apply (Q i).
Qed.

(** ** Taking *)

Definition tokens (s : St) : gset Z := list_to_set (token <$> busySlots (slotsOf s)).
Definition lastToken (s : St) : Z := nextToken (sendsOf (con s)).

Lemma elem_of_tokens s t : t ∈ tokens s <-> t <> 0 /\ exists a, a ∈ slotsOf s /\ token a = t.
Proof using.
  unfold tokens, busySlots. rewrite elem_of_list_to_set, list_elem_of_fmap. split.
  - intros (a & -> & [Ha Hi]%list_elem_of_filter). split; [done|by exists a].
  - intros (Ht & a & Ha & <-). exists a. split; [done|]. by apply list_elem_of_filter.
Qed.

(** Slot [k] received the packet of [it], which leaves on path [n]. *)
Definition issues (it : SendIntent) (s s' : St) : Prop :=
  exists x x' k a, sends (con s) = Some x /\ sends (con s') = Some x' /\
    slots x' = <[k := a]> (slots x) /\ (exists a0, slots x !! k = Some a0 /\ token a0 = 0) /\
    token a = Token it /\ Token it = nextToken x + 1 /\ nextToken x' = Token it /\
    slot_path a = in_PathID it /\ slot_bytes a = len (Packet it) /\
    intents s' = <[Token it := {| is_packet := Packet it; is_sender := in_Sender it; released := false |}]> (intents s).

Lemma busy_insert (l : list sendSlot) k a a0 :
  l !! k = Some a0 -> token a0 = 0 -> token a <> 0 -> len (busySlots (<[k := a]> l)) = len (busySlots l) + 1.
Proof using.
  intros E E0 Ea. rewrite <- (take_drop_middle l k a0 E) at 2.
  rewrite insert_take_drop by by eapply lookup_lt_Some. unfold busySlots.
  rewrite !filter_app, !filter_cons, decide_True, decide_False by (done || lia). unfold len.
  rewrite !length_app. cbn [length]. lia.
Qed.

Lemma elem_of_insert_inv {A} (l : list A) k b a : a ∈ <[k := b]> l -> a = b \/ a ∈ l.
Proof using.
  intros [j E]%list_elem_of_lookup. apply list_lookup_insert_Some in E as [(? & ? & ?)|[? E]]; [by left|right].
  by eapply list_elem_of_lookup_2.
Qed.

(** The state of the sends after a packet took the free slot [k] and the idle path [i]. *)
Lemma slots_issue x ps ints k a0 b i p f st :
  slots_ok x ps ints -> numbered ps -> slots x !! k = Some a0 -> token a0 = 0 -> nextToken x <> maxUint64 ->
  token b = nextToken x + 1 -> slot_path b = Z.of_nat i + 1 -> 0 <= slot_bytes b ->
  (forall q, ps !! i = Some q -> q = p) -> sendToken p = 0 ->
  (forall a, a ∈ slots x -> token a <> 0 -> slot_path a <> slot_path b) ->
  pathid (f p) = pathid p -> sendToken (f p) = token b -> queuedPackets (f p) = queuedPackets p + 1 ->
  queuedBytes (f p) = u64 (queuedBytes p + u64 (slot_bytes b)) ->
  slots_ok (x <| nextToken := token b |> <| slots ::= <[k := b]> |> <| sn_active ::= fun n => n + 1 |>)
    (alter f i ps) (<[token b := st]> ints).
Proof using.
  intros [R T D C Q W J] N Ek E0 Nm Et Ei Hb Hq Hp Hs F1 F2 F3 F4.
  assert (Kb : forall j c, slots x !! j = Some c -> token c <> 0 -> j <> k) by (intros j c Ec Hc ->; by simplify_eq).
  assert (In : b ∈ <[k := b]> (slots x)).
  { eapply list_elem_of_lookup_2, list_lookup_insert_eq. by eapply lookup_lt_Some. }
  split; cbn [nextToken slots sn_active update].
  - cbn. lia.
  - intros a [->|Ha]%elem_of_insert_inv; cbn; [lia|]. specialize (T a Ha). lia.
  - intros j j' c c'. cbn. intros [(<- & <- & ?)|[Nj Ej]]%list_lookup_insert_Some
      [(<- & <- & ?)|[Nj' Ej']]%list_lookup_insert_Some Hc Hc' E; [done| | |by eapply D].
    + exfalso. pose proof (list_elem_of_lookup_2 _ _ _ Ej') as El. destruct E as [E|E]; [specialize (T _ El); lia|].
      by apply (Hs c').
    + exfalso. pose proof (list_elem_of_lookup_2 _ _ _ Ej) as El. destruct E as [E|E]; [specialize (T _ El); lia|].
      by apply (Hs c).
  - cbn. rewrite (busy_insert _ _ _ a0), C by (done || lia). done.
  - intros j q Eq. destruct (decide (i = j)) as [<-|Nj].
    + rewrite list_lookup_alter_eq in Eq. destruct (ps !! i) as [q0|] eqn:E; [|done]. injection Eq as <-.
      pose proof (Hq _ eq_refl) as ->. destruct (Q i p E) as [[(_ & Z1 & Z2) _]|(a & _ & Ha & _ & (Et' & _) & _)]; [|congruence].
      right. exists b. refine (conj In (conj _ (conj _ (conj (conj F2 (conj _ _)) Hb)))).
      * lia.
      * rewrite F1, Ei. symmetry. by apply N.
      * lia.
      * rewrite F4, Z2. unfold u64, wrap. by rewrite Z.add_0_l, Zmod_mod.
    + rewrite list_lookup_alter_ne in Eq by done. destruct (Q j q Eq) as [[Id Hn]|(a & Ha & Ht & Hpth & Hc & Hz)].
      * left. split; [done|]. intros a [->|Ha]%elem_of_insert_inv Ht; [|by apply Hn]. rewrite Ei, (N _ _ Eq). lia.
      * right. exists a. split_and!; try done. apply list_elem_of_lookup in Ha as [ja Ea].
        apply (list_elem_of_lookup_2 _ ja). cbn. rewrite list_lookup_insert_ne; [done|]. by intros <-; apply (Kb _ _ Ea Ht).
  - intros a [->|Ha]%elem_of_insert_inv Ht; [lia|by apply W].
  - intros a [->|Ha]%elem_of_insert_inv Ht; [rewrite lookup_insert_eq; by eexists|].
    destruct (decide (token a = token b)) as [->|Ne]; [rewrite lookup_insert_eq; by eexists|].
    rewrite lookup_insert_ne by done. by apply J.
Qed.

Lemma installIntent_issues k slot i snd_ packet s x a0 p :
  accounts s -> numbered (paths (con s)) -> sends (con s) = Some x ->
  slots x !! k = Some a0 -> token a0 = 0 -> nextToken x <> maxUint64 -> slot_path slot = Z.of_nat i + 1 ->
  (forall q, paths (con s) !! i = Some q -> q = p) -> sendToken p = 0 ->
  (forall a, a ∈ slots x -> token a <> 0 -> slot_path a <> slot_path slot) ->
  wp (installIntent k slot i snd_ packet)
     (fun r s' => accounts s' /\ exists it, r = Ok it /\ issues it s s') s.
Proof using.
  intros I N Ex Ek E0 Nm Ei Hq Hp Hs. pose proof (I x Ex) as O. pose proof (so_next _ _ _ O) as R.
  set (t := nextToken x + 1). assert (Et : u64 (nextToken (sendsOf (con s)) + 1) = t).
  { unfold sendsOf. rewrite Ex. cbn. apply u64_succ. lia. }
  unfold installIntent. apply wp_reads. unfold id. rewrite Et.
  set (b := slot <| token := t |> <| slot_kind := byte_at 5 packet |> <| slot_bytes := len packet |>).
  unfold wp, bind, onSends, onPath, modify. cbn [fst snd]. split.
  - intros x' Ex'. cbn in Ex'. rewrite Ex in Ex'. injection Ex' as <-.
    apply (slots_issue x _ _ k a0 b i p); try done. apply len_nonneg.
  - eexists. split; [reflexivity|]. exists x. eexists _, k, b. cbn. rewrite Ex. by split_and!; try exists a0.
Qed.

(** ** Visits *)

(** What taking a packet leaves: the accounts, with one more packet if there is one. *)
Definition taken (s : St) (r : result CtlError (option SendIntent)) (s' : St) : Prop :=
  accounts s' /\
  match r with
  | Ok (Some it) => exists s1 s2, accounted s s1 /\ issues it s1 s2 /\ accounted s2 s'
  | _ => accounted s s'
  end.

Lemma accounted_numbered s s' : accounted s s' -> numbered (paths (con s)) -> numbered (paths (con s')).
Proof using.
  intros [_ P] N i q E. destruct (P i q E) as (p & Ep & St). unfold still, account in St.
  rewrite <- (N i p Ep). congruence.
Qed.

(** The state a visit starts in: the slot [k] is free. *)
Record ready_slot (k : nat) (s : St) : Prop := {
  rs_accounts : accounts s;
  rs_numbered : numbered (paths (con s));
  rs_free : exists x a0, sends (con s) = Some x /\ slots x !! k = Some a0 /\ token a0 = 0 /\ nextToken x <> maxUint64 }.

Lemma ready_slot_kept k s s' : accounted s s' -> (sends (con s') = None -> sends (con s) = None) ->
  ready_slot k s -> ready_slot k s'.
Proof using.
  intros A Hn [I N (x & a0 & Ex & Ek & E0 & Nm)]. split; [by eapply accounts_kept|by eapply accounted_numbered|].
  destruct (sends (con s')) as [x'|] eqn:Ex'; [|by rewrite Hn in Ex].
  destruct (accounted_sends _ _ A x' Ex') as (y & Ey & Es & En & _). simplify_eq.
  exists x', a0. rewrite Es, En. done.
Qed.

Lemma accounted_none s s' : accounted s s' -> sends (con s') = None -> sends (con s) = None.
Proof using. intros [E _] En. unfold outstanding in E. rewrite En in E. by destruct (sends (con s)). Qed.

(** The packet of a path that could dispatch at [s] is installed after some bookkeeping. *)
Lemma install_after k slot i snd_ packet s s1 p :
  ready_slot k s -> accounted s s1 -> paths (con s) !! i = Some p -> sendToken p = 0 -> slot_path slot = pathid p ->
  wp (installIntent k slot i snd_ packet) (fun r s' => accounts s' /\ exists it, r = Ok it /\ issues it s1 s') s1.
Proof using.
  intros Rs A Ep Hp Hs. pose proof (ready_slot_kept k s s1 A (accounted_none _ _ A) Rs) as [I1 N1 (x & a0 & Ex & Ek & E0 & Nm)].
  destruct Rs as [I N _]. destruct (accounted_sends _ _ A x Ex) as (y & Ey & Es & En & _).
  pose proof (N _ _ Ep) as Np.
  destruct (paths (con s1) !! i) as [p1|] eqn:E1.
  - destruct A as [_ P]. destruct (P i p1 E1) as (q & Eq & St). simplify_eq. unfold still, account in St.
    apply (installIntent_issues k slot i snd_ packet s1 x a0 p1); try done; try congruence.
    intros a Ha Ht. rewrite Es in Ha. destruct (so_paths _ _ _ (I y Ey) i p Ep) as [[_ Hn]|(b & _ & Hb & _ & (Et & _) & _)].
    + rewrite Hs. by apply Hn.
    + congruence.
  - apply (installIntent_issues k slot i snd_ packet s1 x a0 p); try done; try congruence.
    intros a Ha Ht. rewrite Es in Ha. destruct (so_paths _ _ _ (I y Ey) i p Ep) as [[_ Hn]|(b & _ & Hb & _ & (Et & _) & _)].
    + rewrite Hs. by apply Hn.
    + congruence.
Qed.

Lemma wp_install {B} k slot i snd_ packet s s1 p (k1 : SendIntent -> M B) Q :
  ready_slot k s -> accounted s s1 -> paths (con s) !! i = Some p -> sendToken p = 0 -> slot_path slot = pathid p ->
  (forall it s2, accounts s2 -> issues it s1 s2 -> wp (k1 it) Q s2) ->
  wp (let! it := installIntent k slot i snd_ packet in k1 it) Q s1.
Proof using.
  intros Rs A Ep Hp Hs Hk. apply wp_bind. eapply wp_weaken; [by eapply install_after|].
  intros r s2 (I & it & -> & Is). cbn [after]. by apply Hk.
Qed.

Lemma taken_some s s1 s2 s3 it :
  accounted s s1 -> accounts s2 -> issues it s1 s2 -> accounted s2 s3 -> taken s (Ok (Some it)) s3.
Proof using. intros A1 I Is A3. split; [by eapply accounts_kept|]. by exists s1, s2. Qed.

Lemma controlAt_path c i src v : controlAt c i src = Some v ->
  oc_path v = i /\ exists p, paths c !! i = Some p.
Proof using.
  unfold controlAt. cbv zeta. destruct (paths c !! i) as [p|] eqn:E.
  - intros Hv. split; [|by exists p]. destruct src; repeat (case_match; try done); by injection Hv as <-.
  - rewrite list_lookup_total_alt, E. cbn. by destruct src.
Qed.

Lemma takeVisit_taken now k i src v s :
  ready_slot k s -> controlAt (con s) i src = Some v ->
  wp (takeVisit now k v) (fun r => taken s (match r with Ok a => Ok (default None a) | Err e => Err e end)) s.
Proof using.
  intros Rs Hv. destruct (controlAt_path _ _ _ _ Hv) as [Hi [p Ep]]. unfold takeVisit. apply wp_reads. unfold id. cbv zeta.
  rewrite Hi, (lookup_paths _ _ _ Ep).
  assert (None_ : forall r s', accounted s s' -> (forall it, r <> Ok (Some (Some it))) ->
    taken s (match r with Ok a => Ok (default None a) | Err e => Err e end) s').
  { intros r s' A Hr. split; [eapply accounts_kept; [exact A|apply Rs]|]. destruct r as [[[it|]|]|]; try done. by destruct (Hr it). }
  wp_if G1; [by apply None_|]. wp_if G2; [by apply None_|].
  apply wp_asks. set (Q := fun r : result CtlError (option (option SendIntent)) => taken s _) in *.
  assert (Fail : forall e s', accounted s s' -> Q (Err e) s') by (intros e s' A; by apply None_).
  wp_if G3.
  - apply (wp_step (R := accounted)) with (s0 := s); [by apply ac_local|done|done|]. intros n s1 A1.
    apply (wp_step (R := accounted)) with (s0 := s); [|done|done|].
    { case_match; [apply ac_drives, fo_failQueued|apply ev_ret]. }
    intros _ s2 A2. apply (wp_step (R := accounted)) with (s0 := s); [apply ac_drives, fo_stepFull|done|done|].
    intros full s3 A3. apply None_; [done|]. by destruct full.
  - apply wp_lift. case_match; [|by apply Fail].
    apply (wp_step (R := accounted)) with (s0 := s); [apply ac_drives, fo_sendAuthenticate|done|done|]. intros au s1 A1.
    apply wp_lift. destruct (WireV2Bundle.DecodeEstablished au) as [m|e]; [|by apply Fail].
    apply (wp_step (R := accounted)) with (s0 := s); [|done|done|].
    { destruct (oc_retry v); [apply ac_drives, fo_onRetry; done|apply ev_ret]. }
    intros _ s2 A2. apply (wp_step (R := accounted)) with (s0 := s); [apply ac_drives, fo_onFrame|done|done|].
    intros _ s3 A3. apply orb_false_elim in G1 as [_ G1]. unfold pathCanDispatch in G1.
    apply (wp_install k) with (s := s) (p := p); [exact Rs|exact A3|exact Ep|lia|by destruct (oc_retry v)|].
    intros it s4 I4 Is. unfold wp. cbn. by apply (taken_some s s3 s4); [| | |apply accounted_local].
Qed.

Lemma takeOwnedControl_taken now k s :
  ready_slot k s -> wp (takeOwnedControl now k) (taken s) s.
Proof using.
  intros Rs. unfold takeOwnedControl, visitOwnedControls. apply wp_bind, wp_reads.
  generalize (i ← around (controlCursor (id (con s))) (length (paths (id (con s)))); src ← sources; [(i, src)]).
  intros l. set (Q := fun r : result CtlError (option (option SendIntent)) =>
    taken s (match r with Ok a => Ok (default None a) | Err e => Err e end)).
  apply (wp_weaken _ Q); [|intros [a|e] s' T; exact T].
  assert (Gen : forall s1, accounted s s1 -> wp (visitAll l (takeVisit now k)) Q s1); [|by apply Gen].
  induction l as [|[i src] l IH]; intros s1 A1; cbn [visitAll].
  { split; [eapply accounts_kept; [exact A1|apply Rs]|exact A1]. }
  apply wp_reads. destruct (controlAt (con s1) i src) as [v|] eqn:Ev; [|by apply IH].
  pose proof (ready_slot_kept k s s1 A1 (accounted_none _ _ A1) Rs) as R1.
  apply wp_bind. eapply wp_weaken; [by eapply takeVisit_taken|]. intros [[a|]|e] s2 [I2 T]; cbn [after].
  - split; [exact I2|]. destruct a as [it|]; cbn in T |- *.
    + destruct T as (s3 & s4 & ? & ? & ?). exists s3, s4. split_and!; [by etransitivity|done|done].
    + by etransitivity.
  - cbn in T. apply IH. by etransitivity.
  - split; [exact I2|]. cbn in T |- *. by etransitivity.
Qed.

Lemma takeShards_taken now k l s :
  ready_slot k s -> wp (takeShards l now k) (taken s) s.
Proof using.
  intros Rs. assert (None_ : forall r s', accounted s s' -> (forall it, r <> Ok (Some it)) -> taken s r s').
  { intros r s' A Hr. split; [eapply accounts_kept; [exact A|apply Rs]|]. destruct r as [[it|]|]; try done. by destruct (Hr it). }
  assert (Gen : forall s1, accounted s s1 -> wp (takeShards l now k) (taken s) s1); [|by apply Gen].
  induction l as [|j l IH]; intros s1 A1; cbn [takeShards]; [by apply None_|].
  apply wp_reads. unfold id. wp_if G1; [by apply IH|]. apply wp_asks. cbv zeta.
  set (i := dataPath _ _ _ _). apply wp_bind. unfold wp at 1, eligible at 1. cbn [fst snd after].
  wp_if G2; [by apply IH|]. apply orb_false_elim in G2 as [G2 G3].
  pose proof (ready_slot_kept k s s1 A1 (accounted_none _ _ A1) Rs) as R1.
  apply (wp_step (R := accounted)) with (s0 := s1); [apply ac_drives, fo_sendAppend|done|..].
  { intros e s2 A2. apply None_; [by etransitivity|done]. }
  intros packet s2 A2. wp_if G4; [by apply None_; [etransitivity|]|].
  destruct (paths (con s1) !! i) as [p|] eqn:Ep.
  - rewrite (lookup_paths _ _ _ Ep) in *. unfold pathCanDispatch in G3.
    apply (wp_install k) with (s := s1) (p := p); [done|done|done|lia|done|]. intros it s3 I3 Is.
    unfold wp. cbn. apply (taken_some s s2 s3); [by etransitivity|done|done|].
    apply accounted_local; [|done]. unfold outstanding. cbn. by destruct (sends (con s3)).
  - exfalso. apply negb_false_iff in G2. unfold eligibleIn in G2. revert G2.
    by rewrite list_lookup_total_alt, Ep.
Qed.

Lemma takeOwnedData_taken now k s :
  ready_slot k s -> wp (takeOwnedData now k) (taken s) s.
Proof using.
  intros Rs. unfold takeOwnedData. apply wp_reads.
  assert (Stay : forall r, (forall it, r <> Ok (Some it)) -> taken s r s).
  { intros r Hr. split; [apply Rs|]. destruct r as [[it|]|]; try done. by destruct (Hr it). }
  wp_if G1; [by apply Stay|]. wp_if G2; [by apply Stay|]. cbv zeta. by apply takeShards_taken.
Qed.

Lemma freeSendSlot_free c x k : sends c = Some x -> freeSendSlot c = Some k ->
  exists a0, slots x !! k = Some a0 /\ token a0 = 0.
Proof using.
  unfold freeSendSlot, sendsOf. intros ->. cbn. destruct (list_find _ _) as [[j a]|] eqn:E; [|done].
  intros [= <-]. apply list_find_Some in E as (Ej & Et & _). by exists a.
Qed.

Lemma TakeSendBody_taken now s :
  accounts s -> numbered (paths (con s)) -> wp (TakeSendBody now) (taken s) s.
Proof using.
  intros I N. unfold TakeSendBody. apply wp_reads.
  assert (None_ : forall r s', accounted s s' -> (forall it, r <> Ok (Some it)) -> taken s r s').
  { intros r s' A Hr. split; [by eapply accounts_kept|]. destruct r as [[it|]|]; try done. by destruct (Hr it). }
  wp_if G1; [by apply None_|]. apply (wp_step (R := accounted)) with (s0 := s); [apply ac_drives, fo_driveOwned|done|..].
  { intros e s1 A1. by apply None_. }
  intros _ s1 A1. apply wp_reads. unfold id. destruct (freeSendSlot (con s1)) as [k|] eqn:Ek; [|by apply None_].
  wp_if G2; [by apply None_|].
  assert (R1 : ready_slot k s1).
  { split; [by eapply accounts_kept|by eapply accounted_numbered|].
    destruct (sends (con s1)) as [x|] eqn:Ex.
    - destruct (freeSendSlot_free _ _ _ Ex Ek) as (a0 & ? & ?). exists x, a0. split_and!; try done.
      unfold sendsOf in G2. rewrite Ex in G2. cbn in G2. lia.
    - apply (accounted_none _ _ A1) in Ex. unfold id in G1. rewrite Ex, bool_decide_true, orb_true_r in G1 by done. done. }
  assert (Tr : forall r s2, taken s1 r s2 -> taken s r s2).
  { intros r s2 [I2 T]. split; [done|]. destruct r as [[it|]|]; [|by etransitivity..].
    destruct T as (s3 & s4 & ? & ? & ?). exists s3, s4. split_and!; [by etransitivity|done|done]. }
  apply wp_bind. eapply wp_weaken; [by apply takeOwnedControl_taken|]. intros [[it|]|e] s2 T; cbn [after]; [by apply Tr| |by apply Tr].
  destruct T as [I2 A2]. eapply wp_weaken; [apply takeOwnedData_taken|].
  - by apply (ready_slot_kept k s1 s2 A2 (accounted_none _ _ A2)).
  - intros r s3 T. apply Tr. destruct T as [I3 T]. split; [done|]. destruct r as [[it|]|]; [|by etransitivity..].
    destruct T as (s4 & s5 & ? & ? & ?). exists s4, s5. split_and!; [by etransitivity|done|done].
Qed.

(** ** Completing *)

Lemma free_busy (l : list sendSlot) k a :
  l !! k = Some a -> token a <> 0 -> len (busySlots (<[k := zeroSlot]> l)) = len (busySlots l) - 1.
Proof using.
  intros E Ea. pose proof (busy_insert (<[k := zeroSlot]> l) k a zeroSlot) as B.
  rewrite list_insert_insert_eq, (list_insert_id l k a E), list_lookup_insert_eq in B by by eapply lookup_lt_Some.
  specialize (B eq_refl eq_refl Ea). lia.
Qed.

(** The state of the sends after the packet of slot [k] is done. *)
Lemma slots_free x ps ints k a i f :
  slots_ok x ps ints -> numbered ps -> slots x !! k = Some a -> token a <> 0 -> slot_path a = Z.of_nat i + 1 ->
  (forall p, carries p a -> pathid (f p) = pathid p /\ idlePath (f p)) ->
  slots_ok (x <| sn_active ::= fun n => n - 1 |> <| slots ::= <[k := zeroSlot]> |>) (alter f i ps) ints.
Proof using.
  intros [R T D C Q W J] N Ek Ea Ei Hf.
  assert (Old : forall c, c ∈ <[k := zeroSlot]> (slots x) -> token c <> 0 -> c ∈ slots x).
  { intros c [->|Hc]%elem_of_insert_inv Ht; done. }
  split; cbn [nextToken slots sn_active update]; cbn.
  - done.
  - intros c [->|Hc]%elem_of_insert_inv; cbn; [lia|by apply T].
  - intros j j' c c' [(<- & <- & ?)|[Nj Ej]]%list_lookup_insert_Some
      [(<- & <- & ?)|[Nj' Ej']]%list_lookup_insert_Some Hc Hc' E; [done..|]. by eapply D.
  - by rewrite (free_busy _ _ a), C.
  - intros j q Eq. destruct (decide (i = j)) as [<-|Nj].
    + rewrite list_lookup_alter_eq in Eq. destruct (ps !! i) as [p|] eqn:E; [|done]. injection Eq as <-.
      pose proof (N _ _ E) as Np. left.
      assert (Cr : carries p a).
      { destruct (Q i p E) as [[_ Hn]|(b & Hb & Ht & Hpth & Hc & _)].
        - exfalso. apply (Hn a); [by eapply list_elem_of_lookup_2|done|congruence].
        - apply list_elem_of_lookup in Hb as [jb Eb].
          assert (jb = k) as -> by (eapply D; try done; right; congruence). by simplify_eq. }
      destruct (Hf p Cr) as [-> Id]. split; [exact Id|]. intros c Hc Ht Hpth. pose proof (Old c Hc Ht) as Ho.
      apply list_elem_of_lookup in Hc as [jc [(_ & <- & _)|[Nk Ec]]%list_lookup_insert_Some]; [done|].
      apply Nk. eapply D; [exact Ek|exact Ec|done|done|right; congruence].
    + rewrite list_lookup_alter_ne in Eq by done. destruct (Q j q Eq) as [[Id Hn]|(b & Hb & Ht & Hpth & Hc & Hz)].
      * left. split; [done|]. intros c Hc Ht. apply Hn; auto.
      * right. exists b. split_and!; try done; try apply Hc. apply list_elem_of_lookup in Hb as [jb Eb].
        apply (list_elem_of_lookup_2 _ jb). rewrite list_lookup_insert_ne; [done|]. intros <-. simplify_eq.
        rewrite (N _ _ Eq) in Hpth. lia.
  - intros c Hc Ht. apply W; auto.
  - intros c Hc Ht. apply J; auto.
Qed.

(** The packet of token [t] is done. *)
Definition frees (t : Z) (s s' : St) : Prop :=
  exists x x' k a, sends (con s) = Some x /\ sends (con s') = Some x' /\ slots x !! k = Some a /\ token a = t /\
    t <> 0 /\ slots x' = <[k := zeroSlot]> (slots x) /\ nextToken x' = nextToken x /\ intents s' = intents s.

Lemma CompleteSendBody_frees now k o s x a :
  accounts s -> numbered (paths (con s)) -> sends (con s) = Some x -> slots x !! k = Some a -> token a <> 0 ->
  wp (CompleteSendBody now k o) (fun _ s' => accounts s' /\ exists s1, frees (token a) s s1 /\ accounted s1 s') s.
Proof using.
  intros I N Ex Ek Ea. pose proof (I x Ex) as O. unfold CompleteSendBody. apply wp_reads. unfold id.
  assert (Es : slots (sendsOf (con s)) !!! k = a).
  { unfold sendsOf. rewrite Ex. by apply list_lookup_total_correct. }
  rewrite Es. cbv zeta.
  assert (Ei : slot_path a = Z.of_nat (Z.to_nat (slot_path a - 1)) + 1).
  { pose proof (so_named _ _ _ O a (list_elem_of_lookup_2 _ _ _ Ek) Ea). lia. }
  set (i := Z.to_nat (slot_path a - 1)) in *.
  set (f := fun p => p <| sendToken ::= fun t => if t =? token a then 0 else t |>
        <| queuedPackets ::= fun n => n - 1 |> <| queuedBytes ::= fun n => u64 (n - u64 (slot_bytes a)) |>).
  apply wp_bind. unfold wp at 1, onPath at 1, modify at 1. cbn [fst snd after].
  apply wp_bind. unfold wp at 1, onSends at 1, modify at 1. cbn [fst snd after].
  match goal with |- wp _ _ ?t => set (s1 := t) end.
  assert (F : frees (token a) s s1).
  { exists x. eexists _, k, a. cbn. rewrite Ex. by split_and!. }
  assert (I1 : accounts s1).
  { intros x' Ex'. subst s1. cbn in Ex'. rewrite Ex in Ex'. injection Ex' as <-.
    apply (slots_free x _ _ k a i f O N Ek Ea Ei). intros p (E1 & E2 & E3). split; [done|].
    split; [|split]; cbn; rewrite ?E1, ?E2, ?E3; [by rewrite Z.eqb_refl|done|by rewrite Z.sub_diag]. }
  assert (Done : forall s2, accounted s1 s2 ->
    accounts s2 /\ exists s1, frees (token a) s s1 /\ accounted s1 s2).
  { intros s2 A. split; [by eapply accounts_kept|]. by exists s1. }
  apply (wp_step (R := accounted)) with (s0 := s1); [apply ac_drives, fo_report|done|intros _; apply Done|].
  intros _ s2 A2. apply wp_reads. unfold id. wp_if G; [by apply Done|].
  apply (wp_step (R := accounted)) with (s0 := s1); [|done|intros _; apply Done|].
  { case_match; [|apply ev_ret]. intros t. split; [done|].
    eapply (onPaths_alter still _ _ i); [reflexivity|done]. }
  intros _ s3 A3. apply (wp_step (R := accounted)) with (s0 := s1); [|done|intros _; apply Done|].
  { destruct (source a); apply ac_drives; [apply fo_completeOwnedShard|apply fo_completeOwnedControl..]. }
  intros _ s4 A4. eapply evolves_wp; [apply ac_drives, fo_driveOwned|]. intros r s5 A5. apply Done. by etransitivity.
Qed.

(** ** Calls *)

Lemma accounted_tokens s s' : accounted s s' -> tokens s' = tokens s /\ lastToken s' = lastToken s.
Proof using.
  intros [E _]. unfold outstanding in E. unfold tokens, lastToken, slotsOf, sendsOf.
  destruct (sends (con s)), (sends (con s')); try done. cbn in *. by injection E as -> -> _ _.
Qed.

Lemma issues_tokens it s s' : accounts s -> issues it s s' ->
  Token it = lastToken s + 1 /\ lastToken s' = Token it /\ tokens s' = ({[Token it]} ∪ tokens s) /\
  intents s' !! Token it = Some {| is_packet := Packet it; is_sender := in_Sender it; released := false |}.
Proof using.
  intros I (x & x' & k & a & Ex & Ex' & Es & (a0 & Ek & E0) & Et & En & En' & _ & _ & Ei).
  pose proof (so_next _ _ _ (I x Ex)) as R. unfold lastToken, sendsOf. rewrite Ex, Ex'. cbn. split_and!; [done|done| |].
  - apply set_eq. intros t. rewrite elem_of_union, elem_of_singleton, !elem_of_tokens. unfold slotsOf, sendsOf.
    rewrite Ex, Ex'. cbn. rewrite Es. split.
    + intros (Ht & b & [->|Hb]%elem_of_insert_inv & <-); [by left|right]. by split; [|exists b].
    + intros [->|(Ht & b & Hb & <-)].
      * split; [lia|]. exists a. split; [|done]. eapply list_elem_of_lookup_2, list_lookup_insert_eq.
        by eapply lookup_lt_Some.
      * split; [done|]. exists b. split; [|done]. apply list_elem_of_lookup in Hb as [j Ej].
        apply (list_elem_of_lookup_2 _ j). rewrite list_lookup_insert_ne; [done|]. intros <-. by simplify_eq.
  - rewrite Ei. by apply lookup_insert_eq.
Qed.

Lemma frees_tokens t s s' : accounts s -> frees t s s' ->
  t ∈ tokens s /\ tokens s' = tokens s ∖ {[t]} /\ lastToken s' = lastToken s.
Proof using.
  intros I (x & x' & k & a & Ex & Ex' & Ek & Et & Nt & Es & En & _). pose proof (so_distinct _ _ _ (I x Ex)) as D.
  assert (Ha : a ∈ slots x) by by eapply list_elem_of_lookup_2.
  split_and!; [| |by unfold lastToken, sendsOf; rewrite Ex, Ex'].
  - apply elem_of_tokens. split; [done|]. exists a. unfold slotsOf, sendsOf. by rewrite Ex.
  - apply set_eq. intros u. rewrite elem_of_difference, elem_of_singleton, !elem_of_tokens. unfold slotsOf, sendsOf.
    rewrite Ex, Ex'. cbn. rewrite Es. split.
    + intros (Hu & b & Hb & <-). apply list_elem_of_lookup in Hb as [j [(_ & <- & _)|[Nj Ej]]%list_lookup_insert_Some];
        [done|]. split; [split; [done|]; exists b; split; [by eapply list_elem_of_lookup_2|done]|].
      intros E. apply Nj. eapply D; try done; [congruence|left; congruence].
    + intros ((Hu & b & Hb & <-) & Hn). split; [done|]. exists b. split; [|done].
      apply list_elem_of_lookup in Hb as [j Ej]. apply (list_elem_of_lookup_2 _ j).
      rewrite list_lookup_insert_ne; [done|]. intros <-. simplify_eq.
Qed.

Lemma ac_receiveJoin i now b reply m : evolves accounted (receiveJoin i now b reply m).
Proof using. apply (ac_controls still now); [done|apply fj_receiveJoin]. Qed.
Lemma ac_receiveAuthenticate e : evolves accounted (receiveAuthenticate e).
Proof using. unfold receiveAuthenticate. evolve. intros s. by apply accounted_local. Qed.
Lemma ac_drive now : evolves accounted (drive now).
Proof using. apply ac_drives, fo_drive. Qed.
#[local] Hint Resolve ac_receiveJoin ac_receiveAuthenticate ac_drive : evolve.
#[local] Hint Extern 1 (evolves _ (receiveRouted _ _ _ _ _ _)) => apply ad_receiveRouted : evolve.
Lemma ac_ReceiveBody now b reply packet : evolves accounted (ReceiveBody now b reply packet).
Proof using Y. unfold ReceiveBody. evolve. Qed.

(** A body of which only the first clause of [progress] is left. *)
Lemma entered_accounted {A} now (body : M A) s :
  evolves accounted body -> accounted s (snd (entered now body s)).
Proof using Y. intros E. exact (ad_entered body s E). Qed.

Lemma TakeSend_taken now s :
  accounts s -> numbered (paths (con s)) -> wp (TakeSend now) (taken s) s.
Proof using.
  intros I N. unfold TakeSend, entered, wp. cbv zeta. destruct (enter _ _).
  { split; [done|]. by apply accounted_local. }
  set (s1 := (s <| res := zeroResult |>) <| con ::= clocked now |>).
  pose proof (TakeSendBody_taken now s1 I N) as [I2 T]. destruct (TakeSendBody now s1) as [r s2]. cbn [fst snd] in *.
  split; [exact I2|]. destruct r as [[it|]|]; [|exact T..].
  destruct T as (s3 & s4 & A1 & Is & A2). exists s3, s4. split_and!; [exact A1|exact Is|]. etransitivity; [exact A2|].
  by apply accounted_local.
Qed.

Lemma BeginClose_accounted s : accounted s (s <| con ::= BeginClose |>).
Proof using.
  apply accounted_local; unfold outstanding, BeginClose; cbn; destruct (closed (con s)); try done. cbn.
  by destruct (sends (con s)).
Qed.

Lemma slotOf_found c x t k : sends c = Some x -> slotOf c t = Some k ->
  t <> 0 /\ exists a, slots x !! k = Some a /\ token a = t.
Proof using.
  unfold slotOf, sendsOf. intros ->. cbn. destruct (t =? 0) eqn:E; [done|].
  destruct (list_find _ _) as [[j a]|] eqn:El; [|done]. intros [= <-].
  apply list_find_Some in El as (Ej & Et & _). split; [lia|by exists a].
Qed.

(** A completion that is accepted is that of an outstanding packet, released by the adapter. *)
Lemma CompleteSend_frees now o s :
  accounts s -> numbered (paths (con s)) ->
  wp (CompleteSend now o) (fun r s' => accounts s' /\
    ((exists e, r = Err e) /\ accounted s s' \/
     (exists i, intents s !! out_Token o = Some i /\ released i = true) /\
     exists s1 s2, accounted s s1 /\ frees (out_Token o) s1 s2 /\ accounted s2 s')) s.
Proof using.
  intros I N. unfold wp, CompleteSend. cbv zeta. cbn [con res].
  assert (Refuse : forall (e : CtlError) (P : Prop), accounts (s <| res := zeroResult |>) /\
    ((exists e', Err e = Err e' :> result CtlError unit) /\ accounted s (s <| res := zeroResult |>) \/ P)).
  { intros e P. split; [exact I|left]. split; [by eexists|by apply accounted_local]. }
  destruct (_ || _) eqn:G1; [apply Refuse|]. destruct (busy _); [apply Refuse|]. destruct (_ && _); [apply Refuse|].
  destruct (slotOf _ _) as [k|] eqn:Ek; [|apply Refuse]. destruct (invalidOutcome _ _ _); [apply Refuse|].
  destruct (negb (match _ with Some i => _ | None => _ end)) eqn:G4; [apply Refuse|].
  change (con (s <| res := zeroResult |>)) with (con s) in *.
  change (intents (s <| res := zeroResult |>)) with (intents s) in *.
  apply orb_false_elim in G1 as [G1 _]. apply bool_decide_eq_false in G1.
  destruct (sends (con s)) as [x|] eqn:Ex; [|done]. destruct (slotOf_found _ _ _ _ Ex Ek) as (Ht & a & Ea & Et).
  assert (Es : slots (sendsOf (con s)) !!! k = a).
  { unfold sendsOf. rewrite Ex. by apply list_lookup_total_correct. }
  rewrite Es, Et in G4.
  match goal with |- context [CompleteSendBody now k o ?t] => set (s1 := t) end.
  assert (A1 : accounted s s1).
  { transitivity (s <| con ::= fun c => if scopeClosed (scope (con s)) (ledger s) then BeginClose c else c |>).
    - destruct (scopeClosed _ _); [apply BeginClose_accounted|by apply accounted_local].
    - by apply accounted_local. }
  destruct (sends (con s1)) as [x1|] eqn:Ex1; [|by rewrite (accounted_none _ _ A1 Ex1) in Ex].
  destruct (accounted_sends _ _ A1 x1 Ex1) as (y & Ey & Ey1 & _). rewrite Ex in Ey. injection Ey as <-.
  assert (W : wp (CompleteSendBody now k o) (fun _ s' => accounts s' /\ exists s2, frees (out_Token o) s1 s2 /\ accounted s2 s') s1).
  { rewrite <- Et. apply (CompleteSendBody_frees now k o s1 x1 a); [by eapply accounts_kept|by eapply accounted_numbered|done| |congruence].
    by rewrite Ey1. }
  unfold wp in W. destruct (CompleteSendBody now k o s1) as [r s2]. cbn [fst snd] in *.
  destruct W as (I2 & s3 & F & A3). split; [exact I2|right]. split.
  - destruct (intents s !! out_Token o) as [i|]; [|done]. exists i. split; [done|]. by destruct (released i).
  - exists s1, s3. split_and!; [done|done|]. etransitivity; [exact A3|]. by apply accounted_local.
Qed.

(** Closing keeps the account, until [FinalizeClose] erases it. *)
Definition closes : relation St := fun s s' => accounted s s' \/ sends (con s') = None.
#[export] Instance closes_preorder : PreOrder closes.
Proof.
  split; [by left|]. intros a b c [A|A] [B|B]; [left; by etransitivity|by right| |by right].
  right. destruct B as [E _]. unfold outstanding in E. rewrite A in E. by destruct (sends (con c)).
Qed.
Lemma cl_local {A} (m : M A) : evolves accounted m -> evolves closes m.
Proof using. apply evolves_sub. by left. Qed.
#[local] Hint Extern 1 (evolves _ (modify _)) => apply cl_local; intros ?; by apply accounted_local : evolve.
Lemma FinalizeClose_closes : evolves closes FinalizeClose.
Proof using.
  unfold FinalizeClose. evolve.
  - apply cl_local, ac_local. intros s. unfold closeQueue. destruct (queue (con s)); [|done].
    by destruct (Aggregation.Close _ _).
  - apply cl_local, ac_local. intros s. unfold closeOriginals. destruct (originals (con s)); [|done].
    by destruct (Reassembly.Close _ _).
  - by apply cl_local, ac_local.
  - apply cl_local, ac_data, fd_releaseGroup.
  - apply cl_local, ac_drives, (drives_emits _ 0), fe_releaseOut.
  - apply cl_local, ac_local. intros s. unfold closeWorkspace. destruct (outputWorkspace (con s)); [|done].
    by destruct (Aggregation.Workspace_Close _ _ _).
  - apply cl_local, ac_data, fd_releaseLease.
  - apply cl_local, ac_data, fd_releaseLease.
  - apply cl_local, ac_data, fd_releaseLease.
  - intros s. by right.
Qed.

Lemma FinalizeClose_pending s :
  PendingSends (con s) <> 0 -> accounted s (snd (FinalizeClose s)).
Proof using.
  intros Hp. unfold FinalizeClose, bind at 1, reads at 1. cbn [id]. destruct (finalized _); [done|].
  destruct (negb (closed _)); [done|]. replace (PendingSends (con s) =? 0) with false by lia. done.
Qed.

Lemma closes_accounts s s' : closes s s' -> accounts s -> accounts s'.
Proof using. intros [A|E] I; [by eapply accounts_kept|]. intros x. by rewrite E. Qed.

(** The calls that neither take nor complete. *)
Definition neutral (c : call) : Prop :=
  match c with CallTakeSend _ | CallCompleteSend _ _ | CallRelease _ => False | _ => True end.

Lemma perform_neutral c s : neutral c -> closes s (perform c s) /\
  (PendingSends (con s) <> 0 -> accounted s (perform c s)).
Proof using Y.
  intros Nc. assert (One : accounted s (perform c s) -> closes s (perform c s) /\
    (PendingSends (con s) <> 0 -> accounted s (perform c s))) by (intros A; split; [by left|done]).
  destruct c; cbn [perform neutral] in *; try done.
  - apply One, entered_accounted, ad_StartBody.
  - apply One, entered_accounted, ad_WriteBody.
  - apply One, entered_accounted, ad_FlushBody.
  - apply One, entered_accounted, ad_AdvanceBody.
  - apply One, entered_accounted, ad_FailPathBody.
  - apply One, entered_accounted, ad_JoinBody.
  - apply One, entered_accounted, ac_ReceiveBody.
  - apply One, accounted_local; done.
  - apply One, BeginClose_accounted.
  - split; [apply FinalizeClose_closes|apply FinalizeClose_pending].
  - unfold Close. split.
    + etransitivity; [left; apply BeginClose_accounted|apply FinalizeClose_closes].
    + intros Hp. etransitivity; [apply BeginClose_accounted|apply FinalizeClose_pending].
      unfold BeginClose. cbn. destruct (closed (con s)); [done|]. unfold PendingSends in *. cbn. by destruct (sends (con s)).
Qed.

Lemma perform_accounts c s : sane s -> accounts s -> accounts (perform c s).
Proof using Y.
  intros [N _ _] I. destruct c as [| | | | | | | |? o|t| | | |]; try (by eapply closes_accounts; [apply perform_neutral|exact I]); cbn [perform].
  - apply (TakeSend_taken now s I N).
  - apply (CompleteSend_frees now o s I N).
  - intros x Ex. destruct (I x Ex) as [? ? ? ? ? ? J]. split; try done. intros a Ha Ht. cbn.
    destruct (J a Ha Ht) as [i Ei]. destruct (decide (t = token a)) as [->|Ne].
    + rewrite lookup_alter_eq, Ei. by eexists.
    + rewrite lookup_alter_ne, Ei by done. by eexists.
Qed.

Lemma fresh_accounts su p s : fresh su p s -> accounts s.
Proof using.
  intros F x Ex. rewrite (fr_sends _ _ _ F) in Ex. destruct (OwnedSends _); [|done]. injection Ex as <-.
  assert (Z : forall n a, a ∈ replicate n zeroSlot -> token a = 0).
  { intros n a [-> _]%elem_of_replicate. done. }
  split; cbn.
  - unfold maxUint64. lia.
  - intros a Ha. rewrite (Z _ _ Ha). lia.
  - intros j k a b Ea _ Ha. destruct Ha. eapply Z, list_elem_of_lookup_2, Ea.
  - unfold busySlots. induction (Z.to_nat _) as [|n IH]; [done|]. cbn [replicate]. rewrite filter_cons. by case_decide.
  - intros i q Eq. left. split; [|intros a Ha Ht; by destruct Ht; eapply Z].
    destruct (fr_paths _ _ _ F) as (sd & g & n & E). rewrite E in Eq. revert Eq.
    destruct (decide (i = pathIndex (Handshake.PathID su))) as [->|N].
    + rewrite list_lookup_alter_eq, list_lookup_fmap. destruct (seq _ _ !! _); [|done]. by intros [= <-].
    + rewrite list_lookup_alter_ne, list_lookup_fmap by done. destruct (seq _ _ !! _); [|done]. by intros [= <-].
  - intros a Ha Ht. destruct Ht. by eapply Z.
  - intros a Ha Ht. destruct Ht. by eapply Z.
Qed.

Lemma reachable_accounts others s : reachable others s -> accounts s.
Proof using Y.
  induction 1 as [addr su cf st s _ E|c s R IH|s w e _ IH _].
  - apply New_fresh in E as (p & _ & F & _). by eapply fresh_accounts.
  - apply perform_accounts; [by eapply reachable_sane|done].
  - exact IH.
Qed.

Lemma idle_tokens s : accounts s -> PendingSends (con s) = 0 -> tokens s = ∅.
Proof using.
  intros I Hp. unfold tokens, slotsOf, sendsOf. unfold PendingSends in Hp. destruct (sends (con s)) as [x|] eqn:Ex; [|done].
  cbn. rewrite (so_active _ _ _ (I x Ex)) in Hp. by apply len_zero in Hp as ->.
Qed.

Lemma busy_NoDup (f : sendSlot -> Z) l :
  (forall j k a b, l !! j = Some a -> l !! k = Some b -> token a <> 0 -> token b <> 0 -> f a = f b -> j = k) ->
  NoDup (f <$> busySlots l).
Proof using.
  intros D. induction l as [|a l IH]; [constructor|]. unfold busySlots in *. rewrite filter_cons.
  assert (NoDup (f <$> filter (fun a => token a <> 0) l)).
  { apply IH. intros j k b c Ej Ek Hb Hc E. specialize (D (S j) (S k) b c Ej Ek Hb Hc E). lia. }
  case_decide as Ha; [|done]. rewrite fmap_cons. constructor; [|done].
  intros (b & Eb & [Hb [j Ej]%list_elem_of_lookup]%list_elem_of_filter)%list_elem_of_fmap.
  by specialize (D 0%nat (S j) a b eq_refl Ej Ha Hb Eb).
Qed.

(** C7: The account of owned sends is exact.  In every reachable state of a Controller
    that owns its sends, [PendingSends] counts the slots with a token; no two of them
    have the same token or the same path, and none is newer than the last token issued;
    a path records exactly the packet that is outstanding on it, its size included, and
    an idle path records nothing. *)
Theorem sends_accounted others s x :
  reachable others s -> sends (con s) = Some x ->
  let busy := busySlots (slots x) in
  PendingSends (con s) = len busy /\ NoDup (token <$> busy) /\ NoDup (slot_path <$> busy) /\
  Forall (fun a => 0 < token a <= nextToken x) busy /\
  forall i p, paths (con s) !! i = Some p ->
    (sendToken p = 0 /\ queuedPackets p = 0 /\ queuedBytes p = 0 /\ (forall a, a ∈ busy -> slot_path a <> pathid p)) \/
    exists a, a ∈ busy /\ slot_path a = pathid p /\ sendToken p = token a /\ queuedPackets p = 1 /\
      queuedBytes p = u64 (slot_bytes a).
Proof using Y.
  intros R Ex busy. destruct (reachable_accounts _ _ R x Ex) as [Rg T D C Q W J].
  assert (In : forall a, a ∈ busy <-> token a <> 0 /\ a ∈ slots x).
  { intros a. unfold busy, busySlots. by rewrite list_elem_of_filter. }
  split_and!.
  - unfold PendingSends. by rewrite Ex.
  - apply busy_NoDup. intros j k a b Ea Eb Ha Hb E. by apply (D j k a b); auto.
  - apply busy_NoDup. intros j k a b Ea Eb Ha Hb E. by apply (D j k a b); auto.
  - apply list.Forall_forall. intros a [Ha Hs]%In. specialize (T a Hs). lia.
  - intros i p Ep. destruct (Q i p Ep) as [[(E1 & E2 & E3) Hn]|(a & Ha & Ht & Hp & (E1 & E2 & E3) & _)].
    + left. split_and!; try done. intros a [Ht Ha]%In. by apply Hn.
    + right. exists a. by split_and!; try apply In.
Qed.

(** C8: An owned packet is outstanding from its [TakeSend] to its [CompleteSend], and to
    no other call.  A [TakeSend] that returns an intent issues the next token, newer than
    all before it, and adds exactly that token; the intent keeps the packet.  A
    [CompleteSend] either is refused and changes nothing that is outstanding, or removes
    exactly its token, which was outstanding and released by the adapter: the same token
    is refused from then on.  No other call adds or removes a token: closing does not
    lose a packet, and [FinalizeClose] erases nothing while one is outstanding. *)
Theorem intent_lifecycle others s c :
  reachable others s ->
  let s' := perform c s in
  match c with
  | CallTakeSend now =>
      match fst (TakeSend now s) with
      | Ok (Some it) => Token it = lastToken s + 1 /\ (Token it ∉ tokens s) /\ tokens s' = ({[Token it]} ∪ tokens s) /\
          lastToken s' = Token it /\ exists i, intents s' !! Token it = Some i /\ is_packet i = Packet it
      | _ => tokens s' = tokens s /\ lastToken s' = lastToken s
      end
  | CallCompleteSend now o =>
      lastToken s' = lastToken s /\
      ((exists e, fst (CompleteSend now o s) = Err e) /\ tokens s' = tokens s \/
       out_Token o ∈ tokens s /\ tokens s' = (tokens s ∖ {[out_Token o]}) /\
         exists i, intents s !! out_Token o = Some i /\ released i = true)
  | _ => tokens s' = tokens s /\ (sends (con s') = None \/ lastToken s' = lastToken s)
  end.
Proof using Y.
  intros R s'. pose proof (reachable_accounts _ _ R) as I. pose proof (sn_numbered _ (reachable_sane _ _ R)) as N.
  assert (Neutral : neutral c -> tokens s' = tokens s /\ (sends (con s') = None \/ lastToken s' = lastToken s)).
  { intros Nc. destruct (perform_neutral c s Nc) as [[A|En] Hp].
    - destruct (accounted_tokens _ _ A). auto.
    - split; [|by left]. destruct (Z.eq_dec (PendingSends (con s)) 0) as [E|E].
      + rewrite (idle_tokens s I E). unfold tokens, slotsOf, sendsOf, s'. by rewrite En.
      + by apply (accounted_tokens _ _ (Hp E)). }
  destruct c as [| | | | | | |now|now o|t| | | |]; try (by apply Neutral); subst s'; cbn [perform].
  - pose proof (TakeSend_taken now s I N) as T. unfold wp in T. destruct (TakeSend now s) as [r s'].
    cbn [fst snd] in *. destruct T as [_ T]. destruct r as [[it|]|]; [|by apply accounted_tokens..].
    destruct T as (s1 & s2 & A1 & Is & A2). pose proof (accounts_kept _ _ A1 I) as I1.
    destruct (issues_tokens _ _ _ I1 Is) as (E1 & E2 & E3 & E4).
    destruct (accounted_tokens _ _ A1) as [T1 L1], (accounted_tokens _ _ A2) as [T2 L2].
    assert (intents s' = intents s2) as Ei by (exact (f_equal snd (proj1 A2))).
    split_and!; [congruence| |congruence|congruence|].
    + intros (Ht & a & Ha & Ea)%elem_of_tokens. revert Ha. unfold slotsOf, sendsOf.
      destruct (sends (con s)) as [x|] eqn:Ex; [|apply not_elem_of_nil]. intros Ha.
      pose proof (so_tokens _ _ _ (I x Ex) a Ha). unfold lastToken, sendsOf in *. rewrite Ex in *. cbn in *. lia.
    + rewrite Ei, E4. by eexists.
  - pose proof (CompleteSend_frees now o s I N) as T. unfold wp in T. destruct (CompleteSend now o s) as [r s'].
    cbn [fst snd] in *. destruct T as [_ [[[e ->] A]|[Hi (s1 & s2 & A1 & F & A2)]]].
    + destruct (accounted_tokens _ _ A). split; [done|left]. split; [by exists e|done].
    + pose proof (accounts_kept _ _ A1 I) as I1. destruct (frees_tokens _ _ _ I1 F) as (F1 & F2 & F3).
      destruct (accounted_tokens _ _ A1) as [T1 L1], (accounted_tokens _ _ A2) as [T2 L2].
      split; [congruence|right]. split_and!; [by rewrite <- T1|congruence|done].
  - split; [done|by right].
Qed.
End owned.
