(* ===== verification/SessionV2Demo.v ===== *)
(** * Two version 2 Controllers at work

    An initiator with two carriers and its responder: budgets, encoding contexts, the
    validation of the second path, and a Datagram.  The witnesses of the claims on
    Controllers are stated on this run. *)

From S2P Require Import Prelude Sha256 CreditScope SessionV2Types SessionV2Control SessionV2Send SessionV2Data SessionV2.
From S2P Require Import SessionV2Rules SessionV2Frames SessionV2Run SessionV2Paths SessionV2Rate SessionV2Owned.
From S2P Require Credit Fec FecV2 Negotiation WireV2 WireV2Bundle Transcript Handshake Aggregation Reassembly.
#[local] Existing Instance Fec.xorReedSolomon.

(** ** The adapter: it logs what is emitted, and draws a fixed nonce *)

Record Wires := { log : list (option Sender * bytes); drawn : Z }.

#[global] Instance demoLinks : Links.
Proof.
  refine {| Env := Wires;
    Available _ _ := true; Generation _ _ := 1;
    CaptureSendPath s _ := Ok (s, false); boundAddresses _ := None;
    Emit s p w := (None, {| log := log w ++ [(s, p)]; drawn := drawn w |});
    Entropy w := (Some (replicate 15 Byte.x00 ++ [byte_of_Z (drawn w + 1)]), {| log := log w; drawn := drawn w + 1 |});
    iteration _ m := (map_to_list m).*1 |}.
  - intros e v e' [= <- <-]. reflexivity.
  - done.
Defined.

#[global] Instance demoLayout : Layout := {|
  sizeofController := 4096; sizeofPathState := 4096; sizeofOwnedSendState := 512; sizeofSendSlot := 256;
  sizeofSendIntent := 256; sizeofIntentState := 64; sizeofFECRecord := 48; sizeofFragment := 40;
  sizeofPendingGroup := 128 |}.

(** ** Contract and configuration *)

Definition demoProfile : Negotiation.Profile := {|
  Negotiation.Protocol := Negotiation.Datagram; Negotiation.OfferedCaps := 3; Negotiation.RequiredCaps := 1;
  Negotiation.LayoutID := 1; Negotiation.DataShards := 2; Negotiation.ParityShards := 1;
  Negotiation.Mux := 0; Negotiation.Discovery := 0; Negotiation.Scope := 0;
  Negotiation.Payload := {| Negotiation.SendHardCap := 1400; Negotiation.ReceiveHardCap := 1200;
    Negotiation.BootstrapBytes := 512; Negotiation.InnerKCPBytes := 0 |};
  Negotiation.DatagramL := {| Negotiation.DatagramWindow := 64; Negotiation.GroupWindow := 64;
    Negotiation.MaxDatagramBytes := 1000; Negotiation.MaxFragments := 16; Negotiation.MaxDescriptors := 8;
    Negotiation.MaxDatagramAssemblies := 32 |};
  Negotiation.Repair := Negotiation.zeroRepairLimits; Negotiation.Streams := Negotiation.zeroStreamLimits;
  Negotiation.Epochs := {| Negotiation.MaxOldEpochs := 1; Negotiation.MaxMigrations := 0;
    Negotiation.GraceMS := 1000 |};
  Negotiation.MaxPaths := 2 |}.

Definition demoContract : Negotiation.Contract := Eval vm_compute in
  match Negotiation.Select {| Negotiation.Adv_Profile := demoProfile; Negotiation.BootstrapPathID := 1 |} demoProfile with
  | Ok x => snd x
  | Err _ => zeroContract
  end.

Definition v4 (a p : Z) : Handshake.AddrPort := {| Handshake.addr := Handshake.V4 a; Handshake.port := p |}.
Definition near (i : Z) : Binding :=
  {| Handshake.SocketID := i; Handshake.Local := v4 167772161 (1000 + i); Handshake.Remote := v4 167772162 (2000 + i) |}.
Definition far (i : Z) : Binding :=
  {| Handshake.SocketID := 9; Handshake.Local := v4 167772162 (2000 + i); Handshake.Remote := v4 167772161 (1000 + i) |}.

Definition demoConfig (initiator owned : bool) : Config := {|
  LocalProfile := demoProfile;
  cfg_SendLimits := {| Negotiation.Send_Datagram := Negotiation.DatagramL demoProfile;
                       Negotiation.Send_Streams := Negotiation.zeroStreamSendLimits |};
  FixedPayloadBudget := 512; cfg_Aggregation := false; MaxGroupBytes := 4096;
  cfg_Queue := {| Aggregation.MaxQueuedDatagrams := 8; Aggregation.MaxQueuedBytes := 4096;
    Aggregation.MaxDatagramBytes := 1000; Aggregation.MaxFragmentsPerDatagram := 16;
    Aggregation.MaxDelay := 1000000 |};
  cfg_Reassembly := {| Reassembly.MaxDatagrams := 32; Reassembly.lim_MaxDatagramBytes := 1000;
    Reassembly.MaxFragments := 16; Reassembly.Span := 64; Reassembly.Timeout := 10 ^ 9 |};
  MaxPendingGroups := 4; GroupTimeout := 10 ^ 9;
  Carriers := if initiator then [{| car_PathID := 1; car_Binding := near 1; car_Sender := Some 1%positive |};
                                 {| car_PathID := 2; car_Binding := near 2; car_Sender := Some 2%positive |}] else [];
  BootstrapPath := Some 1%positive; hasEntropy := true; PathRatesBPS := ∅; OwnedSends := owned;
  MaxInFlightSends := 2; MaxPathQueuedPackets := 4; MaxPathQueuedBytes := 4096; MaxQueueResidence := 50 * millisecond;
  hasEmit := true |}.

Definition claimsOf (c : Config) : list Z := match requiredInitialClaims c with Ok l => l | Err _ => [] end.

(** A ledger with one established Session that holds the six claims. *)
Definition ledgerLimits : Credit.Limits := {|
  Credit.MaxPeerBytes := 2 ^ 20; Credit.MaxSessionBytes := 2 ^ 20; Credit.MaxSessions := 4;
  Credit.MaxPendingHandshakes := 4; Credit.MaxPendingAccepts := 4; Credit.MaxStreamsPerSession := 4;
  Credit.MaxPeerStreams := 4; Credit.MaxReservations := 100 |}.

Definition prepaid (c : Config) : Ptr * list Ptr * Credit.heap :=
  let '(p, h) := Credit.New ledgerLimits Credit.emptyHeap in
  match p with
  | Ok p =>
      match Credit.BeginSession (Some p) Credit.zeroClaim h with
      | (Ok (s, _), h) =>
          let '(ls, h) := foldl (fun '(ls, h) n =>
            match Credit.Reserve (Some s) (bytesOnly n) h with
            | (Ok l, h) => (ls ++ [l], h)
            | (Err _, h) => (ls, h)
            end) ([], h) (claimsOf c) in (s, ls, h)
      | (Err _, h) => (1%positive, [], h)
      end
  | Err _ => (1%positive, [], h)
  end.

Definition demoSetup (r : Negotiation.Role) (b : Binding) (x : Ptr * list Ptr * Credit.heap) : Handshake.Setup := {|
  Handshake.ID := replicate 16 Byte.x05; Handshake.setup_DialID := 0; Handshake.setup_Role := r;
  Handshake.PathID := 1; Handshake.setup_Binding := b; Handshake.setup_Contract := Some demoContract;
  Handshake.Keys := {| Transcript.ClientToServer := replicate 32 Byte.x0a;
                       Transcript.ServerToClient := replicate 32 Byte.x0b |};
  Handshake.setup_Scope := Some (fst (fst x)); Handshake.Receive_claim := Credit.zeroClaim;
  Handshake.Initial := snd (fst x) |}.

Definition start0 (c : Config) : St := {|
  con := zeroController; res := zeroResult; intents := ∅; spaces := ∅; ledger := snd (prepaid c) : World;
  env := {| log := []; drawn := 0 |} : Env |}.

Definition newEnd (initiator owned : bool) : result CtlError unit * St :=
  let c := demoConfig initiator owned in
  New 1%positive (demoSetup (if initiator then Negotiation.Initiator else Negotiation.Responder)
                    (if initiator then near 1 else far 1) (prepaid c)) c (start0 c).

(** The packets an end has emitted, and a fresh log. *)
Definition wires (s : St) : list (option Sender * bytes) := log (env s).
Definition clear (s : St) : St := s <| env := {| log := []; drawn := drawn (env s) |} |>.
Definition ms (n : Z) : Z := n * millisecond.
Definition at_far (now : Z) (w : option Sender * bytes) : call :=
  let n := default 1%positive (fst w) in CallReceive now (far (Z.pos n)) (Some n) (snd w).
Definition at_near (now : Z) (w : option Sender * bytes) : call :=
  let n := default 1%positive (fst w) in CallReceive now (near (Z.pos n)) (Some n) (snd w).
Definition calls (cs : list call) (s : St) : St := foldl (fun s c => perform c s) s cs.

(** The first packet of a type. *)
Definition packetOf (t : Z) (s : St) : option Sender * bytes :=
  default (None, []) (head (filter (fun w => byte_at 5 w.2 = t) (wires s))).

(** The first component of a computed tuple. *)
Ltac first_fact E := repeat apply pair_equal_spec in E as [E _]; exact E.

(** A state is reached by the calls of its owner. *)
Definition anyone (s : St) (w : World) : Prop := True.
Lemma calls_reachable others cs s : reachable others s -> reachable others (calls cs s).
Proof. revert s. induction cs as [|c cs IH]; intros s R; [exact R|]. apply IH. by apply reach_call. Qed.

Lemma newEnd_ok i o : fst (newEnd i o) = Ok tt -> reachable anyone (snd (newEnd i o)).
Proof.
  intros E. unfold newEnd in *. cbv zeta in *. destruct (New _ _ _ _) as [r s] eqn:N. cbn in *. subst r.
  exact (reach_new anyone _ _ _ (start0 (demoConfig i o)) s eq_refl N).
Qed.

(** ** The validation of the second path *)

Definition near0 : St := calls [CallStart (ms 1)] (snd (newEnd true false)).
Definition pathJoinPacket : option Sender * bytes := Eval vm_compute in packetOf WireV2.TypePathJoin near0.
Definition far0 : St := calls [CallStart (ms 1); at_far (ms 2) pathJoinPacket] (snd (newEnd false false)).
Definition pathChallengePacket : option Sender * bytes := Eval vm_compute in packetOf TypePathChallenge far0.
Definition pathConfirmPacket : option Sender * bytes := Eval vm_compute in
  packetOf TypePathConfirm (calls [at_near (ms 3) pathChallengePacket] near0).

(** The responder before and after the PATH_CONFIRM. *)
Definition far1 : St := perform (at_far (ms 4) pathConfirmPacket) far0.

Lemma demo_commit :
  (fst (newEnd false false), length (paths (con far0)), length (paths (con far1)),
   (generation <$> paths (con far0)), (generation <$> paths (con far1)))
  = (Ok tt, 2%nat, 2%nat, [1; 0], [1; 1]).
Proof. vm_compute. reflexivity. Qed.

Lemma far0_reachable : reachable anyone far0.
Proof.
  apply calls_reachable, newEnd_ok. pose proof demo_commit as E. first_fact E.
Qed.

Lemma path_authority_witness :
  exists p p' m, paths (con far0) !! 1%nat = Some p /\ paths (con far1) !! 1%nat = Some p' /\
    authentic far0 (snd pathConfirmPacket) m /\ validates (con far0) (ms 4) (far 2) m p /\
    generation p = 0 /\ generation p' = 1 /\ binding p' = far 2.
Proof.
  pose proof demo_commit as E.
  apply pair_equal_spec in E as [E G1]. apply pair_equal_spec in E as [E G0]. apply pair_equal_spec in E as [E L1]. apply pair_equal_spec in E as [_ L0].
  destruct (lookup_lt_is_Some_2 (paths (con far0)) 1) as [p Ep]; [rewrite L0; lia|].
  destruct (lookup_lt_is_Some_2 (paths (con far1)) 1) as [p' Ep']; [rewrite L1; lia|].
  assert (E0 : generation p = 0).
  { apply (f_equal (fun l => l !! 1%nat)) in G0. rewrite list_lookup_fmap, Ep in G0. by injection G0. }
  assert (E1 : generation p' = 1).
  { apply (f_equal (fun l => l !! 1%nat)) in G1. rewrite list_lookup_fmap, Ep' in G1. by injection G1. }
  exists p, p'.
  destruct (path_authority anyone far0 (at_far (ms 4) pathConfirmPacket) 1 p p' far0_reachable Ep Ep')
    as [[Eg _]|(now & b & reply & packet & m & Ec & Au & _ & V & _ & _ & Hb & _)]; [exfalso; congruence|].
  exists m. unfold at_far in Ec. injection Ec as <- <- <- <-. by split_and!.
Defined.

(** ** A packet with a wrong tag *)

Definition forged : bytes := Eval vm_compute in take 511 (snd pathConfirmPacket) ++ [Byte.x00].

Lemma demo_forged :
  match WireV2.ParseEnvelope forged with
  | Ok e => match WireV2.Authenticate e (receiveKey (con far0)) with Ok _ => false | Err _ => true end
  | Err _ => true
  end = true.
Proof. vm_compute. reflexivity. Qed.

Lemma unauthentic_ignored_witness :
  let s' := perform (CallReceive (ms 4) (far 2) (Some 2%positive) forged) far0 in
  unclocked (con s') = unclocked (con far0) /\ Sends (res s') = [] /\ env s' = env far0.
Proof.
  destruct (unauthentic_ignored anyone far0 (ms 4) (far 2) (Some 2%positive) forged far0_reachable)
    as (E1 & E2 & _ & _ & _ & _ & E3); [|by split_and!].
  intros m (e & a & Hp & _ & _ & Ha & _). pose proof demo_forged as F. rewrite Hp, Ha in F. discriminate F.
Defined.

(** ** The pace of a path: two attempts of the budget update *)

Definition startAt : call := CallStart (ms 1).
Definition retryNow : call := CallAdvance (ms 251).
Definition idleEnd : St := snd (newEnd false false).
Definition twice : list Timed := emitted startAt idleEnd ++ emitted retryNow (perform startAt idleEnd).

Lemma demo_rate :
  (fst (newEnd false false), OwnedSends (cfg (con idleEnd)),
   length (paths (con (perform retryNow (perform startAt idleEnd)))),
   rate <$> paths (con (perform retryNow (perform startAt idleEnd))),
   (fun x => (fst x, at_Bytes (snd x))) <$> onPathID 1 twice, forallb (fun x => (0 <=? at_Bytes (snd x)) && (at_Bytes (snd x) <=? 65507)) twice)
  = (Ok tt, false, 2%nat, [DefaultPathRateBPS; DefaultPathRateBPS], [(ms 1, 80); (ms 251, 80)], true).
Proof. vm_compute. reflexivity. Qed.

Lemma forallb_udp l :
  forallb (fun x : Timed => (0 <=? at_Bytes (snd x)) && (at_Bytes (snd x) <=? 65507)) l = true -> Forall udp l.
Proof.
  rewrite forallb_forall. intros E. apply list.Forall_forall. intros x Hx%list_elem_of_In. specialize (E x Hx). unfold udp. lia.
Qed.

Lemma trace_two others s c d :
  trace others s (emitted c s ++ emitted d (perform c s)) (perform d (perform c s)).
Proof. exact (trace_call _ _ _ _ d (trace_call _ _ [] s c (trace_nil _ s))). Qed.

(** The first path has the rate that the configuration leaves as a default. *)
Lemma first_rate l (r r' : Z) : length l = 2%nat -> rate <$> l = [r; r'] -> exists p, l !! 0%nat = Some p /\ rate p = r.
Proof. destruct l as [|p l]; [done|]. intros _ [= E _]. by exists p. Qed.

Lemma two_packets (l : list Timed) n m a b :
  (fun x => (fst x, at_Bytes (snd x))) <$> l = [(n, a); (m, b)] ->
  exists x y, l = ([x] ++ [] ++ [y]) /\ fst x = n /\ fst y = m /\ at_Bytes (snd x) = a.
Proof. destruct l as [|x [|y [|]]]; try done. intros [= E1 E2 E3 _]. by exists x, y. Qed.

Lemma path_rate_witness : 8 * second * 80 <= DefaultPathRateBPS * (ms 251 - ms 1).
Proof.
  pose proof demo_rate as E. apply pair_equal_spec in E as [E Eu]. apply pair_equal_spec in E as [E Es].
  apply pair_equal_spec in E as [E Er]. apply pair_equal_spec in E as [E El]. apply pair_equal_spec in E as [En Eo].
  pose proof (trace_two anyone idleEnd startAt retryNow : trace anyone idleEnd twice _) as T.
  destruct (first_rate _ _ _ El Er) as (p & Ep & Rp). destruct (two_packets _ _ _ _ _ Es) as (x & y & Ex & X1 & Y1 & X2).
  apply forallb_udp in Eu.
  assert (Hr : rate_ok (rate p)) by (rewrite Rp; clear; unfold rate_ok, DefaultPathRateBPS; lia).
  pose proof (path_rate anyone idleEnd twice _ 0 p x [] y (newEnd_ok _ _ En) Eo T Ep Hr Eu Ex) as B.
  rewrite Rp, X1, Y1 in B. change (bytesOf [x]) with (at_Bytes (snd x) + 0) in B. rewrite X2 in B.
  exact B.
Defined.

(** ** Owned sends: the budget update leaves as an intent *)

Definition ownedEnd : St := perform startAt (snd (newEnd false true)).
Definition takenEnd : St := perform (CallTakeSend (ms 1)) ownedEnd.

Lemma demo_owned :
  (fst (newEnd false true), match fst (TakeSend (ms 1) ownedEnd) with Ok (Some it) => Token it | _ => 0 end,
   bool_decide (is_Some (sends (con takenEnd))))
  = (Ok tt, 1, true).
Proof. vm_compute. reflexivity. Qed.

Lemma ownedEnd_reachable : reachable anyone ownedEnd.
Proof.
  apply (reach_call _ startAt), newEnd_ok. pose proof demo_owned as E. first_fact E.
Qed.

Lemma intent_lifecycle_witness : tokens takenEnd = ({[1]} ∪ tokens ownedEnd).
Proof.
  pose proof demo_owned as E. apply pair_equal_spec in E as [E _]. apply pair_equal_spec in E as [_ Et].
  pose proof (intent_lifecycle anyone ownedEnd (CallTakeSend (ms 1)) ownedEnd_reachable) as T. cbv beta zeta iota in T.
  destruct (fst (TakeSend (ms 1) ownedEnd)) as [[it|]|e]; [|lia..]. destruct T as (_ & _ & T & _). by rewrite Et in T.
Defined.

Lemma sends_accounted_witness :
  exists x, sends (con takenEnd) = Some x /\ PendingSends (con takenEnd) = len (busySlots (slots x)).
Proof.
  pose proof demo_owned as E. apply pair_equal_spec in E as [_ Es]. apply bool_decide_eq_true in Es as [x Ex].
  exists x. split; [exact Ex|]. apply (sends_accounted anyone takenEnd x); [|exact Ex].
  apply (reach_call _ (CallTakeSend (ms 1))), ownedEnd_reachable.
Defined.
